(* ===== verification/_CoqProject ===== *)
-Q . S2P
Prelude.v
QueueInterface.v
CircularQueue.v
Packet.v
PacketEncoder.v
MirrorBufferSet.v
ThresholdQueueBase.v
ThresholdQueue.v
QueueBase.v
D4R.v
LocalContext.v
Base64.v
Variant.v
RemoteServer.v
RemoteClient.v
RemoteContext.v
RemoteRefinement.v
RemoteCalls.v
RemoteWaits.v
RemoteQueue.v
RemoteHalf.v
RemoteStream.v
Fairness.v
Kernel.v
KernelInvariants.v
KernelShutdown.v
KernelExamples.v
Network.v
NodeLoader.v
ThreadPool.v
BinaryHeap.v
PrimeSieve.v
PrimeWheel.v
ThresholdSieve.v
SimpleSieve.v
Monitor.v
Synchronize.v
CPNLoader.v
JsonParser.v
JsonVariant.v
JsonSafety.v
JsonMemory.v
Connections.v
