(* ===== verification/Prelude.v ===== *)
(** * The Computational Process Networks library, verified

    This development models the core of the repository's C++ libraries and
    proves what they are for.  Sources are named relative to src/.

    ** The program

    A process network is nodes (threads) that exchange bytes over queues.  A
    queue ([libraries/CPN/ThresholdQueue], on [libraries/ThresholdQueue] and
    [libraries/MirrorBufferSet]) hands out pointers to contiguous memory up to a
    threshold and blocks its reader and its writer ([libraries/CPN/QueueBase]);
    nodes that block on one another in a ring are found by the D4R algorithm
    ([libraries/D4R]).  A queue between two processes sends packets over a
    socket ([libraries/CPN/PacketEncoder], [PacketDecoder], [PacketHeader],
    [RemoteQueue]), which are buffered in a [libraries/CircularQueue].  The names and keys of
    kernels, nodes and endpoints are in a registry, which is an object of the
    process ([libraries/CPN/LocalContext]) or a server that every process talks
    to ([RemoteContextServer], [RemoteContextClient]) with messages that are
    [libraries/Variant]s.  [libraries/Base64] is used by the XML form of data.
    A kernel ([libraries/CPN/Kernel]) is a thread that makes nodes, counts them,
    joins the ones that ended and makes the queues between them, here or by
    messages to other kernels; the types of nodes come from shared libraries that
    lists of nodes name ([libraries/CPN/NodeLoader]).
    Two of the programs are networks that find primes ([apps/SieveOfEratosthenes],
    on [tools/PrimeSieve]).

    ** The files

    [Prelude]: faults, the state-and-fault monad [M], machine words, lists of
    bytes, and the tactics ([mred], [words], [zcases], [zdecide]).
    [QueueInterface]: the interface [DequeueSide] of a queue that is drained into
    an encoder, and its laws; [CircularQueue] and [ThresholdQueueBase] are
    instances and [PacketEncoder] is proved against the interface.

    [CircularQueue] ([CQ]): [libraries/CircularQueue]; state [CQ.queue], one
    definition per method.  [Packet], [PacketEncoder] ([Packet], [PE]): headers as
    their 64 bytes, the decoder, the encoder.
    [MirrorBufferSet] ([MBS]), [ThresholdQueueBase] ([TQB]), [ThresholdQueue]
    ([TQ]): the in-place queue, from the memory mappings up to the queue that
    grows while pointers are out.  [QueueBase] ([QB]): the blocking protocol, over
    any queue of the class [RawQueue]; [QB.system] and [QB.step] are the two
    threads and their interleaving, with spurious wake-ups, the termination of the
    kernel and its later broadcast, and calls of [Grow] by any other thread.
    [D4R]: tags, the functions of a node, and the loops of all nodes of a ring as
    a step relation.
    [LocalContext] ([LC]): the registry, one definition per method, [LC.run] for
    the calls as data.
    [Base64] ([B64]): the encoder and the decoder.
    [Variant] ([Var]): the values of messages.
    [RemoteServer] ([RCS]): the handlers of [RemoteContextServer].
    [RemoteClient] ([RCC]): [RemoteContextClient]; an operation is a program of
    steps under the lock and of waits, so that what happens while it waits can be
    put in between.
    [RemoteContext] ([RC]): a client with the server, the delivery of messages
    ([RemoteContext.cc], [RemoteContextDaemon.cc]), and what each handler does to
    the registry that the server's map stands for ([RC.serves]).
    [RemoteRefinement] ([RCR]), [RemoteCalls] ([RCalls]), [RemoteWaits]
    ([RWaits]): the three views of the remote context, below.
    [RemoteQueue] ([RQ]): [libraries/CPN/RemoteQueue], one definition per method,
    or per piece of a method between two releases of the lock, over any
    [RawQueue]; [RemoteHalf] ([RH]): a half with its action thread and its node,
    and its invariant [RH.lok]; [RemoteStream] ([RS]): both halves, [RS.step].
    [Fairness]: fair runs of threads, and the measure that shows that they end.
    [Kernel] ([KN]): [Kernel], [NodeBase] and [RemoteQueueHolder] as the step
    relation of the kernel's thread, its nodes, the clients that call it and its
    remote queues; [KernelInvariants] ([KI]), [KernelShutdown] ([KS]),
    [KernelExamples] ([KX]): its invariant, its end, and kernels at work.
    [Network] ([NW]): [Kernel::CreateQueue] and the messages with which kernels
    make a queue, and [PseudoNode], which keeps the ends.
    [NodeLoader] ([Path], [NL], [NX]): [libraries/utils/PathUtils], the lists of
    nodes, and the finding of factories.
    [ThreadPool] ([TP]): [libraries/Synchronize/ThreadPool], its threads and the
    threads that call it.
    [BinaryHeap] ([BH]): the binary heap, as an implementation of the standard
    library's heap functions.  [PrimeSieve] ([PS]), [PrimeWheel] ([PW]):
    [tools/PrimeSieve], the sieve over any heap functions ([PS.Heaps]) and the wheel
    that makes its candidates.  [ThresholdSieve] ([TS]),
    [SimpleSieve] ([SS]): the two networks of [apps/SieveOfEratosthenes]; a node
    is a function of the streams that it reads, and the network composes them as
    the nodes that create one another do.  That queues carry streams is what
    [QueueBase] and [RemoteStream] prove; how long the queues of these networks must
    be is not in these files.
    [Monitor] ([Mon]): threads that call the methods of one object with a lock and
    a condition variable, as a step relation over any object of the class
    [Mon.Monitor], and when a fair run of them returns from all calls.
    [Synchronize] ([Sem], [BQ], [Bar], [Ev], [Fut], [At]): the objects of
    [libraries/Synchronize] as instances of it, and its [Atomic].
    [CPNLoader] ([VL]): [libraries/VariantCPNLoader], from the description of a
    network to the calls of the kernel that make it.
    [JsonParser] ([JP]): [libraries/JSONParser], the automaton with the two tables
    of [JSON_parser.c] and the class [JSON::Parser] around it; [JsonVariant]
    ([JV]): [libraries/JSONVariant], the printer and the handler that builds a
    variant; [JsonSafety] ([JS]): the invariant of the automaton.  In [JP] the stack
    and the buffer are lists; [JsonMemory] ([JM]) is the parser over the arrays of the
    struct, with their capacities and their growth, and does what [JP] does.
    [Connections] ([CS]): [libraries/CPN/ConnectionServer], where the connections
    of remote queues meet the ends that wait for them.

    ** What is proved

    - Queues hold what was put into them: [CQ.refines_fifo] (a bounded FIFO per
      channel, which [Grow] makes as long as the header says, but for the growth by one
      byte that the code drops, [CQ.Grow_keeps_bytes]), [CQ.zero_copy_transfer];
      [MBS.sizes_are_pages], [MBS.mappings_translate]; [TQB.step_refines]; [TQ.grow_under_writer], [TQ.grow_under_reader].
    - Packets: [Packet.fields_apart], [Packet.Init_fires],
      [Packet.decoder_resynchronises], [PE.WriteBytes_appends_or_stalls],
      [PE.SendEnqueue_moves_rows], and the round trip [PE.packets_cross_the_wire].
    - Blocking: [QB.sleepers_are_blocked] (no lost wake-up, in every reachable
      state, but for what a [Grow] from outside does, [QB.outside_Grow_deadlocks]),
      [QB.queue_is_a_stream] (with the null pointer that is no end,
      [QB.null_before_the_end]), [QB.dequeue_loop_ends] and
      [QB.enqueue_loop_ends], and the request that makes them spin,
      [QB.oversized_request_spins].
    - Deadlock detection: [D4R.tag_order], [D4R.detection_is_a_deadlock] (no false
      alarm), [D4R.deadlock_is_detected].
    - The registry: [LC.registry_consistent], [LC.endpoint_keys],
      [LC.waiters_are_woken], [LC.terminate_is_final], [LC.all_nodes_end].
    - Base 64: [B64.encoder_writes_base64], [B64.base64_round_trip],
      [B64.decoder_total].
    - The remote context: [RCR.remote_context_is_local] (client and server
      together are the local context, call by call), [RCR.kernel_messages_arrive];
      [RCalls.replies_reach_callers] (any number of threads, any interleaving),
      [RCalls.termination_wakes_all], [RCalls.late_reply_dangles];
      [RWaits.no_start_is_missed] (whatever turns its thread gets before and after
      the reply).
    - The remote queue: [RS.remote_queue_is_a_stream] (bytes and the end of the
      stream), [RS.flow_control] (credit, room and rest); a reader that spins,
      [RS.starved_reader_spins].
    - Variants: [Var.assignment_reads_back], [Var.ParseBool_spec].
    - The life of a kernel: [KS.shutdown_completes] (a kernel that is told to stop
      is done in every fair run), [kernel_ends_after_its_nodes],
      [kernel_sleeps_when_idle] (no lost wake-up), and an endpoint that keeps it
      from ending, [external_endpoint_blocks_end].
    - Networks: [NW.queue_from_anywhere] (whichever kernel is asked, both ends of
      one queue come to be where their nodes are).
    - Node lists: [Path.path_round_trip], [NL.list_declares],
      [NL.listed_type_is_found].
    - The thread pool: [TP.tasks_run_once_in_order], [TP.every_call_returns];
      two threads that wait, of which one sleeps on, [TP.second_waiter_sleeps].
    - Synchronization: [Sem.semaphore_serves], [BQ.pops_what_was_pushed] (one
      thread is woken per push, and that is enough), [Bar.barrier_keeps_step],
      [Fut.future_gets]; [Bar.decr_leaves_waiters], [Bar.decr_wraps], and what the
      methods of [Atomic] return instead, [At.Or_subtracts].
    - Descriptions of networks: [VL.described_network_is_made] (what is added
      validates and is made), [VL.Validate_spec], [VL.AddNode_merges];
      [VL.AddNode_takes_nameless], [VL.AddQueue_leaves_two_writers].
    - JSON: [JV.json_round_trip] (what is printed is read back, character by
      character through the tables), [JM.VariantFromJSON_lists] (the parser over its
      arrays reads the same), [JM.json_parser_is_safe] (any text at all: no
      assertion fails, and no access is outside the stack or the buffer as they
      grow); [JV.broken_word_is_read],
      [JV.large_integer_changes], [JV.null_is_replaced],
      [JV.zero_exponent_is_refused].
    - Connections: [CS.connections_are_conserved] (none is lost or given twice),
      [CS.reader_meets_writer] (in either order).
    - Primes: [PS.TryCandidates_is_simple] (the fast loop is the simple one, faults
      included), [PS.sieve_finds_primes] and [PW.wheel_enumerates] (where [pop_heap] also
      works behind a front that is out of order, [PS.PopsAdvanced]; the standard does
      not say so, [PS.pop_heap_out_of_contract]); the streams of the networks when no
      write waits for room, [TS.network_finds_primes],
      [TS.wheel_network_finds_primes] with the exact conditions on their numbers, and what comes out without them ([TS.small_bounds_wait],
      [TS.wide_wheel_stops], [TS.long_round_composite]); and
      [SS.simple_sieve_finds_primes], with the first composite that passes,
      [SS.composite_passes].

    ** Conventions

    [unsigned] is 32 bits and [ulong], [size_t], [Key_t] are 64 (LP64); wraps are
    written [u32], [u64].  [ASSERT] throws ([AssertFailed]); undefined behaviour
    is a fault of its own ([OutOfBounds], [NullDeref], [Dangling], [Undefined]), so a
    theorem that a result is [Ok] says that none occurs.  Where a result needs more of
    a library than is documented, that is a class of its own and a hypothesis of the
    theorem ([PS.PopsAdvanced]; there [Ok] is what such an implementation gives).  An operation that can change
    its object before it throws is in [M]; others return the new object or a
    fault.  [std::map] is a [gmap] where its order does not matter, and a list in
    order of the keys in a [Variant].  Threads are step relations at the
    granularity of the lock, and a wait on a condition variable is one test of
    its loop per turn.

    Loops that do not recurse on data have fuel, and [Diverges] is the value of one
    that runs out: the pieces of [CQ.RawEnqueue] and [CQ.RawDequeue] and the
    copying loops of [TQB] and [TQ] (fuel one more than the bytes there are; each
    turn moves some, and the theorems give [Ok]), and the loop of [PE.WriteBytes]
    that grows the buffer until a piece fits, for which two turns are enough or,
    as [PE.WriteBytes_appends_or_stalls] says exactly, no number is.  The loops of
    the blocking protocols are turns of a step relation whose number is bounded
    in a theorem ([QB.dequeue_loop_ends], [D4R.deadlock_is_detected]), or that end
    in every fair run ([KS.shutdown_completes], [TP.every_call_returns]).  The files
    that a node list includes are followed a hundred deep, as the code does.  The
    sieve advances a prime at most as often as [PS.turns] counts; the constructor
    of the wheel has five million turns, and the widest of its eight wheels takes
    9699690 / 2; a sieve network has as many turns and filters as numbers below its
    bound.  The theorems give [Ok], so the fuel is enough.

    The long double of a [Variant] is a parameter ([Var.LongDouble]), with the
    one law that 64-bit integers survive the conversion; [Var.ld_integers] is the
    instance of the examples.  The double [alpha] of a remote queue is a
    [spec_float], multiplied and cut as the code does ([RQ.scaled]).  [mmap] is a parameter of [MBS] with the law of
    [MAP_FIXED].  [push_heap] and [pop_heap] are the class [PS.Heaps], with the
    laws of the standard; [PS.Binary], the usual binary heap, is the instance of the
    examples, and [PS.Strict] one that refuses what the standard does not allow.

    ** What is not modelled

    Sockets, files, polling and signals ([FileHandle], the reading loops of the remote context): their behaviour
    is that of the operating system; [CS] begins where a connection is accepted
    and its first bytes are read.  Of [RemoteQueue], the errors of the socket
    and a peer that dies ([HandleError]), the connecting and polling of its file
    thread (what it does to the queue is a step), and the loops over partial reads
    and writes: bytes go through the socket a packet at a time.  Of [Kernel] and its nodes, what a node does between its start and
    its end, and the deletion of queues.  The dynamic linker and [realpath] are
    parameters of [NL].  [PthreadLib] and [Logger] wrap the operating system; of
    [Synchronize], [ReentrantLock] (a mutex that counts) and the typed wrappers
    [Callable] and [FutureFunctional] are left out.  The description of a network
    is a value: parts of it that a program shares with the loader and changes
    later are not followed.  The conversions
    from and to XML, which are calls of [libxml++].  Of [JSONParser], [strtod] and
    the decimal point are parameters, and the configurations that the library does
    not use and an allocation that fails are left out.  The beamformers and
    [fftw_inc] are floating-point signal processing.  Of the sieve networks, the
    JSON form of the options, the polynomial of primes per filter (floating point,
    a parameter; [ceil(sqrt(...))] is exact for an [int] and is [Z.sqrt_up]), and
    the sizes of the queues (with a queue of the size of the threshold a sieve can
    deadlock, as its help says), and an endless producer.  The other programs under apps/,
    tools/, tutorial/, nodelibraries/ and the tests use the libraries.  Each is
    listed with its reason in the manifest's components. *)
From stdpp Require Export base tactics numbers list gmap strings.
From Stdlib Require Export ZArith Lia.

Declare Scope cpn_scope.
Delimit Scope cpn_scope with cpn.
Open Scope Z_scope.

(** * Faults

    What a C++ operation can do other than return: throw one of the
    library's exceptions, do what the language or its library leaves
    undefined, or loop for ever.  [Diverges] is the value a fuelled loop has when its
    fuel is spent; every loop of the development has a theorem that it is
    never the value on a well-formed state. *)
Inductive fault :=
  | AssertFailed            (** [AssertException], thrown by [ASSERT] *)
  | BrokenQueue (key : Z)   (** [CPN::BrokenQueueException] *)
  | Shutdown                (** [CPN::ShutdownException] *)
  | InvalidArgument         (** [std::invalid_argument] *)
  | Deadlock                (** [D4R::DeadlockException] *)
  | OutOfRange              (** [std::out_of_range] *)
  | RuntimeError            (** [std::runtime_error] *)
  | OutOfBounds             (** an access outside an object *)
  | Dangling                (** a pointer to an object that is gone is used *)
  | NullDeref               (** a null pointer is dereferenced *)
  | Undefined               (** a library function is called outside its contract *)
  | Diverges.               (** the loop does not end *)

#[export] Instance fault_eq_dec : EqDecision fault.
Proof. solve_decision. Defined.

Inductive res (A : Type) := Ok (a : A) | Err (e : fault).
Arguments Ok {A} a.
Arguments Err {A} e.

#[export] Instance res_ret : MRet res := λ A a, Ok a.
#[export] Instance res_bind : MBind res :=
  λ A B f m, match m with Ok a => f a | Err e => Err e end.

Definition assert (b : bool) : res unit := if b then Ok tt else Err AssertFailed.

(** ** State and faults together, for operations that change their object
    before they throw. *)
Definition M (S A : Type) : Type := S → res A * S.

Definition mget {S} : M S S := λ s, (Ok s, s).
Definition mput {S} (s : S) : M S unit := λ _, (Ok tt, s).
Definition mmodify {S} (f : S → S) : M S unit := λ s, (Ok tt, f s).
Definition mthrow {S A} (e : fault) : M S A := λ s, (Err e, s).
Definition massert {S} (b : bool) : M S unit := λ s, (assert b, s).
Definition mlift {S A} (r : res A) : M S A := λ s, (r, s).
#[export] Instance M_ret S : MRet (M S) := λ A a s, (Ok a, s).
#[export] Instance M_bind S : MBind (M S) :=
  λ A B f m s, match m s with
               | (Ok a, s') => f a s'
               | (Err e, s') => (Err e, s')
               end.

(** Runs the monads of the goal as far as their tests are decided. *)
Ltac mred :=
  cbv [mbind mret M_bind M_ret res_bind res_ret mget mput mmodify mthrow massert mlift assert];
  cbn [fst snd].

(** [wp m Φ s]: from [s] the operation returns, and [Φ] holds of what it returns
    and of the state it leaves. *)
Definition wp {S A} (m : M S A) (Φ : A → S → Prop) (s : S) : Prop :=
  match m s with
  | (Ok a, s') => Φ a s'
  | (Err _, _) => False
  end.

Lemma wp_bind {S A B} (m : M S A) (k : A → M S B) Φ s :
  wp m (λ a s', wp (k a) Φ s') s → wp (m ≫= k) Φ s.
Proof. unfold wp, mbind, M_bind. by destruct (m s) as [[?|?] ?]. Qed.
Lemma wp_mono {S A} (m : M S A) (Φ Ψ : A → S → Prop) s :
  wp m Φ s → (∀ a s', Φ a s' → Ψ a s') → wp m Ψ s.
Proof. unfold wp. destruct (m s) as [[?|?] ?]; auto. Qed.
Lemma wp_run {S A} (m : M S A) Φ s o s' : wp m Φ s → m s = (o, s') → ∃ a, o = Ok a ∧ Φ a s'.
Proof. unfold wp. intros Hw E. rewrite E in Hw. destruct o; [by eauto|done]. Qed.

(** * Machine words *)

(** [unsigned] and [uint32_t]: 32 bits; [ulong], [size_t] and [uint64_t] of
    the LP64 targets: 64 bits. *)
Definition u32 (x : Z) : Z := x `mod` 4294967296.
Definition u64 (x : Z) : Z := x `mod` 18446744073709551616.

#[global] Arguments u32 : simpl never.
#[global] Arguments u64 : simpl never.

Lemma u32_id x : 0 ≤ x < 4294967296 → u32 x = x.
Proof. apply Z.mod_small. Qed.
Lemma u64_id x : 0 ≤ x < 18446744073709551616 → u64 x = x.
Proof. apply Z.mod_small. Qed.
Lemma u32_range x : 0 ≤ u32 x < 4294967296.
Proof. by apply Z.mod_pos_bound. Qed.
Lemma u64_range x : 0 ≤ u64 x < 18446744073709551616.
Proof. by apply Z.mod_pos_bound. Qed.

(** [words] removes every wrap whose argument is in range. *)
Ltac words := repeat match goal with
  | |- context [u32 ?x] => rewrite (u32_id x) by lia
  | |- context [u64 ?x] => rewrite (u64_id x) by lia
  end.

(** Case analysis on the Boolean integer tests of a goal. *)
Ltac zcases :=
  repeat match goal with
  | |- context [?a <? ?b] => destruct (Z.ltb_spec a b)
  | |- context [?a <=? ?b] => destruct (Z.leb_spec a b)
  | |- context [?a =? ?b] => destruct (Z.eqb_spec a b)
  end.

(** Replaces by its value every test of the goal that [tac] can decide. *)
Ltac zdecide_by tac :=
  repeat match goal with
  | |- context [?a <? ?b] =>
      first [rewrite (proj2 (Z.ltb_lt a b)) by tac | rewrite (proj2 (Z.ltb_ge a b)) by tac]
  | |- context [?a <=? ?b] =>
      first [rewrite (proj2 (Z.leb_le a b)) by tac | rewrite (proj2 (Z.leb_gt a b)) by tac]
  | |- context [?a =? ?b] =>
      first [rewrite (proj2 (Z.eqb_eq a b)) by tac | rewrite (proj2 (Z.eqb_neq a b)) by tac]
  end; cbn [andb orb negb].
Ltac zdecide := zdecide_by lia.

(** The same after moving to the goal the hypotheses that hold such a test. *)
Ltac zcases_all :=
  repeat match goal with
  | H : context [if ?a <? ?b then _ else _] |- _ => revert H
  | H : context [if ?a <=? ?b then _ else _] |- _ => revert H
  | H : context [if ?a =? ?b then _ else _] |- _ => revert H
  end; zcases; intros.

Lemma mod_once i n : 0 ≤ i < 2 * n → i `mod` n = if i <? n then i else i - n.
Proof.
  intros Hi. destruct (Z.ltb_spec i n); [by apply Z.mod_small; lia|].
  symmetry. apply (Z.mod_unique i n 1); lia.
Qed.

(** * Loops *)

(** [for (i = i0; i < i0 + n; ++i) s = f i s] *)
Fixpoint for_loop {S} (n : nat) (i : Z) (f : Z → S → res S) (s : S) : res S :=
  match n with
  | O => Ok s
  | S k => s' ← f i s; for_loop k (i + 1) f s'
  end.

(** The total-correctness rule: an invariant indexed by the counter. *)
Lemma for_loop_ok {S} (P : Z → S → Prop) (f : Z → S → res S) n : ∀ i s,
  P i s →
  (∀ j s, i ≤ j < i + Z.of_nat n → P j s → ∃ s', f j s = Ok s' ∧ P (j + 1) s') →
  ∃ s', for_loop n i f s = Ok s' ∧ P (i + Z.of_nat n) s'.
Proof.
  induction n as [|n IH]; intros i s HP Hf.
  - exists s. split; [done|]. by replace (i + Z.of_nat 0) with i by lia.
  - destruct (Hf i s) as (s1 & E1 & HP1); [lia|done|].
    destruct (IH (i + 1) s1 HP1) as (s2 & E2 & HP2).
    { intros j s' Hj. apply Hf. lia. }
    exists s2. cbn [for_loop]. unfold mbind, res_bind. rewrite E1. split; [done|].
    by replace (i + Z.of_nat (Datatypes.S n)) with (i + 1 + Z.of_nat n) by lia.
Qed.

(** [while (c s) s = f s], at most [fuel] tests of the condition. *)
Fixpoint while_loop {S} (fuel : nat) (c : S → bool) (f : S → res S) (s : S) : res S :=
  match fuel with
  | O => Err Diverges
  | S k => if c s then s' ← f s; while_loop k c f s' else Ok s
  end.

(** Total correctness with a variant that the body decreases. *)
Lemma while_loop_ok {S} (P : S → Prop) (v : S → Z) c (f : S → res S) fuel : ∀ s,
  P s → v s < Z.of_nat fuel →
  (∀ s, P s → 0 ≤ v s) →
  (∀ s, P s → c s = true → ∃ s', f s = Ok s' ∧ P s' ∧ v s' < v s) →
  ∃ s', while_loop fuel c f s = Ok s' ∧ P s' ∧ c s' = false.
Proof.
  induction fuel as [|k IH]; intros s HP Hv Hpos Hf.
  - specialize (Hpos s HP). lia.
  - cbn [while_loop]. destruct (c s) eqn:Hc; [|by eauto].
    destruct (Hf s HP Hc) as (s1 & E1 & HP1 & Hv1).
    unfold mbind, res_bind. rewrite E1. apply IH; auto. lia.
Qed.

#[global] Arguments for_loop : simpl never.
#[global] Arguments while_loop : simpl never.

(** [while (x >= m) x -= m;] *)
Definition sub_while (x m : Z) : res Z :=
  while_loop (S (Z.to_nat (x / m))) (λ x, m <=? x) (λ x, Ok (x - m)) x.

Lemma sub_while_ok x m : 0 < m → 0 ≤ x → sub_while x m = Ok (x `mod` m).
Proof.
  intros Hm Hx.
  destruct (while_loop_ok (λ y, 0 ≤ y ∧ y `mod` m = x `mod` m) (λ y, y / m)
    (λ x, m <=? x) (λ x, Ok (x - m)) (S (Z.to_nat (x / m))) x)
    as (y & E & [Hy1 Hy2] & Hc).
  - done.
  - pose proof (Z.div_pos x m). lia.
  - intros s [Hs _]. by apply Z.div_pos.
  - intros s [Hs E] Hc. apply Z.leb_le in Hc. eexists. split; [done|].
    replace (s - m) with (s + (-1) * m) by lia.
    rewrite Z.mod_add, Z.div_add by lia. split; [split|]; [lia|done|lia].
  - unfold sub_while. rewrite E. f_equal. apply Z.leb_gt in Hc.
    rewrite <- Hy2. symmetry. apply Z.mod_small. lia.
Qed.

(** * Bytes in memory

    A [std::vector<char>], a [malloc]ed block or the caller's buffer is a
    list of byte values; a pointer into it is an offset. *)
Definition len {A} (l : list A) : Z := Z.of_nat (length l).
Definition zeros (n : Z) : list Z := replicate (Z.to_nat n) 0.
(** [v.resize(n)] *)
Definition vresize (l : list Z) (n : Z) : list Z :=
  take (Z.to_nat n) l ++ zeros (n - len l).
(** [l[i]], 0 outside the list: only used where the access was checked. *)
Definition bget (l : list Z) (i : Z) : Z := l !!! Z.to_nat i.
(** [l[off .. off + n)] *)
Definition slice {A} (l : list A) (off n : Z) : list A :=
  take (Z.to_nat n) (drop (Z.to_nat off) l).

Definition in_bounds {A} (l : list A) (off n : Z) : bool :=
  (0 <=? off) && (0 <=? n) && (off + n <=? len l).

Definition memread (m : list Z) (off n : Z) : res (list Z) :=
  if in_bounds m off n then Ok (slice m off n) else Err OutOfBounds.
Definition memwrite (m : list Z) (off : Z) (d : list Z) : res (list Z) :=
  if in_bounds m off (len d)
  then Ok (take (Z.to_nat off) m ++ d ++ drop (Z.to_nat (off + len d)) m)
  else Err OutOfBounds.
(** [memcpy(m + dst, m + src, n)] inside one object; overlapping ranges are
    undefined behaviour, and no byte is accessed when [n] is 0. *)
Definition memcpy_within (m : list Z) (dst src n : Z) : res (list Z) :=
  if n =? 0 then Ok m else
  if (dst + n <=? src) || (src + n <=? dst) then
    d ← memread m src n; memwrite m dst d
  else Err OutOfBounds.

Lemma len_nonneg {A} (l : list A) : 0 ≤ len l.
Proof. unfold len. lia. Qed.
Lemma len_nil {A} : len (@nil A) = 0.
Proof. done. Qed.
Lemma len_app {A} (l k : list A) : len (l ++ k) = len l + len k.
Proof. unfold len. rewrite length_app. lia. Qed.
Lemma len_zeros n : 0 ≤ n → len (zeros n) = n.
Proof. intros. unfold len, zeros. rewrite length_replicate. lia. Qed.
Lemma len_vresize l n : 0 ≤ n → len (vresize l n) = n.
Proof.
  intros. unfold vresize, len, zeros. rewrite length_app, length_take, length_replicate.
  unfold len. lia.
Qed.
Lemma len_slice {A} (l : list A) off n :
  0 ≤ off → 0 ≤ n → off + n ≤ len l → len (slice l off n) = n.
Proof. unfold slice, len. rewrite length_take, length_drop. lia. Qed.
Lemma len_insert {A} (l : list A) i x : len (<[i := x]> l) = len l.
Proof. unfold len. by rewrite length_insert. Qed.
Lemma len_fmap {A B} (f : A → B) l : len (f <$> l) = len l.
Proof. unfold len. by rewrite length_fmap. Qed.
Lemma len_seqZ i n : 0 ≤ n → len (seqZ i n) = n.
Proof. unfold len. rewrite length_seqZ. lia. Qed.
Lemma len_take {A} (l : list A) n : 0 ≤ n ≤ len l → len (take (Z.to_nat n) l) = n.
Proof. unfold len. rewrite length_take. lia. Qed.
Lemma len_drop {A} (l : list A) n : 0 ≤ n ≤ len l → len (drop (Z.to_nat n) l) = len l - n.
Proof. unfold len. rewrite length_drop. lia. Qed.

Create Rewrite HintDb bytes.
#[export] Hint Rewrite @len_nil @len_app @len_fmap : bytes.
#[export] Hint Rewrite len_zeros len_vresize @len_seqZ using lia : bytes.

Lemma bget_app l k i :
  0 ≤ i → bget (l ++ k) i = if i <? len l then bget l i else bget k (i - len l).
Proof.
  intros Hi. unfold bget, len. destruct (Z.ltb_spec i (Z.of_nat (length l))).
  - rewrite lookup_total_app_l by lia. done.
  - rewrite lookup_total_app_r by lia. f_equal. lia.
Qed.
Lemma bget_take l n i : 0 ≤ i < n → bget (take (Z.to_nat n) l) i = bget l i.
Proof. intros. unfold bget. rewrite lookup_total_take_lt by lia. done. Qed.
Lemma bget_drop l n i : 0 ≤ n → 0 ≤ i → bget (drop (Z.to_nat n) l) i = bget l (n + i).
Proof. intros. unfold bget. rewrite lookup_total_drop. f_equal. lia. Qed.
Lemma bget_slice l off n i :
  0 ≤ off → 0 ≤ i < n → bget (slice l off n) i = bget l (off + i).
Proof. intros. unfold slice. rewrite bget_take, bget_drop by lia. done. Qed.
Lemma bget_seqZ (f : Z → Z) i n k :
  0 ≤ k < n → bget (f <$> seqZ i n) k = f (i + k).
Proof.
  intros. unfold bget. apply list_lookup_total_correct.
  rewrite list_lookup_fmap, lookup_seqZ_lt by lia. cbn. f_equal. f_equal. lia.
Qed.

(** Two byte strings of one length with the same bytes are equal. *)
Lemma bytes_ext (l k : list Z) :
  len l = len k → (∀ i, 0 ≤ i < len l → bget l i = bget k i) → l = k.
Proof.
  unfold len, bget. intros Hl H. apply list_eq_same_length with (length k); [done|lia|].
  intros i x y Hi Hx Hy. specialize (H (Z.of_nat i)).
  rewrite Nat2Z.id in H.
  rewrite (list_lookup_total_correct _ _ _ Hx), (list_lookup_total_correct _ _ _ Hy) in H.
  apply H. lia.
Qed.

Lemma slice_app (l : list Z) off a b :
  0 ≤ off → 0 ≤ a → 0 ≤ b → off + a + b ≤ len l →
  slice l off a ++ slice l (off + a) b = slice l off (a + b).
Proof.
  intros. apply bytes_ext; rewrite ?len_app, !len_slice by lia; [done|]. intros i Hi.
  rewrite bget_app, len_slice by lia. zcases; rewrite !bget_slice by lia; f_equal; lia.
Qed.
Lemma slice_0 {A} (l : list A) off : slice l off 0 = [].
Proof. done. Qed.
Lemma slice_all {A} (l : list A) : slice l 0 (len l) = l.
Proof. unfold slice, len. rewrite drop_0, Nat2Z.id, take_ge; lia || done. Qed.

Lemma in_bounds_spec {A} (l : list A) off n :
  in_bounds l off n = true ↔ 0 ≤ off ∧ 0 ≤ n ∧ off + n ≤ len l.
Proof. unfold in_bounds. rewrite !andb_true_iff, !Z.leb_le. tauto. Qed.

Lemma memread_ok m off n :
  0 ≤ off → 0 ≤ n → off + n ≤ len m → memread m off n = Ok (slice m off n).
Proof. intros. unfold memread. by rewrite (proj2 (in_bounds_spec m off n)). Qed.

Lemma memwrite_ok m off d :
  0 ≤ off → off + len d ≤ len m →
  ∃ m', memwrite m off d = Ok m' ∧ len m' = len m ∧
    ∀ i, 0 ≤ i → bget m' i =
      if (off <=? i) && (i <? off + len d) then bget d (i - off) else bget m i.
Proof.
  intros Ho Hl. pose proof (len_nonneg d). unfold memwrite.
  rewrite (proj2 (in_bounds_spec m off (len d))) by lia.
  eexists. split; [done|]. split.
  - rewrite !len_app, len_take, len_drop by lia. lia.
  - intros i Hi. rewrite !bget_app by (rewrite ?len_take; lia).
    rewrite len_take by lia. zcases; cbn; try lia; try done.
    + by rewrite bget_take by lia.
    + rewrite bget_app by lia. by rewrite (proj2 (Z.ltb_lt _ _)) by lia.
    + rewrite bget_app by lia. rewrite (proj2 (Z.ltb_ge _ _)) by lia.
      rewrite bget_drop by lia. f_equal. lia.
Qed.

Lemma memcpy_within_ok m dst src n :
  0 ≤ dst → 0 ≤ src → 0 ≤ n → dst + n ≤ len m → src + n ≤ len m →
  dst + n ≤ src ∨ src + n ≤ dst →
  ∃ m', memcpy_within m dst src n = Ok m' ∧ len m' = len m ∧
    ∀ i, 0 ≤ i → bget m' i =
      if (dst <=? i) && (i <? dst + n) then bget m (src + (i - dst)) else bget m i.
Proof.
  intros Hd Hs Hn Hdn Hsn Hdis. unfold memcpy_within.
  destruct (Z.eqb_spec n 0) as [->|].
  { exists m. split_and!; [done..|]. intros i Hi. zcases; cbn; done || lia. }
  replace ((dst + n <=? src) || (src + n <=? dst)) with true
    by (symmetry; rewrite orb_true_iff, !Z.leb_le; lia).
  rewrite memread_ok by lia. cbn.
  destruct (memwrite_ok m dst (slice m src n)) as (m' & E & L & G);
    [lia|rewrite len_slice by lia; lia|].
  exists m'. rewrite E, L. repeat split. intros i Hi. rewrite G by lia.
  rewrite len_slice by lia. zcases; cbn; try done. by rewrite bget_slice by lia.
Qed.

(** * Channels laid out with a stride

    Cell [i] of channel [c] of a buffer whose channels are [s] apart. *)
Definition cell (m : list Z) (s c i : Z) : Z := bget m (c * s + i).

Lemma stride_inj s c i c' i' :
  0 ≤ i < s → 0 ≤ i' < s → c * s + i = c' * s + i' → c = c' ∧ i = i'.
Proof. intros. assert (c = c') by nia. nia. Qed.

Lemma stride_bound s n c i : 0 ≤ c < n → 0 ≤ i ≤ s → 0 ≤ c * s + i ≤ s * n.
Proof. nia. Qed.

Lemma cell_memwrite m s n c off d :
  len m = s * n → 0 ≤ c < n → 0 ≤ off → off + len d ≤ s →
  ∃ m', memwrite m (c * s + off) d = Ok m' ∧ len m' = len m ∧
    ∀ c' i, 0 ≤ c' < n → 0 ≤ i < s → cell m' s c' i =
      if (c' =? c) && (off <=? i) && (i <? off + len d) then bget d (i - off)
      else cell m s c' i.
Proof.
  intros Hm Hc Ho Hd. pose proof (len_nonneg d).
  pose proof (stride_bound s n c (off + len d) Hc ltac:(lia)).
  pose proof (stride_bound s n c off Hc ltac:(lia)).
  destruct (memwrite_ok m (c * s + off) d) as (m' & E & L & G); [lia|lia|].
  exists m'. split; [done|]. split; [done|]. intros c' i Hc' Hi. unfold cell.
  rewrite G by (pose proof (stride_bound s n c' i Hc' ltac:(lia)); lia).
  destruct (Z.eqb_spec c' c) as [->|Hne]; cbn.
  - replace (c * s + off <=? c * s + i) with (off <=? i) by (zcases; lia || done).
    replace (c * s + i <? c * s + off + len d) with (i <? off + len d)
      by (zcases; lia || done).
    by replace (c * s + i - (c * s + off)) with (i - off) by lia.
  - zcases; cbn; try done. exfalso.
    destruct (stride_inj s c (i + c' * s - c * s) c' i); lia.
Qed.

Lemma cell_memcpy m s n c dst src k :
  len m = s * n → 0 ≤ c < n → 0 ≤ dst → 0 ≤ src → 0 ≤ k →
  k = 0 ∨ dst + k ≤ s ∧ src + k ≤ s → dst + k ≤ src ∨ src + k ≤ dst →
  ∃ m', memcpy_within m (c * s + dst) (c * s + src) k = Ok m' ∧ len m' = len m ∧
    ∀ c' i, 0 ≤ c' < n → 0 ≤ i < s → cell m' s c' i =
      if (c' =? c) && (dst <=? i) && (i <? dst + k) then cell m s c (src + (i - dst))
      else cell m s c' i.
Proof.
  intros Hm Hc Hd Hs Hk Hb Hdis.
  unfold memcpy_within. destruct (Z.eqb_spec k 0) as [->|].
  { exists m. split_and!; [done..|]. intros c' i Hc' Hi. zcases; cbn; done || lia. }
  destruct Hb as [?|[Hdk Hsk]]; [done|].
  pose proof (stride_bound s n c (dst + k) Hc ltac:(lia)).
  pose proof (stride_bound s n c (src + k) Hc ltac:(lia)).
  pose proof (stride_bound s n c dst Hc ltac:(lia)).
  pose proof (stride_bound s n c src Hc ltac:(lia)).
  replace (_ || _) with true by (symmetry; rewrite orb_true_iff, !Z.leb_le; lia).
  rewrite memread_ok by lia. cbn.
  destruct (cell_memwrite m s n c dst (slice m (c * s + src) k)) as (m' & E & L & G);
    [done..|rewrite len_slice by lia; lia|].
  exists m'. rewrite E. split; [done|]. split; [done|]. intros c' i Hc' Hi.
  rewrite G, len_slice by lia. destruct ((_ && _) && _) eqn:B; [|done].
  rewrite !andb_true_iff, Z.leb_le, Z.ltb_lt in B.
  rewrite bget_slice by lia. unfold cell. f_equal. lia.
Qed.

(** The bytes read back from the cells of a channel. *)
Lemma slice_cells m s n c off k :
  len m = s * n → 0 ≤ c < n → 0 ≤ off → 0 ≤ k → off + k ≤ s →
  memread m (c * s + off) k = Ok ((λ i, cell m s c (off + i)) <$> seqZ 0 k).
Proof.
  intros Hm Hc Ho Hk Hs.
  pose proof (stride_bound s n c (off + k) Hc ltac:(lia)).
  pose proof (stride_bound s n c off Hc ltac:(lia)).
  rewrite memread_ok by lia. f_equal.
  assert (len (slice m (c * s + off) k) = k) as L by (apply len_slice; lia).
  apply bytes_ext; [autorewrite with bytes; lia|]. intros i Hi.
  rewrite bget_seqZ, bget_slice by lia. unfold cell. f_equal. lia.
Qed.
