(* ===== verification/QueueInterface.v ===== *)
(** What the code that drains a queue asks of it: the template parameter
    [Queue_t] of [PacketEncoder::SendEnqueue], as a class of operations with
    their laws. [CircularQueue] and [ThresholdQueueBase] are instances. *)
From S2P Require Import Prelude.

Class DequeueSide (Q : Type) := {
  ds_chans : Q → Z;                                (** [NumChannels] *)
  ds_ptr : Q → Z → Z → res (option Z * Q);         (** [GetRawDequeuePtr] *)
  ds_load : Q → Z → Z → res (list Z);              (** reads through a pointer *)
  ds_dequeue : Q → Z → res Q }.                    (** [Dequeue] *)

(** [ds_view q t c p]: the pointer [p] leads to the [t] oldest bytes of
    channel [c], and stays good when pointers for other channels are taken. *)
Class DequeueSideLaws (Q : Type) `{DequeueSide Q} := {
  ds_inv : Q → Prop;
  ds_count : Q → Z;
  ds_thresh : Q → Z;
  ds_bytes : Q → Z → list Z;
  ds_view : Q → Z → Z → Z → Prop;
  ds_len q c : ds_inv q → 0 ≤ c < ds_chans q → len (ds_bytes q c) = ds_count q;
  ds_load_ok q t c p : ds_inv q → 0 ≤ c < ds_chans q → 0 ≤ t ≤ ds_count q →
    t ≤ ds_thresh q → ds_view q t c p → ds_load q p t = Ok (slice (ds_bytes q c) 0 t);
  ds_ptr_ok q t c : ds_inv q → 0 ≤ c < ds_chans q → 0 ≤ t ≤ ds_count q → t ≤ ds_thresh q →
    ∃ p q', ds_ptr q t c = Ok (Some p, q') ∧ ds_inv q' ∧ ds_view q' t c p ∧
      ds_chans q' = ds_chans q ∧ ds_count q' = ds_count q ∧ ds_thresh q' = ds_thresh q ∧
      (∀ c', 0 ≤ c' < ds_chans q → ds_bytes q' c' = ds_bytes q c') ∧
      (∀ c' p', 0 ≤ c' < c → ds_view q t c' p' → ds_view q' t c' p');
  ds_dequeue_ok q n : ds_inv q → 0 ≤ n ≤ ds_count q →
    ∃ q', ds_dequeue q n = Ok q' ∧ ds_inv q' ∧ ds_count q' = ds_count q - n ∧
      ds_chans q' = ds_chans q ∧ ds_thresh q' = ds_thresh q ∧
      ∀ c, 0 ≤ c < ds_chans q → ds_bytes q' c = drop (Z.to_nat n) (ds_bytes q c) }.

(** * What [QueueBase] asks of the queue that derives from it

    The virtual functions of [CPN::QueueBase], with the members [inenqueue] and
    [indequeue] of the base class, which the overriders read, as arguments, and
    the accesses a node makes through the pointers it was given. *)
Class RawQueue (Q P : Type) := {
  rq_NumChannels : Q → Z;
  rq_Count : Q → res Z;
  rq_Freespace : Q → res Z;
  rq_MaxThreshold : Q → Z;
  rq_QueueLength : Q → Z;
  rq_GetRawDequeuePtr : bool → Q → Z → Z → res (option P);
  rq_Dequeue : Q → Z → res Q;
  rq_GetRawEnqueuePtr : bool → Q → Z → Z → res (option P);
  rq_Enqueue : Q → Z → res Q;
  rq_Grow : bool → bool → Q → Z → Z → res Q;
  ptr_load : Q → P → Z → res (list Z);
  ptr_store : Q → P → list Z → res Q }.

(** The contract.  [q_room] is how much a writer may store through the
    pointers it holds or can be given, [q_pending q c] the bytes that lie
    there; [q_avail] is how much a reader sees through its own.  [q_inv ie id]
    is the invariant while the base class has [inenqueue = ie] and
    [indequeue = id]. *)
Class RawQueueLaws (Q P : Type) `{RawQueue Q P} := {
  q_inv : bool → bool → Q → Prop;
  q_count : Q → Z;
  q_bytes : Q → Z → list Z;
  q_room : Q → Z;
  q_pending : Q → Z → list Z;
  q_wview : Q → Z → P → Prop;
  q_avail : Q → Z;
  q_rview : Q → Z → P → Prop;
  q_can_grow : Q → Z → Z → Prop;

  l_bounds ie id q : q_inv ie id q →
    0 ≤ q_count q ≤ rq_QueueLength q ∧ 1 ≤ rq_MaxThreshold q ≤ rq_QueueLength q ∧
    1 ≤ rq_NumChannels q ∧ 0 ≤ q_room q ≤ rq_QueueLength q - q_count q ∧
    0 ≤ q_avail q ≤ q_count q;
  l_count ie id q : q_inv ie id q → rq_Count q = Ok (q_count q);
  l_free ie id q : q_inv ie id q → rq_Freespace q = Ok (rq_QueueLength q - q_count q);
  l_len ie id q c : q_inv ie id q → 0 ≤ c < rq_NumChannels q →
    len (q_bytes q c) = q_count q ∧ len (q_pending q c) = q_room q;
  l_room id q : q_inv false id q →
    q_room q = Z.min (rq_QueueLength q - q_count q) (rq_MaxThreshold q);
  l_avail ie q : q_inv ie false q →
    q_avail q = Z.min (q_count q) (rq_MaxThreshold q);
  l_set_enq ie id q : q_inv ie id q → q_inv true id q;
  l_set_deq ie id q : q_inv ie id q → q_inv ie true q;

  l_enq_ptr ie id q t c : q_inv ie id q → 0 ≤ c < rq_NumChannels q → t ≤ q_room q →
    ∃ p, rq_GetRawEnqueuePtr ie q t c = Ok (Some p) ∧ q_wview q c p;
  l_enq_null id q t c : q_inv false id q → 0 ≤ c < rq_NumChannels q → q_room q < t →
    rq_GetRawEnqueuePtr false q t c = Ok None;
  l_deq_ptr ie id q t c : q_inv ie id q → 0 ≤ c < rq_NumChannels q → t ≤ q_avail q →
    ∃ p, rq_GetRawDequeuePtr id q t c = Ok (Some p) ∧ q_rview q c p;
  l_deq_null ie q t c : q_inv ie false q → 0 ≤ c < rq_NumChannels q → q_avail q < t →
    rq_GetRawDequeuePtr false q t c = Ok None;

  l_load ie id q c p t : q_inv ie id q → 0 ≤ c < rq_NumChannels q → q_rview q c p →
    0 ≤ t ≤ q_avail q → ptr_load q p t = Ok (take (Z.to_nat t) (q_bytes q c));
  l_store ie id q c p d : q_inv ie id q → 0 ≤ c < rq_NumChannels q → q_wview q c p →
    len d ≤ q_room q →
    ∃ q', ptr_store q p d = Ok q' ∧ q_inv ie id q' ∧
      rq_NumChannels q' = rq_NumChannels q ∧ rq_QueueLength q' = rq_QueueLength q ∧
      rq_MaxThreshold q' = rq_MaxThreshold q ∧ q_count q' = q_count q ∧
      q_room q' = q_room q ∧ q_avail q' = q_avail q ∧
      (∀ c' p', q_wview q c' p' → q_wview q' c' p') ∧
      (∀ c' p', q_rview q c' p' → q_rview q' c' p') ∧
      ∀ c', 0 ≤ c' < rq_NumChannels q → q_bytes q' c' = q_bytes q c' ∧
        q_pending q' c' = if c' =? c then d ++ drop (length d) (q_pending q c)
                          else q_pending q c';
  l_enqueue ie id q n : q_inv ie id q → 0 ≤ n ≤ q_room q →
    ∃ q', rq_Enqueue q n = Ok q' ∧ q_inv false id q' ∧
      rq_NumChannels q' = rq_NumChannels q ∧ rq_QueueLength q' = rq_QueueLength q ∧
      rq_MaxThreshold q' = rq_MaxThreshold q ∧ q_count q' = q_count q + n ∧
      q_avail q ≤ q_avail q' ∧ (∀ c p, q_rview q c p → q_rview q' c p) ∧
      ∀ c, 0 ≤ c < rq_NumChannels q →
        q_bytes q' c = q_bytes q c ++ take (Z.to_nat n) (q_pending q c);
  l_dequeue ie id q n : q_inv ie id q → 0 ≤ n ≤ q_count q →
    ∃ q', rq_Dequeue q n = Ok q' ∧ q_inv ie false q' ∧
      rq_NumChannels q' = rq_NumChannels q ∧ rq_QueueLength q' = rq_QueueLength q ∧
      rq_MaxThreshold q' = rq_MaxThreshold q ∧ q_count q' = q_count q - n ∧
      (∀ c p, q_wview q c p → q_wview q' c p) ∧ q_room q ≤ q_room q' ∧
      ∀ c, 0 ≤ c < rq_NumChannels q →
        q_bytes q' c = drop (Z.to_nat n) (q_bytes q c) ∧
        (ie = true → take (Z.to_nat (q_room q)) (q_pending q' c) = q_pending q c);
  l_grow ie id q l t : q_inv ie id q → ie && id = false → q_can_grow q l t →
    ∃ q', rq_Grow ie id q l t = Ok q' ∧ q_inv ie id q' ∧
      rq_NumChannels q' = rq_NumChannels q ∧ q_count q' = q_count q ∧
      Z.max l (rq_QueueLength q) ≤ rq_QueueLength q' ∧
      Z.max t (rq_MaxThreshold q) ≤ rq_MaxThreshold q' ∧
      (ie = true → q_room q' = q_room q ∧ ∀ c p, q_wview q c p → q_wview q' c p) ∧
      (id = true → q_avail q' = q_avail q ∧ ∀ c p, q_rview q c p → q_rview q' c p) ∧
      ∀ c, 0 ≤ c < rq_NumChannels q → q_bytes q' c = q_bytes q c ∧
        (ie = true → q_pending q' c = q_pending q c);
  l_small ie id q : q_inv ie id q → rq_QueueLength q < 4294967296 }.
