(* ===== verification/CircularQueue.v ===== *)
(** [libraries/CircularQueue]: the simple multi-channel byte queue that the
    packet encoder and [PseudoNode] buffer bytes with.

    A queue is [numChannels] rows of [chanStride = queueLength + maxThreshold]
    bytes in one vector.  The first [queueLength] bytes of a row are the ring,
    one byte of which is always free; the rest lets a reader or a writer see
    up to [maxThreshold] bytes in one piece.  The abstraction is one list of
    bytes per channel, [contents]. *)
From S2P Require Import Prelude.
From S2P Require Import QueueInterface.

Module CQ.

Record queue := mk {
  queueLength : Z;     (** the size asked for, plus the sentinel byte *)
  maxThreshold : Z;
  numChannels : Z;
  chanStride : Z;
  head : Z;            (** the next empty byte *)
  tail : Z;            (** the next byte to read *)
  buffer : list Z }.

Definition set_head (q : queue) h buf :=
  mk (queueLength q) (maxThreshold q) (numChannels q) (chanStride q) h (tail q) buf.
Definition set_tail (q : queue) t :=
  mk (queueLength q) (maxThreshold q) (numChannels q) (chanStride q) (head q) t (buffer q).
Definition set_buffer (q : queue) buf :=
  mk (queueLength q) (maxThreshold q) (numChannels q) (chanStride q) (head q) (tail q) buf.

(** The constructor. *)
Definition make (size maxThresh numChans : Z) : queue :=
  let stride := u32 (size + 1 + maxThresh) in
  let buf := zeros (u32 (stride * numChans)) in
  if size <? maxThresh then
    let stride' := u32 (2 * maxThresh + 1) in
    mk (u32 (maxThresh + 1)) maxThresh numChans stride' 0 0
       (vresize buf (u32 (stride' * numChans)))
  else mk (u32 (size + 1)) maxThresh numChans stride 0 0 buf.

Definition Freespace (q : queue) : Z :=
  if tail q <=? head q then u32 (queueLength q - (head q - tail q) - 1)
  else u32 (tail q - head q - 1).
Definition Count (q : queue) : Z :=
  if tail q <=? head q then u32 (head q - tail q)
  else u32 (head q + (queueLength q - tail q)).
Definition QueueLength (q : queue) : Z := u32 (queueLength q - 1).
Definition Full (q : queue) : bool := Freespace q =? 0.
Definition Empty (q : queue) : bool := head q =? tail q.
Definition Clear (q : queue) : queue :=
  mk (queueLength q) (maxThreshold q) (numChannels q) (chanStride q) 0 0 (buffer q).

(** [None] is the null pointer, [Some off] is [&buffer[off]]. *)
Definition GetRawEnqueuePtr (q : queue) (thresh chan : Z) : res (option Z) :=
  assert (chan <? numChannels q) ;;
  Ok (if (thresh <=? Freespace q) && (thresh <=? maxThreshold q)
      then Some (u32 (head q + u32 (chanStride q * chan))) else None).

(** The loop of [Enqueue] that brings the bytes written beyond the end of the
    ring back to its start, in each channel. *)
Definition wrap_rows (q : queue) (newHead : Z) : res (list Z) :=
  for_loop (Z.to_nat (numChannels q)) 0 (λ chan buf,
    let chanOff := u32 (chanStride q * chan) in
    memcpy_within buf chanOff (u32 (queueLength q + chanOff)) newHead) (buffer q).

Definition Enqueue (q : queue) (count : Z) : res queue :=
  assert (count <=? Freespace q) ;;
  let newHead := u32 (head q + count) in
  if queueLength q <=? newHead then
    let newHead := u32 (newHead - queueLength q) in
    buf ← wrap_rows q newHead;
    Ok (set_head q newHead buf)
  else Ok (set_head q newHead (buffer q)).

(** Channel [chan >= 1] of the body of [RawEnqueue]; [src] has been advanced
    to the previous channel of the caller's [data]. *)
Definition put_channel (data : list Z) (numtocopy stride chan : Z)
    (st : queue * Z) : res (queue * Z) :=
  let '(q, src) := st in
  dest ← GetRawEnqueuePtr q numtocopy chan;
  let src := src + stride in
  match dest with
  | None => Err NullDeref
  | Some p =>
    bytes ← memread data src numtocopy;
    buf ← memwrite (buffer q) p bytes;
    Ok (set_buffer q buf, src)
  end.

(** One turn of the [while] of [RawEnqueue]; [n] is [numcopied]. *)
Definition put_chunk (data : list Z) (count numChans stride : Z)
    (st : queue * Z) : res (queue * Z) :=
  let '(q, n) := st in
  let numtocopy := u32 (count - n) in
  let numtocopy := if maxThreshold q <? numtocopy then maxThreshold q else numtocopy in
  dest ← GetRawEnqueuePtr q numtocopy 0;
  match dest with
  | None => Err AssertFailed
  | Some p =>
    bytes ← memread data n numtocopy;
    buf ← memwrite (buffer q) p bytes;
    '(q, _) ← for_loop (Z.to_nat (numChans - 1)) 1
                (put_channel data numtocopy stride) (set_buffer q buf, n);
    q ← Enqueue q numtocopy;
    Ok (q, u32 (n + numtocopy))
  end.

Definition RawEnqueue (q : queue) (data : list Z) (count numChans stride : Z)
    : res (bool * queue) :=
  assert (numChans <=? numChannels q) ;;
  if Freespace q <? count then Ok (false, q) else
  '(q, _) ← while_loop (S (Z.to_nat count)) (λ st, st.2 <? count)
              (put_chunk data count numChans stride) (q, 0);
  Ok (true, q).

(** Returns the pointer and the queue, whose row may have been extended. *)
Definition GetRawDequeuePtr (q : queue) (thresh chan : Z) : res (option Z * queue) :=
  let chanOff := u32 (chanStride q * chan) in
  if (thresh <=? Count q) && (thresh <=? maxThreshold q) then
    buf ← (if queueLength q <? u32 (tail q + thresh)
           then memcpy_within (buffer q) (u64 (queueLength q + chanOff)) chanOff
                  (u32 (u32 (tail q + thresh) - queueLength q))
           else Ok (buffer q));
    Ok (Some (u64 (tail q + chanOff)), set_buffer q buf)
  else Ok (None, q).

Definition Dequeue (q : queue) (count : Z) : res queue :=
  assert (count <=? Count q) ;;
  let newTail := u32 (tail q + count) in
  Ok (set_tail q (u32 (if queueLength q <=? newTail
                       then u64 (newTail - queueLength q) else newTail))).

Definition get_channel (numtocopy stride chan : Z)
    (st : queue * list Z * Z) : res (queue * list Z * Z) :=
  let '(q, data, dest) := st in
  '(src, q) ← GetRawDequeuePtr q numtocopy chan;
  let dest := dest + stride in
  match src with
  | None => Err NullDeref
  | Some p =>
    bytes ← memread (buffer q) p numtocopy;
    data ← memwrite data dest bytes;
    Ok (q, data, dest)
  end.

Definition get_chunk (count numChans stride : Z)
    (st : queue * list Z * Z) : res (queue * list Z * Z) :=
  let '(q, data, n) := st in
  let numtocopy := u32 (count - n) in
  let numtocopy := if maxThreshold q <? numtocopy then maxThreshold q else numtocopy in
  '(src, q) ← GetRawDequeuePtr q numtocopy 0;
  match src with
  | None => Err AssertFailed
  | Some p =>
    bytes ← memread (buffer q) p numtocopy;
    data ← memwrite data n bytes;
    '(q, data, _) ← for_loop (Z.to_nat (numChans - 1)) 1
                      (get_channel numtocopy stride) (q, data, n);
    q ← Dequeue q numtocopy;
    Ok (q, data, u32 (n + numtocopy))
  end.

Definition RawDequeue (q : queue) (data : list Z) (count numChans stride : Z)
    : res (bool * queue * list Z) :=
  assert (numChans <=? numChannels q) ;;
  if Count q <? count then Ok (false, q, data) else
  '(q, data, _) ← while_loop (S (Z.to_nat count)) (λ st, st.2 <? count)
                    (get_chunk count numChans stride) (q, data, 0);
  Ok (true, q, data).

Definition Grow (q : queue) (queueLen maxThresh : Z) : res queue :=
  if (queueLen <=? queueLength q) && (maxThresh <=? maxThreshold q) then Ok q else
  let queueLen := if queueLen <? queueLength q then queueLength q else queueLen in
  let maxThresh := if maxThresh <? maxThreshold q then maxThreshold q else maxThresh in
  let newchanstride := u32 (queueLen + 1 + maxThresh) in
  let copybuffer := zeros (u32 (newchanstride * numChannels q)) in
  let oldcount := Count q in
  '(ok, q, copybuffer) ← RawDequeue q copybuffer oldcount (numChannels q) newchanstride;
  assert ok ;;
  Ok (mk (u32 (queueLen + 1)) maxThresh (numChannels q) newchanstride oldcount 0 copybuffer).

(** ** The invariant and the abstraction *)

Record wf (q : queue) : Prop := {
  wf_len : 0 < queueLength q;
  wf_max : 0 ≤ maxThreshold q;
  wf_chan : 0 ≤ numChannels q;
  wf_head : 0 ≤ head q < queueLength q;
  wf_tail : 0 ≤ tail q < queueLength q;
  wf_stride : chanStride q = queueLength q + maxThreshold q;
  wf_buffer : len (buffer q) = chanStride q * numChannels q;
  wf_small : chanStride q < 2147483648;
  wf_size : chanStride q * numChannels q < 2147483648 }.

(** Byte [i] of the ring of channel [c]. *)
Definition row (q : queue) (c i : Z) : Z := cell (buffer q) (chanStride q) c i.
(** The [k]th oldest byte of channel [c]. *)
Definition nth_byte (q : queue) (c k : Z) : Z := row q c ((tail q + k) `mod` queueLength q).
Definition contents (q : queue) (c : Z) : list Z := nth_byte q c <$> seqZ 0 (Count q).
(** The [n] bytes of channel [c] from offset [o] of its row on. *)
Definition window (q : queue) (c o n : Z) : list Z := (λ i, row q c (o + i)) <$> seqZ 0 n.

(** What a queue keeps when bytes move. *)
Record same_shape (q q' : queue) : Prop := {
  ss_len : queueLength q' = queueLength q;
  ss_max : maxThreshold q' = maxThreshold q;
  ss_chan : numChannels q' = numChannels q;
  ss_stride : chanStride q' = chanStride q }.

#[global] Instance same_shape_refl : Reflexive same_shape.
Proof. by intros []. Qed.
#[global] Instance same_shape_trans : Transitive same_shape.
Proof. intros [] [] [] [] []; cbn in *; constructor; cbn; congruence. Qed.

(** Opens the invariant of every queue of the context. *)
Ltac open_wf := repeat match goal with H : wf _ |- _ => destruct H end.
Ltac by_wf := open_wf; lia.

Lemma count_spec q : wf q →
  Count q = (if tail q <=? head q then head q - tail q
             else head q + (queueLength q - tail q)) ∧
  0 ≤ Count q < queueLength q.
Proof. intros []. unfold Count. zcases; words; lia. Qed.

Lemma freespace_spec q : wf q → Freespace q = queueLength q - 1 - Count q.
Proof. intros []. unfold Freespace, Count. zcases; words; lia. Qed.

Lemma head_spec q : wf q → head q = (tail q + Count q) `mod` queueLength q.
Proof.
  intros Hq. destruct (count_spec q Hq) as [E ?]. destruct Hq.
  rewrite mod_once, E by lia. zcases; lia.
Qed.

Lemma row_off q c : wf q → 0 ≤ c < numChannels q →
  u32 (chanStride q * c) = c * chanStride q ∧
  0 ≤ c * chanStride q ≤ chanStride q * numChannels q - chanStride q.
Proof. intros [] Hc. assert (0 ≤ c * chanStride q ≤ chanStride q * numChannels q - chanStride q) by nia. split; [|lia]. rewrite u32_id; lia. Qed.

Lemma contents_len q c : wf q → len (contents q c) = Count q.
Proof.
  intros Hq. destruct (count_spec q Hq). unfold contents. by autorewrite with bytes.
Qed.

(** An occupied cell is none of the [n] cells from the head on, as long as
    there is room for [n] bytes. *)
Lemma occupied_not_free q k n j : wf q →
  0 ≤ k < Count q → 0 ≤ j < n → n ≤ Freespace q →
  (tail q + k) `mod` queueLength q ≠ head q + j ∧
  (tail q + k) `mod` queueLength q ≠ head q + j - queueLength q.
Proof.
  intros Hq Hk Hj Hn. rewrite freespace_spec in Hn by done.
  destruct (count_spec q Hq) as [E ?]. destruct Hq.
  rewrite mod_once by lia. zcases_all; lia.
Qed.

Lemma contents_ext q q' c :
  Count q' = Count q →
  (∀ k, 0 ≤ k < Count q → nth_byte q' c k = nth_byte q c k) →
  contents q' c = contents q c.
Proof.
  intros E H. unfold contents. rewrite E. apply list_fmap_ext.
  intros i x Hx%lookup_seqZ. apply H. lia.
Qed.

Lemma window_ext q q' c c' o o' n :
  (∀ i, 0 ≤ i < n → row q' c' (o' + i) = row q c (o + i)) →
  window q' c' o' n = window q c o n.
Proof. intros H. apply list_fmap_ext. intros i x Hx%lookup_seqZ. apply H. lia. Qed.

(** *** Raw access *)
Lemma GetRawEnqueuePtr_ok q thresh chan : wf q →
  0 ≤ chan < numChannels q → thresh ≤ Freespace q → thresh ≤ maxThreshold q →
  GetRawEnqueuePtr q thresh chan = Ok (Some (chan * chanStride q + head q)).
Proof.
  intros Hq Hc Hf Hm. destruct (row_off q chan Hq Hc) as [E ?].
  unfold GetRawEnqueuePtr. rewrite (proj2 (Z.ltb_lt _ _)) by lia. cbn.
  rewrite !(proj2 (Z.leb_le _ _)) by lia. cbn. rewrite E. open_wf.
  words. by rewrite Z.add_comm.
Qed.

(** Bytes written through the pointer change the row beyond the head only,
    and none that is occupied. *)
Lemma poke_ok q c d : wf q → 0 ≤ c < numChannels q →
  len d ≤ Freespace q → len d ≤ maxThreshold q →
  ∃ buf, memwrite (buffer q) (c * chanStride q + head q) d = Ok buf ∧
    let q' := set_buffer q buf in
    wf q' ∧ same_shape q q' ∧ Count q' = Count q ∧
    (∀ c', 0 ≤ c' < numChannels q → contents q' c' = contents q c') ∧
    (∀ c' n, 0 ≤ c' < numChannels q → 0 ≤ n ≤ len d → 
      window q' c' (head q) n =
      if c' =? c then slice d 0 n else window q c' (head q) n).
Proof.
  intros Hq Hc Hf Hm. pose proof (len_nonneg d).
  destruct (cell_memwrite (buffer q) (chanStride q) (numChannels q) c (head q) d)
    as (buf & E & L & G); [by_wf..|].
  exists buf. split; [done|]. cbn zeta. split; [|split; [done|split; [done|split]]].
  - open_wf. constructor; cbn; lia.
  - intros c' Hc'. apply contents_ext; [done|]. intros k Hk. unfold nth_byte, row; cbn.
    destruct (count_spec q Hq).
    assert (0 ≤ (tail q + k) `mod` queueLength q < queueLength q)
      by (apply Z.mod_pos_bound; by_wf).
    rewrite G by by_wf. destruct ((_ && _) && _) eqn:B; [|done].
    rewrite !andb_true_iff, Z.leb_le, Z.ltb_lt in B.
    destruct (occupied_not_free q k (len d) ((tail q + k) `mod` queueLength q - head q));
      [done|lia|lia|done|lia].
  - intros c' n Hc' Hn. apply bytes_ext.
    { unfold window. destruct (c' =? c); autorewrite with bytes; [|done].
      rewrite len_slice; lia. }
    unfold window. autorewrite with bytes. intros i Hi. rewrite bget_seqZ by lia.
    unfold row; cbn. rewrite G by by_wf. destruct (Z.eqb_spec c' c); cbn.
    + rewrite bget_slice by lia. zcases; cbn; try lia. f_equal. lia.
    + by rewrite bget_seqZ by lia.
Qed.

(** *** [Enqueue] *)
Lemma wrap_rows_ok q m : wf q → 0 ≤ m < queueLength q → m ≤ maxThreshold q →
  ∃ buf, wrap_rows q m = Ok buf ∧ len buf = len (buffer q) ∧
    ∀ c i, 0 ≤ c < numChannels q → 0 ≤ i < chanStride q →
      cell buf (chanStride q) c i =
      if i <? m then row q c (queueLength q + i) else row q c i.
Proof.
  intros Hq Hm HM. unfold wrap_rows.
  destruct (for_loop_ok (λ ch buf, len buf = len (buffer q) ∧
    ∀ c i, 0 ≤ c < numChannels q → 0 ≤ i < chanStride q →
      cell buf (chanStride q) c i =
      if (c <? ch) && (i <? m) then row q c (queueLength q + i) else row q c i)
    (λ chan buf, let chanOff := u32 (chanStride q * chan) in
      memcpy_within buf chanOff (u32 (queueLength q + chanOff)) m)
    (Z.to_nat (numChannels q)) 0 (buffer q)) as (buf & E & L & G).
  - split; [done|]. intros c i ? ?. rewrite (proj2 (Z.ltb_ge _ _)) by lia. done.
  - intros ch buf Hch [L G]. destruct (row_off q ch Hq) as [E ?]; [lia|].
    cbn zeta. rewrite E.
    replace (u32 (queueLength q + ch * chanStride q))
      with (ch * chanStride q + queueLength q) by (open_wf; words; lia).
    destruct (cell_memcpy buf (chanStride q) (numChannels q) ch 0 (queueLength q) m)
      as (buf' & E' & L' & G'); [by_wf..|]. rewrite Z.add_0_r in E'.
    exists buf'. split; [done|]. split; [lia|]. intros c i Hc Hi.
    rewrite G' by by_wf. destruct ((_ && _) && _) eqn:B.
    + rewrite !andb_true_iff, Z.eqb_eq, Z.leb_le, Z.ltb_lt in B. rewrite G by by_wf.
      rewrite (proj2 (Z.ltb_lt i m)), (proj2 (Z.ltb_lt c _)), (proj2 (Z.ltb_ge ch _)) by lia.
      cbn. destruct B as [[-> _] _]. unfold row. f_equal. lia.
    + rewrite G by by_wf. revert B. zcases; cbn; try done; lia.
  - exists buf. split; [done|]. split; [done|]. intros c i Hc Hi.
    rewrite G by done. rewrite (proj2 (Z.ltb_lt c _)) by lia. done.
Qed.

Lemma Enqueue_ok q n : wf q → 0 ≤ n ≤ Freespace q → n ≤ maxThreshold q →
  ∃ q', Enqueue q n = Ok q' ∧ wf q' ∧ same_shape q q' ∧
    Count q' = Count q + n ∧ tail q' = tail q ∧
    ∀ c, 0 ≤ c < numChannels q → contents q' c = contents q c ++ window q c (head q) n.
Proof.
  intros Hq Hn HM. pose proof (freespace_spec q Hq) as F.
  destruct (count_spec q Hq) as [EC HC].
  assert (∃ buf, Enqueue q n = Ok (set_head q ((head q + n) `mod` queueLength q) buf) ∧
    len buf = len (buffer q) ∧
    ∀ c i, 0 ≤ c < numChannels q → 0 ≤ i < chanStride q →
      cell buf (chanStride q) c i =
      if i <? head q + n - queueLength q then row q c (queueLength q + i) else row q c i)
    as (buf & E & L & G).
  { unfold Enqueue. zdecide. cbn.
    rewrite (u32_id (head q + n)) by by_wf. rewrite mod_once by by_wf.
    destruct (Z.leb_spec (queueLength q) (head q + n)).
    - rewrite u32_id by by_wf.
      destruct (wrap_rows_ok q (head q + n - queueLength q)) as (buf & E & L & G);
        [done|by_wf..|].
      exists buf. rewrite E. cbn. by rewrite (proj2 (Z.ltb_ge _ _)) by lia.
    - exists (buffer q). rewrite (proj2 (Z.ltb_lt _ _)) by lia. split; [done|].
      split; [done|]. intros c i ? ?. by rewrite (proj2 (Z.ltb_ge _ _)) by lia. }
  rewrite E. eexists. split; [done|].
  assert (0 ≤ (head q + n) `mod` queueLength q < queueLength q) as Hh
    by (apply Z.mod_pos_bound; by_wf).
  assert (wf (set_head q ((head q + n) `mod` queueLength q) buf)) as Hq'.
  { open_wf. constructor; cbn; lia. }
  assert (Count (set_head q ((head q + n) `mod` queueLength q) buf) = Count q + n) as C'.
  { rewrite (proj1 (count_spec _ Hq')), EC. cbn. rewrite mod_once by by_wf.
    zcases; open_wf; lia. }
  split; [done|]. split; [done|]. split; [done|]. split; [done|].
  intros c Hc. apply bytes_ext.
  { rewrite len_app, !contents_len by done. unfold window. autorewrite with bytes. lia. }
  rewrite contents_len, C' by done. intros k Hk.
  rewrite bget_app, contents_len by (done || lia). unfold contents at 1.
  rewrite C', bget_seqZ by lia. unfold nth_byte, row at 1; cbn.
  rewrite Z.add_0_l. assert (0 ≤ (tail q + k) `mod` queueLength q < queueLength q)
    by (apply Z.mod_pos_bound; by_wf).
  rewrite G by by_wf. destruct (Z.ltb_spec k (Count q)).
  - unfold contents. rewrite bget_seqZ by lia. unfold nth_byte; cbn.
    rewrite Z.add_0_l, (proj2 (Z.ltb_ge _ _)); [done|].
    destruct (Z.le_gt_cases (head q + n - queueLength q) ((tail q + k) `mod` queueLength q));
      [done|].
    destruct (occupied_not_free q k n
      ((tail q + k) `mod` queueLength q + queueLength q - head q)); [done|by_wf..].
  - unfold window. rewrite bget_seqZ by lia. rewrite mod_once in * by by_wf.
    rewrite Z.add_0_l.
    zcases_all; f_equal; by_wf.
Qed.

(** *** [RawEnqueue] *)
(** The caller's block holds [numChans] rows of [count] bytes. *)
Definition holds_rows (data : list Z) (count numChans stride : Z) : Prop :=
  0 ≤ stride ∧ ∀ c, 0 ≤ c < numChans → c * stride + count ≤ len data.

Lemma holds_rows_intro data count nc stride :
  0 ≤ stride → (nc - 1) * stride + count ≤ len data → holds_rows data count nc stride.
Proof. intros. split; [done|]. nia. Qed.

Section put.
Context (q0 : queue) (data : list Z) (n k numChans stride : Z).
Hypotheses (Hq0 : wf q0) (Hn : 0 ≤ n) (Hk : 0 ≤ k) (Hf : k ≤ Freespace q0)
  (Hm : k ≤ maxThreshold q0) (Hnc : 1 ≤ numChans ≤ numChannels q0)
  (Hd : holds_rows data (n + k) numChans stride).

(** Channels below [c] hold the new bytes after the head. *)
Let put_inv (c : Z) (q : queue) : Prop :=
  ∃ buf, q = set_buffer q0 buf ∧ wf q ∧
    (∀ c', 0 ≤ c' < numChannels q0 → contents q c' = contents q0 c') ∧
    (∀ c', 0 ≤ c' < c → window q c' (head q0) k = slice data (c' * stride + n) k).

Lemma put_one q c : put_inv c q → 0 ≤ c < numChans →
  ∃ bytes buf, GetRawEnqueuePtr q k c = Ok (Some (c * chanStride q + head q)) ∧
    memread data (c * stride + n) k = Ok bytes ∧
    memwrite (buffer q) (c * chanStride q + head q) bytes = Ok buf ∧
    put_inv (c + 1) (set_buffer q buf).
Proof.
  intros (b0 & -> & Hq & Hcon & Hwin) Hc. destruct Hd as [Hs Hd'].
  specialize (Hd' c Hc). set (q := set_buffer q0 b0) in *.
  assert (Freespace q = Freespace q0) as EF by done.
  assert (len (slice data (c * stride + n) k) = k) as EL by (apply len_slice; lia).
  destruct (poke_ok q c (slice data (c * stride + n) k))
    as (buf & E & Hq' & Hss & HC & Hcon' & Hwin'); [done|cbn;lia|cbn;lia|cbn;lia|].
  exists (slice data (c * stride + n) k), buf.
  split; [apply GetRawEnqueuePtr_ok; cbn; done || lia|].
  split; [apply memread_ok; lia|]. split; [done|].
  exists buf. split; [done|]. split; [done|]. split.
  - intros c' Hc'. rewrite Hcon' by done. by apply Hcon.
  - intros c' Hc'. change (head q0) with (head q). rewrite Hwin' by (cbn; lia).
    destruct (Z.eqb_spec c' c) as [->|]; [|apply Hwin; lia].
    etrans; [|apply slice_all]. by rewrite EL.
Qed.

Lemma put_channels_ok q : put_inv 1 q →
  ∃ q' src, for_loop (Z.to_nat (numChans - 1)) 1 (put_channel data k stride) (q, n)
    = Ok (q', src) ∧ put_inv numChans q'.
Proof.
  intros H1.
  destruct (for_loop_ok (λ c st, put_inv c st.1 ∧ st.2 = (c - 1) * stride + n)
    (put_channel data k stride) (Z.to_nat (numChans - 1)) 1 (q, n))
    as ([q' src] & E & H & _); cbn [fst snd] in *.
  - split; [done|lia].
  - intros c [q1 src] Hc [Hi Hsrc]. cbn [fst snd] in *.
    destruct (put_one q1 c Hi) as (bytes & buf & E1 & E2 & E3 & Hi'); [lia|].
    exists (set_buffer q1 buf, src + stride). unfold put_channel. rewrite E1. cbn.
    replace (src + stride) with (c * stride + n) by lia. rewrite E2. cbn.
    rewrite E3. cbn. split; [done|]. split; [done|lia].
  - exists q', src. split; [done|].
    by replace numChans with (1 + Z.of_nat (Z.to_nat (numChans - 1))) by lia.
Qed.

Lemma put_rows_ok :
  ∃ q1 q2 bytes buf src, GetRawEnqueuePtr q0 k 0 = Ok (Some (head q0)) ∧
    memread data n k = Ok bytes ∧ memwrite (buffer q0) (head q0) bytes = Ok buf ∧
    for_loop (Z.to_nat (numChans - 1)) 1 (put_channel data k stride) (set_buffer q0 buf, n)
      = Ok (q1, src) ∧
    Enqueue q1 k = Ok q2 ∧ maxThreshold q1 = maxThreshold q0 ∧
    wf q2 ∧ same_shape q0 q2 ∧ Count q2 = Count q0 + k ∧
    ∀ c, 0 ≤ c < numChans →
      contents q2 c = contents q0 c ++ slice data (c * stride + n) k.
Proof.
  destruct (put_one q0 0) as (bytes & buf & E1 & E2 & E3 & H1); [|lia|].
  { exists (buffer q0). split; [by destruct q0|]. split; [done|]. split; [done|]. lia. }
  destruct (put_channels_ok (set_buffer q0 buf)) as (q1 & src & E4 & b & -> & Hq1 & Hc & Hw);
    [done|].
  destruct (Enqueue_ok (set_buffer q0 b) k) as (q2 & E5 & Hq2 & Hs & HC & _ & Hcon);
    [done|split; [lia|done]|done|].
  rewrite Z.mul_0_l, Z.add_0_l in E1, E2, E3.
  exists (set_buffer q0 b), q2, bytes, buf, src. repeat (split; [done|]). split.
  { etrans; [|exact Hs]. done. }
  split; [done|]. intros c Hc'. rewrite Hcon, Hc, Hw by (cbn; lia). done.
Qed.
End put.

Lemma put_chunk_ok q data count numChans stride n :
  wf q → 0 < maxThreshold q → 0 ≤ n < count → count < 4294967296 →
  count - n ≤ Freespace q → 1 ≤ numChans ≤ numChannels q →
  holds_rows data count numChans stride →
  let k := Z.min (maxThreshold q) (count - n) in
  ∃ q', put_chunk data count numChans stride (q, n) = Ok (q', n + k) ∧
    wf q' ∧ same_shape q q' ∧ Count q' = Count q + k ∧
    ∀ c, 0 ≤ c < numChans →
      contents q' c = contents q c ++ slice data (c * stride + n) k.
Proof.
  intros Hq HM Hn Hc Hf Hnc [Hs Hd] k. subst k.
  set (k := Z.min (maxThreshold q) (count - n)).
  destruct (put_rows_ok q data n k numChans stride)
    as (q1 & q2 & bytes & buf & src & E1 & E2 & E3 & E4 & E5 & _ & Hq2 & Hss & HC & Hcon);
    [done|lia..|split; [done|intros c Hc'; specialize (Hd c Hc'); lia]|].
  exists q2. split; [|done]. unfold put_chunk. rewrite (u32_id (count - n)) by lia.
  replace (if _ <? _ then _ else _) with k by (zcases; lia).
  rewrite E1. cbn. rewrite E2. cbn. rewrite E3. cbn. rewrite E4. cbn. rewrite E5. cbn.
  by rewrite u32_id by lia.
Qed.

(** The guard of the functions that copy: there is no data to move, or each
    turn of their loop makes progress. *)
Definition can_copy (q : queue) (count numChans : Z) : Prop :=
  count = 0 ∨ 0 < maxThreshold q ∧ 1 ≤ numChans.

Lemma RawEnqueue_total q data count numChans stride :
  wf q → 0 ≤ count ≤ Freespace q → numChans ≤ numChannels q →
  can_copy q count numChans → holds_rows data count numChans stride →
  ∃ q', RawEnqueue q data count numChans stride = Ok (true, q') ∧
    wf q' ∧ same_shape q q' ∧ Count q' = Count q + count ∧
    ∀ c, 0 ≤ c < numChans → contents q' c = contents q c ++ slice data (c * stride) count.
Proof.
  intros Hq Hc Hnc Hcp Hd. unfold RawEnqueue. zdecide. cbn.
  pose proof (freespace_spec q Hq). destruct (count_spec q Hq) as [_ ?].
  destruct (while_loop_ok (λ st : queue * Z, 0 ≤ st.2 ≤ count ∧ wf st.1 ∧
      same_shape q st.1 ∧ Count st.1 = Count q + st.2 ∧
      ∀ c, 0 ≤ c < numChans → contents st.1 c = contents q c ++ slice data (c * stride) st.2)
    (λ st, count - st.2) (λ st, st.2 <? count)
    (put_chunk data count numChans stride) (S (Z.to_nat count)) (q, 0))
    as ([q' n] & E & (Hn & Hq' & Hss & HC & Hcon) & Hlt); cbn [fst snd] in *.
  - split_and!; try lia; try done. intros c Hc'. by rewrite slice_0, app_nil_r.
  - lia.
  - intros st ?. lia.
  - intros [q1 n] (Hn & Hq1 & Hss & HC & Hcon) Hlt%Z.ltb_lt. cbn [fst snd] in *.
    destruct Hcp as [->|[HM Hnc1]]; [lia|]. pose proof (freespace_spec q1 Hq1).
    pose proof (ss_len _ _ Hss). pose proof (ss_max _ _ Hss). pose proof (ss_chan _ _ Hss).
    destruct (put_chunk_ok q1 data count numChans stride n)
      as (q2 & E & Hq2 & Hss2 & HC2 & Hcon2); [done|lia|lia|by_wf|lia|lia|done|].
    eexists. split; [exact E|]. cbn [fst snd].
    split; [|lia]. split; [lia|]. split; [done|]. split; [by etrans|]. split; [lia|].
    intros c Hc'. destruct Hd as [? Hd]. specialize (Hd c Hc').
    rewrite Hcon2, Hcon, <- app_assoc, slice_app by (done || lia). done.
  - apply Z.ltb_ge in Hlt. assert (n = count) as -> by lia. exists q'. rewrite E. done.
Qed.

Lemma RawEnqueue_full q data count numChans stride :
  numChans ≤ numChannels q → Freespace q < count →
  RawEnqueue q data count numChans stride = Ok (false, q).
Proof. intros. unfold RawEnqueue. by zdecide. Qed.

(** *** [GetRawDequeuePtr] and [Dequeue] *)

(** A queue that differs from [q] outside the rings only. *)
Definition same_rings (q q' : queue) : Prop :=
  ∃ buf, q' = set_buffer q buf ∧ len buf = len (buffer q) ∧
    ∀ c i, 0 ≤ c < numChannels q → 0 ≤ i < queueLength q → row q' c i = row q c i.

Lemma same_rings_refl q : same_rings q q.
Proof. exists (buffer q). by destruct q. Qed.
Lemma same_rings_trans q1 q2 q3 : same_rings q1 q2 → same_rings q2 q3 → same_rings q1 q3.
Proof.
  intros (b1 & -> & L1 & G1) (b2 & -> & L2 & G2). exists b2.
  split; [done|]. split; [by rewrite L2|]. intros c i ? ?. by rewrite G2, G1.
Qed.

Lemma same_rings_ok q q' : same_rings q q' → wf q →
  wf q' ∧ same_shape q q' ∧ Count q' = Count q ∧ head q' = head q ∧ tail q' = tail q ∧
  ∀ c, 0 ≤ c < numChannels q → contents q' c = contents q c.
Proof.
  intros (buf & -> & L & G) Hq. split; [|split_and!; try done].
  { open_wf. constructor; cbn; lia. }
  intros c Hc. apply contents_ext; [done|]. intros k Hk. unfold nth_byte.
  apply G; [done|]. apply Z.mod_pos_bound. by_wf.
Qed.

Lemma GetRawDequeuePtr_ok q thresh c :
  wf q → 0 ≤ c < numChannels q → 0 ≤ thresh ≤ Count q → thresh ≤ maxThreshold q →
  ∃ q', GetRawDequeuePtr q thresh c = Ok (Some (c * chanStride q + tail q), q') ∧
    same_rings q q' ∧
    memread (buffer q') (c * chanStride q + tail q) thresh =
      Ok (slice (contents q c) 0 thresh) ∧
    ∀ c' i, 0 ≤ c' < numChannels q → 0 ≤ i < chanStride q → c' ≠ c →
      row q' c' i = row q c' i.
Proof.
  intros Hq Hc Ht HM. destruct (row_off q c Hq Hc) as [EO ?].
  destruct (count_spec q Hq) as [EC HC].
  assert (∃ buf, GetRawDequeuePtr q thresh c =
      Ok (Some (c * chanStride q + tail q), set_buffer q buf) ∧
    len buf = len (buffer q) ∧
    ∀ c' i, 0 ≤ c' < numChannels q → 0 ≤ i < chanStride q →
      cell buf (chanStride q) c' i =
      if (c' =? c) && (queueLength q <=? i) && (i <? tail q + thresh)
      then row q c (i - queueLength q) else row q c' i) as (buf & E & L & G).
  { unfold GetRawDequeuePtr. rewrite EO. zdecide.
    rewrite (u64_id (tail q + _)), (u32_id (tail q + thresh)), (Z.add_comm (tail q) (c * _))
      by by_wf.
    destruct (Z.ltb_spec (queueLength q) (tail q + thresh)).
    - rewrite u32_id, u64_id, (Z.add_comm (queueLength q) (c * _)) by by_wf.
      destruct (cell_memcpy (buffer q) (chanStride q) (numChannels q) c (queueLength q) 0
        (tail q + thresh - queueLength q)) as (buf & E & L & G); [by_wf..|].
      rewrite Z.add_0_r in E. rewrite E. exists buf. split; [done|]. split; [done|].
      intros c' i Hc' Hi. rewrite G by done.
      replace (queueLength q + (tail q + thresh - queueLength q)) with (tail q + thresh) by lia.
      destruct ((_ && _) && _); [unfold row; f_equal; lia|done].
    - exists (buffer q). split; [done|]. split; [done|]. intros c' i Hc' Hi.
      zcases; cbn; done || lia. }
  exists (set_buffer q buf). split; [done|]. split.
  - exists buf. split; [done|]. split; [done|]. intros c' i Hc' Hi. unfold row at 1; cbn.
    rewrite G by by_wf. zdecide. by rewrite andb_false_r.
  - split; cycle 1.
    { intros c' i Hc' Hi Hne. unfold row at 1; cbn. rewrite G by done. by zdecide. }
    cbn. rewrite (slice_cells _ _ (numChannels q)) by by_wf. f_equal.
    apply bytes_ext; [rewrite len_slice by (rewrite ?contents_len; done || lia);
      by autorewrite with bytes|]. autorewrite with bytes. intros i Hi.
    rewrite bget_seqZ, bget_slice by lia. unfold contents. rewrite bget_seqZ by lia.
    rewrite !Z.add_0_l. unfold nth_byte. rewrite mod_once by by_wf.
    rewrite G by by_wf. rewrite Z.eqb_refl. zcases; cbn; try lia; try done; f_equal; lia.
Qed.

Lemma Dequeue_ok q n : wf q → 0 ≤ n ≤ Count q →
  ∃ q', Dequeue q n = Ok q' ∧ wf q' ∧ same_shape q q' ∧ head q' = head q ∧
    buffer q' = buffer q ∧ Count q' = Count q - n ∧
    ∀ c, contents q' c = drop (Z.to_nat n) (contents q c).
Proof.
  intros Hq Hn. destruct (count_spec q Hq) as [EC HC].
  assert (Dequeue q n = Ok (set_tail q ((tail q + n) `mod` queueLength q))) as E.
  { unfold Dequeue. zdecide. cbn. rewrite mod_once, (u32_id (tail q + n)) by by_wf.
    zcases; try lia; rewrite ?u64_id by by_wf; by rewrite u32_id by by_wf. }
  rewrite E. eexists. split; [done|].
  assert (wf (set_tail q ((tail q + n) `mod` queueLength q))) as Hq'.
  { pose proof (Z.mod_pos_bound (tail q + n) (queueLength q)). open_wf. constructor; cbn; lia. }
  destruct (count_spec _ Hq') as [EC' HC']. cbn in EC', HC'.
  assert (Count (set_tail q ((tail q + n) `mod` queueLength q)) = Count q - n) as C'.
  { rewrite EC', EC. rewrite mod_once in * by by_wf. zcases_all; open_wf; lia. }
  split; [done|]. split; [done|]. split; [done|]. split; [done|]. split; [done|].
  intros c. apply bytes_ext.
  { rewrite len_drop, !contents_len by (rewrite ?contents_len; done || lia). lia. }
  rewrite contents_len, C' by done. intros k Hk. rewrite bget_drop by lia.
  unfold contents. rewrite C', !bget_seqZ by lia. unfold nth_byte, row; cbn.
  f_equal. rewrite Z.add_0_l, Zplus_mod_idemp_l. f_equal. lia.
Qed.

(** *** The queue as something to drain *)
#[global] Instance queue_dequeue_side : DequeueSide queue := {
  ds_chans := numChannels; ds_ptr := GetRawDequeuePtr;
  ds_load q p n := memread (buffer q) p n; ds_dequeue := Dequeue }.

#[global] Program Instance queue_dequeue_laws : DequeueSideLaws queue := {
  ds_inv := wf; ds_count := Count; ds_thresh := maxThreshold; ds_bytes := contents;
  ds_view q t c p := p = c * chanStride q + tail q ∧
                     window q c (tail q) t = slice (contents q c) 0 t }.
Next Obligation. intros. by apply contents_len. Qed.
Next Obligation.
  cbn. intros q t c p Hq Hc Ht Hm [-> E]. rewrite <- E. unfold window, row.
  apply (slice_cells _ _ (numChannels q)); by_wf.
Qed.
Next Obligation.
  cbn. intros q t c Hq Hc Ht Hm.
  destruct (GetRawDequeuePtr_ok q t c) as (q' & E & Hr & Er & Ho); [done..|].
  destruct (same_rings_ok q q' Hr Hq) as (Hq' & [SL SM SC SS] & HC & Hh & Htl & Hcon).
  exists (c * chanStride q + tail q), q'. split; [done|]. split; [done|].
  split_and!; try done; [by rewrite SS, Htl| |].
  - rewrite Hcon, Htl by done. rewrite (slice_cells _ _ (numChannels q)) in Er by by_wf.
    injection Er as Er. rewrite <- Er. unfold window, row. by rewrite SS.
  - intros c' p' Hc' [-> Ew]. rewrite SS, Htl, Hcon by lia. split; [done|].
    rewrite <- Ew. apply window_ext. intros i Hi. apply Ho; by_wf.
Qed.
Next Obligation.
  cbn. intros q n Hq Hn.
  destruct (Dequeue_ok q n Hq Hn) as (q' & E & Hq' & [SL SM SC SS] & _ & _ & HC & Hcon).
  exists q'. by split_and!.
Qed.

(** *** [RawDequeue] *)

(** The caller's block [data'] is [data] with bytes [src c 0 .. src c (k-1)]
    at offset [off] of each of its first [nc] rows. *)
Record rows_written (data data' : list Z) (nc stride off k : Z) (src : Z → Z → Z) : Prop := {
  rw_len : len data' = len data;
  rw_rows : ∀ c j, 0 ≤ c < nc → 0 ≤ j < k → bget data' (c * stride + off + j) = src c j;
  rw_rest : ∀ i, 0 ≤ i →
    (∀ c, 0 ≤ c < nc → i < c * stride + off ∨ c * stride + off + k ≤ i) →
    bget data' i = bget data i }.

Lemma rows_apart stride c c' j j' n :
  n ≤ stride ∨ c = c' → 0 ≤ j < n → 0 ≤ j' < n →
  c * stride + j = c' * stride + j' → c = c' ∧ j = j'.
Proof. intros [H| ->] ? ? E; [apply (stride_inj stride c j c' j'); lia|lia]. Qed.

Lemma rows_written_none data nc stride off src : rows_written data data nc stride off 0 src.
Proof. constructor; [done|lia|done]. Qed.

Lemma rows_written_step data data1 c stride off k src d :
  rows_written data data1 c stride off k src → 0 ≤ off → 0 ≤ stride → 0 ≤ c →
  k ≤ stride ∨ c = 0 → len d = k → c * stride + off + k ≤ len data →
  (∀ j, 0 ≤ j < k → bget d j = src c j) →
  ∃ data2, memwrite data1 (c * stride + off) d = Ok data2 ∧
    rows_written data data2 (c + 1) stride off k src.
Proof.
  intros [L R F] Ho Hs Hc Hk Hd Hb Hsrc. pose proof (len_nonneg d).
  destruct (memwrite_ok data1 (c * stride + off) d) as (data2 & E & L2 & G); [nia|lia|].
  exists data2. split; [done|]. constructor; [lia| |].
  - intros c' j Hc' Hj. rewrite G by nia.
    destruct (decide (c' = c)) as [->|Hne].
    + zdecide. rewrite <- (Hsrc j) by lia. f_equal. lia.
    + destruct ((_ && _)) eqn:B; [|apply R; lia].
      rewrite andb_true_iff, Z.leb_le, Z.ltb_lt in B.
      destruct (rows_apart stride c' c j (c' * stride + j - c * stride) k); lia.
  - intros i Hi Hout. rewrite G by lia. pose proof (Hout c ltac:(lia)) as Hcc.
    replace (_ && _) with false.
    + apply F; [done|]. intros c' Hc'. apply Hout. lia.
    + symmetry. apply andb_false_iff. rewrite Z.leb_gt, Z.ltb_ge. lia.
Qed.

Lemma rows_written_chain data data1 data2 nc stride n k src :
  rows_written data data1 nc stride 0 n src →
  rows_written data1 data2 nc stride n k (λ c j, src c (n + j)) →
  n + k ≤ stride ∨ nc ≤ 1 → 0 ≤ n → 0 ≤ k → 0 ≤ stride →
  rows_written data data2 nc stride 0 (n + k) src.
Proof.
  intros [L1 R1 F1] [L2 R2 F2] Hd Hn Hk Hs. constructor; [lia| |].
  - intros c j Hc Hj. destruct (decide (j < n)).
    + rewrite F2, R1; [done|lia|lia|nia|]. intros c' Hc'.
      destruct (decide (c' * stride + n ≤ c * stride + 0 + j < c' * stride + n + k)); [|lia].
      destruct (rows_apart stride c c' j (c * stride + j - c' * stride) (n + k)); lia.
    + replace (c * stride + 0 + j) with (c * stride + n + (j - n)) by lia.
      rewrite R2 by lia. f_equal. lia.
  - intros i Hi Hout. rewrite F2, F1; [done|done|..]; [|done|];
      intros c Hc; specialize (Hout c Hc); lia.
Qed.

Section get.
Context (q0 : queue) (data0 : list Z) (n k numChans stride : Z).
Hypotheses (Hq0 : wf q0) (Hn : 0 ≤ n) (Hk : 0 ≤ k) (Hc : k ≤ Count q0)
  (Hm : k ≤ maxThreshold q0) (Hnc : 1 ≤ numChans ≤ numChannels q0)
  (Hd : holds_rows data0 (n + k) numChans stride) (Hs : k ≤ stride ∨ numChans = 1).

Let get_inv (c : Z) (q : queue) (data : list Z) : Prop :=
  same_rings q0 q ∧ rows_written data0 data c stride n k (nth_byte q0).

Lemma get_one q data c : get_inv c q data → 0 ≤ c < numChans →
  ∃ q' bytes data', GetRawDequeuePtr q k c = Ok (Some (c * chanStride q + tail q), q') ∧
    memread (buffer q') (c * chanStride q + tail q) k = Ok bytes ∧
    memwrite data (c * stride + n) bytes = Ok data' ∧ get_inv (c + 1) q' data'.
Proof.
  intros [Hr Hw] Hcc. destruct Hd as [Hst Hd']. specialize (Hd' c Hcc).
  destruct (same_rings_ok q0 q Hr Hq0) as (Hq & Hss & HC & Hh & Ht & Hcon).
  destruct Hss as [SL SM SC SS].
  destruct (GetRawDequeuePtr_ok q k c) as (q' & E & Hr' & Er & _); [done|lia..|].
  assert (len (slice (contents q c) 0 k) = k) as L
    by (apply len_slice; rewrite ?contents_len; done || lia).
  destruct (rows_written_step data0 data c stride n k (nth_byte q0)
    (slice (contents q c) 0 k)) as (data' & Ew & Hw'); [done|lia..| |].
  { intros j Hj. rewrite bget_slice by lia. rewrite Hcon by lia. unfold contents.
    rewrite bget_seqZ by lia. done. }
  exists q', (slice (contents q c) 0 k), data'. split_and!; [done..|].
  split; [|done]. by apply same_rings_trans with q.
Qed.

Lemma get_channels_ok q data : get_inv 1 q data →
  ∃ q' data' dest, for_loop (Z.to_nat (numChans - 1)) 1 (get_channel k stride) (q, data, n)
    = Ok (q', data', dest) ∧ get_inv numChans q' data'.
Proof.
  intros H1.
  destruct (for_loop_ok (λ c st, get_inv c st.1.1 st.1.2 ∧ st.2 = (c - 1) * stride + n)
    (get_channel k stride) (Z.to_nat (numChans - 1)) 1 (q, data, n))
    as ([[q' data'] dest] & E & H & _); cbn [fst snd] in *.
  - split; [done|lia].
  - intros c [[q1 data1] dest] Hc1 [Hi Hdest]. cbn [fst snd] in *.
    destruct (get_one q1 data1 c Hi) as (q2 & bytes & data2 & E1 & E2 & E3 & Hi'); [lia|].
    exists (q2, data2, dest + stride). unfold get_channel. rewrite E1. cbn.
    replace (dest + stride) with (c * stride + n) by lia. rewrite E2. cbn.
    rewrite E3. cbn. split; [done|]. split; [done|lia].
  - exists q', data', dest. split; [done|].
    by replace numChans with (1 + Z.of_nat (Z.to_nat (numChans - 1))) by lia.
Qed.

Lemma get_rows_ok :
  ∃ q1 q2 q3 bytes data1 data2 dest,
    GetRawDequeuePtr q0 k 0 = Ok (Some (tail q0), q1) ∧
    memread (buffer q1) (tail q0) k = Ok bytes ∧ memwrite data0 n bytes = Ok data1 ∧
    for_loop (Z.to_nat (numChans - 1)) 1 (get_channel k stride) (q1, data1, n)
      = Ok (q2, data2, dest) ∧
    Dequeue q2 k = Ok q3 ∧
    wf q3 ∧ same_shape q0 q3 ∧ Count q3 = Count q0 - k ∧
    (∀ c, 0 ≤ c < numChannels q0 → contents q3 c = drop (Z.to_nat k) (contents q0 c)) ∧
    rows_written data0 data2 numChans stride n k (nth_byte q0).
Proof.
  destruct (get_one q0 data0 0) as (q1 & bytes & data1 & E1 & E2 & E3 & H1); [|lia|].
  { split; [apply same_rings_refl|]. constructor; [done|lia|done]. }
  destruct (get_channels_ok q1 data1 H1) as (q2 & data2 & dest & E4 & Hr & Hw).
  destruct (same_rings_ok q0 q2 Hr Hq0) as (Hq & Hss & HC & Hh & Ht & Hcon).
  destruct (Dequeue_ok q2 k) as (q3 & E5 & Hq3 & Hs3 & _ & _ & HC3 & Hcon3); [done|lia|].
  rewrite Z.mul_0_l, Z.add_0_l in E1, E2, E3.
  exists q1, q2, q3, bytes, data1, data2, dest. split_and!; try done.
  - by etrans.
  - lia.
  - intros c Hc'. by rewrite Hcon3, Hcon.
Qed.
End get.

Lemma get_chunk_ok q data count numChans stride n :
  wf q → 0 < maxThreshold q → 0 ≤ n < count → count < 4294967296 →
  count - n ≤ Count q → 1 ≤ numChans ≤ numChannels q →
  holds_rows data count numChans stride → count ≤ stride ∨ numChans = 1 →
  let k := Z.min (maxThreshold q) (count - n) in
  ∃ q' data', get_chunk count numChans stride (q, data, n) = Ok (q', data', n + k) ∧
    wf q' ∧ same_shape q q' ∧ Count q' = Count q - k ∧
    (∀ c, 0 ≤ c < numChannels q → contents q' c = drop (Z.to_nat k) (contents q c)) ∧
    rows_written data data' numChans stride n k (nth_byte q).
Proof.
  intros Hq HM Hn Hc Hf Hnc [Hs Hd] Hst k. subst k.
  set (k := Z.min (maxThreshold q) (count - n)).
  destruct (get_rows_ok q data n k numChans stride)
    as (q1 & q2 & q3 & bytes & data1 & data2 & dest & E1 & E2 & E3 & E4 & E5 & H);
    [done|lia..|split; [done|intros c Hc'; specialize (Hd c Hc'); lia]|lia|].
  exists q3, data2. split; [|done]. unfold get_chunk. rewrite (u32_id (count - n)) by lia.
  replace (if _ <? _ then _ else _) with k by (zcases; lia).
  rewrite E1. cbn. rewrite E2. cbn. rewrite E3. cbn. rewrite E4. cbn. rewrite E5. cbn.
  by rewrite u32_id by lia.
Qed.

Lemma RawDequeue_total q data count numChans stride :
  wf q → 0 ≤ count ≤ Count q → numChans ≤ numChannels q →
  can_copy q count numChans → holds_rows data count numChans stride →
  count ≤ stride ∨ numChans = 1 →
  ∃ q' data', RawDequeue q data count numChans stride = Ok (true, q', data') ∧
    wf q' ∧ same_shape q q' ∧ Count q' = Count q - count ∧
    (∀ c, 0 ≤ c < numChannels q → contents q' c = drop (Z.to_nat count) (contents q c)) ∧
    rows_written data data' numChans stride 0 count (nth_byte q).
Proof.
  intros Hq Hc Hnc Hcp Hd Hst. unfold RawDequeue. zdecide. cbn.
  destruct (count_spec q Hq) as [_ ?].
  destruct (while_loop_ok (λ st : queue * list Z * Z, 0 ≤ st.2 ≤ count ∧ wf st.1.1 ∧
      same_shape q st.1.1 ∧ Count st.1.1 = Count q - st.2 ∧
      (∀ c, 0 ≤ c < numChannels q →
        contents st.1.1 c = drop (Z.to_nat st.2) (contents q c)) ∧
      rows_written data st.1.2 numChans stride 0 st.2 (nth_byte q))
    (λ st, count - st.2) (λ st, st.2 <? count)
    (get_chunk count numChans stride) (S (Z.to_nat count)) (q, data, 0))
    as ([[q' data'] n] & E & (Hn & Hq' & Hrest) & Hlt); cbn [fst snd] in *.
  - split_and!; try lia; try done. apply rows_written_none.
  - lia.
  - intros st ?. lia.
  - intros [[q1 data1] n] (Hn & Hq1 & Hss & HC & Hcon & Hw) Hlt%Z.ltb_lt. cbn [fst snd] in *.
    destruct Hcp as [->|[HM Hnc1]]; [lia|].
    pose proof (ss_len _ _ Hss). pose proof (ss_max _ _ Hss). pose proof (ss_chan _ _ Hss).
    destruct (get_chunk_ok q1 data1 count numChans stride n)
      as (q2 & data2 & E & Hq2 & Hss2 & HC2 & Hcon2 & Hw2); [done|lia|lia|by_wf|lia|lia| |done|].
    { destruct Hd as [? Hd]. split; [done|]. intros c Hc'. rewrite (rw_len _ _ _ _ _ _ _ Hw).
      by apply Hd. }
    eexists. split; [exact E|]. cbn [fst snd].
    split; [|lia]. split; [lia|]. split; [done|]. split; [by etrans|]. split; [lia|]. split.
    + intros c Hc'. rewrite Hcon2, Hcon, drop_drop by (done || lia). f_equal. lia.
    + destruct Hd as [? _]. eapply rows_written_chain; [exact Hw| |lia..].
      destruct Hw2 as [L2 R2 F2]. constructor; [done| |done].
      intros c j Hc' Hj. rewrite R2 by done.
      pose proof (Hcon c ltac:(lia)) as E'. apply (f_equal (λ l, bget l j)) in E'.
      rewrite bget_drop in E' by lia. unfold contents in E'.
      rewrite !bget_seqZ in E' by lia. exact E'.
  - apply Z.ltb_ge in Hlt. assert (n = count) as -> by lia. exists q', data'.
    by rewrite E.
Qed.

Lemma rows_written_slice data data' nc stride count q c :
  rows_written data data' nc stride 0 count (nth_byte q) → wf q →
  0 ≤ c < nc → 0 ≤ count ≤ Count q → 0 ≤ stride → c * stride + count ≤ len data →
  slice data' (c * stride) count = slice (contents q c) 0 count.
Proof.
  intros [L R _] Hq Hc Hn Hs Hb.
  apply bytes_ext; rewrite !len_slice by (rewrite ?contents_len; done || nia); [done|].
  intros i Hi. rewrite !bget_slice by nia. rewrite <- (Z.add_0_r (c * stride)), R by lia.
  unfold contents. rewrite bget_seqZ by lia. done.
Qed.

(** *** Construction, [Clear] and [Grow] *)
Lemma empty_contents q c : wf q → head q = tail q → contents q c = [].
Proof.
  intros Hq E. destruct (count_spec q Hq) as [C _]. unfold contents.
  rewrite C, E. zdecide. by rewrite Z.sub_diag.
Qed.

Lemma make_ok size maxThresh numChans :
  0 ≤ size → 0 ≤ maxThresh → 0 ≤ numChans →
  Z.max size maxThresh + 1 + maxThresh < 2147483648 →
  (Z.max size maxThresh + 1 + maxThresh) * numChans < 2147483648 →
  let q := make size maxThresh numChans in
  wf q ∧ QueueLength q = Z.max size maxThresh ∧ maxThreshold q = maxThresh ∧
  numChannels q = numChans ∧ Count q = 0 ∧ Freespace q = QueueLength q.
Proof.
  intros Hs Hm Hn Hb Hb2. cbn zeta. unfold QueueLength, Count, Freespace, make.
  assert (0 ≤ (size + 1 + maxThresh) * numChans
            ≤ (Z.max size maxThresh + 1 + maxThresh) * numChans) by nia.
  assert (0 ≤ (Z.max size maxThresh + 1 + maxThresh) * numChans) by nia.
  destruct (Z.ltb_spec size maxThresh); cbn.
  - replace (Z.max size maxThresh + 1 + maxThresh) with (2 * maxThresh + 1) in * by lia.
    words. split; [|lia]. constructor; cbn; try lia. by rewrite len_vresize by lia.
  - replace (Z.max size maxThresh) with size in * by lia.
    words. split; [|lia]. constructor; cbn; try lia. by rewrite len_zeros by lia.
Qed.

Lemma Clear_ok q : wf q →
  wf (Clear q) ∧ same_shape q (Clear q) ∧ Count (Clear q) = 0 ∧
  ∀ c, contents (Clear q) c = [].
Proof.
  intros Hq. assert (wf (Clear q)) as Hq' by (open_wf; constructor; cbn; lia).
  split_and!; [done..|]. intros c. by apply empty_contents.
Qed.

(** The queue [Grow] makes when it does not return at once. *)
Definition grown (q : queue) (queueLen maxThresh : Z) : bool :=
  (queueLength q <? queueLen) || (maxThreshold q <? maxThresh).
Definition grow_fits (q : queue) (queueLen maxThresh : Z) : Prop :=
  let stride := Z.max queueLen (queueLength q) + 1 + Z.max maxThresh (maxThreshold q) in
  0 ≤ queueLen ∧ 0 ≤ maxThresh ∧ stride < 2147483648 ∧
  stride * numChannels q < 2147483648.

Lemma Grow_ignored q queueLen maxThresh :
  queueLen ≤ queueLength q → maxThresh ≤ maxThreshold q → Grow q queueLen maxThresh = Ok q.
Proof. intros. unfold Grow. by zdecide. Qed.

Lemma Grow_total q queueLen maxThresh :
  wf q → grow_fits q queueLen maxThresh → grown q queueLen maxThresh = true →
  can_copy q (Count q) (numChannels q) →
  ∃ q', Grow q queueLen maxThresh = Ok q' ∧ wf q' ∧
    queueLength q' = Z.max queueLen (queueLength q) + 1 ∧
    maxThreshold q' = Z.max maxThresh (maxThreshold q) ∧
    numChannels q' = numChannels q ∧ Count q' = Count q ∧
    ∀ c, 0 ≤ c < numChannels q → contents q' c = contents q c.
Proof.
  intros Hq (HL & HM & Hb & Hb2) Hg Hcp. unfold grown in Hg.
  assert ((queueLen <=? queueLength q) && (maxThresh <=? maxThreshold q) = false) as G.
  { apply orb_true_iff in Hg. rewrite !Z.ltb_lt in Hg.
    apply andb_false_iff. rewrite !Z.leb_gt. tauto. }
  unfold Grow. rewrite G. clear G Hg.
  replace (if queueLen <? queueLength q then queueLength q else queueLen)
    with (Z.max queueLen (queueLength q)) by (zcases; lia).
  replace (if maxThresh <? maxThreshold q then maxThreshold q else maxThresh)
    with (Z.max maxThresh (maxThreshold q)) by (zcases; lia).
  set (L := Z.max queueLen (queueLength q)) in *.
  set (T := Z.max maxThresh (maxThreshold q)) in *.
  destruct (count_spec q Hq) as [_ HC].
  assert (0 ≤ L ∧ 0 ≤ T ∧ queueLength q ≤ L) as (HL0 & HT0 & HLq) by lia.
  assert (0 ≤ (L + 1 + T) * numChannels q) by (open_wf; nia).
  rewrite (u32_id (L + 1 + T)), (u32_id (_ * _)), (u32_id (L + 1)) by by_wf.
  set (copy := zeros ((L + 1 + T) * numChannels q)).
  assert (len copy = (L + 1 + T) * numChannels q) as EL by (apply len_zeros; lia).
  assert (holds_rows copy (Count q) (numChannels q) (L + 1 + T)) as Hrows.
  { split; [lia|]. intros c Hc. nia. }
  destruct (RawDequeue_total q copy (Count q) (numChannels q) (L + 1 + T))
    as (q1 & copy' & E & _ & [_ _ EN _] & _ & _ & Hw); [done|lia|lia|done|done|lia|].
  rewrite E. cbn. rewrite EN. eexists. split; [done|].
  assert (wf (mk (L + 1) T (numChannels q) (L + 1 + T) (Count q) 0 copy')) as Hq'.
  { open_wf. constructor; cbn; try lia. rewrite (rw_len _ _ _ _ _ _ _ Hw). lia. }
  assert (Count (mk (L + 1) T (numChannels q) (L + 1 + T) (Count q) 0 copy') = Count q) as C'.
  { rewrite (proj1 (count_spec _ Hq')). cbn. zdecide. lia. }
  split_and!; try done. intros c Hc. apply contents_ext; [done|]. intros k Hk.
  unfold nth_byte at 1, row, cell; cbn. rewrite Z.mod_small by lia.
  rewrite <- (rw_rows _ _ _ _ _ _ _ Hw c k) by lia. f_equal. lia.
Qed.

(** ** The abstract queue and the refinement

    What [CircularQueue.h] promises: as many bounded FIFO queues of bytes as
    there are channels, filled and drained together. *)
Record fifo := mk_fifo {
  f_size : Z; f_thresh : Z; f_chans : Z; f_count : Z; f_bytes : Z → list Z }.

Inductive op :=
  | Put (data : list Z) (count stride : Z)
  | Get (count : Z)
  | GrowTo (queueLen maxThresh : Z)
  | ClearAll.

(** An operation of a client, and what the client observes. *)
Definition run_op (q : queue) (o : op) : res (queue * (bool * list (list Z))) :=
  match o with
  | Put data count stride =>
    '(ok, q') ← RawEnqueue q data count (numChannels q) stride; Ok (q', (ok, []))
  | Get count =>
    '(ok, q', data) ← RawDequeue q (zeros (count * numChannels q)) count (numChannels q) count;
    Ok (q', (ok, match ok with
                 | true => (λ c, slice data (c * count) count) <$> seqZ 0 (numChannels q)
                 | false => []
                 end))
  | GrowTo l t => q' ← Grow q l t; Ok (q', (true, []))
  | ClearAll => Ok (Clear q, (true, []))
  end.

(** [Grow] increases the length, to what is asked for or one more when it has to
    make room for a larger threshold only, and the threshold; it does nothing
    when neither is larger than it is. *)
Inductive spec_op (f : fifo) : op → fifo → bool * list (list Z) → Prop :=
  | spec_full data count stride : f_size f - f_count f < count →
      spec_op f (Put data count stride) f (false, [])
  | spec_put data count stride : count ≤ f_size f - f_count f →
      spec_op f (Put data count stride)
        (mk_fifo (f_size f) (f_thresh f) (f_chans f) (f_count f + count)
           (λ c, f_bytes f c ++ slice data (c * stride) count)) (true, [])
  | spec_empty count : f_count f < count → spec_op f (Get count) f (false, [])
  | spec_get count : count ≤ f_count f →
      spec_op f (Get count)
        (mk_fifo (f_size f) (f_thresh f) (f_chans f) (f_count f - count)
           (λ c, drop (Z.to_nat count) (f_bytes f c)))
        (true, (λ c, take (Z.to_nat count) (f_bytes f c)) <$> seqZ 0 (f_chans f))
  | spec_keep l t : l ≤ f_size f → t ≤ f_thresh f → spec_op f (GrowTo l t) f (true, [])
  | spec_grow l t size : f_size f < l ∨ f_thresh f < t →
      Z.max l (f_size f) ≤ size → (f_size f < l → size = l) → size ≤ Z.max l (f_size f) + 1 →
      spec_op f (GrowTo l t)
        (mk_fifo size (Z.max t (f_thresh f)) (f_chans f) (f_count f) (f_bytes f)) (true, [])
  | spec_clear : spec_op f ClearAll
      (mk_fifo (f_size f) (f_thresh f) (f_chans f) 0 (λ _, [])) (true, []).

(** What a client must respect, stated on the abstract queue.  The last condition of
    [GrowTo] leaves out the one request that the code drops against its contract
    ([Grow_by_one_ignored]): a length of one more, and no larger threshold. *)
Definition legal (f : fifo) (o : op) : Prop :=
  1 ≤ f_chans f ∧ 0 < f_thresh f ∧
  match o with
  | Put data count stride => 0 ≤ count ∧ holds_rows data count (f_chans f) stride
  | Get count => 0 ≤ count
  | GrowTo l t =>
    let stride := Z.max l (f_size f + 1) + 1 + Z.max t (f_thresh f) in
    0 ≤ l ∧ 0 ≤ t ∧ stride < 2147483648 ∧ stride * f_chans f < 2147483648 ∧
    ¬ (l = f_size f + 1 ∧ t ≤ f_thresh f)
  | ClearAll => True
  end.

Record refines (q : queue) (f : fifo) : Prop := {
  r_wf : wf q;
  r_size : f_size f = queueLength q - 1;
  r_thresh : f_thresh f = maxThreshold q;
  r_chans : f_chans f = numChannels q;
  r_count : f_count f = Count q;
  r_bytes : ∀ c, 0 ≤ c < numChannels q → f_bytes f c = contents q c }.

Fixpoint run_ops (q : queue) (os : list op) : res (queue * list (bool * list (list Z))) :=
  match os with
  | [] => Ok (q, [])
  | o :: os => '(q, x) ← run_op q o; '(q, xs) ← run_ops q os; Ok (q, x :: xs)
  end.
Inductive spec_ops : fifo → list op → fifo → list (bool * list (list Z)) → Prop :=
  | spec_nil f : spec_ops f [] f []
  | spec_cons f o os f1 x f2 xs : spec_op f o f1 x → spec_ops f1 os f2 xs →
      spec_ops f (o :: os) f2 (x :: xs).
(** The operations are legal wherever the contract leaves the queue. *)
Fixpoint legal_ops (f : fifo) (os : list op) : Prop :=
  match os with
  | [] => True
  | o :: os => legal f o ∧ ∀ f1 x, spec_op f o f1 x → legal_ops f1 os
  end.

Lemma refines_get q count data nc :
  wf q → 0 ≤ count ≤ Count q → nc = numChannels q →
  rows_written (zeros (count * nc)) data nc count 0 count (nth_byte q) →
  (λ c, slice data (c * count) count) <$> seqZ 0 nc =
  (λ c, take (Z.to_nat count) (contents q c)) <$> seqZ 0 nc.
Proof.
  intros Hq Hc -> Hw. apply list_fmap_ext. intros i c Hc'%lookup_seqZ.
  erewrite rows_written_slice; [reflexivity|exact Hw|done|lia|lia|lia|].
  rewrite len_zeros by nia. nia.
Qed.

Lemma run_op_refines q f o : refines q f → legal f o →
  ∃ q' f' x, run_op q o = Ok (q', x) ∧ spec_op f o f' x ∧ refines q' f'.
Proof.
  intros [Hq Hs Ht Hn Hc Hb] (Hn1 & Ht0 & Hl). pose proof (freespace_spec q Hq).
  destruct o as [data count stride|count|l t|]; cbn [run_op] in *.
  - destruct Hl as [Hc0 Hrows]. destruct (Z.lt_ge_cases (f_size f - f_count f) count).
    + exists q, f, (false, []). rewrite RawEnqueue_full by lia. split; [done|]. by split; [constructor|].
    + destruct (RawEnqueue_total q data count (numChannels q) stride)
        as (q' & E & Hq' & [SL SM SC SS] & HC & Hcon);
        [done|lia|lia|right; lia|by rewrite <- Hn|].
      eexists q', _, _. rewrite E. split; [done|]. split; [by apply spec_put|].
      constructor; cbn; try done; try lia. intros c Hcc. rewrite Hcon, Hb by lia. done.
  - destruct (Z.lt_ge_cases (f_count f) count).
    + exists q, f, (false, []). unfold RawDequeue. zdecide. cbn. split; [done|]. by split; [constructor|].
    + destruct (RawDequeue_total q (zeros (count * numChannels q)) count (numChannels q) count)
        as (q' & data & E & Hq' & [SL SM SC SS] & HC & Hcon & Hw);
        [done|lia|lia|right; lia| |lia|].
      { split; [done|]. intros c Hcc. rewrite len_zeros; nia. }
      eexists q', _, _. rewrite E. cbn. split; [done|]. rewrite (refines_get q) by (done || lia). split.
      * replace (_ <$> seqZ 0 (numChannels q)) with
          ((λ c, take (Z.to_nat count) (f_bytes f c)) <$> seqZ 0 (f_chans f)); [by apply spec_get|].
        rewrite Hn. apply list_fmap_ext. intros i c Hcc%lookup_seqZ. by rewrite Hb by lia.
      * constructor; cbn; try done; try lia. intros c Hcc. rewrite Hcon, Hb by lia. done.
  - destruct Hl as (Hl0 & Ht1 & Hfit & Hfit2 & Hodd).
    destruct (decide (l ≤ f_size f ∧ t ≤ f_thresh f)) as [[Hls Hts]|Hgrow].
    + exists q, f, (true, []). rewrite Grow_ignored by lia. split; [done|]. by split; [constructor|].
    + destruct (Grow_total q l t) as (q' & E & Hq' & EL & EM & EN & HC & Hcon); [done|..].
      { unfold grow_fits. rewrite <- Ht, <- Hn.
        replace (queueLength q) with (f_size f + 1) by lia. lia. }
      { unfold grown. rewrite orb_true_iff, !Z.ltb_lt. lia. }
      { right. lia. }
      eexists q', _, _. rewrite E. split; [done|].
      split; [apply (spec_grow f l t (Z.max l (f_size f + 1))); lia|].
      constructor; cbn; try done; try lia. intros c Hcc. rewrite Hcon, Hb by lia. done.
  - destruct (Clear_ok q Hq) as (Hq' & [SL SM SC SS] & HC & Hcon).
    eexists (Clear q), _, _. split; [done|]. split; [apply spec_clear|]. constructor; cbn; try done; try lia.
Qed.

(** C1: every sequence of operations a client may perform on a
    [CircularQueue] ends without fault and shows the client exactly what a
    bounded FIFO of bytes per channel would, and the queue it leaves is again
    well formed and holds what the FIFO holds.  Growing by exactly one byte is not
    among them: the code drops it against the contract. *)
Theorem refines_fifo q f os : refines q f → legal_ops f os →
  ∃ q' f' xs, run_ops q os = Ok (q', xs) ∧ spec_ops f os f' xs ∧ refines q' f'.
Proof.
  revert q f. induction os as [|o os IH]; intros q f Hr Hl; cbn.
  - exists q, f, []. split; [done|]. by split; [constructor|].
  - destruct Hl as [Hl Hls].
    destruct (run_op_refines q f o Hr Hl) as (q1 & f1 & x & E1 & Hsp & Hr1).
    destruct (IH q1 f1 Hr1 (Hls _ _ Hsp)) as (q2 & f2 & xs & E2 & Hss & Hr2).
    exists q2, f2, (x :: xs). rewrite E1. cbn. rewrite E2. split; [done|].
    by split; [eapply spec_cons|].
Qed.

(** C36: the zero-copy path. A writer that asks for room for [d] on channel
    [c], writes it through the pointer and enqueues it, followed by a reader
    that asks for [t] bytes, gives the reader a pointer to [t] contiguous
    bytes which are the oldest bytes of the channel, the ring's end and the
    copies across it notwithstanding. *)
Theorem zero_copy_transfer q c d t :
  wf q → 0 ≤ c < numChannels q → len d ≤ Freespace q → len d ≤ maxThreshold q →
  0 ≤ t ≤ Count q + len d → t ≤ maxThreshold q →
  ∃ p buf q1 p' q2,
    GetRawEnqueuePtr q (len d) c = Ok (Some p) ∧
    memwrite (buffer q) p d = Ok buf ∧
    Enqueue (set_buffer q buf) (len d) = Ok q1 ∧
    GetRawDequeuePtr q1 t c = Ok (Some p', q2) ∧
    memread (buffer q2) p' t = Ok (slice (contents q c ++ d) 0 t) ∧
    contents q2 c = contents q c ++ d.
Proof.
  intros Hq Hc Hf Hm Ht Htm. pose proof (len_nonneg d).
  destruct (poke_ok q c d) as (buf & E2 & Hq1 & Hs1 & HC1 & Hcon1 & Hwin); [done..|].
  destruct (Enqueue_ok (set_buffer q buf) (len d)) as (q1 & E3 & Hq2 & Hs2 & HC2 & _ & Hcon2);
    [done|by split|done|].
  destruct Hs2 as [SL SM SC SS]. cbn in SL, SM, SC, SS.
  assert (contents q1 c = contents q c ++ d) as Hcon.
  { rewrite Hcon2, Hcon1 by done. f_equal. cbn. rewrite Hwin, Z.eqb_refl by lia.
    apply slice_all. }
  destruct (GetRawDequeuePtr_ok q1 t c) as (q2 & E4 & Hr & E5 & _); [done|lia..|].
  destruct (same_rings_ok q1 q2 Hr Hq2) as (_ & _ & _ & _ & _ & Hcon3).
  eexists _, buf, q1, _, q2. split; [by apply GetRawEnqueuePtr_ok|].
  split; [done|]. split; [done|]. split; [done|]. rewrite E5, Hcon3, Hcon by lia. done.
Qed.

(** [Grow] keeps the bytes of every channel and the invariant, and never
    shrinks either limit; it makes a queue of the length asked for except when
    what it is asked for exceeds [queueLength], the length plus the sentinel,
    in neither limit. *)
Theorem Grow_keeps_bytes q queueLen maxThresh :
  wf q → grow_fits q queueLen maxThresh → can_copy q (Count q) (numChannels q) →
  ∃ q', Grow q queueLen maxThresh = Ok q' ∧ wf q' ∧ Count q' = Count q ∧
    (∀ c, 0 ≤ c < numChannels q → contents q' c = contents q c) ∧
    QueueLength q' = (if grown q queueLen maxThresh
                      then Z.max queueLen (QueueLength q + 1) else QueueLength q) ∧
    maxThreshold q' = Z.max maxThresh (maxThreshold q).
Proof.
  intros Hq Hf Hcp. destruct (grown q queueLen maxThresh) eqn:G.
  - destruct (Grow_total q queueLen maxThresh) as (q' & E & Hq' & EL & EM & EN & HC & Hcon);
      [done..|].
    exists q'. split_and!; try done. destruct Hf as (_ & _ & Hb & _).
    unfold QueueLength. rewrite EL. rewrite !u32_id by by_wf. by_wf.
  - unfold grown in G. apply orb_false_iff in G. rewrite !Z.ltb_ge in G.
    exists q. rewrite Grow_ignored by tauto. split_and!; try done. lia.
Qed.

(** A request for one byte more than [QueueLength] is dropped: the guard
    compares it with the member that already counts the sentinel. *)
Lemma Grow_by_one_ignored q :
  wf q → Grow q (QueueLength q + 1) (maxThreshold q) = Ok q.
Proof.
  intros Hq. apply Grow_ignored; [|lia]. unfold QueueLength. rewrite u32_id by by_wf. lia.
Qed.

(** ** The theorems at concrete queues *)
Definition example_queue : queue := make 4 2 2.
Definition example_fifo : fifo := mk_fifo 4 2 2 0 (λ _, []).
Definition example_ops : list op :=
  [Put [1; 2; 3; 11; 12; 13] 3 3; Get 2; Put [4; 5; 6; 14; 15; 16] 3 3; Put [9; 9] 1 1;
   GrowTo 9 3; Put [7; 17] 1 1; Get 5; ClearAll; Get 1].

Example example_ops_result :
  snd <$> (match run_ops example_queue example_ops with Ok r => Some r | Err _ => None end) =
  Some [(true, []); (true, [[1; 2]; [11; 12]]); (true, []); (false, []); (true, []); (true, []);
   (true, [[3; 4; 5; 6; 7]; [13; 14; 15; 16; 17]]); (true, []); (false, [])].
Proof. by vm_compute. Qed.

Lemma example_wf : wf example_queue.
Proof. by constructor. Qed.
Lemma example_refines : refines example_queue example_fifo.
Proof. constructor; done || apply example_wf. Qed.

Lemma example_legal : legal_ops example_fifo example_ops.
Proof.
  unfold example_ops, example_fifo.
  repeat (cbn [legal_ops]; split;
    [repeat first [apply holds_rows_intro | split]; first [by vm_compute | cbn; lia]
    |intros ? ? Hs; inversion Hs; clear Hs; subst; cbn [f_size f_thresh f_chans f_count f_bytes] in *]);
    exact I.
Qed.
Lemma refines_fifo_witness :
  ∃ q' f' xs, run_ops example_queue example_ops = Ok (q', xs) ∧
    spec_ops example_fifo example_ops f' xs ∧ refines q' f'.
Proof. apply (refines_fifo example_queue example_fifo example_ops example_refines example_legal). Defined.

(** Bytes that cross the end of the ring. *)
Definition wrapped_queue : queue := mk 5 2 1 7 4 4 (zeros 7).
Lemma wrapped_wf : wf wrapped_queue.
Proof. by constructor. Qed.

Lemma zero_copy_transfer_witness :
  ∃ p buf q1 p' q2,
    GetRawEnqueuePtr wrapped_queue (len [8; 9]) 0 = Ok (Some p) ∧
    memwrite (buffer wrapped_queue) p [8; 9] = Ok buf ∧
    Enqueue (set_buffer wrapped_queue buf) (len [8; 9]) = Ok q1 ∧
    GetRawDequeuePtr q1 2 0 = Ok (Some p', q2) ∧
    memread (buffer q2) p' 2 = Ok (slice (contents wrapped_queue 0 ++ [8; 9]) 0 2) ∧
    contents q2 0 = contents wrapped_queue 0 ++ [8; 9].
Proof.
  apply (zero_copy_transfer wrapped_queue 0 [8; 9] 2 wrapped_wf); vm_compute; intuition congruence.
Defined.

Lemma Grow_keeps_bytes_witness :
  ∃ q', Grow example_queue 9 3 = Ok q' ∧ wf q' ∧ Count q' = Count example_queue ∧
    (∀ c, 0 ≤ c < numChannels example_queue → contents q' c = contents example_queue c) ∧
    QueueLength q' = (if grown example_queue 9 3
                      then Z.max 9 (QueueLength example_queue + 1)
                      else QueueLength example_queue) ∧
    maxThreshold q' = Z.max 3 (maxThreshold example_queue).
Proof.
  apply (Grow_keeps_bytes example_queue 9 3 example_wf).
  - vm_compute. intuition congruence.
  - right. vm_compute. intuition congruence.
Defined.

End CQ.
