(* ===== verification/Packet.v ===== *)
(** [libraries/CPN/PacketHeader] and [PacketDecoder]: the 64-byte headers that
    remote queues exchange, and the decoder that finds them in a byte stream.

    A header is the list of its 64 bytes; a field is its little-endian image at
    the offset that the struct of [PacketHeader.h] gives it on the LP64
    targets, so that the members of a union share their bytes. *)
From S2P Require Import Prelude.

Module Packet.

(** ** Little-endian images *)
Fixpoint le (n : nat) (v : Z) : list Z :=
  match n with O => [] | S k => v `mod` 256 :: le k (v / 256) end.
Fixpoint unle (l : list Z) : Z :=
  match l with [] => 0 | b :: l => b + 256 * unle l end.

Definition PACKET_SYNCWORD : Z := 0xF1F0C0DE.
Definition PACKET_HEADERLENGTH : Z := 64.

Inductive PacketType :=
  | PACKET_ENQUEUE | PACKET_DEQUEUE | PACKET_READBLOCK | PACKET_WRITEBLOCK
  | PACKET_ENDOFWRITE | PACKET_ENDOFREAD | PACKET_GROW | PACKET_D4RTAG
  | PACKET_ID_READER | PACKET_ID_WRITER.
#[global] Instance PacketType_eq_dec : EqDecision PacketType.
Proof. solve_decision. Defined.

Definition type_code (t : PacketType) : Z :=
  match t with
  | PACKET_ENQUEUE => 0 | PACKET_DEQUEUE => 1 | PACKET_READBLOCK => 2
  | PACKET_WRITEBLOCK => 3 | PACKET_ENDOFWRITE => 4 | PACKET_ENDOFREAD => 5
  | PACKET_GROW => 6 | PACKET_D4RTAG => 7 | PACKET_ID_READER => 8
  | PACKET_ID_WRITER => 9
  end.
(** The cases of the [switch] of [FirePacket]. *)
Definition type_of (code : Z) : option PacketType :=
  if code =? 0 then Some PACKET_ENQUEUE else if code =? 1 then Some PACKET_DEQUEUE
  else if code =? 2 then Some PACKET_READBLOCK else if code =? 3 then Some PACKET_WRITEBLOCK
  else if code =? 4 then Some PACKET_ENDOFWRITE else if code =? 5 then Some PACKET_ENDOFREAD
  else if code =? 6 then Some PACKET_GROW else if code =? 7 then Some PACKET_D4RTAG
  else if code =? 8 then Some PACKET_ID_READER else if code =? 9 then Some PACKET_ID_WRITER
  else None.

(** ** The header *)
Definition PacketHeader := list Z.

Inductive field :=
  | syncWord | dataLength | dataType
  | requested | maxThresh | count      (** one union *)
  | srckey | dstkey                    (** a union with the two clocks *)
  | readclock | writeclock
  | queueSize.

Definition offset (f : field) : Z :=
  match f with
  | syncWord => 0 | dataLength => 4 | dataType => 8
  | requested | maxThresh | count => 12
  | srckey | readclock => 16
  | dstkey | writeclock => 24
  | queueSize => 32
  end.
Definition width (f : field) : nat :=
  match f with srckey | dstkey | readclock | writeclock => 8 | _ => 4 end%nat.

Definition get (f : field) (p : PacketHeader) : Z :=
  unle (slice p (offset f) (Z.of_nat (width f))).
Definition set (f : field) (v : Z) (p : PacketHeader) : PacketHeader :=
  take (Z.to_nat (offset f)) p ++ le (width f) v ++
  drop (Z.to_nat (offset f) + width f) p.

Definition ValidPacket (p : PacketHeader) : bool := get syncWord p =? PACKET_SYNCWORD.

Definition InitPacket (datalen : Z) (type : PacketType) : PacketHeader :=
  set dataType (type_code type) (set dataLength datalen
    (set syncWord PACKET_SYNCWORD (zeros PACKET_HEADERLENGTH))).

(** The accessors of class [Packet]. *)
Definition DataLength (p : PacketHeader) : Z := get dataLength p.
Definition Type_ (p : PacketHeader) : option PacketType := type_of (get dataType p).
Definition QueueSize (p : PacketHeader) : Z := get queueSize p.
Definition SourceKey (p : PacketHeader) : Z := get srckey p.
Definition DestinationKey (p : PacketHeader) : Z := get dstkey p.
Definition Requested (p : PacketHeader) : Z := get requested p.
Definition MaxThreshold (p : PacketHeader) : Z := get maxThresh p.
Definition Count (p : PacketHeader) : Z := get count p.
Definition ReadClock (p : PacketHeader) : Z := get readclock p.
Definition WriteClock (p : PacketHeader) : Z := get writeclock p.

(** [PacketHandler::FirePacket]: the handler that is called, with the packet. *)
Definition FirePacket (p : PacketHeader) : res (PacketType * PacketHeader) :=
  assert (ValidPacket p) ;;
  match Type_ p with
  | Some t => Ok (t, p)
  | None => Err AssertFailed
  end.

(** ** The decoder *)
Record decoder := mk_decoder { header : PacketHeader; numbytes : Z }.
Definition new_decoder : decoder := mk_decoder (zeros PACKET_HEADERLENGTH) 0.
Definition Reset (d : decoder) : decoder := mk_decoder (header d) 0.

(** The pointer, as an offset into the header, and the amount. *)
Definition GetDecoderBytes (d : decoder) : res (Z * Z) :=
  let amount := u32 (PACKET_HEADERLENGTH - numbytes d) in
  assert (negb (amount =? 0)) ;;
  Ok (numbytes d, amount).

(** The packets fired; the state is the one the call leaves, also when a
    handler's dispatch throws. *)
Definition ReleaseDecoderBytes (amount : Z) : M decoder (list (PacketType * PacketHeader)) :=
  d ← mget;
  massert (u32 (numbytes d + amount) <=? PACKET_HEADERLENGTH) ;;
  let n := u32 (numbytes d + amount) in
  mput (mk_decoder (header d) n) ;;
  if n =? PACKET_HEADERLENGTH then
    if ValidPacket (header d) then
      ev ← mlift (FirePacket (header d));
      mput (mk_decoder (header d) 0) ;;
      mret [ev]
    else
      let n := u32 (n - 1) in
      mput (mk_decoder (slice (header d) 1 n ++ drop (Z.to_nat n) (header d)) n) ;;
      mret []
  else mret [].

(** A client's read of at most [size] bytes of [stream] into the decoder, the
    loop body of the users of a decoder. *)
Definition read_step (d : decoder) (stream : list Z) (size : Z)
    : res (decoder * list Z * list (PacketType * PacketHeader)) :=
  '(ptr, amount) ← GetDecoderBytes d;
  let n := Z.min size (Z.min amount (len stream)) in
  h ← memwrite (header d) ptr (slice stream 0 n);
  match ReleaseDecoderBytes n (mk_decoder h (numbytes d)) with
  | (Ok evs, d') => Ok (d', drop (Z.to_nat n) stream, evs)
  | (Err e, _) => Err e
  end.

(** Reads of the given sizes, one after the other. *)
Fixpoint read_all (d : decoder) (stream : list Z) (sizes : list Z)
    : res (decoder * list Z * list (PacketType * PacketHeader)) :=
  match sizes with
  | [] => Ok (d, stream, [])
  | n :: sizes =>
    '(d1, s1, e1) ← read_step d stream n;
    '(d2, s2, e2) ← read_all d1 s1 sizes;
    Ok (d2, s2, e1 ++ e2)
  end.

(** ** Fields *)
Lemma len_le n v : len (le n v) = Z.of_nat n.
Proof. revert v. induction n as [|n IH]; intros v; cbn [le]; [done|].
  unfold len in *. cbn [length]. specialize (IH (v / 256)). lia. Qed.

Lemma unle_le n v : unle (le n v) = v `mod` 256 ^ Z.of_nat n.
Proof.
  revert v. induction n as [|n IH]; intros v; cbn [le unle].
  { by rewrite Z.mod_1_r. }
  rewrite IH, Nat2Z.inj_succ, Z.pow_succ_r by lia.
  by rewrite Z.rem_mul_r by lia.
Qed.

Lemma set_spec f v p : len p = 64 →
  len (set f v p) = 64 ∧
  ∀ i, 0 ≤ i → bget (set f v p) i =
    if (offset f <=? i) && (i <? offset f + Z.of_nat (width f))
    then bget (le (width f) v) (i - offset f) else bget p i.
Proof.
  intros Hp. destruct (memwrite_ok p (offset f) (le (width f) v)) as (m & E & L & G).
  { by destruct f. }
  { rewrite len_le, Hp. by destruct f. }
  assert (set f v p = m) as ->.
  { unfold memwrite in E. destruct (in_bounds _ _ _); [|done]. injection E as <-.
    unfold set. do 3 f_equal. rewrite len_le. destruct f; cbn; lia. }
  rewrite len_le in G. split; [lia|done].
Qed.

Definition same_slot (f g : field) : bool := offset f =? offset g.

Lemma slots_apart f g : same_slot f g = false →
  offset f + Z.of_nat (width f) ≤ offset g ∨ offset g + Z.of_nat (width g) ≤ offset f.
Proof. destruct f, g; intros E; first [discriminate E|cbn; lia]. Qed.
Lemma slots_same f g : same_slot f g = true → offset f = offset g ∧ width f = width g.
Proof. by destruct f, g. Qed.

Lemma get_set_spec f g v p : len p = 64 →
  get f (set g v p) = if same_slot f g then v `mod` 256 ^ Z.of_nat (width f) else get f p.
Proof.
  intros Hp. destruct (set_spec g v p Hp) as [L G]. unfold get.
  assert (0 ≤ offset f ∧ offset f + Z.of_nat (width f) ≤ 64) by (by destruct f).
  destruct (same_slot f g) eqn:S.
  - apply slots_same in S as [So Sw]. rewrite So, Sw, <- unle_le. f_equal.
    rewrite So, Sw in *. apply bytes_ext; rewrite len_slice by lia; [by rewrite len_le|].
    intros i Hi. rewrite bget_slice, G by lia. zdecide. f_equal. lia.
  - apply slots_apart in S. f_equal.
    apply bytes_ext; rewrite !len_slice by lia; [done|].
    intros i Hi. rewrite !bget_slice, G by lia. zcases; cbn; done || lia.
Qed.

(** A store to a member of the header is read back at its width through
    every member of its union, and through no other; the header keeps its 64
    bytes. *)
Theorem fields_apart f g v p : len p = 64 →
  len (set g v p) = 64 ∧
  get f (set g v p) = (if same_slot f g then v `mod` 256 ^ Z.of_nat (width f) else get f p).
Proof. intros Hp. split; [apply set_spec, Hp|by apply get_set_spec]. Qed.

Lemma len_Init n t : len (InitPacket n t) = 64.
Proof. unfold InitPacket. by do 3 apply set_spec. Qed.

Lemma type_of_code t : type_of (type_code t) = Some t.
Proof. by destruct t. Qed.

(** A packet made by [Init] is valid, has the type and the length it was
    made with, zero in every other member, and reaches the handler of its
    type, whatever is stored in its members afterwards. *)
Theorem Init_fires n t f v :
  0 ≤ n < 4294967296 → offset f = 12 ∨ offset f = 16 ∨ offset f = 24 ∨ offset f = 32 →
  let p := InitPacket n t in
  FirePacket (set f v p) = Ok (t, set f v p) ∧ DataLength (set f v p) = n ∧
  get f p = 0.
Proof.
  intros Hn Hf. cbn zeta.
  assert (∀ g w k, len k = 64 → offset g = 12 ∨ offset g = 16 ∨ offset g = 24 ∨ offset g = 32 →
    get syncWord (set g w k) = get syncWord k ∧ get dataType (set g w k) = get dataType k ∧
    get dataLength (set g w k) = get dataLength k) as K.
  { intros g w k Hk Hg. rewrite !get_set_spec by done. by destruct g; cbn in *; try lia. }
  assert (get syncWord (InitPacket n t) = PACKET_SYNCWORD ∧
          get dataType (InitPacket n t) = type_code t ∧
          get dataLength (InitPacket n t) = n ∧ get f (InitPacket n t) = 0) as (S & T & D & F).
  { unfold InitPacket. set (z := zeros PACKET_HEADERLENGTH).
    assert (len z = 64) as Hz by done.
    pose proof (proj1 (set_spec syncWord PACKET_SYNCWORD z Hz)) as H1.
    pose proof (proj1 (set_spec dataLength n _ H1)) as H2.
    rewrite !(get_set_spec _ dataType), !(get_set_spec _ dataLength),
      !(get_set_spec _ syncWord) by done.
    split_and!; [done|by destruct t|by apply Z.mod_small|].
    by destruct f; cbn in Hf; try lia. }
  destruct (K f v _ (len_Init n t) Hf) as (KS & KT & KD).
  unfold FirePacket, ValidPacket, Type_, DataLength. rewrite KS, KT, KD, S, T, D, type_of_code.
  by cbn.
Qed.

(** ** The decoder on a stream *)

(** [g] is no packet and holds none: no header starts in it. *)
Fixpoint garbage (g rest : list Z) : bool :=
  match g with
  | [] => true
  | _ :: g' => negb (ValidPacket (g ++ rest)) && garbage g' rest
  end.

Definition good (p : PacketHeader) : bool :=
  (len p =? 64) && ValidPacket p && bool_decide (is_Some (Type_ p)).

(** What the decoder still has to see is garbage, then the packets [rest]. *)
Record decoding (d : decoder) (stream : list Z) (rest : list PacketHeader) : Prop := {
  d_len : len (header d) = 64;
  d_num : 0 ≤ numbytes d < 64;
  d_rest : Forall (λ p, good p = true) rest;
  d_pending : ∃ g, take (Z.to_nat (numbytes d)) (header d) ++ stream = g ++ concat rest ∧
                   garbage g (concat rest) = true }.

Definition fired (evs : list (PacketType * PacketHeader)) (ps : list PacketHeader) : Prop :=
  Forall2 (λ ev p, ev.2 = p ∧ Type_ p = Some ev.1) evs ps.

Lemma good_spec p : good p = true →
  len p = 64 ∧ ValidPacket p = true ∧ ∃ t, Type_ p = Some t.
Proof.
  unfold good. rewrite !andb_true_iff, Z.eqb_eq, bool_decide_eq_true. intros [[? ?] [t ?]].
  split_and!; [done..|]. by exists t.
Qed.

Lemma ValidPacket_prefix h s : 4 ≤ len h → ValidPacket (h ++ s) = ValidPacket h.
Proof.
  intros Hl. unfold ValidPacket, get. do 2 f_equal. cbn. unfold slice.
  rewrite !drop_0, take_app_le by (unfold len in Hl; lia). done.
Qed.

(** A read that fills the header: its packet is fired, or its first byte, which
    is garbage, is dropped. *)
Lemma full_header h s rest g :
  len h = 64 → h ++ s = g ++ concat rest → garbage g (concat rest) = true →
  Forall (λ p, good p = true) rest →
  ∃ d' evs ps rest', rest = ps ++ rest' ∧ fired evs ps ∧ decoding d' s rest' ∧
    (if ValidPacket h then FirePacket h = Ok (hd (PACKET_ENQUEUE, h) evs) ∧ length evs = 1%nat ∧
                           d' = mk_decoder h 0
     else evs = [] ∧ d' = mk_decoder (slice h 1 63 ++ drop 63 h) 63).
Proof.
  intros Hh Hp Hg Hr. destruct g as [|b g].
  - destruct rest as [|p rest]; cbn in Hp.
    { apply (f_equal len) in Hp. rewrite len_app, Hh in Hp. pose proof (len_nonneg s).
      change (len (@nil Z)) with 0 in Hp. lia. }
    inversion Hr as [|? ? Hgp Hr']; subst. destruct (good_spec p Hgp) as (Lp & Vp & t & Tp).
    apply app_inj_1 in Hp as [-> ->]; [|unfold len in *; lia].
    exists (mk_decoder p 0), [(t, p)], [p], rest. split; [done|]. split.
    { by repeat constructor. }
    split; [|rewrite Vp; unfold FirePacket; by rewrite Vp, Tp].
    constructor; cbn; [done|lia|done|]. by exists [].
  - cbn in Hg. apply andb_true_iff in Hg as [V Hg].
    change (b :: g ++ concat rest) with ((b :: g) ++ concat rest) in V.
    rewrite <- Hp, ValidPacket_prefix in V by lia. apply negb_true_iff in V.
    exists (mk_decoder (slice h 1 63 ++ drop 63 h) 63), [], [], rest. split; [done|].
    split; [constructor|]. rewrite V. split; [|done].
    destruct h as [|b' h]; [done|]. cbn in Hp. injection Hp as -> Hp.
    assert (length h = 63%nat) as Lh by (unfold len in Hh; cbn in Hh; lia).
    assert (slice (b :: h) 1 63 = h) as ->.
    { unfold slice. change (drop (Z.to_nat 1) (b :: h)) with (drop 0 h).
      rewrite drop_0. apply take_ge. change (Z.to_nat 63) with 63%nat. lia. }
    constructor; cbn -[take drop].
    + unfold len. rewrite length_app, length_drop. cbn. lia.
    + lia.
    + done.
    + exists g. split; [|done]. change (Z.to_nat 63) with 63%nat.
      rewrite take_app_le, take_ge by lia. done.
Qed.

Lemma read_step_ok d stream size rest :
  decoding d stream rest → 0 < size →
  ∃ d' stream' evs ps rest', read_step d stream size = Ok (d', stream', evs) ∧
    rest = ps ++ rest' ∧ fired evs ps ∧ decoding d' stream' rest' ∧
    (len stream' < len stream ∨ stream' = []).
Proof.
  intros [Hl Hn Hr (g & Hp & Hg)] Hs. pose proof (len_nonneg stream).
  set (n := Z.min size (Z.min (64 - numbytes d) (len stream))).
  assert (0 ≤ n ≤ 64 - numbytes d ∧ n ≤ len stream ∧ (0 < len stream → 0 < n)) as Hb by lia.
  assert (len (slice stream 0 n) = n) as Ln by (apply len_slice; lia).
  set (h := take (Z.to_nat (numbytes d)) (header d) ++ slice stream 0 n ++
            drop (Z.to_nat (numbytes d + n)) (header d)).
  assert (len h = 64) as Lh by (unfold h; rewrite !len_app, Ln, len_take, len_drop; lia).
  assert (take (Z.to_nat (numbytes d + n)) h ++ drop (Z.to_nat n) stream = g ++ concat rest)
    as Hp'.
  { rewrite <- Hp. unfold h. rewrite app_assoc, take_app_length'.
    - rewrite <- app_assoc. f_equal. apply (take_drop (Z.to_nat n)).
    - apply Nat2Z.inj. fold (len (take (Z.to_nat (numbytes d)) (header d) ++ slice stream 0 n)).
      rewrite len_app, len_take, Ln; lia. }
  assert (read_step d stream size =
    match ReleaseDecoderBytes n (mk_decoder h (numbytes d)) with
    | (Ok evs, d') => Ok (d', drop (Z.to_nat n) stream, evs)
    | (Err e, _) => Err e
    end) as ->.
  { unfold read_step, GetDecoderBytes. change PACKET_HEADERLENGTH with 64. words. zdecide.
    cbn. fold n. unfold memwrite. rewrite Ln.
    rewrite (proj2 (in_bounds_spec _ _ _)) by lia. done. }
  assert (len (drop (Z.to_nat n) stream) < len stream ∨ drop (Z.to_nat n) stream = []) as Hsh.
  { destruct stream; [by right; rewrite drop_nil|left].
    rewrite len_drop by lia. unfold len in *. cbn in *. lia. }
  unfold ReleaseDecoderBytes. change PACKET_HEADERLENGTH with 64. mred. cbn [numbytes header].
  rewrite (u32_id (numbytes d + n)) by lia.
  replace (numbytes d + n <=? 64) with true by (symmetry; apply Z.leb_le; lia).
  destruct (Z.eqb_spec (numbytes d + n) 64) as [E64|].
  - rewrite E64, take_ge in Hp' by (unfold len in Lh; lia).
    destruct (full_header h _ rest g Lh Hp' Hg Hr)
      as (d' & evs & ps & rest' & E & F & D & B).
    exists d', (drop (Z.to_nat n) stream), evs, ps, rest'. split; [|done].
    destruct (ValidPacket h).
    + destruct B as (B1 & B2 & ->). destruct evs as [|ev [|]]; try done. cbn in B1.
      by rewrite B1.
    + destruct B as [-> ->]. rewrite E64, (u32_id (64 - 1)) by lia. done.
  - exists (mk_decoder h (numbytes d + n)), (drop (Z.to_nat n) stream), [], [], rest.
    split; [done|]. split; [done|]. split; [constructor|]. split; [|done].
    constructor; cbn; [done|lia|done|]. by exists g.
Qed.

Lemma read_all_ok sizes d stream rest :
  decoding d stream rest → Forall (λ n, 0 < n) sizes →
  ∃ d' stream' evs ps rest', read_all d stream sizes = Ok (d', stream', evs) ∧
    rest = ps ++ rest' ∧ fired evs ps ∧ decoding d' stream' rest' ∧
    (len stream ≤ len sizes → stream' = []).
Proof.
  intros Hd Hs. revert d stream rest Hd. induction Hs as [|n sizes Hn Hs IH];
    intros d stream rest Hd; cbn [read_all].
  - exists d, stream, [], [], rest. split; [done|]. split; [done|]. split; [constructor|].
    split; [done|]. intros Hl. destruct stream; [done|]. unfold len in Hl. cbn in Hl. lia.
  - destruct (read_step_ok d stream n rest Hd Hn)
      as (d1 & s1 & e1 & ps1 & r1 & E1 & -> & F1 & Hd1 & Hlen).
    destruct (IH d1 s1 r1 Hd1) as (d2 & s2 & e2 & ps2 & r2 & E2 & -> & F2 & Hd2 & Hl2).
    exists d2, s2, (e1 ++ e2), (ps1 ++ ps2), r2. rewrite E1. cbn. rewrite E2. cbn.
    split; [done|]. split; [by rewrite app_assoc|]. split; [by apply Forall2_app|].
    split; [done|]. intros Hl. apply Hl2.
    destruct Hlen as [?| ->]; unfold len in *; cbn in *; lia.
Qed.

(** C37: however a stream is cut into reads, a decoder fed garbage in which no
    header starts, followed by valid packets, fires exactly those packets, in
    order and each at the handler of its type, and ends empty once the whole
    stream has been read. *)
Theorem decoder_resynchronises g ps sizes :
  Forall (λ p, good p = true) ps → garbage g (concat ps) = true →
  Forall (λ n, 0 < n) sizes → len g + 64 * len ps ≤ len sizes →
  ∃ d' evs, read_all new_decoder (g ++ concat ps) sizes = Ok (d', [], evs) ∧ fired evs ps ∧
    numbytes d' < 64.
Proof.
  intros Hps Hg Hs Hl.
  assert (decoding new_decoder (g ++ concat ps) ps) as Hd.
  { constructor; [done|done|done|]. by exists g. }
  destruct (read_all_ok sizes _ _ _ Hd Hs) as (d' & s' & evs & ps1 & r & E & -> & F & Hd' & Hend).
  assert (len (concat (ps1 ++ r)) = 64 * len (ps1 ++ r)) as Hc.
  { clear -Hps. induction Hps as [|p ps Hp _ IH]; [done|]. cbn [concat].
    rewrite len_app, IH. destruct (good_spec p Hp) as [-> _]. unfold len. cbn. lia. }
  assert (s' = []) as -> by (apply Hend; rewrite len_app; lia).
  exists d', evs. split; [done|]. destruct Hd' as [Hl' Hn' Hr' (g' & Hp' & _)].
  split; [|lia]. destruct r as [|p r]; [by rewrite app_nil_r|].
  exfalso. apply (f_equal len) in Hp'. cbn [concat] in Hp'.
  inversion Hr' as [|? ? Hgp]; subst. destruct (good_spec p Hgp) as [Lp _].
  rewrite !len_app, len_take, Lp in Hp' by lia.
  pose proof (len_nonneg g'). pose proof (len_nonneg (concat r)).
  change (len (@nil Z)) with 0 in Hp'. lia.
Qed.

Lemma fields_apart_witness :
  len (set count 70000 (zeros 64)) = 64 ∧
  get maxThresh (set count 70000 (zeros 64)) =
    (if same_slot maxThresh count then 70000 `mod` 256 ^ Z.of_nat (width maxThresh)
     else get maxThresh (zeros 64)).
Proof. apply (fields_apart maxThresh count 70000 (zeros 64)). reflexivity. Defined.

Lemma Init_fires_witness :
  let p := InitPacket 12 PACKET_ENQUEUE in
  FirePacket (set count 5 p) = Ok (PACKET_ENQUEUE, set count 5 p) ∧
  DataLength (set count 5 p) = 12 ∧ get count p = 0.
Proof. apply (Init_fires 12 PACKET_ENQUEUE count 5); cbn; lia. Defined.

Definition example_packets : list PacketHeader :=
  [set count 5 (InitPacket 10 PACKET_ENQUEUE); set queueSize 9 (InitPacket 0 PACKET_GROW)].

Lemma decoder_resynchronises_witness :
  ∃ d' evs, read_all new_decoder ([1; 0xDE; 3] ++ concat example_packets) (replicate 131 40)
              = Ok (d', [], evs) ∧
    fired evs example_packets ∧ numbytes d' < 64.
Proof.
  apply (decoder_resynchronises [1; 0xDE; 3] example_packets (replicate 131 40)).
  - by repeat constructor.
  - reflexivity.
  - by apply Forall_replicate.
  - by vm_compute.
Defined.

End Packet.
