(* ===== verification/PacketEncoder.v ===== *)
(** [libraries/CPN/PacketEncoder]: packets and the bytes of enqueued data on
    their way to the other end of a remote queue, buffered in a
    [CircularQueue] that grows when it has no room.

    An [iovec] is the list of the bytes it refers to. *)
From S2P Require Import Prelude.
From S2P Require Import QueueInterface.
From S2P Require Import CircularQueue.
From S2P Require Import Packet.

Module PE.

(** ** [BufferedPacketEncoder] *)

(** Its one member, [cbuff(4092, 4092, 1)]. *)
Definition new_encoder : CQ.queue := CQ.make 4092 4092 1.
Definition BytesReady (cbuff : CQ.queue) : bool := 0 <? CQ.Count cbuff.
Definition NumBytes (cbuff : CQ.queue) : Z := CQ.Count cbuff.
Definition Reset (cbuff : CQ.queue) : CQ.queue := CQ.Clear cbuff.

(** The pointer, the [amount] that the call stores, and the buffer. *)
Definition GetEncodedBytes (cbuff : CQ.queue) (amount : Z)
    : res (option Z * Z * CQ.queue) :=
  let amount := if amount =? 0 then CQ.maxThreshold cbuff else amount in
  let amount := if CQ.Count cbuff <? amount then CQ.Count cbuff else amount in
  cbuff ← (if CQ.maxThreshold cbuff <? amount then CQ.Grow cbuff 0 amount else Ok cbuff);
  '(p, cbuff) ← CQ.GetRawDequeuePtr cbuff amount 0;
  Ok (p, amount, cbuff).

Definition ReleaseEncodedBytes (cbuff : CQ.queue) (amount : Z) : res CQ.queue :=
  CQ.Dequeue cbuff amount.

(** The [while] of [WriteBytes] for one element of the vector; [fuel] bounds
    the calls of [RawEnqueue]. *)
Fixpoint write_iov (fuel : nat) (cbuff : CQ.queue) (base : list Z) : res CQ.queue :=
  match fuel with
  | O => Err Diverges
  | S k =>
    '(ok, cbuff) ← CQ.RawEnqueue cbuff base (u32 (len base)) 1 0;
    match ok with
    | true => Ok cbuff
    | false =>
      cbuff ← CQ.Grow cbuff (u32 (CQ.Count cbuff + len base)) (u32 (len base));
      write_iov k cbuff base
    end
  end.

Fixpoint WriteBytes (fuel : nat) (cbuff : CQ.queue) (iov : list (list Z)) : res CQ.queue :=
  match iov with
  | [] => Ok cbuff
  | base :: iov => cbuff ← write_iov fuel cbuff base; WriteBytes fuel cbuff iov
  end.

(** ** [PacketEncoder] *)
Definition SendPacket (fuel : nat) (cbuff : CQ.queue) (p : Packet.PacketHeader) : res CQ.queue :=
  WriteBytes fuel cbuff [p].

(** The overload with data; [None] is a null [data]. *)
Definition SendPacket_data (fuel : nat) (cbuff : CQ.queue) (p : Packet.PacketHeader)
    (data : option (list Z)) : res CQ.queue :=
  match data with
  | None => Err AssertFailed
  | Some data =>
    bytes ← memread data 0 (Packet.DataLength p);
    WriteBytes fuel cbuff [p; bytes]
  end.

Section SendEnqueue.
Context {Q : Type} `{DequeueSide Q}.

(** The loop that takes a pointer for each channel. *)
Fixpoint get_pointers (n : nat) (i : Z) (count : Z) (q : Q) : res (list Z * Q) :=
  match n with
  | O => Ok ([], q)
  | S k =>
    '(p, q) ← ds_ptr q count i;
    match p with
    | None => Err AssertFailed
    | Some p => '(ps, q) ← get_pointers k (i + 1) count q; Ok (p :: ps, q)
    end
  end.

Fixpoint load_all (q : Q) (ps : list Z) (count : Z) : res (list (list Z)) :=
  match ps with
  | [] => Ok []
  | p :: ps => b ← ds_load q p count; bs ← load_all q ps count; Ok (b :: bs)
  end.

Definition SendEnqueue (fuel : nat) (cbuff : CQ.queue) (p : Packet.PacketHeader) (q : Q)
    : res (CQ.queue * Q) :=
  assert (bool_decide (Packet.Type_ p = Some Packet.PACKET_ENQUEUE)) ;;
  '(ps, q) ← get_pointers (Z.to_nat (ds_chans q)) 0 (Packet.Count p) q;
  iovs ← load_all q ps (Packet.Count p);
  cbuff ← WriteBytes fuel cbuff (p :: iovs);
  q ← ds_dequeue q (Packet.Count p);
  Ok (cbuff, q).
End SendEnqueue.

(** ** The encoder's buffer *)
Record enc_wf (q : CQ.queue) : Prop := {
  e_wf : CQ.wf q;
  e_one : CQ.numChannels q = 1;
  e_thresh : 0 < CQ.maxThreshold q }.

(** Whether a write of these lengths meets, with [c] bytes held by a queue of
    the given members, the case in which the buffer is full and [Grow] does
    nothing. *)
Fixpoint stalls (c ql mt : Z) (lens : list Z) : bool :=
  match lens with
  | [] => false
  | n :: lens =>
    if n <=? ql - 1 - c then stalls (c + n) ql mt lens
    else if (c + n <=? ql) && (n <=? mt) then true
    else stalls (c + n) (Z.max (c + n) ql + 1) (Z.max n mt) lens
  end.

Definition room (q : CQ.queue) (lens : list Z) : Prop :=
  CQ.queueLength q + CQ.maxThreshold q + foldr (λ n s, 2 * n + 1 + s) 0 lens < 2147483648.

Lemma fold_room_nonneg (iov : list (list Z)) :
  0 ≤ foldr (λ n s, 2 * n + 1 + s) 0 (len <$> iov).
Proof. induction iov as [|d iov IH]; cbn; [lia|]. pose proof (len_nonneg d). lia. Qed.

Lemma write_room q d k : enc_wf q → len d ≤ CQ.Freespace q → len d < 4294967296 →
  ∃ q', write_iov (S k) q d = Ok q' ∧ enc_wf q' ∧ CQ.same_shape q q' ∧
    CQ.Count q' = CQ.Count q + len d ∧ CQ.contents q' 0 = CQ.contents q 0 ++ d.
Proof.
  intros [Hq H1 Ht] Hf Hl. pose proof (len_nonneg d).
  destruct (CQ.RawEnqueue_total q d (len d) 1 0) as (q' & E & Hq' & Hs & HC & Hcon);
    [done|lia|lia|right; lia|apply CQ.holds_rows_intro; lia|].
  exists q'. cbn [write_iov]. rewrite (u32_id (len d)) by lia. rewrite E. cbn.
  pose proof (CQ.ss_max _ _ Hs). pose proof (CQ.ss_chan _ _ Hs).
  split_and!; [done|split; [done|lia|lia]|done|done|].
  rewrite Hcon by lia. by rewrite slice_all.
Qed.

Lemma write_full q d k : enc_wf q → CQ.Freespace q < len d → len d < 4294967296 →
  write_iov (S k) q d =
    (q' ← CQ.Grow q (u32 (CQ.Count q + len d)) (len d); write_iov k q' d).
Proof.
  intros [Hq H1 Ht] Hf Hl. pose proof (len_nonneg d). cbn [write_iov].
  rewrite CQ.RawEnqueue_full by (rewrite ?u32_id; lia). cbn.
  by rewrite (u32_id (len d)) by lia.
Qed.

Lemma write_iov_ok q d k : enc_wf q → room q [len d] →
  stalls (CQ.Count q) (CQ.queueLength q) (CQ.maxThreshold q) [len d] = false →
  ∃ q', write_iov (S (S k)) q d = Ok q' ∧ enc_wf q' ∧
    CQ.Count q' = CQ.Count q + len d ∧ CQ.contents q' 0 = CQ.contents q 0 ++ d ∧
    (if len d <=? CQ.queueLength q - 1 - CQ.Count q then CQ.same_shape q q' else
     CQ.queueLength q' = Z.max (CQ.Count q + len d) (CQ.queueLength q) + 1 ∧
     CQ.maxThreshold q' = Z.max (len d) (CQ.maxThreshold q)).
Proof.
  intros He Hr Hst. unfold room in Hr. cbn in Hr, Hst. pose proof (len_nonneg d).
  destruct He as [Hq H1 Ht]. pose proof (CQ.freespace_spec q Hq).
  destruct (CQ.count_spec q Hq) as [_ HC].
  destruct (Z.leb_spec (len d) (CQ.queueLength q - 1 - CQ.Count q)).
  - destruct (write_room q d (S k)) as (q' & E & He' & Hs & HC' & Hcon); [by split|lia|lia|].
    by exists q'.
  - rewrite write_full by (by split || lia). rewrite u32_id by lia.
    destruct (CQ.Grow_total q (CQ.Count q + len d) (len d))
      as (q1 & E1 & Hq1 & EL & EM & EN & HC1 & Hcon1).
    + done.
    + split_and!; rewrite ?H1; lia.
    + destruct ((_ <=? _) && _) eqn:B in Hst; [done|].
      apply andb_false_iff in B. rewrite !Z.leb_gt in B.
      unfold CQ.grown. rewrite orb_true_iff, !Z.ltb_lt. tauto.
    + right. lia.
    + rewrite E1. cbn [mbind res_bind].
      pose proof (CQ.freespace_spec q1 Hq1).
      destruct (write_room q1 d k) as (q' & E & He' & Hs & HC' & Hcon);
        [split; [done|lia|lia]|lia|lia|].
      exists q'. rewrite E, Hcon, Hcon1 by lia.
      pose proof (CQ.ss_len _ _ Hs). pose proof (CQ.ss_max _ _ Hs).
      split_and!; try done; lia.
Qed.

(** The case in which [Grow] does nothing: the loop repeats itself. *)
Lemma write_iov_stalls q d : enc_wf q →
  CQ.Freespace q < len d → CQ.Count q + len d ≤ CQ.queueLength q →
  len d ≤ CQ.maxThreshold q → ∀ fuel, write_iov fuel q d = Err Diverges.
Proof.
  intros He Hf Hc Hm fuel. pose proof (len_nonneg d).
  induction fuel as [|k IH]; [done|]. destruct (e_wf q He) as [? ? ? ? ? ? ? ? ?].
  destruct (CQ.count_spec q (e_wf q He)) as [_ ?].
  rewrite write_full, u32_id by (done || lia).
  rewrite CQ.Grow_ignored by lia. cbn. done.
Qed.

Lemma WriteBytes_exact iov : ∀ q fuel, enc_wf q → room q (len <$> iov) → (2 ≤ fuel)%nat →
  if stalls (CQ.Count q) (CQ.queueLength q) (CQ.maxThreshold q) (len <$> iov)
  then WriteBytes fuel q iov = Err Diverges
  else ∃ q', WriteBytes fuel q iov = Ok q' ∧ enc_wf q' ∧
         CQ.contents q' 0 = CQ.contents q 0 ++ concat iov ∧
         CQ.queueLength q' + CQ.maxThreshold q' ≤ CQ.queueLength q + CQ.maxThreshold q +
           foldr (λ n s, 2 * n + 1 + s) 0 (len <$> iov).
Proof.
  induction iov as [|d iov IH]; intros q fuel He Hr Hf.
  { exists q. cbn. rewrite app_nil_r. split_and!; try done. lia. }
  destruct fuel as [|[|fuel]]; [lia|lia|]. unfold room in Hr. cbn in Hr.
  pose proof (len_nonneg d). pose proof (fold_room_nonneg iov).
  pose proof (CQ.freespace_spec q (e_wf q He)).
  destruct (CQ.count_spec q (e_wf q He)) as [_ HC].
  pose proof (e_thresh q He).
  cbn [WriteBytes fmap list_fmap stalls].
  set (c := CQ.Count q) in *. set (ql := CQ.queueLength q) in *.
  set (mt := CQ.maxThreshold q) in *.
  destruct (stalls c ql mt [len d]) eqn:S1.
  - cbn in S1. destruct (Z.leb_spec (len d) (ql - 1 - c)); [done|].
    destruct ((_ <=? _) && _) eqn:B in S1; [|done]. rewrite B.
    apply andb_true_iff in B. rewrite !Z.leb_le in B.
    rewrite write_iov_stalls by (done || lia). done.
  - destruct (write_iov_ok q d fuel He) as (q1 & E1 & He1 & HC1 & Hcon1 & Hsh).
    { unfold room. cbn. lia. }
    { done. }
    rewrite E1. cbn [mbind res_bind]. cbn in S1. fold c ql mt in Hsh, HC1.
    destruct (len d <=? ql - 1 - c) eqn:Bd.
    + specialize (IH q1 (S (S fuel)) He1). rewrite HC1 in IH.
      rewrite (CQ.ss_len _ _ Hsh), (CQ.ss_max _ _ Hsh) in IH.
      fold ql mt in IH. unfold room in IH.
      rewrite (CQ.ss_len _ _ Hsh), (CQ.ss_max _ _ Hsh) in IH. fold ql mt in IH.
      specialize (IH ltac:(lia) Hf). destruct (stalls _ _ _ _); [done|].
      destruct IH as (q' & E & He' & Hcon & HB). exists q'. cbn [foldr].
      split_and!; [done..| |lia]. rewrite Hcon, Hcon1. cbn. by rewrite app_assoc.
    + destruct ((c + len d <=? ql) && (len d <=? mt)); [done|].
      destruct Hsh as [EL EM]. apply Z.leb_gt in Bd.
      specialize (IH q1 (S (S fuel)) He1). unfold room in IH. rewrite HC1, EL, EM in IH.
      specialize (IH ltac:(lia) Hf). destruct (stalls _ _ _ _); [done|].
      destruct IH as (q' & E & He' & Hcon & HB). exists q'. cbn [foldr].
      split_and!; [done..| |lia]. rewrite Hcon, Hcon1. cbn. by rewrite app_assoc.
Qed.

(** [WriteBytes] appends the bytes of every element of the vector, in
    order, to what the encoder holds, except in one case, in which it never
    returns: an element fills the buffer to exactly the sentinel byte, so that
    [RawEnqueue] refuses it and [Grow] finds nothing to do. *)
Theorem WriteBytes_appends_or_stalls q iov fuel :
  enc_wf q → room q (len <$> iov) → (2 ≤ fuel)%nat →
  (stalls (CQ.Count q) (CQ.queueLength q) (CQ.maxThreshold q) (len <$> iov) = false →
   ∃ q', WriteBytes fuel q iov = Ok q' ∧ enc_wf q' ∧
     CQ.contents q' 0 = CQ.contents q 0 ++ concat iov) ∧
  (stalls (CQ.Count q) (CQ.queueLength q) (CQ.maxThreshold q) (len <$> iov) = true →
   WriteBytes fuel q iov = Err Diverges).
Proof.
  intros He Hr Hf. pose proof (WriteBytes_exact iov q fuel He Hr Hf) as H.
  split; intros E; rewrite E in H; [|done].
  destruct H as (q' & ? & ? & ? & _). by exists q'.
Qed.

(** ** [SendEnqueue] *)
Section send_enqueue.
Context {Q : Type} `{DequeueSideLaws Q}.

Lemma get_pointers_ok t n : ∀ i q, ds_inv q → 0 ≤ i → i + Z.of_nat n ≤ ds_chans q →
  0 ≤ t ≤ ds_count q → t ≤ ds_thresh q →
  ∃ ps q', get_pointers n i t q = Ok (ps, q') ∧ ds_inv q' ∧ length ps = n ∧
    ds_chans q' = ds_chans q ∧ ds_count q' = ds_count q ∧ ds_thresh q' = ds_thresh q ∧
    (∀ c, 0 ≤ c < ds_chans q → ds_bytes q' c = ds_bytes q c) ∧
    (∀ c p, 0 ≤ c < i → ds_view q t c p → ds_view q' t c p) ∧
    (∀ j p, ps !! j = Some p → ds_view q' t (i + Z.of_nat j) p).
Proof.
  induction n as [|n IH]; intros i q Hq Hi Hn Ht Hm; cbn [get_pointers].
  - exists [], q. by split_and!.
  - destruct (ds_ptr_ok q t i) as (p & q1 & E & Hq1 & Hv & EN & EC & ET & Hb & Hk);
      [done|lia|done|done|].
    destruct (IH (i + 1) q1)
      as (ps & q2 & E2 & Hq2 & Hl & EN2 & EC2 & ET2 & Hb2 & Hk2 & Hv2); [done|lia|lia|lia|lia|].
    exists (p :: ps), q2. rewrite E. cbn. rewrite E2. cbn. split_and!; try done; try congruence.
    + intros c Hc. rewrite Hb2 by lia. by apply Hb.
    + intros c p' Hc Hp. apply Hk2; [lia|]. by apply Hk.
    + intros [|j] p'; cbn; intros Hp.
      * injection Hp as ->. replace (i + Z.of_nat 0) with i by lia. apply Hk2; [lia|done].
      * replace (i + Z.of_nat (S j)) with (i + 1 + Z.of_nat j) by lia. by apply Hv2.
Qed.

Lemma load_all_ok q t ps : ∀ i, ds_inv q → 0 ≤ i → i + len ps ≤ ds_chans q →
  0 ≤ t ≤ ds_count q → t ≤ ds_thresh q →
  (∀ j p, ps !! j = Some p → ds_view q t (i + Z.of_nat j) p) →
  load_all q ps t = Ok ((λ c, slice (ds_bytes q c) 0 t) <$> seqZ i (len ps)).
Proof.
  induction ps as [|p ps IH]; intros i Hq Hi Hl Ht Hm Hv; [done|].
  unfold len in *. cbn [length] in *. cbn [load_all].
  rewrite (ds_load_ok q t i p); [|done|lia|done|done|].
  2: { specialize (Hv 0%nat p eq_refl). by rewrite Z.add_0_r in Hv. }
  cbn [mbind res_bind]. rewrite (IH (i + 1)); [|done|lia|lia|done|done|].
  2: { intros j p' Hp. specialize (Hv (S j) p' Hp).
       by replace (i + 1 + Z.of_nat j) with (i + Z.of_nat (S j)) by lia. }
  rewrite (seqZ_cons i) by lia. cbn. unfold Z.succ, Z.pred. do 3 f_equal. f_equal. lia.
Qed.

(** The rows that follow an enqueue packet on the wire. *)
Definition rows (q : Q) (count : Z) : list (list Z) :=
  (λ c, slice (ds_bytes q c) 0 count) <$> seqZ 0 (ds_chans q).

(** [SendEnqueue] puts the packet on the wire followed by the oldest
    [Count] bytes of every channel, channel after channel, and removes those
    bytes from the queue it drains; the queue may be any that keeps the
    contract of [DequeueSide]. *)
Theorem SendEnqueue_moves_rows fuel cbuff p q :
  let count := Packet.Count p in
  enc_wf cbuff → ds_inv q → Packet.Type_ p = Some Packet.PACKET_ENQUEUE →
  0 ≤ ds_chans q → 0 ≤ count ≤ ds_count q → count ≤ ds_thresh q → (2 ≤ fuel)%nat →
  room cbuff (len <$> p :: rows q count) →
  stalls (CQ.Count cbuff) (CQ.queueLength cbuff) (CQ.maxThreshold cbuff)
    (len <$> p :: rows q count) = false →
  ∃ cbuff' q', SendEnqueue fuel cbuff p q = Ok (cbuff', q') ∧ enc_wf cbuff' ∧
    CQ.contents cbuff' 0 = CQ.contents cbuff 0 ++ p ++ concat (rows q count) ∧
    ds_inv q' ∧ ds_count q' = ds_count q - count ∧
    ∀ c, 0 ≤ c < ds_chans q → ds_bytes q' c = drop (Z.to_nat count) (ds_bytes q c).
Proof.
  intros count He Hq Ht Hn Hc Hm Hf Hr Hs. subst count. set (count := Packet.Count p) in *.
  destruct (get_pointers_ok count (Z.to_nat (ds_chans q)) 0 q)
    as (ps & q1 & E1 & Hq1 & Hl & EN & EC & ET & Hb & _ & Hv); [done|lia|lia|lia|lia|].
  assert (load_all q1 ps count = Ok (rows q count)) as E2.
  { rewrite (load_all_ok q1 count ps 0) by (done || unfold len; lia).
    unfold rows. f_equal. replace (len ps) with (ds_chans q) by (unfold len; lia).
    apply list_fmap_ext. intros i c Hi%lookup_seqZ. by rewrite Hb by lia. }
  pose proof (WriteBytes_exact (p :: rows q count) cbuff fuel He Hr Hf) as HW.
  rewrite Hs in HW. destruct HW as (cb & E3 & He' & Hcon & _).
  destruct (ds_dequeue_ok q1 count) as (q2 & E4 & Hq2 & EC2 & EN2 & ET2 & Hb2); [done|lia|].
  exists cb, q2. unfold SendEnqueue. rewrite bool_decide_true by done. cbn [assert mbind res_bind].
  fold count. rewrite E1. cbn [mbind res_bind]. rewrite E2. cbn [mbind res_bind].
  rewrite E3. cbn [mbind res_bind]. rewrite E4. cbn [mbind res_bind].
  split_and!; try done; [lia|]. intros c Hcc. rewrite Hb2 by lia. by rewrite Hb.
Qed.
End send_enqueue.

(** ** Draining the encoder *)

(** What the other side is given for a request, and how much of it it takes. *)
Definition take_encoded (cbuff : CQ.queue) (amount written : Z) : res (list Z * CQ.queue) :=
  '(p, amount, cbuff) ← GetEncodedBytes cbuff amount;
  match p with
  | None => Err NullDeref
  | Some p =>
    let n := Z.min written amount in
    bytes ← memread (CQ.buffer cbuff) p n;
    cbuff ← ReleaseEncodedBytes cbuff n;
    Ok (bytes, cbuff)
  end.

Fixpoint drain (cbuff : CQ.queue) (reqs : list (Z * Z)) : res (list Z * CQ.queue) :=
  match reqs with
  | [] => Ok ([], cbuff)
  | (amount, written) :: reqs =>
    '(b, cbuff) ← take_encoded cbuff amount written;
    '(bs, cbuff) ← drain cbuff reqs;
    Ok (b ++ bs, cbuff)
  end.

Lemma GetEncodedBytes_ok q amount : enc_wf q → 0 ≤ amount →
  CQ.queueLength q + CQ.queueLength q + CQ.maxThreshold q < 2147483647 →
  ∃ p a q', GetEncodedBytes q amount = Ok (Some p, a, q') ∧ enc_wf q' ∧
    a = Z.min (CQ.Count q) (if amount =? 0 then CQ.maxThreshold q else amount) ∧
    CQ.Count q' = CQ.Count q ∧ CQ.contents q' 0 = CQ.contents q 0 ∧
    CQ.queueLength q' ≤ CQ.queueLength q + 1 ∧
    CQ.maxThreshold q' ≤ Z.max (CQ.Count q) (CQ.maxThreshold q) ∧
    memread (CQ.buffer q') p a = Ok (slice (CQ.contents q 0) 0 a).
Proof.
  intros [Hq H1 Ht] Ha Hb. destruct (CQ.count_spec q Hq) as [_ HC].
  unfold GetEncodedBytes.
  set (a0 := if amount =? 0 then CQ.maxThreshold q else amount).
  assert (0 ≤ a0) by (subst a0; zcases; lia).
  replace (if CQ.Count q <? a0 then CQ.Count q else a0) with (Z.min (CQ.Count q) a0)
    by (zcases; lia).
  set (a := Z.min (CQ.Count q) a0).
  assert (∃ q1, (if CQ.maxThreshold q <? a then CQ.Grow q 0 a else Ok q) = Ok q1 ∧
    CQ.wf q1 ∧ CQ.numChannels q1 = 1 ∧ 0 < CQ.maxThreshold q1 ∧ a ≤ CQ.maxThreshold q1 ∧
    CQ.Count q1 = CQ.Count q ∧ CQ.queueLength q1 ≤ CQ.queueLength q + 1 ∧
    CQ.maxThreshold q1 ≤ Z.max (CQ.Count q) (CQ.maxThreshold q) ∧
    CQ.contents q1 0 = CQ.contents q 0)
    as (q1 & E1 & Hq1 & HN & HM & Hma & HC1 & HL1 & HM1 & Hcon1).
  { destruct (Z.ltb_spec (CQ.maxThreshold q) a).
    - destruct (CQ.Grow_total q 0 a) as (q1 & E1 & Hq1 & EL & EM & EN & HC1 & Hcon1).
      + done.
      + destruct Hq. split_and!; rewrite ?H1; lia.
      + unfold CQ.grown. rewrite orb_true_iff, !Z.ltb_lt. lia.
      + right. lia.
      + exists q1. split_and!; try done; try lia. apply Hcon1. lia.
    - exists q. by split_and!; try lia. }
  rewrite E1. cbn [mbind res_bind].
  destruct (CQ.GetRawDequeuePtr_ok q1 a 0) as (q2 & E2 & Hr & E3 & _); [done|lia|lia|lia|].
  destruct (CQ.same_rings_ok q1 q2 Hr Hq1) as (Hq2 & [SL SM SC SS] & HC2 & _ & _ & Hcon2).
  rewrite E2. cbn [mbind res_bind]. eexists _, a, q2. split; [done|].
  split; [split; [done|lia|lia]|]. split; [done|]. split; [lia|].
  rewrite Hcon2, Hcon1 by lia. split; [done|]. split; [lia|]. split; [lia|].
  by rewrite E3, Hcon1.
Qed.

Lemma take_encoded_ok q amount written : enc_wf q → 0 ≤ amount → 0 ≤ written →
  CQ.queueLength q + CQ.queueLength q + CQ.maxThreshold q < 2147483647 →
  ∃ b q', take_encoded q amount written = Ok (b, q') ∧ enc_wf q' ∧
    b ++ CQ.contents q' 0 = CQ.contents q 0 ∧
    CQ.queueLength q' ≤ CQ.queueLength q + 1 ∧
    CQ.maxThreshold q' ≤ Z.max (CQ.Count q) (CQ.maxThreshold q) ∧
    CQ.Count q' ≤ CQ.Count q.
Proof.
  intros He Ha Hw Hb. destruct (GetEncodedBytes_ok q amount He Ha Hb)
    as (p & a & q1 & E1 & He1 & Ea & HC & Hcon & HL & HM & Er).
  destruct (CQ.count_spec q (e_wf q He)) as [_ HCb]. pose proof (e_thresh q He).
  assert (0 ≤ a ≤ CQ.Count q) as Hab by (rewrite Ea; zcases; lia).
  set (n := Z.min written a).
  destruct (CQ.Dequeue_ok q1 n (e_wf q1 He1))
    as (q2 & E2 & Hq2 & [SL SM SC SS] & _ & _ & HC2 & Hd); [lia|].
  unfold memread in Er. destruct (in_bounds _ _ _) eqn:B; [|done].
  apply in_bounds_spec in B. injection Er as Er.
  exists (slice (CQ.contents q 0) 0 n), q2. unfold take_encoded. rewrite E1.
  cbn [mbind res_bind]. fold n. rewrite memread_ok by lia. cbn [mbind res_bind].
  unfold ReleaseEncodedBytes. rewrite E2. cbn. split_and!.
  - do 2 f_equal. apply (f_equal (take (Z.to_nat n))) in Er. unfold slice in Er.
    rewrite !take_take in Er. unfold slice.
    replace (Z.to_nat n `min` Z.to_nat a)%nat with (Z.to_nat n) in Er by lia. done.
  - destruct He1. split; [done|lia|lia].
  - rewrite Hd, Hcon. unfold slice. rewrite drop_0. apply take_drop.
  - lia.
  - lia.
  - lia.
Qed.

Fixpoint send_all (fuel : nat) (cbuff : CQ.queue) (ps : list Packet.PacketHeader)
    : res CQ.queue :=
  match ps with
  | [] => Ok cbuff
  | p :: ps => cbuff ← SendPacket fuel cbuff p; send_all fuel cbuff ps
  end.

Lemma send_all_WriteBytes fuel ps : ∀ cbuff, send_all fuel cbuff ps = WriteBytes fuel cbuff ps.
Proof.
  induction ps as [|p ps IH]; intros cbuff; [done|]. cbn. unfold SendPacket. cbn.
  destruct (write_iov fuel cbuff p); cbn; [apply IH|done].
Qed.

(** Headers alone never meet the stalling case of an encoder. *)
Lemma headers_never_stall n : ∀ c ql mt, 0 ≤ c < ql → c `mod` 64 = 0 →
  ql `mod` 64 = 61 ∨ ql `mod` 64 = 1 → stalls c ql mt (replicate n 64) = false.
Proof.
  induction n as [|n IH]; intros c ql mt Hc Hm Hq; [done|]. cbn [replicate stalls].
  pose proof (Z.div_mod c 64 ltac:(lia)). pose proof (Z.div_mod ql 64 ltac:(lia)).
  destruct (Z.leb_spec 64 (ql - 1 - c)).
  - apply IH; [lia| |done]. rewrite <- Hm. rewrite <- (Z.mod_add c 1 64) by lia. done.
  - destruct (Z.leb_spec (c + 64) ql); cbn [andb].
    + exfalso. lia.
    + apply IH; [lia| |right].
      * rewrite <- Hm. rewrite <- (Z.mod_add c 1 64) by lia. done.
      * rewrite Z.max_l by lia. replace (c + 64 + 1) with (1 + (c / 64 + 1) * 64) by lia.
        by rewrite Z.mod_add.
Qed.

Lemma drain_ok reqs : ∀ q, enc_wf q → Forall (λ r, 0 ≤ r.1 ∧ 0 ≤ r.2) reqs →
  CQ.queueLength q + CQ.queueLength q + Z.max (CQ.Count q) (CQ.maxThreshold q) +
    2 * len reqs < 2147483647 →
  ∃ out q', drain q reqs = Ok (out, q') ∧ out ++ CQ.contents q' 0 = CQ.contents q 0.
Proof.
  induction reqs as [|[amount written] reqs IH]; intros q He Hr Hb.
  - by exists [], q.
  - inversion Hr as [|? ? [Ha Hw] Hr']; subst. cbn in Ha, Hw.
    pose proof (len_nonneg reqs).
    assert (len ((amount, written) :: reqs) = len reqs + 1) as El by (unfold len; cbn; lia).
    destruct (take_encoded_ok q amount written He Ha Hw) as (b & q1 & E1 & He1 & Hc & HL & HM & HC);
      [lia|].
    destruct (IH q1 He1 Hr') as (out & q2 & E2 & Hc2); [lia|].
    exists (b ++ out), q2. cbn [drain]. rewrite E1. cbn. rewrite E2. cbn.
    split; [done|]. by rewrite <- app_assoc, Hc2.
Qed.

(** C24: packets sent through an encoder and drained by any sequence of partial
    reads arrive whole and in order at the handlers of the decoder that the
    bytes are fed to, however those are cut. *)
Theorem packets_cross_the_wire fuel ps reqs sizes :
  Forall (λ p, Packet.good p = true) ps → (2 ≤ fuel)%nat →
  Forall (λ r, 0 ≤ r.1 ∧ 0 ≤ r.2) reqs → Forall (λ n, 0 < n) sizes →
  400 * len ps + 2 * len reqs < 2147000000 → 64 * len ps ≤ len sizes →
  ∃ cbuff out cbuff', send_all fuel new_encoder ps = Ok cbuff ∧
    drain cbuff reqs = Ok (out, cbuff') ∧ out ++ CQ.contents cbuff' 0 = concat ps ∧
    (CQ.contents cbuff' 0 = [] →
     ∃ d evs, Packet.read_all Packet.new_decoder out sizes = Ok (d, [], evs) ∧
       Packet.fired evs ps).
Proof.
  intros Hps Hf Hr Hs Hb Hsz.
  assert (len <$> ps = replicate (length ps) 64) as El.
  { clear -Hps. induction Hps as [|p ps Hp _ IH]; [done|]. cbn. rewrite IH.
    by destruct (Packet.good_spec p Hp) as [-> _]. }
  assert (enc_wf new_encoder) as He by (by repeat constructor).
  assert (foldr (λ n s, 2 * n + 1 + s) 0 (len <$> ps) = 129 * len ps) as Ef.
  { rewrite El. unfold len. clear. induction ps as [|p ps IH]; cbn in *; lia. }
  pose proof (len_nonneg ps). pose proof (len_nonneg reqs).
  pose proof (WriteBytes_exact ps new_encoder fuel He) as HW.
  unfold room in HW. rewrite Ef in HW. change (CQ.queueLength new_encoder) with 4093 in HW.
  change (CQ.maxThreshold new_encoder) with 4092 in HW.
  change (CQ.Count new_encoder) with 0 in HW. rewrite El in HW.
  rewrite headers_never_stall in HW by (done || lia || by left).
  destruct HW as (cb & E1 & He1 & Hcon & HB); [lia|done|].
  destruct (CQ.count_spec cb (e_wf cb He1)) as [_ HC]. pose proof (e_thresh cb He1).
  destruct (drain_ok reqs cb He1 Hr) as (out & cb' & E2 & Hc2); [lia|].
  change (CQ.contents new_encoder 0) with (@nil Z) in Hcon. cbn [app] in Hcon.
  exists cb, out, cb'. rewrite send_all_WriteBytes. split; [done|]. split; [done|].
  split; [by rewrite Hc2|]. intros Hemp. rewrite Hemp, app_nil_r, Hcon in Hc2. subst out.
  destruct (Packet.read_all_ok sizes Packet.new_decoder (concat ps) ps)
    as (d & s' & evs & ps1 & r & E3 & Hsp & F & Hd & Hend).
  { constructor; [done|done|done|]. by exists []. }
  { done. }
  assert (∀ qs, Forall (λ p, Packet.good p = true) qs → len (concat qs) = 64 * len qs) as Hlc.
  { clear. intros qs Hqs. induction Hqs as [|p qs Hp _ IH]; [done|]. cbn [concat].
    rewrite len_app, IH. destruct (Packet.good_spec p Hp) as [-> _]. unfold len. cbn. lia. }
  assert (s' = []) as -> by (apply Hend; rewrite Hlc by done; lia).
  exists d, evs. split; [done|]. destruct Hd as [Hl' Hn' Hr' (g' & Hp' & _)].
  destruct r as [|p r]; [rewrite app_nil_r in Hsp; by subst|].
  exfalso. apply (f_equal len) in Hp'. rewrite !len_app, len_take, Hlc in Hp' by (done || lia).
  pose proof (len_nonneg g'). pose proof (len_nonneg r). rewrite len_nil in Hp'.
  assert (len (p :: r) = len r + 1) by (unfold len; cbn; lia). lia.
Qed.

(** ** The theorems at concrete values *)
Definition small_encoder : CQ.queue := CQ.make 4 4 1.
Lemma small_enc_wf : enc_wf small_encoder.
Proof. by repeat constructor. Qed.

(** One byte, then four: the buffer of four has room for five and refuses them. *)
Example small_encoder_stalls : stalls 0 5 4 (len <$> [[1]; [2; 3; 4; 5]]) = true.
Proof. reflexivity. Qed.

Lemma WriteBytes_appends_or_stalls_witness :
  let iov := [[1]; [2; 3; 4; 5]] in
  (stalls (CQ.Count small_encoder) (CQ.queueLength small_encoder)
     (CQ.maxThreshold small_encoder) (len <$> iov) = false →
   ∃ q', WriteBytes 2 small_encoder iov = Ok q' ∧ enc_wf q' ∧
     CQ.contents q' 0 = CQ.contents small_encoder 0 ++ concat iov) ∧
  (stalls (CQ.Count small_encoder) (CQ.queueLength small_encoder)
     (CQ.maxThreshold small_encoder) (len <$> iov) = true →
   WriteBytes 2 small_encoder iov = Err Diverges).
Proof.
  apply (WriteBytes_appends_or_stalls small_encoder [[1]; [2; 3; 4; 5]] 2 small_enc_wf).
  - by vm_compute.
  - lia.
Defined.

Definition two_bytes : CQ.queue := CQ.mk 5 2 1 7 2 0 [7; 8; 0; 0; 0; 0; 0].
Lemma two_bytes_wf : CQ.wf two_bytes.
Proof. by constructor. Qed.
Definition enqueue_2 : Packet.PacketHeader :=
  Packet.set Packet.count 2 (Packet.InitPacket 2 Packet.PACKET_ENQUEUE).

Lemma SendEnqueue_moves_rows_witness :
  ∃ cbuff' q', SendEnqueue 2 small_encoder enqueue_2 two_bytes = Ok (cbuff', q') ∧
    enc_wf cbuff' ∧
    CQ.contents cbuff' 0 = CQ.contents small_encoder 0 ++ enqueue_2 ++
      concat (rows two_bytes (Packet.Count enqueue_2)) ∧
    ds_inv q' ∧ ds_count q' = ds_count two_bytes - Packet.Count enqueue_2 ∧
    ∀ c, 0 ≤ c < ds_chans two_bytes →
      ds_bytes q' c = drop (Z.to_nat (Packet.Count enqueue_2)) (ds_bytes two_bytes c).
Proof.
  apply (SendEnqueue_moves_rows 2 small_encoder enqueue_2 two_bytes);
    first [exact small_enc_wf | exact two_bytes_wf | by vm_compute | lia].
Defined.

Lemma packets_cross_the_wire_witness :
  ∃ cbuff out cbuff', send_all 2 new_encoder Packet.example_packets = Ok cbuff ∧
    drain cbuff [(0, 100); (7, 9); (0, 100)] = Ok (out, cbuff') ∧
    out ++ CQ.contents cbuff' 0 = concat Packet.example_packets ∧
    (CQ.contents cbuff' 0 = [] →
     ∃ d evs, Packet.read_all Packet.new_decoder out (replicate 128 50) = Ok (d, [], evs) ∧
       Packet.fired evs Packet.example_packets).
Proof.
  apply (packets_cross_the_wire 2 Packet.example_packets [(0, 100); (7, 9); (0, 100)]
    (replicate 128 50)).
  - by repeat constructor.
  - lia.
  - repeat constructor; cbn; lia.
  - by apply Forall_replicate.
  - by vm_compute.
  - by vm_compute.
Defined.

End PE.
