(* ===== verification/MirrorBufferSet.v ===== *)
(** [libraries/MirrorBufferSet]: a set of buffers, each mapped twice by the
    virtual memory system so that the bytes beyond its end are its first bytes
    again.

    The constructor's calls of [mmap] are kept as a list of requests; what
    [mmap] makes of them is a parameter, [view], with the contract of
    [MAP_FIXED]: the last request that covers an address decides the byte of
    the file it leads to. *)
From S2P Require Import Prelude.

Module MBS.

Record mbs := mk { bufferSize : Z; mirrorSize : Z; numBuffers : Z }.

Definition round_up (pageSize size : Z) : Z :=
  if size `mod` pageSize =? 0 then size else u64 (size + (pageSize - size `mod` pageSize)).

(** The sizes the constructor settles on. *)
Definition make (pageSize bufferSz mirrorSz nBuffers : Z) : mbs :=
  mk (round_up pageSize bufferSz) (round_up pageSize mirrorSz) nBuffers.

(** One call of [mmap]: the address relative to [bufferBase], the size and the
    offset in the file. *)
Record mapping := mk_mapping { theAddr : Z; theSize : Z; theOffset : Z }.

(** The two mappings of buffer [buf]. *)
Definition map_buffer (b : mbs) (buf : Z) : list mapping :=
  let addr := buf * (bufferSize b + mirrorSize b) in
  let off := buf * bufferSize b in
  [mk_mapping addr (bufferSize b) off;
   mk_mapping (addr + bufferSize b) (mirrorSize b) off].

Definition mappings (b : mbs) : list mapping :=
  mk_mapping 0 ((bufferSize b + mirrorSize b) * numBuffers b) 0 ::
  concat (map_buffer b <$> seqZ 0 (numBuffers b)).

Definition covers (m : mapping) (v : Z) : bool :=
  (theAddr m <=? v) && (v <? theAddr m + theSize m).

(** Where the mappings lead, in closed form. *)
Definition translate (b : mbs) (v : Z) : Z :=
  let buf := v / (bufferSize b + mirrorSize b) in
  let r := v `mod` (bufferSize b + mirrorSize b) in
  buf * bufferSize b + (if r <? bufferSize b then r else r - bufferSize b).

Lemma round_up_spec pageSize size :
  0 < pageSize → 0 ≤ size → size + pageSize < 18446744073709551616 →
  size ≤ round_up pageSize size < size + pageSize ∧ round_up pageSize size `mod` pageSize = 0.
Proof.
  intros Hp Hs Hb. unfold round_up. pose proof (Z.mod_pos_bound size pageSize Hp).
  destruct (Z.eqb_spec (size `mod` pageSize) 0); [lia|].
  rewrite u64_id by lia. split; [lia|].
  pose proof (Z.div_mod size pageSize ltac:(lia)).
  replace (size + (pageSize - size `mod` pageSize)) with (0 + (size / pageSize + 1) * pageSize)
    by lia.
  rewrite Z.mod_add by lia. by apply Z.mod_0_l; lia.
Qed.

Lemma round_up_le pageSize s1 s2 :
  0 < pageSize → 0 ≤ s1 ≤ s2 → s2 + pageSize < 18446744073709551616 →
  round_up pageSize s1 ≤ round_up pageSize s2.
Proof.
  intros Hp Hs Hb.
  destruct (round_up_spec pageSize s2) as [B1 B2]; [done|lia|done|].
  destruct (round_up_spec pageSize s1) as [M1 M2]; [done|lia|lia|].
  apply Z.mod_divide in B2 as [k Hk]; [|lia]. apply Z.mod_divide in M2 as [j Hj]; [|lia].
  rewrite Hk, Hj in *. assert (j < k + 1) by (apply (Z.mul_lt_mono_pos_r pageSize); lia). nia.
Qed.

(** The constructor rounds both sizes up to whole pages, by less than a
    page each, and the order [mirrorSize <= bufferSize] that the class needs is
    kept. *)
Theorem sizes_are_pages pageSize bufferSz mirrorSz n :
  0 < pageSize → 0 ≤ mirrorSz ≤ bufferSz → bufferSz + pageSize < 18446744073709551616 →
  let b := make pageSize bufferSz mirrorSz n in
  bufferSize b `mod` pageSize = 0 ∧ mirrorSize b `mod` pageSize = 0 ∧
  bufferSz ≤ bufferSize b < bufferSz + pageSize ∧
  mirrorSz ≤ mirrorSize b < mirrorSz + pageSize ∧ mirrorSize b ≤ bufferSize b.
Proof.
  intros Hp Hm Hb. cbn.
  destruct (round_up_spec pageSize bufferSz) as [B1 B2]; [done|lia|done|].
  destruct (round_up_spec pageSize mirrorSz) as [M1 M2]; [done|lia|lia|].
  split_and!; try lia. by apply round_up_le.
Qed.

Section view.
(** The address space after a sequence of requests. *)
Variable view : list mapping → Z → Z.
Hypothesis view_fixed : ∀ ms m v,
  view (ms ++ [m]) v = if covers m v then theOffset m + (v - theAddr m) else view ms v.

Lemma view_skip ms ms' v :
  (∀ m, m ∈ ms' → covers m v = false) → view (ms ++ ms') v = view ms v.
Proof.
  revert ms. induction ms' as [|m ms' IH]; intros ms H; [by rewrite app_nil_r|].
  replace (ms ++ m :: ms') with ((ms ++ [m]) ++ ms') by by rewrite <- app_assoc.
  rewrite IH by (intros; apply H; by apply list_elem_of_further).
  rewrite view_fixed, H by apply list_elem_of_here. done.
Qed.

(** After the constructor every address of the set leads to the file
    byte of its buffer that [translate] gives: the two mappings of a buffer
    are views of the same bytes, and no other buffer's. *)
Theorem mappings_translate b v :
  0 < bufferSize b → 0 ≤ mirrorSize b → 
  0 ≤ v < (bufferSize b + mirrorSize b) * numBuffers b →
  view (mappings b) v = translate b v.
Proof.
  intros Hb Hm Hv. unfold mappings. set (w := bufferSize b + mirrorSize b) in *. unfold translate. fold w.
  set (q := v / w). set (r := v `mod` w).
  pose proof (Z.div_mod v w ltac:(lia)) as Ev. fold q r in Ev.
  pose proof (Z.mod_pos_bound v w ltac:(lia)) as Hr. fold r in Hr.
  assert (0 ≤ q < numBuffers b) as Hq by (split; [apply Z.div_pos; lia|
    apply Z.div_lt_upper_bound; lia]).
  assert (seqZ 0 (numBuffers b) = seqZ 0 q ++ q :: seqZ (q + 1) (numBuffers b - q - 1)) as ->.
  { replace (q :: seqZ (q + 1) (numBuffers b - q - 1)) with (seqZ (0 + q) (numBuffers b - q)).
    - rewrite <- seqZ_app by lia. f_equal. lia.
    - rewrite seqZ_cons by lia. repeat (f_equal; try lia). }
  rewrite fmap_app, concat_app, fmap_cons, concat_cons.
  assert (∀ k m, m ∈ map_buffer b k → covers m v = true → k = q) as Hother.
  { intros k m Hk Hc. unfold covers in Hc. rewrite andb_true_iff, Z.leb_le, Z.ltb_lt in Hc.
    assert (k * w ≤ v < k * w + w) as Hkw.
    { unfold map_buffer in Hk. rewrite !elem_of_cons, elem_of_nil in Hk.
      destruct Hk as [->|[->|[]]]; cbn in Hc; fold w in Hc; lia. }
    subst q. apply (Z.div_unique v w k (v - k * w)); lia. }
  assert (∀ i n m, m ∈ concat (map_buffer b <$> seqZ i n) → q < i ∨ i + n ≤ q →
    covers m v = false) as Hout.
  { intros i n m Hm' Hi. apply list_elem_of_In, List.in_concat in Hm' as (l & Hl & Hml).
    apply list_elem_of_In in Hl, Hml. apply list_elem_of_fmap in Hl as (k & -> & Hk). apply elem_of_seqZ in Hk.
    destruct (covers m v) eqn:E; [|done]. apply (Hother k m Hml) in E. lia. }
  rewrite app_comm_cons, app_assoc, view_skip.
  2: { intros m Hm'. apply (Hout _ _ _ Hm'). lia. }
  set (l := _ :: concat _). unfold map_buffer. fold w.
  change (l ++ [?m1; ?m2]) with (l ++ [m1] ++ [m2]). rewrite app_assoc, !view_fixed.
  unfold covers. cbn. zcases; cbn; lia.
Qed.
End view.

Lemma sizes_are_pages_witness :
  let b := make 4096 5000 100 2 in
  bufferSize b `mod` 4096 = 0 ∧ mirrorSize b `mod` 4096 = 0 ∧
  5000 ≤ bufferSize b < 5000 + 4096 ∧ 100 ≤ mirrorSize b < 100 + 4096 ∧
  mirrorSize b ≤ bufferSize b.
Proof. apply (sizes_are_pages 4096 5000 100 2); lia. Defined.

(** An address space in which unmapped addresses lead to byte 0. *)
Definition example_view (ms : list mapping) (v : Z) : Z :=
  foldl (λ acc m, if covers m v then theOffset m + (v - theAddr m) else acc) 0 ms.

Lemma mappings_translate_witness :
  let b := mk 8 4 2 in example_view (mappings b) 21 = translate b 21.
Proof.
  apply (mappings_translate example_view); [|done|done|done].
  intros ms m v. unfold example_view. by rewrite foldl_app.
Defined.

End MBS.
