(* ===== verification/ThresholdQueueBase.v ===== *)
(** [libraries/ThresholdQueue]: the queue whose reads and writes are made in
    place, through pointers to contiguous memory.

    The memory is either a [malloc]ed block, in which [Enqueue] keeps the bytes
    beyond the ring equal to its first ones, or a [MirrorBufferSet], where
    addresses go through [MBS.translate].  [head] and [tail] run over twice the
    length so that a full queue and an empty one differ.  Indices and sizes are
    [ulong]s; the theorems are for [elementSize = 1], the only size the process
    network library instantiates ([TQImpl]). *)
From S2P Require Import Prelude.
From S2P Require Import QueueInterface.
From S2P Require Import MirrorBufferSet.

Module TQB.

Record attr := mk_attr {
  a_queueLength : Z; a_maxThreshold : Z; a_numChannels : Z; a_useMBS : bool;
  a_chanOffset : Z; a_baseOffset : Z }.

Record tq := mk {
  elementSize : Z;
  head : Z; tail : Z;                    (** dequeue and enqueue index *)
  queueLength : Z; maxThreshold : Z;
  numChannels : Z; channelStride : Z;
  chanOffset : Z; baseOffset : Z;
  elementsEnqueued : Z; elementsDequeued : Z;
  base : Z;                              (** relative to the start of [mem] *)
  mbs : option MBS.mbs;
  mem : list Z }.                        (** the block, or the mapped file *)

Definition with_tail (q : tq) t n m :=
  mk (elementSize q) (head q) t (queueLength q) (maxThreshold q) (numChannels q)
    (channelStride q) (chanOffset q) (baseOffset q) n (elementsDequeued q) (base q) (mbs q) m.
Definition with_head (q : tq) h n :=
  mk (elementSize q) h (tail q) (queueLength q) (maxThreshold q) (numChannels q)
    (channelStride q) (chanOffset q) (baseOffset q) (elementsEnqueued q) n (base q) (mbs q)
    (mem q).
Definition with_counts (q : tq) e d :=
  mk (elementSize q) (head q) (tail q) (queueLength q) (maxThreshold q) (numChannels q)
    (channelStride q) (chanOffset q) (baseOffset q) e d (base q) (mbs q) (mem q).
Definition with_mem (q : tq) m :=
  with_tail q (tail q) (elementsEnqueued q) m.

Definition Reset (q : tq) : tq :=
  mk (elementSize q) 0 0 (queueLength q) (maxThreshold q) (numChannels q)
    (channelStride q) (chanOffset q) (baseOffset q) 0 0 (base q) (mbs q) (mem q).

Definition QueueLength (q : tq) : Z := queueLength q.
Definition MaxThreshold (q : tq) : Z := maxThreshold q.
Definition NumChannels (q : tq) : Z := numChannels q.
Definition ChannelStride (q : tq) : Z := channelStride q.

(** ** Memory *)
Definition phys (q : tq) (v : Z) : Z :=
  match mbs q with None => v | Some b => MBS.translate b v end.
Definition mem_size (q : tq) : Z :=
  match mbs q with
  | None => len (mem q)
  | Some b => (MBS.bufferSize b + MBS.mirrorSize b) * MBS.numBuffers b
  end.

Definition load (q : tq) (p n : Z) : res (list Z) :=
  if (0 <=? p) && (0 <=? n) && (p + n <=? mem_size q)
  then Ok ((λ i, bget (mem q) (phys q (p + i))) <$> seqZ 0 n) else Err OutOfBounds.

Fixpoint store_at (q : tq) (p : Z) (d : list Z) (m : list Z) : list Z :=
  match d with
  | [] => m
  | b :: d => store_at q (p + 1) d (<[Z.to_nat (phys q p) := b]> m)
  end.
Definition store (q : tq) (p : Z) (d : list Z) : res tq :=
  if (0 <=? p) && (p + len d <=? mem_size q)
  then Ok (with_mem q (store_at q p d (mem q))) else Err OutOfBounds.

Section env.
(** [MirrorBufferSet::PageSize] and [MirrorBufferSet::Supported]. *)
Context (PageSize : Z) (Supported : bool).

(** [AllocateBuf], with a block of zeros for what [malloc] gives. *)
Definition AllocateBuf (q : tq) (queueLen maxThresh numChans : Z) (useMBS : bool) : tq :=
  let maxThresh := if maxThresh <? 1 then 1 else maxThresh in
  let queueLen := if queueLen <? maxThresh then maxThresh else queueLen in
  if useMBS && Supported then
    let bufSz := u64 (queueLen * elementSize q) in
    let mirSz := u64 (maxThresh - 1 + baseOffset q + u64 (numChans - 1) * chanOffset q) in
    let mirSz := u64 (mirSz * elementSize q) in
    let b := MBS.make PageSize bufSz mirSz numChans in
    let ql := MBS.bufferSize b / elementSize q in
    let mt := u64 (MBS.mirrorSize b / elementSize q + 1) in
    let stride := u64 (ql + mt - 1 + chanOffset q) in
    let mt := u64 (mt - (baseOffset q + u64 (numChans - 1) * chanOffset q)) in
    let mt := if ql <? mt then ql else mt in
    Reset (mk (elementSize q) (head q) (tail q) ql mt numChans stride (chanOffset q)
      (baseOffset q) (elementsEnqueued q) (elementsDequeued q) (baseOffset q) (Some b)
      (zeros ((MBS.bufferSize b + MBS.mirrorSize b) * numChans)))
  else
    let stride := u64 (queueLen + maxThresh - 1) in
    Reset (mk (elementSize q) (head q) (tail q) queueLen maxThresh numChans stride
      (chanOffset q) (baseOffset q) (elementsEnqueued q) (elementsDequeued q) 0 (mbs q)
      (zeros (u64 (stride * numChans * elementSize q)))).

(** The members before [AllocateBuf] is called by a constructor. *)
Definition blank (elemSize queueLen maxThresh numChans chanOff baseOff : Z) : tq :=
  let mt := if maxThresh <? 1 then 1 else maxThresh in
  let ql := if queueLen <? mt then mt else queueLen in
  mk elemSize 0 0 ql mt numChans 0 chanOff baseOff 0 0 0 None [].

Definition make (elemSize queueLen maxThresh numChans : Z) : tq :=
  let q := blank elemSize queueLen maxThresh numChans 0 0 in
  AllocateBuf q (queueLength q) (maxThreshold q) numChans true.

Definition make_attr (elemSize : Z) (a : attr) : tq :=
  let boff := if a_useMBS a then a_baseOffset a `mod` PageSize / elemSize else 0 in
  let coff := if a_useMBS a then a_chanOffset a / elemSize else 0 in
  let q := blank elemSize (a_queueLength a) (a_maxThreshold a) (a_numChannels a) coff boff in
  AllocateBuf q (queueLength q) (maxThreshold q) (numChannels q) (a_useMBS a).

(** ** Reading and writing *)
Definition Count (q : tq) : res Z :=
  count ← sub_while (u64 (2 * queueLength q - head q + tail q)) (queueLength q);
  Ok (if negb (count =? 0) then count
      else if head q =? tail q then 0 else queueLength q).

Definition Freespace (q : tq) : res Z :=
  c ← Count q; Ok (u64 (queueLength q - c)).

Definition Empty (q : tq) : res bool := c ← Count q; Ok (c =? 0).
Definition Full (q : tq) : res bool := f ← Freespace q; Ok (f =? 0).

Definition pointer (q : tq) (index chan : Z) : res Z :=
  idx ← sub_while index (queueLength q);
  Ok (base q + u64 (u64 (chan * channelStride q + idx) * elementSize q)).

Definition GetRawEnqueuePtr (q : tq) (thresh chan : Z) : res (option Z) :=
  free ← Freespace q;
  if (free <? thresh) || (maxThreshold q <? thresh) then Ok None
  else p ← pointer q (tail q) chan; Ok (Some p).

Definition GetRawDequeuePtr (q : tq) (thresh chan : Z) : res (option Z) :=
  c ← Count q;
  if (c <? thresh) || (maxThreshold q <? thresh) then Ok None
  else p ← pointer q (head q) chan; Ok (Some p).

(** The loop that mirrors in a [malloc]ed block. *)
Definition mirror_rows (q : tq) (idx countUp countDn : Z) : res (list Z) :=
  for_loop (Z.to_nat (numChannels q)) 0 (λ chan m,
    let chanBase := base q + u64 (u64 (chan * channelStride q) * elementSize q) in
    m ← memcpy_within m (chanBase + u64 (u64 (idx + queueLength q) * elementSize q))
          (chanBase + u64 (idx * elementSize q)) (u64 (countUp * elementSize q));
    memcpy_within m chanBase (chanBase + u64 (queueLength q * elementSize q))
      (u64 (countDn * elementSize q))) (mem q).

Definition Enqueue (q : tq) (count : Z) : res tq :=
  m ← match mbs q with
      | Some _ => Ok (mem q)
      | None =>
        idx ← sub_while (tail q) (queueLength q);
        let countUp := if idx <? u64 (maxThreshold q - 1)
                       then u64 (maxThreshold q - 1 - idx) else 0 in
        let countUp := if u64 (idx + count) <? u64 (maxThreshold q - 1)
                       then count else countUp in
        let countDn := if queueLength q <? u64 (idx + count)
                       then u64 (idx + count - queueLength q) else 0 in
        if negb (countUp =? 0) || negb (countDn =? 0)
        then mirror_rows q idx countUp countDn else Ok (mem q)
      end;
  newTail ← sub_while (u64 (tail q + count)) (u64 (2 * queueLength q));
  Ok (with_tail q newTail (u64 (elementsEnqueued q + count)) m).

Definition Dequeue (q : tq) (count : Z) : res tq :=
  newHead ← sub_while (u64 (head q + count)) (u64 (2 * queueLength q));
  Ok (with_head q newHead (u64 (elementsDequeued q + count))).

(** ** Growing *)

(** A channel of the copy: [memcpy(dst, src, count * elementSize)]. *)
Definition copy_channel (count : Z) (old : tq) (chan : Z) (q : tq) : res tq :=
  src ← GetRawDequeuePtr old count chan;
  dst ← GetRawEnqueuePtr q count chan;
  match src, dst with
  | Some src, Some dst =>
    bytes ← load old src (u64 (count * elementSize q)); store q dst bytes
  | _, _ => Err AssertFailed
  end.

(** [while ((count = oldQueue.Count())) { ... }]: the new queue and what is
    left of the old one. *)
Fixpoint copy_loop (fuel : nat) (q old : tq) : res (tq * tq) :=
  match fuel with
  | O => Err Diverges
  | S k =>
    count ← Count old;
    if count =? 0 then Ok (q, old) else
    let count := if maxThreshold old <? count then maxThreshold old else count in
    q ← for_loop (Z.to_nat (numChannels q)) 0 (copy_channel count old) q;
    q ← Enqueue q count;
    old ← Dequeue old count;
    copy_loop k q old
  end.

(** From "we don't do any shrinking" on: what [ThresholdQueueBase::Grow] and
    [TQImpl::Grow] have in common. *)
Definition grow_copy (q : tq) (queueLen maxThresh : Z) : res (tq * tq) :=
  let maxThresh := if maxThresh <=? MaxThreshold q then MaxThreshold q else maxThresh in
  let queueLen := if queueLen <=? QueueLength q then QueueLength q else queueLen in
  let oldQueue := q in
  let q := AllocateBuf q queueLen maxThresh (numChannels q) (bool_decide (is_Some (mbs q))) in
  let q := with_counts q (elementsEnqueued q) (elementsDequeued oldQueue) in
  '(q, oldQueue) ← copy_loop (S (Z.to_nat (queueLength oldQueue))) q oldQueue;
  Ok (with_counts q (elementsEnqueued oldQueue) (elementsDequeued q), oldQueue).

Definition Grow (q : tq) (queueLen maxThresh : Z) : res tq :=
  let maxThresh := if maxThresh =? 0 then MaxThreshold q else maxThresh in
  if (queueLen <=? QueueLength q) && (maxThresh <=? MaxThreshold q) then Ok q else
  '(q, _) ← grow_copy q queueLen maxThresh;
  Ok q.

End env.

(** ** The invariant and the abstraction, for elements of one byte *)

Definition addr (q : tq) (c i : Z) : Z := base q + c * channelStride q + i.
(** Byte [i] of the row of channel [c]: the ring, then its mirror. *)
Definition vcell (q : tq) (c i : Z) : Z := bget (mem q) (phys q (addr q c i)).
(** The length of a row. *)
Definition row_len (q : tq) : Z := queueLength q + maxThreshold q - 1.
Definition cnt (q : tq) : Z := (tail q - head q) `mod` (2 * queueLength q).
Definition hidx (q : tq) : Z := head q `mod` queueLength q.
Definition tidx (q : tq) : Z := tail q `mod` queueLength q.

Definition layout (q : tq) : Prop :=
  match mbs q with
  | None => base q = 0 ∧ channelStride q = row_len q ∧
            len (mem q) = channelStride q * numChannels q
  | Some b =>
    MBS.bufferSize b = queueLength q ∧ MBS.numBuffers b = numChannels q ∧
    0 ≤ MBS.mirrorSize b ≤ queueLength q ∧ 0 ≤ chanOffset q ∧ 0 ≤ baseOffset q ∧
    base q = baseOffset q ∧
    channelStride q = queueLength q + MBS.mirrorSize b + chanOffset q ∧
    maxThreshold q + baseOffset q + (numChannels q - 1) * chanOffset q
      ≤ MBS.mirrorSize b + 1 ∧
    len (mem q) = (queueLength q + MBS.mirrorSize b) * numChannels q
  end.

(** Every copy of an occupied byte of the ring is equal to it. *)
Definition mirrored (q : tq) : Prop :=
  ∀ c k i, 0 ≤ c < numChannels q → 0 ≤ k < cnt q → 0 ≤ i < row_len q →
    i `mod` queueLength q = (head q + k) `mod` queueLength q →
    vcell q c i = vcell q c ((head q + k) `mod` queueLength q).

Record wf (q : tq) : Prop := {
  w_elem : elementSize q = 1;
  w_thresh : 1 ≤ maxThreshold q ≤ queueLength q;
  w_chan : 0 ≤ numChannels q;
  w_head : 0 ≤ head q < 2 * queueLength q;
  w_tail : 0 ≤ tail q < 2 * queueLength q;
  w_cnt : cnt q ≤ queueLength q;
  w_small : queueLength q < 1152921504606846976;
  w_size : base q + channelStride q * numChannels q < 9223372036854775808;
  w_stride : 0 ≤ channelStride q;
  w_layout : layout q;
  w_mirror : mirrored q }.

Definition nth_byte (q : tq) (c k : Z) : Z := vcell q c ((head q + k) `mod` queueLength q).
Definition contents (q : tq) (c : Z) : list Z := nth_byte q c <$> seqZ 0 (cnt q).
Definition window (q : tq) (c o n : Z) : list Z := (λ i, vcell q c (o + i)) <$> seqZ 0 n.

Record same_shape (q q' : tq) : Prop := {
  ss_len : queueLength q' = queueLength q;
  ss_max : maxThreshold q' = maxThreshold q;
  ss_chan : numChannels q' = numChannels q;
  ss_stride : channelStride q' = channelStride q;
  ss_mbs : mbs q' = mbs q;
  ss_base : base q' = base q }.
#[global] Instance same_shape_refl : Reflexive same_shape.
Proof. by intros []. Qed.
#[global] Instance same_shape_trans : Transitive same_shape.
Proof. intros ? ? ? [] []. constructor; congruence. Qed.

(** *** Indices *)
Lemma cnt_range q : wf q → 0 ≤ cnt q ≤ queueLength q.
Proof.
  intros Hq. split; [|apply Hq]. apply Z.mod_pos_bound. destruct Hq. lia.
Qed.

Lemma tidx_range q : wf q → 0 ≤ tidx q < queueLength q.
Proof. intros []. apply Z.mod_pos_bound. lia. Qed.
Lemma hidx_range q : wf q → 0 ≤ hidx q < queueLength q.
Proof. intros []. apply Z.mod_pos_bound. lia. Qed.

Lemma cnt_cases q : wf q →
  tail q = head q + cnt q ∨ tail q = head q + cnt q - 2 * queueLength q.
Proof.
  intros Hq. pose proof (cnt_range q Hq). destruct Hq. unfold cnt in *.
  destruct (Z.le_gt_cases 0 (tail q - head q)).
  - left. rewrite Z.mod_small in * by lia. lia.
  - right. rewrite <- (Z.mod_add _ 1) in * by lia. rewrite Z.mod_small in * by lia. lia.
Qed.

Lemma Count_ok q : wf q → Count q = Ok (cnt q).
Proof.
  intros Hq. pose proof (cnt_range q Hq). pose proof (cnt_cases q Hq) as Hc.
  destruct Hq. unfold Count. words. rewrite sub_while_ok by lia. cbn [mbind res_bind]. f_equal.
  assert ((2 * queueLength q - head q + tail q) `mod` queueLength q
          = cnt q `mod` queueLength q) as ->.
  { destruct Hc as [->| ->].
    - replace (_ - _ + _) with (cnt q + 2 * queueLength q) by lia. by rewrite Z.mod_add by lia.
    - f_equal. lia. }
  destruct (Z.eq_dec (cnt q) (queueLength q)) as [E|].
  - rewrite E, Z.mod_same by lia. cbn. destruct (Z.eqb_spec (head q) (tail q)); lia.
  - rewrite Z.mod_small by lia. zcases; cbn; lia.
Qed.

Lemma Freespace_ok q : wf q → Freespace q = Ok (queueLength q - cnt q).
Proof.
  intros Hq. pose proof (cnt_range q Hq). unfold Freespace. rewrite Count_ok by done.
  cbn. destruct Hq. words. done.
Qed.

(** The distance of byte [i] of a row from the tail, around the ring. *)
Definition ahead (q : tq) (i : Z) : Z := (i - tail q) `mod` queueLength q.

Lemma ahead_cases q i : wf q → 0 ≤ i < 2 * queueLength q →
  0 ≤ ahead q i < queueLength q ∧
  (i = tidx q + ahead q i ∨ i = tidx q + ahead q i - queueLength q ∨
   i = tidx q + ahead q i + queueLength q).
Proof.
  intros Hq Hi. pose proof (tidx_range q Hq). destruct Hq.
  assert (ahead q i = (i - tidx q) `mod` queueLength q) as ->.
  { unfold ahead, tidx. by rewrite Zminus_mod_idemp_r. }
  split; [apply Z.mod_pos_bound; lia|].
  destruct (Z.le_gt_cases (tidx q) i).
  - rewrite mod_once by lia. zcases; lia.
  - rewrite <- (Z.mod_add _ 1) by lia. rewrite Z.mod_small by lia. lia.
Qed.

Lemma ahead_occupied q i k : wf q → 0 ≤ k < cnt q →
  i `mod` queueLength q = (head q + k) `mod` queueLength q →
  ahead q i = queueLength q - cnt q + k.
Proof.
  intros Hq Hk E. pose proof (cnt_range q Hq). pose proof (cnt_cases q Hq) as Hc.
  destruct Hq. unfold ahead. rewrite <- Zminus_mod_idemp_l, E, Zminus_mod_idemp_l.
  symmetry. destruct Hc as [->| ->].
  - apply (Z.mod_unique _ _ (-1)); lia.
  - apply (Z.mod_unique _ _ 1); lia.
Qed.

Lemma ahead_tail q j : wf q → 0 ≤ j < queueLength q → ahead q (tidx q + j) = j.
Proof.
  intros Hq Hj. destruct Hq. unfold ahead, tidx.
  rewrite <- Zminus_mod_idemp_l, Zplus_mod_idemp_l, Zminus_mod_idemp_l.
  replace (tail q + j - tail q) with j by lia. by apply Z.mod_small.
Qed.

Lemma sub_while_idx q i : wf q → 0 ≤ i → sub_while i (queueLength q) = Ok (i `mod` queueLength q).
Proof. intros [] Hi. apply sub_while_ok; lia. Qed.

(** *** Addresses *)
Lemma addr_range q c i : wf q → 0 ≤ c < numChannels q → 0 ≤ i < row_len q →
  0 ≤ addr q c i < mem_size q.
Proof.
  intros [] Hc Hi. unfold addr, mem_size, layout, row_len in *.
  destruct (mbs q) as [b|].
  - destruct w_layout0 as (EB & EN & Hm & Hco & Hbo & -> & -> & Hf & EM). rewrite EB, EN.
    split; [nia|]. nia.
  - destruct w_layout0 as (-> & -> & ->). split; nia.
Qed.

(** The place in the file of byte [i] of channel [c]. *)
Lemma phys_mbs q b c i : wf q → mbs q = Some b → 0 ≤ c < numChannels q → 0 ≤ i < row_len q →
  phys q (addr q c i) =
    c * queueLength q + (c * chanOffset q + baseOffset q + i) `mod` queueLength q ∧
  0 ≤ c * chanOffset q + baseOffset q + i < queueLength q + MBS.mirrorSize b.
Proof.
  intros [] Hb Hc Hi. unfold phys, addr, layout, row_len in *. rewrite Hb in *.
  destruct w_layout0 as (EB & EN & Hm & Hco & Hbo & -> & -> & Hf & EM).
  assert (0 ≤ c * chanOffset q ≤ (numChannels q - 1) * chanOffset q) as Ho by nia.
  assert (0 ≤ c * chanOffset q + baseOffset q + i < queueLength q + MBS.mirrorSize b) as Hr
    by lia.
  split; [|done]. unfold MBS.translate. rewrite EB.
  set (w := queueLength q + MBS.mirrorSize b) in *.
  set (o := c * chanOffset q + baseOffset q + i) in *.
  replace (baseOffset q + c * (w + chanOffset q) + i) with (o + c * w) by (unfold o; lia).
  rewrite Z.div_add, Z.mod_add by lia. rewrite Z.div_small, Z.mod_small by lia.
  rewrite (mod_once o) by lia. zcases; lia.
Qed.

Lemma phys_range q c i : wf q → 0 ≤ c < numChannels q → 0 ≤ i < row_len q →
  0 ≤ phys q (addr q c i) < len (mem q).
Proof.
  intros Hq Hc Hi. destruct (mbs q) as [b|] eqn:Hb.
  - destruct (phys_mbs q b c i Hq Hb Hc Hi) as [-> _].
    destruct Hq. unfold layout in *. rewrite Hb in *.
    destruct w_layout0 as (EB & EN & Hm & _ & _ & _ & _ & _ & ->).
    pose proof (Z.mod_pos_bound (c * chanOffset q + baseOffset q + i) (queueLength q)
      ltac:(lia)). nia.
  - pose proof (addr_range q c i Hq Hc Hi) as H. unfold phys, mem_size in *. by rewrite Hb in *.
Qed.

(** Bytes with one place are the same byte of the ring. *)
Lemma phys_inj q c i c' i' : wf q →
  0 ≤ c < numChannels q → 0 ≤ i < row_len q → 0 ≤ c' < numChannels q → 0 ≤ i' < row_len q →
  phys q (addr q c i) = phys q (addr q c' i') →
  c = c' ∧ i `mod` queueLength q = i' `mod` queueLength q.
Proof.
  intros Hq Hc Hi Hc' Hi' E. destruct (mbs q) as [b|] eqn:Hb.
  - destruct (phys_mbs q b c i Hq Hb Hc Hi) as [E1 _].
    destruct (phys_mbs q b c' i' Hq Hb Hc' Hi') as [E2 _]. rewrite E1, E2 in E.
    destruct Hq. apply stride_inj in E as [-> E]; [|apply Z.mod_pos_bound; lia..].
    split; [done|]. set (o := c' * chanOffset q + baseOffset q) in *.
    apply (f_equal (λ x, (x - o) `mod` queueLength q)) in E.
    rewrite !Zminus_mod_idemp_l in E.
    by replace (o + i - o) with i in E by lia; replace (o + i' - o) with i' in E by lia.
  - unfold phys, addr in E. rewrite Hb in E. destruct Hq. unfold layout, row_len in *.
    rewrite Hb in *. destruct w_layout0 as (_ & ES & _). rewrite ES in E.
    destruct (stride_inj (queueLength q + maxThreshold q - 1) c i c' i') as [-> ->]; [lia..|].
    done.
Qed.

Lemma vcell_alias q b c i i' : wf q → mbs q = Some b → 0 ≤ c < numChannels q →
  0 ≤ i < row_len q → 0 ≤ i' < row_len q →
  i `mod` queueLength q = i' `mod` queueLength q → vcell q c i = vcell q c i'.
Proof.
  intros Hq Hb Hc Hi Hi' E. unfold vcell.
  destruct (phys_mbs q b c i Hq Hb Hc Hi) as [-> _].
  destruct (phys_mbs q b c i' Hq Hb Hc Hi') as [-> _].
  by rewrite <- (Zplus_mod_idemp_r i), E, Zplus_mod_idemp_r.
Qed.

(** *** Loads and stores *)
Lemma tqb_load_ok q c o n : wf q → 0 ≤ c < numChannels q → 0 ≤ o < row_len q → 0 ≤ n →
  o + n ≤ row_len q → load q (addr q c o) n = Ok (window q c o n).
Proof.
  intros Hq Hc Ho Hn Hl. unfold load.
  pose proof (addr_range q c o Hq Hc Ho).
  assert (addr q c o + n ≤ mem_size q).
  { destruct (decide (n = 0)); [lia|].
    pose proof (addr_range q c (o + n - 1) Hq Hc ltac:(lia)). unfold addr in *. lia. }
  zdecide. f_equal. apply list_fmap_ext. intros k i Hi%lookup_seqZ. unfold vcell, addr.
  by rewrite Z.add_assoc.
Qed.

Lemma bget_insert l (i j b : Z) : 0 ≤ i < len l → 0 ≤ j →
  bget (<[Z.to_nat i := b]> l) j = if i =? j then b else bget l j.
Proof.
  intros Hi Hj. unfold bget, len in *. destruct (Z.eqb_spec i j) as [->|].
  - apply list_lookup_total_insert_eq. lia.
  - apply list_lookup_total_insert_ne. lia.
Qed.

Lemma store_at_spec q d : ∀ p m,
  (∀ j, 0 ≤ j < len d → 0 ≤ phys q (p + j) < len m) →
  (∀ j j', 0 ≤ j < j' → j' < len d → phys q (p + j) ≠ phys q (p + j')) →
  len (store_at q p d m) = len m ∧
  (∀ j, 0 ≤ j < len d → bget (store_at q p d m) (phys q (p + j)) = bget d j) ∧
  (∀ x, 0 ≤ x → (∀ j, 0 ≤ j < len d → phys q (p + j) ≠ x) →
    bget (store_at q p d m) x = bget m x).
Proof.
  induction d as [|b d IH]; intros p m Hr Hd; cbn [store_at].
  { split_and!; [done| |done]. intros j Hj. unfold len in Hj. cbn in Hj. lia. }
  assert (len (b :: d) = len d + 1) as El by (unfold len; cbn; lia). pose proof (len_nonneg d).
  assert (0 ≤ phys q p < len m) as Hp by (specialize (Hr 0); rewrite Z.add_0_r in Hr; lia).
  destruct (IH (p + 1) (<[Z.to_nat (phys q p):=b]> m)) as (L & B & A).
  - intros j Hj. rewrite len_insert.
    replace (p + 1 + j) with (p + (j + 1)) by lia. apply Hr. lia.
  - intros j j' Hj Hj'. replace (p + 1 + j) with (p + (j + 1)) by lia.
    replace (p + 1 + j') with (p + (j' + 1)) by lia. apply Hd; lia.
  - split; [|split].
    + by rewrite L, len_insert.
    + intros j Hj. destruct (decide (j = 0)) as [->|].
      * rewrite Z.add_0_r, A; [|lia|].
        -- rewrite bget_insert by lia. by rewrite Z.eqb_refl.
        -- intros j Hj'. specialize (Hd 0 (j + 1)). rewrite Z.add_0_r in Hd.
           replace (p + 1 + j) with (p + (j + 1)) by lia. intros E. apply Hd; lia.
      * replace (p + j) with (p + 1 + (j - 1)) by lia. rewrite B by lia.
        unfold bget. by replace (Z.to_nat j) with (S (Z.to_nat (j - 1))) by lia.
    + intros x Hx Hne. rewrite A; [|done|].
      * rewrite bget_insert by lia. specialize (Hne 0). rewrite Z.add_0_r in Hne.
        destruct (Z.eqb_spec (phys q p) x); [|done]. exfalso. apply Hne; lia.
      * intros j Hj. replace (p + 1 + j) with (p + (j + 1)) by lia. apply Hne. lia.
Qed.

(** A store into a row: the cells written hold the data, and the cells that no
    written one is a copy of are as they were. *)
Lemma tqb_store_ok q c o d : wf q → 0 ≤ c < numChannels q → 0 ≤ o < row_len q →
  o + len d ≤ row_len q → len d ≤ queueLength q →
  ∃ m, store q (addr q c o) d = Ok (with_mem q m) ∧ len m = len (mem q) ∧
    (∀ i, o ≤ i < o + len d → vcell (with_mem q m) c i = bget d (i - o)) ∧
    (∀ c' i, 0 ≤ c' < numChannels q → 0 ≤ i < row_len q →
      c' ≠ c ∨ len d ≤ (i - o) `mod` queueLength q →
      vcell (with_mem q m) c' i = vcell q c' i).
Proof.
  intros Hq Hc Ho Hl Hd. pose proof (len_nonneg d). unfold store.
  pose proof (addr_range q c o Hq Hc Ho).
  assert (addr q c o + len d ≤ mem_size q).
  { destruct (decide (len d = 0)); [lia|].
    pose proof (addr_range q c (o + len d - 1) Hq Hc ltac:(lia)). unfold addr in *. lia. }
  zdecide.
  assert (∀ j, addr q c o + j = addr q c (o + j)) as Ha by (intros; unfold addr; lia).
  destruct (store_at_spec q d (addr q c o) (mem q)) as (L & B & A).
  - intros j Hj. rewrite Ha. apply phys_range; [done|done|lia].
  - intros j j' Hj Hj' E. rewrite !Ha in E. apply phys_inj in E as [_ E]; [|done|lia..].
    apply (f_equal (λ x, (x - (o + j)) `mod` queueLength q)) in E.
    rewrite !Zminus_mod_idemp_l in E.
    rewrite (Z.mod_small (o + j - (o + j))), Z.mod_small in E by lia. lia.
  - eexists. split; [done|]. split; [done|]. split.
    + intros i Hi. rewrite <- B by lia. unfold vcell. rewrite Ha.
      replace (o + (i - o)) with i by lia. done.
    + intros c' i Hc' Hi Hne. unfold vcell. apply A.
      * apply (phys_range q c' i Hq Hc' Hi).
      * intros j Hj E. rewrite Ha in E. change (addr (with_mem q _) c' i) with (addr q c' i) in E.
        change (phys (with_mem q _)) with (phys q) in E.
        apply phys_inj in E as [-> E]; [|done|lia..]. destruct Hne as [?|Hne]; [done|].
        rewrite <- Zminus_mod_idemp_l, <- E, Zminus_mod_idemp_l in Hne.
        rewrite Z.mod_small in Hne by lia. lia.
Qed.

(** *** Raw access *)
Lemma pointer_ok q index c : wf q → 0 ≤ index → 0 ≤ c < numChannels q →
  pointer q index c = Ok (addr q c (index `mod` queueLength q)).
Proof.
  intros Hq Hi Hc. unfold pointer. rewrite sub_while_idx by done. cbn [mbind res_bind].
  assert (0 ≤ index `mod` queueLength q < queueLength q) as Hm
    by (apply Z.mod_pos_bound; destruct Hq; lia).
  destruct Hq. rewrite w_elem0.
  assert (0 ≤ base q) by (unfold layout in *; destruct (mbs q); lia).
  assert (0 ≤ c * channelStride q ≤ channelStride q * numChannels q) by nia.
  words. f_equal. unfold addr. lia.
Qed.

Lemma tqb_GetRawEnqueuePtr_ok q t c : wf q → 0 ≤ c < numChannels q →
  GetRawEnqueuePtr q t c =
    Ok (if (t <=? queueLength q - cnt q) && (t <=? maxThreshold q)
        then Some (addr q c (tidx q)) else None).
Proof.
  intros Hq Hc. unfold GetRawEnqueuePtr. rewrite Freespace_ok by done. cbn [mbind res_bind].
  rewrite pointer_ok by (done || apply Hq). zcases; cbn; done || lia.
Qed.

Lemma tqb_GetRawDequeuePtr_ok q t c : wf q → 0 ≤ c < numChannels q →
  GetRawDequeuePtr q t c =
    Ok (if (t <=? cnt q) && (t <=? maxThreshold q)
        then Some (addr q c (hidx q)) else None).
Proof.
  intros Hq Hc. unfold GetRawDequeuePtr. rewrite Count_ok by done. cbn [mbind res_bind].
  rewrite pointer_ok by (done || apply Hq). zcases; cbn; done || lia.
Qed.

Lemma tqb_contents_len q c : wf q → len (contents q c) = cnt q.
Proof.
  intros Hq. pose proof (cnt_range q Hq). unfold contents. by autorewrite with bytes.
Qed.
Lemma bget_contents q c k : 0 ≤ k < cnt q →
  bget (contents q c) k = vcell q c ((head q + k) `mod` queueLength q).
Proof. intros. unfold contents. rewrite bget_seqZ by done. done. Qed.

Lemma occ_range q k : wf q → 0 ≤ (head q + k) `mod` queueLength q < row_len q.
Proof.
  intros []. unfold row_len.
  pose proof (Z.mod_pos_bound (head q + k) (queueLength q) ltac:(lia)). lia.
Qed.

(** A memory in which no occupied byte and no copy of one has changed. *)
Definition keeps (q : tq) (m : list Z) : Prop :=
  len m = len (mem q) ∧
  ∀ c i, 0 ≤ c < numChannels q → 0 ≤ i < row_len q → 
    queueLength q - cnt q ≤ ahead q i → vcell (with_mem q m) c i = vcell q c i.

Lemma keeps_ok q m : wf q → keeps q m →
  wf (with_mem q m) ∧ ∀ c, 0 ≤ c < numChannels q → contents (with_mem q m) c = contents q c.
Proof.
  intros Hq [L K].
  assert (∀ c k i, 0 ≤ c < numChannels q → 0 ≤ k < cnt q → 0 ≤ i < row_len q →
    i `mod` queueLength q = (head q + k) `mod` queueLength q →
    vcell (with_mem q m) c i = vcell q c i) as K'.
  { intros c k i Hc Hk Hi E. apply K; [done|done|].
    rewrite (ahead_occupied q i k) by done. lia. }
  split.
  - pose proof Hq as Hq0. destruct Hq as [? ? ? ? ? ? ? ? ? HL HM].
    constructor; try done; cbn.
    + unfold layout in *. cbn. rewrite L. by destruct (mbs q).
    + intros c k i Hc Hk Hi E. cbn in *. change (cnt (with_mem q m)) with (cnt q) in Hk.
      rewrite (K' c k i) by done. rewrite (K' c k ((head q + k) `mod` queueLength q)).
      * by apply HM.
      * done.
      * done.
      * by apply occ_range.
      * by rewrite Z.mod_mod by lia.
  - intros c Hc. apply list_fmap_ext. intros j k Hk%lookup_seqZ. unfold nth_byte. cbn.
    change (cnt (with_mem q m)) with (cnt q) in Hk.
    apply (K' c k); [done|lia|by apply occ_range|].
    apply Z.mod_mod. destruct Hq. lia.
Qed.

(** Bytes written through the pointer of the writer. *)
Lemma tqb_poke_ok q c d : wf q → 0 ≤ c < numChannels q →
  len d ≤ queueLength q - cnt q → len d ≤ maxThreshold q →
  ∃ m, store q (addr q c (tidx q)) d = Ok (with_mem q m) ∧ keeps q m ∧
    (∀ c' n, 0 ≤ c' < numChannels q → 0 ≤ n ≤ len d →
      window (with_mem q m) c' (tidx q) n =
      if c' =? c then slice d 0 n else window q c' (tidx q) n).
Proof.
  intros Hq Hc Hf Hm. pose proof (len_nonneg d). pose proof (tidx_range q Hq).
  pose proof (cnt_range q Hq).
  assert (row_len q = queueLength q + maxThreshold q - 1) as ER by done.
  assert (1 ≤ maxThreshold q ≤ queueLength q) as HM by apply Hq.
  destruct (tqb_store_ok q c (tidx q) d) as (m & E & L & B & A); [done|done|lia..|].
  exists m. split; [done|]. split; [split; [done|]|].
  - intros c' i Hc' Hi Ha. apply A; [done|done|right].
    unfold tidx. rewrite Zminus_mod_idemp_r. unfold ahead in Ha. lia.
  - intros c' n Hc' Hn. destruct (Z.eqb_spec c' c) as [->|Hne].
    + apply bytes_ext; unfold window; autorewrite with bytes.
      { rewrite len_slice; lia. }
      intros i Hi. rewrite bget_seqZ, bget_slice, B by lia. f_equal. lia.
    + apply list_fmap_ext. intros j i Hi%lookup_seqZ. apply A; [done|lia|by left].
Qed.

(** The same, byte by byte, over all that the writer may come to use. *)
Lemma poke_cells q c d : wf q → 0 ≤ c < numChannels q →
  len d ≤ queueLength q - cnt q → len d ≤ maxThreshold q →
  ∃ m, store q (addr q c (tidx q)) d = Ok (with_mem q m) ∧ keeps q m ∧
    (∀ c' n, 0 ≤ c' < numChannels q → len d ≤ n ≤ maxThreshold q →
      window (with_mem q m) c' (tidx q) n =
      if c' =? c then d ++ drop (length d) (window q c (tidx q) n)
      else window q c' (tidx q) n).
Proof.
  intros Hq Hc Hf Hm. pose proof (len_nonneg d). pose proof (tidx_range q Hq).
  pose proof (cnt_range q Hq).
  assert (row_len q = queueLength q + maxThreshold q - 1) as ER by done.
  assert (1 ≤ maxThreshold q ≤ queueLength q) as HM by apply Hq.
  destruct (tqb_store_ok q c (tidx q) d) as (m & E & L & B & A); [done|done|lia..|].
  exists m. split; [done|]. split; [split; [done|]|].
  - intros c' i Hc' Hi Ha. apply A; [done|done|right].
    unfold tidx. rewrite Zminus_mod_idemp_r. unfold ahead in Ha. lia.
  - intros c' n Hc' Hn. destruct (Z.eqb_spec c' c) as [->|Hne].
    + replace (drop (length d)) with (drop (A:=Z) (Z.to_nat (len d)))
        by (unfold len; by rewrite Nat2Z.id).
      assert (len (window q c (tidx q) n) = n) as Lw
        by (unfold window; autorewrite with bytes; done || lia).
      apply bytes_ext; rewrite ?len_app, ?len_drop by lia; rewrite ?Lw.
      { unfold window. autorewrite with bytes. lia. }
      unfold window at 1 2. autorewrite with bytes. intros i Hi.
      rewrite bget_seqZ, bget_app by lia. rewrite Z.add_0_l.
      destruct (Z.ltb_spec i (len d)).
      * rewrite B by lia. f_equal. lia.
      * rewrite bget_drop by lia. replace (len d + (i - len d)) with i by lia.
        unfold window. rewrite bget_seqZ, Z.add_0_l by lia. apply A; [done|lia|right].
        replace (tidx q + i - tidx q) with i by lia.
        destruct (Z.eq_dec i (queueLength q)) as [->|]; [|rewrite Z.mod_small; lia].
        lia.
    + apply list_fmap_ext. intros j i Hi%lookup_seqZ. apply A; [done|lia|by left].
Qed.

(** *** [Enqueue] *)

(** After the mirroring every copy of a new byte is equal to it. *)
Definition mirrors_new (q : tq) (n : Z) (m : list Z) : Prop :=
  len m = len (mem q) ∧
  ∀ c i, 0 ≤ c < numChannels q → 0 ≤ i < row_len q →
    vcell (with_mem q m) c i =
      if ahead q i <? n then vcell q c (tidx q + ahead q i) else vcell q c i.

Lemma mirror_rows_ok q n up dn :
  wf q → mbs q = None → 0 ≤ n ≤ queueLength q →
  up = (if tidx q + n <? maxThreshold q - 1 then n
        else if tidx q <? maxThreshold q - 1 then maxThreshold q - 1 - tidx q else 0) →
  dn = Z.max 0 (tidx q + n - queueLength q) → n ≤ maxThreshold q →
  ∃ m, mirror_rows q (tidx q) up dn = Ok m ∧ mirrors_new q n m.
Proof.
  intros Hq Hb Hn Eup Edn HnM. pose proof (tidx_range q Hq) as Ht.
  assert (row_len q = queueLength q + maxThreshold q - 1) as ER by done.
  pose proof Hq as [].
  assert (base q = 0 ∧ channelStride q = row_len q ∧
          len (mem q) = channelStride q * numChannels q) as (EB & ES & EL)
    by (unfold layout in *; by rewrite Hb in *).
  assert (0 ≤ up ≤ n ∧ (up = 0 ∨ tidx q + up ≤ maxThreshold q - 1) ∧ 0 ≤ dn ≤ n)
    as (Hup & Hup2 & Hdn) by (subst up dn; zcases; lia).
  unfold mirror_rows. rewrite w_elem0.
  set (body := λ chan m, _).
  destruct (for_loop_ok (λ ch m, len m = len (mem q) ∧
    ∀ c i, 0 ≤ c < numChannels q → 0 ≤ i < row_len q →
      cell m (channelStride q) c i =
      if (c <? ch) && (ahead q i <? n) then cell (mem q) (channelStride q) c (tidx q + ahead q i)
      else cell (mem q) (channelStride q) c i) body
    (Z.to_nat (numChannels q)) 0 (mem q)) as (m & E & L & G).
  - split; [done|]. intros c i ? ?. zdecide. done.
  - intros ch m Hch [L G]. unfold body.
    assert (0 ≤ ch * channelStride q ≤ channelStride q * numChannels q - channelStride q) as Hoff
      by nia.
    rewrite EB, Z.add_0_l, !Z.mul_1_r. words.
    destruct (cell_memcpy m (channelStride q) (numChannels q) ch (tidx q + queueLength q)
      (tidx q) up) as (m1 & E1 & L1 & G1); [lia..|].
    rewrite E1. cbn [mbind res_bind].
    destruct (cell_memcpy m1 (channelStride q) (numChannels q) ch 0 (queueLength q) dn)
      as (m2 & E2 & L2 & G2); [lia..|].
    rewrite Z.add_0_r in E2. rewrite E2. exists m2. split; [done|]. split; [lia|].
    intros c i Hc Hi. rewrite G2 by lia. 
    destruct (ahead_cases q i Hq) as [Ha Hcase]; [lia|].
    destruct (Z.eq_dec c ch) as [->|Hne].
    + rewrite Z.eqb_refl. replace (ch <? ch + 1) with true by (symmetry; apply Z.ltb_lt; lia).
      destruct ((true && _) && _) eqn:Bd.
      * rewrite !andb_true_iff, Z.leb_le, Z.ltb_lt in Bd.
        rewrite G1 by lia. 
        assert (ahead q i < n ∧ i = tidx q + ahead q i - queueLength q) as [Han Ei] by lia.
        replace (_ && (queueLength q + (i - 0) <? _)) with false.
        2: { symmetry. rewrite andb_false_iff, Z.ltb_ge, !andb_false_iff, Z.leb_gt.
             destruct (Z.lt_ge_cases i (tidx q)); [by left; right; lia|lia]. }
        rewrite G by lia. zdecide. cbn. f_equal. lia.
      * rewrite !andb_false_iff, Z.leb_gt, Z.ltb_ge in Bd.
        rewrite G1 by lia. rewrite Z.eqb_refl. destruct ((true && _) && _) eqn:Bu.
        -- rewrite !andb_true_iff, Z.leb_le, Z.ltb_lt in Bu.
           assert (ahead q i < n ∧ i = tidx q + ahead q i + queueLength q) as [Han Ei] by lia.
           rewrite G by lia. zdecide. f_equal. lia.
        -- rewrite !andb_false_iff, Z.leb_gt, Z.ltb_ge in Bu.
           rewrite G by lia. zdecide. cbn [andb].
           destruct (Z.ltb_spec (ahead q i) n); [|done]. f_equal.
           destruct Hcase as [Hi'|[Hi'|Hi']]; [lia|exfalso; lia|exfalso].
           subst up. zcases_all; lia.
    + zdecide. cbn [andb]. rewrite G1 by lia. zdecide. cbn [andb]. rewrite G by lia.
      destruct (Z.ltb_spec c ch), (Z.ltb_spec c (ch + 1)); try lia; done.
  - exists m. split; [done|]. split; [done|]. intros c i Hc Hi.
    unfold vcell, phys, addr. cbn. rewrite Hb, EB. unfold cell in G.
    rewrite !Z.add_0_l. rewrite G by done. zdecide. by destruct (ahead q i <? n).
Qed.

Lemma ahead_new q i k : wf q → cnt q ≤ k < queueLength q + cnt q →
  i `mod` queueLength q = (head q + k) `mod` queueLength q → ahead q i = k - cnt q.
Proof.
  intros Hq Hk E. pose proof (cnt_range q Hq). pose proof (cnt_cases q Hq) as Hc.
  destruct Hq. unfold ahead. rewrite <- Zminus_mod_idemp_l, E, Zminus_mod_idemp_l.
  symmetry. destruct Hc as [->| ->].
  - apply (Z.mod_unique _ _ 0); lia.
  - apply (Z.mod_unique _ _ 2); lia.
Qed.

Lemma tail_after q n : wf q → 0 ≤ n ≤ queueLength q - cnt q →
  ((tail q + n) `mod` (2 * queueLength q) - head q) `mod` (2 * queueLength q) = cnt q + n.
Proof.
  intros Hq Hn. pose proof (cnt_range q Hq). pose proof (cnt_cases q Hq) as Hc. destruct Hq.
  rewrite Zminus_mod_idemp_l. symmetry. destruct Hc as [->| ->].
  - apply (Z.mod_unique _ _ 0); lia.
  - apply (Z.mod_unique _ _ (-1)); lia.
Qed.

Lemma tqb_Enqueue_ok q n : wf q → 0 ≤ n ≤ queueLength q - cnt q → n ≤ maxThreshold q →
  ∃ q', Enqueue q n = Ok q' ∧ wf q' ∧ same_shape q q' ∧ cnt q' = cnt q + n ∧
    head q' = head q ∧ elementsEnqueued q' = u64 (elementsEnqueued q + n) ∧
    elementsDequeued q' = elementsDequeued q ∧
    ∀ c, 0 ≤ c < numChannels q → contents q' c = contents q c ++ window q c (tidx q) n.
Proof.
  intros Hq Hn HM. pose proof (cnt_range q Hq). pose proof (tidx_range q Hq) as Ht.
  assert (row_len q = queueLength q + maxThreshold q - 1) as ER by done.
  assert (∃ m, Enqueue q n = Ok (with_tail q ((tail q + n) `mod` (2 * queueLength q))
                               (u64 (elementsEnqueued q + n)) m) ∧ mirrors_new q n m)
    as (m & E & L & G).
  { unfold Enqueue.
    assert (sub_while (u64 (tail q + n)) (u64 (2 * queueLength q)) =
      Ok ((tail q + n) `mod` (2 * queueLength q))) as ->.
    { destruct Hq. words. apply sub_while_ok; lia. }
    assert (∀ r : res (list Z), (∃ m, r = Ok m ∧ mirrors_new q n m) → ∃ m,
      (m ← r; newTail ← Ok ((tail q + n) `mod` (2 * queueLength q));
       Ok (with_tail q newTail (u64 (elementsEnqueued q + n)) m)) =
      Ok (with_tail q ((tail q + n) `mod` (2 * queueLength q)) (u64 (elementsEnqueued q + n)) m)
      ∧ mirrors_new q n m) as K.
    { intros r (m & -> & Hm). by exists m. }
    apply K. clear K. destruct (mbs q) as [b|] eqn:Hb.
    - exists (mem q). split; [done|]. split; [done|]. intros c i Hc Hi.
      change (vcell (with_mem q (mem q)) c i) with (vcell q c i).
      assert (1 ≤ maxThreshold q ≤ queueLength q) as HT by apply Hq.
      destruct (ahead_cases q i Hq) as [Ha Hcase]; [lia|].
      destruct (Z.ltb_spec (ahead q i) n); [|done].
      apply (vcell_alias q b); [done|done|done|done|lia|].
      destruct Hcase as [Ei|[Ei|Ei]]; [by rewrite <- Ei| |].
      + replace (tidx q + ahead q i) with (i + 1 * queueLength q) by lia.
        by rewrite Z.mod_add by lia.
      + replace (tidx q + ahead q i) with (i + (-1) * queueLength q) by lia.
        by rewrite Z.mod_add by lia.
    - rewrite sub_while_idx by (done || apply Hq). cbn [mbind res_bind]. fold (tidx q).
      pose proof Hq as []. words.
      set (up := if tidx q + n <? maxThreshold q - 1 then n else _).
      set (dn := if queueLength q <? tidx q + n then _ else 0).
      destruct (mirror_rows_ok q n up dn) as (m & E & Hm); [done|done|lia| | |done|].
      + unfold up. zcases; words; done.
      + unfold dn. zcases; words; lia.
      + destruct (negb (up =? 0) || negb (dn =? 0)) eqn:Bz; [by exists m|].
        exists (mem q). split; [done|].
        rewrite orb_false_iff, !negb_false_iff, !Z.eqb_eq in Bz. destruct Bz as [E1 E2].
        split; [done|]. intros c i Hc Hi.
        change (vcell (with_mem q (mem q)) c i) with (vcell q c i).
        destruct (ahead_cases q i Hq) as [Ha Hcase]; [lia|].
        destruct (Z.ltb_spec (ahead q i) n); [|done]. f_equal.
        unfold up, dn in E1, E2. revert E1 E2. zcases; words; lia. }
  assert (cnt (with_tail q ((tail q + n) `mod` (2 * queueLength q))
     (u64 (elementsEnqueued q + n)) m) = cnt q + n) as C' by exact (tail_after q n Hq Hn).
  assert (∀ c k i, 0 ≤ c < numChannels q → 0 ≤ k < cnt q + n → 0 ≤ i < row_len q →
    i `mod` queueLength q = (head q + k) `mod` queueLength q →
    vcell (with_mem q m) c i = if k <? cnt q
      then vcell q c ((head q + k) `mod` queueLength q)
      else vcell q c (tidx q + (k - cnt q))) as V.
  { intros c k i Hc Hk Hi Ei. rewrite G by done. destruct (Z.ltb_spec k (cnt q)).
    - rewrite (ahead_occupied q i k) by (done || lia). zdecide.
      apply (w_mirror q Hq c k i); done || lia.
    - rewrite (ahead_new q i k) by (done || lia). by zdecide. }
  assert (∀ k, ((head q + k) `mod` queueLength q) `mod` queueLength q
               = (head q + k) `mod` queueLength q) as Hmm
    by (intros; apply Z.mod_mod; destruct Hq; lia).
  eexists. split; [exact E|]. split; [|split_and!; try done].
  - pose proof Hq as []. constructor; try done; cbn.
    + apply Z.mod_pos_bound. lia.
    + rewrite C'. lia.
    + unfold layout in *. cbn. rewrite L. by destruct (mbs q).
    + intros c k i Hc Hk Hi Ei. rewrite C' in Hk. cbn in Hc, Hi, Ei.
      change (vcell (with_mem q m) c i =
              vcell (with_mem q m) c ((head q + k) `mod` queueLength q)).
      rewrite (V c k i), (V c k ((head q + k) `mod` queueLength q));
        done || by apply occ_range.
  - intros c Hc. apply bytes_ext.
    { unfold contents at 1. rewrite C', len_app, tqb_contents_len by done.
      unfold window. autorewrite with bytes. done. }
    unfold contents at 1 2. rewrite C'. autorewrite with bytes. intros k Hk.
    rewrite bget_seqZ by lia. unfold nth_byte. cbn [with_tail head queueLength].
    change (vcell (with_tail q _ _ m)) with (vcell (with_mem q m)). rewrite Z.add_0_l.
    rewrite (V c k) by (done || by apply occ_range).
    rewrite bget_app, tqb_contents_len by (done || lia). zcases.
    + by rewrite bget_contents by lia.
    + unfold window. by rewrite bget_seqZ by lia.
Qed.

(** *** [Dequeue] and what a reader sees *)
Lemma tqb_Dequeue_ok q n : wf q → 0 ≤ n ≤ cnt q →
  ∃ q', Dequeue q n = Ok q' ∧ wf q' ∧ same_shape q q' ∧ cnt q' = cnt q - n ∧
    tail q' = tail q ∧ mem q' = mem q ∧ elementsEnqueued q' = elementsEnqueued q ∧
    elementsDequeued q' = u64 (elementsDequeued q + n) ∧
    ∀ c, contents q' c = drop (Z.to_nat n) (contents q c).
Proof.
  intros Hq Hn. pose proof (cnt_range q Hq). pose proof (cnt_cases q Hq) as Hc.
  set (h := (head q + n) `mod` (2 * queueLength q)).
  assert (Dequeue q n = Ok (with_head q h (u64 (elementsDequeued q + n)))) as E.
  { unfold Dequeue. destruct Hq. words. rewrite sub_while_ok by lia. done. }
  assert (cnt (with_head q h (u64 (elementsDequeued q + n))) = cnt q - n) as C'.
  { unfold cnt at 1. cbn. subst h. rewrite Zminus_mod_idemp_r. destruct Hq. symmetry.
    destruct Hc as [->| ->].
    - apply (Z.mod_unique _ _ 0); lia.
    - apply (Z.mod_unique _ _ (-1)); lia. }
  assert (∀ k, (h + k) `mod` queueLength q = (head q + (n + k)) `mod` queueLength q) as Hh.
  { intros k. subst h. destruct Hq. rewrite (Z.mul_comm 2), <- Zplus_mod_idemp_l.
    rewrite Z.rem_mul_r by lia. rewrite (Z.mul_comm (queueLength q)).
    rewrite Z.mod_add by lia. rewrite Z.mod_mod by lia. rewrite Zplus_mod_idemp_l.
    f_equal. lia. }
  eexists. split; [exact E|]. split; [|split_and!; try done].
  - pose proof Hq as []. constructor; try done; cbn.
    + apply Z.mod_pos_bound. lia.
    + rewrite C'. lia.
    + intros c k i Hcc Hk Hi Ei. rewrite C' in Hk. cbn in *. rewrite Hh in *.
      change (vcell q c i = vcell q c ((head q + (n + k)) `mod` queueLength q)).
      apply w_mirror0; done || lia.
  - intros c. apply bytes_ext.
    { rewrite len_drop by (rewrite tqb_contents_len; done || lia). rewrite (tqb_contents_len q) by done.
      unfold contents. rewrite C'. autorewrite with bytes. lia. }
    unfold contents at 1 2. rewrite C'. autorewrite with bytes. intros k Hk.
    rewrite bget_drop by lia. rewrite bget_contents, bget_seqZ by lia.
    unfold nth_byte. cbn [with_head head queueLength]. rewrite Z.add_0_l, Hh. done.
Qed.

Lemma window_same q q' c o n : same_shape q q' → mem q' = mem q → window q' c o n = window q c o n.
Proof.
  intros [_ _ _ SS SB Sb] EM. unfold window, vcell, addr, phys. by rewrite EM, SS, SB, Sb.
Qed.
Lemma window_take q c o n k : 0 ≤ k ≤ n → take (Z.to_nat k) (window q c o n) = window q c o k.
Proof.
  intros Hk. unfold window. replace n with (k + (n - k)) by lia.
  rewrite seqZ_app, fmap_app by lia. apply take_app_length'. rewrite length_fmap, length_seqZ. done.
Qed.
Lemma addr_same q q' c o : same_shape q q' → addr q' c o = addr q c o.
Proof. intros [_ _ _ SS _ Sb]. unfold addr. by rewrite SS, Sb. Qed.

Lemma head_window q c n : wf q → 0 ≤ c < numChannels q → 0 ≤ n ≤ cnt q → n ≤ maxThreshold q →
  window q c (hidx q) n = slice (contents q c) 0 n.
Proof.
  intros Hq Hc Hn HM. pose proof (hidx_range q Hq).
  assert (row_len q = queueLength q + maxThreshold q - 1) as ER by done.
  apply bytes_ext; unfold window; autorewrite with bytes.
  { rewrite len_slice; rewrite ?tqb_contents_len; done || lia. }
  intros i Hi. rewrite bget_seqZ, bget_slice, bget_contents by lia. rewrite !Z.add_0_l.
  apply (w_mirror q Hq); [done|lia|lia|]. unfold hidx. by rewrite Zplus_mod_idemp_l.
Qed.

Lemma load_head q c n : wf q → 0 ≤ c < numChannels q → 0 ≤ n ≤ cnt q → n ≤ maxThreshold q →
  load q (addr q c (hidx q)) n = Ok (slice (contents q c) 0 n).
Proof.
  intros Hq Hc Hn HM. pose proof (hidx_range q Hq).
  assert (row_len q = queueLength q + maxThreshold q - 1) as ER by done.
  assert (1 ≤ maxThreshold q) by apply Hq.
  rewrite tqb_load_ok by (done || lia). by rewrite head_window.
Qed.

(** *** A row for every channel, then [Enqueue] *)

Lemma with_mem_self q : with_mem q (mem q) = q.
Proof. by destruct q. Qed.

Lemma keeps_self q : keeps q (mem q).
Proof. split; [done|]. by rewrite with_mem_self. Qed.

Lemma keeps_trans q m m' : keeps q m → keeps (with_mem q m) m' → keeps q m'.
Proof.
  intros [L K] [L' K']. split; [by rewrite L'|]. intros c i Hc Hi Ha.
  rewrite <- K by done. by apply K'.
Qed.

(** A loop whose turns store a row of [n] bytes at the tail of each channel. *)
Lemma rows_loop_ok q n (rows : Z → list Z) (f : Z → tq → res tq) :
  wf q → 0 ≤ n ≤ queueLength q - cnt q → n ≤ maxThreshold q →
  (∀ c, 0 ≤ c < numChannels q → len (rows c) = n) →
  (∀ c m, 0 ≤ c < numChannels q → keeps q m →
    f c (with_mem q m) = store (with_mem q m) (addr q c (tidx q)) (rows c)) →
  ∃ m, for_loop (Z.to_nat (numChannels q)) 0 f q = Ok (with_mem q m) ∧ keeps q m ∧
    ∀ c, 0 ≤ c < numChannels q → window (with_mem q m) c (tidx q) n = rows c.
Proof.
  intros Hq Hn HM Hl Hf.
  destruct (for_loop_ok (λ ch q', ∃ m, q' = with_mem q m ∧ keeps q m ∧
    ∀ c, 0 ≤ c < ch → window (with_mem q m) c (tidx q) n = rows c) f
    (Z.to_nat (numChannels q)) 0 q) as (q' & E & m & -> & K & W).
  - exists (mem q). rewrite with_mem_self. split; [done|]. split; [apply keeps_self|lia].
  - intros ch q' Hch (m & -> & K & W). destruct (keeps_ok q m Hq K) as [Hq' _].
    destruct (tqb_poke_ok (with_mem q m) ch (rows ch)) as (m' & E & K' & W').
    { done. } { cbn. lia. } { cbn. rewrite Hl by lia. apply Hn. } { cbn. rewrite Hl; lia. }
    exists (with_mem q m'). rewrite Hf by (done || lia). split; [exact E|].
    exists m'. split; [done|]. split; [by apply keeps_trans with m|].
    intros c Hc. change (with_mem q m') with (with_mem (with_mem q m) m').
    change (tidx q) with (tidx (with_mem q m)). rewrite W' by (cbn; rewrite ?Hl; lia).
    destruct (Z.eqb_spec c ch) as [->|]; [|apply W; lia].
    etrans; [|apply slice_all]. by rewrite Hl by lia.
  - exists m. split; [done|]. split; [done|]. intros c Hc. apply W. lia.
Qed.

Lemma fill_ok q n (rows : Z → list Z) (f : Z → tq → res tq) :
  wf q → 0 ≤ n ≤ queueLength q - cnt q → n ≤ maxThreshold q →
  (∀ c, 0 ≤ c < numChannels q → len (rows c) = n) →
  (∀ c m, 0 ≤ c < numChannels q → keeps q m →
    f c (with_mem q m) = store (with_mem q m) (addr q c (tidx q)) (rows c)) →
  ∃ q1 q2, for_loop (Z.to_nat (numChannels q)) 0 f q = Ok q1 ∧ Enqueue q1 n = Ok q2 ∧
    wf q2 ∧ same_shape q q2 ∧ cnt q2 = cnt q + n ∧ head q2 = head q ∧
    elementsEnqueued q2 = u64 (elementsEnqueued q + n) ∧
    elementsDequeued q2 = elementsDequeued q ∧
    ∀ c, 0 ≤ c < numChannels q → contents q2 c = contents q c ++ rows c.
Proof.
  intros Hq Hn HM Hl Hf.
  destruct (rows_loop_ok q n rows f Hq Hn HM Hl Hf) as (m & E & K & W).
  destruct (keeps_ok q m Hq K) as [Hq1 Hcon].
  destruct (tqb_Enqueue_ok (with_mem q m) n) as (q2 & E2 & Hq2 & Hs & HC & Hh & HE & HD & Hcon2);
    [done..|].
  exists (with_mem q m), q2. split_and!; try done.
  - by destruct Hs.
  - intros c Hc. rewrite Hcon2, Hcon by done. f_equal. by apply W.
Qed.

(** *** The copy of [Grow] *)

(** What is left of the old queue differs in its head only. *)
Record same_tail (old old' : tq) : Prop := {
  st_shape : same_shape old old';
  st_tail : tail old' = tail old;
  st_mem : mem old' = mem old;
  st_enqueued : elementsEnqueued old' = elementsEnqueued old;
  st_elem : elementSize old' = elementSize old;
  st_chan : chanOffset old' = chanOffset old;
  st_base : baseOffset old' = baseOffset old }.
#[global] Instance same_tail_refl : Reflexive same_tail.
Proof. by constructor. Qed.
#[global] Instance same_tail_trans : Transitive same_tail.
Proof. intros a b c [] []. constructor; [by etrans|congruence..]. Qed.

Lemma copy_channel_store old q m n c : wf q → wf old → keeps q m →
  numChannels q = numChannels old → 0 ≤ c < numChannels q →
  0 ≤ n ≤ cnt old → n ≤ maxThreshold old →
  n ≤ queueLength q - cnt q → n ≤ maxThreshold q →
  copy_channel n old c (with_mem q m) =
    store (with_mem q m) (addr q c (tidx q)) (slice (contents old c) 0 n).
Proof.
  intros Hq Ho K EN Hc Hn HM Hf HMq. destruct (keeps_ok q m Hq K) as [Hq' _].
  unfold copy_channel. rewrite tqb_GetRawDequeuePtr_ok by (done || lia). zdecide.
  cbn [mbind res_bind andb]. rewrite tqb_GetRawEnqueuePtr_ok by done.
  change (cnt (with_mem q m)) with (cnt q). cbn [with_mem with_tail queueLength maxThreshold].
  zdecide. cbn [mbind res_bind andb].
  change (elementSize (with_mem q m)) with (elementSize q).
  assert (elementSize q = 1) as -> by apply Hq.
  assert (queueLength old < 1152921504606846976) by apply Ho.
  pose proof (cnt_range old Ho). rewrite Z.mul_1_r, u64_id by lia.
  rewrite load_head by (done || lia). done.
Qed.

Lemma copy_step f q old n :
  wf q → wf old → numChannels q = numChannels old → 
  queueLength old ≤ queueLength q → maxThreshold old ≤ maxThreshold q →
  cnt q + cnt old ≤ queueLength old → 0 ≤ n ≤ cnt old → n ≤ maxThreshold old →
  (∀ c m, 0 ≤ c < numChannels q → keeps q m → f c (with_mem q m) =
     store (with_mem q m) (addr q c (tidx q)) (slice (contents old c) 0 n)) →
  ∃ q1 q2 old2, for_loop (Z.to_nat (numChannels q)) 0 f q = Ok q1 ∧
    Enqueue q1 n = Ok q2 ∧ Dequeue old n = Ok old2 ∧
    wf q2 ∧ wf old2 ∧ same_shape q q2 ∧ same_tail old old2 ∧
    cnt q2 = cnt q + n ∧ cnt old2 = cnt old - n ∧ head q2 = head q ∧ elementsDequeued q2 = elementsDequeued q ∧
    ∀ c, 0 ≤ c < numChannels q →
      contents q2 c ++ contents old2 c = contents q c ++ contents old c.
Proof.
  intros Hq Ho EN HL HM Hc Hn HMn Hst.
  destruct (fill_ok q n (λ c, slice (contents old c) 0 n) f)
    as (q1 & q2 & E1 & E2 & Hq2 & Hs & HC & Hh & _ & HD & Hcon); [done|lia|lia| |done|].
  { intros c Hcc. apply len_slice; rewrite ?tqb_contents_len; done || lia. }
  destruct (tqb_Dequeue_ok old n Ho Hn) as (old2 & E3 & Ho2 & Hs3 & HC3 & Ht3 & Hm3 & HE3 & HD3 & Hcon3).
  exists q1, q2, old2. split_and!; try done.
  - assert (elementSize old2 = elementSize old ∧ chanOffset old2 = chanOffset old ∧
      baseOffset old2 = baseOffset old) as (? & ? & ?); [|by constructor].
    unfold Dequeue in E3. destruct (sub_while _ _); [|done].
    cbn in E3. injection E3 as <-. done.
  - intros c Hcc. rewrite Hcon, Hcon3, <- app_assoc by done. f_equal.
    unfold slice. rewrite drop_0. apply take_drop.
Qed.

Lemma copy_loop_ok fuel : ∀ q old,
  wf q → wf old → numChannels q = numChannels old →
  queueLength old ≤ queueLength q → maxThreshold old ≤ maxThreshold q →
  cnt q + cnt old ≤ queueLength old → cnt old < Z.of_nat fuel →
  ∃ q' old', copy_loop fuel q old = Ok (q', old') ∧ wf q' ∧ wf old' ∧
    same_shape q q' ∧ same_tail old old' ∧ cnt q' = cnt q + cnt old ∧ cnt old' = 0 ∧
    elementsDequeued q' = elementsDequeued q ∧
    ∀ c, 0 ≤ c < numChannels q → contents q' c = contents q c ++ contents old c.
Proof.
  induction fuel as [|k IH]; intros q old Hq Ho EN HL HM Hc Hf.
  { pose proof (cnt_range old Ho). lia. }
  cbn [copy_loop]. rewrite Count_ok by done. cbn [mbind res_bind].
  pose proof (cnt_range old Ho).
  destruct (Z.eqb_spec (cnt old) 0) as [E0|Hne].
  - exists q, old. split_and!; try done; try lia. intros c Hcc.
    assert (contents old c = []) as ->; [|by rewrite app_nil_r].
    unfold contents. by rewrite E0.
  - set (n := if maxThreshold old <? cnt old then maxThreshold old else cnt old).
    assert (1 ≤ maxThreshold old) by apply Ho.
    assert (1 ≤ n ≤ cnt old ∧ n ≤ maxThreshold old) as [Hn Hn2] by (unfold n; zcases; lia).
    destruct (copy_step (copy_channel n old) q old n)
      as (q1 & q2 & old2 & E1 & E2 & E3 & Hq2 & Ho2 & Hs & Ht & HC & HC2 & _ & HD & Hcon);
      [done..|lia|done|intros; apply copy_channel_store; done || lia|].
    pose proof (st_shape _ _ Ht) as Hso. pose proof Hs as [SL SM SC SS SB Sb]. pose proof Hso as [OL OM OC _ _ _].
    destruct (IH q2 old2) as (q3 & old3 & E4 & Hq3 & Ho3 & Hs3 & Ht3 & HC3 & HC4 & HD3 & Hcon3);
      [done|done|lia|lia|lia|lia|lia|].
    exists q3, old3. fold n. rewrite E1. cbn [mbind res_bind]. rewrite E2. cbn [mbind res_bind].
    rewrite E3. cbn [mbind res_bind]. split_and!; try done; try lia.
    + by etrans.
    + by etrans.
    + intros c Hcc. rewrite Hcon3, Hcon by lia. done.
Qed.

Lemma wf_with_counts q e d : wf q → wf (with_counts q e d).
Proof. intros []. by constructor. Qed.

(** *** [AllocateBuf] *)
Section env_proofs.
Context (PageSize : Z) (Supported : bool) (HP : 0 < PageSize).

(** The sizes that are asked for are addressable, and the mirrors are no longer
    than the buffers. *)
Record alloc_fits (q : tq) (ql mt nc : Z) : Prop := {
  af_elem : elementSize q = 1;
  af_ql : 0 ≤ ql; af_mt : 0 ≤ mt;
  af_nc : 1 ≤ nc;
  af_co : 0 ≤ chanOffset q; af_bo : 0 ≤ baseOffset q;
  af_mirror : Z.max 1 mt - 1 + baseOffset q + (nc - 1) * chanOffset q ≤ Z.max ql (Z.max 1 mt);
  af_size : (2 * (Z.max ql (Z.max 1 mt) + PageSize) + chanOffset q) * nc + baseOffset q
              < 1152921504606846976 }.

(** An empty queue is well formed when its memory is laid out. *)
Lemma fresh_ok ql mt nc st co bo bs mb m :
  1 ≤ mt ≤ ql → 0 ≤ nc → ql < 1152921504606846976 → 0 ≤ st →
  bs + st * nc < 9223372036854775808 →
  let q := Reset (mk 1 0 0 ql mt nc st co bo 0 0 bs mb m) in
  layout q → wf q ∧ cnt q = 0.
Proof.
  intros Hm Hn Hq Hs Hb q HL. assert (cnt q = 0) as EC by done. split; [|done].
  constructor; rewrite ?EC; try done; try (cbn; lia).
  intros c k i _ Hk. rewrite EC in Hk. lia.
Qed.

Lemma AllocateBuf_ok q ql mt nc mb : alloc_fits q ql mt nc →
  let q' := AllocateBuf PageSize Supported q ql mt nc mb in
  (mb = false → mbs q = None) →
  (Supported = false → mbs q = None) →
  wf q' ∧ cnt q' = 0 ∧ numChannels q' = nc ∧ Z.max ql (Z.max 1 mt) ≤ queueLength q' ∧
  Z.max 1 mt ≤ maxThreshold q' ∧ queueLength q' < Z.max ql (Z.max 1 mt) + PageSize ∧
  elementsEnqueued q' = 0 ∧ elementsDequeued q' = 0 ∧
  elementSize q' = 1 ∧ chanOffset q' = chanOffset q ∧ baseOffset q' = baseOffset q ∧
  (is_Some (mbs q') ↔ mb && Supported = true).
Proof.
  intros [He Hql Hmt Hnc Hco Hbo Hmi Hsz] q' Hmb Hsup. subst q'. unfold AllocateBuf.
  replace (if mt <? 1 then 1 else mt) with (Z.max 1 mt) by (zcases; lia).
  set (M := Z.max 1 mt) in *.
  replace (if ql <? M then M else ql) with (Z.max ql M) by (zcases; lia).
  set (Q := Z.max ql M) in *. rewrite He.
  assert (0 ≤ (nc - 1) * chanOffset q) by nia.
  assert (2 * (Q + PageSize) + chanOffset q ≤ (2 * (Q + PageSize) + chanOffset q) * nc) by nia.
  assert ((nc - 1) * chanOffset q ≤ (2 * (Q + PageSize) + chanOffset q) * nc) by nia.
  assert (0 ≤ nc * chanOffset q ≤ (2 * (Q + PageSize) + chanOffset q) * nc) by nia.
  destruct (mb && Supported) eqn:Eb.
  - rewrite (u64_id (nc - 1)) by nia. rewrite !Z.mul_1_r.
    rewrite (u64_id (M - 1 + baseOffset q + _)), (u64_id Q) by lia.
    set (S := M - 1 + baseOffset q + (nc - 1) * chanOffset q) in *. rewrite (u64_id S) by lia.
    rewrite !Z.div_1_r. cbn [MBS.make MBS.bufferSize MBS.mirrorSize].
    destruct (MBS.round_up_spec PageSize Q) as [B1 _]; [done|lia|lia|].
    destruct (MBS.round_up_spec PageSize S) as [S1 _]; [done|lia|lia|].
    pose proof (MBS.round_up_le PageSize S Q HP ltac:(lia) ltac:(lia)) as B3.
    set (bs := MBS.round_up PageSize Q) in *. set (ms := MBS.round_up PageSize S) in *.
    assert ((bs + (ms + 1) - 1 + chanOffset q) * nc ≤ (2 * (Q + PageSize) + chanOffset q) * nc)
      by (apply Z.mul_le_mono_nonneg_r; lia).
    rewrite (u64_id (ms + 1)), (u64_id (bs + (ms + 1) - 1 + chanOffset q)) by lia.
    rewrite u64_id by lia.
    set (mt' := if bs <? _ then bs else _).
    assert (1 ≤ mt' ≤ bs ∧ mt' + baseOffset q + (nc - 1) * chanOffset q ≤ ms + 1 ∧ M ≤ mt')
      as (M1 & M2 & M3) by (unfold mt'; zcases; lia).
    set (z := zeros _).
    destruct (fresh_ok bs mt' nc (bs + (ms + 1) - 1 + chanOffset q) (chanOffset q) (baseOffset q)
      (baseOffset q) (Some (MBS.mk bs ms nc)) z) as [W C]; [lia..| |].
    { unfold layout. cbn [Reset mbs MBS.bufferSize MBS.numBuffers MBS.mirrorSize queueLength
        numChannels maxThreshold chanOffset baseOffset base channelStride mem].
      split_and!; try lia. apply len_zeros. apply Z.mul_nonneg_nonneg; cbn [MBS.bufferSize MBS.mirrorSize]; lia. }
    split; [exact W|]. split; [exact C|].
    cbn [Reset numChannels queueLength maxThreshold elementsEnqueued elementsDequeued
      elementSize chanOffset baseOffset mbs].
    split_and!; try lia. by split; [|by exists (MBS.mk bs ms nc)].
  - assert (mbs q = None) as Hnone.
    { destruct mb; [|by apply Hmb]. apply Hsup. by destruct Supported. }
    assert ((Q + M - 1) * nc ≤ (2 * (Q + PageSize) + chanOffset q) * nc)
      by (apply Z.mul_le_mono_nonneg_r; lia).
    assert (0 ≤ (Q + M - 1) * nc) by (apply Z.mul_nonneg_nonneg; lia).
    rewrite (u64_id (Q + M - 1)), Z.mul_1_r, u64_id by lia.
    set (z := zeros _).
    assert (len z = (Q + M - 1) * nc) as Lz by (apply len_zeros; lia).
    destruct (fresh_ok Q M nc (Q + M - 1) (chanOffset q) (baseOffset q) 0 None z) as [W C];
      [lia..| |].
    { unfold layout, row_len. cbn [Reset mbs queueLength numChannels maxThreshold base
        channelStride mem]. split_and!; [done|done|exact Lz]. }
    rewrite Hnone. split; [exact W|]. split; [exact C|].
    cbn [Reset numChannels queueLength maxThreshold elementsEnqueued elementsDequeued
      elementSize chanOffset baseOffset mbs].
    split_and!; try lia. by split; [intros []|].
Qed.

(** *** [Grow] *)
Lemma grow_copy_ok q ql mt :
  wf q → alloc_fits q (Z.max ql (queueLength q)) (Z.max mt (maxThreshold q)) (numChannels q) →
  (Supported = false → mbs q = None) →
  ∃ q' old', grow_copy PageSize Supported q ql mt = Ok (q', old') ∧ wf q' ∧ wf old' ∧
    same_tail q old' ∧ cnt q' = cnt q ∧ numChannels q' = numChannels q ∧
    Z.max ql (queueLength q) ≤ queueLength q' ∧ Z.max mt (maxThreshold q) ≤ maxThreshold q' ∧
    queueLength q' < Z.max (Z.max ql (queueLength q)) (Z.max mt (maxThreshold q)) + PageSize ∧
    (mbs q = None → mbs q' = None) ∧
    elementsEnqueued q' = elementsEnqueued q ∧ elementsDequeued q' = elementsDequeued q ∧
    (∀ c, 0 ≤ c < numChannels q → contents q' c = contents q c).
Proof.
  intros Hq Hf Hsup. unfold grow_copy, MaxThreshold, QueueLength.
  replace (if mt <=? maxThreshold q then maxThreshold q else mt)
    with (Z.max mt (maxThreshold q)) by (zcases; lia).
  replace (if ql <=? queueLength q then queueLength q else ql)
    with (Z.max ql (queueLength q)) by (zcases; lia).
  set (L := Z.max ql (queueLength q)) in *. set (T := Z.max mt (maxThreshold q)) in *.
  pose proof (w_thresh q Hq). pose proof (cnt_range q Hq).
  destruct (AllocateBuf_ok q L T (numChannels q) (bool_decide (is_Some (mbs q))) Hf)
    as (Hn & HC & HN & HL & HM & HU & HE & HD & He1 & Hco & Hbo & Hmb); [|done|].
  { intros Hb. apply bool_decide_eq_false in Hb. by destruct (mbs q); [destruct Hb|]. }
  set (n0 := AllocateBuf _ _ _ _ _ _ _) in *.
  set (n1 := with_counts n0 (elementsEnqueued n0) (elementsDequeued q)).
  pose proof (wf_with_counts n0 (elementsEnqueued n0) (elementsDequeued q) Hn) as Hn1.
  fold n1 in Hn1.
  assert (cnt n1 = 0) as HC1 by exact HC.
  destruct (copy_loop_ok (S (Z.to_nat (queueLength q))) n1 q)
    as (n2 & old' & E & Hn2 & Ho & [SL SM SC SS SB Sb] & Ht & HC2 & _ & HD2 & Hcon);
    [done|done|exact HN|cbn; lia|cbn; lia|lia|lia|].
  rewrite E. cbn [mbind res_bind]. cbn in SL, SM, SC.
  eexists _, old'. split; [done|]. split; [by apply wf_with_counts|].
  cbn [with_counts numChannels queueLength maxThreshold elementsEnqueued elementsDequeued].
  change (cnt (with_counts n2 (elementsEnqueued old') (elementsDequeued n2))) with (cnt n2).
  split_and!; try done; try lia.
  - intros Hnone. cbn. rewrite SB. cbn. rewrite Hnone in Hmb.
    destruct (mbs n0) eqn:En0; [|done]. exfalso. destruct Hmb as [Hmb _].
    specialize (Hmb ltac:(by eexists)). discriminate Hmb.
  - by rewrite (st_enqueued _ _ Ht).
  - intros c Hc. change (contents (with_counts n2 _ _) c) with (contents n2 c).
    rewrite Hcon by (cbn; lia).
    assert (contents n1 c = []) as -> by (unfold contents; by rewrite HC1).
    done.
Qed.

Lemma Grow_ok q ql mt : wf q → 0 ≤ mt →
  alloc_fits q (Z.max ql (queueLength q)) (Z.max mt (maxThreshold q)) (numChannels q) →
  (Supported = false → mbs q = None) →
  ∃ q', Grow PageSize Supported q ql mt = Ok q' ∧ wf q' ∧ cnt q' = cnt q ∧
    numChannels q' = numChannels q ∧
    Z.max ql (queueLength q) ≤ queueLength q' ∧ Z.max mt (maxThreshold q) ≤ maxThreshold q' ∧
    elementsEnqueued q' = elementsEnqueued q ∧ elementsDequeued q' = elementsDequeued q ∧
    (∀ c, 0 ≤ c < numChannels q → contents q' c = contents q c) ∧
    (ql ≤ queueLength q → mt ≤ maxThreshold q → q' = q).
Proof.
  intros Hq Hmt Hf Hsup. unfold Grow, MaxThreshold, QueueLength.
  pose proof (w_thresh q Hq).
  set (mt' := if mt =? 0 then maxThreshold q else mt).
  assert (Z.max mt' (maxThreshold q) = Z.max mt (maxThreshold q)) as EM
    by (unfold mt'; zcases; lia).
  destruct ((ql <=? queueLength q) && (mt' <=? maxThreshold q)) eqn:B.
  - rewrite andb_true_iff, !Z.leb_le in B. exists q. split_and!; try done; lia.
  - rewrite andb_false_iff, !Z.leb_gt in B.
    destruct (grow_copy_ok q ql mt' Hq) as (q' & old' & E & Hq' & _ & _ & HR); [by rewrite EM|done|].
    exists q'. rewrite E. cbn [mbind res_bind]. rewrite EM in HR.
    destruct HR as (? & ? & ? & ? & _ & _ & ? & ? & ?). split_and!; try done.
    intros ? ?. exfalso. unfold mt' in B. revert B. zcases; lia.
Qed.

Lemma make_attr_ok a :
  let boff := if a_useMBS a then a_baseOffset a `mod` PageSize / 1 else 0 in
  let coff := if a_useMBS a then a_chanOffset a / 1 else 0 in
  let b := blank 1 (a_queueLength a) (a_maxThreshold a) (a_numChannels a) coff boff in
  alloc_fits b (queueLength b) (maxThreshold b) (numChannels b) →
  let q := make_attr PageSize Supported 1 a in
  wf q ∧ cnt q = 0 ∧ numChannels q = a_numChannels a ∧
  a_queueLength a ≤ queueLength q ∧ a_maxThreshold a ≤ maxThreshold q ∧
  elementsEnqueued q = 0 ∧ elementsDequeued q = 0.
Proof.
  intros boff coff b Hf. unfold make_attr. fold boff coff b.
  destruct (AllocateBuf_ok b (queueLength b) (maxThreshold b) (numChannels b) (a_useMBS a) Hf)
    as (Hq & HC & HN & HL & HM & _ & HE & HD & _); [done|done|].
  split_and!; try done.
  - assert (a_queueLength a ≤ queueLength b); [|lia]. unfold b, blank; cbn. zcases; lia.
  - assert (a_maxThreshold a ≤ maxThreshold b); [|lia]. unfold b, blank; cbn. zcases; lia.
Qed.
End env_proofs.

(** ** The abstract queue and the refinement *)
Record fifo := mk_fifo {
  f_size : Z; f_thresh : Z; f_chans : Z; f_count : Z; f_bytes : Z → list Z }.

Inductive op :=
  | Put (n : Z) (rows : Z → list Z)   (** pointers for [n] bytes, stores, [Enqueue(n)] *)
  | Get (t n : Z)                     (** pointers to [t] bytes, loads, [Dequeue(n)] *)
  | GrowTo (queueLen maxThresh : Z)
  | ResetAll.
Inductive outcome := Done | Refused | Data (rows : list (list Z)).

Definition put_row (n : Z) (rows : Z → list Z) (c : Z) (q : tq) : res tq :=
  p ← GetRawEnqueuePtr q n c;
  match p with None => Err NullDeref | Some p => store q p (rows c) end.

Fixpoint get_rows (k : nat) (c t : Z) (q : tq) : res (list (list Z)) :=
  match k with
  | O => Ok []
  | S k =>
    p ← GetRawDequeuePtr q t c;
    match p with
    | None => Err NullDeref
    | Some p => d ← load q p t; ds ← get_rows k (c + 1) t q; Ok (d :: ds)
    end
  end.

Definition run_op (PageSize : Z) (Supported : bool) (q : tq) (o : op) : res (tq * outcome) :=
  match o with
  | Put n rows =>
    p ← GetRawEnqueuePtr q n 0;
    match p with
    | None => Ok (q, Refused)
    | Some _ =>
      q ← for_loop (Z.to_nat (numChannels q)) 0 (put_row n rows) q;
      q ← Enqueue q n; Ok (q, Done)
    end
  | Get t n =>
    p ← GetRawDequeuePtr q t 0;
    match p with
    | None => Ok (q, Refused)
    | Some _ =>
      ds ← get_rows (Z.to_nat (numChannels q)) 0 t q;
      q ← Dequeue q n; Ok (q, Data ds)
    end
  | GrowTo l t => q ← Grow PageSize Supported q l t; Ok (q, Done)
  | ResetAll => Ok (Reset q, Done)
  end.

(** The contract: a bounded FIFO per channel that never shrinks. *)
Inductive spec_step (f : fifo) : op → outcome → fifo → Prop :=
  | sp_put n rows : n ≤ f_size f - f_count f → n ≤ f_thresh f →
      spec_step f (Put n rows) Done
        (mk_fifo (f_size f) (f_thresh f) (f_chans f) (f_count f + n)
           (λ c, f_bytes f c ++ rows c))
  | sp_full n rows : f_size f - f_count f < n ∨ f_thresh f < n →
      spec_step f (Put n rows) Refused f
  | sp_get t n : t ≤ f_count f → t ≤ f_thresh f →
      spec_step f (Get t n) (Data ((λ c, take (Z.to_nat t) (f_bytes f c)) <$> seqZ 0 (f_chans f)))
        (mk_fifo (f_size f) (f_thresh f) (f_chans f) (f_count f - n)
           (λ c, drop (Z.to_nat n) (f_bytes f c)))
  | sp_empty t n : f_count f < t ∨ f_thresh f < t →
      spec_step f (Get t n) Refused f
  | sp_grow l t size thresh :
      Z.max l (f_size f) ≤ size → Z.max t (f_thresh f) ≤ thresh →
      (l ≤ f_size f → t ≤ f_thresh f → size = f_size f ∧ thresh = f_thresh f) →
      spec_step f (GrowTo l t) Done (mk_fifo size thresh (f_chans f) (f_count f) (f_bytes f))
  | sp_reset :
      spec_step f ResetAll Done (mk_fifo (f_size f) (f_thresh f) (f_chans f) 0 (λ _, [])).

Record refines (q : tq) (f : fifo) : Prop := {
  r_wf : wf q;
  r_size : f_size f = queueLength q;
  r_thresh : f_thresh f = maxThreshold q;
  r_chans : f_chans f = numChannels q;
  r_count : f_count f = cnt q;
  r_bytes : ∀ c, 0 ≤ c < numChannels q → f_bytes f c = contents q c }.

Definition legal (PageSize : Z) (Supported : bool) (q : tq) (o : op) : Prop :=
  1 ≤ numChannels q ∧
  match o with
  | Put n rows => 0 ≤ n ∧ ∀ c, 0 ≤ c < numChannels q → len (rows c) = n
  | Get t n => 0 ≤ n ≤ t
  | GrowTo l t =>
    0 < PageSize ∧ 0 ≤ t ∧ (Supported = false → mbs q = None) ∧
    alloc_fits PageSize q (Z.max l (queueLength q)) (Z.max t (maxThreshold q)) (numChannels q)
  | ResetAll => True
  end.

(** [Reset] keeps the memory and its layout, and drops what the queue holds. *)
Lemma Reset_ok q : wf q → wf (Reset q) ∧ cnt (Reset q) = 0.
Proof.
  intros []. assert (cnt (Reset q) = 0) as EC by done. split; [|done].
  constructor; rewrite ?EC; try done; try (cbn; lia).
  intros c k i _ Hk. rewrite EC in Hk. lia.
Qed.

Lemma tqb_get_rows_ok q t k : ∀ c, wf q → 0 ≤ c → c + Z.of_nat k ≤ numChannels q →
  0 ≤ t ≤ cnt q → t ≤ maxThreshold q →
  get_rows k c t q = Ok ((λ c, slice (contents q c) 0 t) <$> seqZ c (Z.of_nat k)).
Proof.
  induction k as [|k IH]; intros c Hq Hc Hk Ht HM; [done|]. cbn [get_rows].
  rewrite tqb_GetRawDequeuePtr_ok by (done || lia). zdecide. cbn [mbind res_bind].
  rewrite load_head by (done || lia). cbn [mbind res_bind].
  rewrite IH by (done || lia). cbn [mbind res_bind]. rewrite (seqZ_cons c) by lia.
  cbn [fmap list_fmap]. do 2 f_equal. f_equal. f_equal; lia.
Qed.

(** C2: every use a client makes of the pointers of a [ThresholdQueueBase] is
    what a bounded FIFO of bytes per channel allows, whether the queue lies in
    a mirrored set or in a block that it mirrors itself: a put is refused
    exactly when there is no room or the threshold is too large, a get returns
    the oldest bytes of each channel, [Grow] keeps them all, [Reset] drops them all,
    and no operation faults. *)
Theorem step_refines PageSize Supported q f o :
  refines q f → legal PageSize Supported q o →
  ∃ q' out f', run_op PageSize Supported q o = Ok (q', out) ∧ spec_step f o out f' ∧
    refines q' f'.
Proof.
  intros [Hq Es Et En Ec Eb] [Hn Hl]. destruct o as [n rows|t n|l t|]; cbn [run_op].
  - destruct Hl as [Hn0 Hlen]. rewrite tqb_GetRawEnqueuePtr_ok by (done || lia).
    cbn [mbind res_bind]. destruct ((n <=? _) && _) eqn:B.
    + rewrite andb_true_iff, !Z.leb_le in B.
      destruct (fill_ok q n rows (put_row n rows)) as (q1 & q2 & E1 & E2 & Hq2 & Hs & HC & _ & _ & _ & Hcon);
        [done|lia|lia|done| |].
      { intros c m Hc K. destruct (keeps_ok q m Hq K) as [Hq' _]. unfold put_row.
        rewrite tqb_GetRawEnqueuePtr_ok by done. change (cnt (with_mem q m)) with (cnt q).
        cbn [with_mem with_tail queueLength maxThreshold]. zdecide. done. }
      rewrite E1. cbn [mbind res_bind]. rewrite E2. cbn [mbind res_bind].
      eexists _, _, _. split; [done|]. split; [apply sp_put; lia|].
      destruct Hs as [SL SM SC _ _ _]. constructor; cbn; try done; try lia.
      intros c Hc. rewrite Hcon, Eb by lia. done.
    + rewrite andb_false_iff, !Z.leb_gt in B. eexists _, _, _. split; [done|].
      split; [apply sp_full; lia|]. by constructor.
  - rewrite tqb_GetRawDequeuePtr_ok by (done || lia).
    cbn [mbind res_bind]. destruct ((t <=? _) && _) eqn:B.
    + rewrite andb_true_iff, !Z.leb_le in B. rewrite tqb_get_rows_ok by (done || lia).
      destruct (tqb_Dequeue_ok q n Hq) as (q' & E & Hq' & [SL SM SC _ _ _] & HC & _ & _ & _ & _ & Hcon);
        [lia|].
      cbn [mbind res_bind]. rewrite E. cbn [mbind res_bind]. eexists _, _, _. split; [done|].
      split.
      * replace (slice (contents q 0) 0 t) with (slice (contents q 0) 0 t) by done.
        replace (_ <$> seqZ 0 (Z.of_nat _)) with
          ((λ c, take (Z.to_nat t) (f_bytes f c)) <$> seqZ 0 (f_chans f)).
        { apply sp_get; lia. }
        rewrite En, Z2Nat.id by lia. apply list_fmap_ext. intros i c Hc%lookup_seqZ.
        rewrite Eb by lia. unfold slice. by rewrite drop_0.
      * constructor; cbn; try done; try lia. intros c Hc. by rewrite Hcon, Eb by lia.
    + rewrite andb_false_iff, !Z.leb_gt in B. eexists _, _, _. split; [done|].
      split; [apply sp_empty; lia|]. by constructor.
  - destruct Hl as (HP & Ht & Hsup & Hf).
    destruct (Grow_ok PageSize Supported HP q l t Hq Ht Hf Hsup)
      as (q' & E & Hq' & HC & HN & HL & HM & _ & _ & Hcon & Hsame).
    rewrite E. cbn [mbind res_bind].
    eexists _, _, (mk_fifo (queueLength q') (maxThreshold q') (f_chans f) (f_count f) (f_bytes f)).
    split; [done|]. split.
    + apply sp_grow; [lia|lia|]. intros ? ?. rewrite Hsame by lia. by rewrite Es, Et.
    + constructor; cbn; try done; try lia. intros c Hc. rewrite Hcon, Eb by lia. done.
  - destruct (Reset_ok q Hq) as [Hq' HC]. eexists _, _, _. split; [done|]. split; [apply sp_reset|].
    by constructor.
Qed.

(** *** The queue as something to drain *)
#[global] Instance tq_dequeue_side : DequeueSide tq := {
  ds_chans := numChannels;
  ds_ptr q t c := p ← GetRawDequeuePtr q t c; Ok (p, q);
  ds_load := load; ds_dequeue := Dequeue }.

#[global] Program Instance tq_dequeue_laws : DequeueSideLaws tq := {
  ds_inv := wf; ds_count := cnt; ds_thresh := maxThreshold; ds_bytes := contents;
  ds_view q t c p := p = addr q c (hidx q) }.
Next Obligation. intros. by apply tqb_contents_len. Qed.
Next Obligation. cbn. intros q t c p Hq Hc Ht Hm ->. by apply load_head. Qed.
Next Obligation.
  cbn. intros q t c Hq Hc Ht Hm. rewrite tqb_GetRawDequeuePtr_ok by done. zdecide.
  cbn [mbind res_bind andb]. eexists _, q. by split_and!.
Qed.
Next Obligation.
  cbn. intros q n Hq Hn.
  destruct (tqb_Dequeue_ok q n Hq Hn) as (q' & E & Hq' & [SL SM SC _ _ _] & HC & _ & _ & _ & _ & Hcon).
  exists q'. split_and!; done.
Qed.

(** ** The theorem at a concrete queue: eight bytes in two pages of four *)
Definition example_attr : attr := mk_attr 5 2 2 true 0 0.
Definition example_queue : tq := make_attr 4 true 1 example_attr.
Lemma tqb_example_wf : wf example_queue ∧ cnt example_queue = 0.
Proof.
  destruct (make_attr_ok 4 true ltac:(lia) example_attr) as (H1 & H2 & _); [|by split].
  constructor; vm_compute; congruence.
Qed.
Lemma tqb_example_refines : refines example_queue (mk_fifo 8 5 2 0 (λ _, [])).
Proof. constructor; try done. apply tqb_example_wf. Qed.

Lemma step_refines_witness :
  ∃ q' out f', run_op 4 true example_queue (Put 3 (λ c, [c; 7; 9])) = Ok (q', out) ∧
    spec_step (mk_fifo 8 5 2 0 (λ _, [])) (Put 3 (λ c, [c; 7; 9])) out f' ∧ refines q' f'.
Proof.
  apply (step_refines 4 true example_queue _ (Put 3 (λ c, [c; 7; 9])) tqb_example_refines).
  split; [by vm_compute|]. split; [lia|]. intros c ?. reflexivity.
Defined.

End TQB.
