(* ===== verification/ThresholdQueue.v ===== *)
(** [libraries/CPN/ThresholdQueue]: the queue of the process network library,
    which can grow while its reader or its writer holds a pointer into it.

    A pointer is the block it leads into and an offset; growing moves the bytes
    to a new block and, when a pointer is out, keeps the old one for it.  The
    members [inenqueue] and [indequeue] belong to [QueueBase] and are arguments
    here. *)
From S2P Require Import Prelude.
From S2P Require Import MirrorBufferSet.
From S2P Require Import ThresholdQueueBase.
From S2P Require Import QueueInterface.

Module TQ.

Record ptr := mk_ptr { p_block : Z; p_off : Z }.

Record tqueue := mk {
  queue : TQB.tq;
  block : Z;                          (** the identity of [queue]'s memory *)
  oldqueue : option (TQB.tq * Z);
  fresh : Z;                          (** the next block [new] will give *)
  enqueueUseOld : bool;
  dequeueUseOld : bool }.

Definition set_queue (s : tqueue) q :=
  mk q (block s) (oldqueue s) (fresh s) (enqueueUseOld s) (dequeueUseOld s).
Definition set_old (s : tqueue) o :=
  mk (queue s) (block s) o (fresh s) (enqueueUseOld s) (dequeueUseOld s).

Section env.
Context (PageSize : Z) (Supported : bool).

(** [SimpleQueueAttr], as far as the constructor reads it. *)
Record queue_attr := mk_attr {
  a_length : Z; a_maxthreshold : Z; a_numchannels : Z; a_hint_threshold : bool }.

Definition make_length (a : queue_attr) (length : Z) : tqueue :=
  mk (TQB.make_attr PageSize Supported 1
        (TQB.mk_attr length (a_maxthreshold a) (a_numchannels a) (a_hint_threshold a) 0 0))
     0 None 1 false false.
Definition make (a : queue_attr) : tqueue := make_length a (a_length a).

(** [TQImpl::Grow]: the queue, and the duplicate of the old one. *)
Definition TQImpl_Grow (q : TQB.tq) (queueLen maxThresh : Z) (copy : bool)
    : res (TQB.tq * option TQB.tq) :=
  if (queueLen <=? TQB.QueueLength q) && (maxThresh <=? TQB.MaxThreshold q)
  then Ok (q, None) else
  '(q', oldQueue) ← TQB.grow_copy PageSize Supported q queueLen maxThresh;
  let oldQueue := TQB.with_head oldQueue (TQB.head q) (TQB.elementsDequeued oldQueue) in
  let oldQueue := TQB.with_tail oldQueue (TQB.tail q) (TQB.elementsEnqueued oldQueue)
                    (TQB.mem oldQueue) in
  Ok (q', if copy then Some oldQueue else None).

Definition InternalGetRawEnqueuePtr (inenqueue : bool) (s : tqueue) (thresh chan : Z)
    : res (option ptr) :=
  if enqueueUseOld s then
    assert inenqueue ;;
    match oldqueue s with
    | None => Err NullDeref
    | Some (old, b) =>
      ret ← TQB.GetRawEnqueuePtr old thresh chan;
      match ret with
      | None => Err AssertFailed
      | Some p => Ok (Some (mk_ptr b p))
      end
    end
  else
    ret ← TQB.GetRawEnqueuePtr (queue s) thresh chan;
    Ok (option_map (mk_ptr (block s)) ret).

Definition InternalGetRawDequeuePtr (indequeue : bool) (s : tqueue) (thresh chan : Z)
    : res (option ptr) :=
  if dequeueUseOld s then
    assert indequeue ;;
    match oldqueue s with
    | None => Err NullDeref
    | Some (old, b) =>
      ret ← TQB.GetRawDequeuePtr old thresh chan;
      match ret with
      | None => Err AssertFailed
      | Some p => Ok (Some (mk_ptr b p))
      end
    end
  else
    ret ← TQB.GetRawDequeuePtr (queue s) thresh chan;
    Ok (option_map (mk_ptr (block s)) ret).

(** A channel of the loop of [InternalEnqueue]. *)
Definition move_channel (count : Z) (old : TQB.tq) (chan : Z) (q : TQB.tq) : res TQB.tq :=
  src ← TQB.GetRawDequeuePtr old count chan;
  dst ← TQB.GetRawEnqueuePtr q count chan;
  match src, dst with
  | Some src, Some dst => bytes ← TQB.load old src count; TQB.store q dst bytes
  | _, _ => Err AssertFailed
  end.

(** [while ((count = oldqueue->Count()) != 0) { ... }] *)
Fixpoint move_loop (fuel : nat) (q old : TQB.tq) : res (TQB.tq * TQB.tq) :=
  match fuel with
  | O => Err Diverges
  | S k =>
    count ← TQB.Count old;
    let count := u32 count in
    if count =? 0 then Ok (q, old) else
    let count := if TQB.MaxThreshold old <? count then u32 (TQB.MaxThreshold old) else count in
    q ← for_loop (Z.to_nat (TQB.NumChannels q)) 0 (move_channel count old) q;
    q ← TQB.Enqueue q count;
    old ← TQB.Dequeue old count;
    move_loop k q old
  end.

Definition InternalEnqueue (s : tqueue) (count : Z) : res tqueue :=
  if enqueueUseOld s then
    match oldqueue s with
    | None => Err NullDeref
    | Some (old, b) =>
      c ← TQB.Count old;
      old ← TQB.Dequeue old c;
      old ← TQB.Enqueue old count;
      '(q, _) ← move_loop (S (Z.to_nat count)) (queue s) old;
      Ok (mk q (block s) None (fresh s) false (dequeueUseOld s))
    end
  else q ← TQB.Enqueue (queue s) count; Ok (set_queue s q).

Definition InternalDequeue (s : tqueue) (count : Z) : res tqueue :=
  let s := if dequeueUseOld s
           then mk (queue s) (block s) None (fresh s) (enqueueUseOld s) false else s in
  q ← TQB.Dequeue (queue s) count; Ok (set_queue s q).

Definition UnlockedNumChannels (s : tqueue) : Z := u32 (TQB.NumChannels (queue s)).
Definition UnlockedCount (s : tqueue) : res Z := c ← TQB.Count (queue s); Ok (u32 c).
Definition UnlockedEmpty (s : tqueue) : res bool := TQB.Empty (queue s).
Definition UnlockedFreespace (s : tqueue) : res Z := f ← TQB.Freespace (queue s); Ok (u32 f).
Definition UnlockedFull (s : tqueue) : res bool := TQB.Full (queue s).
Definition UnlockedMaxThreshold (s : tqueue) : Z := u32 (TQB.MaxThreshold (queue s)).
Definition UnlockedQueueLength (s : tqueue) : Z := u32 (TQB.QueueLength (queue s)).
Definition UnlockedNumEnqueued (s : tqueue) : Z := u32 (TQB.elementsEnqueued (queue s)).
Definition UnlockedNumDequeued (s : tqueue) : Z := u32 (TQB.elementsDequeued (queue s)).
Definition UnlockedEnqueueChannelStride (s : tqueue) : res Z :=
  if enqueueUseOld s then
    match oldqueue s with Some (o, _) => Ok (u32 (TQB.ChannelStride o)) | None => Err NullDeref end
  else Ok (u32 (TQB.ChannelStride (queue s))).
Definition UnlockedDequeueChannelStride (s : tqueue) : res Z :=
  if dequeueUseOld s then
    match oldqueue s with Some (o, _) => Ok (u32 (TQB.ChannelStride o)) | None => Err NullDeref end
  else Ok (u32 (TQB.ChannelStride (queue s))).

Definition UnlockedGrow (inenqueue indequeue : bool) (s : tqueue) (queueLen maxThresh : Z)
    : res tqueue :=
  if (queueLen <=? TQB.QueueLength (queue s)) && (maxThresh <=? TQB.MaxThreshold (queue s))
  then Ok s else
  assert (negb (inenqueue && indequeue)) ;;
  match oldqueue s with
  | Some old =>
    assert (Bool.eqb (enqueueUseOld s) inenqueue) ;;
    assert (Bool.eqb (dequeueUseOld s) indequeue) ;;
    '(q, _) ← TQImpl_Grow (queue s) queueLen maxThresh false;
    Ok (mk q (fresh s) (Some old) (fresh s + 1) (enqueueUseOld s) (dequeueUseOld s))
  | None =>
    if negb inenqueue && negb indequeue then
      '(q, _) ← TQImpl_Grow (queue s) queueLen maxThresh false;
      Ok (mk q (fresh s) None (fresh s + 1) (enqueueUseOld s) (dequeueUseOld s))
    else
      '(q, old) ← TQImpl_Grow (queue s) queueLen maxThresh true;
      Ok (mk q (fresh s) (option_map (λ o, (o, block s)) old) (fresh s + 1)
            (match old with None => false | Some _ => inenqueue end) indequeue)
  end.

(** Accesses of the node through its pointers; a freed block faults. *)
Definition ptr_load (s : tqueue) (p : ptr) (n : Z) : res (list Z) :=
  if p_block p =? block s then TQB.load (queue s) (p_off p) n else
  match oldqueue s with
  | Some (old, b) => if p_block p =? b then TQB.load old (p_off p) n else Err NullDeref
  | None => Err NullDeref
  end.
Definition ptr_store (s : tqueue) (p : ptr) (d : list Z) : res tqueue :=
  if p_block p =? block s then q ← TQB.store (queue s) (p_off p) d; Ok (set_queue s q) else
  match oldqueue s with
  | Some (old, b) =>
    if p_block p =? b then o ← TQB.store old (p_off p) d; Ok (set_old s (Some (o, b)))
    else Err NullDeref
  | None => Err NullDeref
  end.
End env.

(** ** The invariant *)

(** The queue the writer's pointers lead into, and the reader's. *)
Definition wqueue (s : tqueue) : TQB.tq * Z :=
  match enqueueUseOld s, oldqueue s with
  | true, Some o => o | _, _ => (queue s, block s)
  end.
Definition rqueue (s : tqueue) : TQB.tq * Z :=
  match dequeueUseOld s, oldqueue s with
  | true, Some o => o | _, _ => (queue s, block s)
  end.

Definition room (q : TQB.tq) : Z :=
  Z.min (TQB.queueLength q - TQB.cnt q) (TQB.maxThreshold q).
Definition avail (q : TQB.tq) : Z := Z.min (TQB.cnt q) (TQB.maxThreshold q).
Definition pending (q : TQB.tq) (c : Z) : list Z := TQB.window q c (TQB.tidx q) (room q).

(** What holds of an old queue that is kept for a pointer. *)
Record kept (ie id : bool) (s : tqueue) (o : TQB.tq) (b : Z) : Prop := {
  k_wf : TQB.wf o;
  k_block : b ≠ block s ∧ b < fresh s;
  k_chans : TQB.numChannels o = TQB.numChannels (queue s);
  k_length : TQB.queueLength o ≤ TQB.queueLength (queue s);
  k_thresh : TQB.maxThreshold o ≤ TQB.maxThreshold (queue s);
  k_user :
    (enqueueUseOld s = true ∧ dequeueUseOld s = false ∧ ie = true ∧
     TQB.cnt (queue s) ≤ TQB.cnt o) ∨
    (enqueueUseOld s = false ∧ dequeueUseOld s = true ∧ id = true ∧
     TQB.cnt o ≤ TQB.cnt (queue s) ∧
     ∀ c, 0 ≤ c < TQB.numChannels o →
       take (Z.to_nat (TQB.cnt o)) (TQB.contents (queue s) c) = TQB.contents o c) }.

Record inv (Supported : bool) (ie id : bool) (s : tqueue) : Prop := {
  i_wf : TQB.wf (queue s);
  i_small : TQB.queueLength (queue s) < 2147483648;
  i_chans : 1 ≤ TQB.numChannels (queue s) < 2147483648;
  i_fresh : block s < fresh s;
  i_supported : Supported = false → TQB.mbs (queue s) = None;
  i_old : match oldqueue s with
          | None => enqueueUseOld s = false ∧ dequeueUseOld s = false
          | Some (o, b) => kept ie id s o b
          end }.

Definition can_grow (PageSize : Z) (s : tqueue) (l t : Z) : Prop :=
  let q := queue s in
  let l' := Z.max l (TQB.queueLength q) in let t' := Z.max t (TQB.maxThreshold q) in
  TQB.alloc_fits PageSize q l' t' (TQB.numChannels q) ∧
  Z.max l' t' + PageSize < 2147483648.

Lemma wqueue_cases Supported ie id s : inv Supported ie id s →
  (∃ o b, oldqueue s = Some (o, b) ∧ enqueueUseOld s = true ∧ dequeueUseOld s = false ∧
     ie = true ∧ wqueue s = (o, b) ∧ kept ie id s o b ∧
     TQB.cnt (queue s) ≤ TQB.cnt o) ∨
  enqueueUseOld s = false ∧ wqueue s = (queue s, block s).
Proof.
  intros [_ _ _ _ _ Hold]. unfold wqueue. destruct (oldqueue s) as [[o b]|].
  - pose proof (k_user _ _ _ _ _ Hold) as [(-> & ? & ? & ?)|(-> & _)]; [left|by right].
    exists o, b. by split_and!.
  - right. by destruct Hold as [-> _].
Qed.

Lemma rqueue_cases Supported ie id s : inv Supported ie id s →
  (∃ o b, oldqueue s = Some (o, b) ∧ dequeueUseOld s = true ∧ enqueueUseOld s = false ∧
     id = true ∧ rqueue s = (o, b) ∧ kept ie id s o b ∧ TQB.cnt o ≤ TQB.cnt (queue s) ∧
     ∀ c, 0 ≤ c < TQB.numChannels o →
       take (Z.to_nat (TQB.cnt o)) (TQB.contents (queue s) c) = TQB.contents o c) ∨
  dequeueUseOld s = false ∧ rqueue s = (queue s, block s).
Proof.
  intros [_ _ _ _ _ Hold]. unfold rqueue. destruct (oldqueue s) as [[o b]|].
  - pose proof (k_user _ _ _ _ _ Hold) as [(_ & -> & _)|(? & -> & ? & ? & ?)]; [by right|left].
    exists o, b. by split_and!.
  - right. by destruct Hold as [_ ->].
Qed.

Lemma wqueue_facts Supported ie id s : inv Supported ie id s →
  let q := (wqueue s).1 in
  TQB.wf q ∧ TQB.numChannels q = TQB.numChannels (queue s) ∧
  TQB.queueLength q - TQB.cnt q ≤ TQB.queueLength (queue s) - TQB.cnt (queue s) ∧
  TQB.maxThreshold q ≤ TQB.maxThreshold (queue s) ∧
  TQB.queueLength q ≤ TQB.queueLength (queue s) ∧
  (ie = false → wqueue s = (queue s, block s) ∧ enqueueUseOld s = false).
Proof.
  intros Hs. pose proof (i_wf _ _ _ _ Hs).
  destruct (wqueue_cases _ _ _ _ Hs) as [(o & b & _ & _ & _ & -> & -> & [] & ?)|[? ->]];
    cbn; split_and!; done || lia.
Qed.

Lemma rqueue_facts Supported ie id s : inv Supported ie id s →
  let q := (rqueue s).1 in
  TQB.wf q ∧ TQB.numChannels q = TQB.numChannels (queue s) ∧
  TQB.cnt q ≤ TQB.cnt (queue s) ∧ TQB.maxThreshold q ≤ TQB.maxThreshold (queue s) ∧
  (∀ c, 0 ≤ c < TQB.numChannels (queue s) →
     take (Z.to_nat (TQB.cnt q)) (TQB.contents (queue s) c) = TQB.contents q c) ∧
  (id = false → rqueue s = (queue s, block s) ∧ dequeueUseOld s = false).
Proof.
  intros Hs. pose proof (i_wf _ _ _ _ Hs) as Hq.
  destruct (rqueue_cases _ _ _ _ Hs) as [(o & b & _ & _ & _ & -> & -> & [] & Hc & Hp)|[? ->]];
    cbn; split_and!; try done; try lia.
  - intros c Hcc. apply Hp. lia.
  - intros c Hc. apply take_ge. pose proof (TQB.tqb_contents_len (queue s) c Hq).
    unfold len in *. lia.
Qed.

(** ** Operations *)
Section proofs.
Context (PageSize : Z) (Supported : bool) (HP : 0 < PageSize).

Lemma move_channel_store old q m n c : TQB.wf q → TQB.wf old → TQB.keeps q m →
  TQB.numChannels q = TQB.numChannels old → 0 ≤ c < TQB.numChannels q →
  0 ≤ n ≤ TQB.cnt old → n ≤ TQB.maxThreshold old →
  n ≤ TQB.queueLength q - TQB.cnt q → n ≤ TQB.maxThreshold q →
  move_channel n old c (TQB.with_mem q m) =
    TQB.store (TQB.with_mem q m) (TQB.addr q c (TQB.tidx q)) (slice (TQB.contents old c) 0 n).
Proof.
  intros Hq Ho K EN Hc Hn HM Hf HMq. destruct (TQB.keeps_ok q m Hq K) as [Hq' _].
  unfold move_channel. rewrite TQB.tqb_GetRawDequeuePtr_ok by (done || lia). zdecide.
  cbn [mbind res_bind andb]. rewrite TQB.tqb_GetRawEnqueuePtr_ok by done.
  change (TQB.cnt (TQB.with_mem q m)) with (TQB.cnt q).
  cbn [TQB.with_mem TQB.with_tail TQB.queueLength TQB.maxThreshold].
  zdecide. cbn [mbind res_bind andb]. rewrite TQB.load_head by (done || lia). done.
Qed.

Lemma move_loop_ok fuel : ∀ q old,
  TQB.wf q → TQB.wf old → TQB.numChannels q = TQB.numChannels old →
  TQB.queueLength old ≤ TQB.queueLength q → TQB.maxThreshold old ≤ TQB.maxThreshold q →
  TQB.cnt q + TQB.cnt old ≤ TQB.queueLength old → TQB.queueLength old < 2147483648 →
  TQB.cnt old < Z.of_nat fuel →
  ∃ q' old', move_loop fuel q old = Ok (q', old') ∧ TQB.wf q' ∧ TQB.same_shape q q' ∧
    TQB.cnt q' = TQB.cnt q + TQB.cnt old ∧ TQB.head q' = TQB.head q ∧
    ∀ c, 0 ≤ c < TQB.numChannels q → TQB.contents q' c = TQB.contents q c ++ TQB.contents old c.
Proof.
  induction fuel as [|k IH]; intros q old Hq Ho EN HL HM Hc Hsm Hf.
  { pose proof (TQB.cnt_range old Ho). lia. }
  cbn [move_loop]. rewrite TQB.Count_ok by done. cbn [mbind res_bind].
  pose proof (TQB.cnt_range old Ho). pose proof (TQB.w_thresh old Ho).
  unfold TQB.MaxThreshold. rewrite (u32_id (TQB.cnt old)), (u32_id (TQB.maxThreshold old)) by lia.
  destruct (Z.eqb_spec (TQB.cnt old) 0) as [E0|Hne].
  - exists q, old. split_and!; try done; try lia. intros c Hcc.
    assert (TQB.contents old c = []) as ->; [|by rewrite app_nil_r].
    unfold TQB.contents. by rewrite E0.
  - set (n := if TQB.maxThreshold old <? TQB.cnt old then _ else _).
    assert (1 ≤ n ≤ TQB.cnt old ∧ n ≤ TQB.maxThreshold old) as [Hn Hn2] by (unfold n; zcases; lia).
    destruct (TQB.copy_step (move_channel n old) q old n)
      as (q1 & q2 & old2 & E1 & E2 & E3 & Hq2 & Ho2 & Hs & Ht & HC & HC2 & Hh & HD & Hcon);
      [done..|lia|done|intros; apply move_channel_store; done || lia|].
    pose proof Hs as [SL SM SC _ _ _]. pose proof (TQB.st_shape _ _ Ht) as [OL OM OC _ _ _].
    destruct (IH q2 old2) as (q3 & old3 & E4 & Hq3 & Hs3 & HC3 & Hh3 & Hcon3);
      [done|done|lia..|].
    exists q3, old3. unfold TQB.NumChannels. rewrite E1. cbn [mbind res_bind].
    rewrite E2. cbn [mbind res_bind]. rewrite E3. cbn [mbind res_bind].
    split_and!; try done; try lia.
    + by etrans.
    + intros c Hcc. rewrite Hcon3, Hcon by lia. done.
Qed.

(** The duplicate that [TQImpl::Grow] returns is the queue it grew, but for a
    count of what the copy took from it. *)
Lemma restored q old d : TQB.same_tail q old →
  let o := TQB.with_head old (TQB.head q) d in
  TQB.with_tail o (TQB.tail q) (TQB.elementsEnqueued o) (TQB.mem o) = TQB.with_counts q (TQB.elementsEnqueued q) d.
Proof.
  destruct q, old. intros [[] ]. cbn in *. subst. unfold TQB.with_tail, TQB.with_counts. cbn.
  done.
Qed.

Lemma TQImpl_Grow_ok q l t copy :
  TQB.wf q → TQB.queueLength q < l ∨ TQB.maxThreshold q < t →
  TQB.alloc_fits PageSize q (Z.max l (TQB.queueLength q)) (Z.max t (TQB.maxThreshold q))
    (TQB.numChannels q) →
  (Supported = false → TQB.mbs q = None) →
  ∃ q' old, TQImpl_Grow PageSize Supported q l t copy = Ok (q', if copy then Some old else None) ∧
    TQB.wf q' ∧ TQB.cnt q' = TQB.cnt q ∧ TQB.numChannels q' = TQB.numChannels q ∧
    Z.max l (TQB.queueLength q) ≤ TQB.queueLength q' ∧
    Z.max t (TQB.maxThreshold q) ≤ TQB.maxThreshold q' ∧
    TQB.queueLength q' < Z.max (Z.max l (TQB.queueLength q)) (Z.max t (TQB.maxThreshold q))
      + PageSize ∧
    (TQB.mbs q = None → TQB.mbs q' = None) ∧
    (∀ c, 0 ≤ c < TQB.numChannels q → TQB.contents q' c = TQB.contents q c) ∧
    ∃ d, old = TQB.with_counts q (TQB.elementsEnqueued q) d.
Proof.
  intros Hq Hg Hf Hsup. unfold TQImpl_Grow, TQB.QueueLength, TQB.MaxThreshold.
  replace (_ && _) with false by (symmetry; rewrite andb_false_iff, !Z.leb_gt; tauto).
  destruct (TQB.grow_copy_ok PageSize Supported HP q l t Hq Hf Hsup)
    as (q' & old' & E & Hq' & _ & Ht & HC & HN & HL & HM & HU & Hmb & _ & _ & Hcon).
  rewrite E. cbn [mbind res_bind]. rewrite (restored q) by done.
  eexists _, _. split; [done|]. split_and!; try done. by eexists.
Qed.

(** *** The contract of [QueueBase] *)
Instance tq_raw : RawQueue tqueue ptr := {
  rq_NumChannels := UnlockedNumChannels; rq_Count := UnlockedCount;
  rq_Freespace := UnlockedFreespace; rq_MaxThreshold := UnlockedMaxThreshold;
  rq_QueueLength := UnlockedQueueLength;
  rq_GetRawDequeuePtr := InternalGetRawDequeuePtr; rq_Dequeue := InternalDequeue;
  rq_GetRawEnqueuePtr := InternalGetRawEnqueuePtr; rq_Enqueue := InternalEnqueue;
  rq_Grow := UnlockedGrow PageSize Supported;
  ptr_load := TQ.ptr_load; ptr_store := TQ.ptr_store }.

Definition wview (s : tqueue) (c : Z) (p : ptr) : Prop :=
  let '(q, b) := wqueue s in p = mk_ptr b (TQB.addr q c (TQB.tidx q)).
Definition rview (s : tqueue) (c : Z) (p : ptr) : Prop :=
  let '(q, b) := rqueue s in p = mk_ptr b (TQB.addr q c (TQB.hidx q)).

Lemma sizes ie id s : inv Supported ie id s →
  UnlockedNumChannels s = TQB.numChannels (queue s) ∧
  UnlockedMaxThreshold s = TQB.maxThreshold (queue s) ∧
  UnlockedQueueLength s = TQB.queueLength (queue s).
Proof.
  intros [Hq Hs Hc _ _ _]. pose proof (TQB.w_thresh _ Hq).
  unfold UnlockedNumChannels, UnlockedMaxThreshold, UnlockedQueueLength, TQB.NumChannels,
    TQB.MaxThreshold, TQB.QueueLength. words. done.
Qed.

Lemma room_bounds q : TQB.wf q → 0 ≤ room q ≤ TQB.queueLength q - TQB.cnt q ∧ room q ≤ TQB.maxThreshold q.
Proof. intros Hq. pose proof (TQB.cnt_range q Hq). pose proof (TQB.w_thresh q Hq). unfold room. lia. Qed.
Lemma avail_bounds q : TQB.wf q → 0 ≤ avail q ≤ TQB.cnt q ∧ avail q ≤ TQB.maxThreshold q.
Proof. intros Hq. pose proof (TQB.cnt_range q Hq). pose proof (TQB.w_thresh q Hq). unfold avail. lia. Qed.

Lemma pending_len q c : TQB.wf q → len (pending q c) = room q.
Proof. intros Hq. pose proof (room_bounds q Hq). unfold pending, TQB.window. by autorewrite with bytes. Qed.

Lemma enq_ptr_ok ie id s t c : inv Supported ie id s → 0 ≤ c < TQB.numChannels (queue s) →
  t ≤ room (wqueue s).1 →
  ∃ p, InternalGetRawEnqueuePtr ie s t c = Ok (Some p) ∧ wview s c p.
Proof.
  intros Hs Hc Ht. destruct (wqueue_facts _ _ _ _ Hs) as (Hw & EC & _ & _ & _ & _).
  destruct (room_bounds _ Hw) as [Hr1 Hr2]. unfold InternalGetRawEnqueuePtr, wview.
  destruct (wqueue_cases _ _ _ _ Hs) as [(o & b & -> & -> & _ & -> & Ew & _)|[-> Ew]];
    rewrite Ew in *; cbn [fst assert mbind res_bind] in *;
    rewrite TQB.tqb_GetRawEnqueuePtr_ok by (done || lia); zdecide; cbn; by eexists.
Qed.

Lemma deq_ptr_ok ie id s t c : inv Supported ie id s → 0 ≤ c < TQB.numChannels (queue s) →
  t ≤ avail (rqueue s).1 →
  ∃ p, InternalGetRawDequeuePtr id s t c = Ok (Some p) ∧ rview s c p.
Proof.
  intros Hs Hc Ht. destruct (rqueue_facts _ _ _ _ Hs) as (Hw & EC & _ & _ & _ & _).
  destruct (avail_bounds _ Hw) as [Hr1 Hr2]. unfold InternalGetRawDequeuePtr, rview.
  destruct (rqueue_cases _ _ _ _ Hs) as [(o & b & -> & -> & _ & -> & Ew & _)|[-> Ew]];
    rewrite Ew in *; cbn [fst assert mbind res_bind] in *;
    rewrite TQB.tqb_GetRawDequeuePtr_ok by (done || lia); zdecide; cbn; by eexists.
Qed.

Lemma tq_load_ok ie id s c p t : inv Supported ie id s → 0 ≤ c < TQB.numChannels (queue s) →
  rview s c p → 0 ≤ t ≤ avail (rqueue s).1 →
  ptr_load s p t = Ok (take (Z.to_nat t) (TQB.contents (queue s) c)).
Proof.
  intros Hs Hc Hp Ht. destruct (rqueue_facts _ _ _ _ Hs) as (Hw & EC & HC & _ & Hpre & _).
  destruct (avail_bounds _ Hw) as [Hr1 Hr2].
  assert (TQB.load (rqueue s).1 (TQB.addr (rqueue s).1 c (TQB.hidx (rqueue s).1)) t =
    Ok (take (Z.to_nat t) (TQB.contents (queue s) c))) as EL.
  { rewrite TQB.load_head by (done || lia). f_equal. rewrite <- Hpre by done.
    unfold slice. rewrite drop_0, take_take. f_equal. lia. }
  unfold rview, TQ.ptr_load in *.
  destruct (rqueue_cases _ _ _ _ Hs) as [(o & b & EO & _ & _ & _ & Ew & [_ [Hb _] _ _ _ _] & _)|[_ Ew]];
    rewrite Ew in *; subst p; cbn [fst p_block p_off] in *.
  - rewrite (proj2 (Z.eqb_neq _ _) Hb), EO, Z.eqb_refl. done.
  - by rewrite Z.eqb_refl.
Qed.

(** A store by the writer leaves both queues as they were, but for what lies
    beyond the tail of the one it goes to. *)
Lemma tq_store_ok ie id s c p d : inv Supported ie id s → 0 ≤ c < TQB.numChannels (queue s) →
  wview s c p → len d ≤ room (wqueue s).1 →
  ∃ s' m, ptr_store s p d = Ok s' ∧ TQB.keeps (wqueue s).1 m ∧
    s' = (match enqueueUseOld s, oldqueue s with
          | true, Some (o, b) => set_old s (Some (TQB.with_mem o m, b))
          | _, _ => set_queue s (TQB.with_mem (queue s) m)
          end) ∧
    ∀ c', 0 ≤ c' < TQB.numChannels (queue s) →
      TQB.window (TQB.with_mem (wqueue s).1 m) c' (TQB.tidx (wqueue s).1) (room (wqueue s).1) =
      if c' =? c then d ++ drop (length d) (pending (wqueue s).1 c) else pending (wqueue s).1 c'.
Proof.
  intros Hs Hc Hp Hd. destruct (wqueue_facts _ _ _ _ Hs) as (Hw & EC & _ & _ & _ & _).
  destruct (room_bounds _ Hw) as [Hr1 Hr2].
  destruct (TQB.poke_cells (wqueue s).1 c d Hw) as (m & E & K & W); [lia|lia|lia|].
  assert (∀ c', 0 ≤ c' < TQB.numChannels (queue s) →
      TQB.window (TQB.with_mem (wqueue s).1 m) c' (TQB.tidx (wqueue s).1) (room (wqueue s).1) =
      if c' =? c then d ++ drop (length d) (pending (wqueue s).1 c)
      else pending (wqueue s).1 c') as W' by (intros c' Hc'; apply W; lia).
  clear W. unfold wview, TQ.ptr_store in *.
  destruct (wqueue_cases _ _ _ _ Hs) as [(o & b & -> & -> & _ & _ & Ew & [_ [Hb _] _ _ _ _] & _)|[-> Ew]];
    rewrite Ew in *; subst p; cbn [fst p_block p_off] in *.
  - rewrite (proj2 (Z.eqb_neq _ _) Hb), Z.eqb_refl, E. by eexists _, m.
  - rewrite Z.eqb_refl, E. by eexists _, m.
Qed.

(** What the operations of one side leave to the other. *)
Definition same_writer (s s' : tqueue) : Prop :=
  room (wqueue s').1 = room (wqueue s).1 ∧ (∀ c p, wview s c p → wview s' c p).
Definition same_reader (s s' : tqueue) : Prop :=
  avail (rqueue s').1 = avail (rqueue s).1 ∧ (∀ c p, rview s c p → rview s' c p).

Lemma store_keeps ie id s c p d : inv Supported ie id s → 0 ≤ c < TQB.numChannels (queue s) →
  wview s c p → len d ≤ room (wqueue s).1 →
  ∃ s', ptr_store s p d = Ok s' ∧ inv Supported ie id s' ∧
    TQB.same_shape (queue s) (queue s') ∧ TQB.cnt (queue s') = TQB.cnt (queue s) ∧
    same_writer s s' ∧ same_reader s s' ∧
    ∀ c', 0 ≤ c' < TQB.numChannels (queue s) →
      TQB.contents (queue s') c' = TQB.contents (queue s) c' ∧
      pending (wqueue s').1 c' = if c' =? c then d ++ drop (length d) (pending (wqueue s).1 c)
                                 else pending (wqueue s).1 c'.
Proof.
  intros Hs Hc Hp Hd. destruct (tq_store_ok ie id s c p d Hs Hc Hp Hd) as (s' & m & E & K & Es & W).
  destruct (wqueue_facts _ _ _ _ Hs) as (Hw & _).
  destruct (TQB.keeps_ok _ m Hw K) as [Hw' Hcon'].
  exists s'. split; [done|].
  pose proof (rqueue_cases _ _ _ _ Hs) as Hr. pose proof (wqueue_cases _ _ _ _ Hs) as Hwc.
  destruct Hs as [Hq Hsm Hch Hfr Hsup Hold].
  destruct Hwc as [(o & b & EO & EU & EUd & -> & Ew & Hk & Hc1)|[EU Ew]].
  - rewrite EU, EO in Es. rewrite Ew in *. cbn [fst] in *. subst s'.
    destruct Hr as [(? & ? & ? & ? & _)|[_ Er]]; [congruence|].
    assert (wqueue (set_old s (Some (TQB.with_mem o m, b))) = (TQB.with_mem o m, b)) as Ew'
      by (unfold wqueue; cbn; by rewrite EU).
    assert (rqueue (set_old s (Some (TQB.with_mem o m, b))) = (queue s, block s)) as Er'
      by (unfold rqueue; cbn; by rewrite EUd).
    unfold same_writer, same_reader, wview, rview. rewrite Ew, Ew', Er, Er'. cbn [fst].
    split_and!; try done.
    + constructor; try done. cbn. destruct Hk as [? ? ? ? ? Hu]. constructor; try done. cbn.
      left. by split_and!.
    + intros c' Hc'. split; [done|]. by apply W.
  - rewrite EU in Es. rewrite Ew in *. cbn [fst] in *. subst s'.
    assert (wqueue (set_queue s (TQB.with_mem (queue s) m)) = (TQB.with_mem (queue s) m, block s))
      as Ew' by (unfold wqueue; cbn; by rewrite EU).
    split.
    { constructor; try done. cbn. destruct (oldqueue s) as [[o b]|]; [|done].
      destruct Hold as [? ? ? ? ? Hu]. constructor; try done. cbn.
      destruct Hu as [?|(? & ? & ? & ? & Hpre)]; [by left|right]. split_and!; try done.
      intros c' Hc'. rewrite Hcon' by lia. by apply Hpre. }
    split; [done|]. split; [done|]. split.
    { unfold same_writer, wview. by rewrite Ew, Ew'. }
    split.
    { unfold same_reader, rview.
      destruct Hr as [(o & b & EO & EU' & _ & _ & Er & _)|[EU' Er]].
      - assert (rqueue (set_queue s (TQB.with_mem (queue s) m)) = (o, b)) as ->
          by (unfold rqueue; cbn; by rewrite EU', EO). by rewrite Er.
      - assert (rqueue (set_queue s (TQB.with_mem (queue s) m)) =
          (TQB.with_mem (queue s) m, block s)) as -> by (unfold rqueue; cbn; by rewrite EU').
        by rewrite Er. }
    intros c' Hc'. rewrite Ew'. cbn [fst]. split; [by apply Hcon'|]. by apply W.
Qed.

Lemma enqueue_ok ie id s n : inv Supported ie id s → 0 ≤ n ≤ room (wqueue s).1 →
  ∃ s', InternalEnqueue s n = Ok s' ∧ inv Supported false id s' ∧
    TQB.same_shape (queue s) (queue s') ∧ TQB.cnt (queue s') = TQB.cnt (queue s) + n ∧
    avail (rqueue s).1 ≤ avail (rqueue s').1 ∧ (∀ c p, rview s c p → rview s' c p) ∧
    ∀ c, 0 ≤ c < TQB.numChannels (queue s) →
      TQB.contents (queue s') c =
        TQB.contents (queue s) c ++ take (Z.to_nat n) (pending (wqueue s).1 c).
Proof.
  intros Hs Hn. destruct (wqueue_facts _ _ _ _ Hs) as (Hw & ENw & Hfw & HMw & HLw & _).
  destruct (room_bounds _ Hw) as [Hr1 Hr2].
  pose proof (rqueue_cases _ _ _ _ Hs) as Hr. pose proof (wqueue_cases _ _ _ _ Hs) as Hwc.
  destruct Hs as [Hq Hsm Hch Hfr Hsup Hold]. pose proof (TQB.cnt_range _ Hq).
  unfold InternalEnqueue.
  destruct Hwc as [(o & b & EO & EU & EUd & -> & Ew & Hk & Hc1)|[EU Ew]].
  - rewrite EU, EO. rewrite Ew in *. cbn [fst] in *.
    pose proof (TQB.cnt_range o Hw).
    rewrite TQB.Count_ok by done. cbn [mbind res_bind].
    destruct (TQB.tqb_Dequeue_ok o (TQB.cnt o) Hw) as (o1 & E1 & Ho1 & S1 & C1 & T1 & M1 & _ & _ & D1);
      [lia|]. rewrite E1. cbn [mbind res_bind].
    pose proof S1 as [SL SM SC _ _ _].
    destruct (TQB.tqb_Enqueue_ok o1 n Ho1) as (o2 & E2 & Ho2 & S2 & C2 & _ & _ & _ & D2); [lia|lia|].
    rewrite E2. cbn [mbind res_bind]. pose proof S2 as [SL2 SM2 SC2 _ _ _].
    destruct (move_loop_ok (S (Z.to_nat n)) (queue s) o2) as (q' & o3 & E3 & Hq' & S3 & C3 & H3 & D3);
      [done|done|lia|lia|destruct Hk; lia|lia|lia|lia|].
    rewrite E3. cbn [mbind res_bind]. pose proof S3 as [SL3 SM3 SC3 _ SB3 _].
    destruct Hr as [(? & ? & ? & ? & _)|[_ Er]]; [congruence|].
    eexists. split; [done|].
    assert (rqueue (mk q' (block s) None (fresh s) false (dequeueUseOld s)) = (q', block s)) as Er'
      by (unfold rqueue; by rewrite EUd).
    split; [constructor; cbn; try done; try lia|].
    { intros Hn'. rewrite SB3. by apply Hsup. }
    cbn [queue]. split; [done|]. split; [lia|]. unfold rview. rewrite Er, Er'. cbn [fst].
    split; [unfold avail; lia|]. split.
    { intros c p ->. rewrite (TQB.addr_same _ _ _ _ S3). unfold TQB.hidx. by rewrite H3, SL3. }
    intros c Hc. rewrite D3, D2, D1 by lia. f_equal.
    rewrite drop_ge by (pose proof (TQB.tqb_contents_len o c Hw); unfold len in *; lia).
    cbn [app]. unfold pending. rewrite TQB.window_take by lia.
    rewrite (TQB.window_same o o1) by done. unfold TQB.tidx. by rewrite T1, SL.
  - rewrite EU. rewrite Ew in *. cbn [fst] in *.
    destruct (TQB.tqb_Enqueue_ok (queue s) n Hq) as (q' & E & Hq' & S' & C' & H' & _ & _ & D'); [lia|lia|].
    rewrite E. cbn [mbind res_bind]. eexists. split; [done|].
    pose proof S' as [SL SM SC _ SB _].
    split.
    { constructor; cbn; try done; try lia.
      - intros Hn'. rewrite SB. by apply Hsup.
      - destruct (oldqueue s) as [[o b]|]; [|done]. destruct Hold as [? ? ? ? ? Hu].
        constructor; cbn; try done; try lia. destruct Hu as [(? & _)|(? & ? & ? & ? & Hpre)];
          [congruence|right]. split_and!; try done; [lia|]. intros c Hc.
        rewrite D' by lia. rewrite <- Hpre by done. apply take_app_le.
        pose proof (TQB.tqb_contents_len (queue s) c Hq). unfold len in *. lia. }
    change (queue (set_queue s q')) with q'. split; [done|]. split; [lia|]. unfold rview.
    assert (∀ c, 0 ≤ c < TQB.numChannels (queue s) →
      TQB.contents q' c = TQB.contents (queue s) c ++ take (Z.to_nat n) (pending (queue s) c)) as HC.
    { intros c Hc. rewrite D' by lia. unfold pending. by rewrite TQB.window_take by lia. }
    destruct Hr as [(o & b & EO & EU' & _ & _ & Er & _)|[EU' Er]].
    + assert (rqueue (set_queue s q') = (o, b)) as -> by (unfold rqueue; cbn; by rewrite EU', EO).
      by rewrite Er.
    + assert (rqueue (set_queue s q') = (q', block s)) as ->
        by (unfold rqueue; cbn; by rewrite EU').
      rewrite Er. cbn [fst]. split; [unfold avail; lia|]. split; [|done].
      intros c p ->. rewrite (TQB.addr_same _ _ _ _ S'). unfold TQB.hidx. by rewrite H', SL.
Qed.

Lemma dequeue_ok ie id s n : inv Supported ie id s → 0 ≤ n ≤ TQB.cnt (queue s) →
  ∃ s', InternalDequeue s n = Ok s' ∧ inv Supported ie false s' ∧
    TQB.same_shape (queue s) (queue s') ∧ TQB.cnt (queue s') = TQB.cnt (queue s) - n ∧
    (∀ c p, wview s c p → wview s' c p) ∧ room (wqueue s).1 ≤ room (wqueue s').1 ∧
    ∀ c, 0 ≤ c < TQB.numChannels (queue s) →
      TQB.contents (queue s') c = drop (Z.to_nat n) (TQB.contents (queue s) c) ∧
      take (Z.to_nat (room (wqueue s).1)) (pending (wqueue s').1 c) = pending (wqueue s).1 c.
Proof.
  intros Hs Hn. destruct (wqueue_facts _ _ _ _ Hs) as (Hw & _).
  destruct (room_bounds _ Hw) as [Hr1 Hr2].
  pose proof (rqueue_cases _ _ _ _ Hs) as Hr. pose proof (wqueue_cases _ _ _ _ Hs) as Hwc.
  destruct Hs as [Hq Hsm Hch Hfr Hsup Hold].
  destruct (TQB.tqb_Dequeue_ok (queue s) n Hq Hn) as (q' & E & Hq' & S' & C' & T' & M' & _ & _ & D').
  pose proof S' as [SL SM SC _ SB _].
  assert (TQB.tidx q' = TQB.tidx (queue s)) as ET by (unfold TQB.tidx; by rewrite T', SL).
  assert (∀ s', queue s' = q' → block s' = block s → wqueue s' = (q', block s) →
    wqueue s = (queue s, block s) →
    (∀ c p, wview s c p → wview s' c p) ∧ room (wqueue s).1 ≤ room (wqueue s').1 ∧
    ∀ c, 0 ≤ c < TQB.numChannels (queue s) →
      TQB.contents (queue s') c = drop (Z.to_nat n) (TQB.contents (queue s) c) ∧
      take (Z.to_nat (room (wqueue s).1)) (pending (wqueue s').1 c) = pending (wqueue s).1 c) as K.
  { intros s' Eq Eb Ew' Ew. unfold wview. rewrite Ew', Ew, Eq. cbn [fst].
    assert (room (queue s) ≤ room q') by (unfold room; lia).
    split; [|split; [done|]].
    - intros c p ->. by rewrite (TQB.addr_same _ _ _ _ S'), ET.
    - intros c Hc. split; [by apply D'|]. unfold pending. rewrite TQB.window_take.
      + by rewrite (TQB.window_same _ _ _ _ _ S' M'), ET.
      + split; [|done]. rewrite Ew in Hr1. cbn in Hr1. lia. }
  unfold InternalDequeue. destruct Hr as [(o & b & EO & EU & EUe & -> & Er & _)|[EU Er]].
  - rewrite EU. cbn [queue]. rewrite E. cbn [mbind res_bind]. eexists. split; [done|].
    split; [constructor; cbn; try done; try lia; intros Hx; rewrite SB; by apply Hsup|].
    split; [done|]. split; [done|].
    apply K; [done|done| |].
    + unfold wqueue. cbn. by rewrite EUe.
    + unfold wqueue. by rewrite EUe.
  - rewrite EU, E. cbn [mbind res_bind]. eexists. split; [done|]. split.
    { constructor; cbn; try done; try lia.
      - intros Hx. rewrite SB. by apply Hsup.
      - destruct (oldqueue s) as [[o b]|]; [|done]. destruct Hold as [? ? ? ? ? Hu].
        constructor; cbn; try done; try lia. destruct Hu as [(? & ? & ? & ?)|(_ & ? & _)];
          [left|congruence]. split_and!; try done. lia. }
    split; [done|]. split; [done|].
    destruct Hwc as [(o & b & EO & EUw & _ & _ & Ew & _)|[EUw Ew]].
    + assert (wqueue (set_queue s q') = (o, b)) as Ew'
        by (unfold wqueue; cbn; by rewrite EUw, EO).
      unfold wview. rewrite Ew, Ew'. cbn [fst queue set_queue]. split; [done|]. split; [done|].
      intros c Hc. split; [by apply D'|]. rewrite Ew in Hw. apply take_ge.
      pose proof (pending_len o c Hw). unfold len in *. lia.
    + apply K; [done|done| |done]. unfold wqueue. cbn. by rewrite EUw.
Qed.

Lemma grow_inv_plain q' s s' ie id : inv Supported ie id s → TQB.wf q' →
  TQB.queueLength q' < 2147483648 → TQB.numChannels q' = TQB.numChannels (queue s) →
  (TQB.mbs (queue s) = None → TQB.mbs q' = None) →
  queue s' = q' → block s' = fresh s → fresh s' = fresh s + 1 →
  match oldqueue s' with
  | None => enqueueUseOld s' = false ∧ dequeueUseOld s' = false
  | Some (o, b) => kept ie id s' o b
  end → inv Supported ie id s'.
Proof.
  intros [Hq Hsm Hch Hfr Hsup _] Hq' Hs' EN Hmb <- EB EF Hold. constructor; try done; try lia.
  intros Hx. apply Hmb. by apply Hsup.
Qed.

Lemma grow_ok ie id s l t : inv Supported ie id s → ie && id = false → can_grow PageSize s l t →
  ∃ s', UnlockedGrow PageSize Supported ie id s l t = Ok s' ∧ inv Supported ie id s' ∧
    TQB.numChannels (queue s') = TQB.numChannels (queue s) ∧
    TQB.cnt (queue s') = TQB.cnt (queue s) ∧
    Z.max l (TQB.queueLength (queue s)) ≤ TQB.queueLength (queue s') ∧
    Z.max t (TQB.maxThreshold (queue s)) ≤ TQB.maxThreshold (queue s') ∧
    (ie = true → same_writer s s' ∧ ∀ c, pending (wqueue s').1 c = pending (wqueue s).1 c) ∧
    (id = true → same_reader s s') ∧
    ∀ c, 0 ≤ c < TQB.numChannels (queue s) →
      TQB.contents (queue s') c = TQB.contents (queue s) c.
Proof.
  intros Hs Hb Hcan. destruct Hcan as [Hfit Hbound].
  pose proof (i_wf _ _ _ _ Hs) as Hq. pose proof (TQB.w_thresh _ Hq) as HT.
  pose proof (i_supported _ _ _ _ Hs) as Hsup.
  unfold UnlockedGrow, TQB.QueueLength, TQB.MaxThreshold.
  destruct ((l <=? TQB.queueLength (queue s)) && (t <=? TQB.maxThreshold (queue s))) eqn:B.
  { rewrite andb_true_iff, !Z.leb_le in B. exists s.
    unfold same_writer, same_reader. split_and!; try done; lia. }
  rewrite andb_false_iff, !Z.leb_gt in B. rewrite Hb. cbn [negb assert mbind res_bind].
  assert (∀ copy, ∃ q' old,
    TQImpl_Grow PageSize Supported (queue s) l t copy = Ok (q', if copy then Some old else None) ∧
    TQB.wf q' ∧ TQB.cnt q' = TQB.cnt (queue s) ∧
    TQB.numChannels q' = TQB.numChannels (queue s) ∧
    Z.max l (TQB.queueLength (queue s)) ≤ TQB.queueLength q' ∧
    Z.max t (TQB.maxThreshold (queue s)) ≤ TQB.maxThreshold q' ∧
    TQB.queueLength q' < 2147483648 ∧ (TQB.mbs (queue s) = None → TQB.mbs q' = None) ∧
    (∀ c, 0 ≤ c < TQB.numChannels (queue s) → TQB.contents q' c = TQB.contents (queue s) c) ∧
    ∃ d, old = TQB.with_counts (queue s) (TQB.elementsEnqueued (queue s)) d) as G.
  { intros copy. destruct (TQImpl_Grow_ok (queue s) l t copy Hq B Hfit Hsup)
      as (q' & old & E & ? & ? & ? & ? & ? & ? & ? & ? & ?).
    exists q', old. split_and!; try done. lia. }
  pose proof (wqueue_cases _ _ _ _ Hs) as Hwc. pose proof (rqueue_cases _ _ _ _ Hs) as Hrc.
  pose proof (i_old _ _ _ _ Hs) as Hold. pose proof (i_fresh _ _ _ _ Hs) as Hfr.
  destruct (oldqueue s) as [[o b]|] eqn:EO.
  - assert (Bool.eqb (enqueueUseOld s) ie = true ∧ Bool.eqb (dequeueUseOld s) id = true) as [-> ->].
    { destruct (k_user _ _ _ _ _ Hold) as [(-> & -> & -> & _)|(-> & -> & -> & _)];
        [destruct id|destruct ie]; done. }
    cbn [assert mbind res_bind].
    destruct (G false) as (q' & _ & -> & Hq' & HC & HN & HL & HM & HU & Hmb & Hcon & _).
    cbn [mbind res_bind]. eexists. split; [done|]. split.
    { apply (grow_inv_plain q' s); try done. cbn. destruct Hold as [Ho [Hb1 Hb2] KC KL KM Hu].
      constructor; cbn; try done; try lia.
      destruct Hu as [(-> & -> & ? & ?)|(-> & -> & ? & ? & Hpre)]; [left|right].
      - split_and!; try done. lia.
      - split_and!; try done; [lia|]. intros c Hc. rewrite Hcon by lia. by apply Hpre. }
    cbn [queue]. split_and!; try done.
    + intros ->. destruct Hwc as [(? & ? & [= <- <-] & EU & EUd & _ & Ew & _)|[EU _]].
      * unfold same_writer, wview. rewrite Ew. unfold wqueue. cbn. by rewrite EU.
      * destruct (k_user _ _ _ _ _ Hold) as [(? & _)|(_ & _ & -> & _)]; [congruence|done].
    + intros ->. destruct Hrc as [(? & ? & [= <- <-] & EU & EUd & _ & Er & _)|[EU _]].
      * unfold same_reader, rview. rewrite Er. unfold rqueue. cbn. by rewrite EU.
      * destruct (k_user _ _ _ _ _ Hold) as [(_ & _ & -> & _)|(_ & ? & _)]; [|congruence].
        by rewrite andb_true_r in Hb.
  - destruct Hold as [EUe EUd].
    destruct Hwc as [(? & ? & ? & _)|[_ Ew]]; [done|].
    destruct Hrc as [(? & ? & ? & _)|[_ Er]]; [done|].
    destruct (negb ie && negb id) eqn:Bn.
    + destruct (G false) as (q' & _ & -> & Hq' & HC & HN & HL & HM & HU & Hmb & Hcon & _).
      cbn [mbind res_bind]. eexists. split; [done|]. split.
      { apply (grow_inv_plain q' s); try done. }
      cbn [queue]. apply andb_true_iff in Bn as [B1 B2]. apply negb_true_iff in B1, B2.
      split_and!; try done; congruence.
    + destruct (G true) as (q' & old & -> & Hq' & HC & HN & HL & HM & HU & Hmb & Hcon & d & ->).
      cbn [mbind res_bind option_map]. eexists. split; [done|].
      assert (TQB.wf (TQB.with_counts (queue s) (TQB.elementsEnqueued (queue s)) d)) as Ho
        by by apply TQB.wf_with_counts.
      split.
      { apply (grow_inv_plain q' s); try done. cbn. constructor; cbn; try done; try lia.
        destruct ie, id; try done; [left|right]; split_and!; try done.
        - change (TQB.cnt q' ≤ TQB.cnt (queue s)). lia.
        - change (TQB.cnt (queue s) ≤ TQB.cnt q'). lia.
        - intros c Hc. rewrite Hcon by done. apply take_ge.
          pose proof (TQB.tqb_contents_len _ c Ho) as Hl. unfold len in Hl. lia. }
      cbn [queue]. split_and!; try done.
      * intros ->. unfold same_writer, wview. rewrite Ew. by unfold wqueue.
      * intros ->. unfold same_reader, rview. rewrite Er. unfold rqueue. cbn. done.
Qed.

(** *** The instance *)
#[refine] Instance tq_laws : RawQueueLaws tqueue ptr := {
  q_inv := inv Supported; q_count s := TQB.cnt (queue s);
  q_bytes s := TQB.contents (queue s);
  q_room s := room (wqueue s).1; q_pending s := pending (wqueue s).1; q_wview := wview;
  q_avail s := avail (rqueue s).1; q_rview := rview; q_can_grow := can_grow PageSize }.
Proof.
  all: cbn.
  - intros ie id s Hs. destruct (sizes _ _ _ Hs) as (-> & -> & ->).
    destruct (wqueue_facts _ _ _ _ Hs) as (Hw & _ & Hf & _).
    destruct (rqueue_facts _ _ _ _ Hs) as (Hr & _ & Hc & _).
    pose proof (room_bounds _ Hw). pose proof (avail_bounds _ Hr).
    destruct Hs as [Hq _ ? _ _ _]. pose proof (TQB.cnt_range _ Hq). pose proof (TQB.w_thresh _ Hq).
    lia.
  - intros ie id s [Hq Hs _ _ _ _]. pose proof (TQB.cnt_range _ Hq). unfold UnlockedCount.
    rewrite TQB.Count_ok by done. cbn. by rewrite u32_id by lia.
  - intros ie id s Hs. destruct (sizes _ _ _ Hs) as (_ & _ & ->). destruct Hs as [Hq Hs _ _ _ _].
    pose proof (TQB.cnt_range _ Hq). unfold UnlockedFreespace.
    rewrite TQB.Freespace_ok by done. cbn. by rewrite u32_id by lia.
  - intros ie id s c Hs Hc. destruct (wqueue_facts _ _ _ _ Hs) as (Hw & _).
    destruct Hs as [Hq _ _ _ _ _]. split; [by apply TQB.tqb_contents_len|by apply pending_len].
  - intros id s Hs. destruct (sizes _ _ _ Hs) as (_ & -> & ->).
    destruct (wqueue_facts _ _ _ _ Hs) as (_ & _ & _ & _ & _ & Hw). by destruct (Hw eq_refl) as [-> _].
  - intros ie s Hs. destruct (sizes _ _ _ Hs) as (_ & -> & _).
    destruct (rqueue_facts _ _ _ _ Hs) as (_ & _ & _ & _ & _ & Hr). by destruct (Hr eq_refl) as [-> _].
  - intros ie id s [Hq Hs Hc Hf Hsup Hold]. constructor; try done.
    destruct (oldqueue s) as [[o b]|]; [|done]. destruct Hold as [? ? ? ? ? Hu].
    constructor; try done. destruct Hu as [(? & ? & ? & ?)|?]; [left|by right]. by split_and!.
  - intros ie id s [Hq Hs Hc Hf Hsup Hold]. constructor; try done.
    destruct (oldqueue s) as [[o b]|]; [|done]. destruct Hold as [? ? ? ? ? Hu].
    constructor; try done. destruct Hu as [?|(? & ? & ? & ? & ?)]; [by left|right]. by split_and!.
  - intros ie id s t c Hs. destruct (sizes _ _ _ Hs) as (-> & _ & _). by apply (enq_ptr_ok ie id s t c).
  - intros id s t c Hs. destruct (sizes _ _ _ Hs) as (-> & _ & _). intros Hc Ht.
    destruct (wqueue_facts _ _ _ _ Hs) as (Hw & _ & _ & _ & _ & He).
    destruct (He eq_refl) as [Ew EU]. rewrite Ew in *. cbn [fst] in *.
    unfold InternalGetRawEnqueuePtr. rewrite EU. rewrite TQB.tqb_GetRawEnqueuePtr_ok by done.
    unfold room in Ht. zcases; cbn; done || lia.
  - intros ie id s t c Hs. destruct (sizes _ _ _ Hs) as (-> & _ & _).
    by apply (deq_ptr_ok ie id s t c).
  - intros ie s t c Hs. destruct (sizes _ _ _ Hs) as (-> & _ & _). intros Hc Ht.
    destruct (rqueue_facts _ _ _ _ Hs) as (Hw & _ & _ & _ & _ & He).
    destruct (He eq_refl) as [Ew EU]. rewrite Ew in *. cbn [fst] in *.
    unfold InternalGetRawDequeuePtr. rewrite EU. rewrite TQB.tqb_GetRawDequeuePtr_ok by done.
    unfold avail in Ht. zcases; cbn; done || lia.
  - intros ie id s c p t Hs. destruct (sizes _ _ _ Hs) as (-> & _ & _). by apply (tq_load_ok ie id).
  - intros ie id s c p d Hs. destruct (sizes _ _ _ Hs) as (EN & EM & EL). rewrite EN. intros Hc Hp Hd.
    destruct (store_keeps ie id s c p d Hs Hc Hp Hd)
      as (s' & E & Hs' & [SL SM SC _ _ _] & HC & [Hr Hwv] & [Ha Hrv] & Hb).
    exists s'. destruct (sizes _ _ _ Hs') as (-> & -> & ->). rewrite EM, EL. by split_and!.
  - intros ie id s n Hs Hn. destruct (sizes _ _ _ Hs) as (EN & EM & EL). rewrite EN.
    destruct (enqueue_ok ie id s n Hs Hn) as (s' & E & Hs' & [SL SM SC _ _ _] & HC & Ha & Hrv & Hb).
    exists s'. destruct (sizes _ _ _ Hs') as (-> & -> & ->). rewrite EM, EL. by split_and!.
  - intros ie id s n Hs Hn. destruct (sizes _ _ _ Hs) as (EN & EM & EL). rewrite EN.
    destruct (dequeue_ok ie id s n Hs Hn) as (s' & E & Hs' & [SL SM SC _ _ _] & HC & Hwv & Hr & Hb).
    exists s'. destruct (sizes _ _ _ Hs') as (-> & -> & ->). rewrite EM, EL. split_and!; try done.
    intros c Hc. destruct (Hb c Hc). by split.
  - intros ie id s l t Hs Hb Hcan. destruct (sizes _ _ _ Hs) as (EN & EM & EL). rewrite EN, EM, EL.
    destruct (grow_ok ie id s l t Hs Hb Hcan) as (s' & E & Hs' & HN & HC & HL & HM & Hw & Hr & Hcon).
    exists s'. destruct (sizes _ _ _ Hs') as (-> & -> & ->). split_and!; try done.
    + intros Hie. destruct (Hw Hie) as [[? ?] ?]. by split.
    + intros c Hc. split; [by apply Hcon|]. intros Hie. by destruct (Hw Hie) as [_ ?].
  - intros ie id s Hs. destruct (sizes _ _ _ Hs) as (_ & _ & ->). destruct Hs. lia.
Defined.

(** C35: a writer that holds a pointer while the reader makes the queue grow
    still writes where it was told to: its bytes, stored after the growth and
    enqueued, are appended behind everything the queue held, and the block it
    wrote in is given back. *)
Theorem grow_under_writer s c p l t d n :
  inv Supported true false s → can_grow PageSize s l t →
  0 ≤ c < TQB.numChannels (queue s) → wview s c p →
  0 ≤ n ≤ len d → len d ≤ room (wqueue s).1 →
  ∃ s1 s2 s3, UnlockedGrow PageSize Supported true false s l t = Ok s1 ∧
    ptr_store s1 p d = Ok s2 ∧ InternalEnqueue s2 n = Ok s3 ∧
    inv Supported false false s3 ∧ oldqueue s3 = None ∧
    TQB.contents (queue s3) c = TQB.contents (queue s) c ++ take (Z.to_nat n) d ∧
    Z.max l (TQB.queueLength (queue s)) ≤ TQB.queueLength (queue s3).
Proof.
  intros Hs Hcan Hc Hp Hn Hd.
  destruct (grow_ok true false s l t Hs eq_refl Hcan)
    as (s1 & E1 & Hs1 & HN1 & _ & HL1 & _ & Hw1 & _ & Hc1).
  destruct (Hw1 eq_refl) as [[Hr1 Hv1] Hpe1].
  destruct (store_keeps true false s1 c p d Hs1) as
    (s2 & E2 & Hs2 & [SL2 _ SC2 _ _ _] & _ & [Hr2 _] & _ & Hb2); [lia|by apply Hv1|lia|].
  destruct (enqueue_ok true false s2 n Hs2) as (s3 & E3 & Hs3 & [SL3 _ _ _ _ _] & _ & _ & _ & Hb3);
    [lia|].
  exists s1, s2, s3. split_and!; try done; [| |lia].
  - pose proof (i_old _ _ _ _ Hs3) as Ho. destruct (oldqueue s3) as [[o b]|]; [|done].
    by destruct (k_user _ _ _ _ _ Ho) as [(_ & _ & ? & _)|(_ & _ & ? & _)].
  - destruct (Hb2 c ltac:(lia)) as [B1 B2]. rewrite Hb3 by lia. rewrite B1, B2, Z.eqb_refl, Hc1 by lia.
    f_equal. apply take_app_le. unfold len in Hn. lia.
Qed.

(** A reader that holds a pointer while the writer makes the queue grow,
    and enqueues more, still reads the oldest bytes through it, and its
    [Dequeue] takes them from the new queue. *)
Theorem grow_under_reader s c p l t n k :
  inv Supported false true s → can_grow PageSize s l t →
  0 ≤ c < TQB.numChannels (queue s) → rview s c p → 0 ≤ k ≤ avail (rqueue s).1 →
  (∀ s1, UnlockedGrow PageSize Supported false true s l t = Ok s1 → 0 ≤ n ≤ room (wqueue s1).1) →
  ∃ s1 s2 s3, UnlockedGrow PageSize Supported false true s l t = Ok s1 ∧
    InternalEnqueue s1 n = Ok s2 ∧
    ptr_load s2 p k = Ok (take (Z.to_nat k) (TQB.contents (queue s) c)) ∧
    InternalDequeue s2 k = Ok s3 ∧ inv Supported false false s3 ∧ oldqueue s3 = None ∧
    TQB.contents (queue s3) c =
      drop (Z.to_nat k) (TQB.contents (queue s) c) ++
      take (Z.to_nat n) (pending (wqueue s1).1 c).
Proof.
  intros Hs Hcan Hc Hp Hk Hn.
  destruct (grow_ok false true s l t Hs eq_refl Hcan)
    as (s1 & E1 & Hs1 & HN1 & HC1 & _ & _ & _ & Hr1 & Hc1).
  destruct (Hr1 eq_refl) as [Ha1 Hv1].
  destruct (enqueue_ok false true s1 n Hs1 (Hn s1 E1))
    as (s2 & E2 & Hs2 & [SL2 SM2 SC2 _ _ _] & HC2 & Ha2 & Hv2 & Hb2).
  pose proof (i_wf _ _ _ _ Hs) as Hq.
  destruct (rqueue_facts _ _ _ _ Hs) as (Hr & _ & Hrc & _).
  destruct (avail_bounds _ Hr) as [Hra _]. specialize (Hn s1 E1).
  destruct (dequeue_ok false true s2 k Hs2) as (s3 & E3 & Hs3 & _ & _ & _ & _ & Hb3); [lia|].
  assert ((Z.to_nat k ≤ length (TQB.contents (queue s) c))%nat) as Hkl.
  { pose proof (TQB.tqb_contents_len (queue s) c Hq) as HL. unfold len in HL. lia. }
  exists s1, s2, s3. split_and!; try done.
  - rewrite (tq_load_ok false true s2 c p k Hs2) by (try lia; auto).
    f_equal. rewrite Hb2, Hc1 by lia. apply take_app_le. lia.
  - pose proof (i_old _ _ _ _ Hs3) as Ho. destruct (oldqueue s3) as [[o b]|]; [|done].
    by destruct (k_user _ _ _ _ _ Ho) as [(_ & _ & ? & _)|(_ & _ & ? & _)].
  - destruct (Hb3 c ltac:(lia)) as [-> _]. rewrite Hb2, Hc1 by lia. by rewrite drop_app_le by lia.
Qed.
End proofs.

Lemma tq_make_ok PageSize Supported a length :
  0 < PageSize → 1 ≤ a_numchannels a < 2147483648 →
  let b := TQB.blank 1 length (a_maxthreshold a) (a_numchannels a) 0 0 in
  TQB.alloc_fits PageSize b (TQB.queueLength b) (TQB.maxThreshold b) (a_numchannels a) →
  TQB.queueLength (queue (make_length PageSize Supported a length)) < 2147483648 →
  let s := make_length PageSize Supported a length in
  (Supported = false → TQB.mbs (queue s) = None) →
  inv Supported false false s ∧ TQB.cnt (queue s) = 0.
Proof.
  intros HP Hc b Hf Hs s Hsup. 
  destruct (TQB.make_attr_ok PageSize Supported HP
    (TQB.mk_attr length (a_maxthreshold a) (a_numchannels a) (a_hint_threshold a) 0 0))
    as (Hq & HC & HN & _).
  { cbn. rewrite Z.mod_0_l by lia. destruct (a_hint_threshold a); exact Hf. }
  split; [|exact HC]. constructor; try done.
  unfold s, make_length. cbn [queue]. rewrite HN. done.
Qed.

(** ** The theorems at a concrete queue, mirrored by itself *)
Definition example_queue : tqueue := make 1 false (mk_attr 4 2 1 false).
Lemma example_inv ie id : inv false ie id example_queue.
Proof.
  destruct (tq_make_ok 1 false (mk_attr 4 2 1 false) 4) as [[] _]; try done.
Qed.
Lemma example_can_grow : can_grow 1 example_queue 6 3.
Proof. split; [constructor|]; by vm_compute. Qed.

Lemma grow_under_writer_witness :
  ∃ s1 s2 s3, UnlockedGrow 1 false true false example_queue 6 3 = Ok s1 ∧
    ptr_store s1 (mk_ptr 0 0) [7; 8] = Ok s2 ∧ InternalEnqueue s2 2 = Ok s3 ∧
    inv false false false s3 ∧ oldqueue s3 = None ∧
    TQB.contents (queue s3) 0 = TQB.contents (queue example_queue) 0 ++ take (Z.to_nat 2) [7; 8] ∧
    Z.max 6 (TQB.queueLength (queue example_queue)) ≤ TQB.queueLength (queue s3).
Proof.
  apply (grow_under_writer 1 false ltac:(lia) example_queue 0 (mk_ptr 0 0) 6 3 [7; 8] 2
    (example_inv true false) example_can_grow); by vm_compute.
Defined.

Definition full_queue : tqueue :=
  match s ← ptr_store example_queue (mk_ptr 0 0) [7; 8]; InternalEnqueue s 2 with
  | Ok s => s | Err _ => example_queue
  end.
Lemma full_inv ie id : inv false ie id full_queue.
Proof.
  destruct (store_keeps false true false example_queue 0 (mk_ptr 0 0) [7; 8]
    (example_inv _ _)) as (s1 & E1 & H1 & _); [done|done|by vm_compute|].
  destruct (enqueue_ok false true false s1 2 H1) as (s2 & E2 & H2 & _).
  { vm_compute in E1. injection E1 as <-. by vm_compute. }
  assert (full_queue = s2) as ->.
  { unfold full_queue. rewrite E1. cbn [mbind res_bind]. by rewrite E2. }
  destruct H2 as [? ? ? ? ? Ho]. constructor; try done.
  destruct (oldqueue s2) as [[o b]|]; [|done].
  by destruct (k_user _ _ _ _ _ Ho) as [(_ & _ & ? & _)|(_ & _ & ? & _)].
Qed.

Lemma grow_under_reader_witness :
  ∃ s1 s2 s3, UnlockedGrow 1 false false true full_queue 6 3 = Ok s1 ∧
    InternalEnqueue s1 1 = Ok s2 ∧
    ptr_load s2 (mk_ptr 0 0) 2 =
      Ok (take (Z.to_nat 2) (TQB.contents (queue full_queue) 0)) ∧
    InternalDequeue s2 2 = Ok s3 ∧ inv false false false s3 ∧ oldqueue s3 = None ∧
    TQB.contents (queue s3) 0 =
      drop (Z.to_nat 2) (TQB.contents (queue full_queue) 0) ++
      take (Z.to_nat 1) (pending (wqueue s1).1 0).
Proof.
  apply (grow_under_reader 1 false ltac:(lia) full_queue 0 (mk_ptr 0 0) 6 3 1 2
    (full_inv false true)).
  - split; [constructor|]; by vm_compute.
  - by vm_compute.
  - by vm_compute.
  - by vm_compute.
  - intros s1 E. vm_compute in E. injection E as <-. by vm_compute.
Defined.

End TQ.
