(* ===== verification/QueueBase.v ===== *)
(** [libraries/CPN/QueueBase]: the blocking protocol of a queue between a
    reader thread and a writer thread, over any queue that keeps the contract
    [RawQueue].

    The operations run under the queue's lock, in the state-and-fault monad, so
    that what they changed before they throw stays changed.  The loops of
    [GetRawDequeuePtr] and [GetRawEnqueuePtr] are modelled turn by turn; a turn
    ends with a result, another turn, or the thread asleep on the condition
    variable ([cond.Wait] of the loops of [WaitForData] and
    [WaitForFreespace]; the paths taken when [useD4R] is set are those of
    [D4R::QueueBase]).  [system] is the queue with both threads, [step] their
    interleaving at the granularity of the lock. *)
From S2P Require Import Prelude.
From S2P Require Import QueueInterface.
From S2P Require Import ThresholdQueue.

Module QB.

Inductive turn (P : Type) := Again | Sleep | Returned (p : option P).
Arguments Again {P}. Arguments Sleep {P}. Arguments Returned {P} p.

Section queue_base.
Context {Q P : Type} `{RawQueue Q P}.

Record qbase := mk {
  que : Q;
  readerkey : Z; writerkey : Z;
  readshutdown : bool; writeshutdown : bool;
  readrequest : Z; writerequest : Z;
  enqueuethresh : Z; dequeuethresh : Z;
  indequeue : bool; inenqueue : bool;
  terminated : bool;                  (** of the kernel: [CheckTerminated] throws *)
  growable : bool;                    (** of the kernel: [GrowQueueMaxThreshold()] *)
  sig : bool }.                       (** [cond.Broadcast()] was called *)

Definition set_que s q := mk q (readerkey s) (writerkey s) (readshutdown s) (writeshutdown s)
  (readrequest s) (writerequest s) (enqueuethresh s) (dequeuethresh s) (indequeue s)
  (inenqueue s) (terminated s) (growable s) (sig s).
Definition set_readrequest s r := mk (que s) (readerkey s) (writerkey s) (readshutdown s)
  (writeshutdown s) r (writerequest s) (enqueuethresh s) (dequeuethresh s) (indequeue s)
  (inenqueue s) (terminated s) (growable s) (sig s).
Definition set_writerequest s r := mk (que s) (readerkey s) (writerkey s) (readshutdown s)
  (writeshutdown s) (readrequest s) r (enqueuethresh s) (dequeuethresh s) (indequeue s)
  (inenqueue s) (terminated s) (growable s) (sig s).
Definition set_deq s t b := mk (que s) (readerkey s) (writerkey s) (readshutdown s)
  (writeshutdown s) (readrequest s) (writerequest s) (enqueuethresh s) t b
  (inenqueue s) (terminated s) (growable s) (sig s).
Definition set_enq s t b := mk (que s) (readerkey s) (writerkey s) (readshutdown s)
  (writeshutdown s) (readrequest s) (writerequest s) t (dequeuethresh s) (indequeue s) b
  (terminated s) (growable s) (sig s).
Definition set_shutdown s r w := mk (que s) (readerkey s) (writerkey s) r w
  (readrequest s) (writerequest s) (enqueuethresh s) (dequeuethresh s) (indequeue s)
  (inenqueue s) (terminated s) (growable s) (sig s).
Definition set_terminated s := mk (que s) (readerkey s) (writerkey s) (readshutdown s)
  (writeshutdown s) (readrequest s) (writerequest s) (enqueuethresh s) (dequeuethresh s)
  (indequeue s) (inenqueue s) true (growable s) (sig s).
Definition set_sig s b := mk (que s) (readerkey s) (writerkey s) (readshutdown s)
  (writeshutdown s) (readrequest s) (writerequest s) (enqueuethresh s) (dequeuethresh s)
  (indequeue s) (inenqueue s) (terminated s) (growable s) b.

(** The constructor. *)
Definition make (q : Q) (rkey wkey : Z) (term grow : bool) : qbase :=
  mk q rkey wkey false false 0 0 0 0 false false term grow false.

Definition Op := M qbase.

Definition CheckTerminated : Op unit :=
  s ← mget; if terminated s then mthrow Shutdown else mret tt.
Definition Signal : Op unit := mmodify (λ s, set_sig s true).

Definition UnlockedCount : Op Z := s ← mget; mlift (rq_Count (que s)).
Definition UnlockedFreespace : Op Z := s ← mget; mlift (rq_Freespace (que s)).
Definition UnlockedGrow (queueLen maxThresh : Z) : Op unit :=
  s ← mget;
  q ← mlift (rq_Grow (inenqueue s) (indequeue s) (que s) queueLen maxThresh);
  mput (set_que s q).

Definition ReadBlocked : Op bool :=
  CheckTerminated ;; s ← mget; c ← UnlockedCount;
  mret ((c <? readrequest s) && negb (readshutdown s || writeshutdown s)).
Definition WriteBlocked : Op bool :=
  CheckTerminated ;; s ← mget; f ← UnlockedFreespace;
  mret ((f <? writerequest s) && negb (readshutdown s || writeshutdown s)).

Definition NotifyData : Op unit :=
  s ← mget; c ← UnlockedCount; if readrequest s <=? c then Signal else mret tt.
Definition NotifyFreespace : Op unit :=
  s ← mget; f ← UnlockedFreespace; if writerequest s <=? f then Signal else mret tt.
Definition NotifyTerminate : Op unit := Signal.

(** One test of the [while] of [WaitForData], and what follows the loop in the
    caller. *)
Definition WaitForData : Op (turn P) :=
  b ← ReadBlocked;
  if (b : bool) then mret Sleep else mmodify (λ s, set_readrequest s 0) ;; mret Again.
Definition WaitForFreespace : Op (turn P) :=
  b ← WriteBlocked;
  if (b : bool) then mret Sleep else mmodify (λ s, set_writerequest s 0) ;; mret Again.

(** [GetRawDequeuePtr] up to its loop, and a turn of the loop. *)
Definition deq_start (thresh : Z) : Op unit :=
  CheckTerminated ;;
  s ← mget;
  if indequeue s then massert (thresh <=? dequeuethresh s)
  else mput (set_deq s thresh false).

Definition deq_turn (thresh chan : Z) : Op (turn P) :=
  s ← mget;
  ptr ← mlift (rq_GetRawDequeuePtr (indequeue s) (que s) thresh chan);
  if bool_decide (is_Some ptr) || writeshutdown s then
    (if bool_decide (is_Some ptr) then mput (set_deq s (dequeuethresh s) true) else mret tt) ;;
    mret (Returned ptr)
  else if readshutdown s then mthrow (BrokenQueue (readerkey s))
  else if (rq_MaxThreshold (que s) <? thresh) && growable s then
    UnlockedGrow (u32 (2 * thresh)) thresh ;; Signal ;; mret Again
  else
    wb ← WriteBlocked;
    if (wb : bool) && growable s then
      UnlockedGrow (u32 (writerequest s + thresh)) thresh ;; Signal ;; mret Again
    else
      mmodify (λ s, set_readrequest s thresh) ;; WaitForData.

Definition Dequeue (count : Z) : Op unit :=
  mmodify (λ s, set_deq s 0 false) ;;
  s ← mget;
  if readshutdown s then mthrow (BrokenQueue (readerkey s)) else
  q ← mlift (rq_Dequeue (que s) count);
  mput (set_que s q) ;;
  NotifyFreespace.

Definition enq_start (thresh : Z) : Op unit :=
  CheckTerminated ;;
  s ← mget;
  if inenqueue s then massert (thresh <=? enqueuethresh s)
  else mput (set_enq s thresh false).

(** [grown] is the local variable; the turn returns it too. *)
Definition enq_turn (thresh chan : Z) (grown : bool) : Op (turn P * bool) :=
  s ← mget;
  ptr ← mlift (rq_GetRawEnqueuePtr (inenqueue s) (que s) thresh chan);
  if bool_decide (is_Some ptr) then
    mput (set_enq s (enqueuethresh s) true) ;; mret (Returned ptr, grown)
  else if readshutdown s || writeshutdown s then mthrow (BrokenQueue (writerkey s))
  else if (rq_MaxThreshold (que s) <? thresh) && growable s then
    UnlockedGrow (u32 (2 * thresh)) thresh ;; Signal ;; mret (Again, grown)
  else
    rb ← (if grown then mret false else ReadBlocked);
    if (rb : bool) && growable s then
      UnlockedGrow (u32 (readrequest s + thresh)) thresh ;; Signal ;; mret (Again, true)
    else
      mmodify (λ s, set_writerequest s thresh) ;;
      w ← WaitForFreespace; mret (w, grown).

Definition Enqueue (count : Z) : Op unit :=
  mmodify (λ s, set_enq s 0 false) ;;
  s ← mget;
  if writeshutdown s then mthrow (BrokenQueue (writerkey s)) else
  q ← mlift (rq_Enqueue (que s) count);
  mput (set_que s q) ;;
  NotifyData.

Definition ShutdownReader : Op unit :=
  mmodify (λ s, set_shutdown s true (writeshutdown s)) ;; Signal.
Definition ShutdownWriter : Op unit :=
  mmodify (λ s, set_shutdown s (readshutdown s) true) ;; Signal.

(** [Grow], which does not signal, and [Detect], which the deadlock detection
    calls; [CalculateGrowSize] is the kernel's. *)
Definition Grow (queueLen maxThresh : Z) : Op unit := UnlockedGrow queueLen maxThresh.
Definition Detect (CalculateGrowSize : Z → Z → Z) : Op unit :=
  s ← mget; c ← UnlockedCount;
  UnlockedGrow (CalculateGrowSize c (writerequest s)) (writerequest s).

(** At most [fuel] turns of the loop: what [GetRawDequeuePtr] and
    [GetRawEnqueuePtr] do before they return, throw or sleep. *)
Fixpoint deq_loop (fuel : nat) (thresh chan : Z) : Op (turn P) :=
  match fuel with
  | O => mret Again
  | S k => r ← deq_turn thresh chan;
           match r with Again => deq_loop k thresh chan | _ => mret r end
  end.
Fixpoint enq_loop (fuel : nat) (thresh chan : Z) (grown : bool) : Op (turn P * bool) :=
  match fuel with
  | O => mret (Again, grown)
  | S k => r ← enq_turn thresh chan grown;
           match r with (Again, g) => enq_loop k thresh chan g | _ => mret r end
  end.

(** ** The two threads *)
Inductive pc :=
  | Idle                               (** outside the queue *)
  | Looping (thresh chan : Z) (grown : bool)   (** in the loop, with the lock *)
  | Asleep (thresh chan : Z) (grown : bool)    (** in [cond.Wait] *)
  | Awake (thresh chan : Z) (grown : bool).    (** woken, without the lock yet *)

(** [written c] is all that was ever enqueued on channel [c], [consumed c] all
    that was dequeued.  [notifying]: the kernel was terminated by a thread that has
    yet to call [NotifyTerminate].  [outgrown]: the public [Grow] was called since
    the writer last looked, and nobody was woken since. *)
Record system := mk_sys {
  st : qbase; rpc : pc; wpc : pc; written : Z → list Z; consumed : Z → list Z;
  notifying : bool; outgrown : bool }.

Definition holds_lock (p : pc) : bool := match p with Looping _ _ _ => true | _ => false end.
Definition waiting (p : pc) : Prop :=
  match p with Asleep _ _ _ | Awake _ _ _ => True | _ => False end.
Definition is_asleep (p : pc) : Prop :=
  match p with Asleep _ _ _ => True | _ => False end.
Definition wake (p : pc) : pc :=
  match p with Asleep t c g => Awake t c g | _ => p end.
(** Releasing the lock or going on: a broadcast wakes who is asleep. *)
Definition settle (s : qbase) (r w : pc) (wr co : Z → list Z) (n g : bool) : system :=
  if sig s then mk_sys (set_sig s false) (wake r) (wake w) wr co n false
  else mk_sys s r w wr co n g.
(** A writer that goes to sleep has looked. *)
Definition looked (w : pc) (g : bool) : bool := match w with Asleep _ _ _ => false | _ => g end.

(** Where a turn leaves its thread. *)
Definition after (o : res (turn P)) (t c : Z) (g : bool) : pc :=
  match o with
  | Ok Again => Looping t c g
  | Ok Sleep => Asleep t c g
  | Ok (Returned _) | Err _ => Idle
  end.
Definition after_start (o : res unit) (t c : Z) : pc :=
  match o with Ok _ => Looping t c false | Err _ => Idle end.
Definition after_enq (o : res (turn P * bool)) (t c : Z) (g : bool) : pc :=
  match o with
  | Ok (Again, g') => Looping t c g'
  | Ok (Sleep, g') => Asleep t c g'
  | _ => Idle
  end.

Definition append (f : Z → list Z) (g : Z → list Z) : Z → list Z := λ c, f c ++ g c.

Context `{!RawQueueLaws Q P}.

(** [ReadBlocked] and [WriteBlocked] on a queue that is not terminated. *)
Definition read_blocked (s : qbase) : bool :=
  (q_count (que s) <? readrequest s) && negb (readshutdown s || writeshutdown s).
Definition write_blocked (s : qbase) : bool :=
  (rq_QueueLength (que s) - q_count (que s) <? writerequest s) &&
  negb (readshutdown s || writeshutdown s).

(** The growth that a turn asks for can be given ([request] and [blocked] are
    the other thread's). *)
Definition grow_fits (s : qbase) (t request : Z) (blocked : bool) : Prop :=
  growable s = true →
  (rq_MaxThreshold (que s) < t → q_can_grow (que s) (u32 (2 * t)) t) ∧
  (t ≤ rq_MaxThreshold (que s) → blocked = true → q_can_grow (que s) (u32 (request + t)) t).

(** The interleavings.  A node asks for thresholds of at least one byte that
    fit in 31 bits, enqueues and dequeues no more than it asked for, and does
    not use an end that it has shut down.  Anyone may call [Grow] (of a queue of which
    both ends hold pointers it fails).  The kernel is terminated under another lock
    than the queue's, and the queue is told afterwards; a wait may end by itself. *)
Inductive step : system → system → Prop :=
  (* the reader *)
  | R_start x t c o s' :
      rpc x = Idle → holds_lock (wpc x) = false → readshutdown (st x) = false →
      1 ≤ t < 1073741824 → 0 ≤ c < rq_NumChannels (que (st x)) →
      deq_start t (st x) = (o, s') →
      step x (settle s' (after_start o t c) (wpc x) (written x) (consumed x) (notifying x) (outgrown x))
  | R_turn x t c g o s' :
      rpc x = Looping t c g → grow_fits (st x) t (writerequest (st x)) (write_blocked (st x)) →
      deq_turn t c (st x) = (o, s') →
      step x (settle s' (after o t c g) (wpc x) (written x) (consumed x) (notifying x) (outgrown x))
  | R_wake x t c g o s' :
      rpc x = Awake t c g → holds_lock (wpc x) = false →
      WaitForData (st x) = (o, s') →
      step x (settle s' (after o t c g) (wpc x) (written x) (consumed x) (notifying x) (outgrown x))
  | R_dequeue x n o s' :
      rpc x = Idle → holds_lock (wpc x) = false → readshutdown (st x) = false →
      0 ≤ n ≤ dequeuethresh (st x) → indequeue (st x) = true →
      Dequeue n (st x) = (o, s') →
      step x (settle s' Idle (wpc x) (written x)
        (append (consumed x) (λ c, take (Z.to_nat n) (q_bytes (que (st x)) c)))
        (notifying x) (outgrown x))
  | R_shutdown x o s' :
      rpc x = Idle → holds_lock (wpc x) = false → ShutdownReader (st x) = (o, s') →
      step x (settle s' (rpc x) (wpc x) (written x) (consumed x) (notifying x) (outgrown x))
  (* the writer *)
  | W_start x t c o s' :
      wpc x = Idle → holds_lock (rpc x) = false → writeshutdown (st x) = false →
      1 ≤ t < 1073741824 → 0 ≤ c < rq_NumChannels (que (st x)) →
      enq_start t (st x) = (o, s') →
      step x (settle s' (rpc x) (after_start o t c) (written x) (consumed x) (notifying x) (outgrown x))
  | W_turn x t c g o s' :
      wpc x = Looping t c g → grow_fits (st x) t (readrequest (st x)) (read_blocked (st x)) →
      enq_turn t c g (st x) = (o, s') →
      step x (settle s' (rpc x) (after_enq o t c g) (written x) (consumed x) (notifying x)
        (looked (after_enq o t c g) (outgrown x)))
  | W_wake x t c g o s' :
      wpc x = Awake t c g → holds_lock (rpc x) = false →
      WaitForFreespace (st x) = (o, s') →
      step x (settle s' (rpc x) (after o t c g) (written x) (consumed x) (notifying x)
        (looked (after o t c g) (outgrown x)))
  | W_store x c p d q' :
      wpc x = Idle → inenqueue (st x) = true → 0 ≤ c < rq_NumChannels (que (st x)) →
      q_wview (que (st x)) c p → len d ≤ enqueuethresh (st x) →
      ptr_store (que (st x)) p d = Ok q' →
      step x (mk_sys (set_que (st x) q') (rpc x) (wpc x) (written x) (consumed x) (notifying x) (outgrown x))
  | W_enqueue x n o s' :
      wpc x = Idle → holds_lock (rpc x) = false → writeshutdown (st x) = false →
      0 ≤ n ≤ enqueuethresh (st x) → inenqueue (st x) = true →
      Enqueue n (st x) = (o, s') →
      step x (settle s' (rpc x) Idle
        (append (written x) (λ c, take (Z.to_nat n) (q_pending (que (st x)) c)))
        (consumed x) (notifying x) (outgrown x))
  | W_shutdown x o s' :
      wpc x = Idle → holds_lock (rpc x) = false → ShutdownWriter (st x) = (o, s') →
      step x (settle s' (rpc x) (wpc x) (written x) (consumed x) (notifying x) (outgrown x))
  (* the kernel, and anyone *)
  | K_terminate x :
      step x (mk_sys (set_terminated (st x)) (rpc x) (wpc x) (written x) (consumed x) true (outgrown x))
  | K_notify x o s' :
      holds_lock (rpc x) = false → holds_lock (wpc x) = false →
      NotifyTerminate (st x) = (o, s') →
      step x (settle s' (rpc x) (wpc x) (written x) (consumed x) false (outgrown x))
  | A_grow x l t o s' :
      holds_lock (rpc x) = false → holds_lock (wpc x) = false →
      inenqueue (st x) && indequeue (st x) = false → q_can_grow (que (st x)) l t →
      Grow l t (st x) = (o, s') →
      step x (settle s' (rpc x) (wpc x) (written x) (consumed x) (notifying x) true)
  | R_spurious x t c g : rpc x = Asleep t c g →
      step x (mk_sys (st x) (Awake t c g) (wpc x) (written x) (consumed x) (notifying x) (outgrown x))
  | W_spurious x t c g : wpc x = Asleep t c g →
      step x (mk_sys (st x) (rpc x) (Awake t c g) (written x) (consumed x) (notifying x) (outgrown x)).

(** ** What a turn does *)

(** The invariant of the members that the turns rely on. *)
Record ok (s : qbase) : Prop := {
  o_q : q_inv (inenqueue s) (indequeue s) (que s);
  o_enq : inenqueue s = true → 0 ≤ enqueuethresh s ≤ q_room (que s);
  o_deq : indequeue s = true → 0 ≤ dequeuethresh s ≤ q_avail (que s) }.

Lemma ReadBlocked_eq s : ok s →
  ReadBlocked s = if terminated s then (Err Shutdown, s) else (Ok (read_blocked s), s).
Proof.
  intros Hs. unfold ReadBlocked, CheckTerminated, UnlockedCount. mred.
  destruct (terminated s); mred; [done|]. by rewrite (l_count _ _ _ (o_q s Hs)).
Qed.
Lemma WriteBlocked_eq s : ok s →
  WriteBlocked s = if terminated s then (Err Shutdown, s) else (Ok (write_blocked s), s).
Proof.
  intros Hs. unfold WriteBlocked, CheckTerminated, UnlockedFreespace. mred.
  destruct (terminated s); mred; [done|]. by rewrite (l_free _ _ _ (o_q s Hs)).
Qed.

(** The outcomes of a turn of [GetRawDequeuePtr] for threshold [t]. *)
Inductive deq_result (s : qbase) (t c : Z) : res (turn P) → qbase → Prop :=
  | dr_ptr p : t ≤ q_avail (que s) → q_rview (que s) c p →
      deq_result s t c (Ok (Returned (Some p))) (set_deq s (dequeuethresh s) true)
  | dr_end : q_avail (que s) < t → indequeue s = false → writeshutdown s = true →
      deq_result s t c (Ok (Returned None)) s
  | dr_broken : q_avail (que s) < t → indequeue s = false →
      writeshutdown s = false → readshutdown s = true →
      deq_result s t c (Err (BrokenQueue (readerkey s))) s
  | dr_grow q' l : q_avail (que s) < t → indequeue s = false →
      writeshutdown s = false → readshutdown s = false → growable s = true →
      rq_MaxThreshold (que s) < t ∧ l = u32 (2 * t) ∨
      t ≤ rq_MaxThreshold (que s) ∧ terminated s = false ∧ write_blocked s = true ∧
        l = u32 (writerequest s + t) →
      rq_Grow (inenqueue s) false (que s) l t = Ok q' →
      deq_result s t c (Ok Again) (set_sig (set_que s q') true)
  | dr_terminated : q_avail (que s) < t → indequeue s = false → writeshutdown s = false →
      terminated s = true → deq_result s t c (Err Shutdown) s
  | dr_sleep : q_count (que s) < t → indequeue s = false → writeshutdown s = false →
      readshutdown s = false → terminated s = false →
      (growable s = true → write_blocked s = false) →
      deq_result s t c (Ok Sleep) (set_readrequest s t)
  | dr_spin : t ≤ q_count (que s) → rq_MaxThreshold (que s) < t → indequeue s = false →
      writeshutdown s = false → readshutdown s = false → terminated s = false →
      growable s = false →
      deq_result s t c (Ok Again) (set_readrequest s 0).

Definition deq_ready (s : qbase) (t c : Z) : Prop :=
  1 ≤ t < 1073741824 ∧ 0 ≤ c < rq_NumChannels (que s) ∧
  (indequeue s = true → t ≤ dequeuethresh s).

Lemma deq_turn_result s t c o s' : ok s → deq_ready s t c →
  grow_fits s t (writerequest s) (write_blocked s) → deq_turn t c s = (o, s') → deq_result s t c o s'.
Proof.
  intros Hs (Ht & Hc & Hin) Hfit. pose proof (o_q s Hs) as Hq.
  unfold deq_turn. mred.
  destruct (Z.le_gt_cases t (q_avail (que s))) as [Hav|Hav].
  { destruct (l_deq_ptr _ _ _ t c Hq Hc Hav) as (p & -> & Hp). cbn.
    intros [= <- <-]. by constructor. }
  assert (indequeue s = false) as Hid.
  { destruct (indequeue s) eqn:E; [|done]. pose proof (o_deq s Hs E). pose proof (Hin eq_refl).
    lia. }
  rewrite Hid in *. rewrite (l_deq_null _ _ t c Hq Hc Hav). cbn [bool_decide decide_rel].
  rewrite bool_decide_false by (by intros []). cbn [orb].
  destruct (writeshutdown s) eqn:Ews. { intros [= <- <-]. by constructor. }
  destruct (readshutdown s) eqn:Ers. { intros [= <- <-]. by constructor. }
  destruct (Z.ltb_spec (rq_MaxThreshold (que s)) t) as [HM|HM]; cbn [andb];
    [destruct (growable s) eqn:Eg|].
  - destruct (l_grow _ _ _ (u32 (2 * t)) t Hq (andb_false_r _)
      (proj1 (Hfit Eg) HM)) as (q' & E & _).
    unfold UnlockedGrow, Signal. mred. rewrite Hid, E. intros [= <- <-].
    apply dr_grow with (u32 (2 * t)); try done. by left.
  - rewrite WriteBlocked_eq by done. destruct (terminated s) eqn:Et.
    { intros [= <- <-]. by constructor. }
    rewrite andb_false_r. unfold WaitForData. mred.
    rewrite ReadBlocked_eq by (by destruct Hs; constructor). cbn [terminated set_readrequest].
    rewrite Et. unfold read_blocked. cbn. rewrite Ews, Ers. cbn.
    destruct (Z.ltb_spec (q_count (que s)) t); cbn; intros [= <- <-].
    + constructor; try done. by rewrite Eg.
    + change (set_readrequest (set_readrequest s t) 0) with (set_readrequest s 0).
      by apply dr_spin.
  - rewrite WriteBlocked_eq by done. destruct (terminated s) eqn:Et.
    { intros [= <- <-]. by constructor. }
    destruct (write_blocked s && growable s) eqn:Ewb.
    + apply andb_true_iff in Ewb as [Ewb Eg].
      destruct (l_grow _ _ _ (u32 (writerequest s + t)) t Hq (andb_false_r _)
        (proj2 (Hfit Eg) HM Ewb)) as (q' & E & _).
      unfold UnlockedGrow, Signal. mred. rewrite Hid, E. intros [= <- <-].
      apply dr_grow with (u32 (writerequest s + t)); try done. by right.
    + unfold WaitForData. mred.
      rewrite ReadBlocked_eq by (by destruct Hs; constructor). cbn [terminated set_readrequest].
      rewrite Et. unfold read_blocked. cbn. rewrite Ews, Ers. cbn.
      pose proof (l_avail _ _ Hq) as EA.
      destruct (Z.ltb_spec (q_count (que s)) t); cbn; intros [= <- <-]; [|lia].
      constructor; try done. intros Eg. by rewrite Eg, andb_true_r in Ewb.
Qed.

(** The outcomes of a turn of [GetRawEnqueuePtr]. *)
Inductive enq_result (s : qbase) (t c : Z) (g : bool) : res (turn P * bool) → qbase → Prop :=
  | er_ptr p : t ≤ q_room (que s) → q_wview (que s) c p →
      enq_result s t c g (Ok (Returned (Some p), g)) (set_enq s (enqueuethresh s) true)
  | er_broken : q_room (que s) < t → inenqueue s = false →
      readshutdown s = true ∨ writeshutdown s = true →
      enq_result s t c g (Err (BrokenQueue (writerkey s))) s
  | er_grow q' l g' : q_room (que s) < t → inenqueue s = false →
      writeshutdown s = false → readshutdown s = false → growable s = true →
      rq_MaxThreshold (que s) < t ∧ l = u32 (2 * t) ∧ g' = g ∨
      t ≤ rq_MaxThreshold (que s) ∧ terminated s = false ∧ read_blocked s = true ∧
        l = u32 (readrequest s + t) ∧ g = false ∧ g' = true →
      rq_Grow false (indequeue s) (que s) l t = Ok q' →
      enq_result s t c g (Ok (Again, g')) (set_sig (set_que s q') true)
  | er_terminated : q_room (que s) < t → inenqueue s = false →
      terminated s = true → ∀ s', s' = s ∨ s' = set_writerequest s t →
      enq_result s t c g (Err Shutdown) s'
  | er_sleep : rq_QueueLength (que s) - q_count (que s) < t → inenqueue s = false →
      writeshutdown s = false → readshutdown s = false → terminated s = false →
      (growable s = true → g = false → read_blocked s = false) →
      enq_result s t c g (Ok (Sleep, g)) (set_writerequest s t)
  | er_spin : t ≤ rq_QueueLength (que s) - q_count (que s) → rq_MaxThreshold (que s) < t →
      inenqueue s = false →
      writeshutdown s = false → readshutdown s = false → terminated s = false →
      growable s = false →
      enq_result s t c g (Ok (Again, g)) (set_writerequest s 0).

Definition enq_ready (s : qbase) (t c : Z) : Prop :=
  1 ≤ t < 1073741824 ∧ 0 ≤ c < rq_NumChannels (que s) ∧
  (inenqueue s = true → t ≤ enqueuethresh s).

(** The end of a turn that does not grow the queue. *)
Lemma enq_wait_result s t c g o s' : ok s → q_room (que s) < t → inenqueue s = false →
  writeshutdown s = false → readshutdown s = false →
  (rq_MaxThreshold (que s) < t → growable s = false) →
  (terminated s = false → growable s = true → g = false → read_blocked s = false) →
  (mmodify (λ s, set_writerequest s t) ;; w ← WaitForFreespace; mret (w, g)) s = (o, s') →
  enq_result s t c g o s'.
Proof.
  intros Hs Hr Hin Ews Ers Hgr Hrb. unfold WaitForFreespace. mred.
  pose proof (o_q s Hs) as Hq.
  rewrite WriteBlocked_eq by (by destruct Hs; constructor). cbn [terminated set_writerequest].
  destruct (terminated s) eqn:Et.
  { intros [= <- <-]. apply er_terminated; try done. by right. }
  unfold write_blocked. cbn. rewrite Ews, Ers. cbn. rewrite andb_true_r.
  rewrite Hin in Hq. pose proof (l_room _ _ Hq) as ER.
  destruct (Z.ltb_spec (rq_QueueLength (que s) - q_count (que s)) t); intros [= <- <-].
  - constructor; auto.
  - change (set_writerequest (set_writerequest s t) 0) with (set_writerequest s 0).
    apply er_spin; try done; [lia|]. apply Hgr. lia.
Qed.

Lemma enq_turn_result s t c g o s' : ok s → enq_ready s t c →
  grow_fits s t (readrequest s) (read_blocked s) → enq_turn t c g s = (o, s') → enq_result s t c g o s'.
Proof.
  intros Hs (Ht & Hc & Hin) Hfit. pose proof (o_q s Hs) as Hq.
  unfold enq_turn. mred.
  destruct (Z.le_gt_cases t (q_room (que s))) as [Hav|Hav].
  { destruct (l_enq_ptr _ _ _ t c Hq Hc Hav) as (p & -> & Hp). cbn.
    intros [= <- <-]. by constructor. }
  assert (inenqueue s = false) as Hid.
  { destruct (inenqueue s) eqn:E; [|done]. pose proof (o_enq s Hs E). pose proof (Hin eq_refl).
    lia. }
  rewrite Hid in *. rewrite (l_enq_null _ _ t c Hq Hc Hav).
  rewrite bool_decide_false by (by intros []).
  destruct (readshutdown s || writeshutdown s) eqn:Esh.
  { apply orb_true_iff in Esh. intros [= <- <-]. by constructor. }
  apply orb_false_iff in Esh as [Ers Ews].
  destruct (Z.ltb_spec (rq_MaxThreshold (que s)) t) as [HM|HM]; cbn [andb];
    [destruct (growable s) eqn:Eg|].
  - destruct (l_grow _ _ _ (u32 (2 * t)) t Hq eq_refl
      (proj1 (Hfit Eg) HM)) as (q' & E & _).
    unfold UnlockedGrow, Signal. mred. rewrite Hid, E. intros [= <- <-].
    apply er_grow with (u32 (2 * t)); try done. left. by split_and!.
  - destruct g; mred; cbn [andb].
    + intros E. apply enq_wait_result; done || by rewrite Eg.
    + rewrite ReadBlocked_eq by done. destruct (terminated s) eqn:Et.
      { intros [= <- <-]. apply er_terminated; try done. by left. }
      rewrite andb_false_r. intros E. apply enq_wait_result; done || by rewrite Eg.
  - destruct g; mred; cbn [andb].
    + intros E. apply enq_wait_result; done || lia.
    + rewrite ReadBlocked_eq by done. destruct (terminated s) eqn:Et.
      { intros [= <- <-]. apply er_terminated; try done. by left. }
      destruct (read_blocked s && growable s) eqn:Erb.
      * apply andb_true_iff in Erb as [Erb Eg].
        destruct (l_grow _ _ _ (u32 (readrequest s + t)) t Hq eq_refl
        (proj2 (Hfit Eg) HM Erb)) as (q' & E & _).
        unfold UnlockedGrow, Signal. mred. rewrite Hid, E. intros [= <- <-].
        apply er_grow with (u32 (readrequest s + t)); try done. right. by split_and!.
      * intros E. apply enq_wait_result; try done; try lia.
        intros _ Eg _. by rewrite Eg, andb_true_r in Erb.
Qed.

(** ** The invariant of the two threads *)

(** What a thread in the middle of a call relies on.  A sleeping thread is
    blocked, or a broadcast is on its way, or the queue was [Grow]n under a writer;
    and who terminates the kernel has yet to tell it. *)
Definition reader_ok (n : bool) (s : qbase) (p : pc) : Prop :=
  match p with
  | Idle => True
  | Looping t c _ => deq_ready s t c ∧ (indequeue s = false → dequeuethresh s = t)
  | Asleep t c _ | Awake t c _ =>
      (deq_ready s t c ∧ dequeuethresh s = t ∧ indequeue s = false ∧ readrequest s = t) ∧
      (is_asleep p → sig s = false →
       read_blocked s = true ∧ (n = false → terminated s = false))
  end.
Definition writer_ok (n og : bool) (s : qbase) (p : pc) : Prop :=
  match p with
  | Idle => True
  | Looping t c g => enq_ready s t c ∧ (inenqueue s = false → enqueuethresh s = t) ∧
      (g = true → t ≤ q_room (que s))
  | Asleep t c g | Awake t c g =>
      (enq_ready s t c ∧ enqueuethresh s = t ∧ inenqueue s = false ∧ writerequest s = t ∧
       g = false) ∧
      (is_asleep p → sig s = false →
       (readshutdown s || writeshutdown s = false ∧ (og = false → write_blocked s = true)) ∧
       (n = false → terminated s = false))
  end.

Record pre (x : system) : Prop := {
  i_ok : ok (st x);
  i_rreq : 0 ≤ readrequest (st x) < 1073741824;
  i_wreq : 0 ≤ writerequest (st x) < 1073741824;
  i_r : reader_ok (notifying x) (st x) (rpc x);
  i_w : writer_ok (notifying x) (outgrown x) (st x) (wpc x);
  i_lock : holds_lock (rpc x) = true → holds_lock (wpc x) = false;
  i_meet : growable (st x) = true → waiting (rpc x) → waiting (wpc x) →
    read_blocked (st x) = true → write_blocked (st x) = false;
  i_stream c : 0 ≤ c < rq_NumChannels (que (st x)) →
    written x c = consumed x c ++ q_bytes (que (st x)) c }.
Record inv (x : system) : Prop := { i_pre : pre x; i_sig : sig (st x) = false }.

Lemma settle_inv s r w wr co n g :
  pre (mk_sys s r w wr co n g) → inv (settle s r w wr co n g).
Proof.
  intros []; cbn in *. unfold settle. destruct (sig s) eqn:E; [|by split].
  split; [|done]. constructor; cbn; try done.
  - by destruct i_ok0; constructor.
  - destruct r; cbn in *; try done; by destruct i_r0.
  - destruct w; cbn in *; try done; by destruct i_w0.
  - by destruct r, w.
  - intros. apply i_meet0; try done; by destruct r, w.
Qed.

(** What the other thread may do to the object under a reader, or a writer,
    that is not looping. *)
Record under_reader (s s' : qbase) : Prop := {
  ur_chans : rq_NumChannels (que s') = rq_NumChannels (que s);
  ur_req : readrequest s' = readrequest s;
  ur_thresh : dequeuethresh s' = dequeuethresh s;
  ur_in : indequeue s' = indequeue s;
  ur_wake : sig s' = true ∨ sig s' = sig s ∧ terminated s' = terminated s ∧
    (read_blocked s = true → read_blocked s' = true) }.
Record under_writer (s s' : qbase) : Prop := {
  uw_chans : rq_NumChannels (que s') = rq_NumChannels (que s);
  uw_req : writerequest s' = writerequest s;
  uw_thresh : enqueuethresh s' = enqueuethresh s;
  uw_in : inenqueue s' = inenqueue s;
  uw_wake : sig s' = true ∨ sig s' = sig s ∧ terminated s' = terminated s ∧
    readshutdown s' || writeshutdown s' = readshutdown s || writeshutdown s ∧
    (write_blocked s = true → write_blocked s' = true) }.

Lemma reader_under n s s' p : under_reader s s' → holds_lock p = false →
  reader_ok n s p → reader_ok n s' p.
Proof.
  intros [E1 E2 E3 E4 E5] Hl. destruct p; cbn in *; try done; unfold deq_ready;
    rewrite E1, E2, E3, E4; intros [HA HB]; (split; [done|]); intros Ha Hs'; [|done].
  destruct E5 as [?|(? & Et & ?)]; [congruence|].
  destruct HB as [HB1 HB2]; [done|congruence|]. rewrite Et. split; auto.
Qed.
Lemma writer_under n g s s' p : under_writer s s' → holds_lock p = false →
  writer_ok n g s p → writer_ok n g s' p.
Proof.
  intros [E1 E2 E3 E4 E5] Hl. destruct p; cbn in *; try done; unfold enq_ready;
    rewrite E1, E2, E3, E4; intros [HA HB]; (split; [done|]); intros Ha Hs'; [|done].
  destruct E5 as [?|(? & Et & Eo & ?)]; [congruence|].
  destruct HB as [[HB0 HB1] HB2]; [done|congruence|]. rewrite Et, Eo. split_and!; auto.
Qed.

(** Storing a member of the object does not touch the queue. *)
Lemma ok_members s s' : ok s → que s' = que s → inenqueue s' = inenqueue s →
  indequeue s' = indequeue s →
  (inenqueue s = true → enqueuethresh s' = enqueuethresh s) →
  (indequeue s = true → dequeuethresh s' = dequeuethresh s) → ok s'.
Proof.
  intros [] E1 E2 E3 E4 E5.
  constructor; rewrite E1, ?E2, ?E3; try done; intros Hx; rewrite ?E4, ?E5; auto.
Qed.

Lemma turn_reader x t c g o s' : inv x → rpc x = Looping t c g →
  deq_result (st x) t c o s' →
  (∀ l, growable (st x) = true →
    rq_MaxThreshold (que (st x)) < t ∧ l = u32 (2 * t) ∨
    t ≤ rq_MaxThreshold (que (st x)) ∧ write_blocked (st x) = true ∧
      l = u32 (writerequest (st x) + t) → q_can_grow (que (st x)) l t) →
  pre (mk_sys s' (after o t c g) (wpc x) (written x) (consumed x) (notifying x) (outgrown x)).
Proof.
  intros [[Hok Hr Hw Hro Hwo Hl Hm Hs] Hsig] Epc Hres Hfit.
  rewrite Epc in *. cbn in Hro. destruct Hro as [Hrd Hth]. specialize (Hl eq_refl).
  pose proof Hrd as (Ht & Hc & Hin). pose proof (o_q _ Hok) as Hq.
  destruct Hres as [p Ha Hv|Ha Hi Hsw|Ha Hi Hsw Hsr|q' l Ha Hi Hsw Hsr Hg Hcase Eg|Ha Hi Hsw Hte
    |Ha Hi Hsw Hsr Hte Hnb|Ha HM Hi Hsw Hsr Hte Hg]; cbn [after].
  - constructor; cbn; try done.
    + destruct Hok. constructor; cbn; [by apply l_set_deq with (id := indequeue (st x))|done|].
      intros _. destruct (indequeue (st x)); [auto|]. rewrite Hth by done. lia.
  - by constructor.
  - by constructor.
  - destruct (l_grow _ _ _ l t Hq) as (q1 & E & Hq1 & Hch & Hcnt & HQ & HM & Hwk & _ & Hb);
      [by rewrite Hi, andb_false_r|apply Hfit; [done|tauto]|].
    assert (q1 = q') as -> by (rewrite Hi in E; congruence).
    constructor; cbn; rewrite ?Hch; try done.
    + constructor; cbn; [done| |by rewrite Hi].
      intros Hie. destruct (Hwk Hie) as [-> _]. by apply Hok.
    + unfold deq_ready. cbn. by rewrite Hch.
    + eapply writer_under; [|done|done]. constructor; cbn; auto.
    + intros ch Hch'. rewrite (proj1 (Hb ch Hch')). auto.
  - by constructor.
  - constructor; cbn; try done; try lia.
    + by eapply ok_members.
    + split; [by rewrite Hth|]. intros _ _. unfold read_blocked. cbn. rewrite Hsw, Hsr.
      by rewrite (proj2 (Z.ltb_lt _ _)).
    + intros Hg _ _ _. by apply Hnb.
  - constructor; cbn; try done; try lia.
    + by eapply ok_members.
Qed.

Lemma turn_writer x t c g o s' : inv x → wpc x = Looping t c g →
  enq_result (st x) t c g o s' →
  (∀ l, growable (st x) = true →
    rq_MaxThreshold (que (st x)) < t ∧ l = u32 (2 * t) ∨
    t ≤ rq_MaxThreshold (que (st x)) ∧ read_blocked (st x) = true ∧
      l = u32 (readrequest (st x) + t) → q_can_grow (que (st x)) l t) →
  pre (mk_sys s' (rpc x) (after_enq o t c g) (written x) (consumed x) (notifying x)
    (looked (after_enq o t c g) (outgrown x))).
Proof.
  intros [[Hok Hr Hw Hro Hwo Hl Hm Hs] Hsig] Epc Hres Hfit.
  rewrite Epc in *. cbn in Hwo. destruct Hwo as (Hrd & Hth & Hgr).
  assert (holds_lock (rpc x) = false) as Hl' by (destruct (holds_lock (rpc x)); naive_solver).
  pose proof Hrd as (Ht & Hc & Hin). pose proof (o_q _ Hok) as Hq.
  pose proof (l_bounds _ _ _ Hq) as Hbd.
  destruct Hres as [p Ha Hv|Ha Hi Hsw|q' l g' Ha Hi Hsw Hsr Hg Hcase Eg|Ha Hi Hte s' Es'
    |Ha Hi Hsw Hsr Hte Hnb|Ha HM Hi Hsw Hsr Hte Hg]; cbn [after_enq].
  - constructor; cbn; try done.
    destruct Hok. constructor; cbn; [by apply l_set_enq with (ie := inenqueue (st x))| |done].
    intros _. destruct (inenqueue (st x)); [auto|]. rewrite Hth by done. lia.
  - by constructor.
  - destruct (l_grow _ _ _ l t Hq) as (q1 & E & Hq1 & Hch & Hcnt & HQ & HM & _ & Hrk & Hb);
      [by rewrite Hi|apply Hfit; [done|tauto]|].
    assert (q1 = q') as -> by (rewrite Hi in E; congruence).
    constructor; cbn; rewrite ?Hch; try done.
    + constructor; cbn; [done|by rewrite Hi|].
      intros Hid. destruct (Hrk Hid) as [-> _]. by apply Hok.
    + eapply reader_under; [|done|done]. constructor; cbn; auto.
    + unfold enq_ready. cbn. rewrite Hch. split; [done|]. split; [done|]. intros ->.
      destruct Hcase as [(? & ? & <-)|(_ & _ & Hrb & -> & _)]; [specialize (Hgr eq_refl); lia|].
      rewrite Hi in Hq1. rewrite (l_room _ _ Hq1), Hcnt.
      apply andb_true_iff in Hrb as [Hrb _]. apply Z.ltb_lt in Hrb.
      rewrite u32_id in HQ by lia. lia.
    + intros ch Hch'. rewrite (proj1 (Hb ch Hch')). auto.
  - destruct Es' as [-> | ->]; constructor; cbn; try done; try lia. by eapply ok_members.
  - constructor; cbn; try done; try lia.
    + by eapply ok_members.
    + split.
      * split_and!; try done; [by rewrite Hth|]. destruct g; [|done]. specialize (Hgr eq_refl).
        lia.
      * intros _ _. unfold write_blocked. cbn. rewrite Hsw, Hsr.
        by rewrite (proj2 (Z.ltb_lt _ _)).
    + intros Hg _ _ Hrb. destruct g; [specialize (Hgr eq_refl); lia|].
      change (read_blocked (st x) = true) in Hrb. by rewrite (Hnb Hg eq_refl) in Hrb.
  - constructor; cbn; try done; try lia. by eapply ok_members.
Qed.

Lemma start_reader x t c o s' : inv x → rpc x = Idle → holds_lock (wpc x) = false →
  1 ≤ t < 1073741824 → 0 ≤ c < rq_NumChannels (que (st x)) →
  deq_start t (st x) = (o, s') →
  pre (mk_sys s' (after_start o t c) (wpc x) (written x) (consumed x) (notifying x) (outgrown x)).
Proof.
  intros [[Hok Hr Hw Hro Hwo Hl Hm Hs] Hsig] Epc Hlw Ht Hc.
  unfold deq_start, CheckTerminated. mred.
  destruct (terminated (st x)) eqn:Ete; mred; [intros [= <- <-]; by constructor|].
  destruct (indequeue (st x)) eqn:Ein; mred.
  - destruct (Z.leb_spec t (dequeuethresh (st x))); mred; intros [= <- <-]; constructor; cbn;
      try (done || congruence). unfold deq_ready. rewrite Ein. split_and!; done || lia.
  - intros [= <- <-]. constructor; cbn; try (done || congruence).
    by eapply ok_members; cbn; rewrite ?Ein.
Qed.

Lemma start_writer x t c o s' : inv x → wpc x = Idle → holds_lock (rpc x) = false →
  1 ≤ t < 1073741824 → 0 ≤ c < rq_NumChannels (que (st x)) →
  enq_start t (st x) = (o, s') →
  pre (mk_sys s' (rpc x) (after_start o t c) (written x) (consumed x) (notifying x) (outgrown x)).
Proof.
  intros [[Hok Hr Hw Hro Hwo Hl Hm Hs] Hsig] Epc Hlw Ht Hc.
  unfold enq_start, CheckTerminated. mred.
  destruct (terminated (st x)) eqn:Ete; mred; [intros [= <- <-]; by constructor|].
  destruct (inenqueue (st x)) eqn:Ein; mred.
  - destruct (Z.leb_spec t (enqueuethresh (st x))); mred; intros [= <- <-]; constructor; cbn;
      try (done || congruence). unfold enq_ready. rewrite Ein. split_and!; done || lia.
  - intros [= <- <-]. constructor; cbn; try (done || congruence).
    by eapply ok_members; cbn; rewrite ?Ein.
Qed.

Lemma wake_reader x t c g o s' : inv x → rpc x = Awake t c g → holds_lock (wpc x) = false →
  WaitForData (st x) = (o, s') →
  pre (mk_sys s' (after o t c g) (wpc x) (written x) (consumed x) (notifying x) (outgrown x)).
Proof.
  intros [[Hok Hr Hw Hro Hwo Hl Hm Hs] Hsig] Epc Hlw.
  rewrite Epc in *. destruct Hro as [(Hrd & Hth & Hin & Hreq) _].
  unfold WaitForData. mred. rewrite ReadBlocked_eq by done.
  destruct (terminated (st x)) eqn:Ete; [intros [= <- <-]; by constructor|].
  destruct (read_blocked (st x)) eqn:Erb; intros [= <- <-]; constructor; cbn; try (done || congruence).
  - intros Hg _ Hww _. by apply Hm.
  - by eapply ok_members.
Qed.

Lemma wake_writer x t c g o s' : inv x → wpc x = Awake t c g → holds_lock (rpc x) = false →
  WaitForFreespace (st x) = (o, s') →
  pre (mk_sys s' (rpc x) (after o t c g) (written x) (consumed x) (notifying x)
    (looked (after o t c g) (outgrown x))).
Proof.
  intros [[Hok Hr Hw Hro Hwo Hl Hm Hs] Hsig] Epc Hlw.
  rewrite Epc in *. destruct Hwo as [(Hrd & Hth & Hin & Hreq & ->) _].
  unfold WaitForFreespace. mred. rewrite WriteBlocked_eq by done.
  destruct (terminated (st x)) eqn:Ete; [intros [= <- <-]; by constructor|].
  destruct (write_blocked (st x)) eqn:Erb; intros [= <- <-]; constructor; cbn; try (done || congruence).
  - split; [done|]. intros _ _. split; [split|]; try done. unfold write_blocked in Erb.
    by apply andb_prop in Erb as [_ ?%negb_true_iff].
  - intros Hg Hrw _ Hb. by specialize (Hm Hg Hrw I Hb).
  - by eapply ok_members.
Qed.

(** Releasing data or room wakes the other thread unless it stays blocked. *)
Lemma notify_freespace_under s : ok s →
  ∃ s', NotifyFreespace s = (Ok tt, s') ∧
    (s' = set_sig s true ∨ s' = s ∧
     rq_QueueLength (que s) - q_count (que s) < writerequest s).
Proof.
  intros Hs. unfold NotifyFreespace, UnlockedFreespace, Signal. mred.
  rewrite (l_free _ _ _ (o_q s Hs)). zcases; eauto.
Qed.
Lemma notify_data_under s : ok s →
  ∃ s', NotifyData s = (Ok tt, s') ∧
    (s' = set_sig s true ∨ s' = s ∧ q_count (que s) < readrequest s).
Proof.
  intros Hs. unfold NotifyData, UnlockedCount, Signal. mred.
  rewrite (l_count _ _ _ (o_q s Hs)). zcases; eauto.
Qed.

Lemma dequeue_pre x n o s' : inv x → rpc x = Idle → holds_lock (wpc x) = false →
  readshutdown (st x) = false → 0 ≤ n ≤ dequeuethresh (st x) → indequeue (st x) = true →
  Dequeue n (st x) = (o, s') →
  o = Ok tt ∧ pre (mk_sys s' Idle (wpc x) (written x)
    (append (consumed x) (λ c, take (Z.to_nat n) (q_bytes (que (st x)) c)))
    (notifying x) (outgrown x)).
Proof.
  intros [[Hok Hr Hw Hro Hwo Hl Hm Hs] Hsig] Epc Hlw Hsr Hn Hin.
  pose proof (o_q _ Hok) as Hq. pose proof (l_bounds _ _ _ Hq) as Hbd.
  pose proof (o_deq _ Hok Hin).
  destruct (l_dequeue _ _ _ n Hq ltac:(lia))
    as (q' & E & Hq' & Hch & HQ & HM & Hcnt & Hwv & Hrm & Hb).
  unfold Dequeue. mred. cbn. rewrite Hsr, E. mred.
  set (s1 := set_que (set_deq (st x) 0 false) q').
  assert (ok s1) as Hok1.
  { constructor; cbn; [done| |done]. intros Hie. pose proof (o_enq _ Hok Hie). lia. }
  destruct (notify_freespace_under s1 Hok1) as (s2 & -> & Hs2).
  intros [= <- <-]. split; [done|].
  assert (∀ s, s = set_sig s1 true ∨ s = s1 ∧ rq_QueueLength (que s1) - q_count (que s1)
    < writerequest s1 → under_writer (st x) s) as Hu.
  { intros s [-> | [-> Hlt]]; constructor; cbn in *; auto. right. split_and!; try done.
    unfold write_blocked. cbn. rewrite !andb_true_iff, !Z.ltb_lt. tauto. }
  assert (∀ c, 0 ≤ c < rq_NumChannels q' → written x c =
    append (consumed x) (λ c, take (Z.to_nat n) (q_bytes (que (st x)) c)) c ++ q_bytes q' c) as Hst.
  { rewrite Hch. intros c Hc. unfold append. rewrite <- app_assoc.
    by rewrite (proj1 (Hb c Hc)), take_drop, Hs. }
  pose proof (writer_under _ _ _ _ _ (Hu s2 Hs2) Hlw Hwo).
  destruct Hs2 as [-> | [-> _]]; constructor; try done. by eapply ok_members.
Qed.

Lemma enqueue_pre x n o s' : inv x → wpc x = Idle → holds_lock (rpc x) = false →
  writeshutdown (st x) = false → 0 ≤ n ≤ enqueuethresh (st x) → inenqueue (st x) = true →
  Enqueue n (st x) = (o, s') →
  o = Ok tt ∧ pre (mk_sys s' (rpc x) Idle
    (append (written x) (λ c, take (Z.to_nat n) (q_pending (que (st x)) c))) (consumed x)
    (notifying x) (outgrown x)).
Proof.
  intros [[Hok Hr Hw Hro Hwo Hl Hm Hs] Hsig] Epc Hlw Hsr Hn Hin.
  pose proof (o_q _ Hok) as Hq. pose proof (l_bounds _ _ _ Hq) as Hbd.
  pose proof (o_enq _ Hok Hin).
  destruct (l_enqueue _ _ _ n Hq ltac:(lia))
    as (q' & E & Hq' & Hch & HQ & HM & Hcnt & Hav & Hrv & Hb).
  unfold Enqueue. mred. cbn. rewrite Hsr, E. mred.
  set (s1 := set_que (set_enq (st x) 0 false) q').
  assert (ok s1) as Hok1.
  { constructor; cbn; [done|done|]. intros Hid. pose proof (o_deq _ Hok Hid). lia. }
  destruct (notify_data_under s1 Hok1) as (s2 & -> & Hs2).
  intros [= <- <-]. split; [done|].
  assert (∀ s, s = set_sig s1 true ∨ s = s1 ∧ q_count (que s1) < readrequest s1 →
    under_reader (st x) s) as Hu.
  { intros s [-> | [-> Hlt]]; constructor; cbn in *; auto. right. split_and!; try done.
    unfold read_blocked. cbn. rewrite !andb_true_iff, !Z.ltb_lt. tauto. }
  assert (∀ c, 0 ≤ c < rq_NumChannels q' →
    append (written x) (λ c, take (Z.to_nat n) (q_pending (que (st x)) c)) c =
    consumed x c ++ q_bytes q' c) as Hst.
  { rewrite Hch. intros c Hc. unfold append. by rewrite Hs, Hb, app_assoc. }
  pose proof (reader_under _ _ _ _ (Hu s2 Hs2) Hlw Hro).
  destruct Hs2 as [-> | [-> _]]; constructor; try done; try (cbn; congruence).
  by eapply ok_members.
Qed.

Lemma store_inv x c p d q' : inv x → wpc x = Idle → 0 ≤ c < rq_NumChannels (que (st x)) →
  inenqueue (st x) = true → q_wview (que (st x)) c p → len d ≤ enqueuethresh (st x) →
  ptr_store (que (st x)) p d = Ok q' →
  inv (mk_sys (set_que (st x) q') (rpc x) (wpc x) (written x) (consumed x) (notifying x) (outgrown x)).
Proof.
  intros [[Hok Hr Hw Hro Hwo Hl Hm Hs] Hsig] Epc Hc Hin Hv Hd E.
  pose proof (o_enq _ Hok Hin). rewrite Epc in *.
  destruct (l_store _ _ _ c p d (o_q _ Hok) Hc Hv ltac:(lia))
    as (q1 & E1 & Hq1 & Hch & HQ & HM & Hcnt & Hrm & Hav & _ & _ & Hb).
  assert (q1 = q') as -> by congruence.
  split; [|done]. constructor; cbn; try done.
  - destruct Hok. constructor; cbn; rewrite ?Hrm, ?Hav; done.
  - destruct (rpc x); cbn in *; unfold deq_ready, read_blocked; cbn; by rewrite ?Hch, ?Hcnt.
  - rewrite Hch. intros c' Hc'. by rewrite (proj1 (Hb c' Hc')), Hs.
Qed.

(** [Grow] makes room under a writer that may be asleep; a reader does not notice. *)
Lemma grow_pre x l t o s' : inv x → holds_lock (rpc x) = false → holds_lock (wpc x) = false →
  inenqueue (st x) && indequeue (st x) = false → q_can_grow (que (st x)) l t →
  Grow l t (st x) = (o, s') →
  pre (mk_sys s' (rpc x) (wpc x) (written x) (consumed x) (notifying x) true).
Proof.
  intros [[Hok Hr Hw Hro Hwo Hl Hm Hs] Hsig] Hlr Hlw Hio Hcan.
  destruct (l_grow _ _ _ l t (o_q _ Hok) Hio Hcan)
    as (q' & E & Hq' & Hch & Hcnt & HQ & HM & Hwk & Hrk & Hb).
  unfold Grow, UnlockedGrow. mred. rewrite E. intros [= <- <-].
  constructor; cbn; rewrite ?Hch; try done.
  - constructor; cbn; [done|..]; intros Hi.
    + destruct (Hwk Hi) as [-> _]. by apply Hok.
    + destruct (Hrk Hi) as [-> _]. by apply Hok.
  - eapply reader_under; [|done|done]. constructor; cbn; try done. right. split_and!; try done.
    unfold read_blocked. cbn. by rewrite Hcnt.
  - destruct (wpc x); cbn in *; try done; unfold enq_ready in *; cbn; rewrite Hch; destruct Hwo as [HA HB];
      (split; [done|]); intros Ha Hg; destruct (HB Ha Hg) as [[? _] ?]; by split_and!.
  - intros Hg Hrw Hww Hrb. unfold read_blocked in Hrb. cbn in Hrb. rewrite Hcnt in Hrb.
    specialize (Hm Hg Hrw Hww Hrb). unfold write_blocked in *. cbn. rewrite Hcnt.
    apply andb_false_iff in Hm as [Hm|Hm]; apply andb_false_iff; [left|by right].
    apply Z.ltb_ge in Hm. apply Z.ltb_ge. lia.
  - intros ch Hch'. rewrite (proj1 (Hb ch Hch')). auto.
Qed.

(** Every step keeps the invariant. *)
Lemma qb_step_inv x y : inv x → step x y → inv y.
Proof.
  intros Hx Hstep.
  pose proof Hx as [[Hok Hr Hw Hro Hwo Hl Hm Hs] Hsig].
  destruct Hstep as [x t c o s' Hp Hlk Hsd Ht Hc E|x t c g o s' Hp Hfit E|x t c g o s' Hp Hlk E
    |x n o s' Hp Hlk Hsd Hn Hin E|x o s' Hp Hlk E
    |x t c o s' Hp Hlk Hsd Ht Hc E|x t c g o s' Hp Hfit E|x t c g o s' Hp Hlk E
    |x c p d q' Hp Hin Hc Hv Hd E|x n o s' Hp Hlk Hsd Hn Hin E|x o s' Hp Hlk E
    |x|x o s' Hlk Hlk' E|x l t o s' Hlk Hlk' Hio Hcan E|x t c g Hp|x t c g Hp]; try apply settle_inv.
  - by eapply start_reader in E.
  - rewrite Hp in Hro. destruct Hro as [Hrd _]. apply (turn_reader x t c g o s'); try done.
    + by eapply deq_turn_result.
    + intros l Hg. specialize (Hfit Hg). naive_solver.
  - by apply (wake_reader x t c g) in E.
  - by apply dequeue_pre in E as [_ E].
  - unfold ShutdownReader, Signal in E. revert E. mred. intros [= <- <-].
    rewrite Hp in *. constructor; cbn; try done; [by eapply ok_members|].
    eapply writer_under; [|done|done]. constructor; cbn; auto.
  - by eapply start_writer in E.
  - rewrite Hp in Hwo. destruct Hwo as [Hrd _]. apply (turn_writer x t c g o s'); try done.
    + by eapply enq_turn_result.
    + intros l Hg. specialize (Hfit Hg). naive_solver.
  - by apply (wake_writer x t c g) in E.
  - by apply (store_inv x c p d).
  - by apply enqueue_pre in E as [_ E].
  - unfold ShutdownWriter, Signal in E. revert E. mred. intros [= <- <-].
    rewrite Hp in *. constructor; cbn; try done; [by eapply ok_members|].
    eapply reader_under; [|done|done]. constructor; cbn; auto.
  - split; [|done]. constructor; cbn; try done; [by eapply ok_members| |].
    + destruct (rpc x); cbn in *; try done; destruct Hro as [HA HB]; (split; [done|]);
        intros Ha Hg; destruct (HB Ha Hg) as [? _]; by split.
    + destruct (wpc x); cbn in *; try done; destruct Hwo as [HA HB]; (split; [done|]);
        intros Ha Hg; destruct (HB Ha Hg) as [? _]; by split.
  - unfold NotifyTerminate, Signal in E. revert E. mred. intros [= <- <-].
    constructor; cbn; try done; [by eapply ok_members|..].
    + destruct (rpc x); cbn in *; try done; destruct Hro as [HA _]; by split.
    + destruct (wpc x); cbn in *; try done; destruct Hwo as [HA _]; by split.
  - by eapply grow_pre.
  - rewrite Hp in *. split; [|done]. constructor; cbn; try done. destruct Hro as [HA _]. by split.
  - rewrite Hp in *. split; [|done]. constructor; cbn; try done. destruct Hwo as [HA _]. by split.
Qed.

(** A new queue, empty, and two threads that have not called it yet. *)
Definition initial (x : system) : Prop :=
  ∃ q rkey wkey term grow, q_inv false false q ∧ q_count q = 0 ∧
    x = mk_sys (make q rkey wkey term grow) Idle Idle (λ _, []) (λ _, []) false false.

Lemma initial_inv x : initial x → inv x.
Proof.
  intros (q & rk & wk & te & gr & Hq & Hc & ->). split; [|done].
  constructor; cbn; try done.
  intros c Hch. symmetry. apply length_zero_iff_nil.
  pose proof (proj1 (l_len _ _ _ c Hq Hch)) as Hl. unfold len in Hl. lia.
Qed.

Lemma qb_reachable_inv x0 x : initial x0 → rtc step x0 x → inv x.
Proof.
  intros H0 Hr. apply initial_inv in H0. revert H0.
  induction Hr; eauto using qb_step_inv.
Qed.

(** ** The theorems *)

(** C6: no wake-up is lost, and the two threads never wait for each other, but for
    what a [Grow] from outside does.  In every state the threads can reach, a reader
    asleep in [GetRawDequeuePtr] has fewer bytes than it asked for, and a writer
    asleep in [GetRawEnqueuePtr] less room than it asked for, unless the public
    [Grow] was called since it looked; neither end is shut down, and the kernel is
    not terminated, or who terminated it has yet to tell the queue.  When the
    kernel lets queues grow, and nobody outside grew this one, the reader and the
    writer are never asleep together: whoever finds the other blocked makes room. *)
Theorem sleepers_are_blocked x0 x : initial x0 → rtc step x0 x →
  (∀ t c g, rpc x = Asleep t c g → q_count (que (st x)) < t ∧
     readshutdown (st x) = false ∧ writeshutdown (st x) = false ∧
     (terminated (st x) = true → notifying x = true)) ∧
  (∀ t c g, wpc x = Asleep t c g →
     (outgrown x = false → rq_QueueLength (que (st x)) - q_count (que (st x)) < t) ∧
     readshutdown (st x) = false ∧ writeshutdown (st x) = false ∧
     (terminated (st x) = true → notifying x = true)) ∧
  (growable (st x) = true → outgrown x = false → is_asleep (rpc x) → is_asleep (wpc x) → False).
Proof.
  intros H0 Hr. destruct (qb_reachable_inv _ _ H0 Hr) as [[Hok Hrr Hww Hro Hwo Hl Hm Hs] Hsig].
  unfold read_blocked, write_blocked in *.
  assert (∀ a b, negb (a || b) = true → a = false ∧ b = false) as Hn by (by intros [] []).
  assert (∀ a b, (a = false → b = false) → b = true → a = true) as Hc
    by (intros [] b Hab Hb; [done|by rewrite (Hab eq_refl) in Hb]).
  split_and!.
  - intros t c g E. rewrite E in Hro. destruct Hro as [(_ & _ & _ & Hq) Hb].
    destruct (Hb I Hsig) as [[HA HB]%andb_true_iff HC]. apply Z.ltb_lt in HA.
    apply Hn in HB. split_and!; [lia|tauto|tauto|by apply Hc].
  - intros t c g E. rewrite E in Hwo. destruct Hwo as [(_ & _ & _ & Hq & _) Hb].
    destruct (Hb I Hsig) as [[HO HW] HC]. apply orb_false_iff in HO as [HO1 HO2].
    split_and!; [|done|done|by apply Hc]. intros Hg.
    destruct (andb_prop _ _ (HW Hg)) as [HA _]. apply Z.ltb_lt in HA. lia.
  - intros Hg Hu Hra Hwa. destruct (rpc x); try done. destruct (wpc x); try done.
    destruct Hro as [_ [Hrb _]]; [done..|]. destruct Hwo as [_ [[_ Hwb] _]]; [done..|].
    specialize (Hm Hg I I Hrb). specialize (Hwb Hu). unfold read_blocked, write_blocked in *. congruence.
Qed.

(** C3: the queue is a stream.  In every state the threads can reach, what the
    reader has dequeued from a channel followed by what the queue holds for it
    is exactly what the writer has enqueued on it, whatever growing, blocking
    and waking went on in between; and a pointer that [GetRawDequeuePtr]
    returns for threshold [t] leads to the next [t] bytes of that stream.  A
    null pointer is returned just when the writer has shut down and fewer than
    [t] bytes are left, or [t] is beyond the maximum threshold
    ([null_before_the_end]). *)
Theorem queue_is_a_stream x0 x : initial x0 → rtc step x0 x →
  (∀ c, 0 ≤ c < rq_NumChannels (que (st x)) →
     written x c = consumed x c ++ q_bytes (que (st x)) c) ∧
  ∀ t c g o s', rpc x = Looping t c g →
    grow_fits (st x) t (writerequest (st x)) (write_blocked (st x)) →
    deq_turn t c (st x) = (o, s') →
    (∀ p, o = Ok (Returned (Some p)) → ptr_load (que s') p t =
        Ok (take (Z.to_nat t) (drop (length (consumed x c)) (written x c)))) ∧
    (indequeue (st x) = false → o = Ok (Returned None) ↔ writeshutdown (st x) = true ∧
       (len (drop (length (consumed x c)) (written x c)) < t ∨ rq_MaxThreshold (que (st x)) < t)) ∧
    (indequeue (st x) = true → ∃ p, o = Ok (Returned (Some p))).
Proof.
  intros H0 Hr. destruct (qb_reachable_inv _ _ H0 Hr) as [[Hok Hrr Hww Hro Hwo Hl Hm Hs] Hsig].
  split; [done|]. intros t c g o s' Epc Hfit E. rewrite Epc in Hro. destruct Hro as [Hrd _].
  pose proof Hrd as (Ht & Hc & Hin). apply deq_turn_result in E; [|done..].
  rewrite (Hs c Hc), drop_app_length by done. rewrite (proj1 (l_len _ _ _ c (o_q _ Hok) Hc)).
  pose proof (o_q _ Hok) as Hq.
  assert (indequeue (st x) = true → q_avail (que (st x)) < t → False) as Hno.
  { intros Hi. pose proof (o_deq _ Hok Hi). specialize (Hin Hi). lia. }
  split_and!.
  - intros p ->. inversion E; subst. cbn. by rewrite (l_load _ _ _ c p t Hq) by (done || lia).
  - intros Hi. rewrite Hi in Hq. pose proof (l_avail _ _ Hq) as Hav. split.
    + intros ->. inversion E; subst. split; [done|]. lia.
    + intros [Hsw Hlt]. destruct E; try done; try congruence; lia.
  - intros Hi. destruct E; try (exfalso; by apply Hno); try congruence. by eexists.
Qed.

(** The reader is told that the stream has ended while there are still bytes in it,
    when it asks for more than the maximum threshold after the writer's shutdown:
    the queue is not grown then. *)
Lemma null_before_the_end s t c : ok s → deq_ready s t c → writeshutdown s = true →
  indequeue s = false → rq_MaxThreshold (que s) < t ≤ q_count (que s) →
  deq_turn t c s = (Ok (Returned None), s).
Proof.
  intros Hs (_ & Hc & _) Hsw Hi Ht. pose proof (o_q _ Hs) as Hq. rewrite Hi in Hq.
  pose proof (l_avail _ _ Hq). unfold deq_turn. mred. rewrite Hi, (l_deq_null _ _ t c Hq Hc) by lia.
  by rewrite Hsw, bool_decide_false by (by intros []).
Qed.

(** A turn that asks for another has made the room it was short of. *)
Lemma deq_again s t c s' : ok s → deq_ready s t c → 0 ≤ writerequest s < 1073741824 →
  growable s = true ∨ t ≤ rq_MaxThreshold (que s) →
  grow_fits s t (writerequest s) (write_blocked s) → deq_turn t c s = (Ok Again, s') →
  ok s' ∧ deq_ready s' t c ∧ growable s = true ∧ writerequest s' = writerequest s ∧
  growable s' = growable s ∧ t ≤ rq_MaxThreshold (que s') ∧
  (rq_MaxThreshold (que s) < t ∧
   rq_Grow (inenqueue s) (indequeue s) (que s) (u32 (2 * t)) t = Ok (que s') ∨
   t ≤ rq_MaxThreshold (que s) ∧ write_blocked s = true ∧ write_blocked s' = false).
Proof.
  intros Hs Hrd Hw Hg Hfit E. pose proof Hrd as (Ht & Hc & Hin).
  pose proof (o_q _ Hs) as Hq. apply deq_turn_result in E; [|done..].
  inversion E as [| | |q' l Ha Hi Hsw Hsr Hgr Hcase Eg| | |? ? ? ? ? ? Hgr]; subst;
    [|destruct Hg; [congruence|lia]].
  assert (q_can_grow (que s) l t) as Hcan by (specialize (Hfit Hgr); naive_solver).
  destruct (l_grow _ _ _ l t Hq) as (q1 & E1 & Hq1 & Hch & Hcnt & HQ & HM & Hwk & _);
    [by rewrite Hi, andb_false_r|done|].
  assert (q1 = q') as -> by (rewrite Hi in E1; congruence).
  cbn. unfold deq_ready. cbn. rewrite Hch. split_and!; try done; try lia.
  - constructor; cbn; [done| |by rewrite Hi].
    intros Hie. destruct (Hwk Hie) as [-> _]. by apply Hs.
  - destruct Hcase as [[? ->]|(HMt & _ & Hwb & ->)]; [left; by rewrite Hi|right].
    split_and!; try done. unfold write_blocked in *. cbn. rewrite u32_id in HQ by lia.
    pose proof (l_avail _ _ ltac:(rewrite Hi in Hq; exact Hq)) as Hav.
    apply andb_false_iff. left. apply Z.ltb_ge. lia.
Qed.

Lemma enq_again s t c g g' s' : ok s → enq_ready s t c → 0 ≤ readrequest s < 1073741824 →
  growable s = true ∨ t ≤ rq_MaxThreshold (que s) →
  grow_fits s t (readrequest s) (read_blocked s) → enq_turn t c g s = (Ok (Again, g'), s') →
  ok s' ∧ enq_ready s' t c ∧ growable s = true ∧ readrequest s' = readrequest s ∧
  growable s' = growable s ∧ t ≤ rq_MaxThreshold (que s') ∧
  (rq_MaxThreshold (que s) < t ∧
   rq_Grow (inenqueue s) (indequeue s) (que s) (u32 (2 * t)) t = Ok (que s') ∨
   t ≤ rq_MaxThreshold (que s) ∧ read_blocked s = true ∧ t ≤ q_room (que s')).
Proof.
  intros Hs Hrd Hw Hg Hfit E. pose proof Hrd as (Ht & Hc & Hin).
  pose proof (o_q _ Hs) as Hq. apply enq_turn_result in E; [|done..].
  inversion E as [| |q' l g1 Ha Hi Hsw Hsr Hgr Hcase Eg| | |? ? ? ? ? ? Hgr]; subst;
    [|destruct Hg; [congruence|lia]].
  assert (q_can_grow (que s) l t) as Hcan by (specialize (Hfit Hgr); naive_solver).
  destruct (l_grow _ _ _ l t Hq) as (q1 & E1 & Hq1 & Hch & Hcnt & HQ & HM & _ & Hrk & _);
    [by rewrite Hi|done|].
  assert (q1 = q') as -> by (rewrite Hi in E1; congruence).
  cbn. unfold enq_ready. cbn. rewrite Hch. split_and!; try done; try lia.
  - constructor; cbn; [done|by rewrite Hi|].
    intros Hie. destruct (Hrk Hie) as [-> _]. by apply Hs.
  - destruct Hcase as [(? & -> & _)|(HMt & _ & Hwb & -> & _)]; [left; by rewrite Hi|right].
    split_and!; try done. apply andb_true_iff in Hwb as [Hwb _]. apply Z.ltb_lt in Hwb.
    rewrite u32_id in HQ by lia. rewrite Hi in Hq1. rewrite (l_room _ _ Hq1), Hcnt. lia.
Qed.

(** The growth of two turns in a row can be given. *)
Definition growth_fits (s : qbase) (t request : Z) (blocked : bool) : Prop :=
  grow_fits s t request blocked ∧
  ∀ q, rq_MaxThreshold (que s) < t → growable s = true →
    rq_Grow (inenqueue s) (indequeue s) (que s) (u32 (2 * t)) t = Ok q →
    q_can_grow q (u32 (request + t)) t.

(** C40: the loop of [GetRawDequeuePtr] ends.  Where the kernel lets queues
    grow, or the request is within the maximum threshold, three turns are
    enough: the thread has returned, thrown or gone to sleep. *)
Theorem dequeue_loop_ends s t c : ok s → deq_ready s t c → 0 ≤ writerequest s < 1073741824 →
  growable s = true ∨ t ≤ rq_MaxThreshold (que s) →
  growth_fits s t (writerequest s) (write_blocked s) →
  ∃ o s', deq_loop 3 t c s = (o, s') ∧ o ≠ Ok Again.
Proof.
  intros Hs Hrd Hw Hg [Hf1 Hf2]. cbn [deq_loop]. mred.
  destruct (deq_turn t c s) as [[[]|] s1] eqn:E1; try by eauto.
  destruct (deq_again _ _ _ _ Hs Hrd Hw Hg Hf1 E1) as (Hs1 & Hrd1 & Hgr & Ew & Eg & HM & Hc1).
  assert (grow_fits s1 t (writerequest s1) (write_blocked s1)) as Hf.
  { intros _. split; [lia|]. intros _ Hb. rewrite Ew.
    destruct Hc1 as [[? ?]|(_ & _ & ?)]; [by eapply Hf2|congruence]. }
  destruct (deq_turn t c s1) as [[[]|] s2] eqn:E2; try by eauto.
  destruct (deq_again _ _ _ _ Hs1 Hrd1 ltac:(lia) (or_intror HM) Hf E2)
    as (Hs2 & Hrd2 & _ & Ew2 & Eg2 & HM2 & Hc2).
  destruct Hc2 as [[? ?]|(_ & Hb1 & Hb2)]; [lia|].
  assert (grow_fits s2 t (writerequest s2) (write_blocked s2)) as Hf3.
  { intros _. split; [lia|]. congruence. }
  destruct (deq_turn t c s2) as [[[]|] s3] eqn:E3; try by eauto.
  destruct (deq_again _ _ _ _ Hs2 Hrd2 ltac:(lia) (or_intror HM2) Hf3 E3)
    as (_ & _ & _ & _ & _ & _ & [[? ?]|(_ & Hb3 & _)]); [lia|congruence].
Qed.

Lemma enq_room_returns s t c g : ok s → enq_ready s t c → t ≤ q_room (que s) →
  ∃ p, enq_turn t c g s = (Ok (Returned (Some p), g), set_enq s (enqueuethresh s) true).
Proof.
  intros Hs (Ht & Hc & _) Hr. destruct (l_enq_ptr _ _ _ t c (o_q _ Hs) Hc Hr) as (p & E & _).
  exists p. unfold enq_turn. mred. by rewrite E.
Qed.

(** The loop of [GetRawEnqueuePtr] ends, in three turns as well. *)
Theorem enqueue_loop_ends s t c g : ok s → enq_ready s t c → 0 ≤ readrequest s < 1073741824 →
  growable s = true ∨ t ≤ rq_MaxThreshold (que s) →
  growth_fits s t (readrequest s) (read_blocked s) →
  ∃ o s', enq_loop 3 t c g s = (o, s') ∧ ∀ g', o ≠ Ok (Again, g').
Proof.
  intros Hs Hrd Hw Hg [Hf1 Hf2]. cbn [enq_loop]. mred.
  destruct (enq_turn t c g s) as [[[[] g1]|] s1] eqn:E1; try (do 2 eexists; by split).
  destruct (enq_again _ _ _ _ _ _ Hs Hrd Hw Hg Hf1 E1)
    as (Hs1 & Hrd1 & Hgr & Ew & Eg & HM & Hc1).
  destruct Hc1 as [[HM1 EG]|(_ & _ & Hr1)].
  2:{ destruct (enq_room_returns s1 t c g1 Hs1 Hrd1 Hr1) as (p & ->).
      do 2 eexists; by split. }
  assert (grow_fits s1 t (readrequest s1) (read_blocked s1)) as Hf.
  { intros _. split; [lia|]. intros _ Hb. rewrite Ew. by eapply Hf2. }
  destruct (enq_turn t c g1 s1) as [[[[] g2]|] s2] eqn:E2; try (do 2 eexists; by split).
  destruct (enq_again _ _ _ _ _ _ Hs1 Hrd1 ltac:(lia) (or_intror HM) Hf E2)
    as (Hs2 & Hrd2 & _ & Ew2 & Eg2 & HM2 & Hc2).
  destruct Hc2 as [[? ?]|(_ & _ & Hr2)]; [lia|].
  destruct (enq_room_returns s2 t c g2 Hs2 Hrd2 Hr2) as (p & ->).
  do 2 eexists; by split.
Qed.

Lemma deq_turn_spins s t c : ok s → growable s = false → terminated s = false →
  readshutdown s = false → writeshutdown s = false → deq_ready s t c →
  rq_MaxThreshold (que s) < t ≤ q_count (que s) → indequeue s = false →
  deq_turn t c s = (Ok Again, set_readrequest s 0).
Proof.
  intros Hs Hg Hte Hsr Hsw Hrd Ht Hi. pose proof (o_q _ Hs) as Hq. rewrite Hi in Hq.
  pose proof (l_avail _ _ Hq) as Hav.
  destruct (deq_turn t c s) as [o s'] eqn:E.
  apply deq_turn_result in E; [|done..|by intros ?; congruence].
  destruct E; try congruence; lia.
Qed.
Lemma enq_turn_spins s t c g : ok s → growable s = false → terminated s = false →
  readshutdown s = false → writeshutdown s = false → enq_ready s t c →
  rq_MaxThreshold (que s) < t ≤ rq_QueueLength (que s) - q_count (que s) →
  inenqueue s = false → enq_turn t c g s = (Ok (Again, g), set_writerequest s 0).
Proof.
  intros Hs Hg Hte Hsr Hsw Hrd Ht Hi. pose proof (o_q _ Hs) as Hq. rewrite Hi in Hq.
  pose proof (l_room _ _ Hq) as Hav.
  destruct (enq_turn t c g s) as [o s'] eqn:E.
  apply enq_turn_result in E; [|done..|by intros ?; congruence].
  destruct E as [|? ? [?|?]| | | |]; congruence || lia.
Qed.

(** Without growing, a request above the maximum threshold never comes
    back once the queue holds (or has room for) that much: every turn finds no
    pointer, does not wait, and starts over, with the lock held. *)
Theorem oversized_request_spins s t c : ok s → growable s = false → terminated s = false →
  readshutdown s = false → writeshutdown s = false →
  (deq_ready s t c → rq_MaxThreshold (que s) < t ≤ q_count (que s) → indequeue s = false →
   ∀ fuel, (deq_loop fuel t c s).1 = Ok Again) ∧
  (enq_ready s t c → rq_MaxThreshold (que s) < t ≤ rq_QueueLength (que s) - q_count (que s) →
   inenqueue s = false → ∀ fuel g, (enq_loop fuel t c g s).1 = Ok (Again, g)).
Proof.
  intros Hs Hg Hte Hsr Hsw. split; intros Hrd Ht Hi fuel.
  - revert s Hs Hg Hte Hsr Hsw Hrd Ht Hi.
    induction fuel as [|k IH]; [done|]. intros. cbn [deq_loop]. mred.
    rewrite deq_turn_spins by done. apply IH; try done. by eapply ok_members.
  - revert s Hs Hg Hte Hsr Hsw Hrd Ht Hi.
    induction fuel as [|k IH]; [done|]. intros. cbn [enq_loop]. mred.
    rewrite enq_turn_spins by done. apply IH; try done. by eapply ok_members.
Qed.

(** The public [Grow] makes room without the broadcast that every other change
    of the queue is followed by: a writer that it unblocks stays asleep. *)
Lemma Grow_wakes_nobody s l t : ok s → inenqueue s && indequeue s = false →
  q_can_grow (que s) l t → q_count (que s) + writerequest s ≤ l →
  ∃ s', Grow l t s = (Ok tt, s') ∧ sig s' = sig s ∧ write_blocked s' = false.
Proof.
  intros Hs Hi Hcan Hl.
  destruct (l_grow _ _ _ l t (o_q _ Hs) Hi Hcan) as (q' & E & _ & _ & Hcnt & HQ & _).
  eexists. unfold Grow, UnlockedGrow. mred. rewrite E. split; [done|]. split; [done|].
  unfold write_blocked. cbn. apply andb_false_iff. left. apply Z.ltb_ge. lia.
Qed.

End queue_base.

(** ** The theorems at a concrete queue *)
Section example.
#[local] Instance ex_raw : RawQueue TQ.tqueue TQ.ptr := TQ.tq_raw 1 false.
#[local] Instance ex_laws : RawQueueLaws TQ.tqueue TQ.ptr :=
  TQ.tq_laws 1 false (eq_refl : 0 < 1).

(** A queue of four bytes with a maximum threshold of two. *)
Definition ex_queue (grow : bool) : @qbase TQ.tqueue := make TQ.example_queue 10 11 false grow.
Definition ex_start (grow : bool) : @system TQ.tqueue :=
  mk_sys (ex_queue grow) Idle Idle (λ _, []) (λ _, []) false false.
Lemma ex_initial grow : initial (ex_start grow).
Proof.
  exists TQ.example_queue, 10, 11, false, grow. split; [apply TQ.example_inv|done].
Qed.
Lemma ex_ok s : que s = TQ.example_queue → inenqueue s = false → indequeue s = false → ok s.
Proof.
  intros E1 E2 E3. constructor; rewrite ?E1, ?E2, ?E3; [apply TQ.example_inv|done|done].
Qed.

Lemma step_then (x y y' z : @system TQ.tqueue) : step x y → y = y' → rtc step y' z → rtc step x z.
Proof. intros ? -> ?. by eapply rtc_l. Qed.

(** The reader asks for two bytes and goes to sleep. *)
Definition ex_asleep : @system TQ.tqueue :=
  mk_sys (set_readrequest (set_deq (ex_queue true) 2 false) 2) (Asleep 2 0 false) Idle
    (λ _, []) (λ _, []) false false.
Lemma ex_sleeps : rtc step (ex_start true) ex_asleep.
Proof.
  eapply step_then; [by apply (R_start _ 2 0 (Ok tt) (set_deq (ex_queue true) 2 false))|done|].
  eapply step_then; [|done|apply rtc_refl].
  apply (R_turn (mk_sys (set_deq (ex_queue true) 2 false) (Looping 2 0 false) Idle _ _ _ _)
    2 0 false (Ok Sleep) (st ex_asleep)); [done| |by vm_compute].
  intros _. split; by vm_compute.
Qed.

(** The writer stores two bytes and enqueues them, which wakes the reader. *)
Definition ex_stored : TQ.tqueue :=
  match TQ.ptr_store TQ.example_queue (TQ.mk_ptr 0 0) [7; 8] with
  | Ok q => q | Err _ => TQ.example_queue
  end.
Definition ex_writing (q : TQ.tqueue) : @qbase TQ.tqueue :=
  set_enq (set_que (st ex_asleep) q) 2 true.
Definition ex_woken : @system TQ.tqueue :=
  mk_sys (set_readrequest (set_deq (set_que (ex_queue true) TQ.full_queue) 2 false) 0)
    (Looping 2 0 false) Idle (append (λ _, []) (λ c, take 2 (q_pending ex_stored c)))
    (λ _, []) false false.
Lemma ex_wakes : rtc step (ex_start true) ex_woken.
Proof.
  etransitivity; [exact ex_sleeps|].
  eapply step_then; [by apply (W_start _ 2 0 (Ok tt) (set_enq (st ex_asleep) 2 false))|done|].
  eapply step_then.
  { apply (W_turn (mk_sys (set_enq (st ex_asleep) 2 false) (Asleep 2 0 false)
      (Looping 2 0 false) _ _ _ _) 2 0 false (Ok (Returned (Some (TQ.mk_ptr 0 0)), false))
      (ex_writing TQ.example_queue)); [done| |by vm_compute].
    intros _. split; by vm_compute. }
  { done. }
  eapply step_then.
  { apply (W_store (mk_sys (ex_writing TQ.example_queue) (Asleep 2 0 false) Idle _ _ _ _)
      0 (TQ.mk_ptr 0 0) [7; 8] ex_stored); by vm_compute. }
  { done. }
  eapply step_then.
  { apply (W_enqueue (mk_sys (ex_writing ex_stored) (Asleep 2 0 false) Idle _ _ _ _) 2 (Ok tt)
      (set_sig (set_enq (set_que (st ex_asleep) TQ.full_queue) 0 false) true)); by vm_compute. }
  { done. }
  eapply step_then.
  { apply (R_wake (mk_sys (set_enq (set_que (st ex_asleep) TQ.full_queue) 0 false)
      (Awake 2 0 false) Idle _ _ _ _) 2 0 false (Ok Again) (st ex_woken)); by vm_compute. }
  { done. }
  apply rtc_refl.
Qed.

(** The public [Grow] can leave both ends asleep in a kernel that lets queues grow:
    the queue is full and the writer waits; [Grow] makes room and wakes nobody; a
    reader that asks for more than there is finds the writer no longer blocked, so
    it does not make room for it either, and waits. *)
Definition w_start x t c : @system TQ.tqueue := let r := enq_start t (st x) in
  settle r.2 (rpc x) (after_start r.1 t c) (written x) (consumed x) (notifying x) (outgrown x).
Definition w_turn x t c g : @system TQ.tqueue := let r := enq_turn t c g (st x) in
  let p := after_enq r.1 t c g in
  settle r.2 (rpc x) p (written x) (consumed x) (notifying x) (looked p (outgrown x)).
Definition w_enqueue x n : @system TQ.tqueue :=
  settle (Enqueue n (st x)).2 (rpc x) Idle
    (append (written x) (λ c, take (Z.to_nat n) (q_pending (que (st x)) c))) (consumed x)
    (notifying x) (outgrown x).
Definition ex_two x := w_enqueue (w_turn (w_start x 2 0) 2 0 false) 2.
Definition ex_third := w_start (ex_two (ex_two (ex_start true))) 2 0.
Definition ex_full := w_turn ex_third 2 0 false.
Definition ex_grown := settle (Grow 8 8 (st ex_full)).2 (rpc ex_full) (wpc ex_full)
  (written ex_full) (consumed ex_full) (notifying ex_full) true.
Definition ex_reads := let r := deq_start 5 (st ex_grown) in
  settle r.2 (after_start r.1 5 0) (wpc ex_grown) (written ex_grown) (consumed ex_grown)
    (notifying ex_grown) (outgrown ex_grown).
Definition ex_stuck := let r := deq_turn 5 0 (st ex_reads) in
  settle r.2 (after r.1 5 0 false) (wpc ex_reads) (written ex_reads) (consumed ex_reads)
    (notifying ex_reads) (outgrown ex_reads).
Ltac ex_fits := intros _; split; by vm_compute.
Lemma ex_two_steps x : wpc x = Idle → rpc x = Idle → writeshutdown (st x) = false →
  rq_NumChannels (que (st x)) = 1 →
  let y := w_start x 2 0 in let z := w_turn y 2 0 false in
  wpc y = Looping 2 0 false → grow_fits (st y) 2 (readrequest (st y)) (read_blocked (st y)) →
  wpc z = Idle → rpc z = Idle → writeshutdown (st z) = false → enqueuethresh (st z) = 2 →
  inenqueue (st z) = true → rtc step x (ex_two x).
Proof.
  intros Hw Hr Hs Hn y z Hy Hf Hz Hr' Hs' Ht Hi.
  eapply rtc_l; [eapply (W_start x 2 0); [done|by rewrite Hr|done|lia|lia|apply surjective_pairing]|].
  eapply rtc_l; [eapply (W_turn y 2 0 false); [done|done|apply surjective_pairing]|].
  eapply rtc_l; [eapply (W_enqueue z 2); [done|by rewrite Hr'|done|lia|done|apply surjective_pairing]|].
  apply rtc_refl.
Qed.
Lemma outside_Grow_deadlocks : rtc step (ex_start true) ex_stuck ∧
  growable (st ex_stuck) = true ∧ outgrown ex_stuck = true ∧
  rpc ex_stuck = Asleep 5 0 false ∧ wpc ex_stuck = Asleep 2 0 false ∧
  write_blocked (st ex_stuck) = false.
Proof.
  split; [|by vm_compute]. etransitivity; [apply ex_two_steps; first [ex_fits | by vm_compute]|].
  etransitivity; [apply ex_two_steps; first [ex_fits | by vm_compute]|].
  apply (rtc_l _ _ ex_third).
  { apply (W_start (ex_two (ex_two (ex_start true))) 2 0 _ _). 1-5: by vm_compute. apply surjective_pairing. }
  apply (rtc_l _ _ ex_full).
  { apply (W_turn ex_third 2 0 false _ _); [by vm_compute|ex_fits|apply surjective_pairing]. }
  apply (rtc_l _ _ ex_grown); [eapply (A_grow ex_full 8 8); [by vm_compute..|split; by vm_compute|apply surjective_pairing]|].
  apply (rtc_l _ _ ex_reads); [eapply (R_start ex_grown 5 0); [by vm_compute..|apply surjective_pairing]|].
  apply (rtc_l _ _ ex_stuck); [eapply (R_turn ex_reads 5 0 false); [by vm_compute|ex_fits|apply surjective_pairing]|].
  apply rtc_refl.
Qed.
Lemma sleepers_are_blocked_witness :
  q_count (que (st ex_asleep)) < 2 ∧ readshutdown (st ex_asleep) = false.
Proof.
  destruct (sleepers_are_blocked _ _ (ex_initial true) ex_sleeps) as [Hr _].
  destruct (Hr 2 0 false eq_refl) as (H1 & H2 & _). split; [exact H1|exact H2].
Defined.

Lemma queue_is_a_stream_witness :
  ∃ p s', deq_turn 2 0 (st ex_woken) = (Ok (Returned (Some p)), s') ∧
    ptr_load (que s') p 2 = Ok (take (Z.to_nat 2) (written ex_woken 0)) ∧
    written ex_woken 0 = [7; 8].
Proof.
  destruct (queue_is_a_stream _ _ (ex_initial true) ex_wakes) as [_ Hr].
  eexists _, _. split; [by vm_compute|]. split; [|by vm_compute].
  refine (proj1 (Hr 2 0 false (Ok (Returned (Some _))) _ eq_refl _ _) _ eq_refl); [|by vm_compute].
  intros _. split; by vm_compute.
Defined.

(** Three bytes are more than the maximum threshold of two. *)
Lemma ex_fits grow : growth_fits (ex_queue grow) 3 0 false.
Proof.
  split.
  - intros _. split; [|done]. intros _. split; [constructor|]; by vm_compute.
  - intros q _ _ E. vm_compute in E. injection E as <-. split; [constructor|]; by vm_compute.
Qed.
Definition ex_reading := set_deq (ex_queue true) 3 false.
Lemma dequeue_loop_ends_witness :
  (∃ o s', deq_loop 3 3 0 ex_reading = (o, s') ∧ o ≠ Ok Again) ∧
  (deq_loop 3 3 0 ex_reading).1 = Ok Sleep ∧
  rq_MaxThreshold (que (deq_loop 3 3 0 ex_reading).2) = 3.
Proof.
  split; [|by vm_compute]. apply dequeue_loop_ends; try done; [|by left|].
  - by apply ex_ok.
  - exact (ex_fits true).
Defined.

Definition ex_writing3 := set_enq (ex_queue true) 3 false.
Lemma enqueue_loop_ends_witness :
  (∃ o s', enq_loop 3 3 0 false ex_writing3 = (o, s') ∧ ∀ g', o ≠ Ok (Again, g')) ∧
  (enq_loop 3 3 0 false ex_writing3).1 = Ok (Returned (Some (TQ.mk_ptr 1 0)), false).
Proof.
  split; [|by vm_compute]. apply enqueue_loop_ends; try done; [|by left|].
  - by apply ex_ok.
  - exact (ex_fits true).
Defined.

Lemma oversized_request_spins_witness :
  (enq_loop 100 3 0 false (ex_queue false)).1 = Ok (Again, false).
Proof.
  apply (oversized_request_spins (ex_queue false) 3 0); try done; by apply ex_ok.
Defined.

End example.
End QB.
