(* ===== verification/D4R.v ===== *)
(** [libraries/D4R] and [libraries/utils/uint128_t.h]: the distributed detection
    of deadlocks.  Nodes blocked on one another around a ring of queues hand the
    largest tag around; the node whose own priority comes back to it has found
    the deadlock.

    Module [D4R] has the tags, [Node::Block] and [Node::Transmit] as functions,
    and the loops of [QueueBase::ReadBlock] and [WriteBlock] of every node of a
    ring as a step relation: a node clears the flag of its queue and reads the
    tag of the node it is blocked on ([start], [fetch]), and later, in a step of
    its own, works on the copy it has read ([block], [transmit]); a change of
    its tag raises the flag of the queue behind it ([signal]). *)
From stdpp Require Import functions.
From S2P Require Import Prelude.

Module D4R.

(** * [uint128_t] and [Tag] *)
Record uint128 := U128 { high : Z; low : Z }.

Definition u128_lt (l r : uint128) : bool :=
  if high l =? high r then low l <? low r else high l <? high r.
Definition u128_eq (l r : uint128) : bool := (high l =? high r) && (low l =? low r).

Record Tag := mk_tag { label : uint128; priority : uint128 }.

#[global] Instance uint128_eq_dec : EqDecision uint128.
Proof. solve_decision. Defined.
#[global] Instance Tag_eq_dec : EqDecision Tag.
Proof. solve_decision. Defined.

Definition new_tag (k : Z) : Tag := mk_tag (U128 0 k) (U128 18446744073709551615 k).

Definition tag_lt (s t : Tag) : bool :=
  if u128_eq (label s) (label t) then u128_lt (priority t) (priority s)
  else u128_lt (label s) (label t).
Definition tag_eq (s t : Tag) : bool :=
  u128_eq (label s) (label t) && u128_eq (priority s) (priority t).
Definition tag_ge (s t : Tag) : bool := negb (tag_lt s t).
Definition tag_le (s t : Tag) : bool := negb (tag_lt t s).
Definition tag_gt (s t : Tag) : bool := tag_lt t s.
Definition tag_ne (s t : Tag) : bool := negb (tag_eq s t).

Definition Count (t : Tag) : Z := high (label t).
Definition Key (t : Tag) : Z := low (label t).
Definition QueueSize (t : Tag) : Z := high (priority t).
Definition QueueKey (t : Tag) : Z := low (priority t).
Definition set_Count (t : Tag) c := mk_tag (U128 c (low (label t))) (priority t).
Definition set_QueueSize (t : Tag) q := mk_tag (label t) (U128 q (low (priority t))).
Definition set_Priority (t : Tag) p := mk_tag (label t) p.

(** * [Node] *)
Record node := mk_node { publicTag : Tag; privateTag : Tag }.

Definition new_node (key : Z) : node := mk_node (new_tag key) (new_tag key).

(** [Block]; [qsize] is unsigned, -1 for a reader. *)
Definition Block (t : Tag) (qsize : Z) (n : node) : node :=
  let p := set_QueueSize (privateTag n) (u32 qsize) in
  let c := if Count (publicTag n) <? Count t then Count t else Count (publicTag n) in
  let p := set_Count p (u64 (c + 1)) in
  mk_node p p.

(** [Transmit]: the node, whether [SignalTagChanged] was called, the result. *)
Definition Transmit (t : Tag) (n : node) : node * bool * bool :=
  if tag_lt (publicTag n) t then
    let p := if u128_lt (priority t) (priority (privateTag n))
             then priority t else priority (privateTag n) in
    (mk_node (set_Priority t p) (privateTag n), true, false)
  else if tag_eq (publicTag n) t then
    (n, false, u128_eq (priority (publicTag n)) (priority (privateTag n)))
  else (n, false, false).

(** ** The order of the tags *)
Definition val (u : uint128) : Z := high u * 18446744073709551616 + low u.
Definition u128_wf (u : uint128) : Prop :=
  0 ≤ high u < 18446744073709551616 ∧ 0 ≤ low u < 18446744073709551616.
Definition tag_wf (t : Tag) : Prop := u128_wf (label t) ∧ u128_wf (priority t).
Definition L (t : Tag) : Z := val (label t).
Definition Pr (t : Tag) : Z := val (priority t).
Definition tlt (s t : Tag) : Prop := L s < L t ∨ L s = L t ∧ Pr t < Pr s.
Definition tle (s t : Tag) : Prop := L s < L t ∨ L s = L t ∧ Pr t ≤ Pr s.

Lemma u128_lt_spec u v : u128_wf u → u128_wf v → u128_lt u v = (val u <? val v).
Proof. unfold u128_wf, u128_lt, val. intros. zcases; done || (exfalso; lia). Qed.
Lemma u128_eq_spec u v : u128_wf u → u128_wf v → u128_eq u v = (val u =? val v).
Proof. unfold u128_wf, u128_eq, val. intros. zcases; done || (exfalso; lia). Qed.
Lemma val_inj u v : u128_wf u → u128_wf v → val u = val v → u = v.
Proof.
  destruct u, v. unfold u128_wf, val. cbn. intros. f_equal; lia.
Qed.
Lemma tag_inj s t : tag_wf s → tag_wf t → L s = L t → Pr s = Pr t → s = t.
Proof. destruct s, t. unfold tag_wf. cbn. intros [] [] ? ?. f_equal; by apply val_inj. Qed.

Lemma tag_lt_spec s t : tag_wf s → tag_wf t → tag_lt s t = true ↔ tlt s t.
Proof.
  intros [] []. unfold tag_lt, tlt, L, Pr. rewrite u128_eq_spec, !u128_lt_spec by done.
  zcases; rewrite ?Z.ltb_lt; split; intros; try done; try lia; by left || by right.
Qed.
Lemma tag_eq_spec s t : tag_wf s → tag_wf t → tag_eq s t = true ↔ s = t.
Proof.
  intros Hs Ht. split.
  - unfold tag_eq. rewrite andb_true_iff. destruct Hs, Ht.
    rewrite !u128_eq_spec, !Z.eqb_eq by done. intros []. by apply tag_inj.
  - intros ->. unfold tag_eq, u128_eq. by rewrite !Z.eqb_refl.
Qed.

Lemma new_tag_wf k : 0 ≤ k < 18446744073709551616 → tag_wf (new_tag k).
Proof. intros. unfold tag_wf, u128_wf. cbn. lia. Qed.

(** The tags are totally ordered.  The comparison operators are those of one
    strict total order, which looks at count and key first and, among equal
    labels, puts the smaller priority (queue size and queue key) higher. *)
Theorem tag_order s t u : tag_wf s → tag_wf t → tag_wf u →
  (tag_lt s t = true ↔
   (Count s < Count t ∨ Count s = Count t ∧ Key s < Key t) ∨
   (Count s = Count t ∧ Key s = Key t) ∧
   (QueueSize t < QueueSize s ∨ QueueSize t = QueueSize s ∧ QueueKey t < QueueKey s)) ∧
  tag_lt s s = false ∧
  (tag_lt s t = true → tag_lt t u = true → tag_lt s u = true) ∧
  (tag_lt s t = true ∧ tag_eq s t = false ∧ tag_gt s t = false ∨
   tag_lt s t = false ∧ tag_eq s t = true ∧ tag_gt s t = false ∧ s = t ∨
   tag_lt s t = false ∧ tag_eq s t = false ∧ tag_gt s t = true).
Proof.
  intros Hs Ht Hu.
  assert (∀ s t, tag_wf s → tag_wf t → tag_lt s t = false ↔ ¬ tlt s t) as Hf.
  { intros a b Ha Hb. rewrite <- tag_lt_spec, not_true_iff_false by done. done. }
  assert (tag_eq s t = false ↔ s ≠ t) as He by (by rewrite <- tag_eq_spec, not_true_iff_false).
  unfold tag_gt. rewrite He, tag_eq_spec, !Hf, !tag_lt_spec by done.
  unfold tlt. split_and!.
  - unfold L, Pr, val, Count, Key, QueueSize, QueueKey. destruct Hs as [[] []], Ht as [[] []]. lia.
  - lia.
  - lia.
  - destruct (Z.lt_trichotomy (L s) (L t)) as [|[EL|]]; [left| |right; right].
    1,3: split_and!; try lia; intros ->; lia.
    destruct (Z.lt_trichotomy (Pr s) (Pr t)) as [|[EP|]]; [right; right|right; left|left].
    1,3: split_and!; try lia; intros ->; lia.
    split_and!; try lia; by apply tag_inj.
Qed.

(** [Block] puts the node above both tags, with its own key and priority. *)
Lemma Block_spec t q n : tag_wf t → tag_wf (publicTag n) → tag_wf (privateTag n) →
  Count t < 18446744073709551615 → Count (publicTag n) < 18446744073709551615 →
  let n' := Block t q n in
  tag_wf (privateTag n') ∧ publicTag n' = privateTag n' ∧
  Key (privateTag n') = Key (privateTag n) ∧
  QueueKey (privateTag n') = QueueKey (privateTag n) ∧
  L t < L (publicTag n') ∧ L (publicTag n) < L (publicTag n').
Proof.
  intros [[H1 H2] [H3 H4]] [[H5 H6] _] [[H7 H8] [H9 H10]] Hc Hc'. unfold Block, Count in *.
  cbn. pose proof (u32_range q).
  assert (∀ c, 0 ≤ c < 18446744073709551615 → u64 (c + 1) = c + 1) as Hu
    by (intros; apply u64_id; lia).
  unfold L, val, tag_wf, u128_wf. cbn.
  destruct (Z.ltb_spec (high (label (publicTag n))) (high (label t))); rewrite Hu by lia;
    split_and!; done || lia.
Qed.

(** [Transmit] raises the public tag to the larger of the two tags, with the
    smaller of the two priorities, or leaves it. *)
Lemma Transmit_spec t n n' ch det : tag_wf t → tag_wf (publicTag n) →
  tag_wf (privateTag n) → Transmit t n = (n', ch, det) →
  privateTag n' = privateTag n ∧ tag_wf (publicTag n') ∧
  if ch then det = false ∧ tlt (publicTag n) t ∧ L (publicTag n') = L t ∧
    (priority (publicTag n') = priority t ∧ Pr t < Pr (privateTag n) ∨
     priority (publicTag n') = priority (privateTag n) ∧ Pr (privateTag n) ≤ Pr t)
  else n' = n ∧ tle t (publicTag n) ∧
    (det = true ↔ publicTag n = t ∧ Pr (publicTag n) = Pr (privateTag n)).
Proof.
  intros Ht Hp Hq. unfold Transmit. destruct (tag_lt (publicTag n) t) eqn:El.
  - intros [= <- <- <-]. apply tag_lt_spec in El; [|done..]. cbn.
    pose proof (proj2 Ht) as Hpt. pose proof (proj2 Hq) as Hpq.
    rewrite u128_lt_spec by done. unfold set_Priority, L, Pr. cbn.
    destruct (Z.ltb_spec (val (priority t)) (val (priority (privateTag n)))); cbn;
      (split; [done|]); (split; [by split; [apply Ht|]|]); (split; [done|]);
      (split; [done|]); (split; [done|]); [by left|right; split; [done|lia]].
  - assert (tle t (publicTag n)) as Hle.
    { destruct (tag_lt_spec _ _ Hp Ht) as [_ Hc]. unfold tlt, tle in *.
      destruct (Z.lt_trichotomy (L t) (L (publicTag n))) as [|[|]]; [lia| |];
        [|rewrite Hc in El; [done|lia]].
      destruct (Z.le_gt_cases (Pr (publicTag n)) (Pr t)); [lia|].
      rewrite Hc in El; [done|lia]. }
    destruct (tag_eq (publicTag n) t) eqn:Ee; intros [= <- <- <-].
    + apply tag_eq_spec in Ee; [|done..]. split_and!; try done. cbn.
      rewrite u128_eq_spec by (apply Hp || apply Hq). rewrite Z.eqb_eq. tauto.
    + split_and!; try done. split; [done|]. intros [E _].
      by rewrite (proj2 (tag_eq_spec _ _ Hp Ht) E) in Ee.
Qed.

Lemma tle_refl t : tle t t.
Proof. unfold tle. lia. Qed.
Lemma tle_trans s t u : tle s t → tle t u → tle s u.
Proof. unfold tle. lia. Qed.

(** * A ring of nodes *)
Inductive pc :=
  | Running                             (** not in [ReadBlock] or [WriteBlock] *)
  | Blocking (t : Tag) (qsize : Z)      (** has read [t], about to [Block] *)
  | Waiting                             (** in the loop *)
  | Comparing (t : Tag).                (** has read [t], about to [Transmit] *)

(** Node [i] blocks on node [next i]; [blocked] is [ReadBlocked()] or
    [WriteBlocked()] of the queue between them, [changed] its flag
    [writetagchanged] or [readtagchanged], [detected] that [Transmit] returned
    true since the node blocked. *)
Record ring := mk_ring {
  nodes : nat → node; pcs : nat → pc;
  blocked : nat → bool; changed : nat → bool; detected : nat → bool }.

Inductive action :=
  | AStart (i : nat) (qsize : Z) | ABlock (i : nat) | AFetch (i : nat) | ATransmit (i : nat)
  | ARelease (i : nat) | AResolve (i : nat) | AResume (i : nat).
Definition actor (a : action) : nat :=
  match a with
  | AStart i _ | ABlock i | AFetch i | ATransmit i | ARelease i | AResolve i | AResume i => i
  end.

Section ring.
Context (n : nat) (key : nat → Z).

Definition next (i : nat) : nat := if (S i =? n)%nat then O else S i.
Definition prev (i : nat) : nat := match i with O => pred n | S k => k end.

Definition init : ring :=
  mk_ring (λ i, new_node (key i)) (λ _, Running) (λ _, false) (λ _, false) (λ _, false).

(** [SignalTagChanged] of node [i]. *)
Definition signal (i : nat) (f : nat → bool) : nat → bool := <[prev i := true]> f.

(** The reader of a queue passes -1 for the size. *)
Definition reading (x : ring) (i : nat) : bool :=
  QueueSize (privateTag (nodes x i)) =? u32 (-1).

(** What an action of node [i] does, where it can be taken:
    [AStart] is the entry of [ReadBlock] or [WriteBlock], [ABlock] the call of
    [Block] (the counts below their last value), [AFetch] and [ATransmit] a turn
    of the loop, [ARelease] node [next i], which runs, giving node [i] the data
    or the room it waits for, [AResolve] [Detect] growing the queue of a writer,
    [AResume] the exit of the loop. *)
Definition exec (x : ring) (a : action) : option ring :=
  if negb (actor a <? n)%nat then None else
  match a, pcs x (actor a) with
  | AStart i q, Running =>
      Some (mk_ring (nodes x) (<[i := Blocking (publicTag (nodes x (next i))) q]> (pcs x))
        (<[i := true]> (blocked x)) (<[i := false]> (changed x)) (<[i := false]> (detected x)))
  | ABlock i, Blocking t q =>
      if (Count t <? 18446744073709551615) &&
         (Count (publicTag (nodes x i)) <? 18446744073709551615) then
        Some (mk_ring (<[i := Block t q (nodes x i)]> (nodes x)) (<[i := Waiting]> (pcs x))
          (blocked x) (signal i (changed x)) (detected x))
      else None
  | AFetch i, Waiting =>
      if blocked x i && changed x i then
        Some (mk_ring (nodes x) (<[i := Comparing (publicTag (nodes x (next i)))]> (pcs x))
          (blocked x) (<[i := false]> (changed x)) (detected x))
      else None
  | ATransmit i, Comparing t =>
      let '(nd, ch, det) := Transmit t (nodes x i) in
      Some (mk_ring (<[i := nd]> (nodes x)) (<[i := Waiting]> (pcs x)) (blocked x)
        (if ch then signal i (changed x) else changed x)
        (if det then <[i := true]> (detected x) else detected x))
  | ARelease i, _ =>
      match pcs x (next i) with
      | Running => Some (mk_ring (nodes x) (pcs x) (<[i := false]> (blocked x)) (changed x)
                           (detected x))
      | _ => None
      end
  | AResolve i, Waiting =>
      if detected x i && negb (reading x i) then
        Some (mk_ring (nodes x) (pcs x) (<[i := false]> (blocked x)) (changed x)
          (<[i := false]> (detected x)))
      else None
  | AResume i, Waiting =>
      if blocked x i then None
      else Some (mk_ring (nodes x) (<[i := Running]> (pcs x)) (blocked x) (changed x)
             (detected x))
  | _, _ => None
  end.

Definition step (x y : ring) : Prop := ∃ a, exec x a = Some y.

(** ** Going around *)
Fixpoint hop (d k : nat) : nat := match d with O => k | S d => hop d (next k) end.

Hypothesis Hn : (2 ≤ n)%nat.

Lemma next_lt i : (i < n)%nat → (next i < n)%nat.
Proof. unfold next. intros. destruct (Nat.eqb_spec (S i) n); lia. Qed.
Lemma prev_lt i : (i < n)%nat → (prev i < n)%nat.
Proof. unfold prev. destruct i; lia. Qed.
Lemma prev_next i : (i < n)%nat → prev (next i) = i.
Proof. unfold prev, next. intros. destruct (Nat.eqb_spec (S i) n); lia. Qed.
Lemma next_prev i : (i < n)%nat → next (prev i) = i.
Proof.
  unfold prev, next. intros. destruct i; [|by destruct (Nat.eqb_spec (S i) n); lia].
  destruct (Nat.eqb_spec (S (pred n)) n); lia.
Qed.
Lemma next_ne i : (i < n)%nat → next i ≠ i.
Proof. unfold next. intros. destruct (Nat.eqb_spec (S i) n); lia. Qed.
Lemma prev_ne i : (i < n)%nat → prev i ≠ i.
Proof. unfold prev. intros. destruct i; lia. Qed.
Lemma hop_lt d : ∀ k, (k < n)%nat → (hop d k < n)%nat.
Proof. induction d; cbn; auto using next_lt. Qed.
Lemma hop_next d : ∀ k, hop d (next k) = next (hop d k).
Proof. induction d; cbn; auto. Qed.

(** From [next i] the ring leads to every node other than [i] before [i]. *)
Lemma hop_plain d : ∀ k, (k + d < n)%nat → hop d k = (k + d)%nat.
Proof.
  induction d as [|d IH]; intros k Hk; cbn; [lia|].
  unfold next. destruct (Nat.eqb_spec (S k) n); [lia|]. rewrite IH; lia.
Qed.
Lemma hop_wrap d k : (k < n)%nat → (n ≤ k + d < 2 * n)%nat → hop d k = (k + d - n)%nat.
Proof.
  intros Hk Hd. assert (∀ a b k, hop (a + b) k = hop b (hop a k)) as Ha.
  { induction a; cbn; auto. }
  replace d with ((n - 1 - k) + S (k + d - n))%nat by lia.
  rewrite Ha, (hop_plain (n - 1 - k) k) by lia. cbn [hop].
  replace (next (k + (n - 1 - k))) with 0%nat
    by (unfold next; destruct (Nat.eqb_spec (S (k + (n - 1 - k))) n); lia).
  rewrite hop_plain; lia.
Qed.
Lemma hop_reaches i m : (i < n)%nat → (m < n)%nat → m ≠ i →
  ∃ d, hop d (next i) = m ∧ ∀ e, (e ≤ d)%nat → hop e (next i) ≠ i.
Proof.
  intros Hi Hm Hne. change (next i) with (hop 1 i).
  assert (∀ e, hop e (hop 1 i) = hop (S e) i) as E by done.
  exists (if (i <? m)%nat then m - i - 1 else n + m - i - 1)%nat.
  destruct (Nat.ltb_spec i m).
  - rewrite E, hop_plain by lia. split; [lia|]. intros e He. rewrite E, hop_plain; lia.
  - rewrite E, hop_wrap by lia. split; [lia|]. intros e He. rewrite E.
    destruct (Nat.lt_ge_cases (i + S e) n); [rewrite hop_plain|rewrite hop_wrap]; lia.
Qed.

(** ** The invariant *)
Definition pub (x : ring) (i : nat) : Tag := publicTag (nodes x i).
Definition prv (x : ring) (i : nat) : Tag := privateTag (nodes x i).
Definition held (x : ring) (k : nat) : option Tag :=
  match pcs x k with Blocking t _ | Comparing t => Some t | _ => None end.
Definition in_loop (p : pc) : Prop :=
  match p with Waiting | Comparing _ => True | _ => False end.
Definition comparing (p : pc) : Prop := match p with Comparing _ => True | _ => False end.
(** Blocked, and [Block] is done. *)
Definition stuck (x : ring) (i : nat) : Prop := blocked x i = true ∧ in_loop (pcs x i).
(** A tag of node [i] that was made since [i] last called [Block]. *)
Definition fresh (x : ring) (i : nat) (s : Tag) : Prop :=
  QueueKey s = key i ∧ L (prv x i) ≤ L s.

(** The nodes from [k] up to [i] are stuck, and let a tag with the priority of
    node [i] and a label of value [l] pass. *)
Definition path (x : ring) (i k : nat) (l : Z) : Prop :=
  ∀ d, (∀ e, (e ≤ d)%nat → hop e k ≠ i) →
    stuck x (hop d k) ∧ Pr (prv x i) ≤ Pr (prv x (hop d k)) ∧ L (prv x (hop d k)) ≤ l.

Definition carried (x : ring) (s : Tag) : Prop :=
  ∃ k, (k < n)%nat ∧ (s = pub x k ∨ held x k = Some s).

Record inv (x : ring) : Prop := {
  i_tags k : (k < n)%nat → tag_wf (pub x k) ∧ tag_wf (prv x k) ∧
    QueueKey (prv x k) = key k ∧ L (prv x k) ≤ L (pub x k) ∧ Pr (pub x k) ≤ Pr (prv x k);
  i_held k t : (k < n)%nat → held x k = Some t →
    tag_wf t ∧ tle t (pub x (next k)) ∧ (t = pub x (next k) ∨ changed x k = true);
  i_own s : carried x s → ∃ j, (j < n)%nat ∧ QueueKey s = key j ∧ tle s (pub x j) ∧
    (L (prv x j) ≤ L s → priority s = priority (prv x j));
  i_flag k : (k < n)%nat → stuck x k →
    changed x k = true ∨ comparing (pcs x k) ∨ tle (pub x (next k)) (pub x k);
  i_mine k : (k < n)%nat → stuck x k → pub x k = pub x (next k) →
    QueueKey (pub x k) = key k →
    changed x k = true ∨ comparing (pcs x k) ∨ detected x k = true;
  i_path i k : (i < n)%nat → (k < n)%nat → stuck x i → fresh x i (pub x k) →
    path x i k (L (pub x k));
  i_ahead i k t : (i < n)%nat → (k < n)%nat → pcs x k = Comparing t → fresh x i t →
    k = i ∨ stuck x i → blocked x k = true ∧ path x i (next k) (L t);
  i_det i : (i < n)%nat → detected x i = true →
    ∀ m, (m < n)%nat → stuck x m ∧ Pr (prv x i) ≤ Pr (prv x m) }.

Hypothesis Hkey : ∀ i, (i < n)%nat → 0 ≤ key i < 18446744073709551616.
Hypothesis Hinj : ∀ i j, (i < n)%nat → (j < n)%nat → key i = key j → i = j.

Lemma init_inv : inv init.
Proof.
  constructor; try done.
  - intros k Hk. unfold pub, prv, L, Pr. cbn. split_and!; try done; try lia;
      apply new_tag_wf; auto.
  - intros s (k & Hk & [-> |?]); [|done]. exists k. split_and!; try done. apply tle_refl.
  - by intros ? ? [].
  - by intros ? ? [].
  - by intros ? ? ? ? [].
Qed.

(** The priorities of two nodes differ. *)
Lemma priority_apart x i j : inv x → (i < n)%nat → (j < n)%nat →
  Pr (prv x i) = Pr (prv x j) → i = j.
Proof.
  intros Hx Hi Hj E. destruct (i_tags x Hx i Hi) as (_ & [_ Hwi] & Ki & _).
  destruct (i_tags x Hx j Hj) as (_ & [_ Hwj] & Kj & _).
  apply (val_inj _ _ Hwi Hwj) in E. apply Hinj; try done.
  rewrite <- Ki, <- Kj. unfold QueueKey. by rewrite E.
Qed.

Lemma path_cons x i k l :
  (k ≠ i → stuck x k ∧ Pr (prv x i) ≤ Pr (prv x k) ∧ L (prv x k) ≤ l) →
  (k ≠ i → path x i (next k) l) → path x i k l.
Proof.
  intros Hk Hp d Hd. pose proof (Hd 0%nat ltac:(lia)) as Hne. cbn in Hne.
  destruct d as [|d]; [by apply Hk|]. cbn. apply Hp; [done|].
  intros e He. apply (Hd (S e)). lia.
Qed.
Lemma path_self x i l : path x i i l.
Proof. by apply path_cons. Qed.

(** What is stuck on a path has its successor stuck, too, and so stays. *)
Lemma path_keep x y i k l : (k < n)%nat → stuck x i → prv y i = prv x i →
  (∀ m, (m < n)%nat → stuck x m → stuck x (next m) → Pr (prv x i) ≤ Pr (prv x m) → m ≠ i →
     stuck y m ∧ prv y m = prv x m) →
  path x i k l → path y i k l.
Proof.
  intros Hk Hi Ei Hy Hp d Hd. destruct (Hp d Hd) as (Hs & HP & HL).
  destruct (Hy (hop d k)) as [Hs' ->]; try done.
  - by apply hop_lt.
  - destruct (decide (next (hop d k) = i)) as [-> |Hne]; [done|].
    rewrite <- hop_next. apply (Hp (S d)). intros e He.
    destruct (decide (e = S d)) as [-> |]; [by cbn; rewrite hop_next|]. apply Hd. lia.
  - by apply Hd.
  - by rewrite Ei.
Qed.

(** A whole turn: a path from [next i] to [i] has every other node. *)
Lemma path_all x i l m : path x i (next i) l → (i < n)%nat → (m < n)%nat → m ≠ i →
  stuck x m ∧ Pr (prv x i) ≤ Pr (prv x m) ∧ L (prv x m) ≤ l.
Proof.
  intros Hp Hi Hm Hne. destruct (hop_reaches i m Hi Hm Hne) as (d & <- & Hd). by apply Hp.
Qed.

Ltac at_node k i := destruct (decide (k = i)) as [-> |];
  rewrite ?fn_lookup_insert, ?fn_lookup_insert_ne in * by done.

(** *** The actions that leave the tags alone *)
Record quiet (x y : ring) : Prop := {
  qt_nodes : nodes y = nodes x;
  qt_held k t : (k < n)%nat → held y k = Some t →
    held x k = Some t ∧ (changed x k = true → changed y k = true) ∨ t = pub x (next k);
  qt_stuck k : (k < n)%nat → stuck y k → stuck x k ∧
    (changed x k = true → changed y k = true ∨ comparing (pcs y k)) ∧
    (comparing (pcs x k) → comparing (pcs y k)) ∧ (detected x k = true → detected y k = true);
  qt_keep i m : (i < n)%nat → (m < n)%nat → stuck x m → stuck x (next m) →
    Pr (prv x i) ≤ Pr (prv x m) → m ≠ i → stuck y m;
  qt_compare k t : (k < n)%nat → pcs y k = Comparing t →
    (pcs x k = Comparing t ∨ t = pub x (next k) ∧ stuck x k) ∧
    (stuck x k → stuck x (next k) → stuck y k);
  qt_det i : (i < n)%nat → detected y i = true →
    detected x i = true ∧ ∀ m, (m < n)%nat → stuck x m → stuck y m }.

Lemma path_first x i k l : path x i (next k) l → (k < n)%nat → k = i ∨ stuck x i →
  blocked x k = true → in_loop (pcs x k) → stuck x k ∧ stuck x i ∧ stuck x (next k).
Proof.
  intros Hp Hk Hi Hb Hl. assert (stuck x k) as Hs by done.
  assert (stuck x i) by (by destruct Hi as [-> |]). split_and!; try done.
  destruct (decide (next k = i)) as [-> |Hne]; [done|].
  apply (Hp 0%nat). intros e He. by replace e with 0%nat by lia.
Qed.

Lemma quiet_inv x y : inv x → quiet x y → inv y.
Proof.
  intros Hx [En Hh Hst Hkeep Hcmp Hdet].
  assert (∀ m, pub y m = pub x m) as Ep by (intros; unfold pub; by rewrite En).
  assert (∀ m, prv y m = prv x m) as Er by (intros; unfold prv; by rewrite En).
  assert (∀ i k l, (i < n)%nat → (k < n)%nat → stuck x i → path x i k l → path y i k l) as Hpk.
  { intros i k l Hi Hk Hs. apply path_keep; try done. intros. split; eauto. }
  constructor; unfold fresh; try setoid_rewrite Ep; try setoid_rewrite Er.
  - apply Hx.
  - intros k t Hk Ht. pose proof (next_lt k Hk). destruct (Hh k t Hk Ht) as [[Hx' Hc]| ->].
    + destruct (i_held x Hx k t Hk Hx') as (? & ? & Hor). split_and!; try done. tauto.
    + split; [by apply Hx|]. split; [apply tle_refl|by left].
  - intros s (k & Hk & Hs). apply (i_own x Hx). rewrite Ep in Hs.
    destruct Hs as [-> |Hs]; [exists k; auto|].
    destruct (Hh k s Hk Hs) as [[? _]| ->]; [exists k; auto|].
    exists (next k). split; [by apply next_lt|auto].
  - intros k Hk Hs. destruct (Hst k Hk Hs) as (Hs' & Hc & Hm & _).
    destruct (i_flag x Hx k Hk Hs') as [?|[?|?]]; tauto.
  - intros k Hk Hs E1 E2. destruct (Hst k Hk Hs) as (Hs' & Hc & Hm & Hd).
    destruct (i_mine x Hx k Hk Hs' E1 E2) as [?|[?|?]]; tauto.
  - intros i k Hi Hk Hs Hf. destruct (Hst i Hi Hs) as [Hs' _].
    apply Hpk; try done. by apply Hx.
  - intros i k t Hi Hk Ec Hf Hor. destruct (Hcmp k t Hk Ec) as [Hc Hsk].
    pose proof (next_lt k Hk).
    assert (k = i ∨ stuck x i) as Hor' by (destruct Hor; [auto|right; by apply Hst]).
    assert (blocked x k = true ∧ path x i (next k) (L t)) as [Hb Hp].
    { destruct Hc as [Hc|[-> Hs]]; [by apply (i_ahead x Hx)|]. split; [apply Hs|].
      apply (i_path x Hx); try done. by destruct Hor' as [-> |]. }
    destruct (path_first x i k _ Hp Hk Hor' Hb) as (Hs1 & Hs2 & Hs3).
    { by destruct Hc as [-> |[_ []]]. }
    split; [by apply Hsk|by apply Hpk].
  - intros i Hi Hd m Hm. destruct (Hdet i Hi Hd) as [Hd' Hs].
    destruct (i_det x Hx i Hi Hd' m Hm). auto.
Qed.

Lemma start_quiet x i q : inv x → (i < n)%nat → pcs x i = Running →
  quiet x (mk_ring (nodes x) (<[i := Blocking (publicTag (nodes x (next i))) q]> (pcs x))
    (<[i := true]> (blocked x)) (<[i := false]> (changed x)) (<[i := false]> (detected x))).
Proof.
  intros Hx Hi Epc. assert (¬ stuck x i) as Hn' by (intros [_ Hl]; by rewrite Epc in Hl).
  constructor; unfold held, stuck; cbn; try done.
  - intros k t Hk. at_node k i; [|by left]. intros [= <-]. by right.
  - intros k Hk. at_node k i; [by intros [_ []]|tauto].
  - intros j m Hj Hm. at_node m i; [|done]. by intros [_ Hl]; rewrite Epc in Hl.
  - intros k t Hk. at_node k i; [done|auto].
  - intros k Hk. at_node k i; [done|]. intros Hd. split; [done|]. intros m Hm.
    at_node m i; [|done]. by destruct (i_det x Hx k Hk Hd i Hi).
Qed.

Lemma fetch_quiet x i : inv x → (i < n)%nat → pcs x i = Waiting → blocked x i = true →
  quiet x (mk_ring (nodes x) (<[i := Comparing (publicTag (nodes x (next i)))]> (pcs x))
    (blocked x) (<[i := false]> (changed x)) (detected x)).
Proof.
  intros Hx Hi Epc Hb. constructor; unfold held, stuck; cbn; try done.
  - intros k t Hk. at_node k i; [|by left]. intros [= <-]. by right.
  - intros k Hk. at_node k i; [|tauto]. rewrite Epc. cbn. tauto.
  - intros j m Hj Hm. at_node m i; [done|tauto].
  - intros k t Hk. at_node k i; [|auto]. intros [= <-]. rewrite Epc. cbn. auto.
  - intros k Hk Hd. split; [done|]. intros m Hm. by at_node m i.
Qed.

Lemma release_quiet x i : inv x → (i < n)%nat → pcs x (next i) = Running →
  quiet x (mk_ring (nodes x) (pcs x) (<[i := false]> (blocked x)) (changed x) (detected x)).
Proof.
  intros Hx Hi Epc. assert (¬ stuck x (next i)) as Hn' by (intros [_ Hl]; by rewrite Epc in Hl).
  constructor; unfold stuck; cbn; try done.
  - intros k t Hk Hh. by left.
  - intros k Hk. at_node k i; [by intros []|tauto].
  - intros j m Hj Hm. at_node m i; [|done]. done.
  - intros k t Hk Ec. split; [by left|]. by at_node k i.
  - intros k Hk Hd. destruct (i_det x Hx k Hk Hd (next i)); [by apply next_lt|done].
Qed.

Lemma resolve_quiet x i : inv x → (i < n)%nat → pcs x i = Waiting → detected x i = true →
  quiet x (mk_ring (nodes x) (pcs x) (<[i := false]> (blocked x)) (changed x)
    (<[i := false]> (detected x))).
Proof.
  intros Hx Hi Epc Hd. constructor; unfold stuck; cbn; try done.
  - intros k t Hk Hh. by left.
  - intros k Hk. at_node k i; [by intros []|tauto].
  - intros j m Hj Hm. at_node m i; [|done]. intros _ _ HP Hne.
    destruct (i_det x Hx i Hi Hd j Hj). destruct Hne. symmetry.
    apply (priority_apart x); try done. lia.
  - intros k t Hk Ec. split; [by left|]. at_node k i; [congruence|done].
  - intros k Hk. at_node k i; [done|]. intros Hd'.
    destruct (i_det x Hx i Hi Hd k Hk). destruct (i_det x Hx k Hk Hd' i Hi).
    destruct (priority_apart x i k); try done. lia.
Qed.

Lemma resume_quiet x i : inv x → (i < n)%nat → pcs x i = Waiting → blocked x i = false →
  quiet x (mk_ring (nodes x) (<[i := Running]> (pcs x)) (blocked x) (changed x) (detected x)).
Proof.
  intros Hx Hi Epc Hb. constructor; unfold held, stuck; cbn; try done.
  - intros k t Hk. at_node k i; [done|by left].
  - intros k Hk. at_node k i; [by intros [_ []]|tauto].
  - intros j m Hj Hm. at_node m i; [by rewrite Hb; intros []|done].
  - intros k t Hk. at_node k i; [done|auto].
  - intros k Hk Hd. split; [done|]. intros m Hm. at_node m i; [by rewrite Hb; intros []|done].
Qed.

(** *** [Block] *)
Lemma own_below x s i : inv x → carried x s → (i < n)%nat → QueueKey s = key i →
  tle s (pub x i) ∧ (L (prv x i) ≤ L s → priority s = priority (prv x i)).
Proof.
  intros Hx Hs Hi Ek. destruct (i_own x Hx s Hs) as (j & Hj & Ej & Hle & Hp).
  assert (j = i) as -> by (apply Hinj; congruence). done.
Qed.

Lemma signal_true i f k : f k = true → signal i f k = true.
Proof. unfold signal. by at_node k (prev i). Qed.
Lemma signal_prev i f k : (k < n)%nat → next k = i → signal i f k = true.
Proof.
  intros Hk <-. unfold signal. by rewrite prev_next, fn_lookup_insert.
Qed.

(** What [Block] and a [Transmit] that changes the tag have in common. *)
Record raise (x y : ring) (i : nat) : Prop := {
  r_tags m : m ≠ i → pub y m = pub x m ∧ prv y m = prv x m;
  r_up : tle (pub x i) (pub y i);
  r_pcs m : m ≠ i → pcs y m = pcs x m;
  r_wait : pcs y i = Waiting;
  r_blocked : blocked y = blocked x;
  r_flags k : changed x k = true → changed y k = true;
  r_signal k : (k < n)%nat → next k = i → changed y k = true;
  r_det k : detected y k = detected x k }.

Lemma raise_mono x y i m : raise x y i → tle (pub x m) (pub y m).
Proof.
  intros Hr. destruct (decide (m = i)) as [-> |Hm]; [apply Hr|].
  destruct (r_tags _ _ _ Hr m Hm) as [-> _]. apply tle_refl.
Qed.
Lemma raise_stuck x y i m : raise x y i → m ≠ i → stuck y m ↔ stuck x m.
Proof. intros Hr Hm. unfold stuck. by rewrite (r_blocked _ _ _ Hr), (r_pcs _ _ _ Hr m Hm). Qed.
Lemma raise_held x y i k t : raise x y i → held y k = Some t → k ≠ i ∧ held x k = Some t.
Proof.
  intros Hr. unfold held. destruct (decide (k = i)) as [-> |Hk].
  - by rewrite (r_wait _ _ _ Hr).
  - by rewrite (r_pcs _ _ _ Hr k Hk).
Qed.
Lemma raise_carried x y i s : raise x y i → carried y s → s = pub y i ∨ carried x s.
Proof.
  intros Hr (k & Hk & Hs). destruct (decide (k = i)) as [-> |Hki].
  - destruct Hs as [-> |Hs]; [by left|]. by apply (raise_held x y i) in Hs as [? _].
  - right. exists k. split; [done|]. destruct (r_tags _ _ _ Hr k Hki) as [<- _].
    destruct Hs as [?|Hs]; [by left|right]. by apply (raise_held x y i) in Hs as [_ ?].
Qed.
Lemma raise_held_inv x y i k t : inv x → raise x y i → (k < n)%nat → held y k = Some t →
  tag_wf t ∧ tle t (pub y (next k)) ∧ (t = pub y (next k) ∨ changed y k = true).
Proof.
  intros Hx Hr Hk Hu. destruct (raise_held x y i k t Hr Hu) as [Hki Hu'].
  destruct (i_held x Hx k t Hk Hu') as (? & ? & Hor'). split; [done|].
  split; [by eapply tle_trans; [|by eapply raise_mono]|].
  destruct (decide (next k = i)) as [En|En]; [right; by eapply r_signal|].
  destruct (r_tags _ _ _ Hr _ En) as [-> _].
  destruct Hor'; [by left|right; by eapply r_flags].
Qed.
(** Both facts about flags, for the other nodes. *)
Lemma raise_flag x y i k : inv x → raise x y i → (k < n)%nat → k ≠ i → stuck y k →
  (changed y k = true ∨ comparing (pcs y k) ∨ tle (pub y (next k)) (pub y k)) ∧
  (pub y k = pub y (next k) → QueueKey (pub y k) = key k →
   changed y k = true ∨ comparing (pcs y k) ∨ detected y k = true).
Proof.
  intros Hx Hr Hk Hki Hs. apply (raise_stuck x y i) in Hs; [|done..].
  destruct (decide (next k = i)) as [En|En].
  { pose proof (r_signal _ _ _ Hr k Hk En). auto. }
  destruct (r_tags _ _ _ Hr _ En) as [-> _], (r_tags _ _ _ Hr _ Hki) as [-> _].
  rewrite (r_pcs _ _ _ Hr k Hki), (r_det _ _ _ Hr).
  pose proof (r_flags _ _ _ Hr k). pose proof (i_flag x Hx k Hk Hs).
  pose proof (i_mine x Hx k Hk Hs). tauto.
Qed.

Section block.
Context (x : ring) (i : nat) (t : Tag) (q : Z).
Hypothesis Hx : inv x.
Hypothesis Hi : (i < n)%nat.
Hypothesis Epc : pcs x i = Blocking t q.
Hypothesis Hct : Count t < 18446744073709551615.
Hypothesis Hcp : Count (pub x i) < 18446744073709551615.
Let y := mk_ring (<[i := Block t q (nodes x i)]> (nodes x)) (<[i := Waiting]> (pcs x))
  (blocked x) (signal i (changed x)) (detected x).

Lemma block_tag : pub y i = prv y i ∧ tag_wf (prv y i) ∧ QueueKey (prv y i) = key i ∧
  L t < L (pub y i) ∧ L (pub x i) < L (pub y i) ∧ (t = pub x (next i) ∨ changed x i = true).
Proof.
  destruct (i_held x Hx i t Hi) as (Ht & _ & Hor); [unfold held; by rewrite Epc|].
  destruct (i_tags x Hx i Hi) as (Hwp & Hwr & Kr & _).
  destruct (Block_spec t q (nodes x i) Ht Hwp Hwr Hct Hcp) as (Hw & Eq & _ & Kq & HLt & HLp).
  unfold pub, prv. cbn. rewrite fn_lookup_insert. by rewrite Kq.
Qed.

Lemma block_raise : raise x y i.
Proof.
  constructor; unfold pub, prv; cbn; try done.
  - intros m Hm. by rewrite fn_lookup_insert_ne.
  - left. apply block_tag.
  - intros m Hm. by rewrite fn_lookup_insert_ne.
  - by rewrite fn_lookup_insert.
  - apply signal_true.
  - apply signal_prev.
Qed.

Lemma block_not_stuck : ¬ stuck x i.
Proof. intros [_ Hl]. by rewrite Epc in Hl. Qed.

(** The new tag is above all that carry the key of the node. *)
Lemma block_above s : carried x s → QueueKey s = key i → L (prv y i) ≤ L s → False.
Proof.
  intros Hs Ek Hl. destruct block_tag as (E & _ & _ & _ & ? & _). rewrite <- E in Hl.
  destruct (own_below x s i Hx Hs Hi Ek) as [[?|[? _]] _]; lia.
Qed.

Lemma block_path j k l : (j < n)%nat → (k < n)%nat → j ≠ i → stuck x j →
  path x j k l → path y j k l.
Proof.
  intros Hj Hk Hji Hs. apply path_keep; try done; [by apply block_raise|].
  intros m Hm Hsm _ _ _. assert (m ≠ i) by (intros ->; by apply block_not_stuck).
  split; [by apply (raise_stuck x y i m block_raise)|by apply block_raise].
Qed.

Lemma block_ahead j k u : (j < n)%nat → (k < n)%nat → pcs y k = Comparing u →
  fresh y j u → k = j ∨ stuck y j → blocked y k = true ∧ path y j (next k) (L u).
Proof.
  intros Hj Hk. destruct (decide (k = i)) as [-> |Hki].
  { by rewrite (r_wait _ _ _ block_raise). }
  rewrite (r_pcs _ _ _ block_raise k Hki). intros Ec [Ek Hl] Hor'.
  assert (carried x u) as Hc by (exists k; unfold held; rewrite Ec; auto).
  destruct (decide (j = i)) as [-> |Hji]; [by destruct (block_above u Hc Ek)|].
  destruct (r_tags _ _ _ block_raise j Hji) as [_ EB]. rewrite EB in Hl.
  assert (k = j ∨ stuck x j) as Hor2.
  { destruct Hor'; [by left|right; by apply (raise_stuck x y i j block_raise)]. }
  destruct (i_ahead x Hx j k u Hj Hk Ec (conj Ek Hl) Hor2) as [Hb Hp].
  split; [done|]. apply block_path; try done; [by apply next_lt|].
  destruct Hor2 as [<-|]; [|done]. split; [done|]. by rewrite Ec.
Qed.

Lemma block_inv : inv y.
Proof.
  destruct block_tag as (Ei & Hw' & Ki & HLt' & HLp' & Hor). pose proof block_raise as Hr.
  constructor.
  - intros k Hk. destruct (decide (k = i)) as [-> |Hki].
    + rewrite Ei. split_and!; done || lia.
    + destruct (r_tags _ _ _ Hr k Hki) as [-> ->]. by apply Hx.
  - intros k u. by apply (raise_held_inv x y i).
  - intros s Hs. destruct (raise_carried x y i s Hr Hs) as [-> |Hc].
    { exists i. rewrite Ei. split_and!; try done. apply tle_refl. }
    destruct (i_own x Hx s Hc) as (j & Hj & Ek & Hle & Hp). exists j.
    split_and!; try done; [by eapply tle_trans; [|by eapply raise_mono]|].
    destruct (decide (j = i)) as [-> |Hji].
    + intros Hl. by destruct (block_above s).
    + by destruct (r_tags _ _ _ Hr j Hji) as [_ ->].
  - intros k Hk Hs. destruct (decide (k = i)) as [-> |Hki]; [|by eapply raise_flag].
    destruct Hor as [-> |?]; [|left; by apply Hr]. right. right.
    destruct (r_tags _ _ _ Hr _ (next_ne i Hi)) as [-> _]. by left.
  - intros k Hk Hs E1 E2. destruct (decide (k = i)) as [-> |Hki]; [|by eapply raise_flag].
    destruct (r_tags _ _ _ Hr _ (next_ne i Hi)) as [EA _]. rewrite EA in E1.
    destruct (block_above (pub x (next i))); rewrite <- E1; try done; [|rewrite Ei; done].
    exists (next i). rewrite E1. auto using next_lt.
  - intros j k Hj Hk Hs [Ek Hl]. destruct (decide (k = i)) as [-> |Hki].
    + rewrite Ei, Ki in Ek. assert (i = j) as <- by (by apply Hinj). apply path_self.
    + destruct (r_tags _ _ _ Hr k Hki) as [EA _]. rewrite EA in *.
      destruct (decide (j = i)) as [-> |Hji].
      { destruct (block_above (pub x k)); [exists k; auto|done..]. }
      destruct (r_tags _ _ _ Hr j Hji) as [_ EB]. rewrite EB in Hl.
      apply (raise_stuck x y i) in Hs; [|done..].
      apply block_path; try done. by apply (i_path x Hx).
  - apply block_ahead.
  - intros j Hj Hd m Hm. destruct (i_det x Hx j Hj Hd i Hi). by destruct block_not_stuck.
Qed.
End block.

(** *** [Transmit] *)
Definition transmit_to (x : ring) (i : nat) (nd : node) (ch det : bool) : ring :=
  mk_ring (<[i := nd]> (nodes x)) (<[i := Waiting]> (pcs x)) (blocked x)
    (if ch then signal i (changed x) else changed x)
    (if det then <[i := true]> (detected x) else detected x).

Section transmit.
Context (x : ring) (i : nat) (t : Tag) (nd : node) (ch det : bool).
Hypothesis Hx : inv x.
Hypothesis Hi : (i < n)%nat.
Hypothesis Epc : pcs x i = Comparing t.
Hypothesis ET : Transmit t (nodes x i) = (nd, ch, det).
#[local] Notation y := (transmit_to x i nd ch det).

Lemma transmit_held : tag_wf t ∧ carried x t ∧ (t = pub x (next i) ∨ changed x i = true).
Proof.
  assert (held x i = Some t) as Hh by (unfold held; by rewrite Epc).
  destruct (i_held x Hx i t Hi Hh) as (Ht & _ & Hor). split_and!; try done. exists i. auto.
Qed.
Lemma transmit_tag : prv y i = prv x i ∧ tag_wf (pub y i) ∧
  if ch then det = false ∧ tlt (pub x i) t ∧ L (pub y i) = L t ∧
    (priority (pub y i) = priority t ∧ Pr t < Pr (prv x i) ∨
     priority (pub y i) = priority (prv x i) ∧ Pr (prv x i) ≤ Pr t)
  else pub y i = pub x i ∧ tle t (pub x i) ∧
    (det = true ↔ pub x i = t ∧ Pr (pub x i) = Pr (prv x i)).
Proof.
  destruct (i_tags x Hx i Hi) as (Hwp & Hwr & _).
  pose proof (Transmit_spec t (nodes x i) nd ch det (proj1 transmit_held) Hwp Hwr ET) as HT.
  unfold pub, prv in *. cbn. rewrite fn_lookup_insert.
  destruct HT as (-> & ? & HT). split_and!; try done. by destruct ch; [|destruct HT as [-> ?]].
Qed.
Lemma transmit_prv m : prv y m = prv x m.
Proof.
  destruct (decide (m = i)) as [-> |Hm]; [apply transmit_tag|].
  unfold prv. cbn. by rewrite fn_lookup_insert_ne.
Qed.
Lemma transmit_stuck m : stuck y m ↔ stuck x m.
Proof. unfold stuck. cbn. at_node m i; [by rewrite Epc|done]. Qed.
Lemma transmit_path j k l : path x j k l → path y j k l.
Proof. intros Hp d Hd. rewrite transmit_stuck, !transmit_prv. by apply Hp. Qed.

Lemma transmit_ahead j k u : (j < n)%nat → (k < n)%nat → pcs y k = Comparing u →
  fresh y j u → k = j ∨ stuck y j → blocked y k = true ∧ path y j (next k) (L u).
Proof.
  intros Hj Hk. unfold fresh. rewrite transmit_prv, transmit_stuck. cbn.
  at_node k i; [done|]. intros Ec Hf Hor.
  destruct (i_ahead x Hx j k u Hj Hk Ec Hf Hor). split; [done|by apply transmit_path].
Qed.

End transmit.

(** Detection: the tag has come around the whole ring. *)
Lemma transmit_det x i t nd ch det : inv x → (i < n)%nat → pcs x i = Comparing t →
  Transmit t (nodes x i) = (nd, ch, det) →
  let y := transmit_to x i nd ch det in
  ∀ j, (j < n)%nat → detected y j = true →
  ∀ m, (m < n)%nat → stuck y m ∧ Pr (prv y j) ≤ Pr (prv y m).
Proof.
  intros Hx Hi Epc ET y j Hj Hd m Hm. unfold y.
  rewrite (transmit_stuck x i t _ _ _ Epc), !(transmit_prv _ _ _ _ _ _ Hx Hi Epc ET).
  assert (detected x j = true ∨ det = true ∧ j = i) as [Hd'|[Edet Ej]].
  { revert Hd. cbn. destruct det; [at_node j i|]; auto. }
  { by apply (i_det x Hx). }
  subst j. destruct (transmit_tag _ _ _ _ _ _ Hx Hi Epc ET) as (_ & _ & HT).
  destruct ch; [destruct HT; congruence|].
  destruct HT as (_ & _ & [HT _]). destruct (HT Edet) as [Et EP].
  destruct (i_tags x Hx i Hi) as ([_ Hwp] & [_ Hwr] & Kr & Hl & _).
  assert (fresh x i t) as Hf.
  { rewrite <- Et. split; [|done]. unfold QueueKey. by rewrite (val_inj _ _ Hwp Hwr EP). }
  destruct (i_ahead x Hx i i t Hi Hi Epc Hf (or_introl eq_refl)) as [Hb Hp].
  destruct (decide (m = i)) as [-> |Hne].
  - split; [|lia]. split; [done|]. by rewrite Epc.
  - by destruct (path_all x i (L t) m Hp Hi Hm Hne) as (? & ? & _).
Qed.

(** A change. *)
Lemma transmit_raise x i t nd det : inv x → (i < n)%nat → pcs x i = Comparing t →
  Transmit t (nodes x i) = (nd, true, det) → raise x (transmit_to x i nd true det) i.
Proof.
  intros Hx Hi Epc ET. destruct (transmit_tag _ _ _ _ _ _ Hx Hi Epc ET) as (_ & _ & -> & Hlt & HL & HP).
  constructor; cbn; try done.
  - intros m Hm. unfold pub, prv. cbn. by rewrite fn_lookup_insert_ne.
  - destruct (i_tags x Hx i Hi) as (_ & _ & _ & _ & Hp). unfold tlt, tle, Pr in *.
    destruct HP as [[-> ?]|[-> ?]]; lia.
  - intros m Hm. by rewrite fn_lookup_insert_ne.
  - by rewrite fn_lookup_insert.
  - apply signal_true.
  - apply signal_prev.
Qed.

(** Whose tag the changed one is. *)
Lemma transmit_own x i t nd det : inv x → (i < n)%nat → pcs x i = Comparing t →
  Transmit t (nodes x i) = (nd, true, det) →
  let y := transmit_to x i nd true det in
  ∃ j, (j < n)%nat ∧ QueueKey (pub y i) = key j ∧ tle (pub y i) (pub y j) ∧
    (L (prv x j) ≤ L (pub y i) → priority (pub y i) = priority (prv x j)) ∧
    (j ≠ i → QueueKey t = key j ∧ Pr t < Pr (prv x i)).
Proof.
  intros Hx Hi Epc ET y. pose proof (transmit_raise _ _ _ _ _ Hx Hi Epc ET) as Hr.
  destruct (transmit_held _ _ _ Hx Hi Epc) as (Ht & Hct & _).
  destruct (transmit_tag _ _ _ _ _ _ Hx Hi Epc ET) as (_ & Hw & Ed & Hlt & HL & HP).
  destruct (i_tags x Hx i Hi) as (_ & _ & Kr & _). fold y in Hr, HL, HP.
  destruct HP as [[EP HPt]|[EP HPt]].
  - destruct (i_own x Hx t Hct) as (j & Hj & Ek & Hle & Hp). exists j. rewrite HL.
    unfold QueueKey. rewrite EP. split_and!; try done.
    destruct (decide (j = i)) as [-> |Hji]; [apply tle_refl|].
    destruct (r_tags _ _ _ Hr j Hji) as [-> _]. eapply tle_trans; [|done].
    unfold tle, Pr. rewrite EP. lia.
  - exists i. unfold QueueKey. rewrite EP. split_and!; try done. apply tle_refl.
Qed.

Lemma transmit_up_inv x i t nd det : inv x → (i < n)%nat → pcs x i = Comparing t →
  Transmit t (nodes x i) = (nd, true, det) → inv (transmit_to x i nd true det).
Proof.
  intros Hx Hi Epc ET. pose proof (transmit_raise _ _ _ _ _ Hx Hi Epc ET) as Hr.
  pose proof (transmit_prv _ _ _ _ _ _ Hx Hi Epc ET) as Eprv.
  pose proof (transmit_stuck x i t nd true det Epc) as Hst.
  pose proof (transmit_path _ _ _ _ _ _ Hx Hi Epc ET) as Hpath.
  pose proof (transmit_ahead _ _ _ _ _ _ Hx Hi Epc ET) as Hah.
  pose proof (transmit_det _ _ _ _ _ _ Hx Hi Epc ET) as Hdt.
  destruct (transmit_own _ _ _ _ _ Hx Hi Epc ET) as (o & Ho & Eko & Hleo & Hpo & Hoi).
  destruct (transmit_held _ _ _ Hx Hi Epc) as (Ht & Hct & Hor).
  destruct (transmit_tag _ _ _ _ _ _ Hx Hi Epc ET) as (_ & Hw & Ed & Hlt & HL & HP).
  destruct (i_tags x Hx i Hi) as (_ & _ & Kr & Hl & Hp).
  set (y := transmit_to _ _ _ _ _) in *. constructor; try done.
  - intros k Hk. rewrite Eprv. destruct (decide (k = i)) as [-> |Hki].
    + split_and!; try done; [by apply Hx|unfold tlt in Hlt; lia|].
      unfold Pr in *. destruct HP as [[-> ?]|[-> ?]]; lia.
    + destruct (r_tags _ _ _ Hr k Hki) as [-> _]. by apply Hx.
  - intros k u. by apply (raise_held_inv x y i).
  - intros s Hs. destruct (raise_carried x y i s Hr Hs) as [-> |Hc].
    + exists o. by rewrite Eprv.
    + destruct (i_own x Hx s Hc) as (j & Hj & Ek & Hle & Hpj). exists j. rewrite Eprv.
      split_and!; try done. by eapply tle_trans; [|by eapply raise_mono].
  - intros k Hk Hs. destruct (decide (k = i)) as [-> |Hki]; [|by eapply raise_flag].
    destruct Hor as [Et|?]; [|left; by apply Hr]. right. right.
    destruct (r_tags _ _ _ Hr _ (next_ne i Hi)) as [-> _]. rewrite <- Et.
    unfold tle, Pr in *. destruct HP as [[-> ?]|[-> ?]]; lia.
  - intros k Hk Hs E1 E2. destruct (decide (k = i)) as [-> |Hki]; [|by eapply raise_flag].
    destruct Hor as [Et|?]; [|left; by apply Hr]. exfalso.
    destruct (r_tags _ _ _ Hr _ (next_ne i Hi)) as [EA _]. rewrite EA, <- Et in E1.
    rewrite E1 in E2. destruct (own_below x t i Hx Hct Hi E2) as [Hb _].
    unfold tlt, tle in *. lia.
  - intros j k Hj Hk Hs [Ek Hlj]. rewrite Eprv in Hlj. apply Hst in Hs.
    destruct (decide (k = i)) as [-> |Hki].
    + destruct (decide (j = i)) as [-> |Hji]; [apply path_self|].
      assert (o = j) as -> by (apply Hinj; congruence).
      destruct (Hoi Hji) as [Ekt HPt].
      destruct (i_ahead x Hx j i t Hj Hi Epc) as [Hb Hpt].
      { split; [done|]. by rewrite <- HL. }
      { by right. }
      rewrite HL. apply path_cons; intros _; [|by apply Hpath].
      rewrite Hst, !Eprv. split; [split; [done|by rewrite Epc]|].
      assert (Pr t = Pr (prv x j)) as <-; [|unfold tlt in Hlt; lia].
      destruct (own_below x t j Hx Hct Hj Ekt) as [_ Hpj]. unfold Pr. rewrite Hpj; [done|].
      by rewrite <- HL.
    + destruct (r_tags _ _ _ Hr k Hki) as [EA _]. rewrite EA in *.
      apply Hpath. by apply (i_path x Hx).
Qed.

(** No change. *)
Lemma transmit_same_inv x i t nd det : inv x → (i < n)%nat → pcs x i = Comparing t →
  Transmit t (nodes x i) = (nd, false, det) → inv (transmit_to x i nd false det).
Proof.
  intros Hx Hi Epc ET.
  pose proof (transmit_prv _ _ _ _ _ _ Hx Hi Epc ET) as Eprv.
  pose proof (transmit_stuck x i t nd false det Epc) as Hst.
  pose proof (transmit_path _ _ _ _ _ _ Hx Hi Epc ET) as Hpath.
  pose proof (transmit_ahead _ _ _ _ _ _ Hx Hi Epc ET) as Hah.
  pose proof (transmit_det _ _ _ _ _ _ Hx Hi Epc ET) as Hdt.
  destruct (transmit_held _ _ _ Hx Hi Epc) as (Ht & Hct & Hor).
  destruct (transmit_tag _ _ _ _ _ _ Hx Hi Epc ET) as (_ & _ & Ei & Hle & HD).
  destruct (i_tags x Hx i Hi) as (_ & _ & Kr & Hl & Hp).
  set (y := transmit_to _ _ _ _ _) in *.
  assert (∀ m, pub y m = pub x m) as Ep.
  { intros m. destruct (decide (m = i)) as [-> |Hm]; [done|].
    unfold pub. cbn. by rewrite fn_lookup_insert_ne. }
  assert (∀ m u, held y m = Some u → held x m = Some u) as Hh.
  { intros m u. unfold held. cbn. by at_node m i. }
  assert (∀ k, detected x k = true → detected y k = true) as Hd.
  { intros k. cbn. destruct det; [by at_node k i|done]. }
  constructor; try done.
  - intros k Hk. rewrite Eprv, Ep. by apply Hx.
  - intros k u Hk Hu. rewrite Ep. by apply Hx, Hh.
  - intros s (k & Hk & Hs). rewrite Ep in Hs. destruct (i_own x Hx s) as (j & Hj).
    { exists k. split; [done|]. destruct Hs; [by left|right; by apply Hh]. }
    exists j. by rewrite Ep, Eprv.
  - intros k Hk Hs. rewrite !Ep. cbn. apply Hst in Hs.
    at_node k i; [|by apply Hx]. destruct Hor as [<-|?]; auto.
  - intros k Hk Hs. rewrite !Ep. intros E1 E2. apply Hst in Hs. cbn.
    destruct (decide (k = i)) as [-> |Hki].
    + destruct Hor as [Et|?]; [|by left]. right. right. rewrite <- Et in E1.
      destruct (own_below x t i Hx Hct Hi) as [_ HP]; [by rewrite <- E1|].
      rewrite <- E1 in HP. assert (det = true) as ->; [|by rewrite fn_lookup_insert].
      apply HD. split; [done|]. unfold Pr. by rewrite HP.
    + rewrite fn_lookup_insert_ne by done.
      destruct (i_mine x Hx k Hk Hs E1 E2) as [?|[?|?]]; auto.
  - intros j k Hj Hk Hs. unfold fresh. rewrite Eprv, Ep. intros Hf. apply Hst in Hs.
    apply Hpath. by apply (i_path x Hx).
Qed.

(** Every action keeps the invariant. *)
Lemma d4r_step_inv x y : inv x → step x y → inv y.
Proof.
  intros Hx [a E]. unfold exec in E.
  destruct (Nat.ltb_spec (actor a) n) as [Hi|]; [|done]. cbn [negb] in E.
  destruct a as [i q|i|i|i|i|i|i]; cbn in Hi, E.
  - destruct (pcs x i) eqn:Epc; try done. injection E as <-.
    by apply (quiet_inv x), start_quiet.
  - destruct (pcs x i) eqn:Epc; try done. destruct (_ && _) eqn:Ec; [|done].
    injection E as <-. apply andb_true_iff in Ec as [H1 H2].
    apply Z.ltb_lt in H1, H2. by eapply block_inv.
  - destruct (pcs x i) eqn:Epc; try done. destruct (blocked x i) eqn:Eb; [|done].
    destruct (changed x i) eqn:Ec; [|done]. injection E as <-.
    by apply (quiet_inv x), fetch_quiet.
  - destruct (pcs x i) eqn:Epc; try done.
    destruct (Transmit t (nodes x i)) as [[nd ch] det] eqn:ET. injection E as <-.
    destruct ch; [by eapply transmit_up_inv|by eapply transmit_same_inv].
  - destruct (pcs x (next i)) eqn:Epc; try by destruct (pcs x i).
    assert (y = mk_ring (nodes x) (pcs x) (<[i := false]> (blocked x)) (changed x)
      (detected x)) as -> by (by destruct (pcs x i); injection E).
    by apply (quiet_inv x), release_quiet.
  - destruct (pcs x i) eqn:Epc; try done. destruct (detected x i) eqn:Ed; [|done].
    destruct (negb (reading x i)); [|done]. injection E as <-.
    by apply (quiet_inv x), resolve_quiet.
  - destruct (pcs x i) eqn:Epc; try done. destruct (blocked x i) eqn:Eb; [done|].
    injection E as <-. by apply (quiet_inv x), resume_quiet.
Qed.

Lemma d4r_reachable_inv x : rtc step init x → inv x.
Proof.
  intros Hr. assert (∀ x y, rtc step x y → inv x → inv y) as H.
  { clear x Hr. induction 1; eauto using d4r_step_inv. }
  eapply H; [done|apply init_inv].
Qed.

(** ** Termination *)
Definition rstep (x y : ring) : Prop :=
  ∃ i, exec x (AFetch i) = Some y ∨ exec x (ATransmit i) = Some y.
Definition deadlocked (x : ring) : Prop := ∀ m, (m < n)%nat → stuck x m.

Lemma rstep_step x y : rstep x y → step x y.
Proof. intros [i [E|E]]; by eexists. Qed.

Fixpoint sum (f : nat → Z) (k : nat) : Z :=
  match k with O => 0 | S k => sum f k + f k end.
Lemma sum_le f g k : (∀ i, (i < k)%nat → f i ≤ g i) → sum f k ≤ sum g k.
Proof.
  induction k as [|k IH]; cbn; [lia|]. intros H.
  assert (sum f k ≤ sum g k) by (apply IH; auto). specialize (H k). lia.
Qed.
Lemma sum_split f k i : (i < k)%nat → sum f k = f i + sum (λ j, if decide (j = i) then 0 else f j) k.
Proof.
  induction k as [|k IH]; [lia|]. intros Hi. cbn. destruct (decide (k = i)) as [-> |Hk].
  - assert (sum (λ j, if decide (j = i) then 0 else f j) i = sum f i) as ->; [|lia].
    apply Z.le_antisymm; apply sum_le; intros j Hj; destruct (decide (j = i)); lia.
  - rewrite IH by lia. lia.
Qed.
(** A sum goes down when two of its terms do together. *)
Lemma sum_down f g k i j : (i < k)%nat → (j < k)%nat → i ≠ j →
  (∀ m, m ≠ i → m ≠ j → f m ≤ g m) → f i + f j < g i + g j → sum f k < sum g k.
Proof.
  intros Hi Hj Hij Hm Hd.
  rewrite (sum_split f k i), (sum_split g k i) by done.
  rewrite (sum_split (λ m, _) k j), (sum_split (λ m, if decide (m = i) then 0 else g m) k j) by done.
  destruct (decide (j = i)); [congruence|].
  match goal with |- _ + (_ + sum ?f' k) < _ + (_ + sum ?g' k) =>
    assert (sum f' k ≤ sum g' k) by
      (apply sum_le; intros m _; destruct (decide (m = j)), (decide (m = i)); auto; lia) end.
  lia.
Qed.

(** How far the ring is from rest. *)
Definition height (t : Tag) : Z :=
  (340282366920938463463374607431768211456 - L t) * 340282366920938463463374607431768211456 + Pr t.
Definition bit (b : bool) : Z := if b then 1 else 0.
Definition weight (x : ring) (k : nat) : Z :=
  3 * height (pub x k) + 2 * bit (changed x k) +
  match pcs x k with Comparing _ => 1 | _ => 0 end.
Definition energy (x : ring) : Z := sum (weight x) n.

Lemma height_nonneg t : tag_wf t → 0 ≤ height t.
Proof. intros [[] []]. unfold height, L, Pr, val. nia. Qed.
Lemma height_down s t : tag_wf s → tag_wf t → tlt s t → height t < height s.
Proof.
  intros [[] []] [[] []]. unfold tlt, height, L, Pr, val.
  intros [Hl|[-> ?]]; [|lia]. nia.
Qed.

Lemma fetch_energy x y i : inv x → exec x (AFetch i) = Some y →
  energy y < energy x ∧ (deadlocked x → deadlocked y).
Proof.
  intros Hx. unfold exec.
  destruct (Nat.ltb_spec (actor (AFetch i)) n) as [Hi|]; [|done]. cbn in *.
  destruct (pcs x i) eqn:Epc; try done. destruct (blocked x i) eqn:Eb; [|done].
  destruct (changed x i) eqn:Ec; [|done]. intros [= <-]. split.
  - apply (sum_down _ _ n i (prev i)); try done; [by apply prev_lt|by apply not_eq_sym, prev_ne|..];
      unfold weight, pub; cbn.
    + intros m Hm _. by rewrite !fn_lookup_insert_ne by done.
    + pose proof (prev_ne i Hi). rewrite !fn_lookup_insert, !fn_lookup_insert_ne by done.
      rewrite Epc, Ec. cbn. lia.
  - intros Hd m Hm. specialize (Hd m Hm). unfold stuck in *. cbn. by at_node m i.
Qed.

Lemma transmit_energy x y i : inv x → exec x (ATransmit i) = Some y →
  energy y < energy x ∧ (deadlocked x → deadlocked y).
Proof.
  intros Hx. unfold exec.
  destruct (Nat.ltb_spec (actor (ATransmit i)) n) as [Hi|]; [|done]. cbn in *.
  destruct (pcs x i) as [| | |t] eqn:Epc; try done.
  destruct (Transmit t (nodes x i)) as [[nd ch] det] eqn:ET. intros [= <-].
  change (mk_ring _ _ _ _ _) with (transmit_to x i nd ch det). split.
  - destruct (transmit_tag _ _ _ _ _ _ Hx Hi Epc ET) as (_ & Hw & HT).
    destruct (i_tags x Hx i Hi) as (Hwx & _).
    assert (height (pub (transmit_to x i nd ch det) i) + bit ch ≤ height (pub x i)) as Hh.
    { destruct ch; cbn.
      - destruct HT as (_ & Hlt & HL & HP).
        assert (tlt (pub x i) (pub (transmit_to x i nd true det) i)) as Hup.
        { unfold tlt, Pr in *. destruct HP as [[-> ?]|[-> ?]]; rewrite HL; [lia|].
          destruct (transmit_held _ _ _ Hx Hi Epc) as (Ht & _).
          destruct (i_tags x Hx i Hi) as (_ & _ & _ & _ & Hp). unfold Pr in Hp. lia. }
        pose proof (height_down _ _ Hwx Hw Hup). lia.
      - destruct HT as (-> & _). lia. }
    pose proof (prev_ne i Hi) as Hpi.
    apply (sum_down _ _ n i (prev i)); try done; [by apply prev_lt|..];
      unfold weight.
    + intros m Hm Hm'. unfold pub. cbn. rewrite !fn_lookup_insert_ne by done.
      destruct ch; [|done]. unfold signal. by rewrite fn_lookup_insert_ne.
    + assert (pub (transmit_to x i nd ch det) (prev i) = pub x (prev i)) as ->
        by (unfold pub; cbn; by rewrite fn_lookup_insert_ne).
      cbn. rewrite fn_lookup_insert, fn_lookup_insert_ne, Epc by done.
      destruct ch; cbn in Hh; unfold signal; rewrite ?fn_lookup_insert, ?fn_lookup_insert_ne by done;
        destruct (changed x (prev i)), (changed x i); cbn; lia.
  - intros Hd m Hm. rewrite (transmit_stuck x i t nd ch det Epc). auto.
Qed.

Lemma rstep_energy x y : inv x → rstep x y → energy y < energy x ∧ (deadlocked x → deadlocked y).
Proof. intros Hx [i [E|E]]; [by eapply fetch_energy|by eapply transmit_energy]. Qed.
Lemma energy_nonneg x : inv x → 0 ≤ energy x.
Proof.
  intros Hx. transitivity (sum (λ _, 0) n).
  - apply Z.eq_le_incl. symmetry. generalize n. induction n0; cbn; lia.
  - apply sum_le. intros k Hk. unfold weight. destruct (i_tags x Hx k Hk) as (Hw & _).
    pose proof (height_nonneg _ Hw). destruct (pcs x k), (changed x k); cbn; lia.
Qed.

(** Where nothing is left to hand around, all the tags are equal. *)
Lemma at_rest x : inv x → deadlocked x → (∀ y, ¬ rstep x y) →
  ∀ k, (k < n)%nat → pcs x k = Waiting ∧ changed x k = false ∧ tle (pub x (next k)) (pub x k).
Proof.
  intros Hx Hd Hr k Hk. destruct (Hd k Hk) as [Hb Hl].
  assert (pcs x k = Waiting) as Epc.
  { destruct (pcs x k) as [| | |t] eqn:Epc; try done.
    destruct (Transmit t (nodes x k)) as [[nd ch] det] eqn:ET.
    destruct (Hr (transmit_to x k nd ch det)). exists k. right. unfold exec. cbn [actor].
    rewrite (proj2 (Nat.ltb_lt _ _) Hk), Epc. cbn [negb]. by rewrite ET. }
  assert (changed x k = false) as Ec.
  { destruct (changed x k) eqn:Ec; [|done]. exfalso. eapply Hr. exists k. left. unfold exec.
    cbn [actor]. rewrite (proj2 (Nat.ltb_lt _ _) Hk), Epc. cbn [negb]. by rewrite Hb, Ec. }
  split_and!; try done. destruct (i_flag x Hx k Hk (Hd k Hk)) as [?|[Hc|?]]; [congruence| |done].
  by rewrite Epc in Hc.
Qed.

Lemma rest_equal x : (∀ k, (k < n)%nat → tle (pub x (next k)) (pub x k)) → inv x →
  ∀ i m, (i < n)%nat → (m < n)%nat → pub x m = pub x i.
Proof.
  intros Hle Hx i m Hi Hm.
  assert (∀ d k, (k < n)%nat → tle (pub x (hop d k)) (pub x k)) as Hhop.
  { induction d as [|d IH]; intros k Hk; cbn; [apply tle_refl|].
    eapply tle_trans; [by apply IH, next_lt|by apply Hle]. }
  assert (∀ i m, (i < n)%nat → (m < n)%nat → tle (pub x m) (pub x i)) as H.
  { intros j k Hj Hk. destruct (decide (k = j)) as [-> |Hne]; [apply tle_refl|].
    destruct (hop_reaches j k Hj Hk Hne) as (d & <- & _).
    eapply tle_trans; [by apply Hhop, next_lt|by apply Hle]. }
  pose proof (H i m Hi Hm). pose proof (H m i Hm Hi). unfold tle in *.
  apply tag_inj; try lia; by apply Hx.
Qed.

Lemma det_unique x i j : inv x → (i < n)%nat → (j < n)%nat → detected x i = true →
  detected x j = true → j = i.
Proof.
  intros Hx Hi Hj Hd Hdj. apply (priority_apart x); try done.
  destruct (i_det x Hx i Hi Hd j Hj), (i_det x Hx j Hj Hdj i Hi). lia.
Qed.

(** A deadlock ends by its resolution only. *)
Lemma deadlock_stays x y a : deadlocked x → exec x a = Some y →
  blocked y = blocked x ∨ a = AResolve (actor a) ∧ detected x (actor a) = true ∧ (actor a < n)%nat.
Proof.
  intros Hd E. unfold exec in E. destruct (Nat.ltb_spec (actor a) n) as [Hj|]; [|done].
  cbn [negb] in E. destruct (Hd (actor a) Hj) as [Hb Hl].
  destruct (Hd (next (actor a)) (next_lt _ Hj)) as [_ Hln].
  destruct a as [j q|j|j|j|j|j|j]; cbn in Hj, Hb, Hl, E, Hln;
    destruct (pcs x j) as [| | |t] eqn:Epc; try done; rewrite ?Hb in E; cbn in E;
    repeat case_match; try done; injection E as <-; cbn; auto.
  right. split_and!; try done.
  by match goal with H : _ && _ = true |- _ => apply andb_true_iff in H as [] end.
Qed.

(** C7: no false alarm.  In every state the ring can reach, however the nodes
    have blocked, been released and blocked again, a node whose [Transmit] has
    returned true since it blocked is in a deadlock: every node of the ring is
    blocked, and stays so; its queue has the least priority of the ring, and no
    other node has detected the deadlock. *)
Theorem detection_is_a_deadlock x i : rtc step init x → (i < n)%nat → detected x i = true →
  (∀ m, (m < n)%nat → blocked x m = true ∧ in_loop (pcs x m)) ∧
  (∀ m, (m < n)%nat → Pr (prv x i) ≤ Pr (prv x m)) ∧
  (∀ j, (j < n)%nat → detected x j = true → j = i) ∧
  (∀ y m, step x y → (m < n)%nat → (∀ a, exec x a = Some y → a ≠ AResolve i) →
     blocked y m = true).
Proof.
  intros Hr Hi Hd. apply d4r_reachable_inv in Hr. pose proof (i_det x Hr i Hi Hd) as Hall.
  split_and!.
  - intros m Hm. apply (Hall m Hm).
  - intros m Hm. apply (Hall m Hm).
  - intros j Hj. by apply det_unique.
  - intros y m [a E] Hm Ha.
    destruct (deadlock_stays x y a) as [->|(Ea & Hda & Hla)]; try done.
    + intros j Hj. apply (Hall j Hj).
    + apply (Hall m Hm).
    + destruct (Ha a E). by rewrite Ea, (det_unique x i (actor a)).
Qed.

(** C8: no deadlock goes unnoticed.  Once every node of the ring is blocked, the
    turns of their loops come to an end, and then exactly one node has
    detected the deadlock. *)
Theorem deadlock_is_detected x : rtc step init x → deadlocked x →
  ∃ bound, ∀ k y, nsteps rstep k x y → (k ≤ bound)%nat ∧
    ((∀ z, ¬ rstep y z) →
     ∃ i, (i < n)%nat ∧ detected y i = true ∧
       ∀ j, (j < n)%nat → detected y j = true → j = i).
Proof.
  intros Hr Hd. apply d4r_reachable_inv in Hr. exists (Z.to_nat (energy x)). intros k y Hs.
  assert (inv y ∧ deadlocked y ∧ energy y + Z.of_nat k ≤ energy x) as (Hy & Hdy & He).
  { induction Hs as [x|k x x' y Hst Hs IH]; [split_and!; done || lia|].
    destruct (rstep_energy x x' Hr Hst) as [He Hd'].
    destruct IH as (? & ? & ?); [by eapply d4r_step_inv, rstep_step|auto|]. split_and!; done || lia. }
  pose proof (energy_nonneg y Hy). split; [lia|]. intros Hrest.
  pose proof (at_rest y Hy Hdy Hrest) as Hq.
  assert (∀ i m, (i < n)%nat → (m < n)%nat → pub y m = pub y i) as Heq.
  { apply rest_equal; [|done]. intros j Hj. by apply Hq. }
  destruct (i_own y Hy (pub y 0%nat)) as (j & Hj & Ek & _); [exists 0%nat; split; [lia|by left]|].
  assert (detected y j = true) as Hdj.
  { rewrite <- (Heq 0%nat j) in Ek by (done || lia).
    destruct (Hq j Hj) as (Epc & Ec & _). pose proof (next_lt j Hj).
    destruct (i_mine y Hy j Hj (Hdy j Hj)) as [?|[Hc|?]]; try done; [by apply Heq|congruence|].
    by rewrite Epc in Hc. }
  exists j. split; [done|]. split; [done|]. intros i Hi Hdi. by apply (det_unique y).
Qed.

End ring.

(** ** The theorems at a ring of two nodes *)
Lemma tag_order_witness : tag_lt (mk_tag (U128 1 5) (U128 8 9)) (mk_tag (U128 1 9) (U128 9 5)) = true ∧
  tag_lt (mk_tag (U128 1 5) (U128 8 9)) (mk_tag (U128 1 5) (U128 7 5)) = true.
Proof.
  assert (∀ a b c d, u128_wf (U128 a b) → u128_wf (U128 c d) → tag_wf (mk_tag (U128 a b) (U128 c d)))
    as Hw by (by split).
  split; eapply tag_order with (u := new_tag 3);
    try (by apply Hw); try (apply new_tag_wf; lia); cbn; unfold Count, Key, QueueSize, QueueKey; cbn; lia.
Defined.

Fixpoint run (n : nat) (x : ring) (l : list action) : option ring :=
  match l with
  | [] => Some x
  | a :: l => match exec n x a with Some y => run n y l | None => None end
  end.
Lemma run_steps n l : ∀ x y, run n x l = Some y → rtc (step n) x y.
Proof.
  induction l as [|a l IH]; cbn; intros x y E; [by injection E as <-; apply rtc_refl|].
  destruct (exec n x a) as [z|] eqn:Ea; [|done]. eapply rtc_l; [by exists a|auto].
Qed.

Definition example_key (i : nat) : Z := match i with O => 5 | _ => 9 end.
Definition example_block : list action := [AStart 0 (-1); AStart 1 8; ABlock 0; ABlock 1].
Definition example_detect : list action := [AFetch 0; ATransmit 0; AFetch 1; ATransmit 1].
Definition example_ring (l : list action) : ring :=
  match run 2 (init example_key) l with Some x => x | None => init example_key end.
Lemma example_keys : (2 ≤ 2)%nat ∧
  (∀ i, (i < 2)%nat → 0 ≤ example_key i < 18446744073709551616) ∧
  (∀ i j, (i < 2)%nat → (j < 2)%nat → example_key i = example_key j → i = j).
Proof.
  split; [lia|]. split; [intros [|[]]; cbn; lia|].
  intros [|[]] [|[]] Hi Hj E; cbn in *; lia.
Qed.
Lemma example_reach : rtc (step 2) (init example_key) (example_ring example_block) ∧
  rtc (step 2) (init example_key) (example_ring (example_block ++ example_detect)).
Proof.
  split; [apply (run_steps 2 example_block)|apply (run_steps 2 (example_block ++ example_detect))];
    by vm_compute.
Qed.

Lemma detection_is_a_deadlock_witness :
  detected (example_ring (example_block ++ example_detect)) 1 = true ∧
  ∀ m, (m < 2)%nat →
    blocked (example_ring (example_block ++ example_detect)) m = true ∧
    in_loop (pcs (example_ring (example_block ++ example_detect)) m).
Proof.
  destruct example_keys as (Hn & Hk & Hi). split; [by vm_compute|].
  apply (detection_is_a_deadlock 2 example_key Hn Hk Hi _ 1 (proj2 example_reach));
    [lia|by vm_compute].
Defined.

Lemma deadlock_is_detected_witness :
  ∃ bound, ∀ k y, nsteps (rstep 2) k (example_ring example_block) y → (k ≤ bound)%nat ∧
    ((∀ z, ¬ rstep 2 y z) →
     ∃ i, (i < 2)%nat ∧ detected y i = true ∧
       ∀ j, (j < 2)%nat → detected y j = true → j = i).
Proof.
  destruct example_keys as (Hn & Hk & Hi).
  apply (deadlock_is_detected 2 example_key Hn Hk Hi _ (proj1 example_reach)).
  intros [|[|m]] Hm; [by vm_compute..|lia].
Defined.

End D4R.
