(* ===== verification/LocalContext.v ===== *)
(** [libraries/CPN/LocalContext]: the registry of kernels, nodes and endpoints
    that the kernels of a program share.

    Each operation runs under the one lock of the object, in the
    state-and-fault monad.  A broadcast of a condition variable sets its flag; an
    operation that waits is one test of its loop, [None] meaning that it goes to
    sleep on the condition variable.  A pointer to a kernel is its address, 0
    for the null pointer; the calls of a kernel's methods are results. *)
From S2P Require Import Prelude.

Module LC.

(** The result of an operation, wrapped. *)
Definition mfmap {S A B} (f : A → B) (m : M S A) : M S B := a ← m; mret (f a).
Notation "f <$>ᵣ m" := (mfmap f m) (at level 61, left associativity).
Open Scope string_scope.
Open Scope Z_scope.

Record KernelInfo := mk_kernel {
  k_name : string; k_hostname : string; k_servname : string; k_kernel : Z;
  k_live : bool; k_dead : bool; k_allowremote : bool }.
Record NodeInfo := mk_node {
  n_name : string; n_kernelkey : Z; n_started : bool;
  n_readers : gmap string Z; n_writers : gmap string Z; n_dead : bool }.
Record PortInfo := mk_port {
  p_name : string; p_qname : string; p_nodekey : Z; p_opposingport : Z; p_dead : bool }.

Record context := mk {
  loglevel : Z;
  kernelnames : gmap string Z; nodenames : gmap string Z;
  kernelmap : gmap Z KernelInfo; nodemap : gmap Z NodeInfo;
  readports : gmap Z PortInfo; writeports : gmap Z PortInfo;
  numlivenodes : Z; shutdown : bool; counter : Z;
  nodelivedead : bool; kernellivedead : bool }.

Definition set_loglevel s l := mk l (kernelnames s) (nodenames s) (kernelmap s) (nodemap s)
  (readports s) (writeports s) (numlivenodes s) (shutdown s) (counter s) (nodelivedead s)
  (kernellivedead s).
Definition set_kernels s names m := mk (loglevel s) names (nodenames s) m (nodemap s)
  (readports s) (writeports s) (numlivenodes s) (shutdown s) (counter s) (nodelivedead s)
  (kernellivedead s).
Definition set_nodes s names m := mk (loglevel s) (kernelnames s) names (kernelmap s) m
  (readports s) (writeports s) (numlivenodes s) (shutdown s) (counter s) (nodelivedead s)
  (kernellivedead s).
Definition set_ports s r w := mk (loglevel s) (kernelnames s) (nodenames s) (kernelmap s)
  (nodemap s) r w (numlivenodes s) (shutdown s) (counter s) (nodelivedead s)
  (kernellivedead s).
Definition set_numlivenodes s n := mk (loglevel s) (kernelnames s) (nodenames s)
  (kernelmap s) (nodemap s) (readports s) (writeports s) n (shutdown s) (counter s)
  (nodelivedead s) (kernellivedead s).
Definition set_shutdown s := mk (loglevel s) (kernelnames s) (nodenames s)
  (kernelmap s) (nodemap s) (readports s) (writeports s) (numlivenodes s) true (counter s)
  (nodelivedead s) (kernellivedead s).
Definition set_counter s c := mk (loglevel s) (kernelnames s) (nodenames s)
  (kernelmap s) (nodemap s) (readports s) (writeports s) (numlivenodes s) (shutdown s) c
  (nodelivedead s) (kernellivedead s).
Definition set_signals s n k := mk (loglevel s) (kernelnames s) (nodenames s)
  (kernelmap s) (nodemap s) (readports s) (writeports s) (numlivenodes s) (shutdown s)
  (counter s) n k.

(** The constructor; the level is [Logger::WARNING]. *)
Definition make : context := mk 75 ∅ ∅ ∅ ∅ ∅ ∅ 0 false 0 false false.

Definition Op := M context.

Definition InternalCheckTerminated : Op unit :=
  s ← mget; if shutdown s then mthrow Shutdown else mret tt.
Definition NewKey : Op Z :=
  s ← mget; mput (set_counter s (u64 (counter s + 1))) ;; mret (u64 (counter s + 1)).
Definition BroadcastNodes : Op unit := mmodify (λ s, set_signals s true (kernellivedead s)).
Definition BroadcastKernels : Op unit := mmodify (λ s, set_signals s (nodelivedead s) true).

(** [map.find(key)], or [std::invalid_argument] when it is not there. *)
Definition find {A} (o : option A) : Op A :=
  match o with Some a => mret a | None => mthrow InvalidArgument end.
Definition find_kernel (k : Z) : Op KernelInfo := s ← mget; find (kernelmap s !! k).
Definition find_node (k : Z) : Op NodeInfo := s ← mget; find (nodemap s !! k).
Definition find_reader (k : Z) : Op PortInfo := s ← mget; find (readports s !! k).
Definition find_writer (k : Z) : Op PortInfo := s ← mget; find (writeports s !! k).
(** Assignments through the shared pointer of an entry. *)
Definition put_kernel (k : Z) (i : KernelInfo) : Op unit :=
  mmodify (λ s, set_kernels s (kernelnames s) (<[k := i]> (kernelmap s))).
Definition put_node (k : Z) (i : NodeInfo) : Op unit :=
  mmodify (λ s, set_nodes s (nodenames s) (<[k := i]> (nodemap s))).
Definition put_reader (k : Z) (i : PortInfo) : Op unit :=
  mmodify (λ s, set_ports s (<[k := i]> (readports s)) (writeports s)).
Definition put_writer (k : Z) (i : PortInfo) : Op unit :=
  mmodify (λ s, set_ports s (readports s) (<[k := i]> (writeports s))).

Definition LogLevel : Op Z := s ← mget; mret (loglevel s).
Definition SetLogLevel (level : Z) : Op Z :=
  mmodify (λ s, set_loglevel s level) ;; mret level.

(** ** Kernels *)
Definition setup_kernel (i : KernelInfo) : Op Z :=
  InternalCheckTerminated ;;
  if k_kernel i =? 0 then mthrow InvalidArgument else
  s ← mget;
  match kernelnames s !! k_name i with
  | Some _ => mthrow InvalidArgument
  | None =>
    key ← NewKey;
    mmodify (λ s, set_kernels s (<[k_name i := key]> (kernelnames s))
                    (<[key := i]> (kernelmap s))) ;;
    mret key
  end.
Definition SetupKernel_remote (name hostname servname : string) (kernel : Z) : Op Z :=
  setup_kernel (mk_kernel name hostname servname kernel false false true).
Definition SetupKernel (name : string) (kernel : Z) : Op Z :=
  setup_kernel (mk_kernel name "" "" kernel false false false).

Definition GetKernelKey (kernel : string) : Op Z :=
  InternalCheckTerminated ;; s ← mget; find (kernelnames s !! kernel).
Definition GetKernelName (kernelkey : Z) : Op string :=
  InternalCheckTerminated ;; i ← find_kernel kernelkey; mret (k_name i).
Definition GetKernelConnectionInfo (kernelkey : Z) : Op (string * string) :=
  InternalCheckTerminated ;; i ← find_kernel kernelkey;
  massert (k_allowremote i) ;; mret (k_hostname i, k_servname i).
Definition SignalKernelEnd (kernelkey : Z) : Op unit :=
  i ← find_kernel kernelkey;
  put_kernel kernelkey (mk_kernel (k_name i) (k_hostname i) (k_servname i) (k_kernel i)
    (k_live i) true (k_allowremote i)) ;;
  BroadcastKernels.
Definition SignalKernelStart (kernelkey : Z) : Op unit :=
  InternalCheckTerminated ;;
  i ← find_kernel kernelkey;
  put_kernel kernelkey (mk_kernel (k_name i) (k_hostname i) (k_servname i) (k_kernel i)
    true (k_dead i) (k_allowremote i)) ;;
  BroadcastKernels.
Definition WaitForKernelStart (kernel : string) : Op (option Z) :=
  InternalCheckTerminated ;;
  s ← mget;
  match kernelnames s !! kernel with
  | Some key =>
    match kernelmap s !! key with
    | Some i => mret (if k_live i then Some key else None)
    | None => mthrow NullDeref           (** [end()] is dereferenced *)
    end
  | None => mret None
  end.

(** [SendCreateWriter], [SendCreateReader], [SendCreateQueue] and
    [SendCreateNode] differ in the method they call; the result is the kernel
    they call.  [kernelmap[key]] makes a null entry where there is none. *)
Definition SendCreate (kernelkey : Z) : Op Z :=
  InternalCheckTerminated ;;
  s ← mget;
  match kernelmap s !! kernelkey with
  | Some i => massert (negb (k_kernel i =? 0)) ;; mret (k_kernel i)
  | None => mthrow NullDeref
  end.

(** ** Nodes *)
Definition CreateNodeKey (kernelkey : Z) (nodename : string) : Op Z :=
  InternalCheckTerminated ;;
  s ← mget;
  match nodenames s !! nodename with
  | Some _ => mthrow InvalidArgument
  | None =>
    key ← NewKey;
    mmodify (λ s, set_nodes s (<[nodename := key]> (nodenames s))
                    (<[key := mk_node nodename kernelkey false ∅ ∅ false]> (nodemap s))) ;;
    mret key
  end.
Definition GetNodeKey (nodename : string) : Op Z :=
  InternalCheckTerminated ;; s ← mget; find (nodenames s !! nodename).
Definition GetNodeName (nodekey : Z) : Op string := i ← find_node nodekey; mret (n_name i).
Definition SignalNodeStart (nodekey : Z) : Op unit :=
  InternalCheckTerminated ;;
  i ← find_node nodekey;
  put_node nodekey (mk_node (n_name i) (n_kernelkey i) true (n_readers i) (n_writers i)
    (n_dead i)) ;;
  mmodify (λ s, set_numlivenodes s (u32 (numlivenodes s + 1))) ;;
  BroadcastNodes.
Definition SignalNodeEnd (nodekey : Z) : Op unit :=
  i ← find_node nodekey;
  put_node nodekey (mk_node (n_name i) (n_kernelkey i) (n_started i) (n_readers i)
    (n_writers i) true) ;;
  mmodify (λ s, set_numlivenodes s (u32 (numlivenodes s - 1))) ;;
  BroadcastNodes.
Definition WaitForNodeStart (nodename : string) : Op (option Z) :=
  InternalCheckTerminated ;;
  s ← mget;
  match nodenames s !! nodename with
  | Some key =>
    match nodemap s !! key with
    | Some i => mret (if n_started i then Some key else None)
    | None => mret None
    end
  | None => mret None
  end.
Definition WaitForNodeEnd (nodename : string) : Op (option unit) :=
  s ← mget;
  if shutdown s then mret (Some tt) else
  match nodenames s !! nodename with
  | Some key =>
    match nodemap s !! key with
    | Some i => if n_dead i then massert (n_started i) ;; mret (Some tt) else mret None
    | None => mret None
    end
  | None => mret None
  end.
Definition WaitForAllNodeEnd : Op (option unit) :=
  s ← mget; mret (if (0 <? numlivenodes s) && negb (shutdown s) then None else Some tt).
Definition GetNodeKernel (nodekey : Z) : Op Z :=
  InternalCheckTerminated ;; i ← find_node nodekey; mret (n_kernelkey i).

(** ** Endpoints *)
Definition GetCreateReaderKey (nodekey : Z) (portname : string) : Op Z :=
  InternalCheckTerminated ;;
  i ← find_node nodekey;
  match n_readers i !! portname with
  | Some key => mret key
  | None =>
    key ← NewKey;
    put_node nodekey (mk_node (n_name i) (n_kernelkey i) (n_started i)
      (<[portname := key]> (n_readers i)) (n_writers i) (n_dead i)) ;;
    put_reader key (mk_port portname "" nodekey 0 false) ;;
    mret key
  end.
Definition GetReaderNode (portkey : Z) : Op Z :=
  InternalCheckTerminated ;; p ← find_reader portkey; mret (p_nodekey p).
Definition GetReaderKernel (portkey : Z) : Op Z :=
  nodekey ← GetReaderNode portkey; GetNodeKernel nodekey.
Definition GetReaderName (portkey : Z) : Op string :=
  InternalCheckTerminated ;; p ← find_reader portkey; mret (p_name p).
Definition GetCreateWriterKey (nodekey : Z) (portname : string) : Op Z :=
  InternalCheckTerminated ;;
  i ← find_node nodekey;
  match n_writers i !! portname with
  | Some key => mret key
  | None =>
    key ← NewKey;
    put_node nodekey (mk_node (n_name i) (n_kernelkey i) (n_started i)
      (n_readers i) (<[portname := key]> (n_writers i)) (n_dead i)) ;;
    put_writer key (mk_port portname "" nodekey 0 false) ;;
    mret key
  end.
Definition GetWriterNode (portkey : Z) : Op Z :=
  InternalCheckTerminated ;; p ← find_writer portkey; mret (p_nodekey p).
Definition GetWriterKernel (portkey : Z) : Op Z :=
  nodekey ← GetWriterNode portkey; GetNodeKernel nodekey.
Definition GetWriterName (portkey : Z) : Op string :=
  InternalCheckTerminated ;; p ← find_writer portkey; mret (p_name p).

Definition ConnectEndpoints (writerkey readerkey : Z) (qname : string) : Op unit :=
  InternalCheckTerminated ;;
  w ← find_writer writerkey;
  r ← find_reader readerkey;
  put_writer writerkey (mk_port (p_name w) qname (p_nodekey w) readerkey (p_dead w)) ;;
  put_reader readerkey (mk_port (p_name r) qname (p_nodekey r) writerkey (p_dead r)).
Definition GetReadersWriter (readerkey : Z) : Op Z :=
  InternalCheckTerminated ;; p ← find_reader readerkey; mret (p_opposingport p).
Definition GetWritersReader (writerkey : Z) : Op Z :=
  InternalCheckTerminated ;; p ← find_writer writerkey; mret (p_opposingport p).

(** The result is the kernels that are told, by address (the list is in the
    order of [map_to_list]). *)
Definition Terminate : Op (list Z) :=
  mmodify set_shutdown ;; BroadcastNodes ;; BroadcastKernels ;;
  s ← mget;
  mret ((λ e : Z * KernelInfo, k_kernel e.2) <$>
        filter (λ e : Z * KernelInfo, k_dead e.2 = false) (map_to_list (kernelmap s))).
Definition IsTerminated : Op bool := s ← mget; mret (shutdown s).

(** ** All the operations *)
Inductive op :=
  | OSetLogLevel (level : Z)
  | OSetupRemote (name hostname servname : string) (kernel : Z) | OSetup (name : string) (kernel : Z)
  | OGetKernelKey (kernel : string) | OGetKernelName (k : Z) | OGetKernelConnectionInfo (k : Z)
  | OSignalKernelEnd (k : Z) | OSignalKernelStart (k : Z) | OWaitForKernelStart (kernel : string)
  | OSendCreate (k : Z)
  | OCreateNodeKey (k : Z) (name : string) | OGetNodeKey (name : string) | OGetNodeName (k : Z)
  | OSignalNodeStart (k : Z) | OSignalNodeEnd (k : Z) | OWaitForNodeStart (name : string)
  | OWaitForNodeEnd (name : string) | OWaitForAllNodeEnd | OGetNodeKernel (k : Z)
  | OGetCreateReaderKey (k : Z) (port : string) | OGetReaderNode (k : Z)
  | OGetReaderKernel (k : Z) | OGetReaderName (k : Z)
  | OGetCreateWriterKey (k : Z) (port : string) | OGetWriterNode (k : Z)
  | OGetWriterKernel (k : Z) | OGetWriterName (k : Z)
  | OConnectEndpoints (w r : Z) (qname : string) | OGetReadersWriter (k : Z)
  | OGetWritersReader (k : Z) | OTerminate | OIsTerminated.

Inductive value :=
  | VUnit | VKey (k : Z) | VName (n : string) | VInfo (h s : string) | VWaits
  | VKernels (l : list Z) | VBool (b : bool).
Definition wait_value {A} (f : A → value) (o : option A) : value :=
  match o with Some a => f a | None => VWaits end.

Definition run (o : op) : Op value :=
  match o with
  | OSetLogLevel l => VKey <$>ᵣ SetLogLevel l
  | OSetupRemote n h sn k => VKey <$>ᵣ SetupKernel_remote n h sn k
  | OSetup n k => VKey <$>ᵣ SetupKernel n k
  | OGetKernelKey n => VKey <$>ᵣ GetKernelKey n
  | OGetKernelName k => VName <$>ᵣ GetKernelName k
  | OGetKernelConnectionInfo k => (λ i, VInfo i.1 i.2) <$>ᵣ GetKernelConnectionInfo k
  | OSignalKernelEnd k => (λ _, VUnit) <$>ᵣ SignalKernelEnd k
  | OSignalKernelStart k => (λ _, VUnit) <$>ᵣ SignalKernelStart k
  | OWaitForKernelStart n => wait_value VKey <$>ᵣ WaitForKernelStart n
  | OSendCreate k => VKey <$>ᵣ SendCreate k
  | OCreateNodeKey k n => VKey <$>ᵣ CreateNodeKey k n
  | OGetNodeKey n => VKey <$>ᵣ GetNodeKey n
  | OGetNodeName k => VName <$>ᵣ GetNodeName k
  | OSignalNodeStart k => (λ _, VUnit) <$>ᵣ SignalNodeStart k
  | OSignalNodeEnd k => (λ _, VUnit) <$>ᵣ SignalNodeEnd k
  | OWaitForNodeStart n => wait_value VKey <$>ᵣ WaitForNodeStart n
  | OWaitForNodeEnd n => wait_value (λ _, VUnit) <$>ᵣ WaitForNodeEnd n
  | OWaitForAllNodeEnd => wait_value (λ _, VUnit) <$>ᵣ WaitForAllNodeEnd
  | OGetNodeKernel k => VKey <$>ᵣ GetNodeKernel k
  | OGetCreateReaderKey k p => VKey <$>ᵣ GetCreateReaderKey k p
  | OGetReaderNode k => VKey <$>ᵣ GetReaderNode k
  | OGetReaderKernel k => VKey <$>ᵣ GetReaderKernel k
  | OGetReaderName k => VName <$>ᵣ GetReaderName k
  | OGetCreateWriterKey k p => VKey <$>ᵣ GetCreateWriterKey k p
  | OGetWriterNode k => VKey <$>ᵣ GetWriterNode k
  | OGetWriterKernel k => VKey <$>ᵣ GetWriterKernel k
  | OGetWriterName k => VName <$>ᵣ GetWriterName k
  | OConnectEndpoints w r q => (λ _, VUnit) <$>ᵣ ConnectEndpoints w r q
  | OGetReadersWriter k => VKey <$>ᵣ GetReadersWriter k
  | OGetWritersReader k => VKey <$>ᵣ GetWritersReader k
  | OTerminate => VKernels <$>ᵣ Terminate
  | OIsTerminated => VBool <$>ᵣ IsTerminated
  end.

(** A thread of the program calls an operation; the last key is out of reach. *)
Definition step (s s' : context) : Prop :=
  counter s < 18446744073709551615 ∧ ∃ o, s' = (run o (set_signals s false false)).2.

(** ** The invariant *)
Inductive kind := Kernel | Node | Reader | Writer.
Definition holds (s : context) (a : kind) (k : Z) : Prop :=
  match a with
  | Kernel => is_Some (kernelmap s !! k)
  | Node => is_Some (nodemap s !! k)
  | Reader => is_Some (readports s !! k)
  | Writer => is_Some (writeports s !! k)
  end.

Record wf (s : context) : Prop := {
  w_counter : 0 ≤ counter s < 18446744073709551616;
  w_range a k : holds s a k → 1 ≤ k ≤ counter s;
  w_unique a b k : holds s a k → holds s b k → a = b;
  w_kernels name k : kernelnames s !! name = Some k ↔
    ∃ i, kernelmap s !! k = Some i ∧ k_name i = name;
  w_nodes name k : nodenames s !! name = Some k ↔
    ∃ i, nodemap s !! k = Some i ∧ n_name i = name;
  w_readers n p k : (∃ i, nodemap s !! n = Some i ∧ n_readers i !! p = Some k) ↔
    ∃ q, readports s !! k = Some q ∧ p_nodekey q = n ∧ p_name q = p;
  w_writers n p k : (∃ i, nodemap s !! n = Some i ∧ n_writers i !! p = Some k) ↔
    ∃ q, writeports s !! k = Some q ∧ p_nodekey q = n ∧ p_name q = p;
  w_read_from k q : readports s !! k = Some q →
    p_opposingport q = 0 ∨ is_Some (writeports s !! p_opposingport q);
  w_write_to k q : writeports s !! k = Some q →
    p_opposingport q = 0 ∨ is_Some (readports s !! p_opposingport q) }.

(** *** The ways the registry changes *)
Record same_registry (s s' : context) : Prop := {
  sr_knames : kernelnames s' = kernelnames s; sr_nnames : nodenames s' = nodenames s;
  sr_kernels : kernelmap s' = kernelmap s; sr_nodes : nodemap s' = nodemap s;
  sr_readers : readports s' = readports s; sr_writers : writeports s' = writeports s;
  sr_counter : counter s' = counter s }.
Lemma wf_same s s' : wf s → same_registry s s' → wf s'.
Proof.
  intros [] [E1 E2 E3 E4 E5 E6 E7].
  constructor; unfold holds in *; rewrite ?E1, ?E2, ?E3, ?E4, ?E5, ?E6, ?E7; auto.
Qed.

(** Nothing has the next key yet. *)
Definition fresh (s : context) (k : Z) : Prop := ∀ a, ¬ holds s a k.
Lemma next_fresh s : wf s → fresh s (counter s + 1).
Proof. intros Hw a H. pose proof (w_range s Hw a _ H). lia. Qed.

(** An entry changes, and keeps what the registry is indexed by. *)
Lemma wf_put_kernel s k i i' : wf s → kernelmap s !! k = Some i → k_name i' = k_name i →
  wf (set_kernels s (kernelnames s) (<[k := i']> (kernelmap s))).
Proof.
  intros [] Hk En.
  assert (∀ a j, holds (set_kernels s (kernelnames s) (<[k := i']> (kernelmap s))) a j ↔
    holds s a j) as Hh.
  { intros [] j; cbn; try done. destruct (decide (j = k)) as [-> |]; simplify_map_eq; [|done].
    by split; eexists. }
  constructor; try setoid_rewrite Hh; try done; cbn.
  intros name j. rewrite w_kernels0.
  destruct (decide (j = k)) as [-> |]; simplify_map_eq; [|done].
  split; intros (u & Eu & <-); simplify_eq; eexists; (split; [done|congruence]).
Qed.

Lemma wf_put_node s k i i' : wf s → nodemap s !! k = Some i → n_name i' = n_name i →
  n_readers i' = n_readers i → n_writers i' = n_writers i →
  wf (set_nodes s (nodenames s) (<[k := i']> (nodemap s))).
Proof.
  intros [] Hk En Er Ew.
  assert (∀ a j, holds (set_nodes s (nodenames s) (<[k := i']> (nodemap s))) a j ↔
    holds s a j) as Hh.
  { intros [] j; cbn; try done. destruct (decide (j = k)) as [-> |]; simplify_map_eq; [|done].
    by split; eexists. }
  constructor; try setoid_rewrite Hh; try done; cbn.
  - intros name j. rewrite w_nodes0.
    destruct (decide (j = k)) as [-> |]; simplify_map_eq; [|done].
    split; intros (u & Eu & <-); simplify_eq; eexists; (split; [done|congruence]).
  - intros n p j. rewrite <- w_readers0.
    destruct (decide (n = k)) as [-> |]; simplify_map_eq; [|done].
    split; intros (u & Eu & Ep); simplify_eq; eexists; (split; [done|congruence]).
  - intros n p j. rewrite <- w_writers0.
    destruct (decide (n = k)) as [-> |]; simplify_map_eq; [|done].
    split; intros (u & Eu & Ep); simplify_eq; eexists; (split; [done|congruence]).
Qed.

(** A new entry under the next key. *)
Lemma new_holds s s' (a0 : kind) : wf s → counter s + 1 < 18446744073709551616 →
  counter s' = counter s + 1 →
  (∀ a k, holds s' a k ↔ holds s a k ∨ a = a0 ∧ k = counter s + 1) →
  0 ≤ counter s' < 18446744073709551616 ∧
  (∀ a k, holds s' a k → 1 ≤ k ≤ counter s') ∧
  (∀ a b k, holds s' a k → holds s' b k → a = b).
Proof.
  intros Hw Hc E Hh. pose proof (w_counter s Hw). pose proof (next_fresh s Hw) as Hf.
  split; [lia|]. split.
  - intros a k [Hs|[_ ->]]%Hh; [|lia]. pose proof (w_range s Hw a k Hs). lia.
  - intros a b k [Ha|[-> ->]]%Hh [Hb|[-> Ek]]%Hh; try done.
    + by apply (w_unique s Hw a b k).
    + subst k. by destruct (Hf a).
    + by destruct (Hf b).
Qed.

Ltac new_key k k0 := destruct (decide (k = k0)) as [-> |]; simplify_map_eq.

Lemma wf_new_kernel s i : wf s → counter s + 1 < 18446744073709551616 →
  kernelnames s !! k_name i = None →
  wf (set_kernels (set_counter s (counter s + 1))
        (<[k_name i := counter s + 1]> (kernelnames s))
        (<[counter s + 1 := i]> (kernelmap s))).
Proof.
  intros Hw Hc Hn. pose proof (next_fresh s Hw) as Hf. set (s' := set_kernels _ _ _).
  assert (kernelmap s !! (counter s + 1) = None) as Hk by (apply eq_None_not_Some, (Hf Kernel)).
  destruct (new_holds s s' Kernel) as (H1 & H2 & H3); try done.
  { intros [] k; cbn; try (naive_solver done). new_key k (counter s + 1); [|naive_solver].
    split; [by right|by eexists]. }
  destruct Hw. constructor; try done; cbn.
  intros name k. destruct (decide (name = k_name i)) as [-> |Hne].
  - rewrite lookup_insert_eq. new_key k (counter s + 1).
    + split; [intros _; by exists i|done].
    + split; [intros [= <-]; done|]. intros (j & Ej & En).
      by rewrite (proj2 (w_kernels0 _ _) (ex_intro _ j (conj Ej En))) in Hn.
  - rewrite lookup_insert_ne by done. new_key k (counter s + 1); [|done]. split.
    + intros E. apply w_kernels0 in E as (j & Ej & _). congruence.
    + intros (j & [= <-] & En). congruence.
Qed.

Lemma wf_new_node s name kk : wf s → counter s + 1 < 18446744073709551616 →
  nodenames s !! name = None →
  wf (set_nodes (set_counter s (counter s + 1)) (<[name := counter s + 1]> (nodenames s))
        (<[counter s + 1 := mk_node name kk false ∅ ∅ false]> (nodemap s))).
Proof.
  intros Hw Hc Hn. pose proof (next_fresh s Hw) as Hf. set (s' := set_nodes _ _ _).
  assert (nodemap s !! (counter s + 1) = None) as Hk by (apply eq_None_not_Some, (Hf Node)).
  destruct (new_holds s s' Node) as (H1 & H2 & H3); try done.
  { intros [] k; cbn; try (naive_solver done). new_key k (counter s + 1); [|naive_solver].
    split; [by right|by eexists]. }
  destruct Hw. constructor; try done; cbn.
  - intros nm k. destruct (decide (nm = name)) as [-> |Hne].
    + rewrite lookup_insert_eq. new_key k (counter s + 1).
      * split; [intros _; by eexists|done].
      * split; [intros [= <-]; done|]. intros (j & Ej & En).
        by rewrite (proj2 (w_nodes0 _ _) (ex_intro _ j (conj Ej En))) in Hn.
    + rewrite lookup_insert_ne by done. new_key k (counter s + 1); [|done]. split.
      * intros E. apply w_nodes0 in E as (j & Ej & _). congruence.
      * intros (j & [= <-] & En). cbn in En. congruence.
  - intros n p k. rewrite <- w_readers0. new_key n (counter s + 1); [|done].
    split; intros (j & Ej & Ep); simplify_map_eq.
  - intros n p k. rewrite <- w_writers0. new_key n (counter s + 1); [|done].
    split; intros (j & Ej & Ep); simplify_map_eq.
Qed.

Lemma wf_new_reader s n p i i' : wf s → counter s + 1 < 18446744073709551616 →
  nodemap s !! n = Some i → n_readers i !! p = None →
  n_name i' = n_name i → n_readers i' = <[p := counter s + 1]> (n_readers i) →
  n_writers i' = n_writers i →
  wf (set_ports (set_nodes (set_counter s (counter s + 1)) (nodenames s)
        (<[n := i']> (nodemap s))) (<[counter s + 1 := mk_port p "" n 0 false]> (readports s)) (writeports s)).
Proof.
  intros Hw Hc Hi Hp En Er Ew. pose proof (next_fresh s Hw) as Hf. set (s' := set_ports _ _ _).
  assert (readports s !! (counter s + 1) = None) as Hk by (apply eq_None_not_Some, (Hf Reader)).
  destruct (new_holds s s' Reader) as (H1 & H2 & H3); try done.
  { intros [] k; cbn; try (naive_solver done).
    - destruct (decide (k = n)) as [-> |]; simplify_map_eq; [|naive_solver].
      split; [by left; eexists|by eexists].
    - new_key k (counter s + 1); [|naive_solver]. split; [by right|by eexists]. }
  destruct Hw. constructor; try done; cbn.
  - intros nm k. rewrite w_nodes0.
    destruct (decide (k = n)) as [-> |]; simplify_map_eq; [|done].
    split; intros (u & Eu & <-); simplify_eq; eexists; (split; [done|congruence]).
  - intros m port k. destruct (decide (m = n)) as [-> |Hm].
    + rewrite lookup_insert_eq. destruct (decide (port = p)) as [-> |Hport].
      * new_key k (counter s + 1).
        { split; [intros _; by eexists|intros _; exists i'; by rewrite Er, lookup_insert_eq]. }
        split; [intros (u & [= <-] & Eu); rewrite Er, lookup_insert_eq in Eu; congruence|].
        intros (q & Eq & En' & Ep). destruct (proj2 (w_readers0 n p k)) as (u & Eu & Eu'); [eauto|].
        congruence.
      * new_key k (counter s + 1).
        { split; [|intros (q & [= <-] & _ & Ep); cbn in Ep; congruence].
          intros (u & [= <-] & Eu). rewrite Er, lookup_insert_ne in Eu by done.
          destruct (proj1 (w_readers0 n port (counter s + 1))) as (q & Eq & _); [eauto|congruence]. }
        rewrite <- w_readers0. split; intros (u & Eu & Ep); simplify_eq; eexists; (split; [done|]);
          rewrite Er, lookup_insert_ne in * by done; done.
    + rewrite lookup_insert_ne by done. new_key k (counter s + 1); [|by rewrite <- w_readers0].
      split; [|intros (q & [= <-] & En' & _); cbn in En'; congruence].
      intros Hu. apply w_readers0 in Hu as (q & Eq & _). congruence.
  - intros m port k. rewrite <- w_writers0. destruct (decide (m = n)) as [-> |]; simplify_map_eq; [|done].
    split; intros (u & Eu & Ep); simplify_eq; eexists; (split; [done|congruence]).
  - intros k q. new_key k (counter s + 1); [intros [= <-]; by left|apply w_read_from0].
  - intros k q. intros Eq. destruct (w_write_to0 k q Eq) as [?|Ho]; [by left|right].
    new_key (p_opposingport q) (counter s + 1); [by eexists|done].
Qed.

Lemma wf_new_writer s n p i i' : wf s → counter s + 1 < 18446744073709551616 →
  nodemap s !! n = Some i → n_writers i !! p = None →
  n_name i' = n_name i → n_writers i' = <[p := counter s + 1]> (n_writers i) →
  n_readers i' = n_readers i →
  wf (set_ports (set_nodes (set_counter s (counter s + 1)) (nodenames s)
        (<[n := i']> (nodemap s))) (readports s) (<[counter s + 1 := mk_port p "" n 0 false]> (writeports s))).
Proof.
  intros Hw Hc Hi Hp En Er Ew. pose proof (next_fresh s Hw) as Hf. set (s' := set_ports _ _ _).
  assert (writeports s !! (counter s + 1) = None) as Hk by (apply eq_None_not_Some, (Hf Writer)).
  destruct (new_holds s s' Writer) as (H1 & H2 & H3); try done.
  { intros [] k; cbn; try (naive_solver done).
    - destruct (decide (k = n)) as [-> |]; simplify_map_eq; [|naive_solver].
      split; [by left; eexists|by eexists].
    - new_key k (counter s + 1); [|naive_solver]. split; [by right|by eexists]. }
  destruct Hw. constructor; try done; cbn.
  - intros nm k. rewrite w_nodes0.
    destruct (decide (k = n)) as [-> |]; simplify_map_eq; [|done].
    split; intros (u & Eu & <-); simplify_eq; eexists; (split; [done|congruence]).
  - intros m port k. rewrite <- w_readers0. destruct (decide (m = n)) as [-> |]; simplify_map_eq; [|done].
    split; intros (u & Eu & Ep); simplify_eq; eexists; (split; [done|congruence]).
  - intros m port k. destruct (decide (m = n)) as [-> |Hm].
    + rewrite lookup_insert_eq. destruct (decide (port = p)) as [-> |Hport].
      * new_key k (counter s + 1).
        { split; [intros _; by eexists|intros _; exists i'; by rewrite Er, lookup_insert_eq]. }
        split; [intros (u & [= <-] & Eu); rewrite Er, lookup_insert_eq in Eu; congruence|].
        intros (q & Eq & En' & Ep). destruct (proj2 (w_writers0 n p k)) as (u & Eu & Eu'); [eauto|].
        congruence.
      * new_key k (counter s + 1).
        { split; [|intros (q & [= <-] & _ & Ep); cbn in Ep; congruence].
          intros (u & [= <-] & Eu). rewrite Er, lookup_insert_ne in Eu by done.
          destruct (proj1 (w_writers0 n port (counter s + 1))) as (q & Eq & _); [eauto|congruence]. }
        rewrite <- w_writers0. split; intros (u & Eu & Ep); simplify_eq; eexists; (split; [done|]);
          rewrite Er, lookup_insert_ne in * by done; done.
    + rewrite lookup_insert_ne by done. new_key k (counter s + 1); [|by rewrite <- w_writers0].
      split; [|intros (q & [= <-] & En' & _); cbn in En'; congruence].
      intros Hu. apply w_writers0 in Hu as (q & Eq & _). congruence.
  - intros k q. intros Eq. destruct (w_read_from0 k q Eq) as [?|Ho]; [by left|right].
    new_key (p_opposingport q) (counter s + 1); [by eexists|done].
  - intros k q. new_key k (counter s + 1); [intros [= <-]; by left|apply w_write_to0].
Qed.

Lemma wf_connect s w r q wp rp : wf s → writeports s !! w = Some wp →
  readports s !! r = Some rp →
  wf (set_ports s (<[r := mk_port (p_name rp) q (p_nodekey rp) w (p_dead rp)]> (readports s))
        (<[w := mk_port (p_name wp) q (p_nodekey wp) r (p_dead wp)]> (writeports s))).
Proof.
  intros [] Ew Er. set (s' := set_ports _ _ _).
  assert (∀ a k, holds s' a k ↔ holds s a k) as Hh.
  { intros [] k; cbn; try done.
    - destruct (decide (k = r)) as [-> |]; simplify_map_eq; [|done]. by split; eexists.
    - destruct (decide (k = w)) as [-> |]; simplify_map_eq; [|done]. by split; eexists. }
  constructor; try setoid_rewrite Hh; try done; cbn.
  - intros n p k. rewrite w_readers0. destruct (decide (k = r)) as [-> |]; simplify_map_eq; [|done].
    split; intros (u & Eu & E1 & E2); simplify_eq; eexists; (split; [done|]); by subst.
  - intros n p k. rewrite w_writers0. destruct (decide (k = w)) as [-> |]; simplify_map_eq; [|done].
    split; intros (u & Eu & E1 & E2); simplify_eq; eexists; (split; [done|]); by subst.
  - intros k u. destruct (decide (k = r)) as [-> |]; simplify_map_eq.
    + intros [= <-]. right. cbn. rewrite lookup_insert_eq. by eexists.
    + intros Eu. destruct (w_read_from0 k u Eu) as [?|Ho]; [by left|right].
      apply (Hh Writer). done.
  - intros k u. destruct (decide (k = w)) as [-> |]; simplify_map_eq.
    + intros [= <-]. right. cbn. rewrite lookup_insert_eq. by eexists.
    + intros Eu. destruct (w_write_to0 k u Eu) as [?|Ho]; [by left|right].
      apply (Hh Reader). done.
Qed.

(** *** Every operation keeps it *)
Ltac op_unfold := unfold run, mfmap, SetLogLevel, SetupKernel_remote, SetupKernel, setup_kernel,
  GetKernelKey, GetKernelName, GetKernelConnectionInfo, SignalKernelEnd, SignalKernelStart,
  WaitForKernelStart, SendCreate, CreateNodeKey, GetNodeKey, GetNodeName, SignalNodeStart,
  SignalNodeEnd, WaitForNodeStart, WaitForNodeEnd, WaitForAllNodeEnd, GetReaderKernel,
  GetWriterKernel, GetNodeKernel, GetCreateReaderKey, GetReaderNode, GetReaderName,
  GetCreateWriterKey, GetWriterNode, GetWriterName, ConnectEndpoints,
  GetReadersWriter, GetWritersReader, Terminate, IsTerminated, find_kernel, find_node,
  find_reader, find_writer, put_kernel, put_node, put_reader, put_writer, NewKey,
  BroadcastNodes, BroadcastKernels, InternalCheckTerminated, find; mred.
Ltac op_cases := repeat (case_match; simplify_eq; mred); try done.

Lemma op_wf o s : wf s → counter s < 18446744073709551615 → wf (run o s).2.
Proof.
  intros Hw Hc. pose proof (w_counter s Hw) as Hc0.
  assert (counter s + 1 < 18446744073709551616) as Hc1 by lia.
  assert (u64 (counter s + 1) = counter s + 1) as Hu by (apply u64_id; lia).
  destruct o; op_unfold; op_cases; rewrite ?Hu; try (by apply (wf_same s)).
  1,2: match goal with Hn : kernelnames ?s !! k_name ?i = None |- _ =>
         by apply (wf_new_kernel s i Hw) end.
  1,2: eapply wf_same; [eapply wf_put_kernel|]; [| | |by constructor]; done.
  - match goal with Hn : nodenames ?s !! ?nm = None |- _ => by apply (wf_new_node s nm) end.
  - eapply wf_same; [eapply wf_put_node|]; [| | | | |by constructor]; done.
  - eapply wf_same; [eapply wf_put_node|]; [| | | | |by constructor]; done.
  - match goal with Hn : nodemap ?s !! ?n = Some ?i, Hp : n_readers ?i !! ?p = None |- _ =>
      by apply (wf_new_reader s n p i) end.
  - match goal with Hn : nodemap ?s !! ?n = Some ?i, Hp : n_writers ?i !! ?p = None |- _ =>
      by apply (wf_new_writer s n p i) end.
  - match goal with Hw : writeports ?s !! ?w = Some ?wp, Hr : readports ?s !! ?r = Some ?rp |- _ =>
      by apply (wf_connect s w r) end.
Qed.

Lemma make_wf : wf make.
Proof.
  assert (∀ a k, ¬ holds make a k) as Hn by (intros [] k [? E]; cbn in E; by rewrite lookup_empty in E).
  constructor; cbn; try done; try (by intros a k Hh; destruct (Hn a k));
    try (by intros a b k Hh; destruct (Hn a k)).
  - intros name k. split; [done|]. by intros (i & E & _).
  - intros name k. split; [done|]. by intros (i & E & _).
  - intros n p k. split; [by intros (i & E & _)|by intros (q & E & _)].
  - intros n p k. split; [by intros (i & E & _)|by intros (q & E & _)].
Qed.

Lemma signals_registry s a b : same_registry s (set_signals s a b).
Proof. done. Qed.
Lemma reachable_wf s : rtc step make s → wf s.
Proof.
  intros Hr. assert (∀ x y, rtc step x y → wf x → wf y) as H.
  { clear. induction 1 as [|x y z [Hc [o ->]] _ IH]; [done|]. intros Hx. apply IH.
    apply op_wf; [|done]. eapply wf_same; [done|apply signals_registry]. }
  eapply H; [done|apply make_wf].
Qed.

(** ** The theorems *)

(** What the queries answer, on a registry that is not shut down. *)
Section answers.
Context (s : context) (Hsd : shutdown s = false).

Lemma answer {A B} (o : option A) (f : A → Op B) b :
  (a ← find o; f a) s = (Ok b, s) ↔ ∃ a, o = Some a ∧ f a s = (Ok b, s).
Proof.
  destruct o as [a|]; mred.
  - split; [intros E; by exists a|]. by intros (? & [= <-] & ?).
  - split; [done|]. by intros (? & ? & _).
Qed.
Lemma checked {B} (m : Op B) : (InternalCheckTerminated ;; m) s = m s.
Proof. unfold InternalCheckTerminated. mred. by rewrite Hsd. Qed.

Lemma GetKernelKey_iff name k : GetKernelKey name s = (Ok k, s) ↔ kernelnames s !! name = Some k.
Proof.
  unfold GetKernelKey. rewrite checked. mred. unfold find.
  destruct (kernelnames s !! name); mred; naive_solver.
Qed.
Lemma GetKernelName_iff name k : GetKernelName k s = (Ok name, s) ↔
  ∃ i, kernelmap s !! k = Some i ∧ k_name i = name.
Proof.
  unfold GetKernelName, find_kernel. rewrite checked.
  destruct (kernelmap s !! k) eqn:E; mred; rewrite E; mred; naive_solver.
Qed.
Lemma GetNodeKey_iff name k : GetNodeKey name s = (Ok k, s) ↔ nodenames s !! name = Some k.
Proof.
  unfold GetNodeKey. rewrite checked. mred. unfold find.
  destruct (nodenames s !! name); mred; naive_solver.
Qed.
Lemma GetNodeName_iff name k : GetNodeName k s = (Ok name, s) ↔
  ∃ i, nodemap s !! k = Some i ∧ n_name i = name.
Proof.
  unfold GetNodeName, find_node.
  destruct (nodemap s !! k) eqn:E; mred; rewrite E; mred; naive_solver.
Qed.

Lemma reader_iff k n p : GetReaderNode k s = (Ok n, s) ∧ GetReaderName k s = (Ok p, s) ↔
  ∃ q, readports s !! k = Some q ∧ p_nodekey q = n ∧ p_name q = p.
Proof.
  unfold GetReaderNode, GetReaderName, find_reader. rewrite !checked.
  destruct (readports s !! k) eqn:E; mred; rewrite E; mred; naive_solver.
Qed.
Lemma writer_iff k n p : GetWriterNode k s = (Ok n, s) ∧ GetWriterName k s = (Ok p, s) ↔
  ∃ q, writeports s !! k = Some q ∧ p_nodekey q = n ∧ p_name q = p.
Proof.
  unfold GetWriterNode, GetWriterName, find_writer. rewrite !checked.
  destruct (writeports s !! k) eqn:E; mred; rewrite E; mred; naive_solver.
Qed.
Lemma GetReadersWriter_iff r w : GetReadersWriter r s = (Ok w, s) ↔
  ∃ q, readports s !! r = Some q ∧ p_opposingport q = w.
Proof.
  unfold GetReadersWriter, find_reader. rewrite !checked.
  destruct (readports s !! r) eqn:E; mred; rewrite E; mred; naive_solver.
Qed.
Lemma GetWritersReader_iff r w : GetWritersReader w s = (Ok r, s) ↔
  ∃ q, writeports s !! w = Some q ∧ p_opposingport q = r.
Proof.
  unfold GetWritersReader, find_writer. rewrite !checked.
  destruct (writeports s !! w) eqn:E; mred; rewrite E; mred; naive_solver.
Qed.

(** An endpoint that is there is found, and nothing changes. *)
Lemma GetCreateReaderKey_old n p k : counter s < 18446744073709551615 → 0 ≤ counter s →
  GetCreateReaderKey n p s = (Ok k, s) ↔ ∃ i, nodemap s !! n = Some i ∧ n_readers i !! p = Some k.
Proof.
  intros Hc H0. unfold GetCreateReaderKey, find_node, find, NewKey, put_node, put_reader. rewrite checked. mred.
  destruct (nodemap s !! n) as [i|] eqn:E; mred;
    [|split; [done|by intros (? & ? & _)]].
  destruct (n_readers i !! p) as [k'|] eqn:Ep; mred.
  { split; [intros Eq; injection Eq as <-; eauto|intros (j & Ej & E'); congruence]. }
  split; [|intros (j & Ej & E'); congruence]. intros Eq. apply (f_equal (counter ∘ snd)) in Eq. cbn in Eq.
  rewrite u64_id in Eq by lia. lia.
Qed.
Lemma GetCreateWriterKey_old n p k : counter s < 18446744073709551615 → 0 ≤ counter s →
  GetCreateWriterKey n p s = (Ok k, s) ↔ ∃ i, nodemap s !! n = Some i ∧ n_writers i !! p = Some k.
Proof.
  intros Hc H0. unfold GetCreateWriterKey, find_node, find, NewKey, put_node, put_writer. rewrite checked. mred.
  destruct (nodemap s !! n) as [i|] eqn:E; mred;
    [|split; [done|by intros (? & ? & _)]].
  destruct (n_writers i !! p) as [k'|] eqn:Ep; mred.
  { split; [intros Eq; injection Eq as <-; eauto|intros (j & Ej & E'); congruence]. }
  split; [|intros (j & Ej & E'); congruence]. intros Eq. apply (f_equal (counter ∘ snd)) in Eq. cbn in Eq.
  rewrite u64_id in Eq by lia. lia.
Qed.
End answers.

(** C31: the registry is consistent.  In every context that can come about, keys
    and names of kernels are inverse to each other, and so are those of
    nodes; the node and the name of an endpoint are the pair that
    [GetCreateReaderKey] (or [GetCreateWriterKey]) finds it under, without
    creating anything; no key stands for two things; and the endpoint that an
    endpoint is connected to exists. *)
Theorem registry_consistent s : rtc step make s → shutdown s = false →
  counter s < 18446744073709551615 →
  (∀ name k, GetKernelKey name s = (Ok k, s) ↔ GetKernelName k s = (Ok name, s)) ∧
  (∀ name k, GetNodeKey name s = (Ok k, s) ↔ GetNodeName k s = (Ok name, s)) ∧
  (∀ n p k, GetCreateReaderKey n p s = (Ok k, s) ↔
     GetReaderNode k s = (Ok n, s) ∧ GetReaderName k s = (Ok p, s)) ∧
  (∀ n p k, GetCreateWriterKey n p s = (Ok k, s) ↔
     GetWriterNode k s = (Ok n, s) ∧ GetWriterName k s = (Ok p, s)) ∧
  (∀ a b k, holds s a k → holds s b k → a = b) ∧
  (∀ r w, GetReadersWriter r s = (Ok w, s) → w = 0 ∨ holds s Writer w) ∧
  (∀ r w, GetWritersReader w s = (Ok r, s) → r = 0 ∨ holds s Reader r).
Proof.
  intros Hr Hsd Hc. apply reachable_wf in Hr as Hw. pose proof (w_counter s Hw).
  split_and!.
  - intros name k. rewrite GetKernelKey_iff, GetKernelName_iff by done. apply Hw.
  - intros name k. rewrite GetNodeKey_iff, GetNodeName_iff by done. apply Hw.
  - intros n p k. rewrite GetCreateReaderKey_old, reader_iff by (done || lia). apply Hw.
  - intros n p k. rewrite GetCreateWriterKey_old, writer_iff by (done || lia). apply Hw.
  - apply Hw.
  - intros r w. rewrite GetReadersWriter_iff by done. intros (q & E & <-). by eapply w_read_from.
  - intros r w. rewrite GetWritersReader_iff by done. intros (q & E & <-). by eapply w_write_to.
Qed.

(** *** Endpoints *)
Definition has_reader (s : context) (n : Z) (p : string) (k : Z) : Prop :=
  ∃ i, nodemap s !! n = Some i ∧ n_readers i !! p = Some k.
Lemma GetCreateReaderKey_ok s n p k s' : GetCreateReaderKey n p s = (Ok k, s') →
  shutdown s = false ∧ shutdown s' = false ∧ counter s' ≤ u64 (counter s + 1) `max` counter s ∧
  has_reader s' n p k ∧ ∀ m q j, has_reader s m q j → has_reader s' m q j.
Proof.
  unfold GetCreateReaderKey, find_node, find, NewKey, put_node, put_reader, InternalCheckTerminated.
  mred. destruct (shutdown s) eqn:Esd; [done|]. mred.
  destruct (nodemap s !! n) as [i|] eqn:E; mred; [|done].
  destruct (n_readers i !! p) as [k'|] eqn:Ep; mred; intros [= <- <-]; cbn; unfold has_reader; cbn.
  - split_and!; try done; [lia|by eexists].
  - split_and!; try done; [lia|..].
    + eexists. rewrite lookup_insert_eq. split; [done|]. cbn. by rewrite lookup_insert_eq.
    + intros m q j (u & Eu & Ej). destruct (decide (m = n)) as [-> |]; simplify_map_eq; [|eauto].
      eexists. split; [done|]. cbn. rewrite lookup_insert_ne; [done|]. congruence.
Qed.

(** An endpoint has one key and a key one endpoint.  Asking for two reader
    endpoints, whether they exist or are created, gives the same key exactly
    when they are the same port of the same node; afterwards both keys lead
    back to their node and port. *)
Theorem endpoint_keys s s1 s2 n p k n' p' k' : rtc step make s →
  counter s < 18446744073709551614 →
  GetCreateReaderKey n p s = (Ok k, s1) → GetCreateReaderKey n' p' s1 = (Ok k', s2) →
  (k = k' ↔ n = n' ∧ p = p') ∧
  GetReaderNode k s2 = (Ok n, s2) ∧ GetReaderName k s2 = (Ok p, s2) ∧
  GetReaderNode k' s2 = (Ok n', s2) ∧ GetReaderName k' s2 = (Ok p', s2).
Proof.
  intros Hr Hc E1 E2. apply reachable_wf in Hr as Hw. pose proof (w_counter s Hw).
  destruct (GetCreateReaderKey_ok _ _ _ _ _ E1) as (Hs & Hs1 & Hc1 & Hk & _).
  destruct (GetCreateReaderKey_ok _ _ _ _ _ E2) as (_ & Hs2 & _ & Hk' & Hkeep).
  rewrite u64_id in Hc1 by lia.
  assert (wf s1) as Hw1.
  { pose proof (op_wf (OGetCreateReaderKey n p) s Hw ltac:(lia)) as H1. cbn in H1.
    unfold mfmap, mbind, M_bind in H1. by rewrite E1 in H1. }
  assert (wf s2) as Hw2.
  { pose proof (op_wf (OGetCreateReaderKey n' p') s1 Hw1 ltac:(lia)) as H1. cbn in H1.
    unfold mfmap, mbind, M_bind in H1. by rewrite E2 in H1. }
  specialize (Hkeep _ _ _ Hk).
  destruct (proj1 (w_readers s2 Hw2 n p k) Hkeep) as (q & Eq & En & Ep).
  destruct (proj1 (w_readers s2 Hw2 n' p' k') Hk') as (q' & Eq' & En' & Ep').
  destruct (proj2 (reader_iff s2 Hs2 k n p)) as [A1 A2]; [eauto|].
  destruct (proj2 (reader_iff s2 Hs2 k' n' p')) as [B1 B2]; [eauto|].
  split_and!; try done. split; [intros <-; split; congruence|]. intros [<- <-].
  destruct Hkeep as (i & Ei & Ek), Hk' as (i' & Ei' & Ek'). congruence.
Qed.

(** *** Waiting *)
Inductive waiter := WKernelStart (name : string) | WNodeStart (name : string)
  | WNodeEnd (name : string) | WAllNodeEnd.
(** The test of the waiter's loop sends it to sleep. *)
Definition sleeps (w : waiter) (s : context) : Prop :=
  match w with
  | WKernelStart n => (WaitForKernelStart n s).1 = Ok None
  | WNodeStart n => (WaitForNodeStart n s).1 = Ok None
  | WNodeEnd n => (WaitForNodeEnd n s).1 = Ok None
  | WAllNodeEnd => (WaitForAllNodeEnd s).1 = Ok None
  end.
(** The condition variable it sleeps on was broadcast. *)
Definition woken (w : waiter) (s : context) : Prop :=
  match w with WKernelStart _ => kernellivedead s = true | _ => nodelivedead s = true end.

Definition unstarted {A} (names : gmap string Z) (m : gmap Z A) (P : A → Prop) (n : string) : Prop :=
  ∀ k i, names !! n = Some k → m !! k = Some i → P i.
Ltac sleep_case k i Ei := split;
  [done || (intros _; split; [done|intros; simplify_eq; congruence])
  |done || (let H := fresh in intros [_ H]; specialize (H k i eq_refl Ei); congruence)].
Lemma sleeps_iff w s : wf s → sleeps w s ↔ shutdown s = false ∧
  match w with
  | WKernelStart n => unstarted (kernelnames s) (kernelmap s) (λ i, k_live i = false) n
  | WNodeStart n => unstarted (nodenames s) (nodemap s) (λ i, n_started i = false) n
  | WNodeEnd n => unstarted (nodenames s) (nodemap s) (λ i, n_dead i = false) n
  | WAllNodeEnd => 0 < numlivenodes s
  end.
Proof.
  intros Hw. unfold unstarted. destruct w; cbn.
  - unfold WaitForKernelStart, InternalCheckTerminated. mred.
    destruct (shutdown s); [by split; [|intros [? _]]|]. mred.
    destruct (kernelnames s !! name) as [k|] eqn:E; mred; [|by split].
    apply (w_kernels s Hw) in E as (i & Ei & _). rewrite Ei. mred.
    destruct (k_live i) eqn:El; sleep_case k i Ei.
  - unfold WaitForNodeStart, InternalCheckTerminated. mred.
    destruct (shutdown s); [by split; [|intros [? _]]|]. mred.
    destruct (nodenames s !! name) as [k|] eqn:E; mred; [|by split].
    apply (w_nodes s Hw) in E as (i & Ei & _). rewrite Ei. mred.
    destruct (n_started i) eqn:El; sleep_case k i Ei.
  - unfold WaitForNodeEnd. mred. destruct (shutdown s); [by split; [|intros [? _]]|]. mred.
    destruct (nodenames s !! name) as [k|] eqn:E; mred; [|by split].
    apply (w_nodes s Hw) in E as (i & Ei & _). rewrite Ei. mred.
    destruct (n_dead i) eqn:El; [destruct (n_started i)|]; mred; sleep_case k i Ei.
  - unfold WaitForAllNodeEnd. mred.
    destruct (Z.ltb_spec 0 (numlivenodes s)), (shutdown s); cbn; split; try done; try lia;
      by intros [].
Qed.

(** What the sleepers look at, after an operation. *)
Definition idle (w : waiter) (s : context) : Prop :=
  shutdown s = false ∧
  match w with
  | WKernelStart n => unstarted (kernelnames s) (kernelmap s) (λ i, k_live i = false) n
  | WNodeStart n => unstarted (nodenames s) (nodemap s) (λ i, n_started i = false) n
  | WNodeEnd n => unstarted (nodenames s) (nodemap s) (λ i, n_dead i = false) n
  | WAllNodeEnd => 0 < numlivenodes s
  end.

(** A new entry, or a change that leaves [P] alone, wakes nobody. *)
Lemma unstarted_new {A} names (m : gmap Z A) P n name k i : unstarted names m P n → P i →
  (∀ nm, names !! nm ≠ Some k) → unstarted (<[name := k]> names) (<[k := i]> m) P n.
Proof.
  intros Hu HP Hk k' i' En Em. destruct (decide (n = name)) as [-> |]; simplify_map_eq; [done|].
  destruct (decide (k' = k)) as [-> |]; simplify_map_eq; [by destruct (Hk n)|by eapply Hu].
Qed.
Lemma unstarted_put {A} names (m : gmap Z A) (P : A → Prop) n k i i' : unstarted names m P n →
  m !! k = Some i → (P i → P i') → unstarted names (<[k := i']> m) P n.
Proof.
  intros Hu Hk HP k' j En Em. destruct (decide (k' = k)) as [-> |]; simplify_map_eq;
    [apply HP|]; by eapply Hu.
Qed.

Lemma op_idle o s w : wf s → counter s < 18446744073709551615 → idle w s →
  woken w (run o s).2 ∨ idle w (run o s).2.
Proof.
  intros Hw Hc [Hsd Hi]. pose proof (w_counter s Hw).
  assert (u64 (counter s + 1) = counter s + 1) as Hu by (apply u64_id; lia).
  pose proof (next_fresh s Hw) as Hf.
  assert (∀ nm, kernelnames s !! nm ≠ Some (counter s + 1)) as Hfk.
  { intros nm E. apply (w_kernels s Hw) in E as (i & E & _). by destruct (Hf Kernel); eexists. }
  assert (∀ nm, nodenames s !! nm ≠ Some (counter s + 1)) as Hfn.
  { intros nm E. apply (w_nodes s Hw) in E as (i & E & _). by destruct (Hf Node); eexists. }
  destruct o; op_unfold; rewrite ?Hsd; mred; op_cases; rewrite ?Hu;
    try (right; split; [done|exact Hi]); try (by left);
    (right; split; [done|]; by first [apply unstarted_new|eapply unstarted_put]).
Qed.

(** C32: no waiter is forgotten.  Whatever operation of the context another
    thread calls, a thread asleep in [WaitForKernelStart], [WaitForNodeStart],
    [WaitForNodeEnd] or [WaitForAllNodeEnd] that would not go back to sleep after
    it is woken by it: the operation broadcasts the condition variable. *)
Theorem waiters_are_woken s o w : rtc step make s → counter s < 18446744073709551615 →
  let s0 := set_signals s false false in
  let s' := (run o s0).2 in
  sleeps w s0 → ¬ sleeps w s' → woken w s'.
Proof.
  intros Hr Hc s0 s' Hs Hs'. apply reachable_wf in Hr as Hw.
  assert (wf s0) as Hw0 by (by eapply wf_same).
  apply sleeps_iff in Hs; [|done].
  destruct (op_idle o s0 w Hw0 Hc Hs) as [|Hi]; [done|].
  destruct Hs'. apply sleeps_iff; [|exact Hi]. by apply op_wf.
Qed.

(** ** Termination *)
(** The operations that work after [Terminate]. *)
Definition unchecked (o : op) : bool :=
  match o with
  | OSetLogLevel _ | OSignalKernelEnd _ | OGetNodeName _ | OSignalNodeEnd _
  | OWaitForNodeEnd _ | OWaitForAllNodeEnd | OTerminate | OIsTerminated => true
  | _ => false
  end.

(** C39: termination is final.  [Terminate] tells exactly the kernels that have
    not ended and broadcasts both condition variables; afterwards nobody
    sleeps, every operation other than those that ends and loggers need throws
    [ShutdownException] and changes nothing, and no operation takes the
    termination back. *)
Theorem terminate_is_final s : rtc step make s →
  ∃ l s', Terminate s = (Ok l, s') ∧ nodelivedead s' = true ∧ kernellivedead s' = true ∧
    (∀ p, p ∈ l ↔ ∃ k i, kernelmap s !! k = Some i ∧ k_dead i = false ∧ k_kernel i = p) ∧
    (∀ w, ¬ sleeps w s') ∧
    (∀ o, unchecked o = false → run o s' = (Err Shutdown, s')) ∧
    (∀ s'' o, shutdown s'' = true → shutdown (run o s'').2 = true).
Proof.
  intros Hr. apply reachable_wf in Hr as Hw. unfold Terminate, BroadcastNodes, BroadcastKernels.
  mred. set (s' := set_signals _ _ _). eexists _, s'. split_and!; try done.
  - intros p. rewrite list_elem_of_fmap. setoid_rewrite list_elem_of_filter.
    setoid_rewrite elem_of_map_to_list'. split.
    + intros ([k i] & -> & Hd & E). by exists k, i.
    + intros (k & i & E & Hd & <-). by exists (k, i).
  - intros w Hs. apply sleeps_iff in Hs as [? _]; [done|]. by eapply wf_same.
  - intros o Ho. destruct o; try done.
  - intros s2 o Hsd. destruct o; op_unfold; rewrite ?Hsd; mred; op_cases; by rewrite ?Hsd.
Qed.

(** ** Live nodes *)
Definition alive (i : NodeInfo) : bool := n_started i && negb (n_dead i).
Definition live (m : gmap Z NodeInfo) : Z :=
  Z.of_nat (size (filter (λ e : Z * NodeInfo, alive e.2 = true) m)).

(** Nodes start once and end once, after they have started. *)
Definition in_order (s : context) (o : op) : Prop :=
  match o with
  | OSignalNodeStart k => ∀ i, nodemap s !! k = Some i → n_started i = false ∧ n_dead i = false
  | OSignalNodeEnd k => ∀ i, nodemap s !! k = Some i → alive i = true
  | _ => True
  end.
Definition step_in_order (s s' : context) : Prop :=
  counter s < 4294967295 ∧ ∃ o, in_order s o ∧ s' = (run o (set_signals s false false)).2.

Definition one (b : bool) : Z := if b then 1 else 0.
Lemma live_insert_new m k i : m !! k = None → live (<[k := i]> m) = live m + one (alive i).
Proof.
  intros Hk. unfold live, one. rewrite map_filter_insert. cbn.
  assert (filter (λ e : Z * NodeInfo, alive e.2 = true) m !! k = None) as Hf.
  { apply map_lookup_filter_None. by left. }
  destruct (decide (alive i = true)) as [Ea|Ea].
  - rewrite map_size_insert_None, Ea by done. lia.
  - rewrite delete_id by done. destruct (alive i); [done|lia].
Qed.
Lemma live_put m k i i' : m !! k = Some i →
  live (<[k := i']> m) = live m + one (alive i') - one (alive i).
Proof.
  intros Hk. rewrite <- (insert_id m k i Hk) at 2.
  rewrite <- (insert_delete_eq m k i'), <- (insert_delete_eq m k i).
  rewrite !live_insert_new by apply lookup_delete_eq. lia.
Qed.
Lemma live_bounds m : 0 ≤ live m ≤ Z.of_nat (size m).
Proof.
  unfold live. split; [lia|]. rewrite <- !size_dom.
  apply Nat2Z.inj_le, subseteq_size, dom_filter_subseteq.
Qed.

(** The nodes are no more than the keys that were given out. *)
Lemma nodes_bounded s : wf s → Z.of_nat (size (nodemap s)) ≤ counter s.
Proof.
  intros Hw. pose proof (w_counter s Hw). rewrite <- size_dom.
  transitivity (Z.of_nat (size (list_to_set (seqZ 1 (counter s)) : gset Z))).
  - apply Nat2Z.inj_le, subseteq_size. intros k Hk. apply elem_of_dom in Hk.
    apply elem_of_list_to_set, elem_of_seqZ. pose proof (w_range s Hw Node k Hk). lia.
  - rewrite size_list_to_set by apply NoDup_seqZ. rewrite length_seqZ. lia.
Qed.

Definition counts_live (s : context) : Prop := numlivenodes s = live (nodemap s).
Lemma op_counts o s : wf s → counter s < 4294967295 → in_order s o → counts_live s →
  counts_live (run o s).2.
Proof.
  intros Hw Hc Ho Hn. pose proof (w_counter s Hw). pose proof (nodes_bounded s Hw).
  pose proof (live_bounds (nodemap s)). unfold counts_live in *.
  assert (u64 (counter s + 1) = counter s + 1) as Hu by (apply u64_id; lia).
  assert (nodemap s !! (counter s + 1) = None) as Hf
    by (apply eq_None_not_Some, (next_fresh s Hw Node)).
  destruct o; op_unfold; op_cases; rewrite ?Hu; try exact Hn; cbn.
  - rewrite live_insert_new by done. cbn. lia.
  - match goal with Hi : nodemap _ !! _ = Some _ |- _ =>
      destruct (Ho _ Hi) as [E1 E2]; rewrite (live_put _ _ _ _ Hi) end.
    unfold alive. cbn. rewrite E1, E2, u32_id by lia. cbn. lia.
  - match goal with Hi : nodemap _ !! _ = Some _ |- context [<[k := ?j]> _] =>
      pose proof (Ho _ Hi) as Ea; pose proof (live_put _ _ _ j Hi) as El;
      pose proof (live_bounds (<[k := j]> (nodemap c0))) as Hb end.
    rewrite El in *. unfold alive in *. rewrite Ea in *. cbn in *.
    rewrite andb_false_r in *. cbn in *. rewrite u32_id by lia. lia.
  - match goal with Hi : nodemap _ !! _ = Some _ |- _ => rewrite (live_put _ _ _ _ Hi) end.
    unfold alive. cbn. lia.
  - match goal with Hi : nodemap _ !! _ = Some _ |- _ => rewrite (live_put _ _ _ _ Hi) end.
    unfold alive. cbn. lia.
Qed.

(** [WaitForAllNodeEnd] waits for exactly the live nodes.  As long as nodes
    signal their start and their end once and in this order, and fewer than
    2^32 keys are in use, it goes to sleep if and only if the context is not
    terminated and some node has started and not ended. *)
Theorem all_nodes_end s : rtc step_in_order make s →
  (WaitForAllNodeEnd s).1 = Ok None ↔
  shutdown s = false ∧ ∃ k i, nodemap s !! k = Some i ∧ n_started i = true ∧ n_dead i = false.
Proof.
  intros Hr. assert (wf s ∧ counts_live s) as [Hw Hn].
  { assert (∀ x y, rtc step_in_order x y → wf x ∧ counts_live x → wf y ∧ counts_live y) as H.
    { clear. induction 1 as [|x y z (Hc & o & Ho & ->) _ IH]; [done|]. intros [Hx Hlx].
      assert (wf (set_signals x false false)) as Hx' by (by eapply wf_same).
      apply IH. split; [apply op_wf|apply op_counts]; cbn; done || lia. }
    eapply H; [done|]. split; [apply make_wf|done]. }
  change ((WaitForAllNodeEnd s).1 = Ok None) with (sleeps WAllNodeEnd s).
  rewrite sleeps_iff by done. unfold counts_live, live in Hn.
  split; intros [Hs H]; (split; [done|]).
  - rewrite Hn in H. destruct (map_choose (filter (λ e : Z * NodeInfo, alive e.2 = true) (nodemap s)))
      as (k & i & E).
    { intros E. rewrite E, map_size_empty in H. lia. }
    apply map_lookup_filter_Some in E as [E Ea]. exists k, i. split; [done|].
    unfold alive in Ea. apply andb_true_iff in Ea as [? Ea]. by rewrite negb_true_iff in Ea.
  - destruct H as (k & i & E & E1 & E2). rewrite Hn.
    assert (filter (λ e : Z * NodeInfo, alive e.2 = true) (nodemap s) !! k = Some i) as Ef.
    { apply map_lookup_filter_Some. split; [done|]. unfold alive. cbn. by rewrite E1, E2. }
    destruct (decide (size (filter (λ e : Z * NodeInfo, alive e.2 = true) (nodemap s)) = 0%nat)) as [E0|]; [|lia].
    apply map_size_empty_inv in E0. by rewrite E0, lookup_empty in Ef.
Qed.

(** A kernel key that was never given out throws in every other operation; here
    the entry that [kernelmap[key]] makes is a null pointer, and is
    dereferenced. *)
Lemma SendCreate_unknown s k : shutdown s = false → kernelmap s !! k = None →
  (SendCreate k s).1 = Err NullDeref ∧ (GetKernelName k s).1 = Err InvalidArgument.
Proof.
  intros Hsd Hk. op_unfold. rewrite Hsd. mred. rewrite Hk. by split.
Qed.

(** ** The theorems at concrete contexts *)
Definition run_all (l : list op) (s : context) : context :=
  foldl (λ s o, (run o (set_signals s false false)).2) s l.
Fixpoint in_order_all (l : list op) (s : context) : Prop :=
  match l with
  | [] => True
  | o :: l => counter s < 4294967295 ∧ in_order s o ∧
              in_order_all l (run o (set_signals s false false)).2
  end.
Lemma run_all_steps l : ∀ s, in_order_all l s →
  rtc step s (run_all l s) ∧ rtc step_in_order s (run_all l s).
Proof.
  induction l as [|o l IH]; intros s; [by split; apply rtc_refl|].
  intros (Hc & Ho & Hl). destruct (IH _ Hl). split; eapply rtc_l; try done.
  - split; [lia|by exists o].
  - split; [done|by exists o].
Qed.

Definition example_ops : list op :=
  [OSetup "kernel" 4096; OCreateNodeKey 1 "source"; OCreateNodeKey 1 "sink";
   OGetCreateWriterKey 2 "out"; OGetCreateReaderKey 3 "in"; OConnectEndpoints 4 5 "q";
   OSignalNodeStart 2].
Definition example : context := run_all example_ops make.
Lemma example_steps : rtc step make example ∧ rtc step_in_order make example.
Proof.
  apply run_all_steps. cbn.
  repeat (split; [done|]); (split; [|done]). intros i E. vm_compute in E. by injection E as <-.
Qed.

Lemma registry_consistent_witness : GetReadersWriter 5 example = (Ok 4, example) ∧
  (4 = 0 ∨ holds example Writer 4).
Proof.
  split; [by vm_compute|].
  destruct (registry_consistent example (proj1 example_steps)) as (_ & _ & _ & _ & _ & H & _);
    [by vm_compute..|]. apply (H 5). by vm_compute.
Defined.

Lemma endpoint_keys_witness :
  (GetCreateReaderKey 3 "in" example).1 = Ok 5 ∧ (GetCreateReaderKey 3 "more" example).1 = Ok 6 ∧
  (5 = 6 ↔ 3 = 3 ∧ "in" = "more").
Proof.
  split; [by vm_compute|]. split; [by vm_compute|].
  refine (proj1 (endpoint_keys example example (GetCreateReaderKey 3 "more" example).2
    3 "in" 5 3 "more" 6 (proj1 example_steps) _ _ _)); by vm_compute.
Defined.

Lemma waiters_are_woken_witness :
  sleeps (WNodeStart "sink") (set_signals example false false) ∧
  nodelivedead (run (OSignalNodeStart 3) (set_signals example false false)).2 = true.
Proof.
  split; [by vm_compute|].
  apply (waiters_are_woken example (OSignalNodeStart 3) (WNodeStart "sink") (proj1 example_steps));
    by vm_compute.
Defined.

Lemma terminate_is_final_witness : ∃ l s', Terminate example = (Ok l, s') ∧ 4096 ∈ l.
Proof.
  destruct (terminate_is_final example (proj1 example_steps)) as (l & s' & E & _ & _ & Hl & _).
  exists l, s'. split; [exact E|]. apply Hl.
  exists 1, (mk_kernel "kernel" "" "" 4096 false false false). by vm_compute.
Defined.

Lemma all_nodes_end_witness : (WaitForAllNodeEnd example).1 = Ok None.
Proof.
  apply (all_nodes_end example (proj2 example_steps)). split; [by vm_compute|].
  exists 2, (mk_node "source" 1 true ∅ {[ "out" := 4 ]} false). by vm_compute.
Defined.

(** An end that was not preceded by a start leaves the unsigned count at its
    maximum: nothing lives, and [WaitForAllNodeEnd] sleeps. *)
Example end_without_start :
  let s := run_all [OCreateNodeKey 1 "n"; OSignalNodeEnd 1] make in
  numlivenodes s = 4294967295 ∧ (WaitForAllNodeEnd s).1 = Ok None.
Proof. by vm_compute. Qed.

End LC.
