(* ===== verification/Base64.v ===== *)
(** [libraries/Base64]: the incremental base 64 encoder and decoder.

    Both take their input in blocks of any size and keep the place they stopped
    at in [step].  Bytes are 0 .. 255; a [char] that the code compares or
    indexes with has the sign of the x86 targets ([s8]).  [&output[0]] of an
    empty vector is only used with length 0, and is the empty string. *)
From S2P Require Import Prelude.

Module B64.

(** The value of a [char] variable after it was assigned [x]. *)
Definition s8 (x : Z) : Z := (x + 128) `mod` 256 - 128.

(** ** The encoder *)
Inductive encoderstep := step_A | step_B | step_C.
Record Base64Encoder := mk_enc {
  estep : encoderstep; chars_per_line : Z; result : Z; stepcount : Z; eoutput : list Z }.

Definition make_enc (cpl : Z) : Base64Encoder := mk_enc step_A cpl 0 0 [].

Definition codes (s : string) : list Z :=
  (λ a, Z.of_nat (Ascii.nat_of_ascii a)) <$> String.list_ascii_of_string s.
Definition encoding : list Z :=
  codes "ABCDEFGHIJKLMNOPQRSTUVWXYZabcdefghijklmnopqrstuvwxyz0123456789+/".

Definition EncodeValue (result : Z) : Z := if 63 <? result then 61 else bget encoding result.

(** The line break after a group of three bytes. *)
Definition end_group (cpl count : Z) (out : list Z) : Z * list Z :=
  if negb (cpl =? 0) then
    let count := u32 (count + 1) in
    if count =? cpl / 4 then (0, out ++ [10]) else (count, out)
  else (count, out).

(** The loop around the three [case]s: a [case] returns at the end of the data
    and takes a byte and falls through otherwise. *)
Fixpoint EncodeBlock (e : Base64Encoder) (data : list Z) : Base64Encoder :=
  match data with
  | [] => e
  | fragment :: data =>
    match estep e with
    | step_A =>
      let r := Z.shiftr (Z.land fragment 0xfc) 2 in
      let out := eoutput e ++ [EncodeValue r] in
      let r := Z.shiftl (Z.land fragment 0x03) 4 in
      EncodeBlock (mk_enc step_B (chars_per_line e) r (stepcount e) out) data
    | step_B =>
      let r := Z.lor (result e) (Z.shiftr (Z.land fragment 0xf0) 4) in
      let out := eoutput e ++ [EncodeValue r] in
      let r := Z.shiftl (Z.land fragment 0x0f) 2 in
      EncodeBlock (mk_enc step_C (chars_per_line e) r (stepcount e) out) data
    | step_C =>
      let r := Z.lor (result e) (Z.shiftr (Z.land fragment 0xc0) 6) in
      let out := eoutput e ++ [EncodeValue r] in
      let r := Z.land fragment 0x3f in
      let out := out ++ [EncodeValue r] in
      let '(count, out) := end_group (chars_per_line e) (stepcount e) out in
      EncodeBlock (mk_enc step_A (chars_per_line e) r count out) data
    end
  end.

Definition enc_GetPartial (e : Base64Encoder) : list Z * Base64Encoder :=
  (eoutput e, mk_enc (estep e) (chars_per_line e) (result e) (stepcount e) []).
Definition enc_Reset (e : Base64Encoder) : Base64Encoder :=
  mk_enc step_A (chars_per_line e) 0 0 [].
Definition enc_BlockEnd (e : Base64Encoder) : list Z * Base64Encoder :=
  let out := match estep e with
             | step_B => eoutput e ++ [EncodeValue (result e)] ++ [61] ++ [61]
             | step_C => eoutput e ++ [EncodeValue (result e)] ++ [61]
             | step_A => eoutput e
             end in
  let out := if negb (chars_per_line e =? 0) then out ++ [10] else out in
  (out, enc_Reset e).

(** ** The decoder *)
Inductive decodestep := step_a | step_b | step_c | step_d.
Record Base64Decoder := mk_dec { dstep : decodestep; currchar : Z; doutput : list Z }.

Definition make_dec : Base64Decoder := mk_dec step_a 0 [].

Definition decoding : list Z :=
  [62;-1;-1;-1;63;52;53;54;55;56;57;58;59;60;61;-1;-1;-1;-2;-1;-1;-1;0;1;2;3;4;5;6;7;8;9;10;
   11;12;13;14;15;16;17;18;19;20;21;22;23;24;25;-1;-1;-1;-1;-1;-1;26;27;28;29;30;31;32;33;34;
   35;36;37;38;39;40;41;42;43;44;45;46;47;48;49;50;51].

Definition DecodeValue (value_in : Z) : res Z :=
  let value_in := s8 (value_in - 43) in
  if (value_in <? 0) || (len decoding <? value_in) then Ok (-1)
  else if value_in <? len decoding then Ok (bget decoding value_in) else Err OutOfBounds.

(** The four [do .. while (fragment < 0)] loops, one after the other. *)
Fixpoint DecodeBlock (d : Base64Decoder) (code : list Z) : res Base64Decoder :=
  match code with
  | [] => Ok d
  | c :: code =>
    fragment ← DecodeValue c;
    if fragment <? 0 then DecodeBlock d code else
    match dstep d with
    | step_a =>
      DecodeBlock (mk_dec step_b (Z.shiftl (Z.land fragment 0x3f) 2) (doutput d)) code
    | step_b =>
      let ch := Z.lor (currchar d) (Z.shiftr (Z.land fragment 0x30) 4) in
      DecodeBlock (mk_dec step_c (Z.shiftl (Z.land fragment 0x0f) 4) (doutput d ++ [ch])) code
    | step_c =>
      let ch := Z.lor (currchar d) (Z.shiftr (Z.land fragment 0x3c) 2) in
      DecodeBlock (mk_dec step_d (Z.shiftl (Z.land fragment 0x03) 6) (doutput d ++ [ch])) code
    | step_d =>
      let ch := Z.lor (currchar d) (Z.land fragment 0x3f) in
      DecodeBlock (mk_dec step_a ch (doutput d ++ [ch])) code
    end
  end.

Definition dec_GetPartial (d : Base64Decoder) : list Z * Base64Decoder :=
  (doutput d, mk_dec (dstep d) (currchar d) []).
Definition dec_BlockEnd (d : Base64Decoder) : list Z * Base64Decoder :=
  (doutput d, mk_dec step_a 0 []).
Definition dec_Reset (d : Base64Decoder) : Base64Decoder := mk_dec step_a 0 [].

(** ** Uses of the two objects

    What a caller does between construction and [BlockEnd]: pass blocks and
    take the output that is ready.  The results are the bytes it was given. *)
Inductive use := Block (l : list Z) | Partial.
Definition input (u : use) : list Z := match u with Block l => l | Partial => [] end.

Fixpoint encode_uses (e : Base64Encoder) (us : list use) : list Z * Base64Encoder :=
  match us with
  | [] => ([], e)
  | Block l :: us => encode_uses (EncodeBlock e l) us
  | Partial :: us => let '(t, e) := enc_GetPartial e in
                     let '(t', e) := encode_uses e us in (t ++ t', e)
  end.
Definition encode (e : Base64Encoder) (us : list use) : list Z * Base64Encoder :=
  let '(t, e) := encode_uses e us in
  let '(t', e) := enc_BlockEnd e in (t ++ t', e).

Fixpoint decode_uses (d : Base64Decoder) (us : list use) : res (list Z * Base64Decoder) :=
  match us with
  | [] => Ok ([], d)
  | Block l :: us => d ← DecodeBlock d l; decode_uses d us
  | Partial :: us => let '(t, d) := dec_GetPartial d in
                     '(t', d) ← decode_uses d us; Ok (t ++ t', d)
  end.
Definition decode (d : Base64Decoder) (us : list use) : res (list Z * Base64Decoder) :=
  '(t, d) ← decode_uses d us;
  let '(t', d) := dec_BlockEnd d in Ok (t ++ t', d).

(** ** The reference: RFC 4648 on whole strings

    A group of three bytes is one 24-bit number, written in base 64. *)
Definition digit (v : Z) : Z := bget encoding v.
Definition quad (a b c : Z) : list Z :=
  let n := a * 65536 + b * 256 + c in
  [digit (n / 262144); digit ((n / 4096) `mod` 64); digit ((n / 64) `mod` 64); digit (n `mod` 64)].

(** Group [i] (from 0) ends a line when [line] divides [i + 1]. *)
Definition line_break (cpl i : Z) : list Z :=
  if negb (cpl =? 0) && ((i + 1) `mod` (cpl / 4) =? 0) then [10] else [].
Fixpoint base64 (cpl i : Z) (data : list Z) : list Z :=
  match data with
  | a :: b :: c :: data => quad a b c ++ line_break cpl i ++ base64 cpl (i + 1) data
  | [a; b] => take 3 (quad a b 0) ++ [61]
  | [a] => take 2 (quad a 0 0) ++ [61; 61]
  | [] => []
  end.
Definition base64_text (cpl : Z) (data : list Z) : list Z :=
  base64 cpl 0 data ++ (if cpl =? 0 then [] else [10]).

Definition byte (x : Z) : Prop := 0 ≤ x < 256.
Definition lines_ok (cpl : Z) : Prop := cpl = 0 ∨ 4 ≤ cpl < 4294967296.

(** ** Bit operations as arithmetic *)
Definition below (n : Z) (P : Z → bool) : bool := forallb P (seqZ 0 n).
Lemma below_spec n P : below n P = true → ∀ x, 0 ≤ x < n → P x = true.
Proof.
  unfold below. rewrite forallb_forall. intros H x Hx. apply H.
  apply list_elem_of_In, elem_of_seqZ. lia.
Qed.

Lemma below2_spec n m (f g : Z → Z → Z) :
  below n (λ x, below m (λ y, f x y =? g x y)) = true →
  ∀ x y, 0 ≤ x < n → 0 ≤ y < m → f x y = g x y.
Proof.
  intros H x y Hx Hy. apply Z.eqb_eq.
  apply (below_spec m (λ y, f x y =? g x y)); [|done].
  by apply (below_spec n (λ x, below m (λ y, f x y =? g x y))).
Qed.

Lemma enc_first x : byte x → Z.shiftr (Z.land x 0xfc) 2 = x / 4 ∧
  Z.shiftl (Z.land x 0x03) 4 = x `mod` 4 * 16.
Proof.
  intros Hx. split.
  - apply (below2_spec 256 1 (λ x _, Z.shiftr (Z.land x 0xfc) 2) (λ x _, x / 4)) with (y := 0);
      by vm_compute || lia.
  - apply (below2_spec 256 1 (λ x _, Z.shiftl (Z.land x 0x03) 4) (λ x _, x `mod` 4 * 16))
      with (y := 0); by vm_compute || lia.
Qed.
Lemma enc_second p x : byte p → byte x →
  Z.lor (p `mod` 4 * 16) (Z.shiftr (Z.land x 0xf0) 4) = p `mod` 4 * 16 + x / 16 ∧
  Z.shiftl (Z.land x 0x0f) 2 = x `mod` 16 * 4.
Proof.
  intros Hp Hx. split.
  - apply (below2_spec 4 256 (λ p x, Z.lor (p * 16) (Z.shiftr (Z.land x 0xf0) 4))
      (λ p x, p * 16 + x / 16)); [by vm_compute|by apply Z.mod_pos_bound|done].
  - apply (below2_spec 256 1 (λ x _, Z.shiftl (Z.land x 0x0f) 2) (λ x _, x `mod` 16 * 4))
      with (y := 0); by vm_compute || lia.
Qed.
Lemma enc_third p x : byte p → byte x →
  Z.lor (p `mod` 16 * 4) (Z.shiftr (Z.land x 0xc0) 6) = p `mod` 16 * 4 + x / 64 ∧
  Z.land x 0x3f = x `mod` 64.
Proof.
  intros Hp Hx. split.
  - apply (below2_spec 16 256 (λ p x, Z.lor (p * 4) (Z.shiftr (Z.land x 0xc0) 6))
      (λ p x, p * 4 + x / 64)); [by vm_compute|by apply Z.mod_pos_bound|done].
  - apply (below2_spec 256 1 (λ x _, Z.land x 0x3f) (λ x _, x `mod` 64))
      with (y := 0); by vm_compute || lia.
Qed.
Lemma dec_bits f g : 0 ≤ f < 64 → 0 ≤ g < 64 →
  Z.lor (Z.shiftl (Z.land f 0x3f) 2) (Z.shiftr (Z.land g 0x30) 4) = f * 4 + g / 16 ∧
  Z.lor (Z.shiftl (Z.land f 0x0f) 4) (Z.shiftr (Z.land g 0x3c) 2) = f `mod` 16 * 16 + g / 4 ∧
  Z.lor (Z.shiftl (Z.land f 0x03) 6) (Z.land g 0x3f) = f `mod` 4 * 64 + g.
Proof.
  intros Hf Hg. split_and!; revert f g Hf Hg;
    [pose proof (below2_spec 64 64
      (λ f g, Z.lor (Z.shiftl (Z.land f 0x3f) 2) (Z.shiftr (Z.land g 0x30) 4))
      (λ f g, f * 4 + g / 16)) as H
    |pose proof (below2_spec 64 64
      (λ f g, Z.lor (Z.shiftl (Z.land f 0x0f) 4) (Z.shiftr (Z.land g 0x3c) 2))
      (λ f g, f `mod` 16 * 16 + g / 4)) as H
    |pose proof (below2_spec 64 64
      (λ f g, Z.lor (Z.shiftl (Z.land f 0x03) 6) (Z.land g 0x3f))
      (λ f g, f `mod` 4 * 64 + g)) as H];
    (intros f g Hf Hg; apply H; [by vm_compute|done|done]).
Qed.

(** ** The encoder writes base 64 *)
Lemma EncodeValue_digit v : 0 ≤ v < 64 → EncodeValue v = digit v.
Proof. intros. unfold EncodeValue. by zdecide. Qed.

Lemma EncodeBlock_app l : ∀ e k, EncodeBlock e (l ++ k) = EncodeBlock (EncodeBlock e l) k.
Proof.
  induction l as [|x l IH]; intros e k; [done|]. cbn. destruct (estep e); [apply IH..|].
  destruct (end_group _ _ _). apply IH.
Qed.

(** What is already in the output only stands before what comes. *)
Definition pre (t : list Z) (e : Base64Encoder) : Base64Encoder :=
  mk_enc (estep e) (chars_per_line e) (result e) (stepcount e) (t ++ eoutput e).
Lemma end_group_pre cpl n t out :
  end_group cpl n (t ++ out) = ((end_group cpl n out).1, t ++ (end_group cpl n out).2).
Proof. unfold end_group. destruct (negb _); [|done]. by zcases; rewrite <- ?app_assoc. Qed.
Lemma EncodeBlock_pre t l : ∀ e, EncodeBlock (pre t e) l = pre t (EncodeBlock e l).
Proof.
  induction l as [|x l IH]; intros e; [done|]. cbn. destruct (estep e).
  - rewrite <- IH. unfold pre. cbn. by rewrite <- app_assoc.
  - rewrite <- IH. unfold pre. cbn. by rewrite <- app_assoc.
  - rewrite <- !(app_assoc t), end_group_pre. destruct (end_group _ _ _). apply (IH (mk_enc _ _ _ _ _)).
Qed.
Lemma encode_uses_whole us : ∀ e, let '(t, e') := encode_uses e us in
  pre t e' = EncodeBlock e (concat (input <$> us)).
Proof.
  induction us as [|[l|] us IH]; intros e; cbn.
  - by destruct e.
  - rewrite EncodeBlock_app. apply IH.
  - specialize (IH (mk_enc (estep e) (chars_per_line e) (result e) (stepcount e) [])).
    destruct (encode_uses _ us) as [t e'].
    replace e with (pre (eoutput e) (mk_enc (estep e) (chars_per_line e) (result e) (stepcount e) []))
      at 2 by (destruct e; unfold pre; cbn; by rewrite app_nil_r).
    rewrite EncodeBlock_pre, <- IH. unfold pre. cbn. by rewrite app_assoc.
Qed.
Lemma BlockEnd_pre t e :
  enc_BlockEnd (pre t e) = (t ++ (enc_BlockEnd e).1, (enc_BlockEnd e).2).
Proof.
  unfold enc_BlockEnd, pre. cbn. destruct (estep e), (negb _); cbn; by rewrite <- ?app_assoc.
Qed.
Lemma encode_whole e us : encode e us = enc_BlockEnd (EncodeBlock e (concat (input <$> us))).
Proof.
  unfold encode. pose proof (encode_uses_whole us e) as H. destruct (encode_uses e us) as [t e'].
  rewrite <- H, BlockEnd_pre. by destruct (enc_BlockEnd e').
Qed.

(** The count of groups in a line. *)
Definition line_count (cpl i : Z) : Z := if cpl =? 0 then 0 else i `mod` (cpl / 4).
Lemma end_group_line cpl i out : lines_ok cpl → 0 ≤ i →
  end_group cpl (line_count cpl i) out = (line_count cpl (i + 1), out ++ line_break cpl i).
Proof.
  intros Hl Hi. unfold end_group, line_count, line_break.
  destruct (Z.eqb_spec cpl 0) as [->|Hc]; cbn [negb andb]; [by rewrite app_nil_r|].
  assert (0 < cpl / 4 < 4294967296) as Hd
    by (destruct Hl; [done|]; split; [apply Z.div_str_pos|apply Z.div_lt_upper_bound]; lia).
  pose proof (Z.mod_pos_bound i (cpl / 4) (proj1 Hd)) as Hb. rewrite u32_id by lia.
  assert ((i + 1) `mod` (cpl / 4) = (i `mod` (cpl / 4) + 1) `mod` (cpl / 4)) as ->
    by (by rewrite Zplus_mod_idemp_l).
  rewrite (mod_once (_ + 1)) by lia. zcases; try lia; rewrite ?app_nil_r; try done.
  f_equal. lia.
Qed.

Lemma quad_digits a b c : byte a → byte b → byte c →
  quad a b c = [digit (a / 4); digit (a `mod` 4 * 16 + b / 16); digit (b `mod` 16 * 4 + c / 64);
                digit (c `mod` 64)].
Proof.
  unfold byte, quad. intros.
  assert ((a * 65536 + b * 256 + c) / 262144 = a / 4 ∧
    ((a * 65536 + b * 256 + c) / 4096) `mod` 64 = a `mod` 4 * 16 + b / 16 ∧
    ((a * 65536 + b * 256 + c) / 64) `mod` 64 = b `mod` 16 * 4 + c / 64 ∧
    (a * 65536 + b * 256 + c) `mod` 64 = c `mod` 64) as (-> & -> & -> & ->); [|done].
  split_and!; Z.to_euclidean_division_equations; lia.
Qed.
#[local] Arguments quad : simpl never.
Lemma byte_0 : byte 0.
Proof. done. Qed.

Lemma EncodeBlock_group cpl r i out a b c l : lines_ok cpl → 0 ≤ i → byte a → byte b → byte c →
  EncodeBlock (mk_enc step_A cpl r (line_count cpl i) out) (a :: b :: c :: l) =
  EncodeBlock (mk_enc step_A cpl (c `mod` 64) (line_count cpl (i + 1))
                 (out ++ quad a b c ++ line_break cpl i)) l.
Proof.
  intros Hl Hi Ha Hb Hc. rewrite quad_digits by done. cbn. destruct (enc_first a Ha) as [-> ->].
  destruct (enc_second a b Ha Hb) as [-> ->]. destruct (enc_third b c Hb Hc) as [-> ->].
  unfold byte in *. rewrite !EncodeValue_digit by (Z.to_euclidean_division_equations; lia).
  rewrite end_group_line by done. by rewrite <- !app_assoc.
Qed.
Lemma encode_text cpl : lines_ok cpl → ∀ n data i r out, (length data < n)%nat → 0 ≤ i →
  Forall byte data →
  enc_BlockEnd (EncodeBlock (mk_enc step_A cpl r (line_count cpl i) out) data) =
  (out ++ base64 cpl i data ++ (if cpl =? 0 then [] else [10]), make_enc cpl).
Proof.
  intros Hl n. induction n as [|n IH]; intros data i r out Hn Hi Hd; [lia|].
  destruct data as [|a [|b [|c data]]]; repeat match goal with
    H : Forall byte (_ :: _) |- _ => apply Forall_cons in H as [? H] end.
  - unfold enc_BlockEnd. cbn. destruct (cpl =? 0); cbn; by rewrite ?app_nil_r.
  - cbn. destruct (enc_first a) as [-> ->]; [done|]. unfold byte in *.
    rewrite EncodeValue_digit by (Z.to_euclidean_division_equations; lia).
    unfold enc_BlockEnd. cbn. rewrite EncodeValue_digit by (Z.to_euclidean_division_equations; lia).
    rewrite quad_digits by done.
    destruct (cpl =? 0); cbn; rewrite <- ?app_assoc; cbn; by rewrite ?Z.add_0_r.
  - cbn. destruct (enc_first a) as [-> ->]; [done|]. destruct (enc_second a b) as [-> ->]; [done..|].
    unfold byte in *. rewrite !EncodeValue_digit by (Z.to_euclidean_division_equations; lia).
    unfold enc_BlockEnd. cbn. rewrite EncodeValue_digit by (Z.to_euclidean_division_equations; lia).
    rewrite quad_digits by done.
    destruct (cpl =? 0); cbn; rewrite <- ?app_assoc; cbn; by rewrite ?Z.add_0_r.
  - rewrite EncodeBlock_group by done. cbn in Hn. rewrite IH by (done || lia).
    cbn [base64]. by rewrite <- !app_assoc.
Qed.

Lemma encode_make cpl us : lines_ok cpl → Forall byte (concat (input <$> us)) →
  encode (make_enc cpl) us = (base64_text cpl (concat (input <$> us)), make_enc cpl).
Proof.
  intros Hl Hd. rewrite encode_whole. unfold make_enc at 1.
  replace 0 with (line_count cpl 0) at 2 by (unfold line_count; by destruct (cpl =? 0)).
  by rewrite (encode_text cpl Hl (S (length (concat (input <$> us))))) by (done || lia).
Qed.

(** The encoder writes base 64.  However the data is cut into blocks and
    however often the output that is ready is taken, what the encoder gives
    until [BlockEnd] is the base 64 text of the data (RFC 4648, with a line
    break after every [cpl] characters and at the end, none for [cpl = 0]), and
    it is ready to be used again. *)
Theorem encoder_writes_base64 cpl us : lines_ok cpl → Forall byte (concat (input <$> us)) →
  encode (make_enc cpl) us = (base64_text cpl (concat (input <$> us)), make_enc cpl).
Proof. apply encode_make. Qed.

(** ** The decoder reads it back *)
Lemma DecodeValue_digit v : 0 ≤ v < 64 → DecodeValue (digit v) = Ok v.
Proof.
  intros Hv. assert (below 64 (λ v, match DecodeValue (digit v) with Ok w => w =? v | _ => false end) = true)
    as H by by vm_compute.
  apply (below_spec _ _ H) in Hv. destruct (DecodeValue _) as [w|]; [|done].
  by apply Z.eqb_eq in Hv as ->.
Qed.
(** The characters of the alphabet have a value; the others are skipped, but
    for one. *)
Lemma DecodeValue_cases c : byte c → match DecodeValue c with
  | Ok f => c ≠ 123 ∧ f < 64 ∧ (0 ≤ f ↔ c ∈ encoding)
  | Err e => c = 123 ∧ e = OutOfBounds
  end.
Proof.
  intros Hc. assert (below 256 (λ c, match DecodeValue c with
    | Ok f => bool_decide (c ≠ 123 ∧ f < 64 ∧ (0 ≤ f ↔ c ∈ encoding))
    | Err e => bool_decide (c = 123 ∧ e = OutOfBounds) end) = true) as H by by vm_compute.
  apply (below_spec _ _ H) in Hc. destruct (DecodeValue c); by apply bool_decide_eq_true in Hc.
Qed.

Lemma DecodeBlock_app l : ∀ d k,
  DecodeBlock d (l ++ k) = (d ← DecodeBlock d l; DecodeBlock d k).
Proof.
  induction l as [|x l IH]; intros d k; [done|]. cbn. unfold mbind, res_bind.
  destruct (DecodeValue x) as [f|]; [|done]. destruct (f <? 0); [|destruct (dstep d)]; apply IH.
Qed.

Definition dpre (t : list Z) (d : Base64Decoder) : Base64Decoder :=
  mk_dec (dstep d) (currchar d) (t ++ doutput d).
Lemma DecodeBlock_pre t l : ∀ d, DecodeBlock (dpre t d) l = (d ← DecodeBlock d l; Ok (dpre t d)).
Proof.
  induction l as [|x l IH]; intros d; [done|]. cbn. unfold mbind, res_bind.
  destruct (DecodeValue x) as [f|]; [|done].
  destruct (f <? 0); [|destruct (dstep d)]; cbn; rewrite <- ?app_assoc; apply (IH (mk_dec _ _ _)) || apply IH.
Qed.
Lemma decode_uses_whole us : ∀ d,
  ('(t, d) ← decode_uses d us; Ok (dpre t d)) = DecodeBlock d (concat (input <$> us)).
Proof.
  induction us as [|[l|] us IH]; intros d; cbn.
  - by destruct d.
  - rewrite DecodeBlock_app. unfold mbind, res_bind. destruct (DecodeBlock d l); [apply IH|done].
  - destruct d as [st ch o]. cbn. specialize (IH (mk_dec st ch [])).
    replace (mk_dec st ch o) with (dpre o (mk_dec st ch [])) by (unfold dpre; cbn; by rewrite app_nil_r).
    rewrite DecodeBlock_pre, <- IH. unfold mbind, res_bind.
    destruct (decode_uses _ us) as [[t d']|]; [|done]. unfold dpre. cbn. by rewrite app_assoc.
Qed.
Lemma decode_whole d us :
  decode d us = (d ← DecodeBlock d (concat (input <$> us)); Ok (doutput d, make_dec)).
Proof.
  rewrite <- decode_uses_whole. unfold decode, mbind, res_bind.
  by destruct (decode_uses d us) as [[t d']|].
Qed.

Lemma DecodeBlock_digit d v l : 0 ≤ v < 64 → DecodeBlock d (digit v :: l) =
  match dstep d with
  | step_a => DecodeBlock (mk_dec step_b (Z.shiftl (Z.land v 0x3f) 2) (doutput d)) l
  | step_b => DecodeBlock (mk_dec step_c (Z.shiftl (Z.land v 0x0f) 4)
      (doutput d ++ [Z.lor (currchar d) (Z.shiftr (Z.land v 0x30) 4)])) l
  | step_c => DecodeBlock (mk_dec step_d (Z.shiftl (Z.land v 0x03) 6)
      (doutput d ++ [Z.lor (currchar d) (Z.shiftr (Z.land v 0x3c) 2)])) l
  | step_d => DecodeBlock (mk_dec step_a (Z.lor (currchar d) (Z.land v 0x3f))
      (doutput d ++ [Z.lor (currchar d) (Z.land v 0x3f)])) l
  end.
Proof.
  intros Hv. cbn [DecodeBlock]. unfold mbind, res_bind. rewrite DecodeValue_digit by done.
  by zdecide.
Qed.
Lemma DecodeBlock_skip d c l : c = 10 ∨ c = 61 → DecodeBlock d (c :: l) = DecodeBlock d l.
Proof. by intros [-> | ->]. Qed.
Lemma DecodeBlock_break d cpl i l : DecodeBlock d (line_break cpl i ++ l) = DecodeBlock d l.
Proof. unfold line_break. destruct (_ && _); [|done]. apply DecodeBlock_skip. by left. Qed.

Ltac sextet := unfold byte in *; Z.to_euclidean_division_equations; lia.
(** Two, three and four characters give back one, two and three bytes. *)
Lemma DecodeBlock_quad cur out a b c : byte a → byte b → byte c →
  (∀ l, ∃ ch, DecodeBlock (mk_dec step_a cur out) (take 2 (quad a b c) ++ l) =
              DecodeBlock (mk_dec step_c ch (out ++ [a])) l) ∧
  (∀ l, ∃ ch, DecodeBlock (mk_dec step_a cur out) (take 3 (quad a b c) ++ l) =
              DecodeBlock (mk_dec step_d ch (out ++ [a; b])) l) ∧
  (∀ l, ∃ ch, DecodeBlock (mk_dec step_a cur out) (quad a b c ++ l) =
              DecodeBlock (mk_dec step_a ch (out ++ [a; b; c])) l).
Proof.
  intros Ha Hb Hc. rewrite quad_digits by done.
  remember (a / 4) as v1 eqn:D1. remember (_ + b / 16) as v2 eqn:D2.
  remember (_ + c / 64) as v3 eqn:D3. remember (c `mod` 64) as v4 eqn:D4.
  assert (0 ≤ v1 < 64) as H1 by sextet. assert (0 ≤ v2 < 64) as H2 by sextet.
  assert (0 ≤ v3 < 64) as H3 by sextet. assert (0 ≤ v4 < 64) as H4 by sextet.
  destruct (dec_bits v1 v2 H1 H2) as (E1 & _ & _). destruct (dec_bits v2 v3 H2 H3) as (_ & E2 & _).
  destruct (dec_bits v3 v4 H3 H4) as (_ & _ & E3).
  assert (v1 * 4 + v2 / 16 = a ∧ v2 `mod` 16 * 16 + v3 / 4 = b ∧ v3 `mod` 4 * 64 + v4 = c)
    as (F1 & F2 & F3).
  { assert (v2 / 16 = a `mod` 4 ∧ v2 `mod` 16 = b / 16) as [-> ->]
      by (clear - Ha Hb D2; split; sextet).
    assert (v3 / 4 = b `mod` 16 ∧ v3 `mod` 4 = c / 64) as [-> ->]
      by (clear - Hb Hc D3; split; sextet).
    clear - D1 D4. split_and!; sextet. }
  rewrite F1 in E1. rewrite F2 in E2. rewrite F3 in E3. clear D1 D2 D3 D4. cbn [take app].
  split_and!; intros l; eexists;
    repeat (rewrite DecodeBlock_digit by assumption; cbn [dstep doutput currchar]);
    rewrite ?E1, ?E2, ?E3, <- ?app_assoc; reflexivity.
Qed.
Lemma decode_text cpl : ∀ n data i cur out tl, (length data < n)%nat → Forall byte data →
  Forall (λ c, c = 10 ∨ c = 61) tl →
  ∃ st ch, DecodeBlock (mk_dec step_a cur out) (base64 cpl i data ++ tl) =
           Ok (mk_dec st ch (out ++ data)).
Proof.
  intros n. induction n as [|n IH]; intros data i cur out tl Hn Hd Ht; [lia|].
  assert (∀ d tl, Forall (λ c, c = 10 ∨ c = 61) tl → DecodeBlock d tl = Ok d) as Hskip.
  { intros d l Hl. induction Hl; [done|]. by rewrite DecodeBlock_skip. }
  destruct data as [|a [|b [|c data]]]; repeat match goal with
    H : Forall byte (_ :: _) |- _ => apply Forall_cons in H as [? H] end.
  - eexists _, _. rewrite app_nil_r. by apply Hskip.
  - destruct (DecodeBlock_quad cur out a 0 0) as (HQ & _); [done..|].
    cbn [base64]. rewrite <- app_assoc. destruct (HQ ([61; 61] ++ tl)) as [ch E]. rewrite E.
    eexists _, _. apply Hskip. repeat (constructor; [by right|]). done.
  - destruct (DecodeBlock_quad cur out a b 0) as (_ & HQ & _); [done..|].
    cbn [base64]. rewrite <- app_assoc. destruct (HQ ([61] ++ tl)) as [ch E]. rewrite E.
    eexists _, _. apply Hskip. constructor; [by right|done].
  - destruct (DecodeBlock_quad cur out a b c) as (_ & _ & HQ); [done..|].
    cbn [base64]. rewrite <- !app_assoc. edestruct HQ as [ch E]. rewrite E, DecodeBlock_break.
    cbn in Hn. destruct (IH data (i + 1) ch (out ++ [a; b; c]) tl) as (st & ch' & E'); [lia|done..|].
    exists st, ch'. by rewrite E', <- app_assoc.
Qed.

(** C38: what was encoded is decoded.  Data encoded in any blocks, in lines of at least
    four characters or without line breaks, and decoded in any blocks, whatever output
    is taken in between, comes back; both objects are then as they were made. *)
Theorem base64_round_trip cpl us vs : lines_ok cpl → Forall byte (concat (input <$> us)) →
  concat (input <$> vs) = (encode (make_enc cpl) us).1 →
  decode make_dec vs = Ok (concat (input <$> us), make_dec) ∧
  (encode (make_enc cpl) us).2 = make_enc cpl.
Proof.
  intros Hl Hd. rewrite encode_make by done. cbn [fst snd]. set (data := concat _) in *.
  intros E. split; [|done]. rewrite decode_whole, E.
  destruct (decode_text cpl (S (length data)) data 0 0 [] (if cpl =? 0 then [] else [10]))
    as (st & ch & E'); [lia|done|by destruct (cpl =? 0); repeat constructor|].
  unfold mbind, res_bind, base64_text, make_dec at 1. by rewrite E'.
Qed.

(** ** Any text *)
Definition place (s : decodestep) : Z :=
  match s with step_a => 0 | step_b => 1 | step_c => 2 | step_d => 3 end.
(** The state after [n] characters of the alphabet. *)
Definition after (n : Z) (d : Base64Decoder) : Prop :=
  0 ≤ n ∧ n `mod` 4 = place (dstep d) ∧ len (doutput d) = 3 * n / 4.
Definition letters (l : list Z) : list Z := filter (λ c, c ∈ encoding) l.

Lemma DecodeBlock_any l : ∀ d n, Forall byte l → after n d →
  if bool_decide (123 ∈ l) then DecodeBlock d l = Err OutOfBounds
  else ∃ d', DecodeBlock d l = Ok d' ∧ DecodeBlock d (letters l) = Ok d' ∧
             after (n + len (letters l)) d'.
Proof.
  induction l as [|c l IH]; intros d n Hb Hn.
  { rewrite bool_decide_false by apply not_elem_of_nil. exists d. rewrite Z.add_0_r. by split. }
  apply Forall_cons in Hb as [Hc Hb]. pose proof (DecodeValue_cases c Hc) as Hv.
  destruct (DecodeValue c) as [f|e] eqn:Ev; cycle 1.
  { destruct Hv as [-> ->]. rewrite bool_decide_true by left. cbn. unfold mbind, res_bind.
    by rewrite Ev. }
  destruct Hv as (Hne & Hf & Hi).
  rewrite (bool_decide_ext (123 ∈ c :: l) (123 ∈ l)) by (rewrite elem_of_cons; naive_solver).
  unfold letters. rewrite filter_cons. destruct (decide (c ∈ encoding)) as [Hin|Hin].
  - apply Hi in Hin as Hf0. cbn [DecodeBlock]. unfold mbind, res_bind. rewrite Ev.
    rewrite (proj2 (Z.ltb_ge _ _)) by done. unfold len. cbn [length].
    destruct Hn as (Hn0 & Hm & Ho).
    destruct (dstep d); match goal with |- context [DecodeBlock ?d' l] =>
      specialize (IH d' (n + 1) Hb) end; cbn [place] in *;
      (destruct (bool_decide _); [apply IH|destruct IH as (d' & E1 & E2 & E3);
        [|exists d'; split_and!; [done..|]; unfold letters, len in E3;
          replace (n + _) with (n + 1 + Z.of_nat (length (filter (λ c, c ∈ encoding) l))) by lia;
          exact E3]]);
      (split_and!; [lia|cbn [dstep place]; sextet|cbn [doutput]; autorewrite with bytes;
        rewrite Ho; unfold len; cbn [length]; sextet]).
  - assert (f < 0) by (apply Z.lt_nge; tauto). cbn [DecodeBlock]. unfold mbind, res_bind. rewrite Ev.
    rewrite (proj2 (Z.ltb_lt _ _)) by done. by apply IH.
Qed.

(** The decoder on any text.  It decodes the characters of the alphabet and
    skips all the others, line breaks and padding among them: [n] characters of
    the alphabet give [3 n / 4] bytes.  The exception is ['{'] (123), for which
    it reads one element beyond its table. *)
Theorem decoder_total vs : let text := concat (input <$> vs) in Forall byte text →
  if bool_decide (123 ∈ text) then decode make_dec vs = Err OutOfBounds
  else ∃ out, decode make_dec vs = Ok (out, make_dec) ∧
              decode make_dec [Block (letters text)] = Ok (out, make_dec) ∧
              len out = 3 * len (letters text) / 4.
Proof.
  intros text Hb. rewrite !decode_whole. cbn [input fmap list_fmap concat]. rewrite app_nil_r.
  fold text. pose proof (DecodeBlock_any text make_dec 0 Hb) as H. destruct (bool_decide _).
  - unfold mbind, res_bind. by rewrite H.
  - destruct H as (d & E1 & E2 & E3); [done|]. exists (doutput d). unfold mbind, res_bind.
    rewrite E1, E2. split_and!; [done..|]. apply E3.
Qed.

(** ** At a concrete text: "Man is" in lines of four *)
Definition man_is : list use := [Block [77]; Partial; Block [97; 110; 32; 105]; Partial; Block [115]].
Lemma encoder_writes_base64_witness :
  encode (make_enc 4) man_is = (codes "TWFu" ++ [10] ++ codes "IGlz" ++ [10; 10], make_enc 4).
Proof.
  rewrite encoder_writes_base64; [by vm_compute|by right|].
  repeat (constructor; [by vm_compute|]). constructor.
Defined.
Lemma base64_round_trip_witness :
  decode make_dec [Block (codes "TWF"); Block (codes "u"); Partial; Block (codes "IGlz")] =
  Ok ([77; 97; 110; 32; 105; 115], make_dec).
Proof.
  apply (base64_round_trip 0 man_is); [by left| |by vm_compute].
  repeat (constructor; [by vm_compute|]). constructor.
Defined.
Lemma decoder_total_witness :
  decode make_dec [Block (codes "TW{u")] = Err OutOfBounds.
Proof.
  refine (decoder_total [Block (codes "TW{u")] _).
  repeat (constructor; [by vm_compute|]). constructor.
Defined.

End B64.
