(* ===== verification/Variant.v ===== *)
(** [libraries/Variant]: dynamically typed values, the messages of the remote
    context.

    A variant is the value that it stands for: arrays and objects, which the code
    reference-counts, are given as their contents, and an assignment through a
    reference is an update.  The components that use variants share none between
    two places that they change.  The text that [AsString] leaves in a variant
    of another type is not represented. *)
From Stdlib Require Import Sorted.
From S2P Require Import Prelude.
From stdpp Require Import pretty.

Module Var.
Open Scope string_scope.
Open Scope Z_scope.

(** [long double], the type of all numbers, with its conversions from and to
    integers and its stream operators (at precision 50). *)
Class LongDouble (F : Type) := {
  ld_of_Z : Z → F;
  ld_to_Z : F → Z;                    (** [static_cast], which truncates *)
  ld_nonzero : F → bool;
  ld_lt : F → F → bool;
  ld_print : F → string;
  ld_read : string → option F }.
(** Its 64 bits of precision hold every 64-bit integer. *)
Class LongDoubleLaws (F : Type) `{LongDouble F} := {
  ld_to_of z : -9223372036854775808 ≤ z < 18446744073709551616 → ld_to_Z (ld_of_Z z) = z }.

(** ** Text *)
Definition code (a : Ascii.ascii) : Z := Z.of_nat (Ascii.nat_of_ascii a).
Definition isspace (c : Z) : bool := (c =? 32) || ((9 <=? c) && (c <=? 13)).
Definition tolower (c : Z) : Z := if (65 <=? c) && (c <=? 90) then c + 32 else c.
Definition chars (s : string) : list Z := code <$> String.list_ascii_of_string s.

Fixpoint skip (p : Z → bool) (l : list Z) : list Z :=
  match l with c :: l' => if p c then skip p l' else l | [] => [] end.

(** The loop of [ParseBool] along "o" or "alse". *)
Fixpoint match_rest (cmp l : list Z) : list Z :=
  match cmp, l with
  | m :: cmp, c :: l' => if tolower c =? m then match_rest cmp l' else l
  | _, _ => l
  end.
Definition ParseBool (str : string) : bool :=
  match skip isspace (chars str) with
  | [] => true
  | c :: l =>
    let rest := if tolower c =? 110 then Some (match_rest (chars "o") l)
                else if tolower c =? 102 then Some (match_rest (chars "alse") l)
                else if c =? 48 then Some (skip (λ c, c =? 48) l)
                else None in
    match rest with
    | Some l => match skip isspace l with [] => false | _ => true end
    | None => true
    end
  end.

(** [istringstream >> unsigned]: blanks, a sign, decimal digits; the value of a
    negative numeral wraps, and one that does not fit fails. *)
Definition isdigit (c : Z) : bool := (48 <=? c) && (c <=? 57).
Fixpoint digits (acc : Z) (l : list Z) : Z :=
  match l with c :: l => if isdigit c then digits (acc * 10 + (c - 48)) l else acc | [] => acc end.
Definition read_unsigned (s : string) : option Z :=
  let l := skip isspace (chars s) in
  let '(neg, l) := match l with
                   | c :: l' => if c =? 45 then (true, l') else if c =? 43 then (false, l')
                                else (false, l)
                   | [] => (false, l)
                   end in
  match l with
  | c :: _ => if isdigit c then
                let v := digits 0 l in
                if v <? 4294967296 then Some (if neg : bool then u32 (- v) else v) else None
              else None
  | [] => None
  end.
(** [ostringstream << unsigned] *)
Definition print_unsigned (i : Z) : string := pretty (Z.to_N i).

Lemma compare_self (k : string) : String.compare k k = Eq.
Proof.
  induction k as [|a k IH]; cbn; [done|]. unfold Ascii.compare. by rewrite N.compare_refl.
Qed.

(** ** [std::map<std::string, A>]: entries in the order of the keys *)
Section map.
Context {A : Type}.
Fixpoint map_find (k : string) (m : list (string * A)) : option A :=
  match m with
  | (k', v) :: m => if String.eqb k k' then Some v else map_find k m
  | [] => None
  end.
(** [m[k] = v] *)
Fixpoint map_assign (k : string) (v : A) (m : list (string * A)) : list (string * A) :=
  match m with
  | (k', v') :: m' => match String.compare k k' with
                      | Lt => (k, v) :: m
                      | Eq => (k, v) :: m'
                      | Gt => (k', v') :: map_assign k v m'
                      end
  | [] => [(k, v)]
  end.
End map.

(** ** Variants *)
Inductive Variant (F : Type) :=
  | VNull | VTrue | VFalse | VNumber (n : F) | VString (s : string)
  | VArray (l : list (Variant F)) | VObject (m : list (string * Variant F)).
Arguments VNull {F}. Arguments VTrue {F}. Arguments VFalse {F}. Arguments VNumber {F} n.
Arguments VString {F} s. Arguments VArray {F} l. Arguments VObject {F} m.

Inductive Type_t :=
  | NullType | TrueType | FalseType | NumberType | StringType | ArrayType | ObjectType.

Section ops.
Context {F : Type} `{LongDouble F}.
Implicit Types (v : Variant F).

Definition GetType v : Type_t :=
  match v with
  | VNull => NullType | VTrue => TrueType | VFalse => FalseType | VNumber _ => NumberType
  | VString _ => StringType | VArray _ => ArrayType | VObject _ => ObjectType
  end.
Definition of_type (t : Type_t) : Variant F :=
  match t with
  | NullType => VNull | TrueType => VTrue | FalseType => VFalse | NumberType => VNumber (ld_of_Z 0)
  | StringType => VString "" | ArrayType => VArray [] | ObjectType => VObject []
  end.
Definition of_bool (b : bool) : Variant F := if b then VTrue else VFalse.
Definition of_Z (z : Z) : Variant F := VNumber (ld_of_Z z).

Definition IsTrue v : bool := match v with VTrue => true | _ => false end.
Definition IsNumber v : bool := match v with VNumber _ => true | _ => false end.
Definition IsString v : bool := match v with VString _ => true | _ => false end.
Definition IsObject v : bool := match v with VObject _ => true | _ => false end.

Definition AsBool v : res bool :=
  match v with
  | VNumber n => Ok (ld_nonzero n)
  | VString s => Ok (ParseBool s)
  | VTrue => Ok true
  | VFalse | VNull => Ok false
  | _ => Err AssertFailed
  end.
Definition AsLongDouble v : res F :=
  match v with
  | VNumber n => Ok n
  | VString s => match ld_read s with Some n => Ok n | None => Err AssertFailed end
  | VTrue => Ok (ld_of_Z 1)
  | VFalse | VNull => Ok (ld_of_Z 0)
  | _ => Err AssertFailed
  end.
(** [AsNumber<T>] for an integer type [T] that holds the value. *)
Definition AsNumber v : res Z := n ← AsLongDouble v; Ok (ld_to_Z n).
Definition AsUnsigned v : res Z := n ← AsLongDouble v; Ok (u32 (ld_to_Z n)).
Definition AsString v : res string :=
  match v with
  | VNumber n => Ok (ld_print n)
  | VString s => Ok s
  | VTrue => Ok "true"
  | VFalse => Ok "false"
  | VNull => Ok "null"
  | _ => Err AssertFailed
  end.

(** The non-const accessors make an array or an object of null. *)
Definition AsArray v : res (list (Variant F) * Variant F) :=
  match v with
  | VNull => Ok ([], VArray [])
  | VArray l => Ok (l, v)
  | _ => Err AssertFailed
  end.
Definition AsObject v : res (list (string * Variant F) * Variant F) :=
  match v with
  | VNull => Ok ([], VObject [])
  | VObject m => Ok (m, v)
  | _ => Err AssertFailed
  end.

Definition Size v : res Z :=
  match v with
  | VArray l => Ok (u32 (len l))
  | VObject m => Ok (u32 (len m))
  | VString s => Ok (u32 (Z.of_nat (String.length s)))
  | _ => Err AssertFailed
  end.
Definition Empty v : res bool :=
  match v with
  | VArray l => Ok (len l =? 0)
  | VObject m => Ok (len m =? 0)
  | VString s => Ok (Z.of_nat (String.length s) =? 0)
  | _ => Err AssertFailed
  end.
Definition Clear v : Variant F :=
  match v with
  | VArray _ => VArray []
  | VObject _ => VObject []
  | VString _ => VString ""
  | _ => VNull
  end.
Definition Append v (value : Variant F) : res (Variant F) :=
  match v with
  | VNull => Ok (VArray [value])
  | VArray l => Ok (VArray (l ++ [value]))
  | _ => Err AssertFailed
  end.

(** [Copy]: containers are made anew, element by element. *)
Fixpoint Copy v : Variant F :=
  match v with
  | VArray l =>
    let fix copies (l : list (Variant F)) :=
      match l with [] => [] | a :: l => Copy a :: copies l end in
    VArray (copies l)
  | VObject m =>
    let fix fields (ret m : list (string * Variant F)) :=
      match m with [] => ret | (k, a) :: m => fields (map_assign k (Copy a) ret) m end in
    VObject (fields [] m)
  | _ => v
  end.
(** [Swap], through a temporary: the two variants afterwards. *)
Definition Swap v (other : Variant F) : Variant F * Variant F := (other, v).

(** *** Indexing

    [At] has a const version, which reads, and one that makes what it does
    not find and gives a reference to it: [At_ref] gives the variant and
    the value referred to, and [Set_at] is an assignment to it. *)
Definition element (l : list (Variant F)) (i : Z) : res (Variant F) :=
  match l !! Z.to_nat i with Some v => Ok v | None => Err OutOfRange end.
Definition Contains_idx v (i : Z) : res Type_t :=
  match v with
  | VArray l => if len l <=? i then Ok NullType else v ← element l i; Ok (GetType v)
  | VObject m => Ok (match map_find (print_unsigned i) m with Some v => GetType v | None => NullType end)
  | _ => Err AssertFailed
  end.
Definition Contains v (s : string) : res Type_t :=
  match v with
  | VObject m => Ok (match map_find s m with Some v => GetType v | None => NullType end)
  | VArray _ => match read_unsigned s with
                | Some i => Contains_idx v i
                | None => Err AssertFailed
                end
  | _ => Err AssertFailed
  end.

Definition At_idx v (i : Z) : res (Variant F) :=
  match v with
  | VArray l => element l i
  | VObject m => match map_find (print_unsigned i) m with
                 | Some v => Ok v
                 | None => Err NullDeref              (** [end()] is dereferenced *)
                 end
  | _ => Err AssertFailed
  end.
Definition At v (s : string) : res (Variant F) :=
  match v with
  | VObject m => Ok (default VNull (map_find s m))
  | VArray _ => match read_unsigned s with Some i => At_idx v i | None => Err AssertFailed end
  | _ => Err AssertFailed
  end.

(** [if (array->size() <= i) array->resize(i + 1)] *)
Definition grown (l : list (Variant F)) (i : Z) : list (Variant F) :=
  if len l <=? i then
    let n := Z.to_nat (u32 (i + 1)) in take n l ++ replicate (n - length l) VNull
  else l.
Definition At_ref_idx v (i : Z) : res (Variant F * Variant F) :=
  match v with
  | VNull => let l := grown [] i in x ← element l i; Ok (VArray l, x)
  | VArray l => let l := grown l i in x ← element l i; Ok (VArray l, x)
  | VObject m => let k := print_unsigned i in
                 let x := default VNull (map_find k m) in Ok (VObject (map_assign k x m), x)
  | _ => Err AssertFailed
  end.
Definition At_ref v (s : string) : res (Variant F * Variant F) :=
  match v with
  | VNull => Ok (VObject [(s, VNull)], VNull)
  | VObject m => let x := default VNull (map_find s m) in Ok (VObject (map_assign s x m), x)
  | VArray _ => match read_unsigned s with Some i => At_ref_idx v i | None => Err AssertFailed end
  | _ => Err AssertFailed
  end.
Definition Set_at v (s : string) (x : Variant F) : res (Variant F) :=
  '(v, _) ← At_ref v s;
  match v with
  | VObject m => Ok (VObject (map_assign s x m))
  | VArray l => match read_unsigned s with
                | Some i => Ok (VArray (<[Z.to_nat i := x]> l))
                | None => Err AssertFailed
                end
  | _ => Err AssertFailed
  end.

(** *** Comparison: the sign of the result of [std::string::compare] is -1, 0, 1 *)
Definition compare_strings (a b : string) : Z :=
  match String.compare a b with Lt => -1 | Eq => 0 | Gt => 1 end.
Definition compare_numbers (a b : F) : Z :=
  if ld_lt a b then -1 else if ld_lt b a then 1 else 0.

Definition CompareString v (o : string) : res Z :=
  match v with
  | VArray _ | VObject _ | VNull => Ok 1
  | VString s => Ok (compare_strings s o)
  | VNumber n => m ← AsLongDouble (VString o); Ok (compare_numbers n m)
  | VFalse => Ok (if ParseBool o then 1 else 0)
  | VTrue => Ok (if ParseBool o then 0 else 1)
  end.
Definition CompareNumber v (o : F) : res Z :=
  match v with
  | VArray _ | VObject _ | VNull => Ok 1
  | VString s => Ok (compare_strings s (ld_print o))
  | VNumber n => Ok (compare_numbers n o)
  | VFalse | VTrue => Ok 0
  end.
Fixpoint Compare v (other : Variant F) {struct v} : res Z :=
  match other with
  | VArray o =>
    match v with
    | VArray l =>
      (** [operator==] of the vectors, converted to [int] *)
      let fix eqs (l o : list (Variant F)) : res bool :=
        match l, o with
        | a :: l, b :: o => c ← Compare a b; if c =? 0 then eqs l o else Ok false
        | _, _ => Ok true
        end in
      if len l =? len o then b ← eqs l o; Ok (if (b : bool) then 1 else 0) else Ok 0
    | _ => Ok 1
    end
  | VObject o =>
    match v with
    | VObject m =>
      let fix eqs (l o : list (string * Variant F)) : res bool :=
        match l, o with
        | (k, a) :: l, (k', b) :: o =>
          if String.eqb k k' then c ← Compare a b; if c =? 0 then eqs l o else Ok false
          else Ok false
        | _, _ => Ok true
        end in
      if len m =? len o then b ← eqs m o; Ok (if (b : bool) then 1 else 0) else Ok 0
    | _ => Ok 1
    end
  | VString s => CompareString v s
  | VNumber n => CompareNumber v n
  | VNull | VFalse | VTrue => Ok 0                    (** [other.IsNull()] and so on *)
  end.

(** ** Objects

    A message under construction: null or an object, with assignments
    [v["k"] = x] in order. *)
Definition put v (k : string) (x : Variant F) : Variant F :=
  match v with
  | VObject m => VObject (map_assign k x m)
  | _ => VObject [(k, x)]
  end.
Definition get v (k : string) : Variant F :=
  match v with VObject m => default VNull (map_find k m) | _ => VNull end.
Definition obj (l : list (string * Variant F)) : Variant F :=
  foldl (λ v kx, put v kx.1 kx.2) (VObject []) l.

Lemma map_find_assign (m : list (string * Variant F)) k k' x :
  map_find k (map_assign k' x m) = if String.eqb k k' then Some x else map_find k m.
Proof.
  induction m as [|[k2 y] m IH]; cbn; [done|].
  destruct (String.compare k' k2) eqn:E; cbn.
  - apply String.compare_eq_iff in E as ->. by destruct (String.eqb k k2).
  - done.
  - rewrite IH. destruct (String.eqb_spec k k2), (String.eqb_spec k k'); try done; subst.
    by rewrite compare_self in E.
Qed.

Lemma get_put v k k' x : get (put v k x) k' = if String.eqb k' k then x else get v k'.
Proof.
  destruct v; cbn; try (by destruct (String.eqb k' k)).
  rewrite map_find_assign. by destruct (String.eqb k' k).
Qed.
Lemma get_put_self v k k' : get (put v k (get v k)) k' = get v k'.
Proof. rewrite get_put. by destruct (String.eqb_spec k' k) as [->|]. Qed.
Lemma put_object v k x : IsObject (put v k x) = true.
Proof. by destruct v. Qed.

(** On an object nothing fails. *)
Definition plain v : Prop := IsObject v = true ∨ v = VNull.
Lemma At_get v k : IsObject v = true → At v k = Ok (get v k).
Proof. by destruct v. Qed.
Lemma At_ref_get v k : plain v → At_ref v k = Ok (put v k (get v k), get v k).
Proof. intros [Hv | ->]; [by destruct v|done]. Qed.
Lemma map_assign_twice (m : list (string * Variant F)) k x y :
  map_assign k y (map_assign k x m) = map_assign k y m.
Proof.
  induction m as [|[k' z] m IH]; cbn; [by rewrite compare_self|].
  destruct (String.compare k k') eqn:E; cbn; rewrite ?compare_self, ?E; [done..|]. by rewrite IH.
Qed.
Lemma Set_at_put v k x : plain v → Set_at v k x = Ok (put v k x).
Proof.
  intros [Hv | ->]; unfold Set_at, mbind, res_bind.
  - destruct v; try done. cbn. by rewrite map_assign_twice.
  - cbn. by rewrite compare_self.
Qed.
Lemma AsNumber_of_Z `{!LongDoubleLaws F} z : 0 ≤ z < 18446744073709551616 → AsNumber (of_Z z) = Ok z.
Proof. intros Hz. unfold AsNumber, of_Z, mbind, res_bind. cbn. by rewrite ld_to_of by lia. Qed.
Lemma AsNumber_null `{!LongDoubleLaws F} : AsNumber VNull = Ok 0.
Proof. apply (AsNumber_of_Z 0). lia. Qed.
Lemma AsUnsigned_of_Z `{!LongDoubleLaws F} z : 0 ≤ z < 4294967296 → AsUnsigned (of_Z z) = Ok z.
Proof.
  intros Hz. unfold AsUnsigned, of_Z, mbind, res_bind. cbn. by rewrite ld_to_of, u32_id by lia.
Qed.

(** The fields of a message: the last assignment counts. *)
Fixpoint last_of (k : string) (l : list (string * Variant F)) : option (Variant F) :=
  match l with
  | (k', x) :: l => match last_of k l with
                    | Some y => Some y
                    | None => if String.eqb k k' then Some x else None
                    end
  | [] => None
  end.
Lemma get_obj l k : get (obj l) k = default VNull (last_of k l).
Proof.
  unfold obj. assert (∀ v, get (foldl (λ v kx, put v kx.1 kx.2) v l) k =
    default (get v k) (last_of k l)) as ->; [|done].
  induction l as [|[k' x] l IH]; intros v; cbn; [done|]. rewrite IH, get_put.
  by destruct (last_of k l), (String.eqb k k').
Qed.
Lemma obj_object l : IsObject (obj l) = true.
Proof.
  unfold obj. assert (∀ v, IsObject v = true →
    IsObject (foldl (λ v kx, put v kx.1 kx.2) v l) = true) as Ho; [|by apply Ho].
  induction l as [|[k' x] l IH]; intros v Hv; cbn; [done|]. apply IH, put_object.
Qed.

(** *** Well-formed variants: the entries of every object are in order *)
Definition key_lt {A} (a b : string * A) : Prop := String.compare a.1 b.1 = Lt.
Definition map_sorted {A} (m : list (string * A)) : Prop := StronglySorted key_lt m.
Fixpoint wf v : Prop :=
  match v with
  | VArray l =>
    (fix all (l : list (Variant F)) := match l with [] => True | a :: l => wf a ∧ all l end) l
  | VObject m => map_sorted m ∧
    (fix all (m : list (string * Variant F)) :=
       match m with [] => True | (_, a) :: m => wf a ∧ all m end) m
  | _ => True
  end.
Lemma wf_array l : wf (VArray l) ↔ Forall wf l.
Proof. induction l as [|a l IH]; [done|]. rewrite Forall_cons, <- IH. done. Qed.
Lemma wf_object m : wf (VObject m) ↔ map_sorted m ∧ Forall (λ e, wf e.2) m.
Proof.
  cbn. assert (∀ m, (fix all (m : list (string * Variant F)) :=
       match m with [] => True | (_, a) :: m => wf a ∧ all m end) m ↔ Forall (λ e, wf e.2) m) as ->; [|done].
  clear m. induction m as [|[k a] m IH]; [done|]. by rewrite Forall_cons, <- IH.
Qed.

Lemma compare_trans a b c : String.compare a b = Lt → String.compare b c = Lt → String.compare a c = Lt.
Proof.
  revert b c. induction a as [|x a IH]; intros [|y b] [|z c]; cbn; try done. unfold Ascii.compare.
  destruct (N.compare_spec (Ascii.N_of_ascii x) (Ascii.N_of_ascii y)) as [E1|E1|],
    (N.compare_spec (Ascii.N_of_ascii y) (Ascii.N_of_ascii z)) as [E2|E2|]; try done; intros H1 H2.
  - rewrite E1, E2, N.compare_refl. by eapply IH.
  - rewrite E1. by rewrite (proj2 (N.compare_lt_iff _ _) E2).
  - rewrite <- E2. by rewrite (proj2 (N.compare_lt_iff _ _) E1).
  - by rewrite (proj2 (N.compare_lt_iff _ _) (N.lt_trans _ _ _ E1 E2)).
Qed.
Lemma map_assign_last {A} k (x : A) (m : list (string * A)) :
  Forall (λ e, String.compare e.1 k = Lt) m → map_assign k x m = (m ++ [(k, x)])%list.
Proof.
  induction 1 as [|[k' y] m E Hm IH]; cbn; [done|]. cbn in E.
  by rewrite String.compare_antisym, E, IH.
Qed.
Lemma map_sorted_before {A} (l1 l2 : list (string * A)) p : map_sorted (l1 ++ p :: l2) →
  Forall (λ e, String.compare e.1 p.1 = Lt) l1.
Proof.
  induction l1 as [|e l1 IH]; cbn; intros Hs; [done|]. apply StronglySorted_inv in Hs as [Hs He].
  constructor; [|by apply IH]. apply Forall_app in He as [_ He]. by apply Forall_cons in He as [He _].
Qed.
Lemma map_assign_keys {A} k (x : A) (m : list (string * A)) (P : string * A → Prop) :
  P (k, x) → Forall P m → Forall P (map_assign k x m).
Proof.
  intros Hk. induction 1 as [|[k' y] m E Hm IH]; cbn; [by constructor|].
  destruct (String.compare k k'); repeat (constructor; try done).
Qed.
Lemma map_assign_sorted {A} k (x : A) (m : list (string * A)) : map_sorted m → map_sorted (map_assign k x m).
Proof.
  induction 1 as [|[k' y] m Hs IH Hm]; cbn; [repeat constructor|].
  destruct (String.compare k k') eqn:E.
  - apply String.compare_eq_iff in E as ->. constructor; [done|]. exact Hm.
  - constructor; [by constructor|]. constructor; [exact E|].
    eapply Forall_impl; [exact Hm|]. intros [k2 z] H2. by eapply compare_trans.
  - constructor; [exact IH|]. apply map_assign_keys; [|exact Hm].
    unfold key_lt. cbn. by rewrite String.compare_antisym, E.
Qed.
Lemma put_wf v k x : wf v → wf x → wf (put v k x).
Proof.
  intros Hv Hx. destruct v; try (split; [repeat constructor|done]).
  apply wf_object in Hv as [Hs Hm]. apply wf_object. split; [by apply map_assign_sorted|].
  by apply map_assign_keys.
Qed.
Lemma Copy_id : ∀ v, wf v → Copy v = v.
Proof.
  fix IH 1. intros [| | |n|t|l|m] Hw; try reflexivity.
  - cbn. f_equal. induction l as [|a l IHl]; [done|]. destruct Hw as [Ha Hl].
    rewrite (IH a Ha). f_equal. by apply IHl.
  - cbn. f_equal. destruct Hw as [Hs Hm].
    assert (∀ r m, map_sorted (r ++ m) →
      (fix all (m : list (string * Variant F)) := match m with [] => True | (_, a) :: m => wf a ∧ all m end) m →
      (fix fields (ret m : list (string * Variant F)) :=
        match m with [] => ret | (k, a) :: m => fields (map_assign k (Copy a) ret) m end) r m = (r ++ m)%list)
      as Hf; [|by apply Hf].
    clear Hs Hm. intros r m0. revert r. induction m0 as [|[k a] m0 IHm]; intros r Hs Hm; [by rewrite app_nil_r|].
    destruct Hm as [Ha Hm]. rewrite (IH a Ha), map_assign_last by exact (map_sorted_before r m0 (k, a) Hs).
    rewrite IHm; [by rewrite <- app_assoc|by rewrite <- app_assoc|done].
Qed.

(** *** Assignment to an element of an array *)
Lemma len_nat (l : list (Variant F)) : len l = Z.of_nat (length l).
Proof. done. Qed.
Lemma grown_len l i : 0 ≤ i < 4294967295 → len (grown l i) = Z.max (len l) (i + 1).
Proof.
  intros Hi. unfold grown, len. destruct (Z.leb_spec (Z.of_nat (length l)) i); [|lia].
  rewrite u32_id by lia. rewrite length_app, length_take, length_replicate. lia.
Qed.
Lemma grown_lookup l i j : 0 ≤ i < 4294967295 → (Z.of_nat j < len (grown l i)) →
  grown l i !! j = Some (default VNull (l !! j)).
Proof.
  intros Hi. rewrite grown_len by done. unfold grown, len. intros Hj.
  destruct (Z.leb_spec (Z.of_nat (length l)) i).
  - rewrite u32_id by lia. rewrite take_ge by lia. destruct (decide (j < length l)%nat).
    + rewrite lookup_app_l by lia. destruct (lookup_lt_is_Some_2 l j) as [y ->]; [lia|done].
    + rewrite lookup_app_r by lia. rewrite (lookup_ge_None_2 l j) by lia.
      apply lookup_replicate_2. lia.
  - destruct (lookup_lt_is_Some_2 l j) as [y ->]; [lia|done].
Qed.
Lemma Set_at_array l k i (x : Variant F) : read_unsigned k = Some i → 0 ≤ i < 4294967295 →
  Set_at (VArray l) k x = Ok (VArray (<[Z.to_nat i := x]> (grown l i))).
Proof.
  intros Hk Hi. unfold Set_at. cbn [At_ref]. rewrite Hk. cbn [At_ref_idx]. unfold element, mbind, res_bind.
  rewrite (grown_lookup l i (Z.to_nat i) Hi) by (rewrite grown_len; lia). done.
Qed.

(** C36.  Assignment through an index.  [v["k"] = x] on an object, or on null,
    which becomes one, gives a well-formed object (a copy of it is the same) in
    which "k" reads x and every other key what it did; on an array it sets the
    element and grows the array with nulls as far as needed; the largest index
    of all empties the array instead and throws. *)
Theorem assignment_reads_back v k (x : Variant F) : wf v → wf x →
  (plain v → ∃ v', Set_at v k x = Ok v' ∧ wf v' ∧ Copy v' = v' ∧ At v' k = Ok x ∧
     ∀ k', k' ≠ k → At v' k' = Ok (get v k')) ∧
  (∀ l i, v = VArray l → read_unsigned k = Some i → 0 ≤ i < 4294967295 →
     ∃ l', Set_at v k x = Ok (VArray l') ∧ len l' = Z.max (len l) (i + 1) ∧
     ∀ j, 0 ≤ j < len l' →
       At_idx (VArray l') j = Ok (if j =? i then x else default VNull (l !! Z.to_nat j))) ∧
  (∀ l, v = VArray l → len l < 4294967296 → read_unsigned k = Some 4294967295 →
     grown l 4294967295 = [] ∧ Set_at v k x = Err OutOfRange).
Proof.
  intros Hv Hx. split; [|split].
  - intros Hp. exists (put v k x). assert (wf (put v k x)) as Hw by by apply put_wf.
    split; [by apply Set_at_put|]. split; [done|]. split; [by apply Copy_id|].
    split; [|intros k' Hne]; rewrite At_get, get_put by apply put_object.
    + by rewrite String.eqb_refl.
    + by rewrite (proj2 (String.eqb_neq k' k) Hne).
  - intros l i -> Hk Hi. exists (<[Z.to_nat i := x]> (grown l i)).
    assert (len (<[Z.to_nat i := x]> (grown l i)) = len (grown l i)) as El
      by (unfold len; by rewrite length_insert).
    split; [by apply Set_at_array|]. rewrite El. split; [by apply grown_len|]. intros j Hj.
    cbn. unfold element. destruct (Z.eqb_spec j i) as [-> |].
    + rewrite list_lookup_insert_eq; [done|]. unfold len in Hj. lia.
    + rewrite list_lookup_insert_ne by lia. rewrite grown_lookup by (done || lia). done.
  - intros l -> Hl Hk. assert (grown l 4294967295 = []) as E.
    { unfold grown. rewrite (proj2 (Z.leb_le _ _)) by lia. done. }
    split; [done|]. unfold Set_at. cbn [At_ref]. rewrite Hk. cbn [At_ref_idx]. by rewrite E.
Qed.
End ops.

(** Integers in the place of long doubles, to evaluate examples. *)
Definition ld_integers : LongDouble Z := {|
  ld_of_Z z := z; ld_to_Z z := z; ld_nonzero z := negb (z =? 0); ld_lt := Z.ltb;
  ld_print := print_unsigned; ld_read := read_unsigned |}.
Lemma ld_integers_laws : @LongDoubleLaws Z ld_integers.
Proof. by constructor. Qed.
Lemma assignment_reads_back_witness :
  let v : Variant Z := VObject [("a", VNumber 1)] in
  ∃ v', Set_at v "b" VTrue = Ok v' ∧ At v' "b" = Ok VTrue ∧ At v' "a" = Ok (VNumber 1).
Proof.
  intros v. destruct (assignment_reads_back v "b" VTrue) as [Hp _].
  - repeat constructor.
  - exact I.
  - destruct Hp as (v' & E & _ & _ & Ek & Eo); [by left|].
    exists v'. split; [exact E|]. split; [exact Ek|]. rewrite (Eo "a"); [reflexivity|discriminate].
Defined.

(** ** [ParseBool] *)
Definition no_word (w : list Z) : Prop :=
  w ∈ [chars "n"; chars "no"; chars "f"; chars "fa"; chars "fal"; chars "fals"; chars "false"].
Definition says_no (l : list Z) : Prop :=
  ∃ a w b, l = (a ++ w ++ b)%list ∧ Forall (λ c, isspace c = true) a ∧ Forall (λ c, isspace c = true) b ∧
    (no_word (tolower <$> w) ∨ ∃ n, w = replicate (S n) 48).

Lemma skip_app p (a l : list Z) : Forall (λ c, p c = true) a → skip p (a ++ l) = skip p l.
Proof. induction 1 as [|c a Hc Ha IH]; cbn; [done|]. by rewrite Hc. Qed.
Lemma skip_all p (l : list Z) : skip p l = [] ↔ Forall (λ c, p c = true) l.
Proof.
  split.
  - induction l as [|c l IH]; cbn; [constructor|]. destruct (p c) eqn:E; [|done]. constructor; auto.
  - intros Ha. by rewrite <- (app_nil_r l), skip_app.
Qed.
Lemma skip_split p (l : list Z) : ∃ a, l = (a ++ skip p l)%list ∧ Forall (λ c, p c = true) a.
Proof.
  induction l as [|c l (a & E & Ha)]; cbn; [by exists []|]. destruct (p c) eqn:Ec; [|by exists []].
  exists (c :: a). split; [by rewrite E at 1|]. by constructor.
Qed.
Lemma match_rest_split cmp (l : list Z) : ∃ w, l = (w ++ match_rest cmp l)%list ∧
  (tolower <$> w) `prefix_of` cmp.
Proof.
  revert l. induction cmp as [|m cmp IH]; intros [|c l]; cbn; try (exists []; split; [done|apply prefix_nil]).
  destruct (Z.eqb_spec (tolower c) m) as [<-|]; [|exists []; split; [done|apply prefix_nil]].
  destruct (IH l) as (w & E & Hw). exists (c :: w). split; [cbn; by rewrite E at 1|]. cbn. by apply prefix_cons.
Qed.
Lemma space_not_letter m c : 97 ≤ m ≤ 122 → isspace c = true → tolower c ≠ m.
Proof. unfold isspace, tolower. intros Hm. destruct (Z.eqb_spec c 32); zcases; cbn; try done; lia. Qed.
Lemma match_rest_prefix cmp : ∀ w b : list Z, (tolower <$> w) `prefix_of` cmp →
  Forall (λ c, isspace c = true) b → Forall (λ m, 97 ≤ m ≤ 122) cmp →
  match_rest cmp (w ++ b) = b.
Proof.
  induction cmp as [|m cmp IH]; intros w b Hw Hb Hm.
  - destruct w; [done|]. by apply prefix_nil_inv in Hw.
  - apply Forall_cons in Hm as [Hm Hms]. destruct w as [|c w]; cbn.
    + destruct Hb as [|c b Hc Hb]; [done|]. destruct (Z.eqb_spec (tolower c) m); [|done].
      by destruct (space_not_letter m c).
    + cbn in Hw. pose proof (prefix_cons_inv_1 _ _ _ _ Hw) as ->. rewrite Z.eqb_refl.
      apply IH; [by eapply prefix_cons_inv_2|done|done].
Qed.
Lemma skip_head p (c : Z) l : p c = false → skip p (c :: l) = c :: l.
Proof. cbn. by intros ->. Qed.
Lemma letter_not_space m c : 97 ≤ m ≤ 122 → tolower c = m → isspace c = false.
Proof. intros Hm E. destruct (isspace c) eqn:Es; [|done]. by destruct (space_not_letter m c Hm Es). Qed.
(** The words of a first letter and a prefix of the others. *)
Lemma no_word_cons c w : no_word (c :: w) ↔
  c = 110 ∧ w `prefix_of` chars "o" ∨ c = 102 ∧ w `prefix_of` chars "alse".
Proof.
  unfold no_word. split.
  - intros Hw. repeat (apply elem_of_cons in Hw as [Hw|Hw]); [..|by apply not_elem_of_nil in Hw];
      vm_compute in Hw; injection Hw as -> ->; (left + right); (split; [done|]); vm_compute;
      first [by exists [] | by eexists (_ :: []) | by eexists (_ :: _ :: []) | by eexists (_ :: _ :: _ :: [])
            | by eexists (_ :: _ :: _ :: _ :: [])].
  - intros [[-> [k E]]|[-> [k E]]]; vm_compute in E;
      repeat (destruct w as [|? w]; [subst; vm_compute; set_solver|first [discriminate E | injection E as <- E]]).
Qed.

(** C37.  [ParseBool] is false of exactly the texts that are, between blanks and
    whatever their case, a beginning of [no] or [false], or zeros: everything
    else is true, the empty text too. *)
Theorem ParseBool_spec (str : string) : ParseBool str = false ↔ says_no (chars str).
Proof.
  unfold ParseBool, says_no. set (l := chars str). clearbody l. split.
  - destruct (skip_split isspace l) as (a & E & Ha). destruct (skip isspace l) as [|c l1] eqn:Es; [done|].
    intros Hp.
    assert (∀ w b, l1 = (w ++ b)%list → skip isspace b = [] → no_word (tolower c :: (tolower <$> w)) →
      ∃ a w b, l = (a ++ w ++ b)%list ∧ Forall (λ c, isspace c = true) a ∧ Forall (λ c, isspace c = true) b ∧
        (no_word (tolower <$> w) ∨ ∃ n, w = replicate (S n) 48)) as Hgo.
    { intros w b -> Hb%skip_all Hw. exists a, (c :: w), b. split; [done|]. split; [done|]. split; [done|]. by left. }
    destruct (Z.eqb_spec (tolower c) 110) as [Ec|]; [|destruct (Z.eqb_spec (tolower c) 102) as [Ec|]].
    + destruct (match_rest_split (chars "o") l1) as (w & Ew & Hw).
      destruct (skip isspace (match_rest (chars "o") l1)) eqn:Eb; [|done].
      apply (Hgo w _ Ew Eb). apply no_word_cons. by left.
    + destruct (match_rest_split (chars "alse") l1) as (w & Ew & Hw).
      destruct (skip isspace (match_rest (chars "alse") l1)) eqn:Eb; [|done].
      apply (Hgo w _ Ew Eb). apply no_word_cons. by right.
    + destruct (Z.eqb_spec c 48) as [-> |]; [|done].
      destruct (skip_split (λ c, c =? 48) l1) as (w & Ew & Hw). set (b := skip _ l1) in *.
      destruct (skip isspace b) eqn:Eb; [|done]. apply skip_all in Eb.
      exists a, (48 :: w), b. split; [rewrite E; cbn; by f_equal; f_equal|]. split; [done|]. split; [done|]. right.
      exists (length w). cbn. f_equal. clear -Hw. induction Hw as [|c w Hc Hw IH]; cbn; [done|].
      apply Z.eqb_eq in Hc as ->. by f_equal.
  - intros (a & w & b & -> & Ha & Hb & Hw). rewrite skip_app by done. destruct Hw as [Hw|[n ->]].
    + destruct w as [|c w]; [unfold no_word in Hw; vm_compute in Hw; set_solver|].
      cbn [fmap list_fmap] in Hw. apply no_word_cons in Hw as [[Ec Hw]|[Ec Hw]].
      * cbn [app]. rewrite skip_head by (eapply letter_not_space; [|exact Ec]; lia). rewrite Ec. cbn [Z.eqb Pos.eqb].
        rewrite match_rest_prefix by (done || (repeat constructor; done)).
        by rewrite (proj2 (skip_all isspace b) Hb).
      * cbn [app]. rewrite skip_head by (eapply letter_not_space; [|exact Ec]; lia). rewrite Ec. cbn [Z.eqb Pos.eqb].
        rewrite match_rest_prefix by (done || (repeat constructor; done)).
        by rewrite (proj2 (skip_all isspace b) Hb).
    + cbn [replicate app]. rewrite skip_head by done. cbn [tolower Z.leb Z.eqb andb].
      rewrite skip_app by (clear; induction n; by constructor).
      assert (skip (λ c, c =? 48) b = b) as ->.
      { destruct Hb as [|c b Hc Hb]; [done|]. apply skip_head. destruct (Z.eqb_spec c 48); [|done]. by subst. }
      change (tolower 48) with 48. cbn [Z.eqb Pos.eqb]. by rewrite (proj2 (skip_all isspace b) Hb).
Qed.
End Var.
