(* ===== verification/RemoteServer.v ===== *)
(** [libraries/CPN/RemoteContextServer]: the server side of the remote context.

    The state is one map from keys to variants for kernels, nodes and endpoints
    together.  What the server sends is appended to [sent].  A reference into
    the map that the code keeps in a local variant shares its object with the
    entry, so an assignment through it is an assignment to the entry, unless the
    entry is null, which shares nothing. *)
From S2P Require Import Prelude Variant.
Export Var.

Module RCS.
Open Scope string_scope.
Open Scope Z_scope.

(** [RCTXMT.h] *)
Inductive RCTXMT_t :=
  | RCTXMT_SETUP_KERNEL | RCTXMT_GET_KERNEL_INFO | RCTXMT_SIGNAL_KERNEL_START
  | RCTXMT_SIGNAL_KERNEL_END | RCTXMT_CREATE_WRITER | RCTXMT_CREATE_READER
  | RCTXMT_CREATE_QUEUE | RCTXMT_CREATE_NODE | RCTXMT_CREATE_NODE_KEY
  | RCTXMT_SIGNAL_NODE_START | RCTXMT_SIGNAL_NODE_END | RCTXMT_GET_NODE_INFO
  | RCTXMT_GET_NUM_NODE_LIVE | RCTXMT_GET_CREATE_READER_KEY | RCTXMT_GET_READER_INFO
  | RCTXMT_GET_CREATE_WRITER_KEY | RCTXMT_GET_WRITER_INFO | RCTXMT_CONNECT_ENDPOINTS
  | RCTXMT_GET_READERS_WRITER | RCTXMT_GET_WRITERS_READER | RCTXMT_TERMINATE | RCTXMT_LOG.
Definition rctxmts : list RCTXMT_t :=
  [RCTXMT_SETUP_KERNEL; RCTXMT_GET_KERNEL_INFO; RCTXMT_SIGNAL_KERNEL_START;
   RCTXMT_SIGNAL_KERNEL_END; RCTXMT_CREATE_WRITER; RCTXMT_CREATE_READER;
   RCTXMT_CREATE_QUEUE; RCTXMT_CREATE_NODE; RCTXMT_CREATE_NODE_KEY;
   RCTXMT_SIGNAL_NODE_START; RCTXMT_SIGNAL_NODE_END; RCTXMT_GET_NODE_INFO;
   RCTXMT_GET_NUM_NODE_LIVE; RCTXMT_GET_CREATE_READER_KEY; RCTXMT_GET_READER_INFO;
   RCTXMT_GET_CREATE_WRITER_KEY; RCTXMT_GET_WRITER_INFO; RCTXMT_CONNECT_ENDPOINTS;
   RCTXMT_GET_READERS_WRITER; RCTXMT_GET_WRITERS_READER; RCTXMT_TERMINATE; RCTXMT_LOG].
(** The number of an enumerator is its place. *)
Definition rctxmt (t : RCTXMT_t) : Z :=
  match t with
  | RCTXMT_SETUP_KERNEL => 0 | RCTXMT_GET_KERNEL_INFO => 1 | RCTXMT_SIGNAL_KERNEL_START => 2
  | RCTXMT_SIGNAL_KERNEL_END => 3 | RCTXMT_CREATE_WRITER => 4 | RCTXMT_CREATE_READER => 5
  | RCTXMT_CREATE_QUEUE => 6 | RCTXMT_CREATE_NODE => 7 | RCTXMT_CREATE_NODE_KEY => 8
  | RCTXMT_SIGNAL_NODE_START => 9 | RCTXMT_SIGNAL_NODE_END => 10 | RCTXMT_GET_NODE_INFO => 11
  | RCTXMT_GET_NUM_NODE_LIVE => 12 | RCTXMT_GET_CREATE_READER_KEY => 13
  | RCTXMT_GET_READER_INFO => 14 | RCTXMT_GET_CREATE_WRITER_KEY => 15
  | RCTXMT_GET_WRITER_INFO => 16 | RCTXMT_CONNECT_ENDPOINTS => 17
  | RCTXMT_GET_READERS_WRITER => 18 | RCTXMT_GET_WRITERS_READER => 19
  | RCTXMT_TERMINATE => 20 | RCTXMT_LOG => 21
  end.
Definition rctxmt_of (z : Z) : option RCTXMT_t := if z <? 0 then None else rctxmts !! Z.to_nat z.

Lemma rctxmt_of_code t : rctxmt_of (rctxmt t) = Some t.
Proof. by destruct t. Qed.
Lemma rctxmt_range t : 0 ≤ rctxmt t < 18446744073709551616.
Proof. by destruct t. Qed.

Section server.
Context {F : Type} `{LongDouble F}.
Notation V := (Variant F).

Inductive output :=
  | Send (recipient : string) (msg : V) | Broadcast (msg : V) | LogMessage (msg : string).

Record server := mk {
  datamap : gmap Z V; kernelmap : gmap string Z; nodemap : gmap string Z;
  shutdown : bool; numlivenodes : Z; keycount : Z; sent : list output }.

Definition make : server := mk ∅ ∅ ∅ false 0 0 [].

Definition set_data s m := mk m (kernelmap s) (nodemap s) (shutdown s) (numlivenodes s)
  (keycount s) (sent s).
Definition set_kernelmap s m := mk (datamap s) m (nodemap s) (shutdown s) (numlivenodes s)
  (keycount s) (sent s).
Definition set_nodemap s m := mk (datamap s) (kernelmap s) m (shutdown s) (numlivenodes s)
  (keycount s) (sent s).
Definition set_shutdown s := mk (datamap s) (kernelmap s) (nodemap s) true (numlivenodes s)
  (keycount s) (sent s).
Definition set_numlivenodes s n := mk (datamap s) (kernelmap s) (nodemap s) (shutdown s) n
  (keycount s) (sent s).
Definition set_keycount s c := mk (datamap s) (kernelmap s) (nodemap s) (shutdown s)
  (numlivenodes s) c (sent s).
Definition set_sent s o := mk (datamap s) (kernelmap s) (nodemap s) (shutdown s)
  (numlivenodes s) (keycount s) o.

Definition Op := M server.

Definition emit (o : output) : Op unit := mmodify (λ s, set_sent s (sent s ++ [o])).
Definition SendMessage (recipient : string) (msg : V) : Op unit := emit (Send recipient msg).
Definition BroadcastMessage (msg : V) : Op unit := emit (Broadcast msg).

(** [msg["k"]] of the const message, and what is made of it. *)
Definition arg (msg : V) (k : string) : Op V := mlift (At msg k).
Definition arg_string (msg : V) (k : string) : Op string := v ← arg msg k; mlift (AsString v).
Definition arg_key (msg : V) (k : string) : Op Z := v ← arg msg k; mlift (AsNumber v).
Definition set (v : V) (k : string) (x : V) : Op V := mlift (Set_at v k x).

(** [datamap[k]], [datamap[k] = v] and an assignment through the object that a
    local variant [old] shares with the entry. *)
Definition data_ref (k : Z) : Op V :=
  s ← mget;
  match datamap s !! k with
  | Some v => mret v
  | None => mput (set_data s (<[k := VNull]> (datamap s))) ;; mret VNull
  end.
Definition put_data (k : Z) (v : V) : Op unit := mmodify (λ s, set_data s (<[k := v]> (datamap s))).
Definition put_shared (k : Z) (old v : V) : Op unit :=
  match old with VNull => mret tt | _ => put_data k v end.
(** [local["field"]] of a local variant that shares its object with entry [k]. *)
Definition field_ref (k : Z) (local : V) (field : string) : Op (V * V) :=
  '(v, x) ← mlift (At_ref local field); put_shared k local v ;; mret (v, x).
(** [ASSERT(local["type"].AsString() == t)] *)
Definition check_type (k : Z) (local : V) (t : string) : Op V :=
  '(v, x) ← field_ref k local "type";
  s ← mlift (AsString x); massert (String.eqb s t) ;; mret v.
(** The name, an argument of [dbprintf]. *)
Definition print_name (k : Z) (local : V) : Op V :=
  '(v, x) ← field_ref k local "name"; _ ← mlift (AsString x); mret v.

Definition NewKey : Op Z :=
  s ← mget; mput (set_keycount s (u64 (keycount s + 1))) ;; mret (u64 (keycount s + 1)).
Definition NewBroadcastMessage : Op V :=
  s ← mget; mret (obj [("msgtype", VString "broadcast"); ("numlivenodes", of_Z (numlivenodes s))]).
Definition Terminate : Op unit :=
  BroadcastMessage (obj [("type", of_Z (rctxmt RCTXMT_TERMINATE))]) ;; mmodify set_shutdown.

Definition new_reply (msg : V) : Op V :=
  msgid ← arg msg "msgid"; mret (obj [("msgid", msgid); ("msgtype", VString "reply")]).

Definition SetupKernel (sender : string) (msg : V) : Op unit :=
  name ← arg_string msg "name";
  reply ← new_reply msg;
  s ← mget;
  match kernelmap s !! name with
  | Some _ => mret tt
  | None =>
    kernelkey ← NewKey;
    hostname ← arg msg "hostname";
    servname ← arg msg "servname";
    let kernelinfo := obj [("key", of_Z kernelkey); ("name", VString name);
      ("hostname", hostname); ("servname", servname); ("live", VFalse);
      ("type", VString "kernelinfo"); ("client", VString sender)] in
    mmodify (λ s, match datamap s !! kernelkey with        (** [insert] *)
                  | Some _ => s
                  | None => set_data s (<[kernelkey := kernelinfo]> (datamap s))
                  end) ;;
    mmodify (λ s, set_kernelmap s (<[name := kernelkey]> (kernelmap s))) ;;
    reply ← set reply "success" VTrue;
    reply ← set reply "kernelinfo" kernelinfo;
    SendMessage sender reply
  end.

(** [SignalKernelStart] and [SignalKernelEnd] *)
Definition signal_kernel (live : V) (msg : V) : Op unit :=
  kernelkey ← arg_key msg "key";
  kernelinfo ← data_ref kernelkey;
  kernelinfo ← check_type kernelkey kernelinfo "kernelinfo";
  kernelinfo ← set kernelinfo "live" live;
  put_data kernelkey kernelinfo ;;
  kernelinfo ← print_name kernelkey kernelinfo;
  notice ← NewBroadcastMessage;
  notice ← set notice "kernelinfo" kernelinfo;
  BroadcastMessage notice.
Definition SignalKernelStart : V → Op unit := signal_kernel VTrue.
Definition SignalKernelEnd : V → Op unit := signal_kernel VFalse.

Definition GetKernelInfo (sender : string) (msg : V) : Op unit :=
  msgid ← arg msg "msgid";
  let reply := obj [("msgtype", VString "reply"); ("msgid", msgid); ("success", VFalse)] in
  name ← arg msg "name";
  kernelkey ← (if IsString name then
                 n ← mlift (AsString name);
                 s ← mget; mret (kernelmap s !! n)
               else k ← arg_key msg "key"; mret (Some k));
  match kernelkey with
  | None => SendMessage sender reply
  | Some kernelkey =>
    s ← mget;
    match datamap s !! kernelkey with
    | Some entry =>
      '(entry, t) ← mlift (At_ref entry "type");
      put_data kernelkey entry ;;
      t ← mlift (AsString t);
      massert (String.eqb t "kernelinfo") ;;
      reply ← set reply "success" VTrue;
      reply ← set reply "kernelinfo" entry;
      SendMessage sender reply
    | None => SendMessage sender reply
    end
  end.

Definition CreateNodeKey (sender : string) (msg : V) : Op unit :=
  nodename ← arg_string msg "name";
  reply ← new_reply msg;
  s ← mget;
  match nodemap s !! nodename with
  | Some _ => reply ← set reply "success" VFalse; SendMessage sender reply
  | None =>
    nodekey ← NewKey;
    kernelkey ← arg msg "kernelkey";
    let nodeinfo := obj [("name", VString nodename); ("key", of_Z nodekey);
      ("kernelkey", kernelkey); ("started", VFalse); ("dead", VFalse);
      ("type", VString "nodeinfo"); ("endpoints", VObject [])] in
    mmodify (λ s, set_nodemap s (<[nodename := nodekey]> (nodemap s))) ;;
    put_data nodekey nodeinfo ;;
    reply ← set reply "success" VTrue;
    reply ← set reply "nodeinfo" nodeinfo;
    SendMessage sender reply
  end.

(** [SignalNodeStart] and [SignalNodeEnd] *)
Definition signal_node (change : Z) (field : string) (msg : V) : Op unit :=
  mmodify (λ s, set_numlivenodes s (u32 (numlivenodes s + change))) ;;
  nodekey ← arg_key msg "key";
  nodeinfo ← data_ref nodekey;
  nodeinfo ← check_type nodekey nodeinfo "nodeinfo";
  nodeinfo ← set nodeinfo field VTrue;
  put_data nodekey nodeinfo ;;
  nodeinfo ← print_name nodekey nodeinfo;
  notice ← NewBroadcastMessage;
  notice ← set notice "nodeinfo" nodeinfo;
  BroadcastMessage notice.
Definition SignalNodeStart : V → Op unit := signal_node 1 "started".
Definition SignalNodeEnd : V → Op unit := signal_node (-1) "dead".

Definition GetNodeInfo (sender : string) (msg : V) : Op unit :=
  msgid ← arg msg "msgid";
  let reply := obj [("msgtype", VString "reply"); ("msgid", msgid); ("success", VFalse)] in
  name ← arg msg "name";
  nodekey ← (if IsString name then
               n ← mlift (AsString name);
               s ← mget; mret (nodemap s !! n)
             else k ← arg_key msg "key"; mret (Some k));
  match nodekey with
  | None => SendMessage sender reply
  | Some nodekey =>
    s ← mget;
    match datamap s !! nodekey with
    | Some entry =>
      '(entry, t) ← mlift (At_ref entry "type");          (** of the copy *)
      reply ← set reply "nodeinfo" entry;
      t ← mlift (AsString t);
      massert (String.eqb t "nodeinfo") ;;
      reply ← set reply "success" VTrue;
      SendMessage sender reply
    | None => SendMessage sender reply
    end
  end.

Definition GetNumNodeLive (sender : string) (msg : V) : Op unit :=
  reply ← new_reply msg;
  s ← mget;
  reply ← set reply "numlivenodes" (of_Z (numlivenodes s));
  reply ← set reply "success" VTrue;
  SendMessage sender reply.

Definition GetCreateEndpointKey (sender : string) (msg : V) : Op unit :=
  name ← arg_string msg "name";
  reply ← new_reply msg;
  reply ← set reply "success" VFalse;
  nodekey ← arg_key msg "nodekey";
  s ← mget;
  match datamap s !! nodekey with
  | Some nodeinfo =>
    '(nodeinfo', endpoints) ← field_ref nodekey nodeinfo "endpoints";
    '(endpoints, ep) ← mlift (At_ref endpoints name);
    nodeinfo' ← set nodeinfo' "endpoints" endpoints;
    put_shared nodekey nodeinfo nodeinfo' ;;
    epinfo ← (if IsNumber ep then
                epkey ← mlift (AsNumber ep);
                epinfo ← data_ref epkey;
                check_type epkey epinfo "endpointinfo"
              else
                epkey ← NewKey;
                endpoints ← set endpoints name (of_Z epkey);
                nodeinfo' ← set nodeinfo' "endpoints" endpoints;
                put_shared nodekey nodeinfo nodeinfo' ;;
                '(nodeinfo', kernelkey) ← mlift (At_ref nodeinfo' "kernelkey");
                put_shared nodekey nodeinfo nodeinfo' ;;
                let epinfo := obj [("key", of_Z epkey); ("name", VString name);
                  ("nodekey", of_Z nodekey); ("kernelkey", kernelkey); ("live", VTrue);
                  ("type", VString "endpointinfo")] in
                put_data epkey epinfo ;; mret epinfo);
    reply ← set reply "endpointinfo" epinfo;
    reply ← set reply "success" VTrue;
    SendMessage sender reply
  | None => SendMessage sender reply
  end.

Definition GetEndpointInfo (sender : string) (msg : V) : Op unit :=
  epkey ← arg_key msg "key";
  reply ← new_reply msg;
  reply ← set reply "success" VFalse;
  s ← mget;
  match datamap s !! epkey with
  | Some entry =>
    reply ← set reply "success" VTrue;
    '(entry, t) ← mlift (At_ref entry "type");            (** of the copy *)
    reply ← set reply "endpointinfo" entry;
    t ← mlift (AsString t);
    massert (String.eqb t "endpointinfo") ;;
    SendMessage sender reply
  | None => SendMessage sender reply
  end.

(** [datamap[k]["field"] = x] *)
Definition assign (k : Z) (field : string) (x : V) : Op unit :=
  v ← data_ref k; v ← set v field x; put_data k v.
Definition ConnectEndpoints (msg : V) : Op unit :=
  wkey ← arg_key msg "writerkey";
  rkey ← arg_key msg "readerkey";
  qname ← arg_string msg "qname";
  assign wkey "readerkey" (of_Z rkey) ;;
  assign rkey "writerkey" (of_Z wkey) ;;
  assign rkey "qname" (VString qname) ;;
  assign wkey "qname" (VString qname).

Definition RouteKernelMessage (msg : V) : Op unit :=
  kernelkey ← arg_key msg "kernelkey";
  kernelinfo ← data_ref kernelkey;
  '(_, client) ← field_ref kernelkey kernelinfo "client";
  client ← mlift (AsString client);
  SendMessage client msg.

Definition DispatchMessage (sender : string) (msg : V) : Op unit :=
  s ← mget;
  if shutdown s then mret tt else
  type ← arg_key msg "type";
  match rctxmt_of type with
  | Some RCTXMT_SETUP_KERNEL => SetupKernel sender msg
  | Some RCTXMT_SIGNAL_KERNEL_START => SignalKernelStart msg
  | Some RCTXMT_SIGNAL_KERNEL_END => SignalKernelEnd msg
  | Some RCTXMT_GET_KERNEL_INFO => GetKernelInfo sender msg
  | Some (RCTXMT_CREATE_WRITER | RCTXMT_CREATE_READER | RCTXMT_CREATE_QUEUE | RCTXMT_CREATE_NODE) =>
    RouteKernelMessage msg
  | Some RCTXMT_CREATE_NODE_KEY => CreateNodeKey sender msg
  | Some RCTXMT_SIGNAL_NODE_START => SignalNodeStart msg
  | Some RCTXMT_SIGNAL_NODE_END => SignalNodeEnd msg
  | Some RCTXMT_GET_NODE_INFO => GetNodeInfo sender msg
  | Some RCTXMT_GET_NUM_NODE_LIVE => GetNumNodeLive sender msg
  | Some (RCTXMT_GET_CREATE_READER_KEY | RCTXMT_GET_CREATE_WRITER_KEY) =>
    GetCreateEndpointKey sender msg
  | Some (RCTXMT_GET_READER_INFO | RCTXMT_GET_WRITER_INFO) => GetEndpointInfo sender msg
  | Some RCTXMT_CONNECT_ENDPOINTS => ConnectEndpoints msg
  | Some RCTXMT_TERMINATE => Terminate
  | Some RCTXMT_LOG =>
    text ← arg_string msg "msg"; emit (LogMessage (sender +:+ ":" +:+ text))
  | _ => mthrow AssertFailed
  end.
End server.
Arguments output : clear implicits.
Arguments server : clear implicits.
End RCS.
