(* ===== verification/RemoteClient.v ===== *)
(** [libraries/CPN/RemoteContextClient]: the client side of the remote context.

    An operation runs under the lock of the client up to a wait on a condition
    variable, which gives the lock up, so it is a program ([prog]) of steps on
    the client and of waits.  A wait is its loop: [Await] runs one test of the
    loop, [None] meaning that the thread sleeps (again); the test is told
    whether the thread has been woken.

    A [WaiterInfo] lives on the stack of [RemoteCall] and [callwaiters] has its
    address; a [GenericWaiter] lives as long as the call that made it and
    [waiters] has weak pointers.  Addresses are numbers, and both kinds of
    object go when their function is left.  [SendMessage] appends to [sent],
    and the calls of kernels are appended to [calls]. *)
From S2P Require Import Prelude Variant RemoteServer.

Module RCC.
Import RCS.
Open Scope string_scope.
Open Scope Z_scope.

Section client.
Context {F : Type} `{LongDouble F}.
Notation V := (Variant F).

Record SimpleQueueAttr := mk_queueattr {
  q_hint : Z; q_datatype : string; q_length : Z; q_maxThreshold : Z; q_numChannels : Z;
  q_alpha : F;                            (** a [double], as the [long double] it is *)
  q_readerkey : Z; q_writerkey : Z; q_readernodekey : Z; q_writernodekey : Z;
  q_maxwritethreshold : Z }.
Record NodeAttr := mk_nodeattr {
  a_kernelname : string; a_kernelkey : Z; a_name : string; a_nodetype : string;
  a_params : list (string * string); a_key : Z }.

(** The methods of [KernelBase] that are called. *)
Inductive kernel_call :=
  | RemoteCreateNode (attr : NodeAttr) | RemoteCreateQueue (attr : SimpleQueueAttr)
  | RemoteCreateWriter (attr : SimpleQueueAttr) | RemoteCreateReader (attr : SimpleQueueAttr)
  | NotifyTerminate.

Record client := mk {
  trancounter : Z; shutdown : bool; loglevel : Z; kernels : gmap Z Z;
  callwaiters : gmap Z Z; waiters : list Z;
  winfos : gmap Z (option V);            (** [WaiterInfo]: the message when [signaled] *)
  queues : gmap Z (list V);              (** [GenericWaiter] *)
  fresh : Z;                             (** the next address *)
  signalled : list Z;                    (** whose condition variable was signalled *)
  sent : list V; calls : list (Z * kernel_call) }.

(** The constructor; the level is [Logger::WARNING]. *)
Definition make : client := mk 0 false 75 ∅ ∅ [] ∅ ∅ 1 [] [] [].

Definition set_trancounter c n := mk n (shutdown c) (loglevel c) (kernels c) (callwaiters c)
  (waiters c) (winfos c) (queues c) (fresh c) (signalled c) (sent c) (calls c).
Definition set_shutdown c := mk (trancounter c) true (loglevel c) (kernels c) (callwaiters c)
  (waiters c) (winfos c) (queues c) (fresh c) (signalled c) (sent c) (calls c).
Definition set_loglevel c l := mk (trancounter c) (shutdown c) l (kernels c) (callwaiters c)
  (waiters c) (winfos c) (queues c) (fresh c) (signalled c) (sent c) (calls c).
Definition set_kernels c k := mk (trancounter c) (shutdown c) (loglevel c) k (callwaiters c)
  (waiters c) (winfos c) (queues c) (fresh c) (signalled c) (sent c) (calls c).
Definition set_callwaiters c w := mk (trancounter c) (shutdown c) (loglevel c) (kernels c) w
  (waiters c) (winfos c) (queues c) (fresh c) (signalled c) (sent c) (calls c).
Definition set_waiters c w := mk (trancounter c) (shutdown c) (loglevel c) (kernels c)
  (callwaiters c) w (winfos c) (queues c) (fresh c) (signalled c) (sent c) (calls c).
Definition set_winfos c w := mk (trancounter c) (shutdown c) (loglevel c) (kernels c)
  (callwaiters c) (waiters c) w (queues c) (fresh c) (signalled c) (sent c) (calls c).
Definition set_queues c q := mk (trancounter c) (shutdown c) (loglevel c) (kernels c)
  (callwaiters c) (waiters c) (winfos c) q (fresh c) (signalled c) (sent c) (calls c).
Definition set_fresh c a := mk (trancounter c) (shutdown c) (loglevel c) (kernels c)
  (callwaiters c) (waiters c) (winfos c) (queues c) a (signalled c) (sent c) (calls c).
Definition set_signalled c l := mk (trancounter c) (shutdown c) (loglevel c) (kernels c)
  (callwaiters c) (waiters c) (winfos c) (queues c) (fresh c) l (sent c) (calls c).
Definition set_sent c l := mk (trancounter c) (shutdown c) (loglevel c) (kernels c)
  (callwaiters c) (waiters c) (winfos c) (queues c) (fresh c) (signalled c) l (calls c).
Definition set_calls c l := mk (trancounter c) (shutdown c) (loglevel c) (kernels c)
  (callwaiters c) (waiters c) (winfos c) (queues c) (fresh c) (signalled c) (sent c) l.

Definition Op := M client.

Definition SendMessage (msg : V) : Op unit := mmodify (λ c, set_sent c (sent c ++ [msg])).
Definition Signal (a : Z) : Op unit := mmodify (λ c, set_signalled c (signalled c ++ [a])).
Definition call_kernel (kernel : Z) (k : kernel_call) : Op unit :=
  mmodify (λ c, set_calls c (calls c ++ [(kernel, k)])).
Definition new_address : Op Z := c ← mget; mput (set_fresh c (fresh c + 1)) ;; mret (fresh c).

(** ** Programs *)
Inductive prog (A : Type) : Type :=
  | Done (r : res A)
  | Do {B : Type} (m : Op B) (k : B → prog A)
  | Await {B : Type} (turn : bool → Op (option B)) (k : B → prog A).
Arguments Done {A} r.
Arguments Do {A B} m k.
Arguments Await {A B} turn k.

Fixpoint pbind {A B} (p : prog A) (f : A → prog B) : prog B :=
  match p with
  | Done (Ok a) => f a
  | Done (Err e) => Done (Err e)
  | Do m k => Do m (λ b, pbind (k b) f)
  | Await turn k => Await turn (λ b, pbind (k b) f)
  end.
Definition ret {A} (a : A) : prog A := Done (Ok a).
Definition lift {A} (m : Op A) : prog A := Do m ret.

(** A destructor: [clean] when the program is left, by return or exception. *)
Definition catch {A} (clean : client → client) (m : Op A) : Op A := λ c,
  match m c with (Err e, c) => (Err e, clean c) | r => r end.
Fixpoint protect {A} (clean : client → client) (p : prog A) : prog A :=
  match p with
  | Done r => Do (mmodify clean) (λ _, Done r)
  | Do m k => Do (catch clean m) (λ b, protect clean (k b))
  | Await turn k => Await (λ w, catch clean (turn w)) (λ b, protect clean (k b))
  end.
(** [try { p } catch (const ShutdownException &e) { q }] *)
Definition no_shutdown {A} (m : Op A) : Op (option A) := λ c,
  match m c with
  | (Ok a, c) => (Ok (Some a), c)
  | (Err Shutdown, c) => (Ok None, c)
  | (Err e, c) => (Err e, c)
  end.
Fixpoint try {A} (p : prog A) (q : prog A) : prog A :=
  match p with
  | Done (Err Shutdown) => q
  | Done r => Done r
  | Do m k => Do (no_shutdown m) (λ o, match o with Some b => try (k b) q | None => q end)
  | Await turn k =>
    Await (λ w c, match no_shutdown (turn w) c with
                  | (Ok (Some (Some b)), c) => (Ok (Some (Some b)), c)
                  | (Ok (Some None), c) => (Ok None, c)
                  | (Ok None, c) => (Ok (Some None), c)
                  | (Err e, c) => (Err e, c)
                  end)
          (λ o, match o with Some b => try (k b) q | None => q end)
  end.

(** What a thread does while it holds the lock. *)
Inductive paused (A : Type) : Type :=
  | Finished (r : res A)
  | Sleeping {B : Type} (turn : bool → Op (option B)) (k : B → prog A).
Arguments Finished {A} r.
Arguments Sleeping {A B} turn k.
Fixpoint run {A} (p : prog A) (c : client) : paused A * client :=
  match p with
  | Done r => (Finished r, c)
  | Do m k => match m c with
              | (Ok b, c) => run (k b) c
              | (Err e, c) => (Finished (Err e), c)
              end
  | Await turn k => match turn false c with
                    | (Ok (Some b), c) => run (k b) c
                    | (Ok None, c) => (Sleeping turn k, c)
                    | (Err e, c) => (Finished (Err e), c)
                    end
  end.
(** The same when it is woken. *)
Definition resume {A} (p : paused A) (c : client) : paused A * client :=
  match p with
  | Finished r => (Finished r, c)
  | Sleeping turn k => match turn true c with
                       | (Ok (Some b), c) => run (k b) c
                       | (Ok None, c) => (Sleeping turn k, c)
                       | (Err e, c) => (Finished (Err e), c)
                       end
  end.

(** ** Waiters *)
Definition InternalCheckTerminated : Op unit :=
  c ← mget; if shutdown c then mthrow Shutdown else mret tt.
Definition NewTranID : Op Z :=
  c ← mget; mput (set_trancounter c (u32 (trancounter c + 1))) ;; mret (u32 (trancounter c + 1)).
(** [insert] *)
Definition AddWaiter (id a : Z) : Op unit :=
  mmodify (λ c, match callwaiters c !! id with
                | Some _ => c
                | None => set_callwaiters c (<[id := a]> (callwaiters c))
                end).
Definition NewGenericWaiter : Op Z :=
  a ← new_address;
  mmodify (λ c, set_queues c (<[a := []]> (queues c))) ;;
  mmodify (λ c, set_waiters c (waiters c ++ [a])) ;; mret a.
Definition end_winfo (a : Z) (c : client) : client := set_winfos c (delete a (winfos c)).
Definition end_waiter (a : Z) (c : client) : client := set_queues c (delete a (queues c)).

Definition RemoteCall (msg : V) : prog V :=
  Do (id ← NewTranID; a ← new_address;
      mmodify (λ c, set_winfos c (<[a := None]> (winfos c))) ;;
      AddWaiter id a ;;
      msg ← mlift (Set_at msg "msgid" (of_Z id));
      SendMessage msg ;; mret a) (λ a,
  protect (end_winfo a) (
    Await (λ woken : bool,
      (if woken then InternalCheckTerminated else mret tt) ;;
      c ← mget; mret (mjoin (winfos c !! a))) ret)).

(** The loop over the messages of a generic waiter: [found] is what the body
    returns the function with. *)
Fixpoint scan {B} (a : Z) (found : V → res (option B)) (l : list V) : Op (option B) :=
  match l with
  | [] => mret None
  | msg :: l =>
    mmodify (λ c, set_queues c (<[a := l]> (queues c))) ;;
    o ← mlift (found msg);
    match o with Some b => mret (Some b) | None => scan a found l end
  end.
Definition scan_queue {B} (a : Z) (found : V → res (option B)) : Op (option B) :=
  c ← mget; scan a found (default [] (queues c !! a)).
(** [shared_ptr<GenericWaiter> genwait = NewGenericWaiter()] *)
Definition with_waiter {A} (body : Z → prog A) : prog A :=
  Do NewGenericWaiter (λ a, protect (end_waiter a) (body a)).
(** The loop with a check for termination after the wait. *)
Definition wait_for {A} (a : Z) (found : V → res (option A)) : prog A :=
  Await (λ woken : bool, (if woken then InternalCheckTerminated else mret tt) ;; scan_queue a found) ret.
(** The same with [if (shutdown) { return; }]. *)
Definition wait_until_shutdown (a : Z) (found : V → res (option unit)) : prog unit :=
  Await (λ woken : bool,
    c ← mget; if woken && shutdown c then mret (Some tt) else scan_queue a found) ret.

(** ** Fields of replies *)
Definition field (v : V) (k : string) : prog V := lift (mlift ('(_, x) ← At_ref v k; Ok x)).
Definition key_field (v : V) (k : string) : prog Z :=
  lift (mlift ('(_, x) ← At_ref v k; AsNumber x)).
Definition string_field (v : V) (k : string) : prog string :=
  lift (mlift ('(_, x) ← At_ref v k; AsString x)).
Definition true_field (v : V) (k : string) : res bool := '(_, x) ← At_ref v k; Ok (IsTrue x).
Definition success (reply : V) : prog bool := lift (mlift (true_field reply "success")).
(** [if (!reply["success"].IsTrue()) throw std::invalid_argument(..)] *)
Definition succeeds (reply : V) : prog unit :=
  pbind (success reply) (λ b, if b then ret tt else Done (Err InvalidArgument)).

Definition request (t : RCTXMT_t) (l : list (string * V)) : V := obj (("type", of_Z (rctxmt t)) :: l).
Notation "x <- p ;; q" := (pbind p (λ x, q)) (at level 100, p at next level, right associativity).
Notation "p ;;; q" := (pbind p (λ _, q)) (at level 100, right associativity).
Definition checked {A} (p : prog A) : prog A := Do InternalCheckTerminated (λ _, p).

(** ** Logging *)
Definition LogLevel : prog Z := lift (c ← mget; mret (loglevel c)).
Definition SetLogLevel (level : Z) : prog Z := lift (mmodify (λ c, set_loglevel c level) ;; mret level).
Definition Log (level : Z) (logmsg : string) : prog unit :=
  lift (c ← mget;
        if loglevel c <=? level then SendMessage (request RCTXMT_LOG [("msg", VString logmsg)])
        else mret tt).

(** ** Kernels *)
Definition SetupKernel (name hostname servname : string) (kernel : Z) : prog Z :=
  checked (
  if kernel =? 0 then Done (Err InvalidArgument) else
  reply <- RemoteCall (request RCTXMT_SETUP_KERNEL
    [("name", VString name); ("hostname", VString hostname); ("servname", VString servname)]);;
  succeeds reply;;;
  info <- field reply "kernelinfo";;
  key <- key_field info "key";;
  lift (mmodify (λ c, match kernels c !! key with
                      | Some _ => c
                      | None => set_kernels c (<[key := kernel]> (kernels c))
                      end));;;
  ret key).
(** The overload without a host: [ASSERT(false)]. *)
Definition SetupKernel_local (name : string) (kernel : Z) : prog Z := Done (Err AssertFailed).

Definition kernel_info (l : list (string * V)) : prog V :=
  checked (reply <- RemoteCall (request RCTXMT_GET_KERNEL_INFO l);;
           succeeds reply;;; field reply "kernelinfo").
Definition GetKernelKey (kernel : string) : prog Z :=
  info <- kernel_info [("name", VString kernel)];; key_field info "key".
Definition GetKernelName (kernelkey : Z) : prog string :=
  info <- kernel_info [("key", of_Z kernelkey)];; string_field info "name".
Definition GetKernelConnectionInfo (kernelkey : Z) : prog (string * string) :=
  info <- kernel_info [("key", of_Z kernelkey)];;
  hostname <- string_field info "hostname";;
  servname <- string_field info "servname";; ret (hostname, servname).
Definition SignalKernelEnd (kernelkey : Z) : prog unit :=
  lift (SendMessage (request RCTXMT_SIGNAL_KERNEL_END [("key", of_Z kernelkey)]) ;;
        mmodify (λ c, set_kernels c (delete kernelkey (kernels c)))).
Definition SignalKernelStart (kernelkey : Z) : prog unit :=
  checked (lift (SendMessage (obj [("key", of_Z kernelkey);
                                   ("type", of_Z (rctxmt RCTXMT_SIGNAL_KERNEL_START))]))).

(** [if (msg[info].IsObject()) ..]: the body of the loops that look for a kernel
    or a node of a name. *)
Definition about (info : string) (field : string) (name : string) (msg : V) : res (option V) :=
  '(_, x) ← At_ref msg info;
  if IsObject x then
    '(_, n) ← At_ref x "name"; n ← AsString n;
    b ← true_field x field;
    Ok (if String.eqb n name && b then Some x else None)
  else Ok None.
Definition found_key (info field name : string) (msg : V) : res (option Z) :=
  o ← about info field name msg;
  match o with
  | Some x => '(_, k) ← At_ref x "key"; k ← AsNumber k; Ok (Some k)
  | None => Ok None
  end.

Definition WaitForKernelStart (kernel : string) : prog Z :=
  checked (with_waiter (λ genwait,
  reply <- RemoteCall (request RCTXMT_GET_KERNEL_INFO [("name", VString kernel)]);;
  known <- success reply;;
  kernelinfo <- (if known : bool then field reply "kernelinfo" else ret VNull);;
  live <- (if known : bool then lift (mlift (true_field kernelinfo "live")) else ret false);;
  if live : bool then key_field kernelinfo "key"
  else wait_for genwait (found_key "kernelinfo" "live" kernel))).

(** ** Messages to other kernels *)
Definition queueattr_msg (attr : SimpleQueueAttr) : V :=
  obj [("queuehint", of_Z (q_hint attr)); ("datatype", VString (q_datatype attr));
       ("queueLength", of_Z (q_length attr)); ("maxThreshold", of_Z (q_maxThreshold attr));
       ("numChannels", of_Z (q_numChannels attr)); ("readerkey", of_Z (q_readerkey attr));
       ("writerkey", of_Z (q_writerkey attr)); ("readernodekey", of_Z (q_readernodekey attr));
       ("writernodekey", of_Z (q_writernodekey attr)); ("alpha", VNumber (q_alpha attr));
       ("maxwritethreshold", of_Z (q_maxwritethreshold attr))].
Definition SendQueueMsg (kernelkey : Z) (msgtype : RCTXMT_t) (attr : SimpleQueueAttr) : Op unit :=
  SendMessage (obj [("msgtype", VString "kernel"); ("type", of_Z (rctxmt msgtype));
                    ("kernelkey", of_Z kernelkey); ("queueattr", queueattr_msg attr)]).
Definition SendCreateWriter (kernelkey : Z) (attr : SimpleQueueAttr) : prog unit :=
  checked (lift (SendQueueMsg kernelkey RCTXMT_CREATE_WRITER attr)).
Definition SendCreateReader (kernelkey : Z) (attr : SimpleQueueAttr) : prog unit :=
  checked (lift (SendQueueMsg kernelkey RCTXMT_CREATE_READER attr)).
Definition SendCreateQueue (kernelkey : Z) (attr : SimpleQueueAttr) : prog unit :=
  checked (lift (SendQueueMsg kernelkey RCTXMT_CREATE_QUEUE attr)).

(** [nodeattr["param"][i->first] = i->second] *)
Definition put_param (nodeattr : V) (p : string * string) : res V :=
  '(nodeattr, params) ← At_ref nodeattr "param";
  params ← Set_at params p.1 (VString p.2);
  Set_at nodeattr "param" params.
Fixpoint put_params (nodeattr : V) (l : list (string * string)) : res V :=
  match l with [] => Ok nodeattr | p :: l => v ← put_param nodeattr p; put_params v l end.
Definition nodeattr_msg (kernelkey : Z) (attr : NodeAttr) : res V :=
  nodeattr ← put_params (obj [("kernelkey", of_Z kernelkey); ("kernel", VString (a_kernelname attr));
                              ("name", VString (a_name attr)); ("nodetype", VString (a_nodetype attr))])
                        (a_params attr);
  Set_at nodeattr "key" (of_Z (a_key attr)).
Definition SendCreateNode (kernelkey : Z) (attr : NodeAttr) : prog unit :=
  checked (lift (
    nodeattr ← mlift (nodeattr_msg kernelkey attr);
    SendMessage (obj [("msgtype", VString "kernel"); ("type", of_Z (rctxmt RCTXMT_CREATE_NODE));
                      ("kernelkey", of_Z kernelkey); ("nodeattr", nodeattr)]))).

Definition at_string (v : V) (k : string) : res string := x ← At v k; AsString x.
Definition at_key (v : V) (k : string) : res Z := x ← At v k; AsNumber x.
Definition at_unsigned (v : V) (k : string) : res Z := x ← At v k; AsUnsigned x.
Fixpoint set_params (m : list (string * string)) (l : list (string * V)) : res (list (string * string)) :=
  match l with
  | [] => Ok m
  | (k, v) :: l => s ← AsString v; set_params (map_assign k s m) l
  end.
Definition MsgToNodeAttr (msg : V) : res NodeAttr :=
  name ← at_string msg "name"; nodetype ← at_string msg "nodetype";
  kernel ← at_string msg "kernel"; key ← at_key msg "key";
  param ← At msg "param";
  params ← match param with VObject l => set_params [] l | _ => Ok [] end;
  Ok (mk_nodeattr kernel 0 name nodetype params key).
Definition MsgToQueueAttr (msg : V) : res SimpleQueueAttr :=
  hint ← at_key msg "queuehint"; datatype ← at_string msg "datatype";
  length ← at_unsigned msg "queueLength"; maxThreshold ← at_unsigned msg "maxThreshold";
  numChannels ← at_unsigned msg "numChannels";
  readerkey ← at_key msg "readerkey"; writerkey ← at_key msg "writerkey";
  readernodekey ← at_key msg "readernodekey"; writernodekey ← at_key msg "writernodekey";
  alpha ← At msg "alpha"; alpha ← AsLongDouble alpha;
  maxwritethreshold ← at_unsigned msg "maxwritethreshold";
  Ok (mk_queueattr hint datatype length maxThreshold numChannels alpha readerkey writerkey
        readernodekey writernodekey maxwritethreshold).

(** ** Nodes *)
Definition CreateNodeKey (kernelkey : Z) (nodename : string) : prog Z :=
  checked (reply <- RemoteCall (request RCTXMT_CREATE_NODE_KEY
             [("kernelkey", of_Z kernelkey); ("name", VString nodename)]);;
           succeeds reply;;;
           info <- field reply "nodeinfo";; key_field info "key").
Definition node_info (l : list (string * V)) : prog V :=
  checked (reply <- RemoteCall (request RCTXMT_GET_NODE_INFO l);;
           succeeds reply;;; field reply "nodeinfo").
Definition GetNodeKey (nodename : string) : prog Z :=
  info <- node_info [("name", VString nodename)];; key_field info "key".
Definition GetNodeName (nodekey : Z) : prog string :=
  info <- node_info [("key", of_Z nodekey)];; string_field info "name".
Definition GetNodeKernel (nodekey : Z) : prog Z :=
  info <- node_info [("key", of_Z nodekey)];; key_field info "kernelkey".
Definition SignalNodeStart (nodekey : Z) : prog unit :=
  checked (lift (SendMessage (request RCTXMT_SIGNAL_NODE_START [("key", of_Z nodekey)]))).
Definition SignalNodeEnd (nodekey : Z) : prog unit :=
  lift (SendMessage (request RCTXMT_SIGNAL_NODE_END [("key", of_Z nodekey)])).
Definition WaitForNodeStart (nodename : string) : prog Z :=
  checked (with_waiter (λ genwait,
  reply <- RemoteCall (request RCTXMT_GET_NODE_INFO [("name", VString nodename)]);;
  known <- success reply;;
  nodeinfo <- (if known : bool then field reply "nodeinfo" else ret VNull);;
  started <- (if known : bool then lift (mlift (true_field nodeinfo "started")) else ret false);;
  if started : bool then key_field nodeinfo "key"
  else wait_for genwait (found_key "nodeinfo" "started" nodename))).

(** [if (shutdown) { return; }] *)
Definition unless_shutdown (p : prog unit) : prog unit :=
  Do mget (λ c, if shutdown c then ret tt else p).
Definition ended (nodename : string) (msg : V) : res (option unit) :=
  '(_, x) ← At_ref msg "nodeinfo";
  if IsObject x then
    d ← true_field x "dead";
    if d : bool then
      '(_, n) ← At_ref x "name"; n ← AsString n; Ok (if String.eqb n nodename then Some tt else None)
    else Ok None
  else Ok None.
Definition WaitForNodeEnd (nodename : string) : prog unit :=
  unless_shutdown (with_waiter (λ genwait,
  reply <- try (pbind (RemoteCall (request RCTXMT_GET_NODE_INFO [("name", VString nodename)]))
                  (λ r, ret (Some r))) (ret None);;
  match reply with
  | None => ret tt
  | Some reply =>
    known <- success reply;;
    nodeinfo <- (if known : bool then field reply "nodeinfo" else ret VNull);;
    dead <- (if known : bool then lift (mlift (true_field nodeinfo "dead")) else ret false);;
    if dead : bool then ret tt
    else wait_until_shutdown genwait (ended nodename)
  end)).
(** [msg["numlivenodes"].IsNumber() && msg["numlivenodes"].AsUnsigned() == 0] *)
Definition none_live (msg : V) : res (option unit) :=
  '(_, n) ← At_ref msg "numlivenodes";
  if IsNumber n then n ← AsUnsigned n; Ok (if n =? 0 then Some tt else None) else Ok None.
Definition WaitForAllNodeEnd : prog unit :=
  unless_shutdown (with_waiter (λ genwait,
  reply <- try (pbind (RemoteCall (request RCTXMT_GET_NUM_NODE_LIVE [])) (λ r, ret (Some r))) (ret None);;
  match reply with
  | None => ret tt
  | Some reply =>
    known <- success reply;;
    lift (massert known);;;
    n <- field reply "numlivenodes";;
    n <- lift (mlift (AsUnsigned n));;
    if n =? 0 then ret tt else wait_until_shutdown genwait none_live
  end)).

(** ** Endpoints *)
Definition GetCreateEndpointKey (msgtype : RCTXMT_t) (nodekey : Z) (portname : string) : prog Z :=
  checked (reply <- RemoteCall (request msgtype [("nodekey", of_Z nodekey); ("name", VString portname)]);;
           succeeds reply;;;
           info <- field reply "endpointinfo";; key_field info "key").
Definition GetEndpointInfo (msgtype : RCTXMT_t) (portkey : Z) : prog V :=
  checked (reply <- RemoteCall (request msgtype [("key", of_Z portkey)]);;
           known <- success reply;;
           lift (massert known);;; field reply "endpointinfo").
Definition GetCreateReaderKey := GetCreateEndpointKey RCTXMT_GET_CREATE_READER_KEY.
Definition GetCreateWriterKey := GetCreateEndpointKey RCTXMT_GET_CREATE_WRITER_KEY.
Definition GetReaderNode (k : Z) : prog Z :=
  info <- GetEndpointInfo RCTXMT_GET_READER_INFO k;; key_field info "nodekey".
Definition GetReaderKernel (k : Z) : prog Z :=
  info <- GetEndpointInfo RCTXMT_GET_READER_INFO k;; key_field info "kernelkey".
Definition GetReaderName (k : Z) : prog string :=
  info <- GetEndpointInfo RCTXMT_GET_READER_INFO k;; string_field info "name".
Definition GetWriterNode (k : Z) : prog Z :=
  info <- GetEndpointInfo RCTXMT_GET_WRITER_INFO k;; key_field info "nodekey".
Definition GetWriterKernel (k : Z) : prog Z :=
  info <- GetEndpointInfo RCTXMT_GET_WRITER_INFO k;; key_field info "kernelkey".
Definition GetWriterName (k : Z) : prog string :=
  info <- GetEndpointInfo RCTXMT_GET_WRITER_INFO k;; string_field info "name".
Definition ConnectEndpoints (writerkey readerkey : Z) (qname : string) : prog unit :=
  checked (lift (SendMessage (request RCTXMT_CONNECT_ENDPOINTS
    [("readerkey", of_Z readerkey); ("writerkey", of_Z writerkey); ("qname", VString qname)]))).
Definition GetReadersWriter (readerkey : Z) : prog Z :=
  info <- GetEndpointInfo RCTXMT_GET_READER_INFO readerkey;; key_field info "writerkey".
Definition GetWritersReader (writerkey : Z) : prog Z :=
  info <- GetEndpointInfo RCTXMT_GET_WRITER_INFO writerkey;; key_field info "readerkey".

(** ** Termination *)
Fixpoint signal_calls (l : list (Z * Z)) : Op unit :=
  match l with
  | [] => mret tt
  | (_, a) :: l => c ← mget;
                   match winfos c !! a with
                   | Some _ => Signal a ;; signal_calls l
                   | None => mthrow Dangling
                   end
  end.
Fixpoint signal_waiters (l : list Z) : Op unit :=
  match l with
  | [] => mret tt
  | a :: l => c ← mget;
              (match queues c !! a with Some _ => Signal a | None => mret tt end) ;;
              signal_waiters l
  end.
(** The thread that is started calls [NotifyTerminate] of every kernel, here at
    once; [map_to_list] is the map in some order. *)
Fixpoint notify_kernels (l : list (Z * Z)) : Op unit :=
  match l with
  | [] => mret tt
  | (_, kernel) :: l => call_kernel kernel NotifyTerminate ;; notify_kernels l
  end.
Definition TerminateThread : Op unit := c ← mget; notify_kernels (map_to_list (kernels c)).
Definition InternalTerminate : Op unit :=
  c ← mget;
  if shutdown c then mret tt else
  mput (set_shutdown c) ;;
  signal_calls (map_to_list (callwaiters c)) ;;
  signal_waiters (waiters c) ;;
  TerminateThread.
Definition Terminate : prog unit :=
  lift (c ← mget;
        if shutdown c then mret tt
        else InternalTerminate ;; SendMessage (request RCTXMT_TERMINATE [])).
Definition IsTerminated : prog bool := lift (c ← mget; mret (shutdown c)).

(** ** Messages from the server *)
Fixpoint push_all (msg : V) (l : list Z) : Op (list Z) :=
  match l with
  | [] => mret []
  | a :: l => c ← mget;
              match queues c !! a with
              | Some q => mput (set_queues c (<[a := (q ++ [msg])%list]> (queues c))) ;; Signal a ;;
                          r ← push_all msg l; mret (a :: r)
              | None => push_all msg l
              end
  end.
Definition DispatchMessage (msg : V) : Op unit :=
  type ← mlift (at_key msg "type");
  if type =? rctxmt RCTXMT_TERMINATE then InternalTerminate else
  msgtype ← mlift (at_string msg "msgtype");
  if String.eqb msgtype "reply" then
    tranid ← mlift (at_unsigned msg "msgid");
    c ← mget;
    match callwaiters c !! tranid with
    | None => mthrow AssertFailed
    | Some a =>
      match winfos c !! a with
      | None => mthrow Dangling
      | Some _ =>
        mput (set_winfos c (<[a := Some msg]> (winfos c))) ;;
        Signal a ;;
        mmodify (λ c, set_callwaiters c (delete tranid (callwaiters c)))
      end
    end
  else if String.eqb msgtype "broadcast" then
    c ← mget;
    l ← push_all msg (waiters c);
    mmodify (λ c, set_waiters c l)
  else if String.eqb msgtype "kernel" then
    kernelkey ← mlift (at_key msg "kernelkey");
    c ← mget;
    match kernels c !! kernelkey with
    | None => mthrow AssertFailed
    | Some kernel =>
      massert (negb (kernel =? 0)) ;;
      match rctxmt_of type with
      | Some RCTXMT_CREATE_NODE =>
        attr ← mlift (v ← At msg "nodeattr"; MsgToNodeAttr v);
        call_kernel kernel (RemoteCreateNode attr)
      | Some RCTXMT_CREATE_QUEUE =>
        attr ← mlift (v ← At msg "queueattr"; MsgToQueueAttr v);
        call_kernel kernel (RemoteCreateQueue attr)
      | Some RCTXMT_CREATE_WRITER =>
        attr ← mlift (v ← At msg "queueattr"; MsgToQueueAttr v);
        call_kernel kernel (RemoteCreateWriter attr)
      | Some RCTXMT_CREATE_READER =>
        attr ← mlift (v ← At msg "queueattr"; MsgToQueueAttr v);
        call_kernel kernel (RemoteCreateReader attr)
      | _ => mthrow AssertFailed
      end
    end
  else mthrow AssertFailed.
End client.
Arguments client : clear implicits.
Arguments prog : clear implicits.
Arguments paused : clear implicits.
Arguments Done {F A} r.
Arguments Do {F A B} m k.
Arguments Await {F A B} turn k.
Arguments Finished {F A} r.
Arguments Sleeping {F A B} turn k.
End RCC.
