(* ===== verification/RemoteContext.v ===== *)
(** [libraries/CPN/RemoteContext.cc] and [RemoteContextDaemon.cc]: a client and
    the server, and what their composition implements.

    Messages are delivered in order in both directions; how a message is
    written to a socket and parsed again is left out.  [remote] runs one
    operation of the client to its end or until it has nothing left to wait
    for but an event. *)
From S2P Require Import Prelude Variant RemoteServer RemoteClient LocalContext.

Module RC.
Import RCC.
Open Scope string_scope.
Open Scope Z_scope.

Section system.
Context {F : Type} `{LongDouble F}.
Notation V := (Variant F).
(** The name of the connection of the client at the server. *)
Variable me : string.

Record system := mk_system { sv : RCS.server F; cl : client F }.

Definition on_server {A} (m : RCS.Op A) : M system A :=
  λ s, let '(r, v) := m (sv s) in (r, mk_system v (cl s)).
Definition on_client {A} (m : Op A) : M system A :=
  λ s, let '(r, c) := m (cl s) in (r, mk_system (sv s) c).

Fixpoint each {S B} (f : B → M S unit) (l : list B) : M S unit :=
  match l with [] => mret tt | b :: l => f b ;; each f l end.

(** [RemoteContextDaemon::SendMessage] and [BroadcastMessage] *)
Definition deliver (o : RCS.output F) : M system unit :=
  match o with
  | RCS.Send recipient msg =>
    if String.eqb recipient me then on_client (DispatchMessage msg) else mthrow AssertFailed
  | RCS.Broadcast msg => on_client (DispatchMessage msg)
  | RCS.LogMessage _ => mret tt
  end.
(** All messages on their way to the server arrive, and then all of its own. *)
Definition exchange : M system unit :=
  s ← mget;
  mput (mk_system (sv s) (set_sent (cl s) [])) ;;
  each (λ m, on_server (RCS.DispatchMessage me m)) (sent (cl s)) ;;
  s ← mget;
  mput (mk_system (RCS.set_sent (sv s) []) (cl s)) ;;
  each deliver (RCS.sent (sv s)).

Definition on_thread {A} (f : client F → paused F A * client F) : M system (paused F A) :=
  λ s, let '(st, c) := f (cl s) in (Ok st, mk_system (sv s) c).
Definition settle {A} (st : paused F A) : M system (option A) :=
  exchange ;;
  match st with Finished r => a ← mlift r; mret (Some a) | Sleeping _ _ => mret None end.
Definition remote {A} (p : prog F A) : M system (option A) :=
  st ← on_thread (run p); exchange ;; st ← on_thread (resume st); settle st.

(** ** Nothing is under way *)
Definition quiet (c : client F) : Prop :=
  shutdown c = false ∧ callwaiters c = ∅ ∧ winfos c = ∅ ∧ sent c = [].
Definition same_client (c c' : client F) : Prop :=
  kernels c' = kernels c ∧ loglevel c' = loglevel c.

Lemma exchange_quiet s : sent (cl s) = [] → RCS.sent (sv s) = [] → exchange s = (Ok tt, s).
Proof.
  intros E1 E2. unfold exchange. mred. rewrite E1. cbn. rewrite E2. cbn.
  destruct s as [[] []]; cbn in *; by subst.
Qed.
Lemma settle_quiet {A} (st : paused F A) s : sent (cl s) = [] → RCS.sent (sv s) = [] →
  settle st s = (match st with
                 | Finished (Ok a) => Ok (Some a) | Finished (Err e) => Err e
                 | Sleeping _ _ => Ok None end, s).
Proof.
  intros E1 E2. unfold settle. mred. rewrite exchange_quiet by done.
  by destruct st as [[a|e]|B t k].
Qed.

(** Events that the server broadcasts do not disturb the client. *)
Definition event (msg : V) : Prop :=
  IsObject msg = true ∧ get msg "type" = VNull ∧ get msg "msgtype" = VString "broadcast".
Lemma push_all_ok (msg : V) l : ∀ c, ∃ l' q g, push_all msg l c =
  (Ok l', set_signalled (set_queues c q) g).
Proof.
  induction l as [|a l IH]; intros c; cbn; mred.
  - exists [], (queues c), (signalled c). by destruct c.
  - destruct (queues c !! a) as [q|]; [|apply IH]. cbn.
    destruct (IH (set_signalled (set_queues c (<[a:=(q ++ [msg])%list]> (queues c)))
      (signalled c ++ [a]))) as (l' & q' & g & E). rewrite E. by eexists _, q', g.
Qed.
Lemma dispatch_event (msg : V) c : LongDoubleLaws F → event msg → ∃ w q g,
  DispatchMessage msg c = (Ok tt, set_waiters (set_signalled (set_queues c q) g) w).
Proof.
  intros Hl (Ho & E1 & E2). unfold DispatchMessage, at_key, at_string. mred.
  rewrite !At_get, E1, E2 by done. cbn. rewrite ld_to_of by lia. cbn.
  destruct (push_all_ok msg (waiters c) c) as (l' & q & g & E). rewrite E. by exists l', q, g.
Qed.

(** ** A message without a reply *)
Lemma exchange_send `{!LongDoubleLaws F} (m : V) v c0 sv' (outs : list (RCS.output F)) :
  quiet c0 → RCS.DispatchMessage me m v = (Ok tt, RCS.set_sent sv' outs) → RCS.sent sv' = [] →
  (outs = [] ∨ ∃ n, outs = [RCS.Broadcast n] ∧ event n) →
  ∃ c', quiet c' ∧ same_client c0 c' ∧
    exchange (mk_system v (set_sent c0 [m])) = (Ok tt, mk_system sv' c').
Proof.
  intros (Q1 & Q2 & Q3 & Q4) Hd Hs' Ho.
  unfold exchange. mred. cbn. unfold on_server. mred. cbn. rewrite Hd. cbn.
  destruct sv'; cbn in Hs'; subst. destruct Ho as [-> | (n & -> & Hn)]; cbn.
  - eexists. split; [|split; [|done]]; done.
  - unfold on_client. mred. cbn [cl]. destruct (dispatch_event n (set_sent (set_sent c0 [m]) []) _ Hn)
      as (w & q & g & E). rewrite E. eexists. split; [|split; [|done]]; done.
Qed.
Lemma remote_finished {A} (p : prog F A) s r c1 s' :
  run p (cl s) = (Finished r, c1) → exchange (mk_system (sv s) c1) = (Ok tt, s') →
  sent (cl s') = [] → RCS.sent (sv s') = [] → remote p s = (a ← r; Ok (Some a), s').
Proof.
  intros E Ex E1 E2. unfold remote, on_thread. mred. rewrite E, Ex. cbn [resume].
  destruct s' as [v c]. cbn [cl sv] in *. rewrite settle_quiet by done. by destruct r.
Qed.
Lemma remote_local {A} (p : prog F A) s r c1 : run p (cl s) = (Finished r, c1) → sent c1 = [] →
  RCS.sent (sv s) = [] → remote p s = (a ← r; Ok (Some a), mk_system (sv s) c1).
Proof. intros E E1 E2. by apply (remote_finished p s r c1); rewrite ?exchange_quiet. Qed.

(** ** A message with a reply *)
Definition finished {A} (st : paused F A) : bool := match st with Finished _ => true | _ => false end.
Definition protect_paused {A} clean (st : paused F A) : paused F A :=
  match st with
  | Finished r => Finished r
  | Sleeping t k => Sleeping (λ w, catch clean (t w)) (λ b, protect clean (k b))
  end.
Definition leave {A} clean (x : paused F A * client F) : paused F A * client F :=
  (protect_paused clean x.1, if finished x.1 then clean x.2 else x.2).
Lemma run_protect {A} clean (p : prog F A) : ∀ c, run (protect clean p) c = leave clean (run p c).
Proof.
  induction p as [r|B m k IH|B t k IH]; intros c; cbn; [done| |].
  - unfold catch. destruct (m c) as [[b|e] c']; [apply IH|done].
  - unfold catch. destruct (t false c) as [[[b|]|e] c']; [apply IH|done..].
Qed.
Lemma resume_protect {A} clean B (t : bool → Op (option B)) (k : B → prog F A) c :
  resume (protect_paused clean (Sleeping t k)) c = leave clean (resume (Sleeping t k) c).
Proof.
  cbn. unfold catch. destruct (t true c) as [[[b|]|e] c']; [apply run_protect|done..].
Qed.

(** [p] sends [m] and continues with [k] when the reply is there; [q] are the
    queues of the generic waiters while it waits. *)
Definition awaits {A} (p : prog F A) (c : client F) (m : V) (k : V → prog F A)
    (q : gmap Z (list V)) : Prop :=
  ∃ B (t : bool → Op (option B)) f c1 id a,
    run p c = (Sleeping t f, c1) ∧ id = u32 (trancounter c + 1) ∧
    shutdown c1 = false ∧ callwaiters c1 = {[id := a]} ∧ winfos c1 = {[a := None]} ∧
    sent c1 = [put m "msgid" (of_Z id)] ∧ same_client c c1 ∧ queues c1 = q ∧
    ∀ c2 reply, shutdown c2 = false → winfos c2 = {[a := Some reply]} →
      resume (Sleeping t f) c2 = run (k reply) (end_winfo a c2).

Lemma awaits_call {A} (m : V) (k : V → prog F A) c : quiet c → plain m →
  awaits (pbind (RemoteCall m) k) c m k (queues c).
Proof.
  intros (Q1 & Q2 & Q3 & Q4) Hm. unfold RemoteCall, awaits.
  cbn [pbind protect]. eexists _, _, _, _, _, (RCC.fresh c). split_and!.
  - cbn [run]. unfold NewTranID, new_address, AddWaiter, SendMessage. mred.
    cbn [callwaiters set_winfos set_fresh set_trancounter]. rewrite Q2, lookup_empty.
    mred. rewrite Set_at_put by done. cbn [pbind protect run]. unfold catch. mred.
    cbn [winfos set_sent set_callwaiters set_winfos]. rewrite lookup_insert_eq. reflexivity.
  - reflexivity.
  - exact Q1.
  - done.
  - cbn. by rewrite Q3.
  - cbn. by rewrite Q4.
  - done.
  - done.
  - intros c2 reply E1 E2. cbn [resume]. unfold catch, InternalCheckTerminated. mred.
    rewrite E1. mred. rewrite E2, lookup_singleton_eq. reflexivity.
Qed.
Lemma awaits_checked {A} (p : prog F A) c m k q : quiet c → awaits p c m k q →
  awaits (checked p) c m k q.
Proof.
  intros (Q1 & _) (B & t & f & c1 & id & a & E & Hr). exists B, t, f, c1, id, a. split; [|done].
  unfold checked. cbn [run]. unfold InternalCheckTerminated. mred. by rewrite Q1.
Qed.
Lemma awaits_waiter {A} (body : Z → prog F A) c m k : quiet c →
  (∀ a c', quiet c' → awaits (body a) c' m (k a) (queues c')) →
  awaits (with_waiter body) c m (λ r, protect (end_waiter (RCC.fresh c)) (k (RCC.fresh c) r))
    (<[RCC.fresh c := []]> (queues c)).
Proof.
  intros Q Hb. unfold with_waiter, awaits. cbn [run]. unfold NewGenericWaiter, new_address. mred.
  set (c0 := set_waiters _ _). destruct (Hb (RCC.fresh c) c0 Q) as
    (B & t & f & c1 & id & a & E & -> & E1 & E2 & E3 & E4 & E5 & E6 & Hr).
  eexists B, _, _, c1, _, a. rewrite run_protect, E. split_and!; try done.
  intros c2 reply H1 H2. rewrite run_protect.
  rewrite <- (Hr c2 reply H1 H2). by rewrite <- resume_protect.
Qed.
Lemma awaits_try {A} (m : V) (k : option V → prog F A) c : quiet c → plain m →
  awaits (pbind (try (pbind (RemoteCall m) (λ r, ret (Some r))) (ret None)) k) c m (λ r, k (Some r))
    (queues c).
Proof.
  intros (Q1 & Q2 & Q3 & Q4) Hm. unfold RemoteCall, awaits.
  cbn [pbind protect try]. eexists _, _, _, _, _, (RCC.fresh c). split_and!.
  - cbn [run]. unfold NewTranID, new_address, AddWaiter, SendMessage, no_shutdown. mred.
    cbn [callwaiters set_winfos set_fresh set_trancounter]. rewrite Q2, lookup_empty.
    mred. rewrite Set_at_put by done. cbn [pbind protect try run]. unfold catch. mred.
    cbn [winfos set_sent set_callwaiters set_winfos]. rewrite lookup_insert_eq. reflexivity.
  - reflexivity.
  - exact Q1.
  - done.
  - cbn. by rewrite Q3.
  - cbn. by rewrite Q4.
  - done.
  - done.
  - intros c2 reply E1 E2. cbn [resume]. unfold catch, InternalCheckTerminated, no_shutdown. mred.
    rewrite E1. mred. rewrite E2, lookup_singleton_eq. reflexivity.
Qed.

(** A reply to message [id]. *)
Definition answer (id : Z) (reply : V) : Prop :=
  IsObject reply = true ∧ get reply "type" = VNull ∧ get reply "msgtype" = VString "reply" ∧
  get reply "msgid" = of_Z id.
Lemma remote_awaits {A} `{!LongDoubleLaws F} (p : prog F A) s m k q sv' reply :
  quiet (cl s) → RCS.sent (sv s) = [] → awaits p (cl s) m k q →
  let id := u32 (trancounter (cl s) + 1) in
  RCS.DispatchMessage me (put m "msgid" (of_Z id)) (sv s) =
    (Ok tt, RCS.set_sent sv' [RCS.Send me reply]) → RCS.sent sv' = [] → answer id reply →
  ∃ c', quiet c' ∧ same_client (cl s) c' ∧ queues c' = q ∧
    remote p s = (let '(st, c2) := run (k reply) c' in settle st (mk_system sv' c2)).
Proof.
  intros (Q1 & Q2 & Q3 & Q4) Hs (B & t & f & c1 & ? & a & E & -> & E1 & E2 & E3 & E4 & E5 & Eq & Hr).
  intros id Hd Hs' (A1 & A2 & A3 & A4). fold id in E2, E4.
  assert (0 ≤ id < 4294967296) as Hid by apply u32_range. clearbody id.
  set (c2 := set_callwaiters (set_signalled (set_winfos (set_sent c1 []) {[a := Some reply]})
    (signalled c1 ++ [a])) ∅).
  assert (exchange (mk_system (sv s) c1) = (Ok tt, mk_system sv' c2)) as Ex.
  { unfold exchange. mred. cbn [cl sv]. rewrite E4. cbn [each]. unfold on_server. mred. cbn [sv cl].
    rewrite Hd. destruct sv'; cbn in Hs'; subst. cbn [each deliver RCS.sent RCS.set_sent sv].
    rewrite String.eqb_refl. unfold on_client, DispatchMessage, at_key, at_string, at_unsigned. mred.
    cbn [cl sv]. rewrite !At_get, A2, A3, A4, AsNumber_null by done.
    cbn [Z.eqb RCS.rctxmt AsString]. mred. cbn [String.eqb Ascii.eqb Bool.eqb].
    rewrite AsUnsigned_of_Z by done. cbn [callwaiters winfos set_sent].
    rewrite E2, lookup_singleton_eq, E3, lookup_singleton_eq. unfold Signal. mred.
    cbn. rewrite E2, insert_singleton_eq, delete_singleton_eq. done. }
  exists (end_winfo a c2). destruct E5 as [E5 E6]. split; [|split; [|split]].
  - split; [exact E1|]. split; [done|]. split; [|done].
    apply delete_singleton_eq.
  - done.
  - done.
  - unfold remote, on_thread. mred. rewrite E. cbn [cl sv]. rewrite Ex. cbn [cl sv].
    rewrite (Hr c2 reply) by done.
    destruct (run (k reply) (end_winfo a c2)). reflexivity.
Qed.


(** ** What the server knows

    The registry that the entries of the server stand for, as the state of a
    local context. *)
Definition kernel_entry (k : Z) (i : LC.KernelInfo) (v : V) : Prop :=
  get v "key" = of_Z k ∧ get v "name" = VString (LC.k_name i) ∧
  get v "hostname" = VString (LC.k_hostname i) ∧ get v "servname" = VString (LC.k_servname i) ∧
  get v "live" = of_bool (LC.k_live i && negb (LC.k_dead i)) ∧
  get v "type" = VString "kernelinfo" ∧ get v "client" = VString me ∧ LC.k_allowremote i = true.
(** Readers and writers of a node share one map. *)
Definition endpoint (i : LC.NodeInfo) (p : string) : option Z :=
  match LC.n_readers i !! p with Some k => Some k | None => LC.n_writers i !! p end.
Definition node_entry (k : Z) (i : LC.NodeInfo) (v : V) : Prop :=
  get v "key" = of_Z k ∧ get v "name" = VString (LC.n_name i) ∧
  get v "kernelkey" = of_Z (LC.n_kernelkey i) ∧ 0 ≤ LC.n_kernelkey i < 18446744073709551616 ∧
  get v "started" = of_bool (LC.n_started i) ∧ get v "dead" = of_bool (LC.n_dead i) ∧
  get v "type" = VString "nodeinfo" ∧
  ∃ eps, get v "endpoints" = VObject eps ∧ ∀ p, map_find p eps = of_Z <$> endpoint i p.
(** [partner]: the field of the endpoint that this one is connected to. *)
Definition port_entry (partner : string) (c : LC.context) (k : Z) (q : LC.PortInfo) (v : V) : Prop :=
  get v "key" = of_Z k ∧ get v "name" = VString (LC.p_name q) ∧
  get v "nodekey" = of_Z (LC.p_nodekey q) ∧ get v "type" = VString "endpointinfo" ∧
  AsNumber (get v partner) = Ok (LC.p_opposingport q) ∧
  ∃ i, LC.nodemap c !! LC.p_nodekey q = Some i ∧ get v "kernelkey" = of_Z (LC.n_kernelkey i).
Record entry (c : LC.context) (k : Z) (v : V) : Prop := {
  e_object : IsObject v = true;
  e_holds : ∃ a, LC.holds c a k;
  e_kernel i : LC.kernelmap c !! k = Some i → kernel_entry k i v;
  e_node i : LC.nodemap c !! k = Some i → node_entry k i v;
  e_reader q : LC.readports c !! k = Some q → port_entry "writerkey" c k q v;
  e_writer q : LC.writeports c !! k = Some q → port_entry "readerkey" c k q v }.
(** No node has a reader and a writer of one name. *)
Definition apart (c : LC.context) : Prop := ∀ n i p, LC.nodemap c !! n = Some i →
  LC.n_readers i !! p = None ∨ LC.n_writers i !! p = None.
Record serves (s : RCS.server F) (c : LC.context) : Prop := {
  f_wf : LC.wf c; f_apart : apart c;
  f_up : LC.shutdown c = false; f_run : RCS.shutdown s = false; f_sent : RCS.sent s = [];
  f_kernels : RCS.kernelmap s = LC.kernelnames c; f_nodes : RCS.nodemap s = LC.nodenames c;
  f_keys : RCS.keycount s = LC.counter c; f_live : RCS.numlivenodes s = LC.numlivenodes c;
  f_in k v : RCS.datamap s !! k = Some v → entry c k v;
  f_all a k : LC.holds c a k → is_Some (RCS.datamap s !! k) }.

Lemma serves_kernel s c k i : serves s c → LC.kernelmap c !! k = Some i →
  ∃ v, RCS.datamap s !! k = Some v ∧ IsObject v = true ∧ kernel_entry k i v.
Proof.
  intros Hs Hk. destruct (f_all _ _ Hs LC.Kernel k) as [v E]; [by exists i|].
  exists v. destruct (f_in _ _ Hs k v E). auto.
Qed.
Lemma serves_node s c k i : serves s c → LC.nodemap c !! k = Some i →
  ∃ v, RCS.datamap s !! k = Some v ∧ IsObject v = true ∧ node_entry k i v.
Proof.
  intros Hs Hk. destruct (f_all _ _ Hs LC.Node k) as [v E]; [by exists i|].
  exists v. destruct (f_in _ _ Hs k v E). auto.
Qed.
Lemma serves_reader s c k q : serves s c → LC.readports c !! k = Some q →
  ∃ v, RCS.datamap s !! k = Some v ∧ IsObject v = true ∧ port_entry "writerkey" c k q v.
Proof.
  intros Hs Hk. destruct (f_all _ _ Hs LC.Reader k) as [v E]; [by exists q|].
  exists v. destruct (f_in _ _ Hs k v E). auto.
Qed.
Lemma serves_writer s c k q : serves s c → LC.writeports c !! k = Some q →
  ∃ v, RCS.datamap s !! k = Some v ∧ IsObject v = true ∧ port_entry "readerkey" c k q v.
Proof.
  intros Hs Hk. destruct (f_all _ _ Hs LC.Writer k) as [v E]; [by exists q|].
  exists v. destruct (f_in _ _ Hs k v E). auto.
Qed.
Lemma serves_none s c k : serves s c → (∀ a, ¬ LC.holds c a k) → RCS.datamap s !! k = None.
Proof.
  intros Hs Hn. apply eq_None_not_Some. intros [v E]. destruct (e_holds _ _ _ (f_in _ _ Hs k v E)) as [a Ha].
  by apply (Hn a).
Qed.

(** *** Running a handler on a message *)
Lemma At_put (m : V) k x k' : At (put m k x) k' = Ok (if String.eqb k' k then x else get m k').
Proof. rewrite At_get by apply put_object. by rewrite get_put. Qed.
Lemma plain_put (m : V) k x : plain (put m k x).
Proof. left. apply put_object. Qed.
Lemma plain_obj (l : list (string * V)) : plain (obj l).
Proof. left. apply obj_object. Qed.


Ltac fields := rewrite ?get_put, ?get_obj;
  cbn [last_of String.eqb Ascii.eqb Bool.eqb default id IsString IsNumber IsTrue IsObject].

Context `{!LongDoubleLaws F}.

(** The branch of the switch. *)
Definition handler (t : RCS.RCTXMT_t) (m : V) : RCS.Op unit :=
  match t with
  | RCS.RCTXMT_SETUP_KERNEL => RCS.SetupKernel me m
  | RCS.RCTXMT_SIGNAL_KERNEL_START => RCS.SignalKernelStart m
  | RCS.RCTXMT_SIGNAL_KERNEL_END => RCS.SignalKernelEnd m
  | RCS.RCTXMT_GET_KERNEL_INFO => RCS.GetKernelInfo me m
  | RCS.RCTXMT_CREATE_NODE_KEY => RCS.CreateNodeKey me m
  | RCS.RCTXMT_SIGNAL_NODE_START => RCS.SignalNodeStart m
  | RCS.RCTXMT_SIGNAL_NODE_END => RCS.SignalNodeEnd m
  | RCS.RCTXMT_GET_NODE_INFO => RCS.GetNodeInfo me m
  | RCS.RCTXMT_GET_NUM_NODE_LIVE => RCS.GetNumNodeLive me m
  | RCS.RCTXMT_GET_CREATE_READER_KEY | RCS.RCTXMT_GET_CREATE_WRITER_KEY =>
    RCS.GetCreateEndpointKey me m
  | RCS.RCTXMT_GET_READER_INFO | RCS.RCTXMT_GET_WRITER_INFO => RCS.GetEndpointInfo me m
  | RCS.RCTXMT_CONNECT_ENDPOINTS => RCS.ConnectEndpoints m
  | RCS.RCTXMT_CREATE_WRITER | RCS.RCTXMT_CREATE_READER | RCS.RCTXMT_CREATE_QUEUE
  | RCS.RCTXMT_CREATE_NODE => RCS.RouteKernelMessage m
  | _ => RCS.DispatchMessage me m
  end.
Lemma dispatch_handler t m s : RCS.shutdown s = false → IsObject m = true →
  get m "type" = of_Z (RCS.rctxmt t) → RCS.DispatchMessage me m s = handler t m s.
Proof.
  intros Hs Hm Ht. unfold RCS.DispatchMessage at 1, RCS.arg_key, RCS.arg. mred. rewrite Hs. mred.
  rewrite At_get, Ht, AsNumber_of_Z by (done || apply RCS.rctxmt_range). mred.
  rewrite RCS.rctxmt_of_code.
  destruct t; try done; unfold handler, RCS.DispatchMessage, RCS.arg_key, RCS.arg; mred; rewrite Hs;
    mred; rewrite At_get, Ht, AsNumber_of_Z by (done || apply RCS.rctxmt_range); mred;
    by rewrite RCS.rctxmt_of_code.
Qed.

(** The server answers the request; [P] of its state and of the reply. *)
Definition replies (t : RCS.RCTXMT_t) (l : list (string * V)) (s : RCS.server F)
    (P : RCS.server F → V → Prop) : Prop :=
  ∀ id, 0 ≤ id < 4294967296 → ∃ s' reply,
    handler t (put (request t l) "msgid" (of_Z id)) s = (Ok tt, RCS.set_sent s' [RCS.Send me reply]) ∧
    RCS.sent s' = [] ∧ answer id reply ∧ P s' reply.
Lemma remote_call {A} (p : prog F A) s t l k q P :
  last_of "type" l = None → quiet (cl s) → RCS.shutdown (sv s) = false → RCS.sent (sv s) = [] →
  awaits p (cl s) (request t l) k q → replies t l (sv s) P →
  ∃ s' c' reply, quiet c' ∧ same_client (cl s) c' ∧ queues c' = q ∧ P s' reply ∧
    remote p s = (let '(st, c2) := run (k reply) c' in settle st (mk_system s' c2)).
Proof.
  intros Hl Hq Hd Hs Ha Hr.
  destruct (Hr (u32 (trancounter (cl s) + 1))) as (s' & reply & E & Hs' & Hans & HP); [apply u32_range|].
  destruct (remote_awaits p s (request t l) k q s' reply) as (c' & ? & ? & ? & ?); try done.
  - rewrite (dispatch_handler t); [done..|apply put_object|].
    unfold request. rewrite get_put, get_obj. cbn. by rewrite Hl.
  - by exists s', c', reply.
Qed.

(** Reading a registry entry changes nothing that can be read. *)
Lemma entry_get c k v v' : entry c k v → IsObject v' = true → (∀ f, get v' f = get v f) → entry c k v'.
Proof.
  intros [] Ho Hg. constructor; try done; unfold kernel_entry, node_entry, port_entry in *;
    by setoid_rewrite Hg.
Qed.
Lemma serves_touch s c k v v' : serves s c → RCS.datamap s !! k = Some v → IsObject v' = true →
  (∀ f, get v' f = get v f) → serves (RCS.set_data s (<[k := v']> (RCS.datamap s))) c.
Proof.
  intros Hs E Ho Hg. destruct Hs. constructor; try done; cbn.
  - intros k2 v2. destruct (decide (k2 = k)) as [-> |]; simplify_map_eq; [|apply f_in0].
    intros [= <-]. by eapply entry_get; [apply f_in0| |].
  - intros a k2 Hh. destruct (decide (k2 = k)) as [-> |]; simplify_map_eq; [done|by eapply f_all0].
Qed.
Lemma touched (v : V) k : IsObject v = true →
  IsObject (put v k (get v k)) = true ∧ ∀ f, get (put v k (get v k)) f = get v f.
Proof. split; [apply put_object|]. intros f. apply get_put_self. Qed.

(** *** Questions about kernels *)
Definition kernel_reply (o : option (Z * LC.KernelInfo)) (reply : V) : Prop :=
  IsObject reply = true ∧
  match o with
  | Some (k, i) => get reply "success" = VTrue ∧ IsObject (get reply "kernelinfo") = true ∧
                   kernel_entry k i (get reply "kernelinfo")
  | None => get reply "success" = VFalse
  end.
Lemma same_sent s : RCS.sent s = [] → ∀ o : list (RCS.output F), RCS.set_sent s (RCS.sent s ++ o) = RCS.set_sent s o.
Proof. by intros ->. Qed.

Lemma GetKernelInfo_found (m : V) s c k i id :
  serves s c → LC.kernelmap c !! k = Some i → IsObject m = true → get m "msgid" = of_Z id →
  (get m "name" = VString (LC.k_name i) ∧ LC.kernelnames c !! LC.k_name i = Some k ∨
   get m "name" = VNull ∧ AsNumber (get m "key") = Ok k) →
  ∃ v v' reply, RCS.datamap s !! k = Some v ∧ IsObject v' = true ∧ (∀ f, get v' f = get v f) ∧
    RCS.GetKernelInfo me m s =
      (Ok tt, RCS.set_sent (RCS.set_data s (<[k := v']> (RCS.datamap s))) [RCS.Send me reply]) ∧
    answer id reply ∧ kernel_reply (Some (k, i)) reply.
Proof.
  intros Hs Hk Hm Hid Hn. destruct (serves_kernel s c k i Hs Hk) as (v & Ev & Hv & He).
  destruct (touched v "type" Hv) as [Ho Hg]. set (v' := put v "type" (get v "type")) in *.
  assert (kernel_entry k i v') as He' by (unfold kernel_entry in *; by rewrite !Hg).
  exists v, v'. eexists. split; [done|]. split; [done|]. split; [done|].
  unfold RCS.GetKernelInfo, RCS.arg, RCS.arg_key, RCS.arg, RCS.SendMessage, RCS.emit, RCS.set, RCS.put_data. mred.
  rewrite !At_get, Hid by done.
  destruct He as (_ & _ & _ & _ & _ & Ht & _).
  split; [|split].
  - destruct Hn as [[-> Hn]|[-> Hn]]; cbn [IsString AsString]; mred;
      [rewrite (f_kernels _ _ Hs), Hn|rewrite Hn]; mred; rewrite Ev; mred;
      rewrite At_ref_get by (by left); fold v'; mred; rewrite Ht; cbn [AsString]; mred;
      cbn [String.eqb Ascii.eqb Bool.eqb];
      rewrite !Set_at_put by (apply plain_put || apply plain_obj); mred;
      cbn [RCS.sent RCS.set_data]; rewrite (f_sent _ _ Hs); reflexivity.
  - unfold answer. fields. split_and!; [apply put_object|done..].
  - unfold kernel_reply. rewrite put_object. fields. done.
Qed.
Ltac handle := unfold RCS.arg, RCS.arg_key, RCS.arg_string, RCS.arg, RCS.set, RCS.new_reply, RCS.arg,
  RCS.SendMessage, RCS.BroadcastMessage, RCS.emit, RCS.put_data, RCS.NewKey; mred.
Ltac set_at := rewrite ?Set_at_put by (apply plain_put || apply plain_obj); mred.

Ltac objs := first [apply put_object | apply obj_object | done].
Ltac answered := unfold answer; fields; split_and!; objs.

(** What goes on in place, in the entry of an object. *)
Lemma field_ref_ok k (v : V) f s : IsObject v = true →
  let v' := put v f (get v f) in
  RCS.field_ref k v f s = (Ok (v', get v f), RCS.set_data s (<[k := v']> (RCS.datamap s))).
Proof.
  intros Hv. unfold RCS.field_ref, RCS.put_shared, RCS.put_data. mred.
  rewrite At_ref_get by (by left). by destruct v.
Qed.
Lemma check_type_ok k (v : V) t s : IsObject v = true → get v "type" = VString t →
  let v' := put v "type" (get v "type") in
  RCS.check_type k v t s = (Ok v', RCS.set_data s (<[k := v']> (RCS.datamap s))).
Proof.
  intros Hv Ht v'. unfold RCS.check_type. mred. rewrite field_ref_ok by done. fold v'.
  rewrite Ht. cbn [AsString]. by rewrite String.eqb_refl.
Qed.
Lemma print_name_ok k (v : V) n s : IsObject v = true → get v "name" = VString n →
  let v' := put v "name" (get v "name") in
  RCS.print_name k v s = (Ok v', RCS.set_data s (<[k := v']> (RCS.datamap s))).
Proof.
  intros Hv Ht v'. unfold RCS.print_name. mred. rewrite field_ref_ok by done. fold v'. by rewrite Ht.
Qed.
Lemma put_shared_ok k (old v : V) s : IsObject old = true →
  RCS.put_shared k old v s = (Ok tt, RCS.set_data s (<[k := v]> (RCS.datamap s))).
Proof. by destruct old. Qed.
Lemma data_ref_ok k s (v : V) : RCS.datamap s !! k = Some v → RCS.data_ref k s = (Ok v, s).
Proof. intros E. unfold RCS.data_ref. mred. by rewrite E. Qed.
Lemma set_data_twice s k (v w : V) : RCS.set_data (RCS.set_data s (<[k := v]> (RCS.datamap s)))
  (<[k := w]> (<[k := v]> (RCS.datamap s))) = RCS.set_data s (<[k := w]> (RCS.datamap s)).
Proof. unfold RCS.set_data. cbn. by rewrite insert_insert_eq. Qed.

Lemma GetKernelInfo_missing (m : V) s c id :
  serves s c → IsObject m = true → get m "msgid" = of_Z id →
  (∃ n, get m "name" = VString n ∧ LC.kernelnames c !! n = None) ∨
  (∃ k, get m "name" = VNull ∧ AsNumber (get m "key") = Ok k ∧ ∀ a, ¬ LC.holds c a k) →
  ∃ reply, RCS.GetKernelInfo me m s = (Ok tt, RCS.set_sent s [RCS.Send me reply]) ∧
    answer id reply ∧ kernel_reply None reply.
Proof.
  intros Hs Hm Hid Hn. eexists. unfold RCS.GetKernelInfo. handle. rewrite !At_get, Hid by done.
  split; [|split].
  - destruct Hn as [(n & -> & Hn)|(k & -> & Hk & Hn)]; cbn [IsString AsString]; mred;
      [rewrite (f_kernels _ _ Hs), Hn|rewrite Hk; mred; rewrite (serves_none s c k Hs Hn)]; mred;
      by rewrite (f_sent _ _ Hs).
  - answered.
  - unfold kernel_reply. rewrite obj_object. fields. done.
Qed.

(** *** Questions about nodes *)
Definition node_reply (o : option (Z * LC.NodeInfo)) (reply : V) : Prop :=
  IsObject reply = true ∧
  match o with
  | Some (k, i) => get reply "success" = VTrue ∧ IsObject (get reply "nodeinfo") = true ∧
                   node_entry k i (get reply "nodeinfo")
  | None => get reply "success" = VFalse
  end.
Lemma GetNodeInfo_found (m : V) s c k i id :
  serves s c → LC.nodemap c !! k = Some i → IsObject m = true → get m "msgid" = of_Z id →
  (get m "name" = VString (LC.n_name i) ∧ LC.nodenames c !! LC.n_name i = Some k ∨
   get m "name" = VNull ∧ AsNumber (get m "key") = Ok k) →
  ∃ reply, RCS.GetNodeInfo me m s = (Ok tt, RCS.set_sent s [RCS.Send me reply]) ∧
    answer id reply ∧ node_reply (Some (k, i)) reply.
Proof.
  intros Hs Hk Hm Hid Hn. destruct (serves_node s c k i Hs Hk) as (v & Ev & Hv & He).
  destruct (touched v "type" Hv) as [Ho Hg]. set (v' := put v "type" (get v "type")) in *.
  assert (node_entry k i v') as He' by (unfold node_entry in *; by rewrite !Hg).
  eexists. unfold RCS.GetNodeInfo. handle. rewrite !At_get, Hid by done.
  destruct He as (_ & _ & _ & _ & _ & _ & Ht & _). split; [|split].
  - destruct Hn as [[-> Hn]|[-> Hn]]; cbn [IsString AsString]; mred;
      [rewrite (f_nodes _ _ Hs), Hn|rewrite Hn]; mred; rewrite Ev; mred;
      rewrite At_ref_get by (by left); fold v'; mred; set_at; rewrite Ht; cbn [AsString]; mred;
      cbn [String.eqb Ascii.eqb Bool.eqb]; set_at; by rewrite (f_sent _ _ Hs).
  - answered.
  - unfold node_reply. rewrite put_object. fields. done.
Qed.
Lemma GetNodeInfo_missing (m : V) s c id :
  serves s c → IsObject m = true → get m "msgid" = of_Z id →
  (∃ n, get m "name" = VString n ∧ LC.nodenames c !! n = None) ∨
  (∃ k, get m "name" = VNull ∧ AsNumber (get m "key") = Ok k ∧ ∀ a, ¬ LC.holds c a k) →
  ∃ reply, RCS.GetNodeInfo me m s = (Ok tt, RCS.set_sent s [RCS.Send me reply]) ∧
    answer id reply ∧ node_reply None reply.
Proof.
  intros Hs Hm Hid Hn. eexists. unfold RCS.GetNodeInfo. handle. rewrite !At_get, Hid by done.
  split; [|split].
  - destruct Hn as [(n & -> & Hn)|(k & -> & Hk & Hn)]; cbn [IsString AsString]; mred;
      [rewrite (f_nodes _ _ Hs), Hn|rewrite Hk; mred; rewrite (serves_none s c k Hs Hn)]; mred;
      by rewrite (f_sent _ _ Hs).
  - answered.
  - unfold node_reply. rewrite obj_object. fields. done.
Qed.
Lemma GetNumNodeLive_ok (m : V) s c id : serves s c → IsObject m = true → get m "msgid" = of_Z id →
  ∃ reply, RCS.GetNumNodeLive me m s = (Ok tt, RCS.set_sent s [RCS.Send me reply]) ∧
    answer id reply ∧ IsObject reply = true ∧ get reply "success" = VTrue ∧
    get reply "numlivenodes" = of_Z (LC.numlivenodes c).
Proof.
  intros Hs Hm Hid. eexists. unfold RCS.GetNumNodeLive. handle. rewrite !At_get, Hid by done. mred.
  set_at. rewrite (f_sent _ _ Hs), (f_live _ _ Hs). split; [reflexivity|]. split; [answered|].
  rewrite put_object. by fields.
Qed.

(** *** Changes *)
Lemma entry_frame c c' k v : entry c k v →
  LC.kernelmap c' !! k = LC.kernelmap c !! k → LC.nodemap c' !! k = LC.nodemap c !! k →
  LC.readports c' !! k = LC.readports c !! k → LC.writeports c' !! k = LC.writeports c !! k →
  (∀ n i, LC.nodemap c !! n = Some i → ∃ i', LC.nodemap c' !! n = Some i' ∧
     LC.n_kernelkey i' = LC.n_kernelkey i) → entry c' k v.
Proof.
  intros [] E1 E2 E3 E4 Hn.
  assert (∀ partner q, port_entry partner c k q v → port_entry partner c' k q v) as Hp.
  { intros partner q (?&?&?&?&?& i & Ei & Ek). repeat (split; [done|]).
    destruct (Hn _ _ Ei) as (i' & Ei' & E). exists i'. by rewrite E. }
  constructor; rewrite ?E1, ?E2, ?E3, ?E4; auto.
  destruct e_holds0 as [a Ha]. exists a. destruct a; cbn in *; by rewrite ?E1, ?E2, ?E3, ?E4.
Qed.
Definition same_at (c c' : LC.context) (k : Z) : Prop :=
  LC.kernelmap c' !! k = LC.kernelmap c !! k ∧ LC.nodemap c' !! k = LC.nodemap c !! k ∧
  LC.readports c' !! k = LC.readports c !! k ∧ LC.writeports c' !! k = LC.writeports c !! k.
Lemma serves_change s c s' c' : serves s c → LC.wf c' → apart c' → LC.shutdown c' = false →
  RCS.shutdown s' = false → RCS.sent s' = [] →
  RCS.kernelmap s' = LC.kernelnames c' → RCS.nodemap s' = LC.nodenames c' →
  RCS.keycount s' = LC.counter c' → RCS.numlivenodes s' = LC.numlivenodes c' →
  (∀ n i, LC.nodemap c !! n = Some i → ∃ i', LC.nodemap c' !! n = Some i' ∧
     LC.n_kernelkey i' = LC.n_kernelkey i) →
  (∀ k, RCS.datamap s' !! k = RCS.datamap s !! k ∧ same_at c c' k ∨
        ∃ v, RCS.datamap s' !! k = Some v ∧ entry c' k v) →
  serves s' c'.
Proof.
  intros Hs ? ? ? ? ? ? ? ? ? Hn Hd. constructor; try done.
  - intros k v E. destruct (Hd k) as [[E' (?&?&?&?)]|(v' & E' & He)]; [|congruence].
    apply (entry_frame c); try done. apply (f_in _ _ Hs). congruence.
  - intros a k Ha. destruct (Hd k) as [[E' (E1 & E2 & E3 & E4)]|(v' & E' & He)]; rewrite E'; [|done].
    apply (f_all _ _ Hs a). destruct a; cbn in *; by rewrite <- ?E1, <- ?E2, <- ?E3, <- ?E4.
Qed.

Definition created (c c' : LC.context) (k : Z) : Prop :=
  k = LC.counter c + 1 ∧ LC.counter c' = k ∧ LC.loglevel c' = LC.loglevel c.

(** [SetupKernel] of a new name. *)
Lemma SetupKernel_new (m : V) s c n host serv ptr id : serves s c →
  LC.counter c < 18446744073709551615 → LC.kernelnames c !! n = None → ptr ≠ 0 →
  IsObject m = true → get m "msgid" = of_Z id → get m "name" = VString n →
  get m "hostname" = VString host → get m "servname" = VString serv →
  let i := LC.mk_kernel n host serv ptr false false true in let k := LC.counter c + 1 in
  let c' := LC.set_kernels (LC.set_counter c k) (<[n := k]> (LC.kernelnames c))
      (<[k := i]> (LC.kernelmap c)) in
  LC.SetupKernel_remote n host serv ptr c = (Ok k, c') ∧
  ∃ s' reply, serves s' c' ∧
    RCS.SetupKernel me m s = (Ok tt, RCS.set_sent s' [RCS.Send me reply]) ∧
    answer id reply ∧ kernel_reply (Some (k, i)) reply.
Proof.
  intros Hs Hc Hn Hp Hm Hid Hname Hhost Hserv i k c'.
  pose proof (LC.w_counter c (f_wf _ _ Hs)) as Hc0.
  assert (u64 (LC.counter c + 1) = k) as Hu by (apply u64_id; lia).
  pose proof (LC.op_wf (LC.OSetupRemote n host serv ptr) c (f_wf _ _ Hs) Hc) as Hw.
  assert (LC.SetupKernel_remote n host serv ptr c = (Ok k, c')) as El.
  { unfold LC.SetupKernel_remote, LC.setup_kernel, LC.InternalCheckTerminated, LC.NewKey. mred.
    rewrite (f_up _ _ Hs). mred. cbn [LC.k_kernel LC.k_name].
    rewrite (proj2 (Z.eqb_neq ptr 0) Hp). mred. rewrite Hn. mred. by rewrite Hu. }
  set (v := obj [("key", of_Z k); ("name", VString n); ("hostname", VString host);
    ("servname", VString serv); ("live", VFalse); ("type", VString "kernelinfo");
    ("client", VString me)]).
  assert (kernel_entry k i v) as He by (unfold kernel_entry, v; fields; done).
  assert (RCS.datamap s !! k = None) as Hd by (apply (serves_none s c _ Hs), LC.next_fresh, Hs).
  set (s' := RCS.set_kernelmap (RCS.set_data (RCS.set_keycount s k) (<[k := v]> (RCS.datamap s)))
    (<[n := k]> (RCS.kernelmap s))).
  split; [exact El|]. exists s'. eexists _.
  unfold LC.run, LC.mfmap in Hw. revert Hw. mred. rewrite El. cbn [snd]. intros Hw.
  assert (∀ a, ¬ LC.holds c a k) as Hf by apply LC.next_fresh, Hs.
  split; [|split; [|split]].
  - apply (serves_change s c); try done; cbn.
    + apply Hs.
    + apply Hs.
    + apply Hs.
    + apply Hs.
    + by rewrite (f_kernels _ _ Hs).
    + apply Hs.
    + apply Hs.
    + intros n2 i2 E. by exists i2.
    + intros k2. unfold same_at. cbn. destruct (decide (k2 = k)) as [-> |]; simplify_map_eq; [|by left].
      right. exists v. split; [done|]. constructor; cbn.
      * objs.
      * exists LC.Kernel. cbn. by rewrite lookup_insert_eq.
      * rewrite lookup_insert_eq. by intros ? [= <-].
      * intros i2 E. destruct (Hf LC.Node). by exists i2.
      * intros i2 E. destruct (Hf LC.Reader). by exists i2.
      * intros i2 E. destruct (Hf LC.Writer). by exists i2.
  - unfold RCS.SetupKernel. handle. rewrite !At_get, Hname, Hid, Hhost, Hserv by done.
    cbn [AsString]. mred. rewrite (f_kernels _ _ Hs), Hn. mred.
    rewrite (f_keys _ _ Hs), Hu. mred. cbn [RCS.datamap RCS.set_keycount]. rewrite Hd.
    fold v. set_at. cbn. rewrite (f_sent _ _ Hs). reflexivity.
  - answered.
  - split; [objs|]. fields. done.
Qed.

(** [SignalKernelStart] and [SignalKernelEnd] of a kernel. *)
Lemma signal_kernel_ok (m : V) s c k i i' live : serves s c → LC.kernelmap c !! k = Some i →
  LC.k_name i' = LC.k_name i → LC.k_hostname i' = LC.k_hostname i →
  LC.k_servname i' = LC.k_servname i → LC.k_allowremote i' = LC.k_allowremote i →
  live = LC.k_live i' && negb (LC.k_dead i') →
  IsObject m = true → get m "key" = of_Z k →
  let c' := LC.set_kernels c (LC.kernelnames c) (<[k := i']> (LC.kernelmap c)) in
  ∃ s' notice, serves s' c' ∧
    RCS.signal_kernel (of_bool live) m s = (Ok tt, RCS.set_sent s' [RCS.Broadcast notice]) ∧
    event notice.
Proof.
  intros Hs Hk E1 E2 E3 E4 Hlive Hm Hkey c'.
  destruct (serves_kernel s c k i Hs Hk) as (v & Ev & Hv & He).
  assert (LC.holds c LC.Kernel k) as Hh by by exists i.
  pose proof (LC.w_counter c (f_wf _ _ Hs)). pose proof (LC.w_range c (f_wf _ _ Hs) _ _ Hh).
  set (v1 := put v "type" (get v "type")). set (v2 := put v1 "live" (of_bool live)).
  set (v3 := put v2 "name" (get v2 "name")).
  assert (∀ f, get v3 f = if String.eqb f "live" then of_bool live else get v f) as Hg.
  { intros f. unfold v3. rewrite get_put_self. unfold v2. rewrite get_put.
    unfold v1. by rewrite get_put_self. }
  assert (kernel_entry k i' v3) as He'.
  { unfold kernel_entry in *. rewrite !Hg. cbn [String.eqb Ascii.eqb Bool.eqb].
    rewrite E1, E2, E3, E4. subst live. naive_solver. }
  exists (RCS.set_data s (<[k := v3]> (RCS.datamap s))). eexists. split; [|split].
  - apply (serves_change s c); try done; cbn; try apply Hs.
    + apply (LC.wf_put_kernel c k i i'); try done. apply Hs.
    + intros n2 i2 E. by exists i2.
    + intros k2. unfold same_at. cbn. destruct (decide (k2 = k)) as [-> |]; simplify_map_eq; [|by left].
      right. exists v3. split; [done|]. assert (∀ a, LC.holds c a k → a = LC.Kernel) as Hu.
      { intros a Ha. by apply (LC.w_unique c (f_wf _ _ Hs) a LC.Kernel k). }
      constructor; cbn.
      * objs.
      * exists LC.Kernel. cbn. by rewrite lookup_insert_eq.
      * rewrite lookup_insert_eq. by intros ? [= <-].
      * intros i2 E. by discriminate (Hu LC.Node (ex_intro _ i2 E)).
      * intros i2 E. by discriminate (Hu LC.Reader (ex_intro _ i2 E)).
      * intros i2 E. by discriminate (Hu LC.Writer (ex_intro _ i2 E)).
  - unfold RCS.signal_kernel, RCS.NewBroadcastMessage.
    handle. rewrite At_get, Hkey, AsNumber_of_Z by (done || lia). mred.
    rewrite (data_ref_ok k s v Ev). destruct He as (_ & Hnm & _ & _ & _ & Ht & _).
    rewrite (check_type_ok k v "kernelinfo") by done. fold v1. mred. set_at. fold v2. mred.
    rewrite (print_name_ok k v2 (LC.k_name i)); [|objs|]; cycle 1.
    { unfold v2. fields. unfold v1. by rewrite get_put_self. }
    fold v3. mred. set_at. cbn. rewrite !insert_insert_eq, (f_sent _ _ Hs). reflexivity.
  - by split_and!.
Qed.

Lemma CreateNodeKey_taken (m : V) s c n k id : serves s c → LC.nodenames c !! n = Some k →
  IsObject m = true → get m "msgid" = of_Z id → get m "name" = VString n →
  ∃ reply, RCS.CreateNodeKey me m s = (Ok tt, RCS.set_sent s [RCS.Send me reply]) ∧
    answer id reply ∧ node_reply None reply.
Proof.
  intros Hs Hn Hm Hid Hname. eexists. unfold RCS.CreateNodeKey. handle.
  rewrite !At_get, Hname, Hid by done. cbn [AsString]. mred. rewrite (f_nodes _ _ Hs), Hn. mred. set_at.
  rewrite (f_sent _ _ Hs). split; [reflexivity|]. split; [answered|]. split; [objs|]. by fields.
Qed.
Lemma CreateNodeKey_new (m : V) s c n kk id : serves s c →
  LC.counter c < 18446744073709551615 → LC.nodenames c !! n = None →
  0 ≤ kk < 18446744073709551616 → IsObject m = true → get m "msgid" = of_Z id →
  get m "name" = VString n → get m "kernelkey" = of_Z kk →
  let i := LC.mk_node n kk false ∅ ∅ false in let k := LC.counter c + 1 in
  let c' := LC.set_nodes (LC.set_counter c k) (<[n := k]> (LC.nodenames c))
      (<[k := i]> (LC.nodemap c)) in
  LC.CreateNodeKey kk n c = (Ok k, c') ∧
  ∃ s' reply, serves s' c' ∧
    RCS.CreateNodeKey me m s = (Ok tt, RCS.set_sent s' [RCS.Send me reply]) ∧
    answer id reply ∧ node_reply (Some (k, i)) reply.
Proof.
  intros Hs Hc Hn Hkk Hm Hid Hname Hk i k c'.
  pose proof (LC.w_counter c (f_wf _ _ Hs)) as Hc0.
  assert (u64 (LC.counter c + 1) = k) as Hu by (apply u64_id; lia).
  pose proof (LC.op_wf (LC.OCreateNodeKey kk n) c (f_wf _ _ Hs) Hc) as Hw.
  assert (LC.CreateNodeKey kk n c = (Ok k, c')) as El.
  { unfold LC.CreateNodeKey, LC.InternalCheckTerminated, LC.NewKey. mred.
    rewrite (f_up _ _ Hs). mred. rewrite Hn. mred. by rewrite Hu. }
  set (v := obj [("name", VString n); ("key", of_Z k); ("kernelkey", of_Z kk); ("started", VFalse);
    ("dead", VFalse); ("type", VString "nodeinfo"); ("endpoints", VObject [])]).
  assert (node_entry k i v) as He.
  { unfold node_entry, v. fields. repeat (split; [done|]). exists []. split; [done|].
    intros p. cbn. unfold endpoint. cbn. by rewrite !lookup_empty. }
  set (s' := RCS.set_data (RCS.set_nodemap (RCS.set_keycount s k) (<[n := k]> (RCS.nodemap s)))
    (<[k := v]> (RCS.datamap s))).
  split; [exact El|]. exists s'. eexists _.
  unfold LC.run, LC.mfmap in Hw. revert Hw. mred. rewrite El. cbn [snd]. intros Hw.
  assert (∀ a, ¬ LC.holds c a k) as Hf by apply LC.next_fresh, Hs.
  split; [|split; [|split]].
  - apply (serves_change s c); try done; cbn; try apply Hs.
    + intros n2 i2 p. cbn. destruct (decide (n2 = k)) as [-> |]; simplify_map_eq; [|apply Hs].
      intros [= <-]. by left.
    + by rewrite (f_nodes _ _ Hs).
    + intros n2 i2 E. destruct (decide (n2 = k)) as [-> |]; simplify_map_eq; [|by eexists].
      destruct (Hf LC.Node). by eexists.
    + intros k2. unfold same_at. cbn. destruct (decide (k2 = k)) as [-> |]; simplify_map_eq; [|by left].
      right. exists v. split; [done|]. constructor; cbn.
      * objs.
      * exists LC.Node. cbn. by rewrite lookup_insert_eq.
      * intros i2 E. destruct (Hf LC.Kernel). by exists i2.
      * rewrite lookup_insert_eq. by intros ? [= <-].
      * intros i2 E. destruct (Hf LC.Reader). by exists i2.
      * intros i2 E. destruct (Hf LC.Writer). by exists i2.
  - unfold RCS.CreateNodeKey. handle. rewrite !At_get, Hname, Hid, Hk by done.
    cbn [AsString]. mred. rewrite (f_nodes _ _ Hs), Hn. mred.
    rewrite (f_keys _ _ Hs), Hu. mred. fold v. set_at. cbn. rewrite (f_sent _ _ Hs). reflexivity.
  - answered.
  - split; [objs|]. fields. done.
Qed.

(** A node entry that changes and keeps its kernel. *)
Lemma serves_node_put s c k i i' v n0 : serves s c → LC.nodemap c !! k = Some i →
  LC.wf (LC.set_nodes c (LC.nodenames c) (<[k := i']> (LC.nodemap c))) →
  LC.n_kernelkey i' = LC.n_kernelkey i →
  (∀ p, LC.n_readers i' !! p = None ∨ LC.n_writers i' !! p = None) →
  IsObject v = true → node_entry k i' v →
  serves (RCS.set_numlivenodes (RCS.set_data s (<[k := v]> (RCS.datamap s))) n0)
         (LC.set_numlivenodes (LC.set_nodes c (LC.nodenames c) (<[k := i']> (LC.nodemap c))) n0).
Proof.
  intros Hs Hk Hw Ek Ha Hv He. apply (serves_change s c); try done; cbn; try apply Hs.
  - by eapply LC.wf_same.
  - intros n2 i2 p. cbn. destruct (decide (n2 = k)) as [-> |]; simplify_map_eq; [|apply Hs].
    intros [= <-]. apply Ha.
  - intros n2 i2 E. destruct (decide (n2 = k)) as [-> |]; simplify_map_eq; by eexists.
  - assert (∀ a, LC.holds c a k → a = LC.Node) as Hu.
    { intros a Hha. apply (LC.w_unique c (f_wf _ _ Hs) a LC.Node k Hha). by exists i. }
    intros k2. unfold same_at. cbn. destruct (decide (k2 = k)) as [-> |]; simplify_map_eq; [|by left].
    right. exists v. split; [done|]. constructor; cbn.
    + done.
    + exists LC.Node. cbn. by rewrite lookup_insert_eq.
    + intros i2 E. by discriminate (Hu LC.Kernel (ex_intro _ i2 E)).
    + rewrite lookup_insert_eq. by intros ? [= <-].
    + intros i2 E. by discriminate (Hu LC.Reader (ex_intro _ i2 E)).
    + intros i2 E. by discriminate (Hu LC.Writer (ex_intro _ i2 E)).
Qed.

(** [SignalNodeStart] and [SignalNodeEnd] of a node. *)
Lemma signal_node_ok (m : V) s c k i i' change fld : serves s c → LC.nodemap c !! k = Some i →
  LC.n_name i' = LC.n_name i → LC.n_kernelkey i' = LC.n_kernelkey i →
  LC.n_readers i' = LC.n_readers i → LC.n_writers i' = LC.n_writers i →
  (fld = "started" ∧ LC.n_started i' = true ∧ LC.n_dead i' = LC.n_dead i ∨
   fld = "dead" ∧ LC.n_dead i' = true ∧ LC.n_started i' = LC.n_started i) →
  IsObject m = true → get m "key" = of_Z k →
  let n0 := u32 (LC.numlivenodes c + change) in
  let c' := LC.set_numlivenodes (LC.set_nodes c (LC.nodenames c) (<[k := i']> (LC.nodemap c))) n0 in
  ∃ s' notice, serves s' c' ∧
    RCS.signal_node change fld m s = (Ok tt, RCS.set_sent s' [RCS.Broadcast notice]) ∧
    event notice.
Proof.
  intros Hs Hk E1 E2 E3 E4 Hfld Hm Hkey n0 c'.
  destruct (serves_node s c k i Hs Hk) as (v & Ev & Hv & He).
  assert (LC.holds c LC.Node k) as Hh by by exists i.
  pose proof (LC.w_counter c (f_wf _ _ Hs)). pose proof (LC.w_range c (f_wf _ _ Hs) _ _ Hh).
  set (v1 := put v "type" (get v "type")). set (v2 := put v1 fld VTrue).
  set (v3 := put v2 "name" (get v2 "name")).
  assert (∀ f, get v3 f = if String.eqb f fld then VTrue else get v f) as Hg.
  { intros f. unfold v3. rewrite get_put_self. unfold v2. rewrite get_put.
    unfold v1. by rewrite get_put_self. }
  assert (node_entry k i' v3) as He'.
  { unfold node_entry, endpoint in *. rewrite !Hg, E1, E2, E3, E4.
    destruct Hfld as [(-> & -> & ->)|(-> & -> & ->)]; cbn [String.eqb Ascii.eqb Bool.eqb]; naive_solver. }
  exists (RCS.set_numlivenodes (RCS.set_data s (<[k := v3]> (RCS.datamap s))) n0). eexists. split; [|split].
  - apply (serves_node_put s c k i); try done.
    + apply (LC.wf_put_node c k i i'); try done. apply Hs.
    + intros p. rewrite E3, E4. by apply (f_apart _ _ Hs k).
    + objs.
  - unfold RCS.signal_node, RCS.NewBroadcastMessage.
    handle. rewrite At_get, Hkey, AsNumber_of_Z by (done || lia). mred.
    rewrite (data_ref_ok k _ v) by exact Ev. destruct He as (_ & Hnm & _ & _ & _ & _ & Ht & _).
    rewrite (check_type_ok k v "nodeinfo") by done. fold v1. mred. set_at. fold v2. mred.
    rewrite (print_name_ok k v2 (LC.n_name i)); [|objs|]; cycle 1.
    { unfold v2. rewrite get_put. destruct Hfld as [(-> & _)|(-> & _)]; cbn [String.eqb Ascii.eqb Bool.eqb];
        unfold v1; by rewrite get_put_self. }
    fold v3. mred. set_at. cbn. rewrite !insert_insert_eq, (f_sent _ _ Hs), (f_live _ _ Hs). reflexivity.
  - by split_and!.
Qed.

(** *** Endpoints *)
Lemma serves_entry s c k v : serves s c → entry c k v →
  serves (RCS.set_data s (<[k := v]> (RCS.datamap s))) c.
Proof.
  intros Hs He. apply (serves_change s c); try done; try apply Hs.
  - intros n i E. by exists i.
  - intros k2. cbn. destruct (decide (k2 = k)) as [-> |]; simplify_map_eq; [|by left].
    right. by exists v.
Qed.
Definition port_reply (partner : string) (c : LC.context) (o : option (Z * LC.PortInfo)) (reply : V) : Prop :=
  IsObject reply = true ∧
  match o with
  | Some (k, q) => get reply "success" = VTrue ∧ IsObject (get reply "endpointinfo") = true ∧
                   port_entry partner c k q (get reply "endpointinfo")
  | None => get reply "success" = VFalse
  end.

Lemma GetEndpointInfo_found (m : V) s c k partner q v id : serves s c →
  RCS.datamap s !! k = Some v → IsObject v = true → port_entry partner c k q v →
  IsObject m = true → get m "msgid" = of_Z id → AsNumber (get m "key") = Ok k →
  ∃ reply, RCS.GetEndpointInfo me m s = (Ok tt, RCS.set_sent s [RCS.Send me reply]) ∧
    answer id reply ∧ port_reply partner c (Some (k, q)) reply.
Proof.
  intros Hs Ev Hv He Hm Hid Hk. destruct (touched v "type" Hv) as [Ho Hg].
  set (v' := put v "type" (get v "type")) in *.
  assert (port_entry partner c k q v') as He' by (unfold port_entry in *; by rewrite !Hg).
  eexists. unfold RCS.GetEndpointInfo. handle. rewrite !At_get, Hid, Hk by done.
  destruct He as (_ & _ & _ & Ht & _). split; [|split].
  - mred. set_at. rewrite Ev. mred. rewrite At_ref_get by (by left). fold v'. set_at.
    rewrite Ht. cbn [AsString]. mred. cbn [String.eqb Ascii.eqb Bool.eqb].
    by rewrite (f_sent _ _ Hs).
  - answered.
  - split; [objs|]. by fields.
Qed.

Lemma GetCreateEndpointKey_missing (m : V) s c n p id : serves s c → (∀ a, ¬ LC.holds c a n) →
  IsObject m = true → get m "msgid" = of_Z id → AsNumber (get m "nodekey") = Ok n →
  get m "name" = VString p →
  ∃ reply, RCS.GetCreateEndpointKey me m s = (Ok tt, RCS.set_sent s [RCS.Send me reply]) ∧
    answer id reply ∧ IsObject reply = true ∧ get reply "success" = VFalse.
Proof.
  intros Hs Hn Hm Hid Hk Hp. eexists. unfold RCS.GetCreateEndpointKey. handle.
  rewrite !At_get, Hp, Hid, Hk by done. cbn [AsString]. mred. set_at.
  rewrite (serves_none s c n Hs Hn). mred. rewrite (f_sent _ _ Hs).
  split; [reflexivity|]. split; [answered|]. split; [objs|]. by fields.
Qed.

Lemma GetCreateEndpointKey_old (m : V) s c n p i k v q partner id : serves s c →
  LC.nodemap c !! n = Some i → endpoint i p = Some k → n ≠ k → 0 ≤ k < 18446744073709551616 →
  RCS.datamap s !! k = Some v → IsObject v = true → port_entry partner c k q v →
  IsObject m = true → get m "msgid" = of_Z id → AsNumber (get m "nodekey") = Ok n →
  get m "name" = VString p →
  ∃ s' reply, serves s' c ∧
    RCS.GetCreateEndpointKey me m s = (Ok tt, RCS.set_sent s' [RCS.Send me reply]) ∧
    answer id reply ∧ port_reply partner c (Some (k, q)) reply.
Proof.
  intros Hs Hn Hp Hnk Hk Ev Hv He Hm Hid Hkey Hname.
  destruct (serves_node s c n i Hs Hn) as (w & Ew & Hw & Hi).
  destruct Hi as (I1 & I2 & I3 & I4 & I5 & I6 & I7 & eps & I8 & I9).
  destruct (touched v "type" Hv) as [Ho Hg]. set (v' := put v "type" (get v "type")) in *.
  set (w1 := put w "endpoints" (get w "endpoints")).
  set (w2 := put w1 "endpoints" (VObject (map_assign p (of_Z k) eps))).
  set (s1 := RCS.set_data s (<[n := w2]> (RCS.datamap s))).
  assert (entry c n w2) as Hw2.
  { pose proof (f_in _ _ Hs n w Ew) as [_ Hh Hkk _ Hr Hwr].
    assert (∀ a, LC.holds c a n → a = LC.Node) as Hu.
    { intros a Hha. apply (LC.w_unique c (f_wf _ _ Hs) a LC.Node n Hha). by exists i. }
    constructor; [objs|done|..].
    - intros i2 E. by discriminate (Hu LC.Kernel (ex_intro _ i2 E)).
    - intros i2 E. simplify_eq. unfold node_entry, w2, w1. rewrite !get_put.
      cbn [String.eqb Ascii.eqb Bool.eqb]. repeat (split; [done|]). eexists. split; [done|].
      intros p'. rewrite map_find_assign. destruct (String.eqb_spec p' p) as [-> |]; [by rewrite Hp|apply I9].
    - intros i2 E. by discriminate (Hu LC.Reader (ex_intro _ i2 E)).
    - intros i2 E. by discriminate (Hu LC.Writer (ex_intro _ i2 E)). }
  assert (serves s1 c) as Hs1 by by apply serves_entry.
  assert (RCS.datamap s1 !! k = Some v) as Ev1 by (cbn; by rewrite lookup_insert_ne).
  assert (port_entry partner c k q v') as He' by (unfold port_entry in *; by rewrite !Hg).
  exists (RCS.set_data s1 (<[k := v']> (RCS.datamap s1))). eexists.
  split; [by eapply serves_touch|].
  unfold RCS.GetCreateEndpointKey. handle. rewrite !At_get, Hname, Hid, Hkey by done.
  cbn [AsString]. mred. set_at. rewrite Ew. mred. rewrite (field_ref_ok n w) by done. fold w1. mred.
  rewrite I8. cbn [At_ref]. rewrite I9, Hp. cbn [fmap option_fmap option_map default Datatypes.id]. mred. set_at. fold w2.
  rewrite put_shared_ok by done. mred. cbn [IsNumber of_Z]. mred.
  rewrite AsNumber_of_Z by done. mred. cbn [RCS.datamap RCS.set_data]. rewrite insert_insert_eq.
  change (RCS.set_data _ (<[n := w2]> (RCS.datamap s))) with s1.
  rewrite (data_ref_ok k s1 v Ev1). destruct He as (_ & _ & _ & Ht & _).
  rewrite (check_type_ok k v "endpointinfo") by done. fold v'. mred. set_at.
  split; [|split].
  - cbn. rewrite (f_sent _ _ Hs). reflexivity.
  - answered.
  - split; [objs|]. by fields.
Qed.

Lemma GetCreateEndpointKey_new (m : V) s c n p i id : serves s c →
  LC.counter c < 18446744073709551615 → LC.nodemap c !! n = Some i → endpoint i p = None →
  0 ≤ n < 18446744073709551616 →
  IsObject m = true → get m "msgid" = of_Z id → AsNumber (get m "nodekey") = Ok n →
  get m "name" = VString p →
  let k := LC.counter c + 1 in
  ∃ w eps ep reply, IsObject w = true ∧ IsObject ep = true ∧
    (∀ v, RCS.datamap s !! n = Some v → ∀ f, f ≠ "endpoints" → get w f = get v f) ∧
    get w "endpoints" = VObject eps ∧
    (∀ p', map_find p' eps = if String.eqb p' p then Some (of_Z k) else of_Z <$> endpoint i p') ∧
    (get ep "key" = of_Z k ∧ get ep "name" = VString p ∧ get ep "nodekey" = of_Z n ∧
     get ep "kernelkey" = of_Z (LC.n_kernelkey i) ∧ get ep "type" = VString "endpointinfo" ∧
     get ep "writerkey" = VNull ∧ get ep "readerkey" = VNull) ∧
    RCS.GetCreateEndpointKey me m s = (Ok tt, RCS.set_sent (RCS.set_data (RCS.set_keycount s k)
      (<[k := ep]> (<[n := w]> (RCS.datamap s)))) [RCS.Send me reply]) ∧
    answer id reply ∧ IsObject reply = true ∧ get reply "success" = VTrue ∧ get reply "endpointinfo" = ep.
Proof.
  intros Hs Hc Hn Hp Hnr Hm Hid Hkey Hname k.
  pose proof (LC.w_counter c (f_wf _ _ Hs)) as Hc0.
  assert (u64 (LC.counter c + 1) = k) as Hu by (apply u64_id; lia).
  destruct (serves_node s c n i Hs Hn) as (v & Ev & Hv & Hi).
  destruct Hi as (I1 & I2 & I3 & I4 & I5 & I6 & I7 & eps & I8 & I9).
  set (w1 := put v "endpoints" (get v "endpoints")).
  set (w2 := put w1 "endpoints" (VObject (map_assign p VNull eps))).
  set (w3 := put w2 "endpoints" (VObject (map_assign p (of_Z k) eps))).
  set (w := put w3 "kernelkey" (get w3 "kernelkey")).
  set (ep := obj [("key", of_Z k); ("name", VString p); ("nodekey", of_Z n);
    ("kernelkey", of_Z (LC.n_kernelkey i)); ("live", VTrue); ("type", VString "endpointinfo")]).
  assert (get w3 "kernelkey" = of_Z (LC.n_kernelkey i)) as Hw3
    by (unfold w3, w2, w1; rewrite !get_put; exact I3).
  exists w, (map_assign p (of_Z k) eps), ep. eexists.
  split; [objs|]. split; [objs|]. split; [|split; [|split; [|split]]].
  - intros v2 E2 f Hf. simplify_eq. unfold w. rewrite get_put_self. unfold w3, w2, w1.
    rewrite !get_put. by rewrite (proj2 (String.eqb_neq f "endpoints") Hf).
  - unfold w. rewrite get_put_self. unfold w3. by rewrite get_put.
  - intros p'. rewrite map_find_assign. by destruct (String.eqb p' p).
  - unfold ep. fields. done.
  - unfold RCS.GetCreateEndpointKey. handle. rewrite !At_get, Hname, Hid, Hkey by done.
    cbn [AsString]. mred. set_at. rewrite Ev. mred. rewrite (field_ref_ok n v) by done. fold w1. mred.
    rewrite I8. cbn [At_ref]. rewrite I9, Hp. cbn [fmap option_fmap option_map default Datatypes.id]. mred. set_at. fold w2.
    rewrite put_shared_ok by done. mred. cbn [IsNumber]. mred.
    cbn [RCS.keycount RCS.set_data]. rewrite (f_keys _ _ Hs), Hu.
    rewrite (Set_at_put (VObject _)) by by left. cbn [put]. rewrite map_assign_twice. mred. set_at. fold w3.
    rewrite put_shared_ok by done. mred. rewrite At_ref_get by (left; objs). fold w. mred.
    rewrite put_shared_ok by done. rewrite Hw3. mred. fold ep. set_at.
    split; [|split; [|split; [|split]]].
    + unfold RCS.set_data, RCS.set_sent, RCS.set_keycount.
      cbn [RCS.datamap RCS.kernelmap RCS.nodemap RCS.shutdown RCS.numlivenodes RCS.keycount RCS.sent].
      rewrite !insert_insert_eq, (f_sent _ _ Hs). reflexivity.
    + answered.
    + objs.
    + by fields.
    + by fields.
Qed.

Lemma serves_new_port s c c' n i i' k q w eps ep (reads : bool) : serves s c → LC.wf c' →
  k = LC.counter c + 1 → LC.nodemap c !! n = Some i → IsObject w = true → IsObject ep = true →
  (∀ v, RCS.datamap s !! n = Some v → ∀ f, f ≠ "endpoints" → get w f = get v f) →
  get w "endpoints" = VObject eps → (∀ p', map_find p' eps = of_Z <$> endpoint i' p') →
  LC.nodemap c' = <[n := i']> (LC.nodemap c) → LC.kernelmap c' = LC.kernelmap c →
  LC.readports c' = (if reads then <[k := q]> (LC.readports c) else LC.readports c) →
  LC.writeports c' = (if reads then LC.writeports c else <[k := q]> (LC.writeports c)) →
  LC.kernelnames c' = LC.kernelnames c → LC.nodenames c' = LC.nodenames c → LC.counter c' = k →
  LC.shutdown c' = false → LC.numlivenodes c' = LC.numlivenodes c →
  LC.n_name i' = LC.n_name i → LC.n_kernelkey i' = LC.n_kernelkey i →
  LC.n_started i' = LC.n_started i → LC.n_dead i' = LC.n_dead i →
  (∀ p, LC.n_readers i' !! p = None ∨ LC.n_writers i' !! p = None) →
  port_entry (if reads then "writerkey" else "readerkey") c' k q ep →
  serves (RCS.set_data (RCS.set_keycount s k) (<[k := ep]> (<[n := w]> (RCS.datamap s)))) c'.
Proof.
  intros Hs Hw' Ek Hn Hw Hep Hg Heps Hfind En Em Er Ew Ekn Enn Ec Esd Enl E1 E2 E3 E4 Ha He.
  destruct (serves_node s c n i Hs Hn) as (v & Ev & Hv & Hi).
  assert (∀ a, LC.holds c a n → a = LC.Node) as Hu.
  { intros a Hha. apply (LC.w_unique c (f_wf _ _ Hs) a LC.Node n Hha). by exists i. }
  assert (∀ a, ¬ LC.holds c a k) as Hf by (rewrite Ek; apply LC.next_fresh, Hs).
  assert (n ≠ k) as Hnk by (intros ->; apply (Hf LC.Node); by exists i).
  apply (serves_change s c); try done; cbn; rewrite ?Ekn, ?Enn, ?Ec, ?Enl; try apply Hs; try done.
  - intros n2 i2 p. rewrite En. destruct (decide (n2 = n)) as [-> |]; simplify_map_eq; [|apply Hs].
    intros [= <-]. apply Ha.
  - intros n2 i2 E. rewrite En. destruct (decide (n2 = n)) as [-> |]; simplify_map_eq; by eexists.
  - intros k2. unfold same_at. rewrite En, Em, Er, Ew.
    destruct (decide (k2 = k)) as [-> |].
    + right. exists ep. rewrite lookup_insert_eq. split; [done|]. constructor; rewrite ?En, ?Em, ?Er, ?Ew.
      * done.
      * exists (if reads then LC.Reader else LC.Writer).
        destruct reads; cbn; rewrite ?Er, ?Ew, lookup_insert_eq; done.
      * intros i2 E. destruct (Hf LC.Kernel). by exists i2.
      * intros i2 E. rewrite lookup_insert_ne in E by done. destruct (Hf LC.Node). by exists i2.
      * destruct reads; intros q2 E; simplify_map_eq; [done|]. destruct (Hf LC.Reader). by exists q2.
      * destruct reads; intros q2 E; simplify_map_eq; [|done]. destruct (Hf LC.Writer). by exists q2.
    + rewrite lookup_insert_ne by done. destruct (decide (k2 = n)) as [-> |].
      * right. exists w. rewrite lookup_insert_eq. split; [done|].
        assert (∀ a, LC.holds c' a n → a = LC.Node) as Hu'.
        { intros a Hha. apply (LC.w_unique c' Hw' a LC.Node n Hha). exists i'. by rewrite En, lookup_insert_eq. }
        constructor.
        -- done.
        -- exists LC.Node. cbn. by rewrite En, lookup_insert_eq.
        -- intros i2 E. by discriminate (Hu' LC.Kernel (ex_intro _ i2 E)).
        -- intros i2. rewrite En, lookup_insert_eq. intros [= <-].
           unfold node_entry in *. rewrite !(Hg v Ev) by done. rewrite E1, E2, E3, E4.
           destruct Hi as (?&?&?&?&?&?&?&_). repeat (split; [done|]). by exists eps.
        -- intros i2 E. by discriminate (Hu' LC.Reader (ex_intro _ i2 E)).
        -- intros i2 E. by discriminate (Hu' LC.Writer (ex_intro _ i2 E)).
      * left. rewrite !lookup_insert_ne by done. split_and!; try done; destruct reads;
          by rewrite ?lookup_insert_ne.
Qed.

Lemma connect_ok (m : V) s c w r wp rp qname : serves s c → LC.writeports c !! w = Some wp →
  LC.readports c !! r = Some rp → IsObject m = true → get m "writerkey" = of_Z w →
  get m "readerkey" = of_Z r → get m "qname" = VString qname →
  let c' := LC.set_ports c (<[r := LC.mk_port (LC.p_name rp) qname (LC.p_nodekey rp) w (LC.p_dead rp)]>
                               (LC.readports c))
              (<[w := LC.mk_port (LC.p_name wp) qname (LC.p_nodekey wp) r (LC.p_dead wp)]> (LC.writeports c)) in
  ∃ s', serves s' c' ∧ RCS.ConnectEndpoints m s = (Ok tt, s').
Proof.
  intros Hs Hw Hr Hm Hwk Hrk Hq c'. pose proof (f_wf _ _ Hs) as Hwf.
  assert (LC.holds c LC.Writer w) as Hhw by by exists wp.
  assert (LC.holds c LC.Reader r) as Hhr by by exists rp.
  pose proof (LC.w_counter c Hwf). pose proof (LC.w_range c Hwf _ _ Hhw).
  pose proof (LC.w_range c Hwf _ _ Hhr).
  assert (w ≠ r) as Hne by (intros ->; by discriminate (LC.w_unique c Hwf _ _ _ Hhw Hhr)).
  destruct (serves_writer s c w wp Hs Hw) as (v & Ev & Hv & Hvp).
  destruct (serves_reader s c r rp Hs Hr) as (u & Eu & Hu & Hup).
  set (v1 := put v "readerkey" (of_Z r)). set (u1 := put u "writerkey" (of_Z w)).
  set (u2 := put u1 "qname" (VString qname)). set (v2 := put v1 "qname" (VString qname)).
  set (d := <[w := v2]> (<[r := u2]> (<[r := u1]> (<[w := v1]> (RCS.datamap s))))).
  exists (RCS.set_data s d). split.
  - assert (LC.wf c') as Hw' by (by apply (LC.wf_connect c w r)).
    apply (serves_change s c); try done; cbn; try apply Hs.
    + intros n i E. by exists i.
    + intros k. unfold same_at. cbn. destruct (decide (k = w)) as [-> |]; [|destruct (decide (k = r)) as [-> |]].
      * right. exists v2. split; [by unfold d; rewrite lookup_insert_eq|].
        assert (∀ a, LC.holds c a w → a = LC.Writer) as Hx by (intros a Ha; by apply (LC.w_unique c Hwf a _ w)).
        constructor; cbn.
        -- objs.
        -- exists LC.Writer. cbn. by rewrite lookup_insert_eq.
        -- intros i2 E. by discriminate (Hx LC.Kernel (ex_intro _ i2 E)).
        -- intros i2 E. by discriminate (Hx LC.Node (ex_intro _ i2 E)).
        -- intros i2 E. rewrite lookup_insert_ne in E by done.
           by discriminate (Hx LC.Reader (ex_intro _ i2 E)).
        -- rewrite lookup_insert_eq. intros ? [= <-]. unfold port_entry in *. cbn. unfold v2, v1.
           rewrite !get_put. cbn [String.eqb Ascii.eqb Bool.eqb]. rewrite AsNumber_of_Z by lia.
           destruct Hvp as (?&?&?&?&_&?). by split_and!.
      * right. exists u2. split; [by unfold d; rewrite lookup_insert_ne, lookup_insert_eq|].
        assert (∀ a, LC.holds c a r → a = LC.Reader) as Hx by (intros a Ha; by apply (LC.w_unique c Hwf a _ r)).
        constructor; cbn.
        -- objs.
        -- exists LC.Reader. cbn. by rewrite lookup_insert_eq.
        -- intros i2 E. by discriminate (Hx LC.Kernel (ex_intro _ i2 E)).
        -- intros i2 E. by discriminate (Hx LC.Node (ex_intro _ i2 E)).
        -- rewrite lookup_insert_eq. intros ? [= <-]. unfold port_entry in *. cbn. unfold u2, u1.
           rewrite !get_put. cbn [String.eqb Ascii.eqb Bool.eqb]. rewrite AsNumber_of_Z by lia.
           destruct Hup as (?&?&?&?&_&?). by split_and!.
        -- intros i2 E. rewrite lookup_insert_ne in E by done.
           by discriminate (Hx LC.Writer (ex_intro _ i2 E)).
      * left. unfold d. by rewrite !lookup_insert_ne.
  - unfold RCS.ConnectEndpoints, RCS.assign. handle. rewrite !At_get, Hwk, Hrk, Hq by done.
    rewrite AsNumber_of_Z by lia. mred. rewrite AsNumber_of_Z by lia. cbn [AsString]. mred.
    rewrite (data_ref_ok w s v Ev). rewrite (Set_at_put v) by by left. fold v1. mred.
    rewrite (data_ref_ok r _ u) by (cbn; by rewrite lookup_insert_ne).
    rewrite (Set_at_put u) by by left. fold u1. mred.
    rewrite (data_ref_ok r _ u1) by (cbn; by rewrite lookup_insert_eq).
    rewrite (Set_at_put u1) by apply plain_put. fold u2. mred.
    rewrite (data_ref_ok w _ v1) by (cbn; by rewrite !lookup_insert_ne, lookup_insert_eq by done).
    rewrite (Set_at_put v1) by apply plain_put. reflexivity.
Qed.

(** A message for a kernel is passed on. *)
Lemma route_ok (m : V) s c k i : serves s c → LC.kernelmap c !! k = Some i → IsObject m = true →
  get m "kernelkey" = of_Z k →
  ∃ s', serves s' c ∧ RCS.RouteKernelMessage m s = (Ok tt, RCS.set_sent s' [RCS.Send me m]).
Proof.
  intros Hs Hk Hm Hkey. destruct (serves_kernel s c k i Hs Hk) as (v & Ev & Hv & He).
  assert (LC.holds c LC.Kernel k) as Hh by by exists i.
  pose proof (LC.w_counter c (f_wf _ _ Hs)). pose proof (LC.w_range c (f_wf _ _ Hs) _ _ Hh).
  destruct (touched v "client" Hv) as [Ho Hg].
  eexists. split; [eapply (serves_touch s c k v); [done|done|exact Ho|exact Hg]|].
  unfold RCS.RouteKernelMessage. handle. rewrite At_get, Hkey, AsNumber_of_Z by (done || lia). mred.
  rewrite (data_ref_ok k s v Ev), field_ref_ok by done. mred.
  destruct He as (_ & _ & _ & _ & _ & _ & Hc & _). rewrite Hc. cbn [AsString]. mred.
  cbn [RCS.sent RCS.set_data]. rewrite (f_sent _ _ Hs). reflexivity.
Qed.
End system. End RC.
