(* ===== verification/RemoteRefinement.v ===== *)
(** A client with the server is a local context: the operations of
    [RemoteContext], one after another, do what those of [LocalContext] do. *)
From S2P Require Import Prelude Variant RemoteServer RemoteClient LocalContext RemoteContext.

Module RCR.
Import RCC RC.
Open Scope string_scope.
Open Scope Z_scope.

Section refinement.
Context {F : Type} `{LongDouble F} `{!LongDoubleLaws F}.
Notation V := (Variant F).
Variable me : string.
Notation serves := (RC.serves me).
Notation remote := (RC.remote me).
Notation replies := (RC.replies me).
Notation kernel_reply := (RC.kernel_reply me).
Notation kernel_entry := (RC.kernel_entry me).

(** ** Running the client *)
Definition bindp {A B} (g : A → prog F B) (x : paused F A * client F) : paused F B * client F :=
  match x with
  | (Finished (Ok a), c) => run (g a) c
  | (Finished (Err e), c) => (Finished (Err e), c)
  | (Sleeping t f, c) => (Sleeping t (λ b, pbind (f b) g), c)
  end.
Lemma run_pbind {A B} (p : prog F A) (g : A → prog F B) : ∀ c, run (pbind p g) c = bindp g (run p c).
Proof.
  induction p as [[a|e]|D m k IH|D t k IH]; intros c; cbn; [done|done| |].
  - destruct (m c) as [[b|e] c']; [apply IH|done].
  - destruct (t false c) as [[[b|]|e] c']; [apply IH|done..].
Qed.
Lemma awaits_bind {A B} (p : prog F A) (g : A → prog F B) c m k q : awaits p c m k q →
  awaits (pbind p g) c m (λ r, pbind (k r) g) q.
Proof.
  intros (D & t & f & c1 & id & a & E & E0 & E1 & E2 & E3 & E4 & E5 & E6 & Hr).
  exists D, t, (λ b, pbind (f b) g), c1, id, a. rewrite run_pbind, E. split_and!; try done.
  intros c2 reply H1 H2. rewrite run_pbind, <- (Hr c2 reply H1 H2). cbn.
  destruct (t true c2) as [[[b|]|e] c']; [apply run_pbind|done..].
Qed.
Lemma awaits_unless (p : prog F unit) c m k q : quiet c → awaits p c m k q →
  awaits (unless_shutdown p) c m k q.
Proof.
  intros (Q1 & _) (B & t & f & c1 & id & a & E & Hr). exists B, t, f, c1, id, a. split; [|done].
  unfold unless_shutdown. cbn [run]. mred. by rewrite Q1.
Qed.
Lemma run_lift {A} (r : res A) (c : client F) : run (lift (mlift r)) c = (Finished r, c).
Proof. by destruct r. Qed.
Lemma run_massert (c : client F) : run (lift (massert true)) c = (Finished (Ok tt), c).
Proof. done. Qed.
Lemma run_checked {A} (p : prog F A) c : quiet c → run (checked p) c = run p c.
Proof.
  intros (Q1 & _). unfold checked. cbn [run]. unfold InternalCheckTerminated. mred. by rewrite Q1.
Qed.
Lemma run_send (m : V) (c : client F) : quiet c →
  run (lift (SendMessage m)) c = (Finished (Ok tt), set_sent c [m]).
Proof. intros (_ & _ & _ & Q). unfold SendMessage. cbn. by rewrite Q. Qed.
Lemma run_true_field (v : V) k (c : client F) : IsObject v = true →
  run (lift (mlift (true_field v k))) c = (Finished (Ok (IsTrue (get v k))), c).
Proof. intros Hv. rewrite run_lift. unfold true_field. mred. by rewrite At_ref_get by (by left). Qed.
Lemma run_success (v : V) (c : client F) : IsObject v = true →
  run (success v) c = (Finished (Ok (IsTrue (get v "success"))), c).
Proof. apply run_true_field. Qed.
Lemma run_succeeds (v : V) (c : client F) : IsObject v = true →
  run (succeeds v) c = (Finished (if IsTrue (get v "success") then Ok tt else Err InvalidArgument), c).
Proof.
  intros Hv. unfold succeeds. rewrite run_pbind, run_success by done. cbn. by destruct (IsTrue _).
Qed.
Lemma run_field (v : V) k (c : client F) : IsObject v = true → run (field v k) c = (Finished (Ok (get v k)), c).
Proof. intros Hv. unfold field. rewrite run_lift. mred. by rewrite At_ref_get by (by left). Qed.
Lemma run_key_field (v : V) k (c : client F) : IsObject v = true →
  run (key_field v k) c = (Finished (AsNumber (get v k)), c).
Proof. intros Hv. unfold key_field. rewrite run_lift. mred. by rewrite At_ref_get by (by left). Qed.
Lemma run_string_field (v : V) k (c : client F) : IsObject v = true →
  run (string_field v k) c = (Finished (AsString (get v k)), c).
Proof. intros Hv. unfold string_field. rewrite run_lift. mred. by rewrite At_ref_get by (by left). Qed.
(** Runs a program over the fields of objects. *)
Ltac runs := repeat (rewrite ?run_pbind;
  first [rewrite run_succeeds by done | rewrite run_success by done | rewrite run_true_field by done
        |rewrite run_field by done | rewrite run_key_field by done | rewrite run_string_field by done];
  cbn [bindp]).

(** ** The operations of a context, remotely *)
Variable attr : @SimpleQueueAttr F.         (** what [SendCreateQueue] is called with *)

Definition val {A} (f : A → LC.value) (p : prog F A) : M (system (F := F)) LC.value :=
  o ← remote p; mret (LC.wait_value f o).
Definition unit_value {A} (_ : A) : LC.value := LC.VUnit.
Definition remote_run (o : LC.op) : M (system (F := F)) LC.value :=
  match o with
  | LC.OSetLogLevel l => val LC.VKey (SetLogLevel l)
  | LC.OSetupRemote n h sn k => val LC.VKey (SetupKernel n h sn k)
  | LC.OSetup n k => val LC.VKey (SetupKernel_local n k)
  | LC.OGetKernelKey n => val LC.VKey (GetKernelKey n)
  | LC.OGetKernelName k => val LC.VName (GetKernelName k)
  | LC.OGetKernelConnectionInfo k => val (λ i, LC.VInfo i.1 i.2) (GetKernelConnectionInfo k)
  | LC.OSignalKernelEnd k => val unit_value (SignalKernelEnd k)
  | LC.OSignalKernelStart k => val unit_value (SignalKernelStart k)
  | LC.OWaitForKernelStart n => val LC.VKey (WaitForKernelStart n)
  | LC.OSendCreate k =>
    (** the value is the kernel that is called *)
    remote (SendCreateQueue k attr) ;; s ← mget;
    mret (LC.VKey (match last (calls (cl s)) with Some (p, _) => p | None => 0 end))
  | LC.OCreateNodeKey k n => val LC.VKey (CreateNodeKey k n)
  | LC.OGetNodeKey n => val LC.VKey (GetNodeKey n)
  | LC.OGetNodeName k => val LC.VName (GetNodeName k)
  | LC.OSignalNodeStart k => val unit_value (SignalNodeStart k)
  | LC.OSignalNodeEnd k => val unit_value (SignalNodeEnd k)
  | LC.OWaitForNodeStart n => val LC.VKey (WaitForNodeStart n)
  | LC.OWaitForNodeEnd n => val unit_value (WaitForNodeEnd n)
  | LC.OWaitForAllNodeEnd => val unit_value WaitForAllNodeEnd
  | LC.OGetNodeKernel k => val LC.VKey (GetNodeKernel k)
  | LC.OGetCreateReaderKey k p => val LC.VKey (GetCreateReaderKey k p)
  | LC.OGetReaderNode k => val LC.VKey (GetReaderNode k)
  | LC.OGetReaderKernel k => val LC.VKey (GetReaderKernel k)
  | LC.OGetReaderName k => val LC.VName (GetReaderName k)
  | LC.OGetCreateWriterKey k p => val LC.VKey (GetCreateWriterKey k p)
  | LC.OGetWriterNode k => val LC.VKey (GetWriterNode k)
  | LC.OGetWriterKernel k => val LC.VKey (GetWriterKernel k)
  | LC.OGetWriterName k => val LC.VName (GetWriterName k)
  | LC.OConnectEndpoints w r q => val unit_value (ConnectEndpoints w r q)
  | LC.OGetReadersWriter k => val LC.VKey (GetReadersWriter k)
  | LC.OGetWritersReader k => val LC.VKey (GetWritersReader k)
  | LC.OTerminate => val unit_value Terminate
  | LC.OIsTerminated => val LC.VBool IsTerminated
  end.

(** A key is of the kind or of no kind: asking the server for a kernel with
    the key of a node ends the server. *)
Definition is_key (k : Z) : Prop := 0 ≤ k < 18446744073709551616.
Definition only (c : LC.context) (a : LC.kind) (k : Z) : Prop :=
  is_key k ∧ ∀ b, LC.holds c b k → b = a.
(** The fields of the attributes are words of their C++ types. *)
Definition attr_fits : Prop :=
  is_key (q_hint attr) ∧ is_key (q_readerkey attr) ∧ is_key (q_writerkey attr) ∧
  is_key (q_readernodekey attr) ∧ is_key (q_writernodekey attr) ∧
  0 ≤ q_length attr < 4294967296 ∧ 0 ≤ q_maxThreshold attr < 4294967296 ∧
  0 ≤ q_numChannels attr < 4294967296 ∧ 0 ≤ q_maxwritethreshold attr < 4294967296.
(** The calls for which the remote context is to be a local one. *)
Definition allowed (c : LC.context) (o : LC.op) : Prop :=
  LC.counter c < 18446744073709551615 ∧
  match o with
  | LC.OSetLogLevel _ | LC.OGetKernelKey _ | LC.OGetNodeKey _ | LC.OWaitForNodeStart _
  | LC.OWaitForAllNodeEnd | LC.OIsTerminated => True
  | LC.OSetupRemote n _ _ _ => LC.kernelnames c !! n = None
  | LC.OSetup _ _ | LC.OTerminate => False
  | LC.OGetKernelName k | LC.OGetKernelConnectionInfo k => only c LC.Kernel k
  | LC.OSignalKernelEnd k => is_Some (LC.kernelmap c !! k)
  | LC.OSignalKernelStart k => ∃ i, LC.kernelmap c !! k = Some i ∧ LC.k_dead i = false
  | LC.OSendCreate k => attr_fits ∧ ∃ i, LC.kernelmap c !! k = Some i ∧ LC.k_dead i = false
  | LC.OWaitForKernelStart n => ∀ k i, LC.kernelnames c !! n = Some k →
    LC.kernelmap c !! k = Some i → LC.k_dead i = false
  | LC.OCreateNodeKey k _ => is_key k
  | LC.OGetNodeName k | LC.OGetNodeKernel k => only c LC.Node k
  | LC.OSignalNodeStart k | LC.OSignalNodeEnd k => is_Some (LC.nodemap c !! k)
  | LC.OWaitForNodeEnd n => ∀ k i, LC.nodenames c !! n = Some k →
    LC.nodemap c !! k = Some i → LC.n_dead i = true → LC.n_started i = true
  | LC.OGetCreateReaderKey n p => only c LC.Node n ∧
    ∀ i, LC.nodemap c !! n = Some i → LC.n_writers i !! p = None
  | LC.OGetCreateWriterKey n p => only c LC.Node n ∧
    ∀ i, LC.nodemap c !! n = Some i → LC.n_readers i !! p = None
  | LC.OGetReaderNode k | LC.OGetReaderKernel k | LC.OGetReaderName k | LC.OGetReadersWriter k =>
    is_Some (LC.readports c !! k)
  | LC.OGetWriterNode k | LC.OGetWriterKernel k | LC.OGetWriterName k | LC.OGetWritersReader k =>
    is_Some (LC.writeports c !! k)
  | LC.OConnectEndpoints w r _ => is_Some (LC.writeports c !! w) ∧ is_Some (LC.readports c !! r)
  end.

(** A remote context at rest, and the local context that it is. *)
Record refines (s : system) (c : LC.context) : Prop := {
  r_serves : serves (sv s) c; r_quiet : quiet (cl s);
  r_level : loglevel (cl s) = LC.loglevel c;
  r_live : 0 ≤ LC.numlivenodes c < 4294967296;
  r_kernels k i : LC.kernelmap c !! k = Some i → LC.k_dead i = false →
    kernels (cl s) !! k = Some (LC.k_kernel i) ∧ LC.k_kernel i ≠ 0;
  r_known k : is_Some (kernels (cl s) !! k) → k ≤ LC.counter c }.
Definition agree (o : LC.op) (s : system) (c : LC.context) : Prop :=
  ∃ r s' c', remote_run o s = (r, s') ∧ LC.run o c = (r, c') ∧ refines s' c'.

(** What an operation on nodes or endpoints keeps. *)
Record keeps (c c' : LC.context) : Prop := {
  k_level : LC.loglevel c' = LC.loglevel c;
  k_live : 0 ≤ LC.numlivenodes c' < 4294967296;
  k_counter : LC.counter c ≤ LC.counter c';
  k_kernels : LC.kernelmap c' = LC.kernelmap c }.
Lemma keeps_refl s c : refines s c → keeps c c.
Proof. intros []. by constructor. Qed.
Lemma refines_intro s c s' c' cl' : refines s c → quiet cl' → same_client (cl s) cl' → serves s' c' →
  keeps c c' → refines (mk_system s' cl') c'.
Proof.
  intros [] Hq [E1 E2] Hs []. constructor; cbn; rewrite ?E1; try done.
  - congruence.
  - rewrite k_kernels0. apply r_kernels0.
  - intros k Hk. etrans; [by apply r_known0|done].
Qed.

(** ** The ways an operation runs *)
Definition outcome {A} (f : A → LC.value) (st : paused F A) : res LC.value :=
  match st with
  | Finished (Ok a) => Ok (f a) | Finished (Err e) => Err e | Sleeping _ _ => Ok LC.VWaits
  end.
Lemma agree_call {A} o s c (f : A → LC.value) p t l k q P :
  refines s c → remote_run o = val f p → last_of "type" l = None →
  awaits p (cl s) (request t l) k q → replies t l (sv s) P →
  (∀ s' reply c2, P s' reply → quiet c2 → same_client (cl s) c2 → queues c2 = q →
     ∃ c3 c', (run (k reply) c2).2 = c3 ∧ LC.run o c = (outcome f (run (k reply) c2).1, c') ∧
     refines (mk_system s' c3) c') →
  agree o s c.
Proof.
  intros Hr Eo Hl Ha Hrep Hk. destruct (remote_call me p s t l k q P) as
    (s' & c2 & reply & Q & Sc & Hq & HP & E); try done; try apply Hr.
  destruct (Hk s' reply c2 HP Q Sc Hq) as (c3 & c' & E3 & El & Hr').
  exists (outcome f (run (k reply) c2).1), (mk_system s' c3), c'. split; [|done].
  rewrite Eo. unfold val. mred. rewrite E.
  destruct (run (k reply) c2) as [st c4]. cbn in E3 |- *. subst c4.
  rewrite settle_quiet by apply Hr'. by destruct st as [[a|e]|B u v].
Qed.
Lemma agree_send o s c p c0 m t sv' outs c' : refines s c → remote_run o = val unit_value p →
  run p (cl s) = (Finished (Ok tt), set_sent c0 [m]) → quiet c0 →
  IsObject m = true → get m "type" = of_Z (RCS.rctxmt t) →
  handler me t m (sv s) = (Ok tt, RCS.set_sent sv' outs) → RCS.sent sv' = [] →
  (outs = [] ∨ ∃ n, outs = [RCS.Broadcast n] ∧ event n) →
  (∀ c3, quiet c3 → same_client c0 c3 → refines (mk_system sv' c3) c') →
  LC.run o c = (Ok LC.VUnit, c') → agree o s c.
Proof.
  intros Hr Eo E Q Hm Ht Hd Hs Ho Hk El.
  destruct (exchange_send me m (sv s) c0 sv' outs) as (c3 & Q3 & Sc & Ex); try done.
  { rewrite (dispatch_handler me t); try done. apply Hr. }
  eexists _, (mk_system sv' c3), c'. split; [|split; [done|by apply Hk]].
  rewrite Eo. unfold val. mred.
  by rewrite (remote_finished me p s _ _ _ E Ex) by (apply Q3 || done).
Qed.
Lemma agree_local {A} o s c (f : A → LC.value) p r c1 c' : refines s c → remote_run o = val f p →
  run p (cl s) = (Finished r, c1) → LC.run o c = (outcome f (Finished r), c') →
  refines (mk_system (sv s) c1) c' → agree o s c.
Proof.
  intros Hr Eo E El Hr'. eexists _, _, _. split; [|by split].
  rewrite Eo. unfold val. mred. rewrite (remote_local me p s r c1) by (done || apply Hr || apply Hr').
  by destruct r.
Qed.
Ltac fields := rewrite ?get_put, ?get_obj;
  cbn [last_of String.eqb Ascii.eqb Bool.eqb default id IsString IsNumber IsTrue IsObject].

(** ** Questions about kernels *)
Lemma only_none c a k : only c a k → (∀ b, ¬ LC.holds c b k) ∨ LC.holds c a k.
Proof.
  intros [_ Ho]. destruct (decide (is_Some (LC.kernelmap c !! k))) as [E|Ek];
    [right; by rewrite <- (Ho LC.Kernel E)|].
  destruct (decide (is_Some (LC.nodemap c !! k))) as [E|En]; [right; by rewrite <- (Ho LC.Node E)|].
  destruct (decide (is_Some (LC.readports c !! k))) as [E|Er]; [right; by rewrite <- (Ho LC.Reader E)|].
  destruct (decide (is_Some (LC.writeports c !! k))) as [E|Ew]; [right; by rewrite <- (Ho LC.Writer E)|].
  left. by intros [].
Qed.
(** The request names its subject, or gives its key. *)
Definition by_name (l : list (string * V)) (n : string) : Prop := last_of "name" l = Some (VString n).
Definition by_key (l : list (string * V)) (k : Z) : Prop :=
  last_of "name" l = None ∧ is_key k ∧ last_of "key" l = Some (of_Z k).
Lemma request_name t l id n : by_name l n →
  get (put (request t l) "msgid" (of_Z id)) "name" = VString n.
Proof. unfold by_name, request. intros E. fields. by rewrite E. Qed.
Lemma request_key t l id k : by_key l k →
  get (put (request t l) "msgid" (of_Z id)) "name" = VNull ∧
  AsNumber (get (put (request t l) "msgid" (of_Z id)) "key") = Ok k.
Proof.
  intros (E1 & Hk & E2). unfold request. fields. rewrite E1, E2. split; [done|]. by apply AsNumber_of_Z.
Qed.

Definition about_kernel (c : LC.context) (l : list (string * V)) (o : option (Z * LC.KernelInfo)) : Prop :=
  match o with
  | Some (k, i) => LC.kernelmap c !! k = Some i ∧
      (by_name l (LC.k_name i) ∧ LC.kernelnames c !! LC.k_name i = Some k ∨ by_key l k)
  | None => (∃ n, by_name l n ∧ LC.kernelnames c !! n = None) ∨
            (∃ k, by_key l k ∧ ∀ a, ¬ LC.holds c a k)
  end.
Lemma kernel_replies s c l o : serves s c → about_kernel c l o →
  replies RCS.RCTXMT_GET_KERNEL_INFO l s (λ s' r, serves s' c ∧ kernel_reply o r).
Proof.
  intros Hs Ha id Hid. cbn [handler].
  set (m := put (request RCS.RCTXMT_GET_KERNEL_INFO l) "msgid" (of_Z id)).
  assert (IsObject m = true) as Hm by apply put_object.
  assert (get m "msgid" = of_Z id) as Hmid by (unfold m; by fields).
  destruct o as [[k i]|].
  - destruct Ha as [Hk Ha].
    destruct (GetKernelInfo_found me m s c k i id Hs Hk Hm Hmid) as (v & v' & r & E1 & Ho & Hg & E & An & R).
    { destruct Ha as [[Hn Hf]|Hb]; [left; unfold m; by rewrite (request_name _ _ _ _ Hn)|right].
      exact (request_key RCS.RCTXMT_GET_KERNEL_INFO l id k Hb). }
    assert (serves (RCS.set_data s (<[k := v']> (RCS.datamap s))) c) as Hs' by by eapply serves_touch.
    exists (RCS.set_data s (<[k := v']> (RCS.datamap s))), r. split; [exact E|].
    split; [exact (f_sent _ _ _ Hs)|]. done.
  - destruct (GetKernelInfo_missing me m s c id Hs Hm Hmid) as (r & E & An & R).
    { destruct Ha as [(n & Hn & Hf)|(k & Hb & Hf)].
      - left. exists n. unfold m. by rewrite (request_name _ _ _ _ Hn).
      - right. exists k. destruct (request_key RCS.RCTXMT_GET_KERNEL_INFO l id k Hb). done. }
    exists s, r. split; [exact E|]. split; [exact (f_sent _ _ _ Hs)|]. done.
Qed.
(** A question changes neither side. *)
Lemma agree_query {A} o s c (f : A → LC.value) p t l k q (R : V → Prop) (st : res A) :
  refines s c → remote_run o = val f p → last_of "type" l = None →
  awaits p (cl s) (request t l) k q → replies t l (sv s) (λ s' r, serves s' c ∧ R r) →
  (∀ reply c2, R reply → run (k reply) c2 = (Finished st, c2)) →
  LC.run o c = (v ← st; Ok (f v), c) → agree o s c.
Proof.
  intros Hr Eo Hl Ha Hrep Hk El. apply (agree_call o s c f p t l k q _ Hr Eo Hl Ha Hrep).
  intros s' reply c2 [Hs HR] Q Sc Hq. exists c2, c. rewrite (Hk reply c2 HR). split; [done|].
  split; [by destruct st|]. eapply refines_intro; eauto. by eapply keeps_refl.
Qed.
Lemma agree_kernel_info {A} o s c (f : A → LC.value) g l ans (r : res A) :
  refines s c → remote_run o = val f (pbind (kernel_info l) g) → last_of "type" l = None →
  about_kernel c l ans →
  match ans with
  | Some (k, i) => ∀ info c2, IsObject info = true → kernel_entry k i info →
      run (g info) c2 = (Finished r, c2)
  | None => r = Err InvalidArgument
  end → LC.run o c = (v ← r; Ok (f v), c) → agree o s c.
Proof.
  intros Hr Eo Hl Ha Hg El. eapply (agree_query _ _ _ f _ _ l); [done|exact Eo|done| | | |exact El].
  - apply awaits_bind. apply awaits_checked; [apply Hr|]. apply awaits_call; [apply Hr|apply plain_obj].
  - apply (kernel_replies (sv s) c l ans); [apply Hr|done].
  - cbn beta. intros reply c2 [Ho HR]. destruct ans as [[k i]|]; runs.
    + destruct HR as (-> & Hi & He). cbn [IsTrue]. cbn [bindp]. runs. by apply Hg.
    + rewrite HR, Hg. cbn [IsTrue]. done.
Qed.
Lemma kernel_key s c k i : refines s c → LC.kernelmap c !! k = Some i → is_key k.
Proof.
  intros Hr Hk. pose proof (LC.w_range c (f_wf _ _ _ (r_serves _ _ Hr)) LC.Kernel k) as Hw.
  pose proof (LC.w_counter c (f_wf _ _ _ (r_serves _ _ Hr))). unfold is_key.
  assert (1 ≤ k ≤ LC.counter c) by (apply Hw; by exists i). lia.
Qed.
Lemma find_kernel_name s c n k : refines s c → LC.kernelnames c !! n = Some k →
  ∃ i, LC.kernelmap c !! k = Some i ∧ LC.k_name i = n.
Proof. intros Hr E. by apply (LC.w_kernels c (f_wf _ _ _ (r_serves _ _ Hr))) in E. Qed.
Ltac lc_up Hr := unfold LC.run, LC.mfmap, LC.InternalCheckTerminated, LC.find_kernel, LC.find_node,
  LC.find_reader, LC.find_writer, LC.find; mred; rewrite ?(f_up _ _ _ (r_serves _ _ Hr)); mred.

Lemma agree_GetKernelKey s c n : refines s c → agree (LC.OGetKernelKey n) s c.
Proof.
  intros Hr. destruct (LC.kernelnames c !! n) as [k|] eqn:E.
  - destruct (find_kernel_name s c n k Hr E) as (i & Hi & <-).
    eapply (agree_kernel_info _ s c LC.VKey _ _ (Some (k, i)) (Ok k)); try done.
    + split; [done|]. by left.
    + intros info c2 Ho (Ek & _). rewrite run_key_field by done.
      by rewrite Ek, AsNumber_of_Z by by eapply kernel_key.
    + lc_up Hr. unfold LC.GetKernelKey. lc_up Hr. by rewrite E.
  - eapply (agree_kernel_info _ s c LC.VKey _ _ None (Err InvalidArgument)); try done.
    + left. by exists n.
    + lc_up Hr. unfold LC.GetKernelKey. lc_up Hr. by rewrite E.
Qed.
Lemma agree_by_kernel {A} o s c k (f : A → LC.value) g (a : LC.KernelInfo → A) :
  refines s c → only c LC.Kernel k →
  remote_run o = val f (pbind (kernel_info [("key", of_Z k)]) g) →
  (∀ i info c2, LC.k_allowremote i = true → IsObject info = true → kernel_entry k i info →
     run (g info) c2 = (Finished (Ok (a i)), c2)) →
  LC.run o c = (match LC.kernelmap c !! k with
                | Some i => massert (LC.k_allowremote i) ;; mret (f (a i))
                | None => mthrow InvalidArgument
                end) c →
  agree o s c.
Proof.
  intros Hr Ho Eo Hg El. destruct (LC.kernelmap c !! k) as [i|] eqn:E.
  - assert (LC.k_allowremote i = true) as Har.
    { destruct (serves_kernel me (sv s) c k i (r_serves _ _ Hr) E) as (v & _ & _ & Hv). apply Hv. }
    eapply (agree_kernel_info o s c f g _ (Some (k, i)) (Ok (a i))); try done.
    + split; [done|]. right. split; [done|]. split; [apply Ho|done].
    + intros. by apply Hg.
    + rewrite El. mred. by rewrite Har.
  - eapply (agree_kernel_info o s c f g _ None (Err InvalidArgument)); try done.
    right. exists k. split; [split; [done|]; split; [apply Ho|done]|].
    destruct (only_none c _ k Ho) as [|[i Hi]]; [done|congruence].
Qed.
Lemma agree_GetKernelName s c k : refines s c → only c LC.Kernel k → agree (LC.OGetKernelName k) s c.
Proof.
  intros Hr Ho. eapply (agree_by_kernel _ s c k LC.VName _ LC.k_name); try done.
  - intros i info c2 _ Hi (_ & En & _). rewrite run_string_field by done. by rewrite En.
  - lc_up Hr. unfold LC.GetKernelName. lc_up Hr. destruct (LC.kernelmap c !! k) as [i|] eqn:E; [|done].
    destruct (serves_kernel me (sv s) c k i (r_serves _ _ Hr) E) as (v & _ & _ & Hv). mred.
    by destruct Hv as (_&_&_&_&_&_&_& ->).
Qed.
Lemma agree_GetKernelConnectionInfo s c k : refines s c → only c LC.Kernel k →
  agree (LC.OGetKernelConnectionInfo k) s c.
Proof.
  intros Hr Ho. eapply (agree_by_kernel _ s c k (λ i : string * string, LC.VInfo i.1 i.2) _
    (λ i, (LC.k_hostname i, LC.k_servname i))); try done.
  - intros i info c2 _ Hi (_ & _ & Eh & Es & _). runs. rewrite Eh. cbn [AsString bindp]. runs. by rewrite Es.
  - lc_up Hr. unfold LC.GetKernelConnectionInfo. lc_up Hr.
    destruct (LC.kernelmap c !! k) as [i|] eqn:E; [|done]. mred. by destruct (LC.k_allowremote i).
Qed.
(** ** Changes of kernels *)
Lemma serves_signals s c a b : serves s c → serves s (LC.set_signals c a b).
Proof.
  intros Hs. apply (serves_change me s c); try done; try apply Hs.
  - eapply LC.wf_same; [apply Hs|done].
  - intros n i E. by exists i.
  - intros k. by left.
Qed.
Lemma keeps_signals c c' a b : keeps c c' → keeps c (LC.set_signals c' a b).
Proof. intros []. by constructor. Qed.

Lemma agree_SetLogLevel s c l : refines s c → agree (LC.OSetLogLevel l) s c.
Proof.
  intros Hr. eapply (agree_local _ s c LC.VKey (SetLogLevel l)); try done. destruct Hr as [Hs Hq ? ? ? ?].
  constructor; try done. cbn.
  apply (serves_change me (sv s) c); try done; try apply Hs.
  - eapply LC.wf_same; [apply Hs|done].
  - intros n i E. by exists i.
  - intros k. by left.
Qed.
Lemma agree_IsTerminated s c : refines s c → agree LC.OIsTerminated s c.
Proof.
  intros Hr. eapply (agree_local _ s c LC.VBool IsTerminated); [done|done|reflexivity| |].
  - cbn. lc_up Hr. unfold LC.IsTerminated. lc_up Hr.
    by rewrite (proj1 (r_quiet _ _ Hr)).
  - by destruct s.
Qed.

Lemma refines_kernel s c k i i' kn c3 sv' : refines s c → LC.kernelmap c !! k = Some i →
  let c' := LC.set_kernels c (LC.kernelnames c) (<[k := i']> (LC.kernelmap c)) in
  serves sv' c' → quiet c3 → loglevel c3 = loglevel (cl s) → kernels c3 = kn →
  (kn = kernels (cl s) ∧ LC.k_dead i' = LC.k_dead i ∧ LC.k_kernel i' = LC.k_kernel i ∨
   kn = delete k (kernels (cl s)) ∧ LC.k_dead i' = true) →
  refines (mk_system sv' c3) (LC.set_signals c' (LC.nodelivedead c') true).
Proof.
  intros Hr Hk c' Hs Q El Ek Hkn. constructor; cbn; try done.
  - by apply serves_signals.
  - rewrite El. apply Hr.
  - apply Hr.
  - rewrite Ek. intros k2 i2. destruct (decide (k2 = k)) as [-> |Hne].
    + rewrite lookup_insert_eq. intros [= <-] Hd. destruct Hkn as [(-> & E1 & E2)|(_ & E)]; [|congruence].
      rewrite E2. apply (r_kernels _ _ Hr); [done|congruence].
    + rewrite lookup_insert_ne by done. intros E Hd.
      destruct Hkn as [(-> & _)|(-> & _)]; [|rewrite lookup_delete_ne by done];
        by apply (r_kernels _ _ Hr).
  - intros k2 E. apply (r_known _ _ Hr). rewrite Ek in E.
    destruct Hkn as [(-> & _)|(-> & _)]; [done|]. destruct E as [x E].
    apply lookup_delete_Some in E as [_ E]. by exists x.
Qed.
Lemma agree_SignalKernelStart s c k i : refines s c → LC.kernelmap c !! k = Some i →
  LC.k_dead i = false → agree (LC.OSignalKernelStart k) s c.
Proof.
  intros Hr Hk Hd.
  set (i' := LC.mk_kernel (LC.k_name i) (LC.k_hostname i) (LC.k_servname i) (LC.k_kernel i)
    true (LC.k_dead i) (LC.k_allowremote i)).
  set (m := obj [("key", of_Z k); ("type", of_Z (RCS.rctxmt RCS.RCTXMT_SIGNAL_KERNEL_START))] : V).
  destruct (signal_kernel_ok me m (sv s) c k i i' true) as (s' & n & Hs & E & Hn); try done.
  { apply Hr. } { cbn. by rewrite Hd. }
  eapply (agree_send _ s c (SignalKernelStart k) (cl s) m RCS.RCTXMT_SIGNAL_KERNEL_START s');
    [done|done| |apply Hr|done|done|exact E|exact (f_sent _ _ _ Hs)|right; by exists n| |].
  - unfold SignalKernelStart. rewrite run_checked, run_send by apply Hr. done.
  - intros c3 Q [Sk Sl]. apply (refines_kernel s c k i i' (kernels c3) c3 s'); try done. by left.
  - lc_up Hr. unfold LC.SignalKernelStart. lc_up Hr. rewrite Hk. done.
Qed.
Lemma agree_SignalKernelEnd s c k i : refines s c → LC.kernelmap c !! k = Some i →
  agree (LC.OSignalKernelEnd k) s c.
Proof.
  intros Hr Hk.
  set (i' := LC.mk_kernel (LC.k_name i) (LC.k_hostname i) (LC.k_servname i) (LC.k_kernel i)
    (LC.k_live i) true (LC.k_allowremote i)).
  set (m := request RCS.RCTXMT_SIGNAL_KERNEL_END [("key", of_Z k)] : V).
  destruct (signal_kernel_ok me m (sv s) c k i i' false) as (s' & n & Hs & E & Hn); try done.
  { apply Hr. } { cbn. by rewrite andb_false_r. }
  eapply (agree_send _ s c (SignalKernelEnd k) (set_kernels (cl s) (delete k (kernels (cl s)))) m
    RCS.RCTXMT_SIGNAL_KERNEL_END s');
    [done|done| |apply Hr|done|done|exact E|exact (f_sent _ _ _ Hs)|right; by exists n| |].
  - destruct (r_quiet _ _ Hr) as (_ & _ & _ & Q). unfold SignalKernelEnd, lift, SendMessage. cbn [run]. mred. cbn. by rewrite Q.
  - intros c3 Q [Sk Sl]. apply (refines_kernel s c k i i' (kernels c3) c3 s'); try done. by right.
  - lc_up Hr. unfold LC.SignalKernelEnd. lc_up Hr. rewrite Hk. done.
Qed.

Lemma agree_SetupRemote s c n h sn ptr : refines s c → LC.counter c < 18446744073709551615 →
  LC.kernelnames c !! n = None → agree (LC.OSetupRemote n h sn ptr) s c.
Proof.
  intros Hr Hc Hn. destruct (Z.eqb_spec ptr 0) as [-> |Hp].
  { eapply (agree_local _ s c LC.VKey (SetupKernel n h sn 0) (Err InvalidArgument) (cl s) c); try done.
    - unfold SetupKernel. by rewrite run_checked by apply Hr.
    - lc_up Hr. unfold LC.SetupKernel_remote, LC.setup_kernel. lc_up Hr. done.
    - by destruct s. }
  set (i := LC.mk_kernel n h sn ptr false false true). set (k := LC.counter c + 1).
  set (c' := LC.set_kernels (LC.set_counter c k) (<[n := k]> (LC.kernelnames c))
      (<[k := i]> (LC.kernelmap c))).
  set (l := [("name", VString n); ("hostname", VString h); ("servname", VString sn)] : list (string * V)).
  assert (LC.SetupKernel_remote n h sn ptr c = (Ok k, c') ∧
    replies RCS.RCTXMT_SETUP_KERNEL l (sv s) (λ s' r, serves s' c' ∧ kernel_reply (Some (k, i)) r))
    as [El Hrep].
  { assert (∀ id, IsObject (put (request RCS.RCTXMT_SETUP_KERNEL l) "msgid" (of_Z id)) = true) as Hm
      by (intros; apply put_object).
    pose proof (λ id, SetupKernel_new me _ (sv s) c n h sn ptr id (r_serves _ _ Hr) Hc Hn Hp (Hm id)) as Hk.
    split; [by destruct (Hk 0)|]. intros id Hid. cbn [handler].
    destruct (Hk id) as (_ & s' & r & Hs & E & An & R); try (unfold request, l; by fields).
    exists s', r. split; [exact E|]. split; [exact (f_sent _ _ _ Hs)|]. done. }
  assert (is_key k) as Hkk by (pose proof (LC.w_counter c (f_wf _ _ _ (r_serves _ _ Hr)));
    unfold is_key, k; lia).
  eapply (agree_call _ s c LC.VKey (SetupKernel n h sn ptr) _ l); [done|done|done| |exact Hrep|].
  - unfold SetupKernel. apply awaits_checked; [apply Hr|]. rewrite (proj2 (Z.eqb_neq ptr 0) Hp).
    apply awaits_call; [apply Hr|apply plain_obj].
  - cbn beta. intros s' r c2 [Hs (Ho & E1 & Hi & (Ek & _))] Q [Sk Sl] Hq. eexists _, c'.
    runs. rewrite E1. cbn [IsTrue bindp]. runs. rewrite Ek, AsNumber_of_Z by done.
    cbn [bindp]. cbn [run pbind lift]. mred. cbn [fst snd outcome].
    assert (kernels c2 !! k = None) as ->.
    { rewrite Sk. apply eq_None_not_Some. intros Hx. pose proof (r_known _ _ Hr k Hx). unfold k in *. lia. }
    split; [reflexivity|]. split; [lc_up Hr; by rewrite El|].
    constructor; cbn; try done; rewrite ?Sk.
    + rewrite Sl. apply Hr.
    + apply Hr.
    + intros k2 i2. destruct (decide (k2 = k)) as [-> |]; simplify_map_eq; [by intros [= <-]|apply Hr].
    + intros k2. destruct (decide (k2 = k)) as [-> |]; simplify_map_eq; [done|].
      intros Hx. pose proof (r_known _ _ Hr k2 Hx). lia.
Qed.
(** ** Waits *)
Definition sleeps {A} (x : paused F A * client F) (c : client F) : Prop :=
  ∃ B (t : bool → Op (option B)) k, x = (Sleeping t k, c).
Lemma run_wait_for {A} a (found : V → res (option A)) c : quiet c → queues c !! a = Some [] →
  sleeps (run (wait_for a found) c) c.
Proof.
  intros _ Hq. unfold wait_for, scan_queue. eexists _, _, _. cbn [run]. mred. by rewrite Hq.
Qed.
Lemma run_wait_until a found (c : client F) : quiet c → queues c !! a = Some [] →
  sleeps (run (wait_until_shutdown a found) c) c.
Proof.
  intros _ Hq. unfold wait_until_shutdown, scan_queue. eexists _, _, _. cbn [run]. mred.
  cbn [andb]. by rewrite Hq.
Qed.
Lemma agree_wait {A} o s c (f : A → LC.value) p t l a k q (R : V → Prop) (w : option A) :
  refines s c → remote_run o = val f p → last_of "type" l = None →
  awaits p (cl s) (request t l) (λ r, protect (end_waiter a) (k a r)) (<[a := []]> q) →
  replies t l (sv s) (λ s' r, serves s' c ∧ R r) →
  (∀ reply c2, R reply → quiet c2 → queues c2 !! a = Some [] →
     match w with
     | Some x => run (k a reply) c2 = (Finished (Ok x), c2)
     | None => sleeps (run (k a reply) c2) c2
     end) →
  LC.run o c = (Ok (LC.wait_value f w), c) → agree o s c.
Proof.
  intros Hr Eo Hl Ha Hrep Hk El. eapply (agree_call o s c f p t l); [done|exact Eo|done|exact Ha|exact Hrep|].
  cbn beta. intros s' reply c2 [Hs HR] Q [Sk Sl] Hq. rewrite run_protect.
  assert (queues c2 !! a = Some []) as Hq2 by (by rewrite Hq, lookup_insert_eq).
  specialize (Hk reply c2 HR Q Hq2).
  assert (∀ c3, quiet c3 → same_client (cl s) c3 → refines (mk_system s' c3) c) as Hr'.
  { intros c3 Q3 S3. eapply refines_intro; eauto. by eapply keeps_refl. }
  destruct w as [x|].
  - rewrite Hk. unfold leave. cbn. eexists _, c. split; [done|]. split; [done|]. by apply Hr'.
  - destruct Hk as (B & u & v & ->). unfold leave. cbn. eexists _, c.
    split; [done|]. split; [done|]. by apply Hr'.
Qed.

Lemma agree_WaitForKernelStart s c n : refines s c →
  (∀ k i, LC.kernelnames c !! n = Some k → LC.kernelmap c !! k = Some i → LC.k_dead i = false) →
  agree (LC.OWaitForKernelStart n) s c.
Proof.
  intros Hr Hd.
  set (ans := match LC.kernelnames c !! n with
              | Some k => (λ i, (k, i)) <$> LC.kernelmap c !! k | None => None end).
  assert (about_kernel c [("name", VString n)] ans ∧
    LC.run (LC.OWaitForKernelStart n) c = (Ok (LC.wait_value LC.VKey
      (match ans with Some (k, i) => if LC.k_live i then Some k else None | None => None end)), c))
    as [Ha El].
  { unfold ans. lc_up Hr. unfold LC.WaitForKernelStart. lc_up Hr.
    destruct (LC.kernelnames c !! n) as [k|] eqn:E; [|by split; [left; exists n|]].
    destruct (find_kernel_name s c n k Hr E) as (i & Hi & <-). rewrite Hi. cbn.
    split; [|done]. split; [done|]. by left. }
  eapply (agree_wait _ s c LC.VKey (WaitForKernelStart n) _ [("name", VString n)] (RCC.fresh (cl s)));
    [done|done|done| |apply (kernel_replies _ c _ ans); [apply Hr|exact Ha]| |exact El].
  - unfold WaitForKernelStart. apply awaits_checked; [apply Hr|].
    eapply (awaits_waiter _ (cl s)); [apply Hr|].
    intros a c' Q. cbn beta. apply (awaits_call (request _ _) (λ reply, _) c' Q), plain_obj.
  - cbn beta. intros reply c2 [Ho HR] Q Hq. clear Ha El. unfold ans in *. clear ans.
    destruct (LC.kernelnames c !! n) as [k|] eqn:E.
    + destruct (find_kernel_name s c n k Hr E) as (i & Hi & <-). rewrite Hi in *. cbn [fmap option_fmap option_map] in *.
      destruct HR as (E1 & Hi' & Ek & _ & _ & _ & El & _). runs. rewrite E1. cbn [IsTrue]. runs.
      rewrite El, (Hd k i), andb_true_r by done. destruct (LC.k_live i); cbn [IsTrue of_bool].
      * runs. by rewrite Ek, AsNumber_of_Z by by eapply kernel_key.
      * by apply run_wait_for.
    + runs. rewrite HR. cbn [IsTrue]. by apply run_wait_for.
Qed.
(** ** Nodes *)
Definition about_node (c : LC.context) (l : list (string * V)) (o : option (Z * LC.NodeInfo)) : Prop :=
  match o with
  | Some (k, i) => LC.nodemap c !! k = Some i ∧
      (by_name l (LC.n_name i) ∧ LC.nodenames c !! LC.n_name i = Some k ∨ by_key l k)
  | None => (∃ n, by_name l n ∧ LC.nodenames c !! n = None) ∨
            (∃ k, by_key l k ∧ ∀ a, ¬ LC.holds c a k)
  end.
Lemma node_replies s c l o : serves s c → about_node c l o →
  replies RCS.RCTXMT_GET_NODE_INFO l s (λ s' r, serves s' c ∧ node_reply o r).
Proof.
  intros Hs Ha id Hid. cbn [handler].
  set (m := put (request RCS.RCTXMT_GET_NODE_INFO l) "msgid" (of_Z id)).
  assert (IsObject m = true) as Hm by apply put_object.
  assert (get m "msgid" = of_Z id) as Hmid by (unfold m; by fields).
  exists s. destruct o as [[k i]|].
  - destruct Ha as [Hk Ha].
    destruct (GetNodeInfo_found me m s c k i id Hs Hk Hm Hmid) as (r & E & An & R).
    { destruct Ha as [[Hn Hf]|Hb]; [left; unfold m; by rewrite (request_name _ _ _ _ Hn)|right].
      exact (request_key RCS.RCTXMT_GET_NODE_INFO l id k Hb). }
    exists r. split; [exact E|]. split; [exact (f_sent _ _ _ Hs)|]. done.
  - destruct (GetNodeInfo_missing me m s c id Hs Hm Hmid) as (r & E & An & R).
    { destruct Ha as [(n & Hn & Hf)|(k & Hb & Hf)].
      - left. exists n. unfold m. by rewrite (request_name _ _ _ _ Hn).
      - right. exists k. destruct (request_key RCS.RCTXMT_GET_NODE_INFO l id k Hb). done. }
    exists r. split; [exact E|]. split; [exact (f_sent _ _ _ Hs)|]. done.
Qed.
Lemma agree_node_info {A} o s c (f : A → LC.value) g l ans (r : res A) :
  refines s c → remote_run o = val f (pbind (node_info l) g) → last_of "type" l = None →
  about_node c l ans →
  match ans with
  | Some (k, i) => ∀ info c2, IsObject info = true → node_entry k i info →
      run (g info) c2 = (Finished r, c2)
  | None => r = Err InvalidArgument
  end → LC.run o c = (v ← r; Ok (f v), c) → agree o s c.
Proof.
  intros Hr Eo Hl Ha Hg El. eapply (agree_query _ _ _ f _ _ l); [done|exact Eo|done| | | |exact El].
  - apply awaits_bind. apply awaits_checked; [apply Hr|]. apply awaits_call; [apply Hr|apply plain_obj].
  - apply (node_replies (sv s) c l ans); [apply Hr|done].
  - cbn beta. intros reply c2 [Ho HR]. destruct ans as [[k i]|]; runs.
    + destruct HR as (-> & Hi & He). cbn [IsTrue]. cbn [bindp]. runs. by apply Hg.
    + rewrite HR, Hg. cbn [IsTrue]. done.
Qed.
Lemma node_key s c k i : refines s c → LC.nodemap c !! k = Some i → is_key k.
Proof.
  intros Hr Hk. pose proof (LC.w_range c (f_wf _ _ _ (r_serves _ _ Hr)) LC.Node k) as Hw.
  pose proof (LC.w_counter c (f_wf _ _ _ (r_serves _ _ Hr))). unfold is_key.
  assert (1 ≤ k ≤ LC.counter c) by (apply Hw; by exists i). lia.
Qed.
Lemma find_node_name s c n k : refines s c → LC.nodenames c !! n = Some k →
  ∃ i, LC.nodemap c !! k = Some i ∧ LC.n_name i = n.
Proof. intros Hr E. by apply (LC.w_nodes c (f_wf _ _ _ (r_serves _ _ Hr))) in E. Qed.

Lemma agree_GetNodeKey s c n : refines s c → agree (LC.OGetNodeKey n) s c.
Proof.
  intros Hr. destruct (LC.nodenames c !! n) as [k|] eqn:E.
  - destruct (find_node_name s c n k Hr E) as (i & Hi & <-).
    eapply (agree_node_info _ s c LC.VKey _ _ (Some (k, i)) (Ok k)); try done.
    + split; [done|]. by left.
    + intros info c2 Ho (Ek & _). rewrite run_key_field by done.
      by rewrite Ek, AsNumber_of_Z by by eapply node_key.
    + lc_up Hr. unfold LC.GetNodeKey. lc_up Hr. by rewrite E.
  - eapply (agree_node_info _ s c LC.VKey _ _ None (Err InvalidArgument)); try done.
    + left. by exists n.
    + lc_up Hr. unfold LC.GetNodeKey. lc_up Hr. by rewrite E.
Qed.
Lemma agree_by_node {A} o s c k (f : A → LC.value) g (a : LC.NodeInfo → A) :
  refines s c → only c LC.Node k →
  remote_run o = val f (pbind (node_info [("key", of_Z k)]) g) →
  (∀ i info c2, IsObject info = true → node_entry k i info →
     run (g info) c2 = (Finished (Ok (a i)), c2)) →
  LC.run o c = (match LC.nodemap c !! k with
                | Some i => mret (f (a i)) | None => mthrow InvalidArgument end) c →
  agree o s c.
Proof.
  intros Hr Ho Eo Hg El. destruct (LC.nodemap c !! k) as [i|] eqn:E.
  - eapply (agree_node_info o s c f g _ (Some (k, i)) (Ok (a i))); try done.
    + split; [done|]. right. split; [done|]. split; [apply Ho|done].
    + intros. by apply Hg.
  - eapply (agree_node_info o s c f g _ None (Err InvalidArgument)); try done.
    right. exists k. split; [split; [done|]; split; [apply Ho|done]|].
    destruct (only_none c _ k Ho) as [|[i Hi]]; [done|congruence].
Qed.
Lemma agree_GetNodeName s c k : refines s c → only c LC.Node k → agree (LC.OGetNodeName k) s c.
Proof.
  intros Hr Ho. eapply (agree_by_node _ s c k LC.VName _ LC.n_name); try done.
  - intros i info c2 Hi (_ & En & _). rewrite run_string_field by done. by rewrite En.
  - lc_up Hr. unfold LC.GetNodeName. lc_up Hr. by destruct (LC.nodemap c !! k).
Qed.
Lemma agree_GetNodeKernel s c k : refines s c → only c LC.Node k → agree (LC.OGetNodeKernel k) s c.
Proof.
  intros Hr Ho. eapply (agree_by_node _ s c k LC.VKey _ LC.n_kernelkey); try done.
  - intros i info c2 Hi (_ & _ & En & Hk & _). rewrite run_key_field by done.
    by rewrite En, AsNumber_of_Z.
  - lc_up Hr. unfold LC.GetNodeKernel. lc_up Hr. by destruct (LC.nodemap c !! k).
Qed.

Lemma agree_CreateNodeKey s c kk n : refines s c → LC.counter c < 18446744073709551615 →
  is_key kk → agree (LC.OCreateNodeKey kk n) s c.
Proof.
  intros Hr Hc Hkk.
  set (l := [("kernelkey", of_Z kk); ("name", VString n)] : list (string * V)).
  assert (∀ id, IsObject (put (request RCS.RCTXMT_CREATE_NODE_KEY l) "msgid" (of_Z id)) = true) as Hm
    by (intros; apply put_object).
  assert (∀ P, replies RCS.RCTXMT_CREATE_NODE_KEY l (sv s) P → (∀ s' reply c2, P s' reply → quiet c2 →
    same_client (cl s) c2 → ∃ st c', run (pbind (succeeds reply) (λ _,
      pbind (field reply "nodeinfo") (λ info, key_field info "key"))) c2 = (Finished st, c2) ∧
      LC.run (LC.OCreateNodeKey kk n) c = (v ← st; Ok (LC.VKey v), c') ∧ refines (mk_system s' c2) c') →
    agree (LC.OCreateNodeKey kk n) s c) as Hgo.
  { intros P Hrep HP. eapply (agree_call _ s c LC.VKey (CreateNodeKey kk n) _ l);
      [done|done|done| |exact Hrep|].
    - apply awaits_checked; [apply Hr|]. apply awaits_call; [apply Hr|apply plain_obj].
    - cbn beta. intros s' reply c2 Hp Q Sc Hq. destruct (HP s' reply c2 Hp Q Sc) as (st & c' & E & El & Hr').
      rewrite E. exists c2, c'. split; [done|]. split; [|done]. by destruct st. }
  destruct (LC.nodenames c !! n) as [k|] eqn:En.
  - apply (Hgo (λ s' r, s' = sv s ∧ node_reply None r)).
    + intros id Hid. cbn [handler].
      destruct (CreateNodeKey_taken me _ (sv s) c n k id (r_serves _ _ Hr) En (Hm id)) as (r & E & An & R);
        try (unfold request, l; by fields).
      exists (sv s), r. split; [exact E|]. split; [exact (f_sent _ _ _ (r_serves _ _ Hr))|]. done.
    + intros s' reply c2 [-> [Ho E1]] Q Sc. exists (Err InvalidArgument), c. runs. rewrite E1.
      split; [done|]. split; [lc_up Hr; unfold LC.CreateNodeKey; lc_up Hr; by rewrite En|].
      eapply refines_intro; eauto; [apply Hr|by eapply keeps_refl].
  - set (i := LC.mk_node n kk false ∅ ∅ false). set (k := LC.counter c + 1).
    set (c' := LC.set_nodes (LC.set_counter c k) (<[n := k]> (LC.nodenames c))
      (<[k := i]> (LC.nodemap c))).
    assert (is_key k) as Hk by (pose proof (LC.w_counter c (f_wf _ _ _ (r_serves _ _ Hr)));
      unfold is_key, k; lia).
    pose proof (λ id, CreateNodeKey_new me _ (sv s) c n kk id (r_serves _ _ Hr) Hc En Hkk (Hm id)) as Hnew.
    assert (LC.CreateNodeKey kk n c = (Ok k, c')) as El
      by (destruct (Hnew 0) as [E _]; try (unfold request, l; by fields); exact E).
    apply (Hgo (λ s' r, serves s' c' ∧ node_reply (Some (k, i)) r)).
    + intros id Hid. cbn [handler].
      destruct (Hnew id) as (_ & s' & r & Hs & E & An & R); try (unfold request, l; by fields).
      exists s', r. split; [exact E|]. split; [exact (f_sent _ _ _ Hs)|]. done.
    + intros s' reply c2 [Hs (Ho & E1 & Hi & (Ek & _))] Q Sc. exists (Ok k), c'. runs. rewrite E1.
      cbn [IsTrue bindp]. runs. rewrite Ek, AsNumber_of_Z by done. split; [done|].
      split; [lc_up Hr; by rewrite El|]. eapply refines_intro; eauto. constructor; cbn; try done.
      * apply Hr.
      * lia.
Qed.
Lemma agree_signal_node o s c k i i' change fld t p : refines s c → LC.nodemap c !! k = Some i →
  LC.n_name i' = LC.n_name i → LC.n_kernelkey i' = LC.n_kernelkey i →
  LC.n_readers i' = LC.n_readers i → LC.n_writers i' = LC.n_writers i →
  (fld = "started" ∧ LC.n_started i' = true ∧ LC.n_dead i' = LC.n_dead i ∨
   fld = "dead" ∧ LC.n_dead i' = true ∧ LC.n_started i' = LC.n_started i) →
  remote_run o = val unit_value p →
  run p (cl s) = (Finished (Ok tt), set_sent (cl s) [request t [("key", of_Z k)]]) →
  (∀ m, handler me t m = RCS.signal_node change fld m) →
  let c' := LC.set_numlivenodes (LC.set_nodes c (LC.nodenames c) (<[k := i']> (LC.nodemap c)))
              (u32 (LC.numlivenodes c + change)) in
  LC.run o c = (Ok LC.VUnit, LC.set_signals c' true (LC.kernellivedead c')) → agree o s c.
Proof.
  intros Hr Hk E1 E2 E3 E4 Hf Eo Ep Hh c' El.
  destruct (signal_node_ok me (request t [("key", of_Z k)]) (sv s) c k i i' change fld)
    as (s' & n & Hs & E & Hn); try done.
  { apply Hr. }
  eapply (agree_send o s c p (cl s) _ t s'); [done|exact Eo|exact Ep|apply Hr|apply obj_object| |
    rewrite Hh; exact E|exact (f_sent _ _ _ Hs)|right; by exists n| |exact El].
  - unfold request. by fields.
  - intros c3 Q Sc. eapply refines_intro; [done|done|done|by apply serves_signals|].
    constructor; try done. apply u32_range.
Qed.
Lemma agree_SignalNodeStart s c k i : refines s c → LC.nodemap c !! k = Some i →
  agree (LC.OSignalNodeStart k) s c.
Proof.
  intros Hr Hk.
  eapply (agree_signal_node _ s c k i (LC.mk_node (LC.n_name i) (LC.n_kernelkey i) true
    (LC.n_readers i) (LC.n_writers i) (LC.n_dead i)) 1 "started" RCS.RCTXMT_SIGNAL_NODE_START
    (SignalNodeStart k)); try done.
  - by left.
  - unfold SignalNodeStart. by rewrite run_checked, run_send by apply Hr.
  - lc_up Hr. unfold LC.SignalNodeStart. lc_up Hr. by rewrite Hk.
Qed.
Lemma agree_SignalNodeEnd s c k i : refines s c → LC.nodemap c !! k = Some i →
  agree (LC.OSignalNodeEnd k) s c.
Proof.
  intros Hr Hk.
  eapply (agree_signal_node _ s c k i (LC.mk_node (LC.n_name i) (LC.n_kernelkey i) (LC.n_started i)
    (LC.n_readers i) (LC.n_writers i) true) (-1) "dead" RCS.RCTXMT_SIGNAL_NODE_END
    (SignalNodeEnd k)); try done.
  - by right.
  - unfold SignalNodeEnd. by rewrite run_send by apply Hr.
  - lc_up Hr. unfold LC.SignalNodeEnd. lc_up Hr. by rewrite Hk.
Qed.

(** The entry of a name. *)
Definition named_node (c : LC.context) (n : string) : option (Z * LC.NodeInfo) :=
  match LC.nodenames c !! n with
  | Some k => (λ i, (k, i)) <$> LC.nodemap c !! k | None => None end.
Lemma about_named s c n : refines s c → about_node c [("name", VString n)] (named_node c n).
Proof.
  intros Hr. unfold named_node. destruct (LC.nodenames c !! n) as [k|] eqn:E; [|left; by exists n].
  destruct (find_node_name s c n k Hr E) as (i & Hi & <-). rewrite Hi. split; [done|]. by left.
Qed.
Lemma agree_WaitForNodeStart s c n : refines s c → agree (LC.OWaitForNodeStart n) s c.
Proof.
  intros Hr.
  eapply (agree_wait _ s c LC.VKey (WaitForNodeStart n) _ [("name", VString n)] (RCC.fresh (cl s)) _ _ _
    (match named_node c n with Some (k, i) => if LC.n_started i then Some k else None | None => None end));
    [done|done|done| |apply (node_replies _ c _ (named_node c n)); [apply Hr|by eapply about_named]| |].
  - unfold WaitForNodeStart. apply awaits_checked; [apply Hr|].
    eapply (awaits_waiter _ (cl s)); [apply Hr|].
    intros a c' Q. cbn beta. apply (awaits_call (request _ _) (λ reply, _) c' Q), plain_obj.
  - cbn beta. intros reply c2 [Ho HR] Q Hq. unfold named_node in *.
    destruct (LC.nodenames c !! n) as [k|] eqn:E.
    + destruct (find_node_name s c n k Hr E) as (i & Hi & <-). rewrite Hi in *.
      cbn [fmap option_fmap option_map] in *.
      destruct HR as (E1 & Hi' & Ek & _ & _ & _ & El & _). runs. rewrite E1. cbn [IsTrue]. runs.
      rewrite El. destruct (LC.n_started i); cbn [IsTrue of_bool].
      * runs. by rewrite Ek, AsNumber_of_Z by by eapply node_key.
      * by apply run_wait_for.
    + runs. rewrite HR. cbn [IsTrue]. by apply run_wait_for.
  - lc_up Hr. unfold LC.WaitForNodeStart, named_node. lc_up Hr.
    destruct (LC.nodenames c !! n) as [k|]; [|done]. by destruct (LC.nodemap c !! k).
Qed.
Lemma agree_WaitForNodeEnd s c n : refines s c →
  (∀ k i, LC.nodenames c !! n = Some k → LC.nodemap c !! k = Some i → LC.n_dead i = true →
     LC.n_started i = true) →
  agree (LC.OWaitForNodeEnd n) s c.
Proof.
  intros Hr Hd.
  eapply (agree_wait _ s c unit_value (WaitForNodeEnd n) _ [("name", VString n)] (RCC.fresh (cl s)) _ _ _
    (match named_node c n with Some (k, i) => if LC.n_dead i then Some tt else None | None => None end));
    [done|done|done| |apply (node_replies _ c _ (named_node c n)); [apply Hr|by eapply about_named]| |].
  - unfold WaitForNodeEnd. apply awaits_unless; [apply Hr|].
    eapply (awaits_waiter _ (cl s)); [apply Hr|].
    intros a c' Q. cbn beta. apply (awaits_try (request _ _) (λ reply, _) c' Q), plain_obj.
  - cbn beta. intros reply c2 [Ho HR] Q Hq. unfold named_node in *.
    destruct (LC.nodenames c !! n) as [k|] eqn:E.
    + destruct (find_node_name s c n k Hr E) as (i & Hi & <-). rewrite Hi in *.
      cbn [fmap option_fmap option_map] in *.
      destruct HR as (E1 & Hi' & Ek & _ & _ & _ & _ & El & _). runs. rewrite E1. cbn [IsTrue]. runs.
      rewrite El. destruct (LC.n_dead i); cbn [IsTrue of_bool]; [done|by apply run_wait_until].
    + runs. rewrite HR. cbn [IsTrue]. by apply run_wait_until.
  - lc_up Hr. unfold LC.WaitForNodeEnd, named_node. lc_up Hr.
    destruct (LC.nodenames c !! n) as [k|] eqn:E; [|done].
    destruct (LC.nodemap c !! k) as [i|] eqn:Ei; cbn; [|done].
    destruct (LC.n_dead i) eqn:Ed; [|done]. by rewrite (Hd k i).
Qed.
Lemma agree_WaitForAllNodeEnd s c : refines s c → agree LC.OWaitForAllNodeEnd s c.
Proof.
  intros Hr.
  eapply (agree_wait _ s c unit_value WaitForAllNodeEnd RCS.RCTXMT_GET_NUM_NODE_LIVE []
    (RCC.fresh (cl s)) _ _ (λ r, IsObject r = true ∧ get r "success" = VTrue ∧
      get r "numlivenodes" = of_Z (LC.numlivenodes c))
    (if LC.numlivenodes c =? 0 then Some tt else None)); [done|done|done| | | |].
  - unfold WaitForAllNodeEnd. apply awaits_unless; [apply Hr|].
    eapply (awaits_waiter _ (cl s)); [apply Hr|].
    intros a c' Q. cbn beta. apply (awaits_try (request _ _) (λ reply, _) c' Q), plain_obj.
  - intros id Hid. cbn [handler].
    destruct (GetNumNodeLive_ok me (put (request RCS.RCTXMT_GET_NUM_NODE_LIVE []) "msgid" (of_Z id))
      (sv s) c id) as (r & E & An & Ho & E1 & E2).
    { apply Hr. } { apply put_object. } { unfold request. by fields. }
    exists (sv s), r. split; [exact E|]. split; [exact (f_sent _ _ _ (r_serves _ _ Hr))|].
    split; [done|]. split; [apply Hr|done].
  - cbn beta. intros reply c2 (Ho & E1 & En) Q Hq. runs. rewrite E1. cbn [IsTrue].
    rewrite run_pbind, run_massert. cbn [bindp]. runs. rewrite run_pbind, run_lift, En, AsUnsigned_of_Z by apply Hr. cbn [bindp].
    destruct (LC.numlivenodes c =? 0); [done|by apply run_wait_until].
  - lc_up Hr. unfold LC.WaitForAllNodeEnd. lc_up Hr. pose proof (r_live _ _ Hr).
    cbn [negb]. rewrite andb_true_r. f_equal.
    destruct (Z.ltb_spec 0 (LC.numlivenodes c)), (Z.eqb_spec (LC.numlivenodes c) 0); done || lia.
Qed.
(** ** Endpoints *)
Lemma agree_endpoint {A} o s c k partner (q : LC.PortInfo) (reads : bool) (f : A → LC.value) g (a : A) :
  refines s c → (if reads then LC.readports c else LC.writeports c) !! k = Some q →
  partner = (if reads then "writerkey" else "readerkey") →
  remote_run o = val f (pbind (GetEndpointInfo
    (if reads then RCS.RCTXMT_GET_READER_INFO else RCS.RCTXMT_GET_WRITER_INFO) k) g) →
  (∀ info c2, IsObject info = true → port_entry partner c k q info →
     run (g info) c2 = (Finished (Ok a), c2)) →
  LC.run o c = (Ok (f a), c) → agree o s c.
Proof.
  intros Hr Hk -> Eo Hg El.
  assert (∃ v, RCS.datamap (sv s) !! k = Some v ∧ IsObject v = true ∧
    port_entry (if reads then "writerkey" else "readerkey") c k q v) as (v & Ev & Hv & He).
  { destruct reads; [eapply (serves_reader me)|eapply (serves_writer me)]; [apply Hr|done|apply Hr|done]. }
  assert (is_key k) as Hkk.
  { pose proof (LC.w_range c (f_wf _ _ _ (r_serves _ _ Hr)) (if reads then LC.Reader else LC.Writer) k) as Hw.
    pose proof (LC.w_counter c (f_wf _ _ _ (r_serves _ _ Hr))). unfold is_key.
    assert (1 ≤ k ≤ LC.counter c); [|lia]. apply Hw. destruct reads; by exists q. }
  eapply (agree_query _ s c f _ _ [("key", of_Z k)] _ _
    (port_reply (if reads then "writerkey" else "readerkey") c (Some (k, q))) (Ok a));
    [done|exact Eo|done| | | |exact El].
  - apply awaits_bind. apply awaits_checked; [apply Hr|]. apply awaits_call; [apply Hr|apply plain_obj].
  - intros id Hid. set (t := if reads then _ else _).
    destruct (GetEndpointInfo_found me (put (request t [("key", of_Z k)]) "msgid" (of_Z id))
      (sv s) c k _ q v id (r_serves _ _ Hr) Ev Hv He) as (r & E & An & R).
    { apply put_object. } { unfold request. by fields. }
    { unfold request. fields. by apply AsNumber_of_Z. }
    exists (sv s), r. split; [unfold t; destruct reads; exact E|].
    split; [exact (f_sent _ _ _ (r_serves _ _ Hr))|]. split; [done|]. split; [apply Hr|done].
  - intros reply c2 (Ho & E1 & Hi & Hp). rewrite run_pbind. runs. rewrite E1. cbn [IsTrue].
    rewrite run_pbind, run_massert. cbn [bindp]. runs. by apply Hg.
Qed.
(** The node of an endpoint. *)
Lemma port_node s c (reads : bool) k q : refines s c →
  (if reads then LC.readports c else LC.writeports c) !! k = Some q →
  ∃ i, LC.nodemap c !! LC.p_nodekey q = Some i ∧ is_key (LC.p_nodekey q) ∧ is_key (LC.n_kernelkey i).
Proof.
  intros Hr Hk. assert (∃ i, LC.nodemap c !! LC.p_nodekey q = Some i) as [i Hi].
  { pose proof (f_wf _ _ _ (r_serves _ _ Hr)) as Hw. destruct reads.
    - destruct (proj2 (LC.w_readers c Hw (LC.p_nodekey q) (LC.p_name q) k)) as (i & Hi & _); [by exists q|].
      by exists i.
    - destruct (proj2 (LC.w_writers c Hw (LC.p_nodekey q) (LC.p_name q) k)) as (i & Hi & _); [by exists q|].
      by exists i. }
  exists i. split; [done|]. split; [by eapply node_key|].
  destruct (serves_node me (sv s) c _ i (r_serves _ _ Hr) Hi) as (v & _ & _ & Hv). apply Hv.
Qed.
Ltac endpoint_fields :=
  let info := fresh in let Hi := fresh in
  intros info ? Hi (? & ? & ? & ? & ? & ? & ? & ?);
  first [rewrite run_key_field by exact Hi | rewrite run_string_field by exact Hi];
  simplify_eq; repeat match goal with E : get info _ = _ |- context [get info _] => rewrite E end;
  cbn [AsString]; rewrite ?AsNumber_of_Z by assumption; try done.

Lemma agree_reader_ops s c k : refines s c → is_Some (LC.readports c !! k) →
  agree (LC.OGetReaderNode k) s c ∧ agree (LC.OGetReaderKernel k) s c ∧
  agree (LC.OGetReaderName k) s c ∧ agree (LC.OGetReadersWriter k) s c.
Proof.
  intros Hr [q Hk]. destruct (port_node s c true k q Hr Hk) as (i & Hi & Hn & Hkk). split_and!.
  - eapply (agree_endpoint _ s c k _ q true LC.VKey _ (LC.p_nodekey q)); try done; [endpoint_fields|].
    lc_up Hr. unfold LC.GetReaderNode. lc_up Hr. by rewrite Hk.
  - eapply (agree_endpoint _ s c k _ q true LC.VKey _ (LC.n_kernelkey i)); try done; [endpoint_fields|].
    lc_up Hr. unfold LC.GetReaderKernel, LC.GetReaderNode, LC.GetNodeKernel. lc_up Hr. rewrite Hk. lc_up Hr.
    by rewrite Hi.
  - eapply (agree_endpoint _ s c k _ q true LC.VName _ (LC.p_name q)); try done; [endpoint_fields|].
    lc_up Hr. unfold LC.GetReaderName. lc_up Hr. by rewrite Hk.
  - eapply (agree_endpoint _ s c k _ q true LC.VKey _ (LC.p_opposingport q)); try done; [endpoint_fields|].
    + congruence.
    + lc_up Hr. unfold LC.GetReadersWriter. lc_up Hr. by rewrite Hk.
Qed.
Lemma agree_writer_ops s c k : refines s c → is_Some (LC.writeports c !! k) →
  agree (LC.OGetWriterNode k) s c ∧ agree (LC.OGetWriterKernel k) s c ∧
  agree (LC.OGetWriterName k) s c ∧ agree (LC.OGetWritersReader k) s c.
Proof.
  intros Hr [q Hk]. destruct (port_node s c false k q Hr Hk) as (i & Hi & Hn & Hkk). split_and!.
  - eapply (agree_endpoint _ s c k _ q false LC.VKey _ (LC.p_nodekey q)); try done; [endpoint_fields|].
    lc_up Hr. unfold LC.GetWriterNode. lc_up Hr. by rewrite Hk.
  - eapply (agree_endpoint _ s c k _ q false LC.VKey _ (LC.n_kernelkey i)); try done; [endpoint_fields|].
    lc_up Hr. unfold LC.GetWriterKernel, LC.GetWriterNode, LC.GetNodeKernel. lc_up Hr. rewrite Hk. lc_up Hr.
    by rewrite Hi.
  - eapply (agree_endpoint _ s c k _ q false LC.VName _ (LC.p_name q)); try done; [endpoint_fields|].
    lc_up Hr. unfold LC.GetWriterName. lc_up Hr. by rewrite Hk.
  - eapply (agree_endpoint _ s c k _ q false LC.VKey _ (LC.p_opposingport q)); try done; [endpoint_fields|].
    + congruence.
    + lc_up Hr. unfold LC.GetWritersReader. lc_up Hr. by rewrite Hk.
Qed.
Lemma agree_ConnectEndpoints s c w r qn : refines s c → is_Some (LC.writeports c !! w) →
  is_Some (LC.readports c !! r) → agree (LC.OConnectEndpoints w r qn) s c.
Proof.
  intros Hr [wp Hw] [rp Hrd].
  set (m := request RCS.RCTXMT_CONNECT_ENDPOINTS
    [("readerkey", of_Z r); ("writerkey", of_Z w); ("qname", VString qn)] : V).
  destruct (connect_ok me m (sv s) c w r wp rp qn) as (s' & Hs & E); try done.
  { apply Hr. }
  eapply (agree_send _ s c (ConnectEndpoints w r qn) (cl s) m RCS.RCTXMT_CONNECT_ENDPOINTS s' []);
    [done|done| |apply Hr|done|done| |exact (f_sent _ _ _ Hs)|by left| |].
  - unfold ConnectEndpoints. by rewrite run_checked, run_send by apply Hr.
  - cbn [handler]. rewrite E. destruct s' as [????? ? o]. by rewrite <- (f_sent _ _ _ Hs).
  - intros c3 Q Sc. eapply refines_intro; [done|done|done|done|]. constructor; try done. apply Hr.
  - lc_up Hr. unfold LC.ConnectEndpoints. lc_up Hr. rewrite Hw. mred. by rewrite Hrd.
Qed.
(** [GetCreateReaderKey] and [GetCreateWriterKey] *)
Definition create_op (reads : bool) (n : Z) (p : string) : LC.op :=
  if reads then LC.OGetCreateReaderKey n p else LC.OGetCreateWriterKey n p.
Definition create_type (reads : bool) : RCS.RCTXMT_t :=
  if reads then RCS.RCTXMT_GET_CREATE_READER_KEY else RCS.RCTXMT_GET_CREATE_WRITER_KEY.
Definition own (reads : bool) (i : LC.NodeInfo) : gmap string Z :=
  if reads then LC.n_readers i else LC.n_writers i.
Definition partner_key (reads : bool) : string := if reads then "writerkey" else "readerkey".
Definition create_request (n : Z) (p : string) : list (string * V) :=
  [("nodekey", of_Z n); ("name", VString p)].
(** All it looks at of the reply is whether there is a key, and the key. *)
Definition key_reply (o : option Z) (r : V) : Prop :=
  IsObject r = true ∧
  match o with
  | Some k => get r "success" = VTrue ∧ IsObject (get r "endpointinfo") = true ∧
              is_key k ∧ get (get r "endpointinfo") "key" = of_Z k
  | None => get r "success" = VFalse
  end.
Lemma agree_create_by reads n p s c c' o : refines s c →
  replies (create_type reads) (create_request n p) (sv s) (λ s' r, serves s' c' ∧ key_reply o r) →
  keeps c c' →
  LC.run (create_op reads n p) c = (match o with Some k => Ok (LC.VKey k) | None => Err InvalidArgument end, c') →
  agree (create_op reads n p) s c.
Proof.
  intros Hr Hrep Hk El.
  eapply (agree_call _ s c LC.VKey (GetCreateEndpointKey (create_type reads) n p) _ (create_request n p));
    [done|by destruct reads|done| |exact Hrep|].
  - apply awaits_checked; [apply Hr|]. apply awaits_call; [apply Hr|apply plain_obj].
  - cbn beta. intros s' r c2 (Hs & Ho & HR) Q Sc Hq. exists c2, c'. runs. destruct o as [k|].
    + destruct HR as (E1 & Hi & Hkk & Ek). rewrite E1. cbn [IsTrue bindp]. runs.
      rewrite Ek, AsNumber_of_Z by done. split; [done|]. split; [exact El|]. by eapply refines_intro.
    + rewrite HR. cbn [IsTrue]. split; [done|]. split; [exact El|]. by eapply refines_intro.
Qed.
Lemma port_key_reply partner c k q r : is_key k → port_reply partner c (Some (k, q)) r → key_reply (Some k) r.
Proof. intros Hk (Ho & E1 & Hi & (E & _)). done. Qed.

Lemma create_handler reads m : handler me (create_type reads) m = RCS.GetCreateEndpointKey me m.
Proof. by destruct reads. Qed.
Ltac create_msg := unfold create_request, request; rewrite ?put_object; fields; done || by apply AsNumber_of_Z.
Lemma agree_create_missing reads n p s c : refines s c → only c LC.Node n → LC.nodemap c !! n = None →
  agree (create_op reads n p) s c.
Proof.
  intros Hr Ho Hn. eapply (agree_create_by reads n p s c c None Hr); [|by eapply keeps_refl|].
  - intros id Hid. rewrite create_handler.
    destruct (GetCreateEndpointKey_missing me (put (request (create_type reads) (create_request n p)) "msgid"
      (of_Z id)) (sv s) c n p id) as (r & E & An & Hro & R); try create_msg.
    { apply Hr. }
    { destruct (only_none c _ n Ho) as [|[i Hi]]; [done|congruence]. }
    { destruct Ho. create_msg. }
    exists (sv s), r. split; [exact E|]. split; [exact (f_sent _ _ _ (r_serves _ _ Hr))|].
    split; [done|]. split; [apply Hr|done].
  - unfold create_op; destruct reads; lc_up Hr; [unfold LC.GetCreateReaderKey|unfold LC.GetCreateWriterKey]; lc_up Hr;
      by rewrite Hn.
Qed.
Lemma agree_create_old reads n p s c i k : refines s c → LC.nodemap c !! n = Some i →
  own reads i !! p = Some k → own (negb reads) i !! p = None → agree (create_op reads n p) s c.
Proof.
  intros Hr Hn Hp Hop. pose proof (f_wf _ _ _ (r_serves _ _ Hr)) as Hw.
  assert (endpoint i p = Some k) as Hep.
  { unfold endpoint, own in *. destruct reads; cbn in *; [by rewrite Hp|by rewrite Hop]. }
  assert (∃ q, (if reads then LC.readports c else LC.writeports c) !! k = Some q) as [q Hq].
  { destruct reads; cbn in Hp.
    - destruct (proj1 (LC.w_readers c Hw n p k)) as (q & E & _); [by exists i|by exists q].
    - destruct (proj1 (LC.w_writers c Hw n p k)) as (q & E & _); [by exists i|by exists q]. }
  assert (∃ v, RCS.datamap (sv s) !! k = Some v ∧ IsObject v = true ∧
    port_entry (partner_key reads) c k q v) as (v & Ev & Hv & He).
  { destruct reads; [eapply (serves_reader me)|eapply (serves_writer me)]; [apply Hr|done|apply Hr|done]. }
  assert (LC.holds c (if reads then LC.Reader else LC.Writer) k) as Hh by (destruct reads; by exists q).
  assert (is_key k) as Hk.
  { pose proof (LC.w_range c Hw _ k Hh). pose proof (LC.w_counter c Hw). unfold is_key. lia. }
  assert (n ≠ k) as Hne.
  { intros ->. assert (LC.holds c LC.Node k) as Hnk by by exists i.
    by destruct reads; discriminate (LC.w_unique c Hw _ _ _ Hh Hnk). }
  pose proof (node_key s c n i Hr Hn) as Hnn.
  eapply (agree_create_by reads n p s c c (Some k) Hr); [|by eapply keeps_refl|].
  - intros id Hid. rewrite create_handler.
    destruct (GetCreateEndpointKey_old me (put (request (create_type reads) (create_request n p)) "msgid"
      (of_Z id)) (sv s) c n p i k v q (partner_key reads) id) as (s' & r & Hs & E & An & R); try create_msg.
    { apply Hr. }
    exists s', r. split; [exact E|]. split; [exact (f_sent _ _ _ Hs)|].
    split; [done|]. split; [done|]. by eapply port_key_reply.
  - unfold own in Hp. unfold create_op; destruct reads; lc_up Hr; [unfold LC.GetCreateReaderKey|unfold LC.GetCreateWriterKey];
      lc_up Hr; rewrite Hn; mred; by rewrite Hp.
Qed.
Lemma agree_create_new reads n p s c i : refines s c → LC.counter c < 18446744073709551615 →
  LC.nodemap c !! n = Some i → own reads i !! p = None → own (negb reads) i !! p = None →
  agree (create_op reads n p) s c.
Proof.
  intros Hr Hc Hn Hp Hop. pose proof (f_wf _ _ _ (r_serves _ _ Hr)) as Hw.
  set (k := LC.counter c + 1). pose proof (LC.w_counter c Hw) as Hc0.
  assert (is_key k) as Hk by (unfold is_key, k; lia).
  pose proof (node_key s c n i Hr Hn) as Hnn.
  assert (endpoint i p = None) as Hep
    by (unfold endpoint, own in *; destruct reads; cbn in *; by rewrite ?Hp, ?Hop).
  set (i' := LC.mk_node (LC.n_name i) (LC.n_kernelkey i) (LC.n_started i)
    (if reads then <[p := k]> (LC.n_readers i) else LC.n_readers i)
    (if reads then LC.n_writers i else <[p := k]> (LC.n_writers i)) (LC.n_dead i)).
  set (q := LC.mk_port p "" n 0 false).
  set (c' := LC.set_ports (LC.set_nodes (LC.set_counter c k) (LC.nodenames c) (<[n := i']> (LC.nodemap c)))
    (if reads then <[k := q]> (LC.readports c) else LC.readports c)
    (if reads then LC.writeports c else <[k := q]> (LC.writeports c))).
  assert (LC.run (create_op reads n p) c = (Ok (LC.VKey k), c')) as El.
  { unfold own, create_op in *. assert (u64 (LC.counter c + 1) = k) as Hu by (apply u64_id; lia).
    destruct reads; lc_up Hr; [unfold LC.GetCreateReaderKey|unfold LC.GetCreateWriterKey];
      lc_up Hr; rewrite Hn; mred; rewrite Hp; unfold LC.NewKey, LC.put_node, LC.put_reader, LC.put_writer;
      mred; by rewrite Hu. }
  assert (LC.wf c') as Hw' by (pose proof (LC.op_wf (create_op reads n p) c Hw Hc) as Hx; by rewrite El in Hx).
  assert (∀ p', endpoint i' p' = if String.eqb p' p then Some k else endpoint i p') as Hep'.
  { intros p'. unfold endpoint, own in *. cbn. destruct (String.eqb_spec p' p) as [-> |Hne], reads;
      cbn in *; by rewrite ?lookup_insert_eq, ?lookup_insert_ne, ?Hop by done. }
  assert (∀ p', LC.n_readers i' !! p' = None ∨ LC.n_writers i' !! p' = None) as Hap.
  { intros p'. cbn. destruct (f_apart _ _ _ (r_serves _ _ Hr) n i p' Hn) as [E|E];
      destruct (decide (p' = p)) as [-> |]; destruct reads; cbn in *;
      rewrite ?lookup_insert_ne by done; auto. }
  eapply (agree_create_by reads n p s c c' (Some k) Hr); [| |exact El].
  - intros id Hid. rewrite create_handler.
    destruct (GetCreateEndpointKey_new me (put (request (create_type reads) (create_request n p)) "msgid"
      (of_Z id)) (sv s) c n p i id) as (w & eps & ep & r & Ho & Hoep & Hg & Heps & Hfind & Hf & E & An & Hro & R1 & R2);
      try create_msg.
    { apply Hr. }
    exists (RCS.set_data (RCS.set_keycount (sv s) k) (<[k := ep]> (<[n := w]> (RCS.datamap (sv s))))), r.
    split; [exact E|]. split; [exact (f_sent _ _ _ (r_serves _ _ Hr))|]. split; [done|].
    destruct Hf as (F1 & F2 & F3 & F4 & F5 & F6 & F7). split.
    + apply (serves_new_port me (sv s) c c' n i i' k q w eps ep reads); try done; try apply Hr.
      * intros p'. rewrite Hfind, Hep'. by destruct (String.eqb p' p).
      * unfold port_entry. repeat (split; [done|]). split.
        -- destruct reads; [rewrite F6|rewrite F7]; apply AsNumber_null.
        -- exists i'. split; [by cbn; rewrite lookup_insert_eq|done].
    + split; [done|]. by rewrite R2.
  - constructor; cbn; try done; [apply Hr|unfold k; lia].
Qed.
Lemma agree_create reads n p s c : refines s c → LC.counter c < 18446744073709551615 →
  only c LC.Node n → (∀ i, LC.nodemap c !! n = Some i → own (negb reads) i !! p = None) →
  agree (create_op reads n p) s c.
Proof.
  intros Hr Hc Ho Ha. destruct (LC.nodemap c !! n) as [i|] eqn:En.
  - specialize (Ha i eq_refl). destruct (own reads i !! p) as [k|] eqn:Ep.
    + by apply (agree_create_old reads n p s c i k).
    + by apply (agree_create_new reads n p s c i).
  - by apply agree_create_missing.
Qed.

(** ** Messages to kernels *)
Lemma at_unsigned_put (v : V) k z : IsObject v = true → get v k = of_Z z → 0 ≤ z < 4294967296 →
  at_unsigned v k = Ok z.
Proof. intros Hv E Hz. unfold at_unsigned. rewrite At_get, E by done. by apply AsUnsigned_of_Z. Qed.
Lemma at_key_put (v : V) k z : IsObject v = true → get v k = of_Z z → is_key z → at_key v k = Ok z.
Proof. intros Hv E Hz. unfold at_key. rewrite At_get, E by done. by apply AsNumber_of_Z. Qed.
Lemma at_string_put (v : V) k t : IsObject v = true → get v k = VString t → at_string v k = Ok t.
Proof. intros Hv E. unfold at_string. by rewrite At_get, E by done. Qed.
Lemma MsgToQueueAttr_msg : attr_fits → MsgToQueueAttr (queueattr_msg attr) = Ok attr.
Proof.
  intros (?&?&?&?&?&?&?&?&?). unfold MsgToQueueAttr.
  assert (IsObject (queueattr_msg attr) = true) as Ho by apply obj_object.
  set (m := queueattr_msg attr) in *.
  rewrite (at_key_put m "queuehint" (q_hint attr)) by done.
  rewrite (at_string_put m "datatype" (q_datatype attr)) by done.
  rewrite (at_unsigned_put m "queueLength" (q_length attr)) by done.
  rewrite (at_unsigned_put m "maxThreshold" (q_maxThreshold attr)) by done.
  rewrite (at_unsigned_put m "numChannels" (q_numChannels attr)) by done.
  rewrite (at_key_put m "readerkey" (q_readerkey attr)) by done.
  rewrite (at_key_put m "writerkey" (q_writerkey attr)) by done.
  rewrite (at_key_put m "readernodekey" (q_readernodekey attr)) by done.
  rewrite (at_key_put m "writernodekey" (q_writernodekey attr)) by done.
  rewrite (at_unsigned_put m "maxwritethreshold" (q_maxwritethreshold attr)) by done.
  rewrite At_get by done. by destruct attr.
Qed.
(** A message to a kernel of the client comes back to it. *)
Lemma exchange_route (m : V) v c0 c1 sv' : sent c0 = [] →
  RCS.DispatchMessage me m v = (Ok tt, RCS.set_sent sv' [RCS.Send me m]) → RCS.sent sv' = [] →
  DispatchMessage m c0 = (Ok tt, c1) →
  exchange me (mk_system v (set_sent c0 [m])) = (Ok tt, mk_system sv' c1).
Proof.
  intros Hq Hd Hs Hc. unfold exchange. mred. cbn. unfold on_server. mred. cbn. rewrite Hd. cbn.
  rewrite String.eqb_refl. unfold on_client. mred. cbn.
  replace (set_sent (set_sent c0 [m]) []) with c0 by (by destruct c0; cbn in Hq; subst).
  rewrite Hc. destruct sv'; cbn in *; by subst.
Qed.
Lemma send_create s c p k i (m : V) t call : refines s c →
  run p (cl s) = (Finished (Ok tt), set_sent (cl s) [m]) → LC.kernelmap c !! k = Some i →
  LC.k_dead i = false → IsObject m = true → get m "type" = of_Z (RCS.rctxmt t) →
  get m "kernelkey" = of_Z k → handler me t m = RCS.RouteKernelMessage m →
  (∀ c, kernels c !! k = Some (LC.k_kernel i) → LC.k_kernel i ≠ 0 →
     DispatchMessage m c = call_kernel (LC.k_kernel i) call c) →
  ∃ s', remote p s = (Ok (Some tt), s') ∧ refines s' c ∧
    calls (cl s') = (calls (cl s) ++ [(LC.k_kernel i, call)])%list.
Proof.
  intros Hr Er Hk Hd Hm Ht Hkey Hh Hcall. destruct (r_kernels _ _ Hr k i Hk Hd) as [Ek Hp].
  destruct (route_ok me m (sv s) c k i (r_serves _ _ Hr) Hk Hm Hkey) as (sv' & Hs & E).
  assert (RCS.DispatchMessage me m (sv s) = (Ok tt, RCS.set_sent sv' [RCS.Send me m])) as Ed.
  { rewrite (dispatch_handler me t), Hh; [done|apply Hr|done|done]. }
  destruct (r_quiet _ _ Hr) as (Q1 & Q2 & Q3 & Q4).
  pose proof (exchange_route m (sv s) (cl s) _ sv' Q4 Ed (f_sent _ _ _ Hs) (Hcall (cl s) Ek Hp)) as Ex.
  eexists. rewrite (remote_finished me _ s _ _ _ Er Ex) by (done || exact (f_sent _ _ _ Hs)).
  split; [done|]. split; [|done].
  apply (refines_intro s c sv' c); try done. by eapply keeps_refl.
Qed.

(** The types of message that carry attributes of a queue. *)
Definition queue_call (t : RCS.RCTXMT_t) : option (kernel_call) :=
  match t with
  | RCS.RCTXMT_CREATE_QUEUE => Some (RemoteCreateQueue attr)
  | RCS.RCTXMT_CREATE_WRITER => Some (RemoteCreateWriter attr)
  | RCS.RCTXMT_CREATE_READER => Some (RemoteCreateReader attr)
  | _ => None
  end.
Definition queue_msg (k : Z) (t : RCS.RCTXMT_t) : V :=
  obj [("msgtype", VString "kernel"); ("type", of_Z (RCS.rctxmt t));
       ("kernelkey", of_Z k); ("queueattr", queueattr_msg attr)].
Lemma dispatch_queue_msg k t call ptr c : attr_fits → is_key k → queue_call t = Some call →
  kernels c !! k = Some ptr → ptr ≠ 0 →
  DispatchMessage (queue_msg k t) c = call_kernel ptr call c.
Proof.
  intros Ha Hk Ht Ek Hp. unfold DispatchMessage. set (m := queue_msg k t).
  assert (IsObject m = true) as Hm by apply obj_object. mred.
  rewrite (at_key_put m "type" (RCS.rctxmt t)); [|done..|apply RCS.rctxmt_range].
  rewrite (at_string_put m "msgtype" "kernel"), (at_key_put m "kernelkey" k), At_get by done. mred.
  rewrite RCS.rctxmt_of_code. change (get m "queueattr") with (queueattr_msg attr).
  rewrite MsgToQueueAttr_msg by done. clearbody m.
  destruct t; try discriminate Ht; injection Ht as <-;
    cbn [RCS.rctxmt Z.eqb Pos.eqb String.eqb Ascii.eqb Bool.eqb];
    by rewrite Ek, (proj2 (Z.eqb_neq _ _) Hp).
Qed.
Lemma send_queue_msg s c k i t call : refines s c → attr_fits → LC.kernelmap c !! k = Some i →
  LC.k_dead i = false → queue_call t = Some call →
  ∃ s', remote (checked (lift (SendQueueMsg k t attr))) s = (Ok (Some tt), s') ∧ refines s' c ∧
    calls (cl s') = (calls (cl s) ++ [(LC.k_kernel i, call)])%list.
Proof.
  intros Hr Ha Hk Hd Ht. apply (send_create s c _ k i (queue_msg k t) t call); try done.
  - rewrite run_checked by apply Hr. unfold SendQueueMsg. by rewrite run_send by apply Hr.
  - by destruct t.
  - intros c1 Ek Hp. apply dispatch_queue_msg; try done. by eapply kernel_key.
Qed.
Lemma agree_SendCreate s c k i : refines s c → attr_fits → LC.kernelmap c !! k = Some i →
  LC.k_dead i = false → agree (LC.OSendCreate k) s c.
Proof.
  intros Hr Ha Hk Hd. destruct (r_kernels _ _ Hr k i Hk Hd) as [Ek Hp].
  destruct (send_queue_msg s c k i RCS.RCTXMT_CREATE_QUEUE _ Hr Ha Hk Hd eq_refl) as (s' & E & Hr' & Ec).
  exists (Ok (LC.VKey (LC.k_kernel i))), s', c. split; [|split; [|done]].
  - unfold remote_run. mred. unfold SendCreateQueue. rewrite E. mred. by rewrite Ec, last_snoc.
  - lc_up Hr. unfold LC.SendCreate. lc_up Hr. rewrite Hk. mred.
    by rewrite (proj2 (Z.eqb_neq _ _) Hp).
Qed.

(** ** Every operation *)
Lemma allowed_agree o s c : refines s c → allowed c o → agree o s c.
Proof.
  intros Hr [Hc Ha]. destruct o; try done.
  - by apply agree_SetLogLevel.
  - by apply agree_SetupRemote.
  - by apply agree_GetKernelKey.
  - by apply agree_GetKernelName.
  - by apply agree_GetKernelConnectionInfo.
  - destruct Ha as [i Ha]. by eapply agree_SignalKernelEnd.
  - destruct Ha as (i & Ha & Hd). by eapply agree_SignalKernelStart.
  - by apply agree_WaitForKernelStart.
  - destruct Ha as (Hf & i & Ha & Hd). by eapply agree_SendCreate.
  - by apply agree_CreateNodeKey.
  - by apply agree_GetNodeKey.
  - by apply agree_GetNodeName.
  - destruct Ha as [i Ha]. by eapply agree_SignalNodeStart.
  - destruct Ha as [i Ha]. by eapply agree_SignalNodeEnd.
  - by apply agree_WaitForNodeStart.
  - by apply agree_WaitForNodeEnd.
  - by apply agree_WaitForAllNodeEnd.
  - by apply agree_GetNodeKernel.
  - destruct Ha as [Ho Ha]. by apply (agree_create true).
  - by apply agree_reader_ops.
  - by apply agree_reader_ops.
  - by apply agree_reader_ops.
  - destruct Ha as [Ho Ha]. by apply (agree_create false).
  - by apply agree_writer_ops.
  - by apply agree_writer_ops.
  - by apply agree_writer_ops.
  - destruct Ha. by apply agree_ConnectEndpoints.
  - by apply agree_reader_ops.
  - by apply agree_writer_ops.
  - by apply agree_IsTerminated.
Qed.
Lemma make_refines : refines (mk_system RCS.make RCC.make) LC.make.
Proof.
  constructor; cbn; try done.
  - constructor; try done.
    + apply LC.make_wf.
    + intros [] k [x E]; cbn in E; by rewrite lookup_empty in E.
  - intros k [x E]. cbn in E. by rewrite lookup_empty in E.
Qed.
(** *** Attributes of nodes *)
Definition as_variants (l : list (string * string)) : list (string * V) := (λ p, (p.1, VString p.2)) <$> l.
Definition params_of (v : V) : list (string * V) := match v with VObject l => l | _ => [] end.
Lemma put_params_ok l : ∀ (v : V) l0, IsObject v = true → plain (get v "param") →
  params_of (get v "param") = as_variants l0 → map_sorted (l0 ++ l) →
  ∃ v', put_params v l = Ok v' ∧ IsObject v' = true ∧ (∀ f, f ≠ "param" → get v' f = get v f) ∧
    plain (get v' "param") ∧ params_of (get v' "param") = as_variants (l0 ++ l).
Proof.
  induction l as [|p l IH]; intros v l0 Hv Hp He Hs; [exists v; by rewrite app_nil_r|].
  cbn [put_params]. unfold put_param. unfold mbind, res_bind.
  rewrite At_ref_get by by left. rewrite (Set_at_put (get v "param")) by done.
  rewrite Set_at_put by (left; apply put_object).
  set (x := put (get v "param") p.1 (VString p.2)).
  set (v2 := put (put v "param" (get v "param")) "param" x).
  assert (get v2 "param" = x) as Ex by (unfold v2; by rewrite get_put).
  assert (params_of x = as_variants (l0 ++ [p])%list) as Hx.
  { unfold x, as_variants. rewrite fmap_app. fold (as_variants l0). cbn.
    assert (map_assign p.1 (VString p.2) (as_variants l0) = (as_variants l0 ++ [(p.1, VString p.2)])%list) as Em.
    { apply map_assign_last. apply Forall_fmap. by apply (map_sorted_before l0 l p). }
    destruct Hp as [Hp|Hp]; [|rewrite Hp in *; cbn in He; by rewrite <- He].
    destruct (get v "param"); try done. cbn in He |- *. by rewrite He, Em. }
  destruct (IH v2 (l0 ++ [p])%list) as (v' & E & Ho & Hf & Hpl & Hr).
  - apply put_object.
  - rewrite Ex. apply plain_put.
  - by rewrite Ex.
  - by rewrite <- app_assoc.
  - exists v'. split; [exact E|]. split; [done|]. split; [|split; [done|]].
    + intros f Hne. rewrite Hf by done. unfold v2. rewrite !get_put.
      by rewrite (proj2 (String.eqb_neq f "param") Hne).
    + by rewrite <- app_assoc in Hr.
Qed.
Lemma set_params_ok l : ∀ m, map_sorted (m ++ l) → set_params m (as_variants l) = Ok (m ++ l)%list.
Proof.
  induction l as [|p l IH]; intros m Hs; [by rewrite app_nil_r|].
  change (as_variants (p :: l)) with ((p.1, VString p.2) :: as_variants l).
  cbn [set_params AsString]. unfold mbind, res_bind. rewrite map_assign_last by by apply (map_sorted_before m l p).
  rewrite IH; rewrite <- app_assoc; by destruct p.
Qed.
(** The receiver does not learn [kernelkey]. *)
Lemma MsgToNodeAttr_msg k (a : NodeAttr) : is_key k → is_key (a_key a) → map_sorted (a_params a) →
  ∃ v, nodeattr_msg k a = Ok v ∧
    MsgToNodeAttr v = Ok (mk_nodeattr (a_kernelname a) 0 (a_name a) (a_nodetype a) (a_params a) (a_key a)).
Proof.
  intros Hk Ha Hp. unfold nodeattr_msg. set (v0 := obj _).
  destruct (put_params_ok (a_params a) v0 []) as (v & E & Ho & Hf & Hpl & Hr); try done.
  { by right. }
  unfold mbind, res_bind. rewrite E, Set_at_put by by left. eexists. split; [done|].
  set (v' := put v "key" (of_Z (a_key a))).
  assert (IsObject v' = true) as Ho' by apply put_object.
  assert (∀ f, f ≠ "key" → get v' f = get v f) as Hg.
  { intros f Hne. unfold v'. rewrite get_put. by rewrite (proj2 (String.eqb_neq f "key") Hne). }
  unfold MsgToNodeAttr.
  rewrite (at_string_put v' "name" (a_name a)) by (done || by rewrite Hg, Hf by done).
  rewrite (at_string_put v' "nodetype" (a_nodetype a)) by (done || by rewrite Hg, Hf by done).
  rewrite (at_string_put v' "kernel" (a_kernelname a)) by (done || by rewrite Hg, Hf by done).
  rewrite (at_key_put v' "key" (a_key a)) by (done || (unfold v'; by rewrite get_put)).
  rewrite At_get, Hg by done. unfold mbind, res_bind.
  assert (set_params [] (as_variants (a_params a)) = Ok (a_params a)) as Es by by apply set_params_ok.
  destruct Hpl as [Hpl|Hpl]; [|rewrite Hpl in *].
  - destruct (get v "param"); try done. cbn [params_of app] in Hr. by rewrite Hr, Es.
  - cbn in Hr. destruct (a_params a); done.
Qed.
Lemma send_node_msg s c k i (a : NodeAttr) : refines s c → LC.kernelmap c !! k = Some i →
  LC.k_dead i = false → is_key (a_key a) → map_sorted (a_params a) →
  ∃ s', remote (SendCreateNode k a) s = (Ok (Some tt), s') ∧ refines s' c ∧
    calls (cl s') = (calls (cl s) ++ [(LC.k_kernel i, RemoteCreateNode
      (mk_nodeattr (a_kernelname a) 0 (a_name a) (a_nodetype a) (a_params a) (a_key a)))])%list.
Proof.
  intros Hr Hk Hd Ha Hp. pose proof (kernel_key s c k i Hr Hk) as Hkk.
  destruct (MsgToNodeAttr_msg k a Hkk Ha Hp) as (v & Ev & Ea).
  set (m := obj [("msgtype", VString "kernel"); ("type", of_Z (RCS.rctxmt RCS.RCTXMT_CREATE_NODE));
    ("kernelkey", of_Z k); ("nodeattr", v)] : V).
  apply (send_create s c _ k i m RCS.RCTXMT_CREATE_NODE); try done.
  - unfold SendCreateNode. rewrite run_checked by apply Hr. unfold lift, SendMessage. cbn [run]. mred.
    rewrite Ev. destruct (r_quiet _ _ Hr) as (_ & _ & _ & Q). by rewrite Q.
  - intros c1 Ek Hz. unfold DispatchMessage. assert (IsObject m = true) as Hm by apply obj_object. mred.
    rewrite (at_key_put m "type" 7) by done.
    rewrite (at_string_put m "msgtype" "kernel"), (at_key_put m "kernelkey" k), (At_get m "nodeattr") by done. mred.
    change (get m "nodeattr") with v. rewrite Ea.
    cbn [RCS.rctxmt Z.eqb Pos.eqb String.eqb Ascii.eqb Bool.eqb].
    by rewrite Ek, (proj2 (Z.eqb_neq _ _) Hz).
Qed.
End refinement.

(** ** Programs of operations

    Each operation comes with the attributes that it uses if it is a
    [SendCreateQueue]; a failure is a result. *)
Section sequence.
Context {F : Type} `{LongDouble F}.
Variable me : string.
Definition call : Type := @SimpleQueueAttr F * LC.op.

Fixpoint remote_all (l : list call) (s : system) : list (res LC.value) * system :=
  match l with
  | [] => ([], s)
  | (a, o) :: l => let '(r, s) := remote_run me a o s in
                   let '(rs, s) := remote_all l s in (r :: rs, s)
  end.
Fixpoint local_all (l : list call) (c : LC.context) : list (res LC.value) * LC.context :=
  match l with
  | [] => ([], c)
  | (_, o) :: l => let '(r, c) := LC.run o c in
                   let '(rs, c) := local_all l c in (r :: rs, c)
  end.
Fixpoint all_allowed (l : list call) (c : LC.context) : Prop :=
  match l with
  | [] => True
  | (a, o) :: l => allowed a c o ∧ all_allowed l (LC.run o c).2
  end.
Lemma all_agree `{!LongDoubleLaws F} l : ∀ s c, refines me s c → all_allowed l c →
  (remote_all l s).1 = (local_all l c).1 ∧ refines me (remote_all l s).2 (local_all l c).2.
Proof.
  induction l as [|[a o] l IH]; intros s c Hr Ha; [done|]. destruct Ha as [Ho Ha].
  destruct (allowed_agree me a o s c Hr Ho) as (r & s' & c' & E1 & E2 & Hr').
  rewrite E2 in Ha. destruct (IH s' c' Hr' Ha) as [E Hr2]. cbn. rewrite E1, E2.
  destruct (remote_all l s'), (local_all l c'). cbn in *. by rewrite E.
Qed.

(** C5: C31.  A client and the server implement the local context.  Whatever
    sequence of calls is made that [all_allowed] admits, each by the protocol of
    messages (the request is parsed by the server, looked up in its one map of
    variants, answered, and the reply parsed by the client), every call gives
    the value, the exception or the wait that the same call of [LocalContext]
    gives, and the server's map goes on holding exactly the local registry.
    Left out ([allowed]) are the calls in which the two differ: a kernel name
    that is taken (the server sends no reply), keys of the wrong kind and unknown
    endpoints (asserted instead of thrown), start signals and messages to a
    kernel that ended, a port name used in both directions, and [Terminate]. *)
Theorem remote_context_is_local `{!LongDoubleLaws F} (l : list call) :
  all_allowed l LC.make →
  (remote_all l (mk_system RCS.make RCC.make)).1 = (local_all l LC.make).1 ∧
  refines me (remote_all l (mk_system RCS.make RCC.make)).2 (local_all l LC.make).2.
Proof. apply all_agree, make_refines. Qed.

(** C32.  What is sent to create a node or a queue arrives: the kernel with the
    key has its method called with the attributes that were sent (a queue's are
    parsed back without loss; a node's parameters too, and only its kernel key
    is not passed on), exactly once and after all earlier calls, and the
    registry is as before. *)
Theorem kernel_messages_arrive `{!LongDoubleLaws F} s c k i (a : SimpleQueueAttr) (n : NodeAttr) :
  refines me s c → LC.kernelmap c !! k = Some i → LC.k_dead i = false →
  attr_fits a → is_key (a_key n) → map_sorted (a_params n) →
  (∀ p call, In (p, call)
     [(SendCreateQueue k a, RemoteCreateQueue a); (SendCreateWriter k a, RemoteCreateWriter a);
      (SendCreateReader k a, RemoteCreateReader a);
      (SendCreateNode k n, RemoteCreateNode
        (mk_nodeattr (a_kernelname n) 0 (a_name n) (a_nodetype n) (a_params n) (a_key n)))] →
   ∃ s', remote me p s = (Ok (Some tt), s') ∧ refines me s' c ∧
     calls (cl s') = (calls (cl s) ++ [(LC.k_kernel i, call)])%list).
Proof.
  intros Hr Hk Hd Ha Hn Hp p call' Hin. repeat destruct Hin as [[= <- <-]|Hin]; [..|done].
  - by apply (send_queue_msg me a s c k i RCS.RCTXMT_CREATE_QUEUE).
  - by apply (send_queue_msg me a s c k i RCS.RCTXMT_CREATE_WRITER).
  - by apply (send_queue_msg me a s c k i RCS.RCTXMT_CREATE_READER).
  - by apply send_node_msg.
Qed.
End sequence.

(** ** A concrete run *)
#[local] Existing Instance ld_integers.
#[local] Existing Instance ld_integers_laws.
Definition no_attr : @SimpleQueueAttr Z := mk_queueattr 0 "" 0 0 0 0 0 0 0 0 0.
Definition example_calls : list (@call Z) := (λ o, (no_attr, o)) <$>
  [LC.OSetupRemote "k" "host" "80" 5; LC.OGetKernelKey "k"; LC.OGetKernelKey "l";
   LC.OCreateNodeKey 1 "n"; LC.OWaitForNodeStart "n"; LC.OSignalNodeStart 2;
   LC.OWaitForNodeStart "n"; LC.OGetCreateReaderKey 2 "in"; LC.OGetCreateWriterKey 2 "out";
   LC.OConnectEndpoints 4 3 "q"; LC.OGetReadersWriter 3; LC.OWaitForAllNodeEnd; LC.OSendCreate 1].
(** Decides a concrete condition. *)
Ltac evaluate := vm_compute; repeat match goal with
  | |- _ ∧ _ => split
  | |- True => exact I
  | |- _ = _ => reflexivity
  | |- ∃ _, _ => eexists
  | |- ∀ _ : LC.kind, _ => intros []
  | |- _ → _ => let E := fresh in intros E; first [discriminate E | injection E as <- | destruct E; discriminate | idtac]
  | |- ∀ _, _ => intros ?
  end.
Lemma example_allowed : all_allowed example_calls LC.make.
Proof.
  cbn [all_allowed example_calls fmap list_fmap].
  repeat match goal with |- allowed _ _ _ ∧ _ => split | |- True => exact I end; evaluate.
Qed.
Lemma remote_context_is_local_witness :
  (remote_all "me" example_calls (mk_system RCS.make RCC.make)).1 =
  [Ok (LC.VKey 1); Ok (LC.VKey 1); Err InvalidArgument; Ok (LC.VKey 2); Ok LC.VWaits; Ok LC.VUnit;
   Ok (LC.VKey 2); Ok (LC.VKey 3); Ok (LC.VKey 4); Ok LC.VUnit; Ok (LC.VKey 4); Ok LC.VWaits;
   Ok (LC.VKey 5)].
Proof.
  destruct (remote_context_is_local "me" example_calls example_allowed) as [E _].
  rewrite E. vm_compute. reflexivity.
Defined.
Definition example_queue : @SimpleQueueAttr Z := mk_queueattr 2 "double" 100 10 1 3 3 4 2 2 7.
Definition example_node : NodeAttr := mk_nodeattr "k" 1 "n" "type" [("a", "1"); ("b", "2")] 2.
Lemma kernel_messages_arrive_witness :
  ∃ s', remote "me" (SendCreateNode 1 example_node)
    (remote_all "me" example_calls (mk_system RCS.make RCC.make)).2 = (Ok (Some tt), s').
Proof.
  destruct (all_agree "me" example_calls _ _ (make_refines "me") example_allowed) as [_ Hr].
  edestruct (kernel_messages_arrive "me" _ _ 1 (LC.mk_kernel "k" "host" "80" 5 false false true)
    example_queue example_node Hr) as (s' & E & _).
  - vm_compute. reflexivity.
  - reflexivity.
  - evaluate.
  - evaluate.
  - repeat constructor.
  - right; right; right; left. reflexivity.
  - exists s'. exact E.
Defined.
End RCR.
