(* ===== verification/RemoteCalls.v ===== *)
(** [RemoteContextClient] with several threads: the calls that are under way,
    their replies in any order, events in between, and termination.

    Each step happens under the lock.  A thread in [RemoteCall] is [waiting] at
    its condition variable, the address being that of its [WaiterInfo]; the
    ghost map has for the number of each call under way the address and the
    reply, when one was delivered. *)
From S2P Require Import Prelude Variant RemoteServer RemoteClient RemoteContext.

Module RCalls.
Import RCC RC.
Open Scope string_scope.
Open Scope Z_scope.

Section calls.
Context {F : Type} `{LongDouble F}.
Notation V := (Variant F).

(** The rest of [RemoteCall], at the wait. *)
Definition turn (a : Z) (woken : bool) : Op (option V) :=
  (if woken then InternalCheckTerminated else mret tt) ;;
  c ← mget; mret (mjoin (winfos c !! a)).
Definition waiting (a : Z) : paused F V :=
  Sleeping (λ w, catch (end_winfo a) (turn a w)) (λ b, protect (end_winfo a) (ret b)).
Definition called (m : V) (c : client F) : client F :=
  let id := u32 (trancounter c + 1) in let a := RCC.fresh c in
  set_sent (set_callwaiters (set_winfos (set_fresh (set_trancounter c id) (a + 1))
      (<[a := None]> (winfos c)))
    (match callwaiters c !! id with Some _ => callwaiters c | None => <[id := a]> (callwaiters c) end))
    (sent c ++ [put m "msgid" (of_Z id)]).

Lemma run_call (m : V) c : plain m → run (RemoteCall m) c = (waiting (RCC.fresh c), called m c).
Proof.
  intros Hm. unfold RemoteCall. cbn [run]. unfold NewTranID, new_address, AddWaiter, SendMessage. mred.
  rewrite Set_at_put by done. cbn [protect run]. unfold catch. mred. unfold called.
  cbn [callwaiters set_winfos set_fresh set_trancounter].
  destruct (callwaiters c !! u32 (trancounter c + 1)) eqn:E;
    cbn [winfos set_sent set_callwaiters set_winfos]; rewrite lookup_insert_eq; reflexivity.
Qed.
Lemma resume_waiting a c : shutdown c = false →
  resume (waiting a) c = match winfos c !! a with
                         | Some (Some r) => (Finished (Ok r), end_winfo a c)
                         | _ => (waiting a, c)
                         end.
Proof.
  intros E. unfold waiting. cbn [resume]. unfold catch, turn, InternalCheckTerminated. mred.
  rewrite E. mred. by destruct (winfos c !! a) as [[r|]|].
Qed.
Lemma resume_shutdown a c : shutdown c = true →
  resume (waiting a) c = (Finished (Err Shutdown), end_winfo a c).
Proof.
  intros E. unfold waiting. cbn [resume]. unfold catch, turn, InternalCheckTerminated. mred.
  by rewrite E.
Qed.

Definition answered (a id : Z) (r : V) (c : client F) : client F :=
  set_callwaiters (set_signalled (set_winfos c (<[a := Some r]> (winfos c))) (signalled c ++ [a]))
    (delete id (callwaiters c)).
Lemma dispatch_reply `{!LongDoubleLaws F} (r : V) id a o c : answer id r → 0 ≤ id < 4294967296 →
  callwaiters c !! id = Some a → winfos c !! a = Some o →
  DispatchMessage r c = (Ok tt, answered a id r c).
Proof.
  intros (A1 & A2 & A3 & A4) Hid E1 E2. unfold DispatchMessage, at_key, at_string, at_unsigned. mred.
  rewrite !At_get, A2, A3, A4, AsNumber_null by done.
  cbn [Z.eqb RCS.rctxmt AsString]. mred. cbn [String.eqb Ascii.eqb Bool.eqb].
  rewrite AsUnsigned_of_Z by done. rewrite E1, E2. done.
Qed.
Lemma dispatch_dangling `{!LongDoubleLaws F} (r : V) id a c : answer id r → 0 ≤ id < 4294967296 →
  callwaiters c !! id = Some a → winfos c !! a = None → DispatchMessage r c = (Err Dangling, c).
Proof.
  intros (A1 & A2 & A3 & A4) Hid E1 E2. unfold DispatchMessage, at_key, at_string, at_unsigned. mred.
  rewrite !At_get, A2, A3, A4, AsNumber_null by done.
  cbn [Z.eqb RCS.rctxmt AsString]. mred. cbn [String.eqb Ascii.eqb Bool.eqb].
  rewrite AsUnsigned_of_Z by done. by rewrite E1, E2.
Qed.

(** ** The steps *)
Notation calls_map := (gmap Z (Z * option V)).
Inductive step : client F * calls_map → client F * calls_map → Prop :=
  (** A thread calls; the counter has not come round. *)
  | step_call c T m st c' : plain m → trancounter c < 4294967295 → run (RemoteCall m) c = (st, c') →
      step (c, T) (c', <[trancounter c + 1 := (RCC.fresh c, None)]> T)
  (** A reply to a call that has none comes in. *)
  | step_reply c T id a r x c' : T !! id = Some (a, None) → answer id r →
      DispatchMessage r c = (x, c') → step (c, T) (c', <[id := (a, Some r)]> T)
  (** An event comes in. *)
  | step_event c T m x c' : event m → DispatchMessage m c = (x, c') → step (c, T) (c', T)
  (** A waiting thread wakes up, or is woken. *)
  | step_wake c T id a o st c' : T !! id = Some (a, o) → resume (waiting a) c = (st, c') →
      step (c, T) (c', if finished st then delete id T else T).

Record inv (c : client F) (T : calls_map) : Prop := {
  i_up : shutdown c = false;
  i_count : 0 ≤ trancounter c < 4294967296;
  i_threads id a o : T !! id = Some (a, o) → 1 ≤ id ≤ trancounter c ∧ a < RCC.fresh c ∧
    winfos c !! a = Some o ∧ callwaiters c !! id = match o with None => Some a | Some _ => None end;
  i_calls id a : callwaiters c !! id = Some a → T !! id = Some (a, None);
  i_apart i j a o o' : T !! i = Some (a, o) → T !! j = Some (a, o') → i = j }.

Lemma inv_make : inv make ∅.
Proof. constructor; cbn; try done; intros; by simplify_map_eq. Qed.
Lemma inv_call c T (m : V) : inv c T → trancounter c < 4294967295 →
  inv (called m c) (<[trancounter c + 1 := (RCC.fresh c, None)]> T).
Proof.
  intros [] Hc. unfold called. rewrite u32_id by lia.
  assert (T !! (trancounter c + 1) = None) as Hn.
  { destruct (T !! (trancounter c + 1)) as [[a o]|] eqn:E; [|done]. apply i_threads0 in E. lia. }
  assert (callwaiters c !! (trancounter c + 1) = None) as En.
  { destruct (callwaiters c !! (trancounter c + 1)) as [a|] eqn:E; [|done]. apply i_calls0 in E. congruence. }
  rewrite En. constructor; cbn; try done; [lia|..].
  - intros id a o E. destruct (decide (id = trancounter c + 1)) as [-> |]; simplify_map_eq.
    + rewrite ?lookup_insert_eq; split_and!; (done || lia).
    + destruct (i_threads0 _ _ _ E) as (? & ? & ? & ?).
      rewrite !lookup_insert_ne by (done || lia). split_and!; (done || lia).
  - intros id a E. destruct (decide (id = trancounter c + 1)) as [-> |]; simplify_map_eq; done.
  - assert (∀ i o, T !! i = Some (RCC.fresh c, o) → False) as Hf.
    { intros i o E. apply i_threads0 in E. lia. }
    intros i j a o o' E E'.
    destruct (decide (i = trancounter c + 1)) as [-> |], (decide (j = trancounter c + 1)) as [-> |];
      simplify_map_eq; try done; [exfalso; eauto..|by eapply i_apart0].
Qed.
Lemma inv_reply c T id a (r : V) : inv c T → T !! id = Some (a, None) →
  inv (answered a id r c) (<[id := (a, Some r)]> T).
Proof.
  intros [] HT. destruct (i_threads0 _ _ _ HT) as (H1 & H2 & H3 & H4). unfold answered.
  constructor; cbn; try done.
  - intros j b o E. destruct (decide (j = id)) as [-> |Hne]; simplify_map_eq; [done|].
    destruct (i_threads0 _ _ _ E) as (? & ? & ? & ?). rewrite ?lookup_delete_ne by done.
    rewrite lookup_insert_ne; [done|]. intros <-. by destruct Hne, (i_apart0 _ _ _ _ _ E HT).
  - intros j b E. apply lookup_delete_Some in E as [Hne E]. rewrite lookup_insert_ne by done.
    by apply i_calls0.
  - intros i j b o o' E E'. destruct (decide (i = id)) as [-> |], (decide (j = id)) as [-> |];
      simplify_map_eq; try done; by eapply i_apart0.
Qed.
Lemma inv_end c T id a (r : V) : inv c T → T !! id = Some (a, Some r) →
  inv (end_winfo a c) (delete id T).
Proof.
  intros [] HT. destruct (i_threads0 _ _ _ HT) as (H1 & H2 & H3 & H4). constructor; cbn; try done.
  - intros j b o E. apply lookup_delete_Some in E as [Hne E].
    destruct (i_threads0 _ _ _ E) as (? & ? & ? & ?).
    rewrite lookup_delete_ne; [done|]. intros <-. by destruct Hne, (i_apart0 _ _ _ _ _ E HT).
  - intros j b E. apply i_calls0 in E. rewrite lookup_delete_ne; [done|]. intros <-. congruence.
  - intros i j b o o' E E'. apply lookup_delete_Some in E as [_ E]. apply lookup_delete_Some in E' as [_ E'].
    by apply (i_apart0 _ _ _ _ _ E E').
Qed.
Lemma inv_step `{!LongDoubleLaws F} x y : step x y → inv x.1 x.2 → inv y.1 y.2.
Proof.
  intros Hs Hi. destruct Hs as [c T m st c' Hm Hc E|c T id a r x c' HT Ha E|c T m x c' He E|c T id a o st c' HT E];
    cbn [fst snd] in *.
  - rewrite run_call in E by done. simplify_eq. by apply inv_call.
  - destruct (i_threads _ _ Hi _ _ _ HT) as (H1 & H2 & H3 & H4). pose proof (i_count _ _ Hi).
    rewrite (dispatch_reply r id a None c) in E by (done || lia). simplify_eq. by apply inv_reply.
  - destruct (dispatch_event m c _ He) as (w & q & g & Eq). rewrite Eq in E. simplify_eq.
    destruct Hi. by constructor.
  - rewrite resume_waiting in E by apply Hi. destruct (i_threads _ _ Hi _ _ _ HT) as (H1 & H2 & H3 & H4).
    rewrite H3 in E. destruct o as [r|]; simplify_eq; cbn; [by eapply inv_end|done].
Qed.
Lemma reachable_inv `{!LongDoubleLaws F} c T : rtc step (make, ∅) (c, T) → inv c T.
Proof.
  intros Hr. assert (∀ x y, rtc step x y → inv x.1 x.2 → inv y.1 y.2) as Hp.
  { induction 1; eauto using inv_step. }
  apply (Hp _ _ Hr), inv_make.
Qed.

(** ** Termination *)
Definition after_calls (l : list (Z * Z)) (c : client F) : client F :=
  set_signalled c (signalled c ++ (snd <$> l))%list.
Lemma signal_calls_ok l : ∀ c : client F, (∀ id a, (id, a) ∈ l → is_Some (winfos c !! a)) →
  signal_calls l c = (Ok tt, after_calls l c).
Proof.
  induction l as [|[id a] l IH]; intros c Hw; cbn [signal_calls].
  - unfold after_calls. cbn. rewrite app_nil_r. by destruct c.
  - mred. destruct (Hw id a) as [w E]; [by left|]. rewrite E. unfold Signal. mred. rewrite IH.
    + unfold after_calls. cbn. by rewrite <- app_assoc.
    + intros j b Hj. cbn. apply (Hw j b). by right.
Qed.
Lemma signal_waiters_ok l : ∀ c : client F, ∃ g, signal_waiters l c = (Ok tt, set_signalled c g) ∧
  ∀ a, a ∈ signalled c ∨ (a ∈ l ∧ is_Some (queues c !! a)) → a ∈ g.
Proof.
  induction l as [|b l IH]; intros c; cbn [signal_waiters]; mred.
  - exists (signalled c). split; [by destruct c|]. intros a [?|[Hn%elem_of_nil _]]; done.
  - destruct (queues c !! b) as [q|] eqn:E; unfold Signal; mred.
    + destruct (IH (set_signalled c (signalled c ++ [b])%list)) as (g & Eg & Hg). rewrite Eg.
      exists g. split; [done|]. intros a Ha. apply Hg. cbn. rewrite elem_of_app, list_elem_of_singleton.
      rewrite elem_of_cons in Ha. naive_solver.
    + destruct (IH c) as (g & Eg & Hg). rewrite Eg. exists g. split; [done|]. intros a Ha. apply Hg.
      rewrite elem_of_cons in Ha. destruct Ha as [?|[[-> |?] Hq]]; auto. rewrite E in Hq. by destruct Hq.
Qed.
Lemma notify_kernels_ok l : ∀ c : client F, notify_kernels l c =
  (Ok tt, set_calls c (calls c ++ ((λ e, (e.2, NotifyTerminate)) <$> l))%list).
Proof.
  induction l as [|[k p] l IH]; intros c; cbn [notify_kernels].
  - cbn. rewrite app_nil_r. by destruct c.
  - unfold call_kernel. mred. rewrite IH. cbn. by rewrite <- app_assoc.
Qed.
Lemma terminate_ok c T : inv c T → ∃ g, InternalTerminate c =
    (Ok tt, set_calls (set_signalled (set_shutdown c) g)
      (calls c ++ ((λ e, (e.2, NotifyTerminate)) <$> map_to_list (kernels c)))%list) ∧
  (∀ id a, T !! id = Some (a, None) → a ∈ g) ∧
  (∀ a, a ∈ waiters c → is_Some (queues c !! a) → a ∈ g).
Proof.
  intros Hi. unfold InternalTerminate. mred. rewrite (i_up _ _ Hi).
  rewrite signal_calls_ok; cycle 1.
  { intros id a Ha. apply elem_of_map_to_list in Ha. apply (i_calls _ _ Hi) in Ha.
    destruct (i_threads _ _ Hi _ _ _ Ha) as (_ & _ & E & _). by exists None. }
  set (c1 := after_calls _ _). destruct (signal_waiters_ok (waiters c) c1) as (g & Eg & Hg).
  exists g. rewrite Eg. unfold TerminateThread. mred. rewrite notify_kernels_ok.
  split; [done|]. split.
  - intros id a HT. apply Hg. left. destruct (i_threads _ _ Hi _ _ _ HT) as (_ & _ & _ & E).
    unfold c1, after_calls. cbn. apply elem_of_app. right. apply list_elem_of_fmap. exists (id, a).
    split; [done|]. by apply elem_of_map_to_list.
  - intros a Ha Hq. apply Hg. by right.
Qed.

(** C29: C33.  Replies reach their callers.  However the calls of any number of
    threads, the replies to them (in any order), the server's events and the
    wake-ups, spurious ones included, are interleaved: a reply to a call that
    has none is taken without a fault, a thread whose reply has not come goes
    back to sleep, and one whose reply has come returns exactly that reply. *)
Theorem replies_reach_callers `{!LongDoubleLaws F} c T id a o :
  rtc step (make, ∅) (c, T) → T !! id = Some (a, o) →
  match o with
  | None => resume (waiting a) c = (waiting a, c) ∧
            ∀ r, answer id r → ∃ c', DispatchMessage r c = (Ok tt, c') ∧
              resume (waiting a) c' = (Finished (Ok r), end_winfo a c')
  | Some r => resume (waiting a) c = (Finished (Ok r), end_winfo a c)
  end.
Proof.
  intros Hr HT. pose proof (reachable_inv c T Hr) as Hi. pose proof (i_count _ _ Hi).
  destruct (i_threads _ _ Hi _ _ _ HT) as (H1 & H2 & H3 & H4).
  rewrite resume_waiting, H3 by apply Hi. destruct o as [r|]; [done|]. split; [done|].
  intros r Ha. exists (answered a id r c). split; [by apply (dispatch_reply r id a None c); (done || lia)|].
  rewrite resume_waiting by apply Hi. cbn. by rewrite lookup_insert_eq.
Qed.

(** C34.  Termination wakes everything that waits: whatever is under way,
    [InternalTerminate] returns, signals every call without a reply and every
    generic waiter and tells each kernel once; and then every thread in
    [RemoteCall] leaves with [ShutdownException]. *)
Theorem termination_wakes_all `{!LongDoubleLaws F} c T :
  rtc step (make, ∅) (c, T) → ∃ c', InternalTerminate c = (Ok tt, c') ∧
    (∀ id a, T !! id = Some (a, None) → a ∈ signalled c') ∧
    (∀ a, a ∈ waiters c → is_Some (queues c !! a) → a ∈ signalled c') ∧
    calls c' = (calls c ++ ((λ e, (e.2, NotifyTerminate)) <$> map_to_list (kernels c)))%list ∧
    (∀ id a o, T !! id = Some (a, o) → resume (waiting a) c' = (Finished (Err Shutdown), end_winfo a c')).
Proof.
  intros Hr. destruct (terminate_ok c T (reachable_inv c T Hr)) as (g & E & Hg1 & Hg2).
  eexists. split; [exact E|]. split; [exact Hg1|]. split; [exact Hg2|]. split; [done|].
  intros id a o _. by apply resume_shutdown.
Qed.

(** C35.  The fault in that: a call that is woken by termination leaves its
    entry in [callwaiters], which has the address of a [WaiterInfo] on the stack
    of a call that has ended; the reply to it, which may still be on its way,
    is written there. *)
Theorem late_reply_dangles `{!LongDoubleLaws F} c T id a c1 c2 st r :
  rtc step (make, ∅) (c, T) → T !! id = Some (a, None) → InternalTerminate c = (Ok tt, c1) →
  resume (waiting a) c1 = (st, c2) → answer id r →
  st = Finished (Err Shutdown) ∧ DispatchMessage r c2 = (Err Dangling, c2).
Proof.
  intros Hr HT E E2 Ha. pose proof (reachable_inv c T Hr) as Hi. pose proof (i_count _ _ Hi).
  destruct (terminate_ok c T Hi) as (g & E' & _). rewrite E' in E. simplify_eq.
  rewrite resume_shutdown in E2 by done. simplify_eq. split; [done|].
  destruct (i_threads _ _ Hi _ _ _ HT) as (H1 & H2 & H3 & H4).
  apply (dispatch_dangling r id a); [done|lia|done|]. cbn. by rewrite lookup_delete_eq.
Qed.
End calls.

(** ** Two calls answered in the other order *)
#[local] Existing Instance ld_integers.
#[local] Existing Instance ld_integers_laws.
Definition example_request : Variant Z := request RCS.RCTXMT_GET_NUM_NODE_LIVE [].
Definition example_reply (id : Z) : Variant Z :=
  obj [("msgid", of_Z id); ("msgtype", VString "reply"); ("success", VTrue)].
Definition after_two : client Z := called example_request (called example_request make).
Lemma after_two_reachable :
  rtc step (make, ∅) (after_two, <[2 := (2, None)]> (<[1 := (1, None)]> ∅)).
Proof.
  eapply rtc_l; [|eapply rtc_once].
  - by apply (step_call make ∅ example_request (waiting 1) (called example_request make)); [left| |].
  - by apply (step_call (called example_request make) _ example_request (waiting 2)); [left| |].
Qed.
Lemma replies_reach_callers_witness : ∃ c',
  DispatchMessage (example_reply 2) after_two = (Ok tt, c') ∧
  resume (waiting 2) c' = (Finished (Ok (example_reply 2)), end_winfo 2 c').
Proof.
  destruct (replies_reach_callers _ _ 2 2 None after_two_reachable) as [_ Hr].
  - reflexivity.
  - apply Hr. repeat split.
Defined.
Lemma termination_wakes_all_witness : ∃ c',
  InternalTerminate after_two = (Ok tt, c') ∧ 1 ∈ signalled c' ∧ 2 ∈ signalled c'.
Proof.
  destruct (termination_wakes_all _ _ after_two_reachable) as (c' & E & Hs & _).
  exists c'. split; [exact E|]. split; [apply (Hs 1)|apply (Hs 2)]; reflexivity.
Defined.
Lemma late_reply_dangles_witness :
  let c1 := (InternalTerminate after_two).2 in
  (DispatchMessage (example_reply 1) (end_winfo 1 c1)).1 = Err Dangling.
Proof.
  intros c1. destruct (late_reply_dangles _ _ 1 1 c1 (end_winfo 1 c1) (Finished (Err Shutdown))
    (example_reply 1) after_two_reachable) as [_ E].
  - reflexivity.
  - vm_compute. reflexivity.
  - reflexivity.
  - repeat split.
  - rewrite E. reflexivity.
Defined.
End RCalls.
