(* ===== verification/RemoteWaits.v ===== *)
(** [RemoteContextClient::WaitForNodeStart] among events: nothing that the server
    broadcasts from the request on is missed. *)
From S2P Require Import Prelude Variant RemoteServer RemoteClient RemoteContext.
From S2P Require Import RemoteRefinement RemoteCalls.

Module RWaits.
Import RCC RC RCR RCalls.
Open Scope string_scope.
Open Scope Z_scope.

Section waits.
Context {F : Type} `{LongDouble F} `{!LongDoubleLaws F}.
Notation V := (Variant F).

Ltac fields_of := repeat (rewrite ?run_pbind;
  first [rewrite run_succeeds by done | rewrite run_success by done | rewrite run_true_field by done
        |rewrite run_field by done | rewrite run_key_field by done | rewrite run_string_field by done];
  cbn [bindp]).

Lemma resume_bind {A B D} (t : bool → Op (option D)) (f : D → prog F A) (g : A → prog F B) c :
  resume (Sleeping t (λ b, pbind (f b) g)) c = bindp g (resume (Sleeping t f) c).
Proof. cbn. destruct (t true c) as [[[b|]|e] c']; [apply run_pbind|done..]. Qed.

Definition with_new_waiter (c : client F) : client F :=
  let a := RCC.fresh c in
  set_waiters (set_queues (set_fresh c (a + 1)) (<[a := []]> (queues c))) (waiters c ++ [a]).
Lemma run_with_waiter {A} (body : Z → prog F A) c :
  run (with_waiter body) c = leave (end_waiter (RCC.fresh c)) (run (body (RCC.fresh c)) (with_new_waiter c)).
Proof.
  unfold with_waiter. cbn [run]. unfold NewGenericWaiter, new_address. mred. apply run_protect.
Qed.

(** The messages that arrive. *)
Definition dispatch_all (l : list V) : Op unit := each DispatchMessage l.

(** *** Live waiters *)
Definition waiters_ok (c : client F) : Prop :=
  NoDup (waiters c) ∧ ∀ a, a ∈ waiters c → a < RCC.fresh c.
Lemma push_all_other (msg : V) a l : ∀ c, a ∉ l → ∃ l' c',
  push_all msg l c = (Ok l', c') ∧ queues c' !! a = queues c !! a ∧
  (∀ b, b ∈ l' → b ∈ l) ∧ (NoDup l → NoDup l') ∧
  winfos c' = winfos c ∧ callwaiters c' = callwaiters c ∧ shutdown c' = shutdown c ∧
  ∃ s, signalled c' = (signalled c ++ s)%list.
Proof.
  induction l as [|b l IH]; intros c Ha; cbn; mred.
  - exists [], c. split_and!; try done. exists []. by rewrite app_nil_r.
  - apply not_elem_of_cons in Ha as [Hab Ha]. destruct (queues c !! b) as [q|]; mred; unfold Signal; mred; cbn [signalled set_queues].
    + destruct (IH (set_signalled (set_queues c (<[b:=(q ++ [msg])%list]> (queues c))) (signalled c ++ [b])) Ha)
        as (l' & c' & E & Eq & Hl & Hn & Hw & Hc & Hs & s & Hg).
      rewrite E. exists (b :: l'), c'. split; [done|]. split; [by rewrite Eq; cbn; rewrite lookup_insert_ne|].
      split_and!; try done.
      * intros x. rewrite !elem_of_cons. naive_solver.
      * rewrite !NoDup_cons. naive_solver.
      * exists (b :: s). rewrite Hg. cbn. by rewrite <- app_assoc.
    + destruct (IH c Ha) as (l' & c' & E & Eq & Hl & Hn & Hr). rewrite E. exists l', c'.
      split; [done|]. split; [done|]. split; [|split; [|done]].
      * intros x Hx. apply elem_of_cons. auto.
      * rewrite NoDup_cons. naive_solver.
Qed.
Lemma push_all_live (msg : V) a q l : ∀ c, a ∈ l → NoDup l → queues c !! a = Some q → ∃ l' c',
  push_all msg l c = (Ok l', c') ∧ queues c' !! a = Some (q ++ [msg])%list ∧ a ∈ l' ∧ NoDup l' ∧
  (∀ b, b ∈ l' → b ∈ l) ∧
  winfos c' = winfos c ∧ callwaiters c' = callwaiters c ∧ shutdown c' = shutdown c ∧
  ∃ s, signalled c' = (signalled c ++ s)%list ∧ a ∈ s.
Proof.
  induction l as [|b l IH]; intros c Ha Hn Eq; [by apply elem_of_nil in Ha|].
  apply NoDup_cons in Hn as [Hb Hn]. cbn; mred. destruct (decide (a = b)) as [<-|Hab].
  - rewrite Eq. unfold Signal. mred. cbn [signalled set_queues].
    destruct (push_all_other msg a l (set_signalled (set_queues c (<[a:=(q ++ [msg])%list]> (queues c)))
      (signalled c ++ [a])) Hb) as (l' & c' & E & Eq' & Hl & Hn' & Hw & Hc & Hs & s & Hg).
    rewrite E. exists (a :: l'), c'. split; [done|].
    split; [by rewrite Eq'; cbn; rewrite lookup_insert_eq|]. split; [by left|].
    split; [apply NoDup_cons; naive_solver|]. split_and!; try done.
    + intros x. rewrite !elem_of_cons. naive_solver.
    + exists (a :: s). rewrite Hg. cbn. rewrite <- app_assoc. split; [done|by left].
  - apply elem_of_cons in Ha as [?|Ha]; [done|]. destruct (queues c !! b) as [q'|] eqn:Eb; unfold Signal; mred; cbn [signalled set_queues].
    + destruct (IH (set_signalled (set_queues c (<[b:=(q' ++ [msg])%list]> (queues c))) (signalled c ++ [b])))
        as (l' & c' & E & Eq' & Ha' & Hn' & Hl & Hw & Hc & Hs & s & Hg & Hin); [done|done|cbn; by rewrite lookup_insert_ne|].
      rewrite E. exists (b :: l'), c'. split; [done|]. split; [done|]. split; [by right|].
      split; [apply NoDup_cons; naive_solver|]. split_and!; try done.
      * intros x. rewrite !elem_of_cons. naive_solver.
      * exists (b :: s). rewrite Hg. cbn. rewrite <- app_assoc. split; [done|by right].
    + destruct (IH c Ha Hn Eq) as (l' & c' & E & Eq' & Ha' & Hn' & Hl & Hr). rewrite E. exists l', c'.
      do 4 (split; [done|]). split; [|done]. intros x Hx. apply elem_of_cons. auto.
Qed.

(** What a generic waiter is while messages come, and a [RemoteCall] that waits too. *)
Record hears (a : Z) (q : list V) (c : client F) : Prop := {
  h_up : shutdown c = false; h_queue : queues c !! a = Some q;
  h_in : a ∈ waiters c; h_nodup : NoDup (waiters c) }.
Record listening (a b id : Z) (q : list V) (o : option V) (c : client F) : Prop := {
  l_hears : hears a q c;
  l_winfo : winfos c !! b = Some o;
  l_call : callwaiters c !! id = match o with None => Some b | Some _ => None end }.
(** Messages only add to those that were signalled. *)
Definition signals (c c' : client F) (s : list Z) : Prop := signalled c' = (signalled c ++ s)%list.
Lemma signals_app c c1 c2 s1 s2 : signals c c1 s1 → signals c1 c2 s2 → signals c c2 (s1 ++ s2).
Proof. unfold signals. intros E1 E2. by rewrite E2, E1, <- app_assoc. Qed.
Lemma hear_event a q c (m : V) : hears a q c → event m → ∃ c' s,
  DispatchMessage m c = (Ok tt, c') ∧ hears a (q ++ [m]) c' ∧ signals c c' s ∧ a ∈ s ∧
  winfos c' = winfos c ∧ callwaiters c' = callwaiters c.
Proof.
  intros [] (Ho & E1 & E2). unfold DispatchMessage, at_key, at_string. mred.
  rewrite !At_get, E1, E2, AsNumber_null by done. cbn [Z.eqb RCS.rctxmt AsString]. mred.
  cbn [String.eqb Ascii.eqb Bool.eqb].
  destruct (push_all_live m a q (waiters c) c h_in0 h_nodup0 h_queue0)
    as (l' & c' & E & Eq & Ha & Hn & Hl & Hw & Hc & Hs & s & Hg & Hin). rewrite E.
  eexists _, s. split; [done|]. split_and!; try done. constructor; cbn; try done; congruence.
Qed.
Lemma hear_events a l : ∀ q c, hears a q c → Forall event l → ∃ c' s,
  dispatch_all l c = (Ok tt, c') ∧ hears a (q ++ l) c' ∧ signals c c' s ∧ (l ≠ [] → a ∈ s) ∧
  winfos c' = winfos c ∧ callwaiters c' = callwaiters c.
Proof.
  induction l as [|m l IH]; intros q c Hl Hm; cbn; mred.
  { exists c, []. rewrite app_nil_r. split_and!; try done. unfold signals. by rewrite app_nil_r. }
  apply Forall_cons in Hm as [Hm Hms]. destruct (hear_event a q c m Hl Hm) as (c1 & s1 & E1 & H1 & G1 & I1 & W1 & C1).
  rewrite E1. destruct (IH _ c1 H1 Hms) as (c2 & s2 & E2 & H2 & G2 & _ & W2 & C2). exists c2, (s1 ++ s2)%list.
  rewrite <- app_assoc in H2. split_and!; try done; [by eapply signals_app|intros _; apply elem_of_app; by left|congruence..].
Qed.
Lemma listen_events a b id o l q c : listening a b id q o c → Forall event l → ∃ c' s,
  dispatch_all l c = (Ok tt, c') ∧ listening a b id (q ++ l) o c' ∧ signals c c' s.
Proof.
  intros [Hh Hw Hc] Hl. destruct (hear_events a l q c Hh Hl) as (c' & s & E & H' & G & _ & W & C).
  exists c', s. split_and!; try done. by constructor; rewrite ?W, ?C.
Qed.
Lemma listen_reply a b id q c (r : V) : listening a b id q None c → answer id r → 0 ≤ id < 4294967296 →
  ∃ c', DispatchMessage r c = (Ok tt, c') ∧ listening a b id q (Some r) c' ∧ signals c c' [b].
Proof.
  intros [[] Hw Hc] Ha Hid. rewrite (dispatch_reply r id b None c) by done. eexists. split; [done|].
  split; [|done]. constructor; [by constructor|..]; cbn; by rewrite ?lookup_insert_eq, ?lookup_delete_eq.
Qed.
Lemma dispatch_app l1 l2 (c : client F) : dispatch_all (l1 ++ l2) c =
  match dispatch_all l1 c with (Ok _, c) => dispatch_all l2 c | (Err e, c) => (Err e, c) end.
Proof.
  revert c. induction l1 as [|m l1 IH]; intros c; cbn; mred; [done|].
  destruct (DispatchMessage m c) as [[[]|e] c']; [apply IH|done].
Qed.

(** *** Events about nodes *)
Definition node_event (m : V) : Prop := event m ∧
  (IsObject (get m "nodeinfo") = true → ∃ t k, get (get m "nodeinfo") "name" = VString t ∧
     get (get m "nodeinfo") "key" = of_Z k ∧ is_key k).
(** The key of the node of the name when the event says that it has started. *)
Definition started (n : string) (m : V) : option Z :=
  let x := get m "nodeinfo" in
  match IsObject x, get x "name", AsNumber (get x "key") with
  | true, VString t, Ok k => if String.eqb t n && IsTrue (get x "started") then Some k else None
  | _, _, _ => None
  end.
Definition first_started (n : string) (l : list V) : option Z := head (omap (started n) l).
Lemma found_started n m : node_event m → found_key "nodeinfo" "started" n m = Ok (started n m).
Proof.
  intros [(Ho & _) Hm]. unfold found_key, about, true_field, started, mbind, res_bind.
  rewrite At_ref_get by by left. set (x := get m "nodeinfo") in *. destruct (IsObject x) eqn:Hx; [|done].
  destruct Hm as (t & k & E1 & E2 & Hk); [done|]. rewrite !At_ref_get by by left.
  rewrite E1, E2, AsNumber_of_Z by done. cbn [AsString].
  destruct (String.eqb t n && IsTrue (get x "started")); [|done].
  by rewrite At_ref_get, E2, AsNumber_of_Z by (done || by left).
Qed.
Lemma first_started_app n l1 l2 : first_started n (l1 ++ l2) =
  match first_started n l1 with Some k => Some k | None => first_started n l2 end.
Proof. unfold first_started. rewrite omap_app. by destruct (omap (started n) l1). Qed.
Lemma scan_started a n l : ∀ c : client F, queues c !! a = Some l → Forall node_event l → ∃ Q,
  scan a (found_key "nodeinfo" "started" n) l c = (Ok (first_started n l), set_queues c Q) ∧
  (first_started n l = None → Q !! a = Some []).
Proof.
  induction l as [|m l IH]; intros c Eq Hl; cbn [scan]; mred; [exists (queues c); by destruct c|].
  apply Forall_cons in Hl as [Hm Hl]. rewrite found_started by done. unfold first_started. cbn [omap list_omap].
  destruct (started n m) as [k|]; [by eexists|].
  destruct (IH (set_queues c (<[a:=l]> (queues c)))) as (Q & E & HQ); [by cbn; rewrite lookup_insert_eq|done|].
  exists Q. split; [exact E|exact HQ].
Qed.
(** The wait of [WaitForNodeStart], and a turn of it. *)
Definition start_turn (a : Z) n (woken : bool) : Op (option Z) :=
  (if woken then InternalCheckTerminated else mret tt) ;; scan_queue a (found_key "nodeinfo" "started" n).
Definition start_wait (a : Z) n : paused F Z := Sleeping (start_turn a n) ret.
Lemma start_turn_result a n q w c : hears a q c → Forall node_event q → ∃ Q,
  start_turn a n w c = (Ok (first_started n q), set_queues c Q) ∧ (first_started n q = None → Q !! a = Some []).
Proof.
  intros [] Hq. destruct (scan_started a n q c h_queue0 Hq) as (Q & E & HQ). exists Q. split; [|done].
  unfold start_turn, InternalCheckTerminated, scan_queue. destruct w; mred; rewrite ?h_up0; mred; by rewrite h_queue0.
Qed.
Lemma hears_emptied a q c Q : hears a q c → Q !! a = Some [] → hears a [] (set_queues c Q).
Proof. intros [] HQ. by constructor. Qed.
(** What the wait comes to, when it begins and when it is woken. *)
Definition wait_result (a : Z) n q (c : client F) (x : paused F Z * client F) : Prop :=
  match first_started n q with
  | Some k => x.1 = Finished (Ok k)
  | None => x.1 = start_wait a n ∧ hears a [] x.2 ∧ signalled x.2 = signalled c
  end.
Lemma run_wait_started a n q c : hears a q c → Forall node_event q →
  wait_result a n q c (run (wait_for a (found_key "nodeinfo" "started" n)) c).
Proof.
  intros Hh Hq. unfold wait_result. change (run _ c) with (match start_turn a n false c with
    | (Ok (Some b), c) => run (ret b) c | (Ok None, c) => (start_wait a n, c)
    | (Err e, c) => (Finished (Err e), c) end).
  destruct (start_turn_result a n q false c Hh Hq) as (Q & -> & HQ). destruct (first_started n q); [done|].
  split_and!; [done|by eapply hears_emptied; eauto|done].
Qed.
Lemma resume_wait_started a n q c : hears a q c → Forall node_event q →
  wait_result a n q c (resume (start_wait a n) c).
Proof.
  intros Hh Hq. unfold start_wait, wait_result. cbn [resume].
  destruct (start_turn_result a n q true c Hh Hq) as (Q & -> & HQ). destruct (first_started n q); [done|].
  split_and!; [done|by eapply hears_emptied; eauto|done].
Qed.

(** *** A thread that waits while messages come in

    Its call sleeps on one of the addresses [l]; in each turn messages come, and then
    the thread runs when it was signalled, or woke up by itself, until it returns. *)
Definition woken (l : list Z) (c c' : client F) : bool :=
  existsb (λ a, bool_decide (a ∈ l)) (drop (length (signalled c)) (signalled c')).
Fixpoint turns {A} (l : list Z) (st : paused F A) (c : client F) (ms : list (list V * bool)) :
    res (paused F A) * client F :=
  match ms with
  | [] => (Ok st, c)
  | (msgs, spurious) :: ms =>
      if finished st then (Ok st, c) else
      match dispatch_all msgs c with
      | (Err e, c) => (Err e, c)
      | (Ok _, c') => if woken l c c' || spurious then let '(st, c') := resume st c' in turns l st c' ms
                      else turns l st c' ms
      end
  end.
Lemma turns_finished {A} l (r : res A) c ms : turns l (Finished r) c ms = (Ok (Finished r), c).
Proof. by destruct ms as [|[? ?] ?]. Qed.
Lemma woken_signals l c c' s a : signals c c' s → a ∈ l → a ∈ s → woken l c c' = true.
Proof.
  intros E Ha Hs. unfold woken. rewrite E, drop_app_length. apply existsb_exists. exists a.
  split; [by apply list_elem_of_In|by apply bool_decide_true].
Qed.
Lemma events_of l : Forall node_event l → Forall event l.
Proof. intros Hl. eapply Forall_impl; [exact Hl|]. by intros ? [? _]. Qed.

(** While the reply is not there, nothing happens. *)
Lemma turns_before {A} l a b id (st : paused F A) rest : finished st = false →
  (∀ c, shutdown c = false → winfos c !! b = Some None → resume st c = (st, c)) →
  ∀ ms q c, listening a b id q None c → Forall node_event (concat ms.*1) → ∃ c',
  turns l st c (ms ++ rest) = turns l st c' rest ∧ listening a b id (q ++ concat ms.*1) None c'.
Proof.
  intros Hf Hst. induction ms as [|[m w] ms IH]; intros q c Hl Hm; cbn [app turns fmap list_fmap concat fst] in *.
  { exists c. by rewrite app_nil_r. }
  apply Forall_app in Hm as [Hm Hms]. rewrite Hf.
  destruct (listen_events a b id None m q c Hl (events_of _ Hm)) as (c1 & s & -> & H1 & _).
  rewrite Hst by apply H1. destruct (IH _ c1 H1 Hms) as (c2 & E & H2). exists c2.
  rewrite <- app_assoc in H2. split; [|done]. rewrite E. by destruct (_ || w).
Qed.
(** After it, each turn looks at what came. *)
Lemma turns_after l a n clean : a ∈ l → ∀ ms c, hears a [] c → Forall node_event (concat ms.*1) → ∃ st' c',
  turns l (protect_paused clean (start_wait a n)) c ms = (Ok st', c') ∧
  match first_started n (concat ms.*1) with Some k => st' = Finished (Ok k) | None => finished st' = false end.
Proof.
  intros Ha. induction ms as [|[m w] ms IH]; intros c Hh Hm; cbn [turns fmap list_fmap concat fst] in *.
  { by eexists _, c. }
  apply Forall_app in Hm as [Hm Hms]. cbn [protect_paused start_wait finished].
  destruct (hear_events a m [] c Hh (events_of _ Hm)) as (c1 & s & -> & H1 & G & Hin & _). cbn [app] in H1.
  rewrite first_started_app.
  change (Sleeping _ _) with (protect_paused clean (start_wait a n)).
  destruct (woken l c c1 || w) eqn:Ew.
  - unfold start_wait at 1. rewrite resume_protect. change (Sleeping _ _) with (start_wait a n).
    pose proof (resume_wait_started a n m c1 H1 Hm) as Hr. unfold wait_result in Hr. unfold leave.
    destruct (resume (start_wait a n) c1) as [st c2]. cbn [fst snd] in *.
    destruct (first_started n m) as [k|].
    + subst st. cbn. rewrite turns_finished. by eexists _, _.
    + destruct Hr as (-> & H2 & _). cbn [start_wait finished]. by apply IH.
  - assert (m = []) as ->.
    { destruct m; [done|]. rewrite (woken_signals l c c1 s a) in Ew; [done|done|done|by apply Hin]. }
    cbn [first_started omap list_omap head]. by apply IH.
Qed.

(** So the wait, whatever it found when it began, comes to the first event. *)
Lemma waits_on l a n clean q c later x : a ∈ l → wait_result a n q c x → Forall node_event (concat later.*1) → ∃ st' c',
  (let '(st, c') := leave clean x in turns l st c' later) = (Ok st', c') ∧
  match first_started n (q ++ concat later.*1)%list with
  | Some k => st' = Finished (Ok k)
  | None => finished st' = false
  end.
Proof.
  intros Ha Hrun Hla. rewrite first_started_app. unfold wait_result in Hrun. unfold leave. destruct x as [st' c6]. cbn [fst snd] in *.
  destruct (first_started n q) as [key|].
  - subst st'. cbn. rewrite turns_finished. by eexists _, _.
  - destruct Hrun as (-> & H6 & _). cbn [start_wait finished]. by apply (turns_after l a n clean).
Qed.
(** The call has asked the server and listens. *)
Lemma called_listens c m : quiet c → waiters_ok c →
  listening (RCC.fresh c) (RCC.fresh c + 1) (u32 (trancounter c + 1)) [] None (called m (with_new_waiter c)).
Proof.
  intros (Q1 & Q2 & Q3 & Q4) [Hn Hf]. unfold called. cbn [callwaiters set_waiters set_queues set_fresh with_new_waiter].
  rewrite Q2, lookup_empty. constructor; [constructor|..]; cbn; try done; rewrite ?lookup_insert_eq; try done.
  - apply elem_of_app. right. by left.
  - apply NoDup_app. split; [done|]. split; [|repeat constructor; by apply not_elem_of_nil].
    intros x Hx Hx'. apply list_elem_of_singleton in Hx' as ->. specialize (Hf _ Hx). lia.
Qed.

(** A reply that does not say that the node has started. *)
Definition not_started (r : V) : Prop :=
  get r "success" = VFalse ∨
  get r "success" = VTrue ∧ IsObject (get r "nodeinfo") = true ∧
    get (get r "nodeinfo") "started" = VFalse.

(** C30: [WaitForNodeStart] misses no start.  The thread asks the server; events come
    in, in any number of turns before the reply that the node has not started, with
    it, and in any number of turns after it, and the thread runs when it is
    signalled, or woken for no reason.  If one of the events tells that the node
    has started, the call returns the key in the first such event; otherwise it is
    still waiting. *)
Theorem no_start_is_missed (c : client F) n before pre r post w later :
  quiet c → waiters_ok c → Forall node_event (concat before.*1 ++ pre ++ post ++ concat later.*1)%list →
  answer (u32 (trancounter c + 1)) r → not_started r →
  ∃ st c1 st' c', run (WaitForNodeStart n) c = (st, c1) ∧ finished st = false ∧
    turns [RCC.fresh c; RCC.fresh c + 1] st c1 (before ++ ((pre ++ r :: post)%list, w) :: later)%list = (Ok st', c') ∧
    match first_started n (concat before.*1 ++ pre ++ post ++ concat later.*1)%list with
    | Some k => st' = Finished (Ok k)
    | None => finished st' = false
    end.
Proof.
  intros Hq Hw He Ha Hr. set (id := u32 (trancounter c + 1)) in *. set (a := RCC.fresh c).
  unfold WaitForNodeStart. rewrite run_checked, run_with_waiter by done.
  set (c0 := with_new_waiter c). rewrite run_pbind, run_call by apply plain_obj.
  change (a + 1) with (RCC.fresh c0). set (b := RCC.fresh c0). set (c1 := called _ c0).
  match goal with |- context [leave ?f (bindp ?K (waiting b, c1))] =>
    set (k := K); set (st := protect_paused (end_waiter a) (Sleeping (λ w, catch (end_winfo b) (turn b w))
      (λ x, pbind (protect (end_winfo b) (ret x)) k)));
    change (leave f (bindp k (waiting b, c1))) with (st, c1) end.
  assert (listening a b id [] None c1) as Hl by by apply called_listens.
  pose proof He as He'. rewrite !Forall_app in He. destruct He as (Hbe & Hpre & Hpost & Hla).
  pose proof (u32_range (trancounter c + 1)) as Hid. fold id in Hid.
  destruct (turns_before [a; b] a b id st (((pre ++ r :: post)%list, w) :: later)) with (ms := before) (q := @nil V) (c := c1)
    as (c2 & E2 & H2); [done| |done|done|].
  { intros c' Hs Hb. unfold st. cbn [protect_paused resume]. unfold catch, turn, InternalCheckTerminated. mred.
    by rewrite Hs, Hb. }
  destruct (listen_events a b id None pre _ c2 H2 (events_of _ Hpre)) as (c3 & s3 & E3 & H3 & G3).
  destruct (listen_reply a b id _ c3 r H3 Ha Hid) as (c4 & E4 & H4 & G4).
  destruct (listen_events a b id (Some r) post _ c4 H4 (events_of _ Hpost)) as (c5 & s5 & E5 & H5 & G5).
  exists st, c1. rewrite E2. cbn [turns]. change (finished st) with false.
  assert (dispatch_all (pre ++ r :: post)%list c2 = (Ok tt, c5)) as ->.
  { rewrite dispatch_app, E3. cbn. unfold mbind, M_bind. by rewrite E4. }
  rewrite (woken_signals [a; b] c2 c5 _ b) by
    (first [by eapply signals_app; [exact G3|eapply signals_app; [exact G4|exact G5]] | set_solver]).
  cbn [orb].
  assert (resume st c5 = leave (end_waiter a) (bindp k (resume (waiting b) c5))) as ->
    by (unfold st; by rewrite resume_protect, resume_bind).
  rewrite resume_waiting by apply H5. rewrite (l_winfo _ _ _ _ _ _ H5). cbn [bindp]. unfold k.
  assert (hears a (concat before.*1 ++ pre ++ post)%list (end_winfo b c5)) as Hh.
  { destruct (l_hears _ _ _ _ _ _ H5) as [h1 h2 h3 h4]. rewrite <- !app_assoc in h2. by constructor. }
  assert (Forall node_event (concat before.*1 ++ pre ++ post)%list) as Hev by (by rewrite !Forall_app).
  pose proof (waits_on [a; b] a n (end_waiter a) _ _ later _ ltac:(by left) (run_wait_started a n _ _ Hh Hev) Hla) as Hgo.
  rewrite <- !app_assoc in Hgo.
  destruct Hgo as (st' & c' & E & Hm). exists st', c'. split; [done|]. split; [done|]. split; [|done]. rewrite <- E.
  match goal with |- context [leave _ ?x] => replace x with (run (wait_for a (found_key "nodeinfo" "started" n)) (end_winfo b c5)); [done|] end.
  symmetry. destruct Ha as (Ho & _).
  destruct Hr as [F1|(F1 & Fi & Fs)]; fields_of; rewrite F1; cbn [IsTrue]; fields_of; [done|].
  rewrite Fs. cbn [IsTrue]. done.
Qed.
End waits.

(** ** An event that comes before the reply *)
#[local] Existing Instance ld_integers.
#[local] Existing Instance ld_integers_laws.
Definition start_event : Variant Z :=
  obj [("msgtype", VString "broadcast"); ("numlivenodes", of_Z 1);
       ("nodeinfo", obj [("key", of_Z 2); ("name", VString "n"); ("started", VTrue)])].
Definition too_early : Variant Z :=
  obj [("msgid", of_Z 1); ("msgtype", VString "reply"); ("success", VFalse)].
Definition other_event : Variant Z :=
  obj [("msgtype", VString "broadcast"); ("numlivenodes", of_Z 1);
       ("nodeinfo", obj [("key", of_Z 3); ("name", VString "m"); ("started", VTrue)])].
Lemma no_start_is_missed_witness : ∃ st c1 st' c',
  run (WaitForNodeStart "n") (make (F := Z)) = (st, c1) ∧ finished st = false ∧
  turns [RCC.fresh (make (F := Z)); RCC.fresh (make (F := Z)) + 1] st c1
    ([([other_event], true)] ++ (([] ++ [too_early])%list, false) :: [([other_event], false); ([start_event], false)])%list
    = (Ok st', c') ∧ st' = Finished (Ok 2).
Proof.
  destruct (no_start_is_missed (make (F := Z)) "n" [([other_event], true)] [] too_early [] false
    [([other_event], false); ([start_event], false)]) as (st & c1 & st' & c' & E1 & E2 & E3 & E4).
  - repeat split.
  - split; [apply NoDup_nil_2|]. intros a Ha. by apply elem_of_nil in Ha.
  - repeat (constructor; [split; [repeat split|]; intros _; first [by exists "n", 2 | by exists "m", 3]|]). constructor.
  - repeat split.
  - by left.
  - exists st, c1, st', c'. split; [exact E1|]. split; [exact E2|]. split; [exact E3|]. vm_compute in E4. exact E4.
Defined.
End RWaits.
