(* ===== verification/RemoteQueue.v ===== *)
(** [libraries/CPN/RemoteQueue]: a queue whose two halves are joined by a
    socket, each a [ThresholdQueue] of its own.

    An operation runs under the lock of its half, in the state-and-fault monad
    over [rqueue].  What is written to the socket is appended to the member
    [out], packet by packet, for the other half to read: the packets cross the
    wire as [Packet] and [PacketEncoder] have it.  [EnqueuePacket] and
    [SendEnqueuePacket] let go of the lock while they move the bytes, and are in
    three pieces each, as is [InternalCheckStatus] around them; [RemoteStream]
    puts the pieces together.

    The queue itself is any that keeps the contract [RawQueue]. *)
From Stdlib Require Import SpecFloat.
From S2P Require Import Prelude.
From S2P Require Import QueueInterface.
From S2P Require Import ThresholdQueue.
From S2P Require Import QueueBase.
From S2P Require Import D4R.

Module RQ.
Import QB.

Inductive mode := READ | WRITE.
#[global] Instance mode_eq_dec : EqDecision mode.
Proof. solve_decision. Defined.

(** The packets of the protocol, with the fields of the header each type uses;
    the data of an enqueue packet is one row of bytes for every channel. *)
Inductive message :=
  | ENQUEUE (count : Z) (data : list (list Z))
  | DEQUEUE (count : Z)
  | READBLOCK (requested : Z)
  | WRITEBLOCK (requested : Z)
  | ENDOFWRITE
  | ENDOFREAD
  | GROW (queuesize maxthreshold : Z)
  | D4RTAG (tag : D4R.Tag)
  | ID_READER | ID_WRITER.
Record packet := mk_packet { ReadClock : Z; WriteClock : Z; body : message }.

(** [unsigned(((double)length)*alpha)]: a product of doubles, cut at the point. *)
Definition trunc (x : spec_float) : Z :=
  match x with
  | S754_finite false m e => Z.shiftl (Z.pos m) e
  | _ => 0
  end.
Definition scaled (length : Z) (alpha : spec_float) : Z :=
  u32 (trunc (SFmul 53 1024 (binary_normalize 53 1024 length 0 false) alpha)).

Definition QueueLength (length maxthresh : Z) (alpha : spec_float) (m : mode) : Z :=
  let writerlen := scaled length alpha in
  match m with
  | READ => Z.max (u32 (length - writerlen)) maxthresh
  | WRITE => Z.max writerlen maxthresh
  end.

Section remote_queue.
Context {Q P : Type} `{RawQueue Q P}.

(** The members; [base] has those of [QueueBase].  [nodetag] is the public tag
    of the node at this end, when one is attached; [mocktag] that of the mock
    node that stands for the one at the other end. *)
Record rqueue := mk {
  base : @qbase Q; md : mode; alpha : spec_float; maxwritethreshold : Z; useD4R : bool; clock :
  Z; readclock : Z; writeclock : Z; readerlength : Z; writerlength : Z; bytecount : Z;
  pendingAction : bool; pendingBlock : bool; sentEnd : bool; pendingGrow : bool; pendingD4RTag :
  bool; tagUpdated : bool; dead : bool; closed : bool; nodetag : option D4R.Tag; mocktag :
  D4R.Tag; readtagchanged : bool; writetagchanged : bool; out : list packet }.

Definition set_base x b := mk b (md x) (alpha x) (maxwritethreshold x) (useD4R x) (clock x)
  (readclock x) (writeclock x) (readerlength x) (writerlength x) (bytecount x) (pendingAction x)
  (pendingBlock x) (sentEnd x) (pendingGrow x) (pendingD4RTag x) (tagUpdated x) (dead x) (closed
  x) (nodetag x) (mocktag x) (readtagchanged x) (writetagchanged x) (out x).
Definition set_clocks x c r w := mk (base x) (md x) (alpha x) (maxwritethreshold x) (useD4R x) c
  r w (readerlength x) (writerlength x) (bytecount x) (pendingAction x) (pendingBlock x) (sentEnd
  x) (pendingGrow x) (pendingD4RTag x) (tagUpdated x) (dead x) (closed x) (nodetag x) (mocktag x)
  (readtagchanged x) (writetagchanged x) (out x).
Definition set_lengths x r w := mk (base x) (md x) (alpha x) (maxwritethreshold x) (useD4R x)
  (clock x) (readclock x) (writeclock x) r w (bytecount x) (pendingAction x) (pendingBlock x)
  (sentEnd x) (pendingGrow x) (pendingD4RTag x) (tagUpdated x) (dead x) (closed x) (nodetag x)
  (mocktag x) (readtagchanged x) (writetagchanged x) (out x).
Definition set_bytecount x n := mk (base x) (md x) (alpha x) (maxwritethreshold x) (useD4R x)
  (clock x) (readclock x) (writeclock x) (readerlength x) (writerlength x) n (pendingAction x)
  (pendingBlock x) (sentEnd x) (pendingGrow x) (pendingD4RTag x) (tagUpdated x) (dead x) (closed
  x) (nodetag x) (mocktag x) (readtagchanged x) (writetagchanged x) (out x).
Definition set_pendingAction x v := mk (base x) (md x) (alpha x) (maxwritethreshold x) (useD4R
  x) (clock x) (readclock x) (writeclock x) (readerlength x) (writerlength x) (bytecount x) v
  (pendingBlock x) (sentEnd x) (pendingGrow x) (pendingD4RTag x) (tagUpdated x) (dead x) (closed
  x) (nodetag x) (mocktag x) (readtagchanged x) (writetagchanged x) (out x).
Definition set_pendingBlock x v := mk (base x) (md x) (alpha x) (maxwritethreshold x) (useD4R x)
  (clock x) (readclock x) (writeclock x) (readerlength x) (writerlength x) (bytecount x)
  (pendingAction x) v (sentEnd x) (pendingGrow x) (pendingD4RTag x) (tagUpdated x) (dead x)
  (closed x) (nodetag x) (mocktag x) (readtagchanged x) (writetagchanged x) (out x).
Definition set_sentEnd x v := mk (base x) (md x) (alpha x) (maxwritethreshold x) (useD4R x)
  (clock x) (readclock x) (writeclock x) (readerlength x) (writerlength x) (bytecount x)
  (pendingAction x) (pendingBlock x) v (pendingGrow x) (pendingD4RTag x) (tagUpdated x) (dead x)
  (closed x) (nodetag x) (mocktag x) (readtagchanged x) (writetagchanged x) (out x).
Definition set_pendingGrow x v := mk (base x) (md x) (alpha x) (maxwritethreshold x) (useD4R x)
  (clock x) (readclock x) (writeclock x) (readerlength x) (writerlength x) (bytecount x)
  (pendingAction x) (pendingBlock x) (sentEnd x) v (pendingD4RTag x) (tagUpdated x) (dead x)
  (closed x) (nodetag x) (mocktag x) (readtagchanged x) (writetagchanged x) (out x).
Definition set_pendingD4RTag x v := mk (base x) (md x) (alpha x) (maxwritethreshold x) (useD4R
  x) (clock x) (readclock x) (writeclock x) (readerlength x) (writerlength x) (bytecount x)
  (pendingAction x) (pendingBlock x) (sentEnd x) (pendingGrow x) v (tagUpdated x) (dead x) (closed
  x) (nodetag x) (mocktag x) (readtagchanged x) (writetagchanged x) (out x).
Definition set_tagUpdated x v := mk (base x) (md x) (alpha x) (maxwritethreshold x) (useD4R x)
  (clock x) (readclock x) (writeclock x) (readerlength x) (writerlength x) (bytecount x)
  (pendingAction x) (pendingBlock x) (sentEnd x) (pendingGrow x) (pendingD4RTag x) v (dead x)
  (closed x) (nodetag x) (mocktag x) (readtagchanged x) (writetagchanged x) (out x).
Definition set_dead x v := mk (base x) (md x) (alpha x) (maxwritethreshold x) (useD4R x) (clock
  x) (readclock x) (writeclock x) (readerlength x) (writerlength x) (bytecount x) (pendingAction
  x) (pendingBlock x) (sentEnd x) (pendingGrow x) (pendingD4RTag x) (tagUpdated x) v (closed x)
  (nodetag x) (mocktag x) (readtagchanged x) (writetagchanged x) (out x).
Definition set_closed x v := mk (base x) (md x) (alpha x) (maxwritethreshold x) (useD4R x)
  (clock x) (readclock x) (writeclock x) (readerlength x) (writerlength x) (bytecount x)
  (pendingAction x) (pendingBlock x) (sentEnd x) (pendingGrow x) (pendingD4RTag x) (tagUpdated x)
  (dead x) v (nodetag x) (mocktag x) (readtagchanged x) (writetagchanged x) (out x).
Definition set_nodetag x t := mk (base x) (md x) (alpha x) (maxwritethreshold x) (useD4R x)
  (clock x) (readclock x) (writeclock x) (readerlength x) (writerlength x) (bytecount x)
  (pendingAction x) (pendingBlock x) (sentEnd x) (pendingGrow x) (pendingD4RTag x) (tagUpdated x)
  (dead x) (closed x) t (mocktag x) (readtagchanged x) (writetagchanged x) (out x).
Definition set_mocktag x t := mk (base x) (md x) (alpha x) (maxwritethreshold x) (useD4R x)
  (clock x) (readclock x) (writeclock x) (readerlength x) (writerlength x) (bytecount x)
  (pendingAction x) (pendingBlock x) (sentEnd x) (pendingGrow x) (pendingD4RTag x) (tagUpdated x)
  (dead x) (closed x) (nodetag x) t (readtagchanged x) (writetagchanged x) (out x).
Definition set_tagchanged x r w := mk (base x) (md x) (alpha x) (maxwritethreshold x) (useD4R x)
  (clock x) (readclock x) (writeclock x) (readerlength x) (writerlength x) (bytecount x)
  (pendingAction x) (pendingBlock x) (sentEnd x) (pendingGrow x) (pendingD4RTag x) (tagUpdated x)
  (dead x) (closed x) (nodetag x) (mocktag x) r w (out x).
Definition set_out x o := mk (base x) (md x) (alpha x) (maxwritethreshold x) (useD4R x) (clock
  x) (readclock x) (writeclock x) (readerlength x) (writerlength x) (bytecount x) (pendingAction
  x) (pendingBlock x) (sentEnd x) (pendingGrow x) (pendingD4RTag x) (tagUpdated x) (dead x)
  (closed x) (nodetag x) (mocktag x) (readtagchanged x) (writetagchanged x) o.

(** The constructor, once the socket is connected.  [q] is the queue that
    [ThresholdQueue] has made for the length [QueueLength length maxthresh alpha m]. *)
Definition make (m : mode) (q : Q) (rkey wkey length maxthresh : Z) (a : spec_float)
    (maxwrite : Z) (d4r term grow : bool) (peer : D4R.Tag) (node : option D4R.Tag) : rqueue :=
  mk (QB.make q rkey wkey term grow) m a maxwrite d4r 0 0 0
    (QueueLength length maxthresh a READ) (QueueLength length maxthresh a WRITE) 0
    false false false false false false false false node peer false false [].

Definition Op := M rqueue.
Definition queue (r : rqueue) : Q := que (base r).

(** An operation of the base class that calls no function overridden here. *)
Definition on_base {A} (m : QB.Op A) : Op A :=
  λ r, let '(o, b) := m (base r) in (o, set_base r b).
Definition upd (f : @qbase Q → @qbase Q) : Op unit := mmodify (λ r, set_base r (f (base r))).

(** [NotifyData] and [NotifyFreespace] broadcast without a [Signal]. *)
Definition Signal : Op unit :=
  mmodify (λ r, set_pendingAction r true) ;; on_base QB.Signal.
Definition UnlockedShutdown : Op unit := mmodify (λ r, set_dead r true) ;; Signal.
Definition UnlockedShutdownReader : Op unit :=
  upd (λ s, set_shutdown s true (writeshutdown s)) ;; Signal.
Definition UnlockedShutdownWriter : Op unit :=
  upd (λ s, set_shutdown s (readshutdown s) true) ;; Signal.

Definition queue_Count : Op Z := r ← mget; mlift (rq_Count (queue r)).
Definition queue_Freespace : Op Z := r ← mget; mlift (rq_Freespace (queue r)).
Definition queue_Empty : Op bool := c ← queue_Count; mret (c =? 0).

Definition UnlockedCount : Op Z :=
  r ← mget; c ← queue_Count;
  mret (match md r with READ => c | WRITE => u32 (c + bytecount r) end).
Definition UnlockedEmpty : Op bool :=
  r ← mget; e ← queue_Empty;
  mret (match md r with READ => e | WRITE => e && (bytecount r =? 0) end).
Definition UnlockedQueueLength (r : rqueue) : Z := u32 (readerlength r + writerlength r).

(** [ThresholdQueue::UnlockedGrow] *)
Definition TQ_UnlockedGrow (queueLen maxThresh : Z) : Op unit :=
  on_base (QB.UnlockedGrow queueLen maxThresh).

Definition set_queue_lengths (queueLen maxthresh : Z) : Op unit :=
  mmodify (λ r, set_lengths r (QueueLength queueLen maxthresh (alpha r) READ)
                              (QueueLength queueLen maxthresh (alpha r) WRITE)) ;;
  r ← mget;
  TQ_UnlockedGrow (match md r with WRITE => writerlength r | READ => readerlength r end) maxthresh.

(** [UnlockedGrow] from its loop on: true when the thread waits in it. *)
Definition grow_loop (queueLen maxThresh : Z) : Op bool :=
  r ← mget;
  if pendingGrow r && negb (dead r) then Signal ;; mret true else
  set_queue_lengths queueLen (Z.max (rq_MaxThreshold (queue r)) maxThresh) ;;
  mmodify (λ r, set_pendingGrow r true) ;;
  Signal ;; mret false.
Definition UnlockedGrow (queueLen maxThresh : Z) : Op bool :=
  r ← mget;
  if (queueLen <=? UnlockedQueueLength r) && (maxThresh <=? rq_MaxThreshold (queue r))
  then mret false else grow_loop queueLen maxThresh.

(** [QueueBase::ReadBlocked] and [NotifyData], which count with the overrider. *)
Definition ReadBlocked : Op bool :=
  on_base CheckTerminated ;; r ← mget; c ← UnlockedCount;
  mret ((c <? readrequest (base r)) && negb (readshutdown (base r) || writeshutdown (base r))).
Definition WriteBlocked : Op bool := on_base QB.WriteBlocked.
Definition NotifyData : Op unit :=
  r ← mget; c ← UnlockedCount;
  if readrequest (base r) <=? c then on_base QB.Signal else mret tt.
Definition NotifyFreespace : Op unit := on_base QB.NotifyFreespace.

Definition InternalDequeue (count : Z) : Op unit :=
  r ← mget; massert (bool_decide (md r = READ)) ;;
  q ← mlift (rq_Dequeue (queue r) count); upd (λ s, set_que s q) ;; Signal.
Definition InternalEnqueue (count : Z) : Op unit :=
  r ← mget; massert (bool_decide (md r = WRITE)) ;;
  q ← mlift (rq_Enqueue (queue r) count); upd (λ s, set_que s q) ;; Signal.

(** [Dequeue] and [Enqueue] of the base class with these. *)
Definition Dequeue (count : Z) : Op unit :=
  upd (λ s, set_deq s 0 false) ;;
  r ← mget;
  if readshutdown (base r) then mthrow (BrokenQueue (readerkey (base r))) else
  InternalDequeue count ;; NotifyFreespace.
Definition Enqueue (count : Z) : Op unit :=
  upd (λ s, set_enq s 0 false) ;;
  r ← mget;
  if writeshutdown (base r) then mthrow (BrokenQueue (writerkey (base r))) else
  InternalEnqueue count ;; NotifyData.

Definition UnlockedSignalReaderTagChanged : Op unit :=
  r ← mget; massert (bool_decide (md r = READ)) ;;
  mmodify (λ r, set_pendingD4RTag r true) ;;
  mmodify (λ r, set_tagchanged r true (writetagchanged r)) ;; Signal.
Definition UnlockedSignalWriterTagChanged : Op unit :=
  r ← mget; massert (bool_decide (md r = WRITE)) ;;
  mmodify (λ r, set_pendingD4RTag r true) ;;
  mmodify (λ r, set_tagchanged r (readtagchanged r) true) ;; Signal.

(** ** Waiting

    [wait_enter] is [WaitForData] and [WaitForFreespace] before their loop; it
    gives [saveclock].  A test of the loop has the thread wait for the answer
    of the other half, or go on in [ThresholdQueue]'s function, or return. *)
Inductive turn :=
  | Again
  | InGrow (queueLen maxThresh : Z)    (** in the loop of [UnlockedGrow] *)
  | InWait (saveclock : Z)             (** in the loop of [WaitForData] *)
  | InBase                             (** in [ThresholdQueue::WaitForData] *)
  | Returned (p : option P).

Definition wait_enter (m : mode) : Op Z :=
  r ← mget; massert (bool_decide (md r = m)) ;;
  mmodify (λ r, set_tagUpdated (set_pendingBlock r true) false) ;;
  Signal ;; mret (u64 (clock r + 1)).
Definition WaitForData (saveclock : Z) : Op turn :=
  b ← ReadBlocked; r ← mget;
  if b && (negb (tagUpdated r) || (readclock r <? saveclock)) then mret (InWait saveclock) else
  b ← ReadBlocked;
  if (b : bool) && tagUpdated r then mret InBase
  else upd (λ s, set_readrequest s 0) ;; mret Again.
Definition WaitForFreespace (saveclock : Z) : Op turn :=
  b ← WriteBlocked; r ← mget;
  if b && (negb (tagUpdated r) || (writeclock r <? saveclock)) then mret (InWait saveclock) else
  b ← WriteBlocked;
  if (b : bool) && tagUpdated r then mret InBase
  else upd (λ s, set_writerequest s 0) ;; mret Again.

(** A turn of the loops of [GetRawDequeuePtr] and [GetRawEnqueuePtr]. *)
Definition grow_turn (queueLen maxThresh : Z) : Op turn :=
  w ← UnlockedGrow queueLen maxThresh;
  if (w : bool) then mret (InGrow queueLen maxThresh) else Signal ;; mret Again.
Definition deq_turn (thresh chan : Z) : Op turn :=
  r ← mget; let s := base r in
  ptr ← mlift (rq_GetRawDequeuePtr (indequeue s) (que s) thresh chan);
  if bool_decide (is_Some ptr) || writeshutdown s then
    (if bool_decide (is_Some ptr) then upd (λ s, set_deq s (dequeuethresh s) true) else mret tt) ;;
    mret (Returned ptr)
  else if readshutdown s then mthrow (BrokenQueue (readerkey s))
  else if (rq_MaxThreshold (que s) <? thresh) && growable s then
    grow_turn (u32 (2 * thresh)) thresh
  else
    wb ← WriteBlocked;
    if (wb : bool) && growable s then grow_turn (u32 (writerequest s + thresh)) thresh
    else
      upd (λ s, set_readrequest s thresh) ;;
      c ← wait_enter READ; WaitForData c.
Definition enq_turn (thresh chan : Z) (grown : bool) : Op (turn * bool) :=
  r ← mget; let s := base r in
  ptr ← mlift (rq_GetRawEnqueuePtr (inenqueue s) (que s) thresh chan);
  if bool_decide (is_Some ptr) then
    upd (λ s, set_enq s (enqueuethresh s) true) ;; mret (Returned ptr, grown)
  else if readshutdown s || writeshutdown s then mthrow (BrokenQueue (writerkey s))
  else if (rq_MaxThreshold (que s) <? thresh) && growable s then
    t ← grow_turn (u32 (2 * thresh)) thresh; mret (t, grown)
  else
    rb ← (if grown then mret false else ReadBlocked);
    if (rb : bool) && growable s then
      t ← grow_turn (u32 (readrequest s + thresh)) thresh; mret (t, true)
    else
      upd (λ s, set_writerequest s thresh) ;;
      c ← wait_enter WRITE; t ← WaitForFreespace c; mret (t, grown).

(** At most [fuel] turns of [GetRawDequeuePtr]. *)
Fixpoint deq_loop (fuel : nat) (thresh chan : Z) : Op turn :=
  match fuel with
  | O => mret Again
  | S k => t ← deq_turn thresh chan;
           match t with Again => deq_loop k thresh chan | _ => mret t end
  end.

(** ** Clocks and packets *)
Definition UpdateClock (p : packet) : Op unit :=
  mmodify (λ r, set_clocks r
    (u64 (match md r with
          | READ => Z.max (WriteClock p) (clock r)
          | WRITE => Z.max (ReadClock p) (clock r)
          end + 1)) (ReadClock p) (WriteClock p)).
Definition TickClock : Op unit :=
  mmodify (λ r, set_clocks r (u64 (clock r + 1)) (readclock r) (writeclock r)).

Definition SetupPacket (m : message) : Op packet :=
  TickClock ;; r ← mget;
  mret (match md r with
        | READ => mk_packet (clock r) (writeclock r) m
        | WRITE => mk_packet (readclock r) (clock r) m
        end).
Definition write_packet (p : packet) : Op unit := mmodify (λ r, set_out r (out r ++ [p])).
(** [SetupPacket] and [PacketEncoder::SendPacket] *)
Definition SendPacket (m : message) : Op unit := p ← SetupPacket m; write_packet p.

Definition SendDequeuePacket : Op unit :=
  r ← mget; c ← queue_Count;
  let count := u32 (bytecount r - c) in
  SendPacket (DEQUEUE count) ;;
  mmodify (λ r, set_bytecount r (u32 (bytecount r - count))).
Definition SendReadBlockPacket : Op unit :=
  r ← mget; SendPacket (READBLOCK (readrequest (base r))).
Definition SendWriteBlockPacket : Op unit :=
  r ← mget; SendPacket (WRITEBLOCK (writerequest (base r))).
Definition SendEndOfWritePacket : Op unit :=
  r ← mget; massert (negb (sentEnd r)) ;; SendPacket ENDOFWRITE.
Definition SendEndOfReadPacket : Op unit :=
  r ← mget; massert (negb (sentEnd r)) ;; SendPacket ENDOFREAD.
Definition SendGrowPacket : Op unit :=
  r ← mget; SendPacket (GROW (UnlockedQueueLength r) (rq_MaxThreshold (queue r))).
Definition SendD4RTagPacket (tag : D4R.Tag) : Op unit := SendPacket (D4RTAG tag).

Definition DequeuePacket (count : Z) : Op unit :=
  r ← mget;
  massert (bool_decide (md r = WRITE)) ;; massert (negb (readshutdown (base r))) ;;
  upd (λ s, set_readrequest s 0) ;;
  mmodify (λ r, set_bytecount r (u32 (bytecount r - count))).
Definition ReadBlockPacket (requested : Z) : Op unit :=
  r ← mget;
  massert (bool_decide (md r = WRITE)) ;; massert (negb (readshutdown (base r))) ;;
  upd (λ s, set_readrequest s requested) ;;
  c ← queue_Count;
  if (u32 (c + bytecount r) <? requested) && useD4R r
  then mmodify (λ r, set_pendingD4RTag r true) else mret tt.
Definition WriteBlockPacket (requested : Z) : Op unit :=
  r ← mget;
  massert (bool_decide (md r = READ)) ;; massert (negb (writeshutdown (base r))) ;;
  upd (λ s, set_writerequest s requested) ;;
  c ← queue_Count;
  if ((u32 (readerlength r - c) <? requested) || (readerlength r <? c)) && useD4R r
  then mmodify (λ r, set_pendingD4RTag r true) else mret tt.
Definition EndOfWritePacket : Op unit :=
  r ← mget;
  massert (bool_decide (md r = READ)) ;; massert (negb (writeshutdown (base r))) ;;
  UnlockedShutdownWriter.
Definition EndOfReadPacket : Op unit :=
  r ← mget;
  massert (bool_decide (md r = WRITE)) ;; massert (negb (readshutdown (base r))) ;;
  UnlockedShutdownReader.
Definition GrowPacket (queueLen maxThresh : Z) : Op unit :=
  r ← mget; set_queue_lengths queueLen (Z.max (rq_MaxThreshold (queue r)) maxThresh).
Definition D4RTagPacket (tag : D4R.Tag) : Op unit :=
  mmodify (λ r, set_tagUpdated r true) ;; Signal ;;
  mmodify (λ r, set_mocktag r tag) ;;
  mmodify (λ r, match md r with
                | WRITE => set_tagchanged r true (writetagchanged r)
                | READ => set_tagchanged r (readtagchanged r) true
                end) ;; Signal.

(** The handler of every packet but an enqueue packet. *)
Definition fire (p : packet) : Op unit :=
  match body p with
  | ENQUEUE _ _ => mret tt
  | DEQUEUE n => UpdateClock p ;; DequeuePacket n
  | READBLOCK n => UpdateClock p ;; ReadBlockPacket n
  | WRITEBLOCK n => UpdateClock p ;; WriteBlockPacket n
  | ENDOFWRITE => UpdateClock p ;; EndOfWritePacket
  | ENDOFREAD => UpdateClock p ;; EndOfReadPacket
  | GROW l t => UpdateClock p ;; GrowPacket l t
  | D4RTAG t => UpdateClock p ;; D4RTagPacket t
  | ID_READER | ID_WRITER => mthrow AssertFailed
  end.

(** Takes a pointer for each channel from [c] on. *)
Fixpoint pointers (get : Z → res (option P)) (n : nat) (c : Z) : res (list P) :=
  match n with
  | O => Ok []
  | S k => p ← get c;
           match p with
           | None => Err AssertFailed
           | Some p => ps ← pointers get k (c + 1); Ok (p :: ps)
           end
  end.

(** [EnqueuePacket] up to where it lets go of the lock; what it reads from the
    socket without it; and the rest. *)
Definition EnqueuePacket_begin (p : packet) (count : Z) : Op (list P) :=
  UpdateClock p ;;
  r ← mget;
  massert (bool_decide (md r = READ)) ;; massert (negb (writeshutdown (base r))) ;;
  let numchannels := rq_NumChannels (queue r) in
  f ← queue_Freespace; c ← queue_Count;
  (if (f <? count) || (rq_MaxThreshold (queue r) <? count)
   then TQ_UnlockedGrow (u32 (c + count)) count else mret tt) ;;
  r ← mget;
  ps ← mlift (pointers (rq_GetRawEnqueuePtr (inenqueue (base r)) (queue r) count)
                (Z.to_nat numchannels) 0);
  upd (λ s, set_enq s (enqueuethresh s) true) ;;
  mret ps.
Fixpoint store_rows (q : Q) (ps : list P) (data : list (list Z)) : res Q :=
  match ps, data with
  | p :: ps, d :: data => q ← ptr_store q p d; store_rows q ps data
  | _, _ => Ok q
  end.
Definition EnqueuePacket_read (ps : list P) (data : list (list Z)) : Op unit :=
  r ← mget; q ← mlift (store_rows (queue r) ps data); upd (λ s, set_que s q).
Definition EnqueuePacket_end (count : Z) : Op unit :=
  upd (λ s, set_enq s (enqueuethresh s) false) ;;
  r ← mget; q ← mlift (rq_Enqueue (queue r) count); upd (λ s, set_que s q) ;;
  mmodify (λ r, set_bytecount r (u32 (bytecount r + count))) ;;
  upd (λ s, set_writerequest s 0) ;;
  NotifyData.

(** [SendEnqueuePacket] in the same three pieces: how much it sends, *)
Definition send_count (r : rqueue) (count : Z) : Z :=
  let maxthresh := rq_MaxThreshold (queue r) in
  let expectedfree := u32 (Z.max (readerlength r) maxthresh - bytecount r) in
  let maxwrite := maxwritethreshold r / rq_NumChannels (queue r) in
  let maxwrite := if maxwrite =? 0 then 1 else maxwrite in
  let count := if (0 <? maxwritethreshold r) && (maxwrite <? count) then maxwrite else count in
  let count := if maxthresh <? count then maxthresh else count in
  if expectedfree <? count then expectedfree else count.
(** the pointers, with which [None] means that there is nothing to send, *)
Definition SendEnqueuePacket_begin : Op (option (Z * packet * list P)) :=
  r ← mget; c ← queue_Count;
  let count := send_count r c in
  if count =? 0 then mret None else
  p ← SetupPacket (ENQUEUE count []);
  r ← mget;
  ps ← mlift (pointers (rq_GetRawDequeuePtr (indequeue (base r)) (queue r) count)
                (Z.to_nat (rq_NumChannels (queue r))) 0);
  upd (λ s, set_deq s (dequeuethresh s) true) ;;
  mret (Some (count, p, ps)).
(** [WriteBytes] on the header and the rows, *)
Fixpoint load_rows (q : Q) (ps : list P) (count : Z) : res (list (list Z)) :=
  match ps with
  | [] => Ok []
  | p :: ps => d ← ptr_load q p count; ds ← load_rows q ps count; Ok (d :: ds)
  end.
Definition SendEnqueuePacket_write (count : Z) (p : packet) (ps : list P) : Op unit :=
  r ← mget; data ← mlift (load_rows (queue r) ps count);
  write_packet (mk_packet (ReadClock p) (WriteClock p) (ENQUEUE count data)).
(** and the rest. *)
Definition SendEnqueuePacket_end (count : Z) : Op unit :=
  upd (λ s, set_deq s (dequeuethresh s) false) ;;
  r ← mget; q ← mlift (rq_Dequeue (queue r) count); upd (λ s, set_que s q) ;;
  mmodify (λ r, set_bytecount r (u32 (bytecount r + count))) ;;
  NotifyFreespace.

(** ** [InternalCheckStatus]

    What it does before [Read]: false when it returns there.  [eof] is
    [sock.Eof()]. *)
Definition check_begin (eof : bool) : Op bool :=
  r ← mget;
  if closed r then mret false else
  if eof && negb (readshutdown (base r) || writeshutdown (base r)) then
    if terminated (base r) then
      mmodify (λ r, set_closed r true) ;; UnlockedShutdown ;; mret false
    else mthrow AssertFailed
  else mret true.
Definition check_grow : Op unit :=
  r ← mget;
  if pendingGrow r && negb (sentEnd r)
  then SendGrowPacket ;; mmodify (λ r, set_pendingGrow r false) else mret tt.
(** The condition of the loop that writes. *)
Definition check_more : Op bool :=
  r ← mget; e ← queue_Empty;
  mret (negb e && (bytecount r <? readerlength r) && negb (dead r)).
Definition close_socket : Op unit :=
  mmodify (λ r, set_closed r true) ;; mmodify (λ r, set_dead r true).
Definition check_tag (shut : bool) : Op unit :=
  r ← mget;
  match pendingD4RTag r, nodetag r, shut with
  | true, Some t, false => SendD4RTagPacket t ;; mmodify (λ r, set_pendingD4RTag r false)
  | _, _, _ => mret tt
  end.
(** After that loop, in the branch where nothing was sent after the end, *)
Definition check_write_block : Op unit :=
  r ← mget; f ← queue_Freespace;
  (if pendingBlock r then
     (if f <? writerequest (base r) then SendWriteBlockPacket else mret tt) ;;
     mmodify (λ r, set_pendingBlock r false)
   else mret tt) ;;
  r ← mget; check_tag (writeshutdown (base r)).
(** and at the end, of the writer's half *)
Definition check_write_end (term : bool) : Op unit :=
  r ← mget; e ← queue_Empty;
  (if writeshutdown (base r) && (negb (sentEnd r) && (e || term))
   then SendEndOfWritePacket ;; mmodify (λ r, set_sentEnd r true) else mret tt) ;;
  r ← mget;
  if readshutdown (base r) then
    (if negb (sentEnd r) then SendEndOfWritePacket ;; mmodify (λ r, set_sentEnd r true)
     else mret tt) ;;
    close_socket
  else mret tt.
(** and of the reader's: what it may send before the end, *)
Definition check_read_open (term : bool) : Op unit :=
  (if term then UnlockedShutdownReader else mret tt) ;;
  r ← mget; c ← queue_Count;
  (if c <? bytecount r then SendDequeuePacket else mret tt) ;;
  (if pendingBlock r then
     (if c <? readrequest (base r) then SendReadBlockPacket else mret tt) ;;
     mmodify (λ r, set_pendingBlock r false)
   else mret tt) ;;
  r ← mget; check_tag (readshutdown (base r)) ;;
  r ← mget;
  if readshutdown (base r)
  then SendEndOfReadPacket ;; mmodify (λ r, set_sentEnd r true) else mret tt.
Definition check_read (term : bool) : Op unit :=
  r ← mget;
  (if negb (sentEnd r) then check_read_open term else mret tt) ;;
  r ← mget;
  if writeshutdown (base r) then
    (if negb (sentEnd r) then SendEndOfReadPacket ;; mmodify (λ r, set_sentEnd r true)
     else mret tt) ;;
    close_socket
  else mret tt.

End remote_queue.

(** A grow packet carries the sum of the lengths of the halves, which the half
    that reads it divides anew: the share of the reader's half need not come out
    the same on both sides, when the maximum threshold was the larger part of
    one.  Here [alpha] is a quarter. *)
Lemma grow_packet_splits_differently :
  let quarter := S754_finite false 4503599627370496 (-54) in
  let r := QueueLength 10 5 quarter READ in
  let w := QueueLength 10 5 quarter WRITE in
  r = 8 ∧ w = 5 ∧ QueueLength (r + w) 5 quarter READ = 10.
Proof. by vm_compute. Qed.

End RQ.
