(* ===== verification/RemoteHalf.v ===== *)
(** One half of a [RemoteQueue] at work: its node, which calls the queue, and its
    action thread, which runs [InternalCheckStatus].

    [own_step] and [read_step] are the stretches of the action thread from one
    release of the lock, or one packet, to the next, and [node_step] the calls of
    the node.  [lok] is what holds of a half at every release of its lock; each
    step keeps it, and has a summary ([sends], [takes], [moves]) of what the
    other half can see of it: the messages sent, the bytes counted and the bytes
    held. *)
From Stdlib Require Import SpecFloat.
From S2P Require Import Prelude.
From S2P Require Import QueueInterface.
From S2P Require Import ThresholdQueue.
From S2P Require Import QueueBase.
From S2P Require Import D4R.
From S2P Require Import RemoteQueue.

Module RH.
Import QB RQ.

Section half_queue.
Context {Q P : Type} `{RawQueue Q P}.
Notation rqueue := (@rqueue Q).
Notation Op := (@Op Q).

(** Where an action thread is.  [term] is the local variable [terminated]. *)
Inductive pc :=
  | Start                                    (** before it first takes the lock *)
  | Top                                      (** about to check *)
  | Wait                                     (** in [while (!pendingAction && !dead)] *)
  | Reading (term : bool)                    (** in the loop of [Read] *)
  | Looping (term : bool)                    (** in the loop that sends the data *)
  | Sending (term : bool) (count : Z) (p : packet) (ps : list P)
  | Sent (term : bool) (count : Z)           (** written, without the lock yet *)
  | Receiving (term : bool) (count : Z) (ps : list P) (data : list (list Z))
  | Received (term : bool) (count : Z) (data : list (list Z))
  | Done
  | Fault (e : fault).

Definition unlocked (p : pc) : bool :=
  match p with Top | Reading _ | Looping _ => false | _ => true end.

(** What follows [Read] in [InternalCheckStatus], as far as the loop, *)
Definition after_read (term : bool) : Op pc :=
  check_grow ;;
  r ← mget;
  match md r with
  | WRITE =>
      if negb (sentEnd r) then
        (if term then UnlockedShutdownWriter else mret tt) ;; mret (Looping term)
      else check_write_end term ;; mret Wait
  | READ => check_read term ;; mret Wait
  end.
(** and a turn of the loop with, after its last, the rest. *)
Definition loop_step (term : bool) : Op pc :=
  more ← check_more;
  if (more : bool) then
    o ← SendEnqueuePacket_begin;
    mret (match o with
          | Some (count, p, ps) => Sending term count p ps
          | None => Looping term
          end)
  else
    r ← mget;
    if dead r then mret Wait
    else check_write_block ;; check_write_end term ;; mret Wait.
(** The loop of [ActionThreadEntryPoint] at its wait. *)
Definition wait_step : Op pc :=
  r ← mget;
  if pendingAction r || dead r then
    mmodify (λ r, set_pendingAction r false) ;; mret (if dead r then Done else Top)
  else mret Wait.

Definition own_step (eof : bool) (p : pc) : Op pc :=
  match p with
  | Start => r ← mget; mret (if dead r then Done else Top)
  | Top => go ← check_begin eof; r ← mget;
           mret (if (go : bool) then Reading (terminated (base r)) else Wait)
  | Wait => wait_step
  | Reading term => after_read term
  | Looping term => loop_step term
  | Sending term n p ps => SendEnqueuePacket_write n p ps ;; mret (Sent term n)
  | Sent term n => SendEnqueuePacket_end n ;; mret (Looping term)
  | Receiving term n ps data => EnqueuePacket_read ps data ;; mret (Received term n data)
  | Received term n data => EnqueuePacket_end n ;; mret (Reading term)
  | Done => mret Done
  | Fault e => mret (Fault e)
  end.
(** The packet [p] is read from the socket. *)
Definition read_step (term : bool) (p : packet) : Op pc :=
  match body p with
  | ENQUEUE n data => ps ← EnqueuePacket_begin p n; mret (Receiving term n ps data)
  | _ => fire p ;; mret (Reading term)
  end.

Record half := mk_half { rq : rqueue; apc : pc }.
Definition run (o : Op pc) (r : rqueue) : half :=
  match o r with
  | (Ok p, r') => mk_half r' p
  | (Err e, r') => mk_half r' (Fault e)
  end.
(** What a call by a node leaves; an exception goes to the node. *)
Definition call {A} (o : Op A) (h : half) : half := mk_half (o (rq h)).2 (apc h).

Definition peer (m : mode) : mode := match m with WRITE => READ | READ => WRITE end.

Definition msgs (r : rqueue) : list message := body <$> out r.

Context `{!RawQueueLaws Q P}.

(** The memory that a growth asks for can be had. *)
Definition length_for (r : rqueue) (l t : Z) : Z := QueueLength l t (alpha r) (md r).
Definition can_grow_to (r : rqueue) (l t : Z) : Prop :=
  let t' := Z.max (rq_MaxThreshold (queue r)) t in
  q_can_grow (queue r) (length_for r l t') t'.
Definition fits (r : rqueue) (m : message) : Prop :=
  match m with
  | GROW l t => can_grow_to r l t
  | ENQUEUE n _ =>
      rq_QueueLength (queue r) - q_count (queue r) < n ∨ rq_MaxThreshold (queue r) < n →
      q_can_grow (queue r) (u32 (q_count (queue r) + n)) n
  | _ => True
  end.

(** The growths of a turn of [GetRawDequeuePtr] and [GetRawEnqueuePtr]. *)
Definition turn_fits (r : rqueue) (t request : Z) : Prop :=
  can_grow_to r (u32 (2 * t)) t ∧ can_grow_to r (u32 (request + t)) t.

(** The calls of a node, and of the threads that do not touch the queue
    itself; those of a node are the threads' own in [QB.step]. *)
Inductive node_step : mode → half → half → (Z → list Z) → Prop :=
  | N_shutdown_writer h : node_step WRITE h (call UnlockedShutdownWriter h) (λ _, [])
  | N_shutdown_reader h : node_step READ h (call UnlockedShutdownReader h) (λ _, [])
  | N_writer_tag h : node_step WRITE h (call UnlockedSignalWriterTagChanged h) (λ _, [])
  | N_reader_tag h : node_step READ h (call UnlockedSignalReaderTagChanged h) (λ _, [])
  | N_set_node m h t : node_step m h (call (mmodify (λ r, set_nodetag r t) ;; Signal) h) (λ _, [])
  | N_wait_writer h c : node_step WRITE h (call (WaitForFreespace c) h) (λ _, [])
  | N_wait_reader h c : node_step READ h (call (WaitForData c) h) (λ _, [])
  | N_base_writer h : node_step WRITE h (call (on_base QB.WaitForFreespace) h) (λ _, [])
  | N_base_reader h : node_step READ h (call (on_base QB.WaitForData) h) (λ _, [])
  | N_flags m h b c : node_step m h (call (mmodify (λ r, set_tagchanged r b c)) h) (λ _, [])
  | N_start_writer h t : 1 ≤ t → node_step WRITE h (call (on_base (enq_start t)) h) (λ _, [])
  | N_start_reader h t : 1 ≤ t → node_step READ h (call (on_base (deq_start t)) h) (λ _, [])
  | N_turn_writer h t c g : enq_ready (base (rq h)) t c →
      (inenqueue (base (rq h)) = false → enqueuethresh (base (rq h)) = t) →
      turn_fits (rq h) t (readrequest (base (rq h))) →
      node_step WRITE h (call (enq_turn t c g) h) (λ _, [])
  | N_turn_reader h t c : deq_ready (base (rq h)) t c →
      (indequeue (base (rq h)) = false → dequeuethresh (base (rq h)) = t) →
      turn_fits (rq h) t (writerequest (base (rq h))) →
      node_step READ h (call (deq_turn t c) h) (λ _, [])
  | N_grow m h l t : inenqueue (base (rq h)) && indequeue (base (rq h)) = false →
      can_grow_to (rq h) l t →
      node_step m h (call (UnlockedGrow l t) h) (λ _, [])
  | N_grow_again m h l t : inenqueue (base (rq h)) && indequeue (base (rq h)) = false →
      can_grow_to (rq h) l t →
      node_step m h (call (grow_loop l t) h) (λ _, [])
  | N_store h c p d q : inenqueue (base (rq h)) = true →
      0 ≤ c < rq_NumChannels (queue (rq h)) → q_wview (queue (rq h)) c p →
      len d ≤ enqueuethresh (base (rq h)) → ptr_store (queue (rq h)) p d = Ok q →
      node_step WRITE h (call (upd (λ s, set_que s q)) h) (λ _, [])
  | N_enqueue h n : inenqueue (base (rq h)) = true → writeshutdown (base (rq h)) = false →
      0 ≤ n ≤ enqueuethresh (base (rq h)) →
      node_step WRITE h (call (Enqueue n) h)
        (λ c, take (Z.to_nat n) (q_pending (queue (rq h)) c))
  | N_dequeue h n : indequeue (base (rq h)) = true → readshutdown (base (rq h)) = false →
      0 ≤ n ≤ dequeuethresh (base (rq h)) →
      node_step READ h (call (Dequeue n) h)
        (λ c, take (Z.to_nat n) (q_bytes (queue (rq h)) c))
  (* the file thread, that polls the socket and sees the kernel terminate *)
  | F_poll m h : node_step m h (call Signal h) (λ _, [])
  | F_shutdown m h : terminated (base (rq h)) = true →
      node_step m h (call UnlockedShutdown h) (λ _, []).

(** ** What the messages carry *)
Definition amount (m : message) : Z := match m with ENQUEUE n _ | DEQUEUE n => n | _ => 0 end.
Fixpoint amounts (l : list message) : Z :=
  match l with [] => 0 | m :: l => amount m + amounts l end.
Definition row (c : Z) (m : message) : list Z :=
  match m with ENQUEUE _ d => d !!! Z.to_nat c | _ => [] end.
Definition rows (l : list message) (c : Z) : list Z := l ≫= row c.
Definition end_of (m : mode) : message := match m with WRITE => ENDOFWRITE | READ => ENDOFREAD end.
Definition is_grow (m : message) : Prop := match m with GROW _ _ => True | _ => False end.

(** The control messages of each half, and all its messages; [chans] is the
    number of channels. *)
Definition control (m : mode) (x : message) : Prop :=
  match m, x with
  | WRITE, (WRITEBLOCK _ | ENDOFWRITE | GROW _ _ | D4RTAG _) => True
  | READ, DEQUEUE n => 0 ≤ n
  | READ, (READBLOCK _ | ENDOFREAD | GROW _ _ | D4RTAG _) => True
  | _, _ => False
  end.
Definition from (m : mode) (chans : Z) (x : message) : Prop :=
  match m, x with
  | WRITE, ENQUEUE n d => 1 ≤ n ∧ len d = chans ∧ Forall (λ r, len r = n) d
  | _, _ => control m x
  end.

Lemma amounts_app l k : amounts (l ++ k) = amounts l + amounts k.
Proof. induction l; cbn; lia. Qed.
Lemma rows_app l k c : rows (l ++ k) c = rows l c ++ rows k c.
Proof. unfold rows. by rewrite bind_app. Qed.
Lemma control_from m chans x : control m x → from m chans x.
Proof. by destruct m, x. Qed.
Lemma control_rows m l c : Forall (control m) l → rows l c = [].
Proof. induction 1 as [|x l Hx _ IH]; [done|]. cbn. fold (rows l c). by rewrite IH; destruct m, x. Qed.
Lemma control_amounts l : Forall (control WRITE) l → amounts l = 0.
Proof. induction 1 as [|x l Hx _ IH]; [done|]. cbn. by rewrite IH; destruct x. Qed.
Lemma from_amounts m chans l : Forall (from m chans) l → 0 ≤ amounts l.
Proof.
  induction 1 as [|x l Hx _ IH]; [done|]. cbn. enough (0 ≤ amount x) by lia.
  destruct m, x; cbn in *; lia.
Qed.

(** Nothing follows the message with which a half ends its stream. *)
Definition ended (e : message) (sent sent' : bool) (l : list message) : Prop :=
  if sent then l = [] ∧ sent' = true
  else if sent' then ∃ k, l = k ++ [e] ∧ e ∉ k else e ∉ l.
Lemma ended_trans e s1 s2 s3 l k : ended e s1 s2 l → ended e s2 s3 k → ended e s1 s3 (l ++ k).
Proof.
  unfold ended. destruct s1; [intros [-> ->] [-> ->]; done|]. destruct s2.
  - intros (k' & -> & Hk) [-> ->]. exists k'. by rewrite app_nil_r.
  - intros Hl. destruct s3; [|set_solver]. intros (k' & -> & Hk). exists (l ++ k').
    by rewrite app_assoc; split; [|set_solver].
Qed.

(** ** The quiet operations

    [ctl r r' l]: an operation that does not touch the queue has sent the
    messages [l]. *)
Record ctl (r r' : rqueue) (l : list message) : Prop := {
  c_que : queue r' = queue r;
  c_md : md r' = md r;
  c_alpha : alpha r' = alpha r;
  c_rl : readerlength r' = readerlength r;
  c_bc : bytecount r = bytecount r' + match md r with READ => amounts l | WRITE => 0 end;
  c_end : ended (end_of (md r)) (sentEnd r) (sentEnd r') l;
  c_closed : (closed r = true → dead r = true) → closed r' = true → dead r' = true;
  c_in : inenqueue (base r') = inenqueue (base r) ∧ indequeue (base r') = indequeue (base r);
  c_thr : enqueuethresh (base r') = enqueuethresh (base r) ∧
    dequeuethresh (base r') = dequeuethresh (base r);
  c_term : terminated (base r') = terminated (base r);
  c_shut : match md r with
           | WRITE => readshutdown (base r') = readshutdown (base r) ∧
               (writeshutdown (base r) = true → writeshutdown (base r') = true)
           | READ => writeshutdown (base r') = writeshutdown (base r) ∧
               (readshutdown (base r) = true → readshutdown (base r') = true)
           end;
  c_dead : dead r = true → dead r' = true;
  c_grow : pendingGrow r = false → pendingGrow r' = false;
  c_kind : Forall (λ x, control (md r) x ∧ (is_grow x → pendingGrow r = true)) l;
  c_out : msgs r' = msgs r ++ l }.

Lemma ctl_refl r : ctl r r [].
Proof.
  constructor; try done.
  - destruct (md r); cbn; lia.
  - unfold ended. destruct (sentEnd r); [done|]. set_solver.
  - by destruct (md r).
  - by rewrite app_nil_r.
Qed.
Lemma ctl_trans r1 r2 r3 l k : ctl r1 r2 l → ctl r2 r3 k → ctl r1 r3 (l ++ k).
Proof.
  intros [] []. constructor; try congruence; try tauto.
  - rewrite c_bc0, c_bc1, c_md0. destruct (md r1); rewrite ?amounts_app; lia.
  - rewrite c_md0 in *. by eapply ended_trans.
  - destruct c_in0, c_in1. split; congruence.
  - destruct c_thr0, c_thr1. split; congruence.
  - rewrite c_md0 in *. destruct (md r1), c_shut0, c_shut1; split; try congruence; auto.
  - rewrite c_md0 in *. apply Forall_app_2; [done|]. eapply Forall_impl; [done|].
    cbn. intros x [? Hg]. split; [done|]. intros Hx. specialize (Hg Hx).
    destruct (pendingGrow r1) eqn:E; [done|]. by rewrite c_grow0 in Hg.
  - by rewrite c_out1, c_out0, app_assoc.
Qed.

(** Most do not end the stream, nor count bytes. *)
Definition calm (r r' : rqueue) : Prop := sentEnd r' = sentEnd r ∧ bytecount r' = bytecount r.
Definition does {A} (m : Op A) (r : rqueue) : Prop :=
  wp m (λ _ r', ∃ l, ctl r r' l ∧ calm r r') r.

Lemma does_bind {A B} (m : Op A) (k : A → Op B) r :
  does m r → (∀ a r' l, ctl r r' l → calm r r' → does (k a) r') → does (m ≫= k) r.
Proof.
  intros Hm Hk. apply wp_bind. eapply wp_mono; [exact Hm|]. cbn. intros a r' (l & Hl & Es).
  eapply wp_mono; [by eapply Hk|]. cbn. intros b r'' (l' & Hl' & Es'). exists (l ++ l').
  split; [by eapply ctl_trans|]. destruct Es, Es'. split; congruence.
Qed.
Lemma does_ret {A} (a : A) r : does (mret a) r.
Proof. exists []. by split; [apply ctl_refl|]. Qed.
Lemma does_get {A} (k : rqueue → Op A) r : does (k r) r → does (r ← mget; k r) r.
Proof. done. Qed.
Lemma does_assert b r : b = true → does (massert b) r.
Proof. intros ->. exists []. by split; [apply ctl_refl|]. Qed.

Lemma ctl_silent r r' :
  queue r' = queue r → md r' = md r → alpha r' = alpha r → readerlength r' = readerlength r →
  bytecount r' = bytecount r → sentEnd r' = sentEnd r →
  ((closed r = true → dead r = true) → closed r' = true → dead r' = true) →
  inenqueue (base r') = inenqueue (base r) ∧ indequeue (base r') = indequeue (base r) →
  enqueuethresh (base r') = enqueuethresh (base r) ∧
    dequeuethresh (base r') = dequeuethresh (base r) →
  terminated (base r') = terminated (base r) →
  match md r with
  | WRITE => readshutdown (base r') = readshutdown (base r) ∧
      (writeshutdown (base r) = true → writeshutdown (base r') = true)
  | READ => writeshutdown (base r') = writeshutdown (base r) ∧
      (readshutdown (base r) = true → readshutdown (base r') = true)
  end →
  (dead r = true → dead r' = true) →
  (pendingGrow r = false → pendingGrow r' = false) → out r' = out r → ctl r r' [].
Proof.
  intros ? ? ? ? Hb Hs. intros. constructor; try done.
  - rewrite Hb. destruct (md r); cbn; lia.
  - unfold ended. rewrite Hs. destruct (sentEnd r); [done|]. set_solver.
  - unfold msgs. rewrite app_nil_r. congruence.
Qed.
Lemma does_modify f r :
  (∀ r, ctl r (f r) [] ∧ calm r (f r)) → does (mmodify f) r.
Proof. intros Hf. destruct (Hf r). by exists []. Qed.

(** Closes [ctl r r' []] for a change of the members it does not read. *)
Ltac silent := apply ctl_silent; cbn; auto;
  match goal with |- match ?m with READ => _ | WRITE => _ end => destruct m; auto end.

Lemma does_Signal r : does RQ.Signal r.
Proof. exists []. split; [silent|done]. Qed.
Lemma does_shutdown r : does UnlockedShutdown r.
Proof. exists []. split; [silent|done]. Qed.
Lemma does_shutdown_own r :
  does (match md r with WRITE => UnlockedShutdownWriter | READ => UnlockedShutdownReader end) r.
Proof.
  destruct (md r) eqn:E; exists []; (split; [|done]); apply ctl_silent; cbn; auto; by rewrite E.
Qed.
Lemma does_upd f r :
  (∀ s, que (f s) = que s ∧ inenqueue (f s) = inenqueue s ∧ indequeue (f s) = indequeue s ∧
    enqueuethresh (f s) = enqueuethresh s ∧ dequeuethresh (f s) = dequeuethresh s ∧
    terminated (f s) = terminated s ∧ readshutdown (f s) = readshutdown s ∧
    writeshutdown (f s) = writeshutdown s) → does (upd f) r.
Proof.
  intros Hf. specialize (Hf (base r)) as (?&?&?&?&?&?&E1&E2). exists [].
  split; [|done]. apply ctl_silent; cbn; auto. rewrite E1, E2. by destruct (md r).
Qed.

(** A message is sent. *)
Lemma does_send x r : sentEnd r = false → control (md r) x → x ≠ end_of (md r) →
  amount x = 0 → (is_grow x → pendingGrow r = true) → does (SendPacket x) r.
Proof.
  intros Hs Hc He Ha Hg. exists [x].
  split; [|by destruct (md r)]. constructor; cbn; auto; try (destruct (md r); cbn; by auto with lia).
  - unfold ended. rewrite Hs. set_solver.
  - unfold msgs. cbn. rewrite fmap_app. by destruct (md r).
Qed.
Lemma does_end (o : Op unit) r : sentEnd r = false →
  o = match md r with WRITE => SendEndOfWritePacket | READ => SendEndOfReadPacket end →
  wp (o ;; mmodify (λ r, set_sentEnd r true))
    (λ _ r', (∃ l, ctl r r' l) ∧ sentEnd r' = true ∧ bytecount r' = bytecount r) r.
Proof.
  intros Hs ->. unfold wp, SendEndOfWritePacket, SendEndOfReadPacket. mred.
  destruct (md r) eqn:E; mred; rewrite Hs; cbn; (split; [|by split]); exists [end_of (md r)];
    (constructor; cbn; auto; rewrite ?E; cbn; auto; try lia;
     [unfold ended; rewrite Hs; exists []; set_solver | unfold msgs; cbn; by rewrite fmap_app]).
Qed.

(** ** The parts of [InternalCheckStatus] *)
Lemma ctl_ok r r' l : ctl r r' l → QB.ok (base r) → QB.ok (base r').
Proof.
  intros Hc Hok. destruct (c_in _ _ _ Hc), (c_thr _ _ _ Hc).
  eapply ok_members; try done. exact (c_que _ _ _ Hc).
Qed.

Lemma Count_eq r : QB.ok (base r) → queue_Count r = (Ok (q_count (queue r)), r).
Proof.
  intros Hok. unfold queue_Count, queue. mred. by rewrite (l_count _ _ _ (o_q _ Hok)).
Qed.
Lemma Freespace_eq r : QB.ok (base r) →
  queue_Freespace r = (Ok (rq_QueueLength (queue r) - q_count (queue r)), r).
Proof.
  intros Hok. unfold queue_Freespace, queue. mred. by rewrite (l_free _ _ _ (o_q _ Hok)).
Qed.
Lemma Empty_eq r : QB.ok (base r) → queue_Empty r = (Ok (q_count (queue r) =? 0), r).
Proof. intros Hok. unfold queue_Empty. unfold mbind, M_bind. by rewrite Count_eq. Qed.

Lemma wp_eq {A B} (m : Op A) (k : A → Op B) Φ r a :
  m r = (Ok a, r) → wp (k a) Φ r → wp (m ≫= k) Φ r.
Proof. intros E Hk. unfold wp, mbind, M_bind in *. by rewrite E. Qed.
Lemma wp_get {A} (k : rqueue → Op A) Φ r : wp (k r) Φ r → wp (mget ≫= k) Φ r.
Proof. done. Qed.
Lemma wp_does {A B} (m : Op A) (k : A → Op B) Φ r : does m r →
  (∀ a r' l, ctl r r' l → calm r r' → wp (k a) Φ r') → wp (m ≫= k) Φ r.
Proof.
  intros Hm Hk. apply wp_bind. eapply wp_mono; [exact Hm|]. intros a r' (l & Hl & Es).
  by eapply Hk.
Qed.

(** Runs [does] through a sequence of silent changes and sends. *)
Ltac quiet := repeat first
  [ apply does_ret
  | apply does_Signal
  | apply does_shutdown
  | apply does_modify; intros ?; split; [silent|done]
  | apply does_upd; intros ?; by split_and!
  | apply does_get
  | apply does_bind; [|intros ? ? ? ? ?] ].
Ltac sends := first [apply does_send; try done; by destruct (md _)].

Lemma does_check_grow r : does check_grow r.
Proof.
  apply does_get. destruct (pendingGrow r && negb (sentEnd r)) eqn:E; [|apply does_ret].
  apply andb_true_iff in E as [Eg Es%negb_true_iff].
  apply does_bind; [|intros; quiet]. apply does_get. sends.
Qed.
Lemma does_check_tag b r : sentEnd r = false → does (check_tag b) r.
Proof.
  intros Hs. apply does_get. destruct (pendingD4RTag r), (nodetag r), b; try apply does_ret.
  apply does_bind; [|intros; quiet]. sends.
Qed.
Lemma does_block (b c : bool) (o : Op unit) r : does o r →
  does (if b then (if c then o else mret tt) ;; mmodify (λ r, set_pendingBlock r false)
        else mret tt) r.
Proof.
  intros Ho. destruct b; [|quiet]. apply does_bind; [|intros; quiet].
  destruct c; [done|quiet].
Qed.
Lemma does_check_write_block r : QB.ok (base r) → md r = WRITE → sentEnd r = false →
  does check_write_block r.
Proof.
  intros Hok Hm Hs. apply does_get. eapply wp_eq; [by apply Freespace_eq|].
  apply does_bind.
  - apply does_block, does_get, does_send; rewrite ?Hm; done.
  - intros _ r' l Hl [Es _]. apply does_get, does_check_tag. congruence.
Qed.

(** What the writer's half sends at its end: [sentEnd] is set when the stream
    is over, or when it no longer matters. *)
Definition may_end (term : bool) (r : rqueue) : Prop :=
  readshutdown (base r) = true ∨
  writeshutdown (base r) = true ∧ (q_count (queue r) = 0 ∨ term = true).
Definition ends (r : rqueue) (r' : rqueue) (why : Prop) : Prop :=
  ∃ l, ctl r r' l ∧ (sentEnd r = false → sentEnd r' = true → why).

Lemma ends_close r r' why : ends r r' why →
  wp close_socket (λ _ r', ends r r' why) r'.
Proof.
  intros (l & Hl & Hw). exists (l ++ []). split; [|done]. eapply ctl_trans; [done|]. silent.
Qed.
Lemma check_write_end_ok term r : QB.ok (base r) → md r = WRITE →
  wp (check_write_end term) (λ _ r', ends r r' (may_end term r)) r.
Proof.
  intros Hok Hm. unfold check_write_end. apply wp_get.
  eapply wp_eq; [by apply Empty_eq|]. cbn beta.
  assert (wp (if writeshutdown (base r) && (negb (sentEnd r) && ((q_count (queue r) =? 0) || term))
    then SendEndOfWritePacket ;; mmodify (λ r, set_sentEnd r true) else mret tt)
    (λ _ r', ends r r' (may_end term r)) r) as Hw.
  { destruct (_ && _) eqn:E; [|by exists []; split; [apply ctl_refl|congruence]].
    rewrite !andb_true_iff, orb_true_iff, negb_true_iff, Z.eqb_eq in E.
    destruct E as (? & ? & ?). eapply wp_mono; [apply does_end; [done|by rewrite Hm]|].
    intros _ r' [[l Hl] _]. exists l. split; [done|]. intros _ _. by right. }
  apply wp_bind. eapply wp_mono; [exact Hw|]. intros _ r' (l & Hl & Hwhy). apply wp_get.
  destruct (readshutdown (base r')) eqn:Er; [|by exists l].
  pose proof (c_shut _ _ _ Hl) as Hsh. rewrite Hm in Hsh.
  assert (may_end term r) as Hme by (left; destruct Hsh; congruence).
  apply wp_bind. destruct (sentEnd r') eqn:Es; cbn [negb].
  - by apply ends_close; exists l.
  - eapply wp_mono; [apply does_end; [done|by rewrite (c_md _ _ _ Hl), Hm]|].
    intros _ r'' [[k Hk] _]. apply ends_close. exists (l ++ k).
    split; [by eapply ctl_trans|done].
Qed.

Lemma SendDequeue_ok r : QB.ok (base r) → md r = READ → sentEnd r = false →
  q_count (queue r) ≤ bytecount r < 4294967296 →
  wp SendDequeuePacket (λ _ r', (∃ l, ctl r r' l) ∧ sentEnd r' = false ∧
    bytecount r' = q_count (queue r)) r.
Proof.
  intros Hok Hm Hs Hb. pose proof (l_bounds _ _ _ (o_q _ Hok)) as Hq.
  fold (queue r) in Hq. apply wp_get. eapply wp_eq; [by apply Count_eq|].
  unfold wp, SendPacket, SetupPacket, TickClock, write_packet. mred. cbn. rewrite ?Hm. cbn.
  words. split; [|split; [done|lia]].
  exists [DEQUEUE (bytecount r - q_count (queue r))].
  constructor; cbn; rewrite ?Hm; cbn; auto with lia.
  - unfold ended. rewrite Hs. set_solver.
  - unfold msgs. cbn. by rewrite fmap_app.
Qed.

(** After it, the reader's half has told of every byte that was taken. *)
Definition told (r r' : rqueue) : Prop :=
  ∃ l, ctl r r' l ∧ (sentEnd r' = false → bytecount r' = q_count (queue r)) ∧
    q_count (queue r) ≤ bytecount r'.
Lemma told_end r r' (o : Op unit) : told r r' → md r = READ → o = SendEndOfReadPacket →
  wp (if negb (sentEnd r') then o ;; mmodify (λ r, set_sentEnd r true) else mret tt)
    (λ _ r'', ∃ l, ctl r r'' l ∧ sentEnd r'' = true ∧ q_count (queue r) ≤ bytecount r'') r'.
Proof.
  intros (l & Hl & _ & Hb) Hm ->. destruct (sentEnd r') eqn:Es; [by exists l|].
  eapply wp_mono; [apply does_end; [done|by rewrite (c_md _ _ _ Hl), Hm]|].
  intros _ r'' ([k Hk] & Hs & Eb). exists (l ++ k).
  rewrite Eb. by split; [eapply ctl_trans|].
Qed.

Lemma check_read_open_ok term r : QB.ok (base r) → md r = READ → sentEnd r = false →
  q_count (queue r) ≤ bytecount r < 4294967296 →
  wp (check_read_open term) (λ _ r', told r r') r.
Proof.
  intros Hok Hm Hs Hb. unfold check_read_open. apply wp_does.
  { destruct term; [|quiet]. pose proof (does_shutdown_own r) as Hd. by rewrite Hm in Hd. }
  intros _ r1 l1 Hl1 [Es1 Eb1]. apply wp_get.
  pose proof (ctl_ok _ _ _ Hl1 Hok) as Hok1. pose proof (c_md _ _ _ Hl1) as Em1.
  pose proof (c_que _ _ _ Hl1) as Eq1. rewrite <- Eq1, <- Eb1 in Hb.
  eapply wp_eq; [by apply Count_eq|]. cbn beta. apply wp_bind.
  apply (wp_mono _ (λ _ r', ∃ l, ctl r r' l ∧ sentEnd r' = false ∧
    bytecount r' = q_count (queue r))).
  { destruct (Z.ltb_spec (q_count (queue r1)) (bytecount r1)).
    - eapply wp_mono; [apply SendDequeue_ok; congruence || done|]. cbn.
      intros _ r2 ([k Hk] & Hs2 & Hb2). exists (l1 ++ k). split; [by eapply ctl_trans|].
      split; congruence.
    - exists l1. rewrite Eq1 in *. split_and!; [done|congruence|lia]. }
  intros _ r2 (l2 & Hl2 & Hs2 & Hb2). pose proof (c_md _ _ _ Hl2) as Em2.
  apply wp_does.
  { apply does_block, does_get, does_send; rewrite ?Em2, ?Hm; done. }
  intros _ r3 l3 Hl3 [Es3 Eb3]. apply wp_get, wp_does; [apply does_check_tag; congruence|].
  intros _ r4 l4 Hl4 [Es4 Eb4]. apply wp_get.
  assert (ctl r r4 (l2 ++ l3 ++ l4)) as Hl by (by repeat eapply ctl_trans).
  destruct (readshutdown (base r4)); [|
    exists (l2 ++ l3 ++ l4); split; [done|]; split; [congruence|lia]].
  eapply wp_mono; [apply does_end; [congruence|by rewrite (c_md _ _ _ Hl), Hm]|].
  intros _ r5 ([k Hk] & Hs5 & Eb5). eexists. split; [by eapply ctl_trans|].
  split; [congruence|lia].
Qed.

Lemma check_read_ok term r : QB.ok (base r) → md r = READ →
  q_count (queue r) ≤ bytecount r < 4294967296 →
  wp (check_read term) (λ _ r', told r r') r.
Proof.
  intros Hok Hm Hb. apply wp_get, wp_bind.
  apply (wp_mono _ (λ _ r', told r r')).
  { destruct (sentEnd r) eqn:Es; cbn [negb]; [|by apply check_read_open_ok].
    exists []. split; [apply ctl_refl|]. split; [congruence|lia]. }
  intros _ r1 Ht. apply wp_get. destruct (writeshutdown (base r1)); [|done].
  apply wp_bind. eapply wp_mono; [by apply told_end|]. intros _ r2 (l & Hl & Es & Hb2).
  exists (l ++ []). split; [|cbn; split; [congruence|done]]. eapply ctl_trans; [done|]. silent.
Qed.

(** ** A half *)
Definition views (V : Z → P → Prop) (chans : Z) (ps : list P) : Prop :=
  len ps = chans ∧ ∀ i p, ps !! i = Some p → V (Z.of_nat i) p.
Definition shape (chans n : Z) (d : list (list Z)) : Prop :=
  len d = chans ∧ Forall (λ r, len r = n) d.
Notation chans r := (rq_NumChannels (queue r)).

Definition pc_term (p : pc) : bool :=
  match p with
  | Reading t | Looping t | Sending t _ _ _ | Sent t _ | Receiving t _ _ _ | Received t _ _ => t
  | _ => false
  end.
Definition plain (p : pc) : bool :=
  match p with Start | Top | Wait | Reading _ | Looping _ | Done => true | _ => false end.
(** The bytes an action thread has in its hands. *)
Definition pend (p : pc) : Z :=
  match p with Sending _ n _ _ | Sent _ n | Receiving _ n _ _ | Received _ n _ => n | _ => 0 end.
(** Those that have crossed the socket but are not in [bytecount] yet. *)
Definition counted (p : pc) : Z :=
  match p with Sent _ n | Receiving _ n _ _ | Received _ n _ => n | _ => 0 end.
Definition received (p : pc) (c : Z) : list Z :=
  match p with Receiving _ _ _ d | Received _ _ d => d !!! Z.to_nat c | _ => [] end.

Definition credit (r : rqueue) (p : pc) : Z := bytecount r + counted p.
(** The bytes of a channel that are on this side of the socket. *)
Definition hold (m : mode) (r : rqueue) (p : pc) (c : Z) : list Z :=
  match m with
  | WRITE => drop (Z.to_nat (counted p)) (q_bytes (queue r) c)
  | READ => q_bytes (queue r) c ++ received p c
  end.

Definition pc_ok (m : mode) (r : rqueue) (p : pc) : Prop :=
  let q := queue r in
  match m, p with
  | _, (Start | Top | Wait | Reading _ | Done) => True
  | WRITE, Looping _ => sentEnd r = false
  | WRITE, Sending _ n _ ps =>
      sentEnd r = false ∧ 1 ≤ n ≤ q_avail q ∧ views (q_rview q) (chans r) ps
  | WRITE, Sent _ n => sentEnd r = false ∧ 1 ≤ n ≤ q_avail q
  | READ, Receiving _ n ps d =>
      1 ≤ n ≤ q_room q ∧ views (q_wview q) (chans r) ps ∧ shape (chans r) n d ∧
      writeshutdown (base r) = false
  | READ, Received _ n d =>
      1 ≤ n ≤ q_room q ∧ (shape (chans r) n d ∧ writeshutdown (base r) = false) ∧
      ∀ c, 0 ≤ c < chans r → take (Z.to_nat n) (q_pending q c) = d !!! Z.to_nat c
  | _, _ => False
  end.

(** The flag of the base class that is the action thread's. *)
Definition in_action (m : mode) (r : rqueue) : bool :=
  match m with WRITE => indequeue (base r) | READ => inenqueue (base r) end.
(** Nothing is left to do for a thread that waits. *)
Definition at_rest (m : mode) (r : rqueue) : Prop :=
  match m with
  | WRITE => q_count (queue r) = 0 ∨ readerlength r ≤ bytecount r
  | READ => bytecount r = q_count (queue r)
  end.
(** A writer's half that has ended has sent everything, or need not. *)
Definition all_sent (r : rqueue) : Prop :=
  readshutdown (base r) = false → terminated (base r) = false →
  writeshutdown (base r) = true ∧ q_count (queue r) = 0.

Record lok (m : mode) (r : rqueue) (p : pc) : Prop := {
  k_md : md r = m;
  k_ok : QB.ok (base r);
  k_in : in_action m r = negb (plain p);
  k_thr : match m with WRITE => dequeuethresh (base r) | READ => enqueuethresh (base r) end = 0;
  k_pc : pc_ok m r p;
  k_bc : match m with WRITE => 0 | READ => q_count (queue r) end ≤ bytecount r ∧
    bytecount r + pend p < 4294967296;
  k_rl : 0 ≤ readerlength r < 4294967296;
  k_dead : closed r = true → dead r = true;
  k_rest : p = Wait → pendingAction r = false → dead r = false → sentEnd r = false → at_rest m r;
  k_done : m = WRITE → sentEnd r = true → all_sent r;
  k_term : pc_term p = true → terminated (base r) = true }.

(** A step of a half: the messages it sends, and that nothing is lost. *)
Record sends (m : mode) (r : rqueue) (p : pc) (r' : rqueue) (p' : pc) (l : list message) : Prop := {
  e_out : msgs r' = msgs r ++ l;
  e_from : Forall (λ x, from m (chans r) x ∧ (is_grow x → pendingGrow r = true)) l;
  e_credit : match m with
             | WRITE => credit r' p' = credit r p + amounts l
             | READ => credit r p = credit r' p' + amounts l
             end;
  e_hold c : 0 ≤ c < chans r →
    match m with
    | WRITE => hold m r p c = rows l c ++ hold m r' p' c
    | READ => hold m r' p' c = hold m r p c
    end;
  e_end : ended (end_of m) (sentEnd r) (sentEnd r') l;
  e_shut : match m with
           | WRITE => readshutdown (base r') = readshutdown (base r)
           | READ => writeshutdown (base r') = writeshutdown (base r)
           end;
  e_chans : chans r' = chans r;
  e_grow : pendingGrow r = false → pendingGrow r' = false;
  e_sizes : readerlength r' = readerlength r ∧
    rq_QueueLength (queue r') = rq_QueueLength (queue r) ∧
    rq_MaxThreshold (queue r') = rq_MaxThreshold (queue r);
  e_cap : m = WRITE →
    bytecount r' + pend p' ≤ Z.max (bytecount r + pend p)
      (Z.max (readerlength r) (rq_MaxThreshold (queue r))) ∧
    pend p' ≤ Z.max (pend p) (rq_MaxThreshold (queue r)) ∧
    Forall (λ x, match x with ENQUEUE n _ => n ≤ pend p | _ => True end) l }.

Lemma sends_ctl m r p r' p' l : ctl r r' l → md r = m → plain p = true → plain p' = true →
  sends m r p r' p' l.
Proof.
  intros Hl Hm Hp Hp'. pose proof (c_que _ _ _ Hl) as Eq.
  assert (Forall (control m) l) as Hc.
  { rewrite <- Hm. eapply Forall_impl; [exact (c_kind _ _ _ Hl)|]. by intros x []. }
  assert (counted p = 0 ∧ counted p' = 0 ∧ received p = received p') as (E1 & E2 & E3)
    by by destruct p, p'.
  constructor; rewrite ?Eq; try done; try by apply Hl.
  - eapply Forall_impl; [exact (c_kind _ _ _ Hl)|]. cbn. rewrite Hm. intros x [? ?].
    split; [by apply control_from|done].
  - pose proof (c_bc _ _ _ Hl) as E. unfold credit. rewrite Hm in E.
    destruct m; [lia|]. rewrite (control_amounts _ Hc). lia.
  - intros c _. unfold hold. rewrite Eq, E3. destruct m; [done|].
    rewrite (control_rows _ _ _ Hc), E1, E2. done.
  - rewrite <- Hm. apply Hl.
  - pose proof (c_shut _ _ _ Hl) as Hs. rewrite Hm in Hs. by destruct m, Hs.
  - split; [apply Hl|done].
  - intros ->. pose proof (c_bc _ _ _ Hl) as E. rewrite Hm in E.
    assert (pend p = 0 ∧ pend p' = 0) as [-> ->] by by destruct p, p'.
    split; [lia|]. split; [lia|]. eapply Forall_impl; [exact Hc|]. by intros [].
Qed.

Lemma may_end_sent t r r' l : ctl r r' l → md r = WRITE → may_end t r →
  (t = true → terminated (base r) = true) → all_sent r'.
Proof.
  intros Hl Hm He Ht Hr Htm. rewrite (c_term _ _ _ Hl) in Htm. rewrite (c_que _ _ _ Hl).
  pose proof (c_shut _ _ _ Hl) as Hsh. rewrite Hm in Hsh. destruct Hsh as [Es Hw].
  destruct He as [?|[? [?| ->]]]; [congruence|by auto|]. by rewrite Ht in Htm.
Qed.

Lemma lok_ctl m r p r' p' l : ctl r r' l → lok m r p → plain p = true → plain p' = true →
  pc_ok m r' p' → (m = READ → q_count (queue r) ≤ bytecount r') →
  (p' = Wait → dead r' = false → sentEnd r' = false → at_rest m r') →
  (m = WRITE → sentEnd r = false → sentEnd r' = true → all_sent r') →
  (pc_term p' = true → terminated (base r) = true) → lok m r' p'.
Proof.
  intros Hl [Hm Hok Hin Hth Hpc Hbc Hrl Hd Hr Hdn Ht] Hp Hp' Hpc' Hlow Hrest Hend Hterm.
  pose proof (c_que _ _ _ Hl) as Eq.
  assert (Forall (control m) l) as Hc.
  { rewrite <- Hm. eapply Forall_impl; [exact (c_kind _ _ _ Hl)|]. by intros x []. }
  assert (pend p' = 0 ∧ pend p = 0) as [E1 E2] by by destruct p, p'.
  constructor; try done.
  - rewrite <- Hm. apply Hl.
  - by eapply ctl_ok.
  - rewrite Hp'. rewrite Hp in Hin. rewrite <- Hin. destruct (c_in _ _ _ Hl). by destruct m.
  - destruct (c_thr _ _ _ Hl) as [E3 E4]. by destruct m; rewrite ?E3, ?E4.
  - pose proof (c_bc _ _ _ Hl) as E. rewrite Hm in E. rewrite Eq, E1. destruct m.
    + specialize (Hlow eq_refl).
      assert (0 ≤ amounts l); [|lia]. apply (from_amounts READ (chans r)).
      eapply Forall_impl; [exact Hc|]. intros. by apply control_from.
    + lia.
  - by rewrite (c_rl _ _ _ Hl).
  - by apply (c_closed _ _ _ Hl).
  - auto.
  - intros -> Hs' Hrs Htm. rewrite Eq. rewrite (c_term _ _ _ Hl) in Htm.
    pose proof (c_shut _ _ _ Hl) as Hsh. rewrite Hm in Hsh. destruct Hsh as [E3 Hw].
    destruct (sentEnd r) eqn:Es.
    + rewrite E3 in Hrs. destruct (Hdn eq_refl eq_refl Hrs Htm). auto.
    + rewrite <- (c_term _ _ _ Hl) in Htm. rewrite <- Eq. by apply Hend.
  - rewrite (c_term _ _ _ Hl). done.
Qed.

(** ** The action thread keeps its half in order *)
Definition post (m : mode) (r : rqueue) (p p' : pc) (r' : rqueue) : Prop :=
  lok m r' p' ∧ ∃ l, sends m r p r' p' l.

Lemma post_ctl m r p r' p' l : ctl r r' l → lok m r p → plain p = true → plain p' = true →
  pc_ok m r' p' → (m = READ → q_count (queue r) ≤ bytecount r') →
  (p' = Wait → dead r' = false → sentEnd r' = false → at_rest m r') →
  (m = WRITE → sentEnd r = false → sentEnd r' = true → all_sent r') →
  (pc_term p' = true → terminated (base r) = true) → post m r p p' r'.
Proof.
  intros Hl Hk. intros. split; [by eapply lok_ctl|]. exists l. apply sends_ctl; try done. apply Hk.
Qed.

Lemma lok_low r p : lok READ r p → q_count (queue r) ≤ bytecount r < 4294967296.
Proof.
  intros Hk. pose proof (k_bc _ _ _ Hk). pose proof (k_pc _ _ _ Hk).
  destruct p; cbn in *; try done; lia.
Qed.

Lemma top_ok m r eof : lok m r Top →
  (eof = true → readshutdown (base r) || writeshutdown (base r) = true) →
  wp (own_step eof Top) (post m r Top) r.
Proof.
  intros Hk He. cbn [own_step]. apply wp_bind, wp_get.
  destruct (closed r) eqn:Ec.
  - apply wp_get. eapply post_ctl; [apply ctl_refl|try done; try congruence; try by destruct m..].
    + intros ->. by apply lok_low in Hk as [].
    + intros _. by rewrite (k_dead _ _ _ Hk).
  - assert (eof && negb (readshutdown (base r) || writeshutdown (base r)) = false) as ->.
    { destruct eof; [|done]. by rewrite He. }
    apply wp_get. eapply post_ctl; [apply ctl_refl|try done; try congruence; try by destruct m..].
    + intros ->. by apply lok_low in Hk as [].
Qed.

Lemma wait_ok m r : lok m r Wait → wp wait_step (post m r Wait) r.
Proof.
  intros Hk. apply wp_get. destruct (pendingAction r || dead r) eqn:E.
  - apply wp_does; [apply does_modify; intros ?; split; [silent|done]|].
    intros _ r' l Hl [Es Eb]. destruct (dead r).
    all: eapply post_ctl; [exact Hl|try done; try congruence; try by destruct m..].
    all: intros ->; apply lok_low in Hk; lia.
  - apply orb_false_iff in E as [Ep Ed].
    eapply post_ctl; [apply ctl_refl|try done; try congruence; try by destruct m..].
    + intros ->. by apply lok_low in Hk as [].
    + intros _ _. by apply (k_rest _ _ _ Hk).
Qed.

Lemma reading_ok m r t : lok m r (Reading t) → wp (after_read t) (post m r (Reading t)) r.
Proof.
  intros Hk. unfold after_read. apply wp_does; [apply does_check_grow|].
  intros _ r1 l1 Hl1 [Es1 Eb1]. apply wp_get. pose proof (c_md _ _ _ Hl1) as Em.
  rewrite Em. pose proof (k_md _ _ _ Hk) as Hm. rewrite Hm in *.
  pose proof (ctl_ok _ _ _ Hl1 (k_ok _ _ _ Hk)) as Hok1.
  pose proof (c_que _ _ _ Hl1) as Eq1. pose proof (k_term _ _ _ Hk) as Ht. cbn in Ht.
  destruct m.
  - apply wp_bind. pose proof (lok_low _ _ Hk) as Hlow.
    eapply wp_mono; [apply check_read_ok; rewrite ?Eq1, ?Eb1; done|].
    intros _ r2 (l2 & Hl2 & Hb2 & Hlo). rewrite Eq1 in Hb2, Hlo.
    eapply (post_ctl _ _ _ _ _ (l1 ++ l2)); [by eapply ctl_trans|try done; try congruence; try by destruct m..].
    intros _ _ Hs. cbn. rewrite (c_que _ _ _ Hl2), Eq1. auto.
  - destruct (sentEnd r1) eqn:Es; cbn [negb].
    + apply wp_bind. eapply wp_mono; [by apply check_write_end_ok|].
      intros _ r2 (l2 & Hl2 & Hw).
      assert (sentEnd r2 = true) as Es2.
      { pose proof (c_end _ _ _ Hl2) as He. rewrite Es in He. apply He. }
      eapply (post_ctl _ _ _ _ _ (l1 ++ l2)); [by eapply ctl_trans|try done; try congruence; try by destruct m..].
    + apply wp_does.
      { destruct t; [|quiet]. pose proof (does_shutdown_own r1) as Hd. by rewrite Em in Hd. }
      intros _ r2 l2 Hl2 [Es2 Eb2].
      eapply (post_ctl _ _ _ _ _ (l1 ++ l2)); [by eapply ctl_trans|try done; try congruence; try by destruct m..].
Qed.

(** *** Sending *)
Lemma pointers_ok (get : Z → res (option P)) (V : Z → P → Prop) n : ∀ c,
  (∀ i, c ≤ i < c + Z.of_nat n → ∃ p, get i = Ok (Some p) ∧ V i p) →
  ∃ ps, pointers get n c = Ok ps ∧ length ps = n ∧
    ∀ i p, ps !! i = Some p → V (c + Z.of_nat i) p.
Proof.
  induction n as [|n IH]; intros c Hg; cbn [pointers]; [by exists []|].
  destruct (Hg c) as (p & E & Hp); [lia|].
  destruct (IH (c + 1)) as (ps & E2 & Hl & Hv); [intros i Hi; apply Hg; lia|].
  exists (p :: ps). mred. rewrite E, E2. split_and!; [done|cbn; lia|].
  intros [|i] p' Hi; cbn in Hi.
  - injection Hi as <-. by rewrite Z.add_0_r.
  - replace (c + Z.of_nat (S i)) with (c + 1 + Z.of_nat i) by lia. by apply Hv.
Qed.
Lemma views_ok (get : Z → res (option P)) (V : Z → P → Prop) chans : 0 ≤ chans →
  (∀ i, 0 ≤ i < chans → ∃ p, get i = Ok (Some p) ∧ V i p) →
  ∃ ps, pointers get (Z.to_nat chans) 0 = Ok ps ∧ views V chans ps.
Proof.
  intros Hc Hg. destruct (pointers_ok get V (Z.to_nat chans) 0) as (ps & E & Hl & Hv).
  { intros i Hi. apply Hg. lia. }
  exists ps. split; [done|]. split; [unfold len; lia|exact Hv].
Qed.

(** Something is sent, within the queue and the credit. *)
Lemma send_count_ok r c : 1 ≤ c → 1 ≤ rq_MaxThreshold (queue r) < 4294967296 →
  1 ≤ chans r → 0 ≤ bytecount r < readerlength r → readerlength r < 4294967296 →
  1 ≤ send_count r c ∧ send_count r c ≤ c ∧ send_count r c ≤ rq_MaxThreshold (queue r) ∧
  bytecount r + send_count r c ≤ Z.max (readerlength r) (rq_MaxThreshold (queue r)).
Proof.
  intros Hc Ht Hn Hb Hr. unfold send_count. cbv zeta. rewrite u32_id by lia.
  set (w := maxwritethreshold r / chans r).
  set (w' := if w =? 0 then 1 else w).
  assert (0 < maxwritethreshold r → 1 ≤ w') as Hw.
  { intros Hp. pose proof (Z.div_pos (maxwritethreshold r) (chans r)). unfold w'.
    destruct (Z.eqb_spec w 0); lia. }
  destruct ((0 <? maxwritethreshold r) && (w' <? c)) eqn:E.
  - apply andb_true_iff in E as [E1%Z.ltb_lt E2%Z.ltb_lt]. specialize (Hw E1).
    destruct (Z.ltb_spec (rq_MaxThreshold (queue r)) w'); zcases; lia.
  - destruct (Z.ltb_spec (rq_MaxThreshold (queue r)) c); zcases; lia.
Qed.

Lemma more_ok r : QB.ok (base r) →
  check_more r = (Ok (negb (q_count (queue r) =? 0) && (bytecount r <? readerlength r) &&
    negb (dead r)), r).
Proof. intros Hok. unfold check_more. mred. by rewrite Empty_eq. Qed.

Lemma send_begin_ok t r : lok WRITE r (Looping t) →
  1 ≤ q_count (queue r) → bytecount r < readerlength r →
  ∃ p ps c, let n := send_count r (q_count (queue r)) in
    1 ≤ n ≤ q_avail (queue r) ∧ n ≤ rq_MaxThreshold (queue r) ∧
    bytecount r + n ≤ Z.max (readerlength r) (rq_MaxThreshold (queue r)) ∧
    views (q_rview (queue r)) (chans r) ps ∧
    SendEnqueuePacket_begin r = (Ok (Some (n, p, ps)),
      set_base (set_clocks r c (readclock r) (writeclock r))
        (set_deq (base r) (dequeuethresh (base r)) true)).
Proof.
  intros Hk Hc Hb. pose proof (k_ok _ _ _ Hk) as Hok. pose proof (o_q _ Hok) as Hq.
  fold (queue r) in Hq. pose proof (l_bounds _ _ _ Hq) as Hbd. pose proof (l_small _ _ _ Hq).
  pose proof (k_in _ _ _ Hk) as Hin. cbn in Hin. rewrite Hin in Hq.
  pose proof (l_avail _ _ Hq) as Hav. pose proof (k_rl _ _ _ Hk). pose proof (k_bc _ _ _ Hk).
  destruct (send_count_ok r (q_count (queue r))) as (Hs1 & Hs2 & Hs3 & Hs4); try lia.
  set (n := send_count r (q_count (queue r))) in *.
  destruct (views_ok (rq_GetRawDequeuePtr false (queue r) n) (q_rview (queue r)) (chans r))
    as (ps & E & Hv); [lia|intros i Hi; by eapply l_deq_ptr; [..|lia]|].
  eexists _, ps, _. cbn zeta. split_and!; try done; try lia.
  unfold SendEnqueuePacket_begin, mbind at 1, M_bind at 1. cbn [mget].
  unfold mbind at 1, M_bind at 1. rewrite Count_eq by done. fold n.
  rewrite (proj2 (Z.eqb_neq n 0)) by lia. unfold SetupPacket, TickClock, upd. mred.
  unfold queue in *. cbn. rewrite Hin. by rewrite E.
Qed.

Lemma looping_ok r t : lok WRITE r (Looping t) → wp (loop_step t) (post WRITE r (Looping t)) r.
Proof.
  intros Hk. pose proof (k_ok _ _ _ Hk) as Hok. pose proof (k_pc _ _ _ Hk) as Hs. cbn in Hs.
  unfold loop_step. eapply wp_eq; [by apply more_ok|].
  destruct (_ && _ && _) eqn:E.
  - rewrite !andb_true_iff, !negb_true_iff, Z.eqb_neq, Z.ltb_lt in E.
    destruct E as [[Ec Eb] Ed]. pose proof (l_bounds _ _ _ (o_q _ Hok)) as Hbd.
    fold (queue r) in Hbd.
    destruct (send_begin_ok t r Hk) as (p & ps & c & Hn & Hnt & Hbn & Hv & Es); [lia|done|].
    unfold wp, mbind, M_bind. rewrite Es. cbn. set (n := send_count _ _) in *.
    pose proof (k_rl _ _ _ Hk). pose proof (k_bc _ _ _ Hk).
    pose proof (l_small _ _ _ (o_q _ Hok)).
    fold (queue r) in *. split.
    + destruct Hk. constructor; cbn; auto; try done.
      * destruct Hok as [Hq He Hd]. constructor; cbn; [by eapply l_set_deq|done|].
        intros _. cbn in k_thr0. rewrite k_thr0. fold (queue r). lia.
      * lia.
    + exists []. constructor; cbn; try done.
      * by rewrite app_nil_r.
      * unfold credit. cbn. lia.
      * unfold ended. rewrite Hs. set_solver.
      * intros _. split_and!; [lia..|done].
  - apply wp_get. destruct (dead r) eqn:Ed.
    { eapply post_ctl; [apply ctl_refl|try done; try congruence..]. }
    apply wp_does; [apply does_check_write_block; try done; apply Hk|].
    intros _ r1 l1 Hl1 [Es1 Eb1]. apply wp_bind.
    pose proof (ctl_ok _ _ _ Hl1 Hok) as Hok1. pose proof (c_md _ _ _ Hl1) as Em.
    eapply wp_mono; [apply check_write_end_ok; [done|by rewrite Em; apply Hk]|].
    intros _ r2 (l2 & Hl2 & Hw). pose proof (k_md _ _ _ Hk) as Hm.
    pose proof (c_shut _ _ _ Hl1) as Hsh1. rewrite Hm in Hsh1.
    eapply (post_ctl _ _ _ _ _ (l1 ++ l2)); [by eapply ctl_trans|try done..].
    + intros _ Hd _. rewrite andb_true_r in E. apply andb_false_iff in E.
      cbn. rewrite (c_que _ _ _ Hl2), (c_que _ _ _ Hl1), (c_rl _ _ _ Hl2), (c_rl _ _ _ Hl1).
      pose proof (c_bc _ _ _ Hl2) as Eb. rewrite Em, Hm in Eb.
      destruct E as [E%negb_false_iff%Z.eqb_eq|E%Z.ltb_ge]; [by left|right; lia].
    + intros _ Es Es2. eapply may_end_sent; [exact Hl2|congruence|apply Hw; congruence|].
      rewrite (c_term _ _ _ Hl1). apply (k_term _ _ _ Hk).
Qed.

Lemma load_rows_ok ie id q n ps : q_inv ie id q → 0 ≤ n ≤ q_avail q →
  views (q_rview q) (rq_NumChannels q) ps →
  ∃ d, load_rows q ps n = Ok d ∧ shape (rq_NumChannels q) n d ∧
    ∀ c, 0 ≤ c < rq_NumChannels q → d !!! Z.to_nat c = take (Z.to_nat n) (q_bytes q c).
Proof.
  intros Hq Hn [Hl Hv].
  enough (∀ ps k, (∀ i p, ps !! i = Some p → q_rview q (k + Z.of_nat i) p) → 0 ≤ k →
      k + len ps ≤ rq_NumChannels q →
      ∃ d, load_rows q ps n = Ok d ∧ length d = length ps ∧
        ∀ i, (i < length ps)%nat → d !!! i = take (Z.to_nat n) (q_bytes q (k + Z.of_nat i))) as Hx.
  { destruct (Hx ps 0) as (d & E & Hd & Hb); [done|done|lia|].
    exists d. split; [done|]. unfold len in *. split; [split; [unfold len; lia|]|].
    - apply Forall_lookup. intros i x Hi. pose proof (lookup_lt_Some _ _ _ Hi).
      apply list_lookup_total_correct in Hi as <-. rewrite Hb, Z.add_0_l by lia.
      destruct (l_len _ _ _ (Z.of_nat i) Hq) as [Hlen _]; [lia|].
      pose proof (l_bounds _ _ _ Hq). apply len_take. lia.
    - intros c Hc. rewrite Hb by lia. do 2 f_equal. lia. }
  clear Hl Hv ps. induction ps as [|p ps IH]; intros k Hv Hk Hl; cbn [load_rows].
  { exists []. split_and!; [done|done|]. intros i Hi. cbn in Hi. lia. }
  unfold len in Hl. cbn in Hl.
  rewrite (l_load _ _ _ k p n Hq) by (try lia; specialize (Hv 0%nat p eq_refl);
    by rewrite Z.add_0_r in Hv).
  destruct (IH (k + 1)) as (d & E & Hd & Hb); [|lia|unfold len; lia|].
  { intros i p' Hi. replace (k + 1 + Z.of_nat i) with (k + Z.of_nat (S i)) by lia. by apply Hv. }
  eexists. mred. rewrite E. split_and!; [done|cbn; lia|].
  intros [|i] Hi; cbn in *; [by rewrite Z.add_0_r|].
  rewrite Hb by lia. do 2 f_equal. lia.
Qed.

Lemma shape_row chans n d c : shape chans n d → 0 ≤ c < chans → len (d !!! Z.to_nat c) = n.
Proof.
  intros [Hl Hd] Hc. unfold len in Hl. rewrite Forall_lookup in Hd.
  destruct (lookup_lt_is_Some_2 d (Z.to_nat c)) as [x Hx]; [lia|].
  rewrite (list_lookup_total_correct _ _ _ Hx). by eapply Hd.
Qed.
Lemma sending_ok r t n p ps : lok WRITE r (Sending t n p ps) →
  wp (own_step false (Sending t n p ps)) (post WRITE r (Sending t n p ps)) r.
Proof.
  intros Hk. pose proof (k_pc _ _ _ Hk) as (Hs & Hn & Hv).
  pose proof (o_q _ (k_ok _ _ _ Hk)) as Hq. fold (queue r) in Hq.
  destruct (load_rows_ok _ _ _ n ps Hq) as (d & E & Hd & Hb); [lia|done|].
  cbn [own_step]. unfold SendEnqueuePacket_write, wp. mred. rewrite E. cbn. split.
  - destruct Hk. constructor; cbn in *; done.
  - eexists [ENQUEUE n d]. pose proof Hd as [Hd1 Hd2]. constructor; cbn; try done.
    + unfold msgs. cbn. by rewrite fmap_app.
    + constructor; [|done]. split; [|done]. split_and!; done || lia.
    + unfold credit. cbn. lia.
    + intros c Hc. unfold rows. cbn. rewrite app_nil_r, Hb, take_drop by done. done.
    + unfold ended. rewrite Hs. set_solver.
    + intros _. split; [lia|]. split; [lia|]. by constructor.
Qed.

Lemma sent_ok r t n : lok WRITE r (Sent t n) →
  wp (own_step false (Sent t n)) (post WRITE r (Sent t n)) r.
Proof.
  intros Hk. pose proof (k_pc _ _ _ Hk) as (Hs & Hn).
  pose proof (k_ok _ _ _ Hk) as Hok. pose proof (o_q _ Hok) as Hq. fold (queue r) in Hq.
  pose proof (l_bounds _ _ _ Hq) as Hbd.
  destruct (l_dequeue _ _ _ n Hq) as (q' & E & Hq' & EN & EL & EM & EC & Hw & Hr & Hb); [lia|].
  pose proof (k_bc _ _ _ Hk) as Hbc. cbn in Hbc.
  cbn [own_step]. apply wp_bind.
  unfold SendEnqueuePacket_end, NotifyFreespace, on_base, QB.NotifyFreespace,
    QB.UnlockedFreespace, QB.Signal, upd, wp. mred. unfold queue in *. cbn.
  rewrite E. cbn. rewrite (l_free _ _ _ Hq').
  match goal with |- context [if ?b then _ else _] => destruct b end; cbn; (split; [
    destruct Hk; constructor; unfold queue in *; cbn in *; try done; [
      destruct Hok as [_ He Hd]; constructor; cbn; [done|intros Hie; specialize (He Hie); lia|done]
    | by rewrite u32_id by lia; lia
    | intros _ Hs'; congruence ]
  | exists []; constructor; unfold queue in *; cbn; rewrite ?EN, ?EL, ?EM; try done; [
      by rewrite app_nil_r
    | unfold credit; cbn; rewrite u32_id; lia
    | intros c Hc; by destruct (Hb c Hc) as [-> _]
    | unfold ended; rewrite Hs; set_solver
    | intros _; rewrite u32_id by lia; split_and!; [lia..|done] ]]).
Qed.

(** *** Receiving *)
Record stored (q q' : Q) : Prop := {
  s_chans : rq_NumChannels q' = rq_NumChannels q;
  s_len : rq_QueueLength q' = rq_QueueLength q;
  s_thr : rq_MaxThreshold q' = rq_MaxThreshold q;
  s_count : q_count q' = q_count q;
  s_room : q_room q' = q_room q;
  s_avail : q_avail q' = q_avail q;
  s_rview c p : q_rview q c p → q_rview q' c p;
  s_bytes c : 0 ≤ c < rq_NumChannels q → q_bytes q' c = q_bytes q c }.

Lemma store_rows_ok ie id n ps : ∀ q d k, q_inv ie id q → 0 ≤ n ≤ q_room q → 0 ≤ k →
  k + len ps = rq_NumChannels q → length d = length ps → Forall (λ r, len r = n) d →
  (∀ i p, ps !! i = Some p → q_wview q (k + Z.of_nat i) p) →
  ∃ q', store_rows q ps d = Ok q' ∧ q_inv ie id q' ∧ stored q q' ∧
    ∀ c, 0 ≤ c < rq_NumChannels q →
      if c <? k then q_pending q' c = q_pending q c
      else take (Z.to_nat n) (q_pending q' c) = d !!! Z.to_nat (c - k).
Proof.
  induction ps as [|p ps IH]; intros q d k Hq Hn Hk Hl Hd Hf Hv; unfold len in Hl; cbn in Hl.
  { exists q. destruct d; [|done]. cbn. split_and!; [done..|]. intros c Hc. zcases; [done|lia]. }
  destruct d as [|x d]; [done|]. cbn in Hd. inversion Hf as [|? ? Hx Hf']; subst.
  destruct (l_store _ _ _ k p x Hq) as (q1 & E & Hq1 & EN & EL & EM & EC & ER & EA & Hw & Hr & Hb);
    [lia| |lia|].
  { specialize (Hv 0%nat p eq_refl). by rewrite Z.add_0_r in Hv. }
  destruct (IH q1 d (k + 1)) as (q2 & E2 & Hq2 & [] & Hp); [done|lia|lia|unfold len; lia|lia|done| |].
  { intros i p' Hi. apply Hw. replace (k + 1 + Z.of_nat i) with (k + Z.of_nat (S i)) by lia.
    by apply Hv. }
  exists q2. cbn [store_rows]. mred. rewrite E. split; [done|]. split; [done|]. split.
  - constructor; try congruence; auto.
    intros c Hc. rewrite s_bytes0 by lia. by apply Hb.
  - intros c Hc. specialize (Hp c ltac:(lia)). destruct (Hb c Hc) as [_ Hpc].
    destruct (Z.ltb_spec c (k + 1)), (Z.ltb_spec c k); try lia.
    + rewrite Hp, Hpc. by rewrite (proj2 (Z.eqb_neq c k)) by lia.
    + replace c with k in * by lia. rewrite Z.eqb_refl in Hpc. rewrite Hp, Hpc, Z.sub_diag.
      unfold len. rewrite Nat2Z.id, take_app_le, take_ge by lia. done.
    + rewrite Hp. replace (Z.to_nat (c - k)) with (S (Z.to_nat (c - (k + 1)))) by lia. done.
Qed.

Lemma receiving_ok r t n ps d : lok READ r (Receiving t n ps d) →
  wp (own_step false (Receiving t n ps d)) (post READ r (Receiving t n ps d)) r.
Proof.
  intros Hk. pose proof (k_pc _ _ _ Hk) as (Hn & [Hl Hv] & [Hd1 Hd2] & Hsh).
  pose proof (k_ok _ _ _ Hk) as Hok. pose proof (o_q _ Hok) as Hq. fold (queue r) in Hq.
  destruct (store_rows_ok _ _ n ps (queue r) d 0 Hq) as (q' & E & Hq' & Hst & Hp);
    [lia|lia|lia|unfold len in *; lia|done|done|].
  cbn [own_step]. unfold EnqueuePacket_read, upd, wp. mred. rewrite E. cbn. destruct Hst. split.
  - destruct Hk. unfold queue in *. constructor; unfold queue in *; cbn in *; try done.
    + destruct Hok as [_ He Hde]. constructor; cbn; [done| |].
      * by rewrite s_room0.
      * by rewrite s_avail0.
    + rewrite s_room0, s_chans0. split; [done|]. split; [by split|]. intros c Hc.
      specialize (Hp c Hc). destruct (Z.ltb_spec c 0); [lia|]. by rewrite Z.sub_0_r in Hp.
    + by rewrite s_count0.
  - exists []. unfold queue in *. constructor; unfold queue; cbn; try done.
    + by rewrite app_nil_r.
    + unfold credit. cbn. lia.
    + intros c Hc. by rewrite s_bytes0.
    + unfold ended. destruct (sentEnd r); [done|set_solver].
Qed.

Lemma received_ok r t n d : lok READ r (Received t n d) →
  wp (own_step false (Received t n d)) (post READ r (Received t n d)) r.
Proof.
  intros Hk. pose proof (k_pc _ _ _ Hk) as (Hn & [Hd Hsh] & Hp).
  pose proof (k_ok _ _ _ Hk) as Hok. pose proof (o_q _ Hok) as Hq. fold (queue r) in Hq.
  pose proof (l_bounds _ _ _ Hq) as Hbd.
  destruct (l_enqueue _ _ _ n Hq) as (q' & E & Hq' & EN & EL & EM & EC & Ha & Hr & Hb); [lia|].
  pose proof (k_bc _ _ _ Hk) as Hbc. cbn in Hbc. pose proof (k_md _ _ _ Hk) as Hm.
  cbn [own_step]. apply wp_bind.
  unfold EnqueuePacket_end, NotifyData, UnlockedCount, queue_Count, on_base, QB.Signal, upd, wp.
  mred. unfold queue in *. cbn. rewrite E. cbn. rewrite (l_count _ _ _ Hq'). rewrite Hm. cbn.
  match goal with |- context [if ?b then _ else _] => destruct b end; cbn; (split; [
    destruct Hk; constructor; unfold queue in *; cbn in *; try done; [
      destruct Hok as [_ He Hde]; constructor; cbn; [done|done|intros Hie; specialize (Hde Hie); lia]
    | by rewrite u32_id by lia; lia ]
  | exists []; constructor; unfold queue in *; cbn; rewrite ?EN, ?EL, ?EM; try done; [
      by rewrite app_nil_r
    | unfold credit; cbn; rewrite u32_id; lia
    | intros c Hc; rewrite Hb, Hp by done; by rewrite app_nil_r
    | unfold ended; destruct (sentEnd r); [done|set_solver] ]]).
Qed.

(** A step of the action thread of a half. *)
Lemma own_ok m r p eof : lok m r p →
  (eof = true → readshutdown (base r) || writeshutdown (base r) = true) →
  wp (own_step eof p) (post m r p) r.
Proof.
  intros Hk He. pose proof (k_pc _ _ _ Hk) as Hp. destruct p.
  - apply wp_get. destruct (dead r).
    all: eapply post_ctl; [apply ctl_refl|try done; try congruence; try by destruct m..].
    all: intros ->; by apply lok_low in Hk as [].
  - by apply top_ok.
  - by apply wait_ok.
  - by apply reading_ok.
  - destruct m; [done|]. by apply looping_ok.
  - destruct m; [done|]. by apply sending_ok.
  - destruct m; [done|]. by apply sent_ok.
  - destruct m; [|done]. by apply receiving_ok.
  - destruct m; [|done]. by apply received_ok.
  - eapply post_ctl; [apply ctl_refl|try done; try congruence; try by destruct m..].
    intros ->. by apply lok_low in Hk as [].
  - by destruct m.
Qed.

(** ** What else changes a half *)
Lemma lok_calm m r r' p : ctl r r' [] → calm r r' →
  (pendingAction r = true → pendingAction r' = true) → lok m r p → lok m r' p.
Proof.
  intros Hl [Es Eb] Ha [Hm Hok Hin Hth Hpc Hbc Hrl Hd Hr Hdn Ht].
  pose proof (c_que _ _ _ Hl) as Eq. destruct (c_in _ _ _ Hl) as [Ei1 Ei2].
  destruct (c_thr _ _ _ Hl) as [Et1 Et2]. constructor.
  - rewrite <- Hm. apply Hl.
  - by eapply ctl_ok.
  - rewrite <- Hin. by destruct m.
  - by destruct m; rewrite ?Et1, ?Et2.
  - unfold pc_ok in *. rewrite Eq, Es. destruct m, p; try done.
    + pose proof (c_shut _ _ _ Hl) as Hs. rewrite Hm in Hs. by destruct Hs as [-> _].
    + pose proof (c_shut _ _ _ Hl) as Hs. rewrite Hm in Hs. by destruct Hs as [-> _].
  - by rewrite Eq, Eb.
  - by rewrite (c_rl _ _ _ Hl).
  - by apply (c_closed _ _ _ Hl).
  - intros -> Hp' Hd' Hs'. unfold at_rest in *. rewrite Eq, Eb, (c_rl _ _ _ Hl).
    rewrite Es in Hs'. apply Hr; try done.
    + destruct (pendingAction r); [|done]. by rewrite Ha in Hp'.
    + destruct (dead r) eqn:Ed; [|done]. by rewrite (c_dead _ _ _ Hl) in Hd'.
  - intros Hw Hs' Hrs Htm. rewrite Es in Hs'. rewrite (c_term _ _ _ Hl) in Htm.
    pose proof (c_shut _ _ _ Hl) as Hsh. rewrite Hm, Hw in Hsh. destruct Hsh as [E3 Hww].
    rewrite E3 in Hrs. rewrite Eq. destruct (Hdn Hw Hs' Hrs Htm). auto.
  - by rewrite (c_term _ _ _ Hl).
Qed.

(** The queue of a half has grown. *)
Record grown (r r' : rqueue) (l t : Z) : Prop := {
  g_can : q_can_grow (queue r) l t;
  g_grow : rq_Grow (inenqueue (base r)) (indequeue (base r)) (queue r) l t = Ok (queue r');
  g_base : base r' = set_sig (set_que (base r) (queue r')) (sig (base r'));
  g_md : md r' = md r ∧ bytecount r' = bytecount r ∧ sentEnd r' = sentEnd r ∧ out r' = out r;
  g_dead : dead r' = dead r ∧ closed r' = closed r;
  g_rl : 0 ≤ readerlength r' < 4294967296 }.

Lemma lok_grown m r r' p l t : grown r r' l t → lok m r p →
  inenqueue (base r) && indequeue (base r) = false →
  (p = Wait → pendingAction r' = true) →
  lok m r' p ∧ chans r' = chans r ∧
  Z.max l (rq_QueueLength (queue r)) ≤ rq_QueueLength (queue r') ∧
  Z.max t (rq_MaxThreshold (queue r)) ≤ rq_MaxThreshold (queue r') ∧
  q_count (queue r') = q_count (queue r) ∧
  ∀ c, 0 ≤ c < chans r → hold m r' p c = hold m r p c.
Proof.
  intros [Hcan Eg Eb (Em & Ebc & Es & _) [Ed Ecl] Hrl'] [Hm Hok Hin Hth Hpc Hbc Hrl Hd Hr Hdn Ht]
    Hii Hw.
  pose proof (o_q _ Hok) as Hq.
  destruct (l_grow _ _ _ l t Hq Hii Hcan)
    as (q' & E & Hq' & EN & EC & EL & EM & Hwv & Hrv & Hb).
  fold (queue r) in *. assert (q' = queue r') as -> by (rewrite E in Eg; congruence).
  assert (readshutdown (base r') = readshutdown (base r) ∧
    writeshutdown (base r') = writeshutdown (base r) ∧
    terminated (base r') = terminated (base r) ∧
    inenqueue (base r') = inenqueue (base r) ∧ indequeue (base r') = indequeue (base r) ∧
    enqueuethresh (base r') = enqueuethresh (base r) ∧
    dequeuethresh (base r') = dequeuethresh (base r)) as (E1 & E2 & E3 & E4 & E5 & E6 & E7)
    by (by rewrite Eb).
  split; [|split_and!; try done].
  - constructor; rewrite ?E1, ?E2, ?E3, ?E4, ?E5, ?E6, ?E7, ?Ed, ?Ecl, ?EC, ?Ebc, ?Es; try done.
    + by rewrite Em.
    + destruct Hok as [_ He Hde]. constructor; rewrite ?E4, ?E5, ?E6, ?E7; [done| |].
      * intros Hie. destruct (Hwv Hie) as [Er _]. fold (queue r'). rewrite Er. auto.
      * intros Hie. destruct (Hrv Hie) as [Er _]. fold (queue r'). rewrite Er. auto.
    + unfold in_action in *. by rewrite E4, E5.
    + unfold pc_ok in *. rewrite EN, Es, E2. unfold in_action in Hin.
      destruct m, p; cbn in *; try done.
      * destruct (Hwv Hin) as [-> Hv]. destruct Hpc as (? & [? ?] & ?).
        split; [done|]. split; [|done]. split; [done|]. auto.
      * destruct (Hwv Hin) as [-> Hv]. destruct Hpc as (? & ? & Hpd).
        split; [done|]. split; [done|]. intros c Hc. destruct (Hb c Hc) as [_ ->]; auto.
      * destruct (Hrv Hin) as [-> Hv]. destruct Hpc as (? & ? & [? ?]).
        split; [done|]. split; [done|]. split; [done|]. auto.
      * by destruct (Hrv Hin) as [-> Hv].
    + intros Hp Hp'. rewrite (Hw Hp) in Hp'. done.
    + intros Hmw Hs. unfold all_sent in *. rewrite E1, E2, E3, EC. auto.
  - intros c Hc. destruct (Hb c Hc) as [Ebb _]. unfold hold. by rewrite Ebb.
Qed.

(** Half [m] has read the message [x]. *)
Record takes (m : mode) (r : rqueue) (p : pc) (r' : rqueue) (p' : pc) (x : message) : Prop := {
  t_out : out r' = out r;
  t_credit : match m with
             | READ => credit r' p' = credit r p + amount x
             | WRITE => credit r p = credit r' p' + amount x
             end;
  t_hold c : 0 ≤ c < chans r → hold m r' p' c = hold m r p c ++ row c x;
  t_shut : match m with
           | READ => writeshutdown (base r') = true ↔ writeshutdown (base r) = true ∨ x = ENDOFWRITE
           | WRITE => readshutdown (base r') = true ↔ readshutdown (base r) = true ∨ x = ENDOFREAD
           end;
  t_sent : sentEnd r' = sentEnd r;
  t_plain : m = WRITE → plain p' = true;
  t_chans : chans r' = chans r;
  t_grow : pendingGrow r = false → pendingGrow r' = false;
  t_sizes : ¬ is_grow x → (∀ n d, x = ENQUEUE n d → n ≤ q_room (queue r)) →
    readerlength r' = readerlength r ∧
    rq_QueueLength (queue r') = rq_QueueLength (queue r) ∧
    rq_MaxThreshold (queue r') = rq_MaxThreshold (queue r) }.

Lemma takes_calm m r r' t x : ctl r r' [] → calm r r' → out r' = out r → md r = m →
  amount x = 0 → (∀ c, row c x = []) → x ≠ ENDOFWRITE → x ≠ ENDOFREAD →
  takes m r (Reading t) r' (Reading t) x.
Proof.
  intros Hl [Es Eb] Eo Hm Ha Hr Hx1 Hx2. pose proof (c_que _ _ _ Hl) as Eq.
  constructor; rewrite ?Eq; try done.
  - unfold credit. rewrite Eb. cbn. destruct m; lia.
  - intros c Hc. unfold hold. cbn. rewrite Eq, Hr. by destruct m; rewrite ?app_nil_r.
  - pose proof (c_shut _ _ _ Hl) as Hs. rewrite Hm in Hs.
    destruct m, Hs as [-> _]; naive_solver.
  - apply Hl.
  - intros _ _. split; [apply Hl|done].
Qed.

Lemma QueueLength_range l t a m : 0 ≤ t < 4294967296 → 0 ≤ QueueLength l t a m < 4294967296.
Proof.
  intros Ht. unfold QueueLength, scaled. pose proof (u32_range (trunc (SFmul 53 1024
    (binary_normalize 53 1024 l 0 false) a))) as H1. set (w := u32 _) in *.
  pose proof (u32_range (l - w)). destruct m; lia.
Qed.

Lemma set_queue_lengths_ok m r p l t : lok m r p →
  inenqueue (base r) && indequeue (base r) = false → 0 ≤ t →
  q_can_grow (queue r) (length_for r l t) t →
  wp (set_queue_lengths l t) (λ _ r', grown r r' (length_for r l t) t ∧
    pendingGrow r' = pendingGrow r ∧ pendingAction r' = pendingAction r) r.
Proof.
  intros Hk Hii Ht Hcan. pose proof (o_q _ (k_ok _ _ _ Hk)) as Hq. fold (queue r) in Hq.
  destruct (l_grow _ _ _ _ t Hq Hii Hcan) as (q' & E & Hq' & _ & _ & _ & EM & _).
  pose proof (l_bounds _ _ _ Hq') as Hb. pose proof (l_small _ _ _ Hq').
  unfold set_queue_lengths, TQ_UnlockedGrow, on_base, QB.UnlockedGrow, wp, length_for in *.
  mred. unfold queue in *. cbn.
  destruct (md r) eqn:Em; cbn in *; rewrite ?Em; cbn; rewrite E; cbn; (split; [|done]).
  all: constructor; cbn; rewrite ?Em; try done; apply (QueueLength_range l t (alpha r) READ); lia.
Qed.

Lemma UpdateClock_ok p r :
  ∃ r', UpdateClock p r = (Ok tt, r') ∧ ctl r r' [] ∧ calm r r' ∧ out r' = out r ∧
    base r' = base r ∧ md r' = md r ∧ pendingAction r' = pendingAction r.
Proof. eexists. split; [done|]. split; [silent|]. by split_and!. Qed.

(** What a message needs of the half that reads it. *)
Record readable (m : mode) (r : rqueue) (x : message) : Prop := {
  a_from : from (peer m) (chans r) x;
  a_open : match m with WRITE => readshutdown (base r) | READ => writeshutdown (base r) end = false;
  a_credit : match m with
             | READ => bytecount r + amount x < 4294967296
             | WRITE => amount x ≤ bytecount r
             end;
  a_fits : fits r x }.

Definition read_post (m : mode) (r : rqueue) (t : bool) (x : message) (p' : pc) (r' : rqueue) : Prop :=
  lok m r' p' ∧ takes m r (Reading t) r' p' x.

Lemma read_calm m r r' t x : lok m r (Reading t) → ctl r r' [] → calm r r' → out r' = out r →
  (pendingAction r = true → pendingAction r' = true) →
  amount x = 0 → (∀ c, row c x = []) → x ≠ ENDOFWRITE → x ≠ ENDOFREAD →
  read_post m r t x (Reading t) r'.
Proof.
  intros Hk. intros. split; [by eapply lok_calm|]. apply takes_calm; try done. apply Hk.
Qed.

Lemma fire_grow m r t l th : lok m r (Reading t) → can_grow_to r l th →
  wp (GrowPacket l th) (λ _ r', read_post m r t (GROW l th) (Reading t) r') r.
Proof.
  intros Hk Hfit. unfold GrowPacket. apply wp_get. pose proof (k_ok _ _ _ Hk) as Hok.
  pose proof (k_in _ _ _ Hk) as Hin. cbn in Hin.
  assert (inenqueue (base r) && indequeue (base r) = false) as Hii
    by (destruct m; cbn in Hin; rewrite Hin; [done|apply andb_false_r]).
  pose proof (l_bounds _ _ _ (o_q _ Hok)).
  eapply wp_mono; [eapply set_queue_lengths_ok; [done..|unfold queue; lia|exact Hfit]|].
  intros _ r' (Hg & Epg & _). pose proof (g_base _ _ _ _ Hg) as Eb.
  pose proof (g_md _ _ _ _ Hg) as (E1 & E2 & E3 & E4).
  destruct (lok_grown _ _ _ _ _ _ Hg Hk) as (Hk' & EN & _ & _ & _ & Hh); [done..|].
  split; [done|]. constructor; try done; try congruence.
  - unfold credit. rewrite E2. cbn. destruct m; lia.
  - intros c Hc'. rewrite Hh by done. cbn. by rewrite app_nil_r.
  - rewrite Eb. cbn. destruct m; naive_solver.
Qed.
Lemma fire_tag m r t tag : lok m r (Reading t) →
  wp (D4RTagPacket tag) (λ _ r', read_post m r t (D4RTAG tag) (Reading t) r') r.
Proof.
  intros Hk. unfold D4RTagPacket, Signal, on_base, QB.Signal, wp. mred. cbn.
  destruct (md r) eqn:E; (eapply read_calm; [done|apply ctl_silent; cbn; rewrite ?E; auto|done..]).
Qed.

(** The handlers, on the state after [UpdateClock]. *)
Lemma fire_WRITE r t x : lok WRITE r (Reading t) → readable WRITE r x → 
  wp (match x with
      | DEQUEUE n => DequeuePacket n
      | READBLOCK n => ReadBlockPacket n
      | ENDOFREAD => EndOfReadPacket
      | GROW l t => GrowPacket l t
      | D4RTAG t => D4RTagPacket t
      | _ => mthrow AssertFailed
      end) (λ _ r', read_post WRITE r t x (Reading t) r') r.
Proof.
  intros Hk [Hf Ho Hc Hfit]. pose proof (k_md _ _ _ Hk) as Hm. pose proof (k_ok _ _ _ Hk) as Hok.
  destruct x as [| n | n | | | | l th | tag | |]; try done; cbn in Hf.
  - unfold DequeuePacket, upd, wp. mred. rewrite Ho. cbn. rewrite bool_decide_true by done. cbn.
    pose proof (k_bc _ _ _ Hk) as Hb. cbn in Hb, Hc. rewrite u32_id by lia. split.
    + destruct Hk. constructor; unfold queue in *; cbn in *; try done; try lia.
      eapply ok_members; try done.
    + constructor; cbn; try done.
      * unfold credit. cbn. lia.
      * intros c _. unfold hold. cbn. by rewrite app_nil_r.
      * rewrite Ho. naive_solver.
  - unfold ReadBlockPacket, queue_Count, upd, wp. mred. rewrite Ho. cbn.
    rewrite bool_decide_true by done. cbn. unfold queue. cbn. rewrite (l_count _ _ _ (o_q _ Hok)).
    destruct (_ && _); (eapply read_calm; [done|silent|done..]).
  - unfold EndOfReadPacket, UnlockedShutdownReader, Signal, on_base, QB.Signal, upd, wp. mred.
    rewrite Ho. cbn. rewrite bool_decide_true by done. cbn. split.
    + destruct Hk. constructor; unfold queue in *; cbn in *; try done.
      eapply ok_members; try done.
    + constructor; cbn; try done.
      * unfold credit. cbn. lia.
      * intros c _. unfold hold. cbn. by rewrite app_nil_r.
      * naive_solver.
  - by apply fire_grow.
  - by apply fire_tag.
Qed.
Lemma fire_READ r t x : lok READ r (Reading t) → readable READ r x → amount x = 0 →
  wp (match x with
      | WRITEBLOCK n => WriteBlockPacket n
      | ENDOFWRITE => EndOfWritePacket
      | GROW l t => GrowPacket l t
      | D4RTAG t => D4RTagPacket t
      | _ => mthrow AssertFailed
      end) (λ _ r', read_post READ r t x (Reading t) r') r.
Proof.
  intros Hk [Hf Ho Hc Hfit] Ha. pose proof (k_md _ _ _ Hk) as Hm.
  pose proof (k_ok _ _ _ Hk) as Hok.
  destruct x as [n d| | | n | | | l th | tag | |]; try done; cbn in Hf, Ha; [lia|..].
  - unfold WriteBlockPacket, queue_Count, upd, wp. mred. rewrite Ho. cbn.
    rewrite bool_decide_true by done. cbn. unfold queue. cbn. rewrite (l_count _ _ _ (o_q _ Hok)).
    destruct (_ && _); (eapply read_calm; [done|silent|done..]).
  - unfold EndOfWritePacket, UnlockedShutdownWriter, Signal, on_base, QB.Signal, upd, wp. mred.
    rewrite Ho. cbn. rewrite bool_decide_true by done. cbn. split.
    + destruct Hk. constructor; unfold queue in *; cbn in *; try done.
      eapply ok_members; try done.
    + constructor; cbn; try done.
      * unfold credit. cbn. lia.
      * intros c _. unfold hold. cbn. by rewrite !app_nil_r.
      * naive_solver.
  - by apply fire_grow.
  - by apply fire_tag.
Qed.


(** Room is made for an enqueue packet, if there is not enough. *)
Definition made_room (r r' : rqueue) (t : bool) (n : Z) : Prop :=
  lok READ r' (Reading t) ∧ n ≤ q_room (queue r') ∧ chans r' = chans r ∧
  (∀ c, 0 ≤ c < chans r → q_bytes (queue r') c = q_bytes (queue r) c) ∧
  bytecount r' = bytecount r ∧ sentEnd r' = sentEnd r ∧ out r' = out r ∧
  writeshutdown (base r') = writeshutdown (base r) ∧ pendingGrow r' = pendingGrow r ∧
  readerlength r' = readerlength r ∧
  (n ≤ q_room (queue r) → queue r' = queue r).

Lemma room_ok r t n : lok READ r (Reading t) → 1 ≤ n → bytecount r + n < 4294967296 →
  fits r (ENQUEUE n []) →
  wp (if (rq_QueueLength (queue r) - q_count (queue r) <? n) || (rq_MaxThreshold (queue r) <? n)
      then TQ_UnlockedGrow (u32 (q_count (queue r) + n)) n else mret tt)
    (λ _ r', made_room r r' t n) r.
Proof.
  intros Hk Hn Hb Hfit. pose proof (k_ok _ _ _ Hk) as Hok. pose proof (o_q _ Hok) as Hq.
  pose proof (k_in _ _ _ Hk) as Hin. cbn in Hin, Hfit. pose proof (lok_low _ _ Hk) as Hlow.
  fold (queue r) in Hq. pose proof (l_bounds _ _ _ Hq) as Hbd. rewrite Hin in Hq.
  pose proof (l_room _ _ Hq) as Hr.
  destruct (_ || _) eqn:E.
  - rewrite orb_true_iff, !Z.ltb_lt in E. specialize (Hfit E).
    destruct (l_grow _ _ _ _ n Hq eq_refl Hfit) as (q' & Eg & Hq' & _ & _ & _ & _ & _).
    unfold TQ_UnlockedGrow, on_base, QB.UnlockedGrow, wp. mred. rewrite Hin.
    unfold queue in Eg |- *. rewrite Eg. cbn. fold (queue r) in Eg.
    assert (grown r (set_base r (set_que (base r) q')) (u32 (q_count (queue r) + n)) n) as Hg.
    { constructor; cbn; try done; [by rewrite Hin|apply Hk]. }
    destruct (lok_grown _ _ _ _ _ _ Hg Hk) as (Hk' & EN & EL & EM & EC & Hh); [by rewrite Hin|done|].
    pose proof (o_q _ (k_ok _ _ _ Hk')) as Hq2. cbn in Hq2. rewrite Hin in Hq2.
    pose proof (l_room _ _ Hq2) as Hr2. rewrite u32_id in EL by lia.
    unfold made_room, queue in *. cbn in *. split_and!; try done; try lia.
    intros c Hc. specialize (Hh c Hc). unfold hold in Hh. cbn in Hh. by rewrite !app_nil_r in Hh.
  - rewrite orb_false_iff, !Z.ltb_ge in E. unfold made_room. split_and!; try done. lia.
Qed.

(** The pointers for the rows of an enqueue packet can be given. *)
Lemma EnqueuePacket_ok r t p n d : lok READ r (Reading t) → readable READ r (ENQUEUE n d) →
  wp (EnqueuePacket_begin p n)
    (λ ps r', read_post READ r t (ENQUEUE n d) (Receiving t n ps d) r') r.
Proof.
  intros Hk [Hf Ho Hc Hfit]. pose proof (k_md _ _ _ Hk) as Hm. destruct Hf as (Hn & Hd).
  cbn in Hc. unfold EnqueuePacket_begin.
  destruct (UpdateClock_ok p r) as (r1 & E & Hl & Hca & Eo & Eb & Em & Epa).
  apply wp_bind. unfold wp at 1. rewrite E. apply wp_get.
  pose proof (lok_calm _ _ _ _ Hl Hca ltac:(congruence) Hk) as Hk1.
  pose proof (k_ok _ _ _ Hk1) as Hok1. destruct Hca as [Es Ebc].
  pose proof (c_que _ _ _ Hl) as Eq.
  eapply wp_eq; [unfold massert; by rewrite Em, Hm|].
  eapply wp_eq; [unfold massert; by rewrite Eb, Ho|]. cbv zeta.
  eapply wp_eq; [by apply Freespace_eq|]. eapply wp_eq; [by apply Count_eq|].
  apply wp_bind. eapply wp_mono.
  { apply (room_ok r1 t n Hk1 Hn); [lia|]. cbn in *. by rewrite Eq. }
  intros _ r2 (Hk2 & Hr2 & EN & Hb2 & Eb2 & Es2 & Eo2 & Ew2 & Ep2 & Erl & Hsame). apply wp_get.
  pose proof (o_q _ (k_ok _ _ _ Hk2)) as Hq2. pose proof (l_bounds _ _ _ Hq2) as Hbd2.
  pose proof (k_in _ _ _ Hk2) as Hin2. cbn in Hin2. fold (queue r2) in *.
  rewrite Eq in EN, Hb2, Hsame. rewrite Eq, <- EN.
  destruct (views_ok (rq_GetRawEnqueuePtr (inenqueue (base r2)) (queue r2) n)
    (q_wview (queue r2)) (chans r2)) as (ps & Eps & Hv);
    [lia|intros i Hi; by eapply l_enq_ptr; [..|lia]|].
  apply wp_bind. unfold wp at 1, mlift. rewrite Eps.
  pose proof (k_bc _ _ _ Hk2) as Hbc2. cbn in Hbc2. split.
  - destruct Hk2. constructor; unfold queue in *; cbn in *; try done.
    + destruct k_ok0 as [_ He Hde]. constructor; cbn; [by eapply l_set_enq| |done].
      rewrite k_thr0. lia.
    + split; [lia|]. split; [done|]. rewrite Ew2, Eb, EN. by split_and!.
    + lia.
  - constructor; unfold queue in *; cbn; try congruence.
    + unfold credit. cbn. lia.
    + intros c Hcc. unfold hold. cbn. unfold queue in *. rewrite Hb2 by done.
      by rewrite app_nil_r.
    + rewrite Ew2, Eb. naive_solver.
    + intros Hp. rewrite Ep2. by apply Hl.
    + intros _ Hx. specialize (Hx n d eq_refl). rewrite Hsame by done.
      split; [by rewrite Erl; apply Hl|done].
Qed.

Lemma takes_clock m r r1 t x p' r' : ctl r r1 [] → calm r r1 → base r1 = base r →
  out r1 = out r → takes m r1 (Reading t) r' p' x → takes m r (Reading t) r' p' x.
Proof.
  intros Hl [Es Ebc] Eb Eo []. pose proof (c_que _ _ _ Hl) as Eq. pose proof (c_rl _ _ _ Hl) as Er.
  pose proof (c_grow _ _ _ Hl) as Hg.
  unfold credit, hold in *. rewrite Eq, ?Eb, ?Es, ?Ebc, ?Eo, ?Er in *.
  constructor; unfold credit, hold; try done. auto.
Qed.

Lemma wp_fire p (o : Op unit) (Φ : pc → rqueue → Prop) t r r1 : UpdateClock p r = (Ok tt, r1) →
  wp o (λ _ r', Φ (Reading t) r') r1 → wp ((UpdateClock p ;; o) ;; mret (Reading t)) Φ r.
Proof.
  intros E Ho. apply wp_bind, wp_bind. unfold wp at 1. rewrite E.
  eapply wp_mono; [exact Ho|]. done.
Qed.

(** A packet is read. *)
Lemma read_ok m r t p : lok m r (Reading t) → readable m r (body p) →
  wp (read_step t p) (read_post m r t (body p)) r.
Proof.
  intros Hk Hr.
  destruct (UpdateClock_ok p r) as (r1 & E & Hl & Hca & Eo & Eb & Em & Epa).
  pose proof (lok_calm _ _ _ _ Hl Hca ltac:(congruence) Hk) as Hk1.
  pose proof (c_que _ _ _ Hl) as Eq.
  assert (readable m r1 (body p)) as Hr1.
  { destruct Hr as [Hf Ho Hc Hfit]. destruct Hca as [Es Ebc].
    constructor; rewrite ?Eq, ?Eb, ?Ebc; try done.
    unfold fits, can_grow_to, length_for in *. by rewrite Eq, (c_alpha _ _ _ Hl), Em. }
  assert (∀ p' r', read_post m r1 t (body p) p' r' → read_post m r t (body p) p' r') as Hpost.
  { intros p' r' [? ?]. split; [done|]. by eapply takes_clock. }
  unfold read_step, fire.
  destruct m; [pose proof (fire_READ r1 t (body p) Hk1 Hr1) as Hw
              |pose proof (fire_WRITE r1 t (body p) Hk1 Hr1) as Hw];
    destruct (body p) eqn:Ebody; try (by destruct Hr as [[]]).
  { apply wp_bind. eapply wp_mono; [by apply EnqueuePacket_ok|]. done. }
  all: eapply wp_fire; [exact E|].
  all: (eapply wp_mono; [first [exact Hw|exact (Hw eq_refl)]|]); cbn; auto.
Qed.

(** ** The calls of the node *)
Record moves (m : mode) (r : rqueue) (p : pc) (r' : rqueue) (moved : Z → list Z) : Prop := {
  n_out : out r' = out r;
  n_bc : bytecount r' = bytecount r;
  n_hold c : 0 ≤ c < chans r →
    match m with
    | WRITE => hold m r' p c = hold m r p c ++ moved c
    | READ => hold m r p c = moved c ++ hold m r' p c
    end;
  n_shut : match m with
           | WRITE => readshutdown (base r') = readshutdown (base r)
           | READ => writeshutdown (base r') = writeshutdown (base r)
           end;
  n_sent : sentEnd r' = sentEnd r;
  n_chans : chans r' = chans r;
  n_sizes : pendingGrow r = false → pendingGrow r' = false →
    readerlength r' = readerlength r ∧
    rq_QueueLength (queue r') = rq_QueueLength (queue r) ∧
    rq_MaxThreshold (queue r') = rq_MaxThreshold (queue r);
  n_grow : pendingGrow r = true → pendingGrow r' = true }.

(** [safe m p o r]: whether [o] returns or throws, the half stays in order, and
    no byte moves. *)
Definition safe {A} (m : mode) (p : pc) (o : Op A) (r : rqueue) : Prop :=
  lok m r p → unlocked p = true →
  lok m (o r).2 p ∧ moves m r p (o r).2 (λ _, []).

Lemma moves_refl m r p : moves m r p r (λ _, []).
Proof. constructor; try done; [|by destruct m]. intros c _. destruct m; by rewrite ?app_nil_r. Qed.
Lemma moves_trans m r1 p r2 r3 : moves m r1 p r2 (λ _, []) → moves m r2 p r3 (λ _, []) →
  moves m r1 p r3 (λ _, []).
Proof.
  intros [] []. constructor; try congruence; auto.
  - intros c Hc. specialize (n_hold0 c Hc). rewrite <- n_chans0 in Hc. specialize (n_hold1 c Hc).
    destruct m; rewrite ?app_nil_r in *; cbn in *; congruence.
  - destruct m; congruence.
  - intros E1 E3. destruct (pendingGrow r2) eqn:E2; [by rewrite n_grow1 in E3|].
    destruct n_sizes0 as (? & ? & ?), n_sizes1 as (? & ? & ?); try done. split_and!; congruence.
Qed.

Lemma safe_bind {A B} m p (o : Op A) (k : A → Op B) r : safe m p o r →
  (∀ a r', o r = (Ok a, r') → safe m p (k a) r') → safe m p (o ≫= k) r.
Proof.
  intros Ho Hk Hl Hu. destruct (Ho Hl Hu) as [Hl1 Hm1]. unfold mbind, M_bind.
  destruct (o r) as [[a|e] r1] eqn:E; [|done]. cbn in *.
  destruct (Hk a r1 eq_refl Hl1 Hu). split; [done|]. by eapply moves_trans.
Qed.
Lemma safe_same {A} m p (o : Op A) r : (o r).2 = r → safe m p o r.
Proof. intros E Hl _. rewrite E. split; [done|apply moves_refl]. Qed.
Lemma safe_calm {A} m p (o : Op A) r : ctl r (o r).2 [] → calm r (o r).2 → out (o r).2 = out r →
  (pendingAction r = true → pendingAction (o r).2 = true) →
  (pendingGrow r = true → pendingGrow (o r).2 = true) → safe m p o r.
Proof.
  intros Hl Hc Ho Ha Hg Hk _. split; [by eapply lok_calm|]. destruct Hc as [Es Eb].
  pose proof (c_que _ _ _ Hl) as Eq. constructor; rewrite ?Eq; try done.
  - intros c _. unfold hold. rewrite Eq. destruct m; by rewrite ?app_nil_r.
  - pose proof (c_shut _ _ _ Hl) as Hs. rewrite (k_md _ _ _ Hk) in Hs. by destruct m, Hs.
  - intros _ _. split; [apply Hl|done].
Qed.
Lemma safe_get {A} m p (k : rqueue → Op A) r : safe m p (k r) r → safe m p (mget ≫= k) r.
Proof. done. Qed.
Lemma safe_Signal m p r : safe m p RQ.Signal r.
Proof. apply safe_calm; try done. silent. Qed.
Lemma safe_upd m p f r :
  (∀ s, que (f s) = que s ∧ inenqueue (f s) = inenqueue s ∧ indequeue (f s) = indequeue s ∧
    enqueuethresh (f s) = enqueuethresh s ∧ dequeuethresh (f s) = dequeuethresh s ∧
    terminated (f s) = terminated s ∧ readshutdown (f s) = readshutdown s ∧
    writeshutdown (f s) = writeshutdown s) → safe m p (upd f) r.
Proof.
  intros Hf. specialize (Hf (base r)) as (?&?&?&?&?&?&E1&E2).
  apply safe_calm; try done. apply ctl_silent; cbn; auto. rewrite E1, E2. by destruct (md r).
Qed.

(** The functions that only look. *)
Lemma look_ReadBlocked r : (RQ.ReadBlocked r).2 = r.
Proof.
  unfold ReadBlocked, on_base, CheckTerminated, UnlockedCount, queue_Count. mred.
  destruct r; cbn. destruct (terminated _); [done|]. cbn. by destruct (rq_Count _).
Qed.
Lemma look_WriteBlocked r : (RQ.WriteBlocked r).2 = r.
Proof.
  unfold WriteBlocked, QB.WriteBlocked, on_base, CheckTerminated, QB.UnlockedFreespace. mred.
  destruct r; cbn. destruct (terminated _); [done|]. cbn. by destruct (rq_Freespace _).
Qed.

Lemma safe_wait_enter m p m' r : safe m p (wait_enter m') r.
Proof.
  unfold wait_enter. apply safe_bind; [by apply safe_same|intros a r' [= <- <-]].
  apply safe_bind; [by apply safe_same|intros _ r' [= _ <-]].
  apply safe_bind; [apply safe_calm; try done; silent|intros _ r' _].
  apply safe_bind; [apply safe_Signal|intros _ r2 _]. by apply safe_same.
Qed.
Lemma safe_wait_data m p c r : safe m p (RQ.WaitForData c) r.
Proof.
  unfold RQ.WaitForData.
  apply safe_bind; [apply safe_same, look_ReadBlocked|intros b r' _].
  apply safe_bind; [by apply safe_same|intros r1 r2 _]. destruct (_ && _); [by apply safe_same|].
  apply safe_bind; [apply safe_same, look_ReadBlocked|intros b' r3 _].
  destruct (_ && _); [by apply safe_same|].
  apply safe_bind; [by apply safe_upd; intros; split_and!|intros _ r4 _]. by apply safe_same.
Qed.
Lemma safe_wait_freespace m p c r : safe m p (RQ.WaitForFreespace c) r.
Proof.
  unfold RQ.WaitForFreespace.
  apply safe_bind; [apply safe_same, look_WriteBlocked|intros b r' _].
  apply safe_bind; [by apply safe_same|intros r1 r2 _]. destruct (_ && _); [by apply safe_same|].
  apply safe_bind; [apply safe_same, look_WriteBlocked|intros b' r3 _].
  destruct (_ && _); [by apply safe_same|].
  apply safe_bind; [by apply safe_upd; intros; split_and!|intros _ r4 _]. by apply safe_same.
Qed.

(** Growing. *)
Lemma safe_grow_loop m p l t r :
  inenqueue (base r) && indequeue (base r) = false → can_grow_to r l t →
  safe m p (grow_loop l t) r.
Proof.
  intros Hii Hcan. apply safe_get. destruct (pendingGrow r && negb (dead r)).
  { apply safe_bind; [apply safe_Signal|]. intros _ r' _. by apply safe_same. }
  intros Hk Hu.
  pose proof (l_bounds _ _ _ (o_q _ (k_ok _ _ _ Hk))) as Hb. change (que (base r)) with (queue r) in Hb.
  assert (0 ≤ Z.max (rq_MaxThreshold (queue r)) t) as Ht by lia.
  pose proof (set_queue_lengths_ok m r p l (Z.max (rq_MaxThreshold (queue r)) t) Hk Hii Ht Hcan) as Hw.
  unfold wp in Hw. unfold mbind, M_bind.
  destruct (set_queue_lengths _ _ r) as [[u|] r1] eqn:E; [|done].
  destruct Hw as (Hg & Epg & Epa). unfold RQ.Signal, on_base, QB.Signal. mred. cbn.
  match goal with |- lok _ ?x _ ∧ _ => set (r2 := x) end.
  assert (grown r r2 (length_for r l (Z.max (rq_MaxThreshold (queue r)) t))
    (Z.max (rq_MaxThreshold (queue r)) t)) as Hg2.
  { destruct Hg as [? ? Eb ? ? ?]. constructor; try done. unfold r2, queue. cbn.
    unfold queue in Eb. rewrite Eb. done. }
  destruct (lok_grown m r r2 p _ _ Hg2 Hk Hii) as (Hk2 & EN & _ & _ & _ & Hh); [done|].
  split; [done|]. pose proof (g_md _ _ _ _ Hg2) as (E1 & E2 & E3 & E4).
  pose proof (g_base _ _ _ _ Hg2) as Eb. constructor; try done.
  - intros c Hc. rewrite Hh by done. destruct m; by rewrite ?app_nil_r.
  - rewrite Eb. by destruct m.
Qed.
Lemma safe_grow m p l t r :
  inenqueue (base r) && indequeue (base r) = false → can_grow_to r l t →
  safe m p (RQ.UnlockedGrow l t) r.
Proof.
  intros Hii Hcan. unfold RQ.UnlockedGrow.
  apply safe_get. destruct ((l <=? _) && (t <=? _)); [by apply safe_same|by apply safe_grow_loop].
Qed.
Lemma safe_grow_turn m p l t r :
  inenqueue (base r) && indequeue (base r) = false → can_grow_to r l t →
  safe m p (@grow_turn Q P _ l t) r.
Proof.
  intros Hii Hcan. unfold grow_turn.
  apply safe_bind; [by apply safe_grow|intros w r' _]. destruct w; [by apply safe_same|].
  apply safe_bind; [apply safe_Signal|intros _ r2 _]. by apply safe_same.
Qed.

(** Holding a pointer. *)
Lemma safe_hold_enq p r b th : (b = true → 0 ≤ th ≤ q_room (queue r)) →
  (inenqueue (base r) = true → b = true) →
  safe WRITE p (upd (λ s, set_enq s th b)) r.
Proof.
  intros Hth Hb Hk Hu. cbn. split; [|constructor; try done; intros c _; by rewrite app_nil_r].
  destruct Hk. constructor; unfold queue in *; cbn in *; try done.
  destruct k_ok0 as [Hq He Hd]. constructor; cbn; [|done|done].
  destruct b; [by eapply l_set_enq|]. destruct (inenqueue (base r)); [by specialize (Hb eq_refl)|done].
Qed.
Lemma safe_hold_deq p r b th : (b = true → 0 ≤ th ≤ q_avail (queue r)) →
  (indequeue (base r) = true → b = true) →
  safe READ p (upd (λ s, set_deq s th b)) r.
Proof.
  intros Hth Hb Hk Hu. cbn. split; [|constructor; try done; intros c _; by rewrite app_nil_r].
  destruct Hk. constructor; unfold queue in *; cbn in *; try done.
  destruct k_ok0 as [Hq He Hd]. constructor; cbn; [|done|done].
  destruct b; [by eapply l_set_deq|]. destruct (indequeue (base r)); [by specialize (Hb eq_refl)|done].
Qed.

Lemma safe_enq_turn p t c g r : enq_ready (base r) t c →
  (inenqueue (base r) = false → enqueuethresh (base r) = t) →
  turn_fits r t (readrequest (base r)) → safe WRITE p (@enq_turn Q P _ t c g) r.
Proof.
  intros (Ht & Hc & Hin) Hth [Hf1 Hf2] Hk Hu. revert Hk Hu. 
  unfold enq_turn. apply safe_get. cbv zeta. intros Hk Hu. 
  pose proof (k_ok _ _ _ Hk) as Hok. pose proof (o_q _ Hok) as Hq. revert Hk Hu.
  destruct (Z.le_gt_cases t (q_room (que (base r)))) as [Hr|Hr].
  - destruct (l_enq_ptr _ _ _ t c Hq Hc Hr) as (ptr & E & _).
    apply safe_bind; [by apply safe_same|]. rewrite E. intros a r' [= <- <-].
    rewrite bool_decide_true by done.
    apply safe_bind; [|intros _ r' _; by apply safe_same].
    apply safe_hold_enq; [|done]. intros _.
    destruct (inenqueue (base r)) eqn:Ei; [by apply (o_enq _ Hok)|].
    rewrite Hth by done. unfold queue. lia.
  - assert (inenqueue (base r) = false) as Hi.
    { destruct (inenqueue (base r)) eqn:E; [|done]. pose proof (o_enq _ Hok E).
      specialize (Hin eq_refl). lia. }
    apply safe_bind; [by apply safe_same|]. rewrite Hi in *. rewrite (l_enq_null _ _ t c Hq Hc Hr).
    intros a r' [= <- <-]. rewrite bool_decide_false by (by intros []).
    destruct (readshutdown _ || writeshutdown _); [by apply safe_same|].
    destruct ((_ <? t) && _).
    { apply safe_bind; [|intros x r' _; by apply safe_same].
      apply safe_grow_turn; [by rewrite Hi|done]. }
    assert (((if g then mret false else RQ.ReadBlocked) r).2 = r) as Hl
      by (destruct g; [done|apply look_ReadBlocked]).
    apply safe_bind; [by apply safe_same|]. intros rb r' E. rewrite E in Hl. cbn in Hl. subst r'.
    destruct (rb && _).
    + apply safe_bind; [|intros x r' _; by apply safe_same].
      apply safe_grow_turn; [by rewrite Hi|done].
    + apply safe_bind; [by apply safe_upd; intros; split_and!|intros _ r1 _].
      apply safe_bind; [apply safe_wait_enter|intros c1 r2 _].
      apply safe_bind; [apply safe_wait_freespace|intros x r3 _]. by apply safe_same.
Qed.

Lemma safe_deq_turn p t c r : deq_ready (base r) t c →
  (indequeue (base r) = false → dequeuethresh (base r) = t) →
  turn_fits r t (writerequest (base r)) → safe READ p (@deq_turn Q P _ t c) r.
Proof.
  intros (Ht & Hc & Hin) Hth [Hf1 Hf2].
  unfold deq_turn. apply safe_get. cbv zeta. intros Hk Hu.
  pose proof (k_ok _ _ _ Hk) as Hok. pose proof (o_q _ Hok) as Hq. revert Hk Hu.
  destruct (Z.le_gt_cases t (q_avail (que (base r)))) as [Hr|Hr].
  - destruct (l_deq_ptr _ _ _ t c Hq Hc Hr) as (ptr & E & _).
    apply safe_bind; [by apply safe_same|]. rewrite E. intros a r' [= <- <-].
    rewrite bool_decide_true by done. cbn [orb].
    apply safe_bind; [|intros _ r' _; by apply safe_same].
    apply safe_hold_deq; [|done]. intros _.
    destruct (indequeue (base r)) eqn:Ei; [by apply (o_deq _ Hok)|].
    rewrite Hth by done. unfold queue. lia.
  - assert (indequeue (base r) = false) as Hi.
    { destruct (indequeue (base r)) eqn:E; [|done]. pose proof (o_deq _ Hok E).
      specialize (Hin eq_refl). lia. }
    apply safe_bind; [by apply safe_same|]. rewrite Hi in *. rewrite (l_deq_null _ _ t c Hq Hc Hr).
    intros a r' [= <- <-]. rewrite bool_decide_false by (by intros []). cbn [orb].
    destruct (writeshutdown _).
    { apply safe_bind; [by apply safe_same|intros _ r' _; by apply safe_same]. }
    destruct (readshutdown _); [by apply safe_same|].
    destruct ((_ <? t) && _).
    { apply safe_grow_turn; [by rewrite Hi, andb_false_r|done]. }
    pose proof (look_WriteBlocked r) as Hl.
    apply safe_bind; [by apply safe_same|]. intros wb r' E. rewrite E in Hl. cbn in Hl. subst r'.
    destruct (wb && _).
    + apply safe_grow_turn; [by rewrite Hi, andb_false_r|done].
    + apply safe_bind; [by apply safe_upd; intros; split_and!|intros _ r1 _].
      apply safe_bind; [apply safe_wait_enter|intros c1 r2 _]. apply safe_wait_data.
Qed.

(** Bytes written, and bytes read. *)
Lemma half_Enqueue_ok r p n : lok WRITE r p → inenqueue (base r) = true →
  writeshutdown (base r) = false → 0 ≤ n ≤ enqueuethresh (base r) →
  lok WRITE (RQ.Enqueue n r).2 p ∧
  moves WRITE r p (RQ.Enqueue n r).2 (λ c, take (Z.to_nat n) (q_pending (queue r) c)).
Proof.
  intros Hk Hi Hw Hn. pose proof (k_ok _ _ _ Hk) as Hok. pose proof (o_q _ Hok) as Hq.
  pose proof (o_enq _ Hok Hi) as He. fold (queue r) in *.
  pose proof (l_bounds _ _ _ Hq) as Hbd.
  destruct (l_enqueue _ _ _ n Hq) as (q' & E & Hq' & EN & EL & EM & EC & Ha & Hr & Hb); [lia|].
  pose proof (k_md _ _ _ Hk) as Hm.
  unfold RQ.Enqueue, InternalEnqueue, NotifyData, UnlockedCount, queue_Count, Signal, on_base,
    QB.Signal, upd. mred. unfold queue in *. cbn. rewrite Hw. cbn. rewrite Hm, bool_decide_true by done. cbn. rewrite E. cbn.
    rewrite (l_count _ _ _ Hq'). cbn. rewrite Hm. cbn.
  match goal with |- context [if ?b then _ else _] => destruct b end; cbn; (split; [
    destruct Hk; constructor; unfold queue in *; cbn in *; try done; [
      destruct Hok as [_ _ Hd]; constructor; cbn; [done|done|intros Hie; specialize (Hd Hie); lia]
    | unfold pc_ok, queue in *; cbn; rewrite EN; destruct p; try done; [
        destruct k_pc0 as (? & ? & [? ?]); split; [done|]; split; [lia|]; split; [done|]; auto
      | destruct k_pc0; split; [done|lia] ]
    | intros _ Hs Hrs Htm; cbn in *; destruct (k_done0 eq_refl Hs Hrs Htm); congruence ]
  | constructor; unfold queue in *; cbn; rewrite ?EN, ?EL, ?EM; try done;
    intros c Hc; rewrite Hb, drop_app_le by
      (done || (destruct (l_len _ _ _ c Hq Hc) as [Hl _]; unfold len in Hl;
        pose proof (k_pc _ _ _ Hk) as Hp; destruct p; cbn in *; try lia;
        unfold queue in *; lia)); done ]).
Qed.

Lemma half_Dequeue_ok r p n : lok READ r p → indequeue (base r) = true →
  readshutdown (base r) = false → 0 ≤ n ≤ dequeuethresh (base r) →
  lok READ (RQ.Dequeue n r).2 p ∧
  moves READ r p (RQ.Dequeue n r).2 (λ c, take (Z.to_nat n) (q_bytes (queue r) c)).
Proof.
  intros Hk Hi Hw Hn. pose proof (k_ok _ _ _ Hk) as Hok. pose proof (o_q _ Hok) as Hq.
  pose proof (o_deq _ Hok Hi) as He. fold (queue r) in *.
  pose proof (l_bounds _ _ _ Hq) as Hbd.
  destruct (l_dequeue _ _ _ n Hq) as (q' & E & Hq' & EN & EL & EM & EC & Hwv & Hr & Hb); [lia|].
  pose proof (k_md _ _ _ Hk) as Hm.
  unfold RQ.Dequeue, InternalDequeue, RQ.NotifyFreespace, QB.NotifyFreespace,
    QB.UnlockedFreespace, Signal, on_base, QB.Signal, upd. mred. unfold queue in *. cbn.
  rewrite Hw. cbn. rewrite Hm, bool_decide_true by done. cbn. rewrite E. cbn. rewrite (l_free _ _ _ Hq'). cbn.
  match goal with |- context [if ?b then _ else _] => destruct b end; cbn; (split; [
    destruct Hk; constructor; unfold queue in *; cbn in *; try done; [
      destruct Hok as [_ Hd _]; constructor; cbn; [done|intros Hie; specialize (Hd Hie); lia|done]
    | unfold pc_ok, queue in *; cbn; rewrite EN; destruct p; try done; [
        destruct k_pc0 as (? & [? ?] & ?); split; [lia|]; split; [|done]; split; [done|]; auto
      | destruct k_pc0 as (? & ? & Hpd); split; [lia|]; split; [done|]; intros c Hc;
        rewrite <- Hpd by done; destruct (Hb c Hc) as [_ Hpp]; rewrite <- Hpp by done;
        rewrite take_take; f_equal; lia ]
    | lia ]
  | constructor; unfold queue in *; cbn; rewrite ?EN, ?EL, ?EM; try done;
    intros c Hc; destruct (Hb c Hc) as [-> _]; by rewrite app_assoc, take_drop ]).
Qed.

Lemma start_ok m r p t : 1 ≤ t →
  safe m p (on_base (match m with WRITE => enq_start t | READ => deq_start t end)) r.
Proof.
  intros Ht Hk Hu. destruct m; unfold on_base, enq_start, deq_start, CheckTerminated; mred;
    destruct (terminated (base r)); cbn;
    try (by split; [destruct r|destruct r; apply moves_refl]).
  - destruct (indequeue (base r)) eqn:E; cbn.
    + destruct (t <=? dequeuethresh (base r)); by split; [destruct r|destruct r; apply moves_refl].
    + apply (safe_hold_deq p r false t); try done; congruence.
  - destruct (inenqueue (base r)) eqn:E; cbn.
    + destruct (t <=? enqueuethresh (base r)); by split; [destruct r|destruct r; apply moves_refl].
    + apply (safe_hold_enq p r false t); try done; congruence.
Qed.

Lemma store_ok r p c ptr d q : lok WRITE r p → inenqueue (base r) = true →
  0 ≤ c < chans r → q_wview (queue r) c ptr → len d ≤ enqueuethresh (base r) →
  ptr_store (queue r) ptr d = Ok q →
  lok WRITE (set_base r (set_que (base r) q)) p ∧
  moves WRITE r p (set_base r (set_que (base r) q)) (λ _, []).
Proof.
  intros Hk Hi Hc Hv Hd E. pose proof (k_ok _ _ _ Hk) as Hok. pose proof (o_q _ Hok) as Hq.
  pose proof (o_enq _ Hok Hi) as He. fold (queue r) in *.
  destruct (l_store _ _ _ c ptr d Hq Hc Hv) as (q1 & E1 & Hq1 & EN & EL & EM & EC & ER & EA & _ &
    Hr & Hb); [lia|]. assert (q1 = q) as -> by congruence.
  split.
  - destruct Hk. constructor; unfold queue in *; cbn in *; rewrite ?EC; try done.
    + destruct Hok as [_ ? ?]. constructor; cbn; by rewrite ?ER, ?EA.
    + unfold pc_ok, queue in *. cbn. rewrite EN, EA. destruct p; try done.
      destruct k_pc0 as (? & ? & [? ?]). split; [done|]. split; [done|]. split; [done|]. auto.
    + intros Hm Hs Hrs Htm. unfold queue. cbn in *. rewrite EC. by apply k_done0.
  - constructor; unfold queue in *; cbn; rewrite ?EN, ?EL, ?EM; try done.
    intros c' Hc'. destruct (Hb c' Hc') as [-> _]. by rewrite app_nil_r.
Qed.

Lemma safe_tag m p r :
  safe m p (match m with WRITE => UnlockedSignalWriterTagChanged
            | READ => UnlockedSignalReaderTagChanged end) r.
Proof.
  destruct m; (apply safe_get, safe_bind; [by apply safe_same|intros _ r1 _]);
    (apply safe_bind; [apply safe_calm; try done; silent|intros _ r2 _]);
    (apply safe_bind; [apply safe_calm; try done; silent|intros _ r3 _]); apply safe_Signal.
Qed.
(** [ThresholdQueue::WaitForData] and [WaitForFreespace]. *)
Lemma safe_base_data m p r : safe m p (on_base QB.WaitForData) r.
Proof.
  intros Hk Hu. pose proof (k_ok _ _ _ Hk) as Hok.
  unfold on_base, QB.WaitForData. mred. rewrite ReadBlocked_eq by done.
  destruct (terminated _); [by split; [destruct r|destruct r; apply moves_refl]|].
  destruct (read_blocked _); [by split; [destruct r|destruct r; apply moves_refl]|]. cbn.
  by apply (safe_upd m p (λ s, set_readrequest s 0)).
Qed.
Lemma safe_base_freespace m p r : safe m p (on_base QB.WaitForFreespace) r.
Proof.
  intros Hk Hu. pose proof (k_ok _ _ _ Hk) as Hok.
  unfold on_base, QB.WaitForFreespace. mred. rewrite WriteBlocked_eq by done.
  destruct (terminated _); [by split; [destruct r|destruct r; apply moves_refl]|].
  destruct (write_blocked _); [by split; [destruct r|destruct r; apply moves_refl]|]. cbn.
  by apply (safe_upd m p (λ s, set_writerequest s 0)).
Qed.

(** A call keeps its half in order, and moves the bytes it says. *)
Lemma node_ok m h h' moved : node_step m h h' moved → lok m (rq h) (apc h) →
  unlocked (apc h) = true →
  apc h' = apc h ∧ lok m (rq h') (apc h) ∧ moves m (rq h) (apc h) (rq h') moved.
Proof.
  intros Hs Hk Hu. split; [by destruct Hs|].
  pose proof (k_md _ _ _ Hk) as Hm.
  destruct Hs; cbn [call rq]; try (by apply half_Enqueue_ok); try (by apply half_Dequeue_ok);
    try (by eapply store_ok).
  - apply (safe_calm WRITE (apc h) UnlockedShutdownWriter); try done.
    apply ctl_silent; cbn; auto. by rewrite Hm.
  - apply (safe_calm READ (apc h) UnlockedShutdownReader); try done.
    apply ctl_silent; cbn; auto. by rewrite Hm.
  - apply (safe_tag WRITE); done.
  - apply (safe_tag READ); done.
  - apply (safe_calm m (apc h) (mmodify (λ r, set_nodetag r t) ;; RQ.Signal)); try done. silent.
  - by apply safe_wait_freespace.
  - by apply safe_wait_data.
  - by apply safe_base_freespace.
  - by apply safe_base_data.
  - apply (safe_calm m (apc h) (mmodify (λ r, set_tagchanged r b c))); try done. silent.
  - by apply (start_ok WRITE).
  - by apply (start_ok READ).
  - by apply safe_enq_turn.
  - by apply safe_deq_turn.
  - by apply safe_grow.
  - by apply safe_grow_loop.
  - by apply safe_Signal.
  - apply (safe_calm m (apc h) UnlockedShutdown); try done. silent.
Qed.

End half_queue.
End RH.
