(* ===== verification/RemoteStream.v ===== *)
(** The two halves of a [RemoteQueue] together: they share nothing but what is in
    the socket, the member [out] of each.

    [step] interleaves the action threads, the packets they read and the calls of
    the nodes; [inv] says how the halves and the socket fit together.  The
    theorems are about every state that can be reached: the bytes the reader is
    given are those that were written, and the credit by which the writer's half
    measures the reader's is never wrong. *)
From Stdlib Require Import SpecFloat.
From S2P Require Import Prelude.
From S2P Require Import QueueInterface.
From S2P Require Import ThresholdQueue.
From S2P Require Import QueueBase.
From S2P Require Import D4R.
From S2P Require Import RemoteQueue.
From S2P Require Import RemoteHalf.

Module RS.
Import QB RQ RH.

Section stream.
Context {Q P : Type} `{RawQueue Q P} `{!RawQueueLaws Q P}.
Notation rqueue := (@rqueue Q).
Notation Op := (@Op Q).
Notation half := (@half Q P).
Notation pc := (@pc P).
Notation chans r := (rq_NumChannels (queue r)).

Record system := mk_sys {
  W : half; R : half; written : Z → list Z; consumed : Z → list Z }.
Definition side (m : mode) (x : system) : half := match m with WRITE => W x | READ => R x end.
Definition set_side (m : mode) (h : half) (x : system) : system :=
  match m with
  | WRITE => mk_sys h (R x) (written x) (consumed x)
  | READ => mk_sys (W x) h (written x) (consumed x)
  end.

(** The interleavings; [step false] are those in which no node makes its half
    grow.  The thread that reads the end of the stream has read every packet. *)
Inductive step (grow : bool) : system → system → Prop :=
  | S_own m x eof :
      (eof = true → sentEnd (rq (side (peer m) x)) = true ∧ out (rq (side (peer m) x)) = []) →
      step grow x (set_side m (run (own_step eof (apc (side m x))) (rq (side m x))) x)
  | S_read m x term p rest :
      apc (side m x) = Reading term → out (rq (side (peer m) x)) = p :: rest →
      fits (rq (side m x)) (body p) →
      step grow x
        (set_side m (run (read_step term p) (rq (side m x)))
          (set_side (peer m)
            (mk_half (set_out (rq (side (peer m) x)) rest) (apc (side (peer m) x))) x))
  | S_node m x h' moved :
      unlocked (apc (side m x)) = true → node_step m (side m x) h' moved →
      grow = true ∨ pendingGrow (rq h') = pendingGrow (rq (side m x)) →
      step grow x
        (let y := set_side m h' x in
         match m with
         | WRITE => mk_sys (W y) (R y) (append (written x) moved) (consumed x)
         | READ => mk_sys (W y) (R y) (written x) (append (consumed x) moved)
         end)
  (* a kernel sets its flag, without the lock *)
  | S_terminate m x :
      step grow x
        (set_side m (call (on_base (mmodify set_terminated)) (side m x)) x).

(** ** Both halves *)
Definition closing (sent : bool) (e : message) (l : list message) (shut : bool) : Prop :=
  if sent then shut = false ∧ (∃ k, l = k ++ [e] ∧ e ∉ k) ∨ shut = true ∧ l = []
  else shut = false ∧ e ∉ l.

Record inv (x : system) : Prop := {
  v_w : lok WRITE (rq (W x)) (apc (W x));
  v_r : lok READ (rq (R x)) (apc (R x));
  v_chans : chans (rq (R x)) = chans (rq (W x));
  v_outw : Forall (from WRITE (chans (rq (W x)))) (msgs (rq (W x)));
  v_outr : Forall (from READ (chans (rq (W x)))) (msgs (rq (R x)));
  v_credit : credit (rq (W x)) (apc (W x)) =
    credit (rq (R x)) (apc (R x)) + amounts (msgs (rq (W x))) + amounts (msgs (rq (R x)));
  v_stream c : 0 ≤ c < chans (rq (W x)) →
    written x c = consumed x c ++ hold READ (rq (R x)) (apc (R x)) c ++
      rows (msgs (rq (W x))) c ++ hold WRITE (rq (W x)) (apc (W x)) c;
  v_endw : closing (sentEnd (rq (W x))) ENDOFWRITE (msgs (rq (W x)))
    (writeshutdown (base (rq (R x))));
  v_endr : closing (sentEnd (rq (R x))) ENDOFREAD (msgs (rq (R x)))
    (readshutdown (base (rq (W x)))) }.

Lemma closing_send s s' e l k b : closing s e l b → ended e s s' k → closing s' e (l ++ k) b.
Proof.
  unfold closing, ended. destruct s.
  - intros Hc [-> ->]. by rewrite app_nil_r.
  - intros [-> Hl]. destruct s'; [|set_solver].
    intros (k' & -> & Hk). left. split; [done|]. exists (l ++ k'). by rewrite app_assoc; set_solver.
Qed.
Lemma closing_open s e x l b : closing s e (x :: l) b → b = false.
Proof. unfold closing. destruct s; naive_solver. Qed.
Lemma closing_take s e x l b b' : closing s e (x :: l) b → (b' = true ↔ b = true ∨ x = e) →
  b = false ∧ closing s e l b'.
Proof.
  unfold closing. destruct s.
  - intros [[-> (k & Ek & Hk)]|[_ ?]] Hb; [|done]. split; [done|].
    destruct k as [|y k]; cbn in Ek.
    + injection Ek as -> ->. right. split; [naive_solver|done].
    + injection Ek as -> ->. left. split; [|exists k; set_solver].
      destruct b'; [|done]. destruct (proj1 Hb eq_refl); [done|set_solver].
  - intros [-> Hl] Hb. split; [done|]. destruct b'; [|set_solver].
    destruct (proj1 Hb eq_refl); [done|set_solver].
Qed.

Lemma run_wp (o : Op pc) Φ r : wp o Φ r → Φ (apc (run o r)) (rq (run o r)).
Proof. unfold wp, run. by destruct (o r) as [[?|?] ?]. Qed.

(** A step of an action thread, and a packet read, in a state that has [inv]. *)
Lemma own_posted m x eof : inv x →
  (eof = true → sentEnd (rq (side (peer m) x)) = true ∧ out (rq (side (peer m) x)) = []) →
  let h := run (own_step eof (apc (side m x))) (rq (side m x)) in
  post m (rq (side m x)) (apc (side m x)) (apc h) (rq h).
Proof.
  intros Hv He h.
  apply (run_wp _ (post m (rq (side m x)) (apc (side m x)))), own_ok; [destruct m; apply Hv|]. intros Ht.
  destruct (He Ht) as [Hse Ho]. destruct m; cbn in *.
  - pose proof (v_endw _ Hv) as Hc. unfold closing, msgs in Hc. rewrite Hse, Ho in Hc.
    destruct Hc as [[_ (k & Ek & _)]|[-> _]]; [by destruct k|apply orb_true_r].
  - pose proof (v_endr _ Hv) as Hc. unfold closing, msgs in Hc. rewrite Hse, Ho in Hc.
    destruct Hc as [[_ (k & Ek & _)]|[-> _]]; [by destruct k|done].
Qed.

Lemma read_posted m x t p rest : inv x → apc (side m x) = Reading t →
  out (rq (side (peer m) x)) = p :: rest → fits (rq (side m x)) (body p) →
  let h := run (read_step t p) (rq (side m x)) in
  read_post m (rq (side m x)) t (body p) (apc h) (rq h).
Proof.
  intros Hv Hp Ho Hf h.
  apply (run_wp _ (read_post m (rq (side m x)) t (body p))), read_ok; [rewrite <- Hp; destruct m; apply Hv|].
  assert (msgs (rq (side (peer m) x)) = body p :: (body <$> rest)) as Em
    by (unfold msgs; by rewrite Ho).
  destruct Hv. destruct m; cbn in *.
  - rewrite Em in *. apply Forall_cons in v_outw0 as [Hx Hl].
    pose proof (closing_open _ _ _ _ _ v_endw0) as Hb.
    constructor; [by rewrite v_chans0|done| |done].
    pose proof (from_amounts _ _ _ v_outr0). pose proof (from_amounts _ _ _ Hl).
    pose proof (k_bc _ _ _ v_w0). rewrite Hp in *. unfold credit in v_credit0. cbn in v_credit0.
    pose proof (k_pc _ _ _ v_w0). destruct (apc (W x)); cbn in *; try done; lia.
  - rewrite Em in *. apply Forall_cons in v_outr0 as [Hx Hl].
    pose proof (closing_open _ _ _ _ _ v_endr0) as Hb.
    constructor; [done|done| |done].
    pose proof (from_amounts _ _ _ v_outw0). pose proof (from_amounts _ _ _ Hl).
    pose proof (k_bc _ _ _ v_r0) as Hb1. rewrite Hp in *. unfold credit in v_credit0.
    cbn in v_credit0. pose proof (l_bounds _ _ _ (o_q _ (k_ok _ _ _ v_r0))) as Hb2.
    fold (queue (rq (R x))) in Hb2. pose proof (k_pc _ _ _ v_r0).
    destruct (apc (R x)); cbn in *; try done; lia.
Qed.

Lemma inv_own m x eof : inv x →
  (eof = true → sentEnd (rq (side (peer m) x)) = true ∧ out (rq (side (peer m) x)) = []) →
  inv (set_side m (run (own_step eof (apc (side m x))) (rq (side m x))) x).
Proof.
  intros Hv He. destruct (own_posted m x eof Hv He) as [Hk [l Hs]]. set (h := run _ _) in *.
  destruct Hv, Hs. assert (Forall (from m (chans (rq (side m x)))) l) as Hf.
  { eapply Forall_impl; [exact e_from0|]. by intros ? []. }
  destruct m; cbn in *; constructor; cbn; rewrite ?e_out0, ?e_shut0, ?e_chans0; try done.
  - rewrite <- v_chans0. apply Forall_app_2; [by rewrite v_chans0|done].
  - rewrite amounts_app. lia.
  - intros c Hc. rewrite e_hold0 by congruence. auto.
  - by eapply closing_send.
  - by apply Forall_app_2.
  - rewrite amounts_app. lia.
  - intros c Hc. rewrite v_stream0, (e_hold0 c Hc), rows_app, <- !app_assoc by done. done.
  - by eapply closing_send.
Qed.

Lemma inv_read m x t p rest : inv x → apc (side m x) = Reading t →
  out (rq (side (peer m) x)) = p :: rest → fits (rq (side m x)) (body p) →
  inv (set_side m (run (read_step t p) (rq (side m x)))
    (set_side (peer m) (mk_half (set_out (rq (side (peer m) x)) rest) (apc (side (peer m) x))) x)).
Proof.
  intros Hv Hp Ho Hf. destruct (read_posted m x t p rest Hv Hp Ho Hf) as [Hk []].
  set (h := run _ _) in *.
  assert (msgs (rq (side (peer m) x)) = body p :: (body <$> rest)) as Em
    by (unfold msgs; by rewrite Ho).
  destruct Hv. destruct m; cbn in *; rewrite Em, Hp in *.
  - destruct (closing_take _ _ _ _ _ _ v_endw0 t_shut0) as [Hb Hcl].
    apply Forall_cons in v_outw0 as [Hx Hl].
    constructor; unfold msgs, queue in *; cbn in *; rewrite ?t_out0, ?t_sent0; try done; try congruence.
    + by destruct v_w0.
    + unfold credit in *. cbn in *. lia.
    + intros c Hc. rewrite v_stream0, t_hold0 by congruence. unfold rows. cbn.
      rewrite <- !app_assoc. done.
  - destruct (closing_take _ _ _ _ _ _ v_endr0 t_shut0) as [Hb Hcl].
    apply Forall_cons in v_outr0 as [Hx Hl].
    constructor; unfold msgs, queue in *; cbn in *; rewrite ?t_out0, ?t_sent0, ?t_chans0; try done; try congruence.
    + by destruct v_r0.
    + unfold credit in *. cbn in *. lia.
    + intros c Hc. rewrite v_stream0, t_hold0 by done.
      destruct (body p); try by rewrite app_nil_r. by destruct Hx.
Qed.

Lemma inv_node m x h' moved : inv x → unlocked (apc (side m x)) = true →
  node_step m (side m x) h' moved →
  inv (let y := set_side m h' x in
       match m with
       | WRITE => mk_sys (W y) (R y) (append (written x) moved) (consumed x)
       | READ => mk_sys (W y) (R y) (written x) (append (consumed x) moved)
       end).
Proof.
  intros Hv Hu Hs. destruct (node_ok _ _ _ _ Hs) as (Ea & Hk & []); [destruct m; apply Hv|done|].
  destruct Hv. destruct m; cbn in *; constructor; unfold msgs, credit in *; cbn in *;
    rewrite ?Ea, ?n_out0, ?n_bc0, ?n_sent0, ?n_shut0, ?n_chans0; try done.
  - intros c Hc. unfold append. rewrite v_stream0, n_hold0, <- !app_assoc by congruence. done.
  - intros c Hc. unfold append. by rewrite v_stream0, n_hold0, <- !app_assoc by done.
Qed.

Lemma half_terminate_ok m r p : lok m r p →
  let r' := set_base r (set_terminated (base r)) in
  lok m r' p.
Proof.
  intros [Hm Hok Hin Hth Hpc Hbc Hrl Hd Hr Hdn Ht]. cbn.
  constructor; unfold queue in *; cbn; try done.
  eapply ok_members; try done.
Qed.

Lemma stream_inv_step g x y : step g x y → inv x → inv y.
Proof.
  intros [m x0 eof He|m x0 t p rest Hp Ho Hf|m x0 h' moved Hu Hs _|m x0] Hv.
  - by apply inv_own.
  - by apply inv_read.
  - by apply inv_node.
  - destruct Hv. destruct m; (constructor; cbn; try done; [by apply half_terminate_ok]).
Qed.

(** The two halves just connected, with the attributes of one queue: each has
    the [ThresholdQueue] of the length [QueueLength] gives for it. *)
Definition initial (x : system) : Prop :=
  ∃ qw qr rkey wkey l t a mw d4r grow_w grow_r tag_w tag_r node_w node_r,
    (q_inv false false qw ∧ q_count qw = 0) ∧ (q_inv false false qr ∧ q_count qr = 0) ∧
    rq_NumChannels qr = rq_NumChannels qw ∧ 0 ≤ t < 4294967296 ∧
    rq_MaxThreshold qw ≤ rq_MaxThreshold qr ∧
    Z.max (QueueLength l t a READ) (rq_MaxThreshold qw) ≤ rq_QueueLength qr ∧
    x = mk_sys (mk_half (RQ.make WRITE qw rkey wkey l t a mw d4r false grow_w tag_r node_w) Start)
               (mk_half (RQ.make READ qr rkey wkey l t a mw d4r false grow_r tag_w node_r) Start)
               (λ _, []) (λ _, []).

Lemma half_make_ok m q rkey wkey l t a mw d4r grow tag node : q_inv false false q → q_count q = 0 →
  0 ≤ t < 4294967296 → lok m (RQ.make m q rkey wkey l t a mw d4r false grow tag node) Start.
Proof.
  intros Hq Hc Ht. constructor; unfold queue; cbn; try done; try by destruct m.
  - destruct m; lia.
  - apply (QueueLength_range l t a READ). lia.
Qed.

Lemma inv_initial x : initial x → inv x.
Proof.
  intros (qw & qr & rkey & wkey & l & t & a & mw & d & gw & gr & tw & tr & nw & nr & Hi).
  destruct Hi as ([Hw Cw] & [Hr Cr] & Hn & Ht & _ & _ & ->).
  constructor; cbn; try done; try by apply half_make_ok.
  - intros c Hc. unfold queue in *. cbn in *.
    destruct (l_len _ _ _ c Hw Hc) as [Lw _]. destruct (l_len _ _ _ c Hr) as [Lr _]; [congruence|].
    rewrite Cw in Lw. rewrite Cr in Lr. unfold len in *.
    by destruct (q_bytes qw c), (q_bytes qr c).
  - split; [done|]. set_solver.
  - split; [done|]. set_solver.
Qed.

Lemma stream_reachable_inv g x y : initial x → rtc (step g) x y → inv y.
Proof.
  intros Hi%inv_initial Hs. induction Hs; [done|]. apply IHHs. by eapply stream_inv_step.
Qed.

(** C4: what the reader's half has given to its node and holds is, channel by
    channel, the beginning of what the writer's node has enqueued, whatever the
    halves do, and no assertion of the protocol fails in an action thread; and
    when the reader's half has been told that the stream has ended, by a writer
    that was not itself cut off or terminated, it is all of it. *)
Theorem remote_queue_is_a_stream x y : initial x → rtc (step true) x y →
  (∀ c, 0 ≤ c < chans (rq (R y)) →
    (∃ rest, written y c = consumed y c ++ q_bytes (queue (rq (R y))) c ++ rest) ∧
    (writeshutdown (base (rq (R y))) = true → readshutdown (base (rq (W y))) = false →
     terminated (base (rq (W y))) = false →
     written y c = consumed y c ++ q_bytes (queue (rq (R y))) c)) ∧
  (∀ e, apc (W y) ≠ Fault e ∧ apc (R y) ≠ Fault e).
Proof.
  intros Hi Hs. pose proof (stream_reachable_inv _ _ _ Hi Hs) as [Hw Hr Hn _ _ _ Hst He _].
  split.
  - intros c Hc. rewrite Hn in Hc. specialize (Hst c Hc). split.
    { rewrite Hst. unfold hold at 1. rewrite <- app_assoc. by eexists. }
    intros Hsw Hsr Htm. unfold closing in He. rewrite Hsw in He.
    destruct (sentEnd (rq (W y))) eqn:Es; [|by destruct He].
    destruct He as [[? _]|[_ Hm]]; [done|]. rewrite Hm in Hst.
    destruct (k_done _ _ _ Hw eq_refl Es Hsr Htm) as [_ Hc0].
    destruct (l_len _ _ _ c (o_q _ (k_ok _ _ _ Hw)) Hc) as [Lw _].
    fold (queue (rq (W y))) in Lw. rewrite Hc0 in Lw. unfold len in Lw.
    assert (q_bytes (queue (rq (W y))) c = []) as E by (by destruct (q_bytes _ c)).
    assert (received (apc (R y)) c = []) as E2.
    { pose proof (k_pc _ _ _ Hr) as Hp. destruct (apc (R y)); try done; cbn in Hp.
      - destruct Hp as (_ & _ & _ & ?). congruence.
      - destruct Hp as (_ & [_ ?] & _). congruence. }
    rewrite Hst. unfold hold. rewrite E, E2, drop_nil. cbn. by rewrite !app_nil_r.
  - intros e. pose proof (k_pc _ _ _ Hw). pose proof (k_pc _ _ _ Hr).
    by split; intros E; rewrite E in *.
Qed.

(** ** Flow control *)
Definition capacity (x : system) : Z :=
  Z.max (readerlength (rq (W x))) (rq_MaxThreshold (queue (rq (W x)))).
Record paced (x : system) : Prop := {
  p_still : pendingGrow (rq (W x)) = false ∧ pendingGrow (rq (R x)) = false;
  p_none : Forall (λ m, ¬ is_grow m) (msgs (rq (W x))) ∧ Forall (λ m, ¬ is_grow m) (msgs (rq (R x)));
  p_cap : capacity x ≤ rq_QueueLength (queue (rq (R x)));
  p_thr : rq_MaxThreshold (queue (rq (W x))) ≤ rq_MaxThreshold (queue (rq (R x)));
  p_count : bytecount (rq (W x)) + pend (apc (W x)) ≤ capacity x;
  p_pend : pend (apc (W x)) ≤ rq_MaxThreshold (queue (rq (W x)));
  p_small : Forall (λ m, match m with
                         | ENQUEUE n _ => n ≤ rq_MaxThreshold (queue (rq (W x)))
                         | _ => True
                         end) (msgs (rq (W x))) }.

(** The credit is what is, or will be, on the reader's side. *)
Lemma credit_bounds x : inv x →
  q_count (queue (rq (R x))) + counted (apc (R x)) + amounts (msgs (rq (W x))) ≤
  bytecount (rq (W x)) + counted (apc (W x)) ∧
  counted (apc (W x)) ≤ pend (apc (W x)) ∧ 0 ≤ counted (apc (R x)).
Proof.
  intros Hv. pose proof (v_credit _ Hv) as E. unfold credit in E.
  pose proof (from_amounts _ _ _ (v_outr _ Hv)). pose proof (k_bc _ _ _ (v_r _ Hv)) as [Hb _].
  pose proof (k_pc _ _ _ (v_w _ Hv)) as Hp. pose proof (k_pc _ _ _ (v_r _ Hv)) as Hp2.
  split; [lia|]. destruct (apc (W x)), (apc (R x)); cbn in *; done || lia.
Qed.
Lemma paced_room x n d rest : inv x → paced x → plain (apc (R x)) = true →
  msgs (rq (W x)) = ENQUEUE n d :: rest → n ≤ q_room (queue (rq (R x))).
Proof.
  intros Hv Hp Hpl Em. destruct (credit_bounds x Hv) as (Hc & Hu & _). destruct Hp.
  pose proof (v_outw _ Hv) as Ho. rewrite Em in *.
  apply Forall_cons in Ho as [_ Ho]. pose proof (from_amounts _ _ _ Ho). cbn in Hc.
  apply Forall_cons in p_small0 as [Hn _].
  pose proof (k_ok _ _ _ (v_r _ Hv)) as Hok. pose proof (o_q _ Hok) as Hq.
  pose proof (k_in _ _ _ (v_r _ Hv)) as Hin. cbn in Hin. rewrite Hpl in Hin. cbn in Hin.
  rewrite Hin in Hq. fold (queue (rq (R x))) in Hq. rewrite (l_room _ _ Hq).
  assert (counted (apc (R x)) = 0) by by destruct (apc (R x)). lia.
Qed.

Lemma paced_step x y : step false x y → inv x → paced x → paced y.
Proof.
  intros [m x0 eof He|m x0 t p rest Hp Ho Hf|m x0 h' moved Hu Hs Hg|m x0] Hv Hpc.
  - destruct (own_posted m x0 eof Hv He) as [_ [l []]]. set (h := run _ _) in *.
    destruct Hpc as [[G1 G2] [N1 N2] ? ? ? ? ?]. unfold capacity in *.
    destruct e_sizes0 as (E1 & E2 & E3).
    assert (Forall (λ m, ¬ is_grow m) l) as Hl.
    { eapply Forall_impl; [exact e_from0|]. intros z [_ Hz] Hg. specialize (Hz Hg).
      destruct m; cbn in *; congruence. }
    destruct m; cbn in *; constructor; unfold capacity in *; cbn;
      rewrite ?E1, ?E2, ?E3, ?e_out0; try done; try (by split; auto); try (split; [|done]); try (split; [done|]);
      try (by apply Forall_app_2).
    + destruct (e_cap0 eq_refl) as (? & ? & ?). lia.
    + destruct (e_cap0 eq_refl) as (? & ? & ?). lia.
    + destruct (e_cap0 eq_refl) as (? & ? & Hs). apply Forall_app_2; [done|].
      eapply Forall_impl; [exact Hs|]. intros []; try done. lia.
  - destruct (read_posted m x0 t p rest Hv Hp Ho Hf) as [_ []]. set (h := run _ _) in *.
    assert (msgs (rq (side (peer m) x0)) = body p :: (body <$> rest)) as Em
      by (unfold msgs; by rewrite Ho).
    assert (∀ n d, body p = ENQUEUE n d → m = READ → n ≤ q_room (queue (rq (side m x0)))) as Hroom.
    { intros n d Eb ->. cbn in *. rewrite Eb in Em. eapply paced_room; [done..| |exact Em].
      by rewrite Hp. }
    destruct Hpc as [[G1 G2] [N1 N2] ? ? ? ? ?]. unfold capacity in *.
    destruct m; cbn in *; rewrite Em in *.
    + apply Forall_cons in N1 as [Hng N1]. apply Forall_cons in p_small0 as [_ Hsm].
      destruct t_sizes0 as (E1 & E2 & E3); [done|by intros; eapply Hroom|].
      constructor; unfold msgs, capacity, queue in *; cbn; rewrite ?t_out0, ?E2, ?E3; try done. by split; auto.
    + apply Forall_cons in N2 as [Hng N2].
      destruct t_sizes0 as (E1 & E2 & E3); [done|intros n d Eb|].
      { pose proof (v_outr _ Hv) as Hov. rewrite Em in Hov. apply Forall_cons in Hov as [Hov _].
        by rewrite Eb in Hov. }
      pose proof (v_outr _ Hv) as Hov. rewrite Em in Hov. apply Forall_cons in Hov as [Hov _].
      pose proof (from_amounts READ _ [body p] ltac:(by constructor)) as Ha. cbn in Ha.
      assert (pend (apc h) = 0 ∧ counted (apc h) = 0) as [Ep Ec].
      { specialize (t_plain0 eq_refl). by destruct (apc h). }
      unfold credit in t_credit0. rewrite Hp in *. cbn in *.
      constructor; unfold msgs, capacity, queue in *; cbn; rewrite ?t_out0, ?E1, ?E2, ?E3; try done;
        try (by split; auto).
      * lia.
      * lia.
  - destruct (node_ok _ _ _ _ Hs) as (Ea & Hk & []); [destruct m; apply Hv|done|].
    destruct Hg as [?|Hg]; [done|]. destruct Hpc as [[G1 G2] [N1 N2] ? ? ? ? ?].
    unfold capacity in *.
    destruct m; cbn in *; (destruct n_sizes0 as (E1 & E2 & E3); [congruence..|]);
      constructor; unfold msgs, capacity, queue in *; cbn; rewrite ?Ea, ?E1, ?E2, ?E3, ?n_out0, ?n_bc0;
      try done; split; congruence.
  - destruct Hpc. destruct m; by constructor.
Qed.

Lemma paced_initial x : initial x → paced x.
Proof.
  intros (qw & qr & rkey & wkey & l & t & a & mw & d & gw & gr & tw & tr & nw & nr & Hi).
  destruct Hi as ([Hw Cw] & [Hr Cr] & Hn & Ht & Hth & Hcap & ->).
  pose proof (l_bounds _ _ _ Hw).
  constructor; unfold capacity, queue in *; cbn in *; try done; lia.
Qed.
Lemma reachable_paced x y : initial x → rtc (step false) x y → inv y ∧ paced y.
Proof.
  intros Hi Hs. assert (inv x ∧ paced x) as Hx by (split; [by apply inv_initial|by apply paced_initial]).
  clear Hi. induction Hs as [|x y z Hxy _ IH]; [done|]. apply IH. destruct Hx as [Hv Hp].
  split; [by eapply stream_inv_step|by eapply paced_step].
Qed.

(** C33: flow control.  What is on the reader's side, with what is on its way
    there, never exceeds the writer's [bytecount]; where no half has grown, the
    next enqueue packet always fits, so the reader's half never has to grow
    silently; and nothing is left lying: when both action threads wait with
    nothing in the socket, the writer's half is empty or the reader's holds its
    whole share of the queue. *)
Theorem flow_control x y g : initial x → rtc (step g) x y →
  q_count (queue (rq (R y))) + counted (apc (R y)) + amounts (msgs (rq (W y))) ≤
    bytecount (rq (W y)) + counted (apc (W y)) ∧
  (g = false → ∀ t n d rest, apc (R y) = Reading t → msgs (rq (W y)) = ENQUEUE n d :: rest →
    n ≤ q_room (queue (rq (R y)))) ∧
  (apc (W y) = Wait → apc (R y) = Wait → out (rq (W y)) = [] → out (rq (R y)) = [] →
   (∀ m, let r := rq (side m y) in
     pendingAction r = false ∧ dead r = false ∧ sentEnd r = false) →
   q_count (queue (rq (W y))) = 0 ∨ readerlength (rq (W y)) ≤ q_count (queue (rq (R y)))).
Proof.
  intros Hi Hs. pose proof (stream_reachable_inv _ _ _ Hi Hs) as Hv. split_and!.
  - by destruct (credit_bounds y Hv).
  - intros -> t n d rest Hp Em. destruct (reachable_paced _ _ Hi Hs) as [_ Hpc].
    eapply paced_room; [done..| |done]. by rewrite Hp.
  - intros Hpw Hpr Eow Eor Hq. destruct (Hq WRITE) as (? & ? & ?), (Hq READ) as (? & ? & ?).
    pose proof (k_rest _ _ _ (v_w _ Hv) Hpw) as Hrw. pose proof (k_rest _ _ _ (v_r _ Hv) Hpr) as Hrr.
    pose proof (v_credit _ Hv) as E. unfold credit, msgs in E. rewrite Hpw, Hpr, Eow, Eor in E.
    cbn in *. destruct Hrw as [?|?]; [done..|by left|right]. rewrite <- Hrr by done. lia.
Qed.

(** A reader that is short of bytes while the writer is blocked asks its half to
    grow by what both want; if the halves together are already as long, nothing
    grows, and the loop of [GetRawDequeuePtr] starts over, with the lock held:
    the bytes on their way are never read. *)
Lemma deq_turn_stuck r t c : q_inv (inenqueue (base r)) false (queue r) →
  indequeue (base r) = false → growable (base r) = true → terminated (base r) = false →
  readshutdown (base r) = false → writeshutdown (base r) = false →
  0 ≤ c < chans r → q_count (queue r) < t ≤ rq_MaxThreshold (queue r) →
  rq_QueueLength (queue r) - q_count (queue r) < writerequest (base r) →
  u32 (writerequest (base r) + t) ≤ UnlockedQueueLength r →
  deq_turn t c r = (Ok (@Again P), (RQ.Signal r).2).
Proof.
  intros Hq Hi Hg Ht Hr Hw Hc [Hct Htm] Hwr Hl. pose proof (l_avail _ _ Hq) as Hav.
  unfold queue in *.
  assert (rq_GetRawDequeuePtr false (que (base r)) t c = Ok None) as E
    by (eapply l_deq_null; [done..|lia]).
  unfold deq_turn, grow_turn, RQ.UnlockedGrow, RQ.WriteBlocked, QB.WriteBlocked, CheckTerminated,
    QB.UnlockedFreespace, RQ.Signal, on_base, QB.Signal. mred. cbn. rewrite Hi, E.
  rewrite bool_decide_false by (by intros []). rewrite Hw, Hr. cbn.
  rewrite (proj2 (Z.ltb_ge _ _)) by lia. cbn. rewrite Ht. cbn. rewrite (l_free _ _ _ Hq). cbn.
  rewrite Hw, Hr, (proj2 (Z.ltb_lt _ _)), Hg by lia. cbn. unfold queue. cbn.
  change (UnlockedQueueLength (set_base r (base r))) with (UnlockedQueueLength r).
  by rewrite (proj2 (Z.leb_le _ _)), (proj2 (Z.leb_le _ _)) by lia.
Qed.
Lemma starved_reader_spins t c fuel : ∀ r, q_inv (inenqueue (base r)) false (queue r) →
  indequeue (base r) = false → growable (base r) = true → terminated (base r) = false →
  readshutdown (base r) = false → writeshutdown (base r) = false →
  0 ≤ c < chans r → q_count (queue r) < t ≤ rq_MaxThreshold (queue r) →
  rq_QueueLength (queue r) - q_count (queue r) < writerequest (base r) →
  u32 (writerequest (base r) + t) ≤ UnlockedQueueLength r →
  (@deq_loop Q P _ fuel t c r).1 = Ok Again.
Proof.
  induction fuel as [|k IH]; [done|]. intros r. intros. cbn [deq_loop].
  unfold mbind at 1, M_bind at 1. rewrite deq_turn_stuck by done. by apply IH.
Qed.

End stream.

(** ** The theorems at a concrete queue: eight bytes shared in halves *)
Section example.
#[local] Instance ex_raw : RawQueue TQ.tqueue TQ.ptr := TQ.tq_raw 1 false.
#[local] Instance ex_laws : RawQueueLaws TQ.tqueue TQ.ptr :=
  TQ.tq_laws 1 false (eq_refl : 0 < 1).
Notation system := (@system TQ.tqueue TQ.ptr).

Definition one_half : spec_float := S754_finite false 4503599627370496 (-53).
Lemma half_of_nine : QueueLength 9 2 one_half READ = 5 ∧ QueueLength 9 2 one_half WRITE = 4.
Proof. by vm_compute. Qed.

Definition ex_make (m : mode) : @rqueue TQ.tqueue :=
  RQ.make m TQ.example_queue 10 11 8 2 one_half 0 true false true (D4R.new_tag 1)
    (Some (D4R.new_tag 2)).
Definition ex_start : system :=
  mk_sys (mk_half (ex_make WRITE) Start) (mk_half (ex_make READ) Start) (λ _, []) (λ _, []).
Lemma ex_stream_initial : initial ex_start.
Proof.
  exists TQ.example_queue, TQ.example_queue, 10, 11, 8, 2, one_half, 0, true, true, true,
    (D4R.new_tag 1), (D4R.new_tag 1), (Some (D4R.new_tag 2)), (Some (D4R.new_tag 2)).
  split_and!; try exact (TQ.example_inv false false); done || by vm_compute.
Qed.

Definition own (m : mode) (x : system) : system :=
  set_side m (run (own_step false (apc (side m x))) (rq (side m x))) x.
Definition call_writer {A} (o : Op A) (moved : Z → list Z) (x : system) : system :=
  mk_sys (call o (W x)) (R x) (append (written x) moved) (consumed x).
Definition recv (x : system) (t : bool) (p : packet) : system :=
  mk_sys (mk_half (set_out (rq (W x)) (tail (out (rq (W x))))) (apc (W x)))
    (run (read_step t p) (rq (R x))) (written x) (consumed x).

(** The writer's node asks for two bytes, stores them, enqueues them and ends. *)
Definition ex_asked : system :=
  call_writer (enq_turn 2 0 false) (λ _, []) (call_writer (on_base (enq_start 2)) (λ _, []) ex_start).
Definition ex_stored_queue : TQ.tqueue :=
  match TQ.ptr_store TQ.example_queue (TQ.mk_ptr 0 0) [7; 8] with
  | Ok q => q | Err _ => TQ.example_queue
  end.
Definition ex_stored : system :=
  call_writer (upd (λ s, set_que s ex_stored_queue)) (λ _, []) ex_asked.
Definition ex_ended : system :=
  call_writer UnlockedShutdownWriter (λ _, [])
    (call_writer (Enqueue 2) (λ c, take 2 (q_pending (queue (rq (W ex_stored))) c)) ex_stored).
Lemma ex_step_own g m x y : y = own m x → rtc (step g) ex_start x → rtc (step g) ex_start y.
Proof. intros -> Hx. eapply rtc_r; [exact Hx|]. by apply (S_own g m x false). Qed.
Lemma ex_step_call {A} g x (o : Op A) moved : unlocked (apc (W x)) = true →
  node_step WRITE (W x) (call o (W x)) moved →
  pendingGrow (rq (call o (W x))) = pendingGrow (rq (W x)) →
  rtc (step g) ex_start x → rtc (step g) ex_start (call_writer o moved x).
Proof.
  intros Hu Hn Hg Hx. eapply rtc_r; [exact Hx|].
  apply (S_node g WRITE x (call o (W x)) moved); [done..|by right].
Qed.
Lemma ex_step_recv g x t p rest : apc (R x) = Reading t → out (rq (W x)) = p :: rest →
  fits (rq (R x)) (body p) → rtc (step g) ex_start x → rtc (step g) ex_start (recv x t p).
Proof.
  intros Hp Ho Hf Hx. eapply rtc_r; [exact Hx|]. unfold recv. rewrite Ho.
  by apply (S_read g READ x t p rest).
Qed.

(** The two action threads until the bytes are in the socket, *)
Definition ex_sent : system :=
  own READ (own READ (own WRITE (own WRITE (own WRITE (own WRITE (own WRITE (own WRITE
    (own WRITE ex_ended)))))))).
Definition ex_packet : packet := mk_packet 0 1 (ENQUEUE 2 [[7; 8]]).
(** and until the reader's half has read them, and the end. *)
Definition ex_received : system := own READ (own READ (recv ex_sent false ex_packet)).
Definition ex_last : packet := mk_packet 0 2 ENDOFWRITE.
Definition ex_over : system := recv ex_received false ex_last.

Lemma ex_can_grow (r : @rqueue TQ.tqueue) l t :
  let t' := Z.max (rq_MaxThreshold (queue r)) t in
  TQ.can_grow 1 (queue r) (length_for r l t') t' → can_grow_to r l t.
Proof. done. Qed.
Lemma ex_reach_ended g : rtc (step g) ex_start ex_ended.
Proof.
  unfold ex_ended, ex_stored, ex_asked.
  apply ex_step_call; [by vm_compute|apply N_shutdown_writer|by vm_compute|].
  apply ex_step_call; [by vm_compute|by apply N_enqueue; vm_compute|by vm_compute|].
  apply ex_step_call; [by vm_compute| |by vm_compute|].
  { by apply N_store with (c := 0) (p := TQ.mk_ptr 0 0) (d := [7; 8]); vm_compute. }
  apply ex_step_call; [by vm_compute| |by vm_compute|].
  { apply N_turn_writer; [by split_and!; vm_compute|by vm_compute|].
    split; apply ex_can_grow; (split; [constructor|]); by vm_compute. }
  apply ex_step_call; [by vm_compute|by apply N_start_writer|by vm_compute|]. apply rtc_refl.
Qed.
Lemma ex_reach_sent g : rtc (step g) ex_start ex_sent.
Proof. repeat (eapply ex_step_own; [reflexivity|]). apply ex_reach_ended. Qed.
Lemma ex_reach_over g : rtc (step g) ex_start ex_over.
Proof.
  apply ex_step_recv with (rest := []); [by vm_compute..|done|].
  do 2 (eapply ex_step_own; [reflexivity|]).
  apply ex_step_recv with (rest := [ex_last]); [by vm_compute..| |apply ex_reach_sent].
  intros [Hx|Hx]; by vm_compute in Hx.
Qed.

Lemma remote_queue_is_a_stream_witness :
  written ex_over 0 = consumed ex_over 0 ++ q_bytes (queue (rq (R ex_over))) 0 ∧
  written ex_over 0 = [7; 8].
Proof.
  split; [|by vm_compute].
  apply (remote_queue_is_a_stream ex_start ex_over ex_stream_initial (ex_reach_over true));
    [split; by vm_compute|by vm_compute..].
Defined.

Lemma flow_control_witness :
  msgs (rq (W ex_sent)) = [ENQUEUE 2 [[7; 8]]; ENDOFWRITE] ∧ 2 ≤ q_room (queue (rq (R ex_sent))).
Proof.
  split; [by vm_compute|].
  destruct (flow_control ex_start ex_sent false ex_stream_initial (ex_reach_sent false)) as (_ & Hr & _).
  apply (Hr eq_refl false 2 [[7; 8]] [ENDOFWRITE]); by vm_compute.
Defined.

(** A queue of twenty-four bytes with a maximum threshold of twelve: the reader's
    half has received twelve bytes and the word that the writer waits for room
    for twelve more; its node takes eight, and asks for five. *)
Definition ex_attr : TQ.queue_attr := TQ.mk_attr 24 12 1 false.
Definition ex_reader : @rqueue TQ.tqueue :=
  RQ.make READ (TQ.make_length 1 false ex_attr 12) 10 11 24 12 one_half 0 true false true
    (D4R.new_tag 1) (Some (D4R.new_tag 2)).
Definition ex_starved : @rqueue TQ.tqueue :=
  (( ps ← EnqueuePacket_begin (mk_packet 0 1 (ENQUEUE 12 [])) 12;
     EnqueuePacket_read ps [seqZ 1 12] ;; EnqueuePacket_end 12 ;;
     fire (mk_packet 0 2 (WRITEBLOCK 12)) ;;
     on_base (deq_start 8) ;; (@deq_turn _ TQ.ptr _ 8 0) ;; Dequeue 8 ;;
     on_base (deq_start 5) : @Op TQ.tqueue unit) ex_reader).2.
Lemma ex_starved_inv : q_inv false false (queue ex_starved).
Proof.
  assert (q_inv false false (TQ.make_length 1 false ex_attr 12)) as H0
    by (by destruct (TQ.tq_make_ok 1 false ex_attr 12)).
  apply l_set_enq in H0.
  destruct (l_store _ _ _ 0 (TQ.mk_ptr 0 0) (seqZ 1 12) H0) as (q1 & E1 & H1 & _); [by vm_compute..|].
  vm_compute in E1. injection E1 as <-.
  destruct (l_enqueue _ _ _ 12 H1) as (q2 & E2 & H2 & _); [by vm_compute|].
  vm_compute in E2. injection E2 as <-.
  destruct (l_dequeue _ _ _ 8 H2) as (q3 & E3 & H3 & _); [by vm_compute|].
  vm_compute in E3. injection E3 as <-. vm_compute in H3 |- *. exact H3.
Qed.
Lemma starved_reader_spins_example fuel :
  q_count (queue ex_starved) = 4 ∧ (@deq_loop _ TQ.ptr _ fuel 5 0 ex_starved).1 = Ok Again.
Proof.
  split; [by vm_compute|]. apply starved_reader_spins; try by vm_compute.
  replace (inenqueue (base ex_starved)) with false by (by vm_compute). exact ex_starved_inv.
Qed.
End example.
End RS.
