(* ===== verification/Fairness.v ===== *)
(** Termination under weak fairness: threads take turns in any order, some of
    them for ever, and yet the whole reaches its end. *)
From S2P Require Import Prelude.

Section fair_termination.
(** [step l]: a step of the thread [l], or of the surroundings when it is [None]. *)
Context {S R T : Type} (step : option R → S → S → Prop) (enabled : R → S → Prop).

(** An infinite run in which no thread that can go on is left waiting for ever. *)
Record fair_run (run : nat → S) (who : nat → option R) : Prop := {
  f_step n : step (who n) (run n) (run (Datatypes.S n));
  f_fair r n : ∃ m, (n ≤ m)%nat ∧ (who m = Some r ∨ ¬ enabled r (run m)) }.

(** A measure that no step increases, and for every state a thread that can go
    on, whose steps decrease it, and that stays the one until the measure
    decreases. *)
Context (inv final : S → Prop) `{∀ x, Decision (final x)}
  (lt : T → T → Prop) (measure : S → T) (helpful : S → R).
Context (Hwf : well_founded lt)
  (Hinv : ∀ l x y, inv x → step l x y → inv y)
  (Hen : ∀ x, inv x → ¬ final x → enabled (helpful x) x)
  (Hhelp : ∀ x y, inv x → ¬ final x → step (Some (helpful x)) x y → lt (measure y) (measure x))
  (Hother : ∀ l x y, inv x → ¬ final x → step l x y →
    lt (measure y) (measure x) ∨ measure y = measure x ∧ helpful y = helpful x).

Lemma run_inv run who n : fair_run run who → inv (run O) → inv (run n).
Proof. intros Hr H0. induction n; [done|]. by eapply Hinv, f_step. Qed.

(** Up to step [m], either the end, or the measure has decreased, or nothing has. *)
Lemma run_until run who n d : fair_run run who → inv (run O) →
  (∃ k, final (run k)) ∨
  (∃ k, lt (measure (run k)) (measure (run n))) ∨
  measure (run (d + n)%nat) = measure (run n) ∧ helpful (run (d + n)%nat) = helpful (run n) ∧
  ¬ final (run (d + n)%nat).
Proof.
  intros Hr H0. induction d as [|d IH]; cbn.
  - destruct (decide (final (run n))); [left; by eauto|]. right. right. done.
  - destruct IH as [?|[?|(Em & Eh & Hf)]]; [by left|by right; left|].
    destruct (decide (final (run (Datatypes.S (d + n))))); [left; by eauto|]. right.
    destruct (Hother _ _ _ (run_inv _ _ (d + n) Hr H0) Hf (f_step _ _ Hr (d + n)))
      as [Hlt|[E1 E2]].
    + left. exists (Datatypes.S (d + n)). by rewrite <- Em.
    + right. by rewrite E1, E2.
Qed.

Lemma fair_termination run who : fair_run run who → inv (run O) → ∃ n, final (run n).
Proof.
  intros Hr H0. cut (∀ t n, measure (run n) = t → ∃ k, final (run k)); [intros Hc; by apply (Hc (measure (run O)) O)|].
  intros t. induction (Hwf t) as [t _ IH]. intros n <-.
  destruct (f_fair _ _ Hr (helpful (run n)) n) as (m & Hm & Hw).
  destruct (run_until run who n (m - n) Hr H0) as [?|[[k Hk]|(Em & Eh & Hf)]]; [done|by apply (IH _ Hk k)|].
  replace (m - n + n)%nat with m in * by lia. pose proof (run_inv _ _ m Hr H0) as Hi.
  destruct Hw as [Hw|Hw].
  - assert (Hlt : lt (measure (run (Datatypes.S m))) (measure (run n))).
    { rewrite <- Em. apply Hhelp; [done..|]. rewrite Eh, <- Hw. by apply f_step. }
    by apply (IH _ Hlt (Datatypes.S m)).
  - destruct Hw. rewrite <- Eh. by apply Hen.
Qed.
End fair_termination.

(** ** Runs that are played
    A list of threads, each of which takes its turn, and then nothing. *)
Section plays.
Context {S R : Type} (step : option R → S → S → Prop) (enabled : R → S → Prop) (play : R → S → option S).
Context (Hplay : ∀ r x y, play r x = Some y → step (Some r) x y) (Hidle : ∀ x, step None x x).

Fixpoint plays (l : list R) (x : S) : option S :=
  match l with [] => Some x | r :: l => play r x ≫= plays l end.
Definition played (l : list R) (x : S) (n : nat) : S := default x (plays (take n l) x).
Lemma plays_rtc l x y : plays l x = Some y → rtc (λ x y, ∃ r, step r x y) x y.
Proof using Hplay.
  revert x. induction l as [|r l IH]; cbn; intros x; [by intros [= ->]|].
  intros (z & Hz & Hs)%bind_Some. eapply rtc_l; [|by apply IH]. exists (Some r). by apply Hplay.
Qed.
Lemma plays_app l1 l2 x : plays (l1 ++ l2) x = plays l1 x ≫= plays l2.
Proof. revert x. induction l1 as [|r l1 IH]; cbn; intros x; [done|]. destruct (play r x); cbn; [apply IH|done]. Qed.
(** It is fair when nobody can go on at its end. *)
Lemma played_fair l x y : plays l x = Some y → (∀ r, ¬ enabled r y) →
  fair_run step enabled (played l x) (λ n, l !! n).
Proof using Hplay Hidle.
  intros Hy He. constructor.
  - intros n. destruct (l !! n) as [r|] eqn:Hn.
    + unfold played. rewrite (take_S_r l n r Hn), plays_app.
      assert (∃ z w, plays (take n l) x = Some z ∧ play r z = Some w) as (z & w & Hz & Hw).
      { rewrite <- (take_drop_middle l n r Hn), plays_app in Hy.
        apply bind_Some in Hy as (z & Hz & Hy). cbn in Hy. apply bind_Some in Hy as (w & Hw & _). by eauto. }
      rewrite Hz. cbn. rewrite Hw. cbn. by apply Hplay.
    + apply lookup_ge_None in Hn. unfold played. rewrite !take_ge by lia. apply Hidle.
  - intros r n. exists (Nat.max n (length l)). split; [lia|]. right. unfold played.
    rewrite take_ge by lia. rewrite Hy. apply He.
Qed.
End plays.

(** The order of measures that are triples. *)
Definition lex3 (x y : nat * nat * nat) : Prop :=
  (x.1.1 < y.1.1 ∨ x.1.1 = y.1.1 ∧ (x.1.2 < y.1.2 ∨ x.1.2 = y.1.2 ∧ x.2 < y.2))%nat.
Lemma lex3_wf : well_founded lex3.
Proof.
  cut (∀ a b c, Acc lex3 (a, b, c)); [intros Hc [[a b] c]; apply Hc|].
  intros a. induction (Nat.lt_wf_0 a) as [a _ IHa]. intros b.
  induction (Nat.lt_wf_0 b) as [b _ IHb]. intros c.
  induction (Nat.lt_wf_0 c) as [c _ IHc].
  constructor. intros [[a' b'] c']. unfold lex3. cbn.
  intros [?|[-> [?|[-> ?]]]]; auto.
Qed.

(** ** Sums of weights *)
Definition msum {A} (f : A → nat) (m : gmap Z A) : nat := map_fold (λ _ a n, f a + n)%nat O m.
Lemma msum_new {A} (f : A → nat) m k a : m !! k = None → msum f (<[k := a]> m) = (f a + msum f m)%nat.
Proof. intros Hk. unfold msum. rewrite map_fold_insert_L; [done|intros; lia|done]. Qed.
Lemma msum_put {A} (f : A → nat) m k a b : m !! k = Some b →
  (msum f (<[k := a]> m) + f b = f a + msum f m)%nat.
Proof.
  intros Hk. pose proof (msum_new f (delete k m) k a (lookup_delete_eq m k)) as Ha.
  pose proof (msum_new f (delete k m) k b (lookup_delete_eq m k)) as Hb.
  rewrite insert_delete_eq in Ha. rewrite insert_delete_id in Hb by done. lia.
Qed.
Lemma lsum_put {A} (f : A → nat) l i a b : l !! i = Some b →
  (sum_list_with f (<[i := a]> l) + f b = f a + sum_list_with f l)%nat.
Proof.
  revert i. induction l as [|x l IH]; intros [|i] E; cbn in E; simplify_eq; cbn; [lia|].
  pose proof (IH _ E). unfold insert in *. lia.
Qed.
