(* ===== verification/Kernel.v ===== *)
(** [libraries/CPN/Kernel], with [NodeBase] and [PseudoNode] as far as the life
    of a node goes: the kernel's thread, the threads of its nodes, and the threads
    of the program that call it.

    A thread is a program counter, and a step takes one thread from one point
    where another thread can come in between to the next: up to a lock it needs,
    or to where it sleeps.  What runs under one lock without waiting is one step;
    [NodeTerminated], which takes [garbagelock] inside [nodelock], and
    [ClearGarbage], which joins a thread inside [garbagelock], hold their locks
    from step to step ([nodelock], [garbagelock] say who).  A step function is
    [None] where its thread cannot go on.  The calls of the context are those of
    [LocalContext]. *)
From S2P Require Import Prelude LocalContext Fairness.

Module KN.
Open Scope Z_scope.

(** [Kernel::KernelStatus_t], and its [StatusHandler]. *)
Inductive KernelStatus := INITIALIZED | RUNNING | TERMINATE | DONE.
#[export] Instance KernelStatus_eq_dec : EqDecision KernelStatus.
Proof. solve_decision. Defined.
Definition CompareAndPost (oldStatus newStatus status : KernelStatus) : bool * KernelStatus :=
  if decide (oldStatus = status) then (true, newStatus) else (false, status).
(** [CompareAndWait]: the new status, or it sleeps. *)
Definition CompareAndWait (oldStatus status : KernelStatus) : option KernelStatus :=
  if decide (oldStatus = status) then None else Some status.

(** What the constructor fixes.  [self] is the kernel's address, which the context
    knows it by; [GetNodeFactory] is that of the node loader. *)
Class Config := {
  kernelkey : Z; self : Z; useremote : bool; swallowbrokenqueue : bool;
  GetNodeFactory : string → res bool }.

(** An object of [nodemap]: an [ExternalEndpoint], or a [NodeBase]. *)
Inductive node := Pure (iswriter : bool) | Threaded.
#[export] Instance node_eq_dec : EqDecision node.
Proof. solve_decision. Defined.
Definition IsPurePseudo (n : node) : bool := match n with Pure _ => true | Threaded => false end.

(** *** Threads *)
Inductive tid := TKernel | TNode (k : Z) | TClient (i : nat) | TQueue (k : Z).
#[export] Instance tid_eq_dec : EqDecision tid.
Proof. solve_decision. Defined.

(** In [NodeTerminated]: before [SignalNodeEnd], before [nodelock], under it before
    [garbagelock], and under it before [SendWakeup]. *)
Inductive tpc := TSignal | TLock | TPush | TWake.
(** In [NodeBase::EntryPoint]. [NUnhandled]: an exception has left the thread,
    which ends the program. *)
Inductive npc := NStart | NProcess | NTerm (t : tpc) | NEnded | NUnhandled (e : fault).
(** What [Process] does. *)
Inductive outcome := Returns | Throws (e : fault).

(** Where [ClearGarbage] was called. *)
Inductive gc_call := GFirst | GMain | GShut | GDrain | GFinal.
(** In [Kernel::EntryPoint]. *)
Inductive kpc :=
  | KInit | KSignalStart
  | KPollTest | KCleanup | KPoll               (** the loop when [useremote] *)
  | KMain | KMainSleep | KMainAwake            (** the loop when not *)
  | KClose | KHolder | KHolderWait             (** [server->Close], [remotequeueholder->Shutdown] *)
  | KCopy | KNotify (l : list Z)               (** the nodes of [mapcopy] *)
  | KDrain | KDrainSleep | KDrainAwake         (** "Wait for all nodes to end" *)
  | KGc (r : gc_call)                          (** before [garbagelock] *)
  | KJoin (r : gc_call) (k : Z)                (** in [garbagenodes.back()->Shutdown()] *)
  | KSignalEnd | KPost | KEnded | KFault (e : fault).

(** The calls of a program.  [CRemoteCreateNode] is [CreateNode] of another kernel
    that asks for this one, [CEndpoint] is [RemoteCreateReader] or
    [RemoteCreateWriter]; [CWait] is [Kernel::Wait]. *)
Inductive call :=
  | CCreateNode (name type : string) | CRemoteCreateNode (name type : string)
  | CCreateExternal (name : string) (iswriter : bool) | CDestroyExternal (name : string)
  | CEndpoint (queuekey nodekey : Z) | CTerminate | CWait.
Inductive cpc :=
  | CIdle (r : res Z)                          (** the last call gave [r] *)
  | CSend (key : Z) (type : string) | CCreate (key : Z) (type : string)
  | CExtInsert (key : Z) (iswriter : bool) | CExtSignal (key : Z)
  | CDestroy (key : Z) | CTerm (key : Z) (t : tpc)
  | CAdd (queuekey : Z)
  | CNotifyPost | CNotifyWake | CWaiting (s : KernelStatus).
Record client := mk_client { pc : cpc; todo : list call }.

Record sys := mk {
  ctx : LC.context;
  status : KernelStatus;
  nodemap : gmap Z node; garbagenodes : list Z;      (** the [back()] comes first *)
  nodecond_signal : bool;
  wakeup : bool;                                     (** of [server]: a byte is in its pipe *)
  queuemap : gmap Z bool;                            (** of [remotequeueholder]; [Shutdown] was called *)
  nodelock : option tid; garbagelock : option tid;
  kernel : kpc; nodes : gmap Z npc; clients : list client;
  notified : gset Z;                                 (** [NotifyTerminate] was called *)
  released : gset Z;                                 (** [Shutdown] was called *)
  forced : bool }.                                   (** "Kernel forced shutdown" was logged *)

Definition set_ctx x c := mk c (status x) (nodemap x) (garbagenodes x) (nodecond_signal x) (wakeup x)
  (queuemap x) (nodelock x) (garbagelock x) (kernel x) (nodes x) (clients x) (notified x) (released x) (forced x).
Definition set_status x s := mk (ctx x) s (nodemap x) (garbagenodes x) (nodecond_signal x) (wakeup x)
  (queuemap x) (nodelock x) (garbagelock x) (kernel x) (nodes x) (clients x) (notified x) (released x) (forced x).
Definition set_nodemap x m := mk (ctx x) (status x) m (garbagenodes x) (nodecond_signal x) (wakeup x)
  (queuemap x) (nodelock x) (garbagelock x) (kernel x) (nodes x) (clients x) (notified x) (released x) (forced x).
Definition set_garbage x g l := mk (ctx x) (status x) (nodemap x) g (nodecond_signal x) (wakeup x)
  (queuemap x) (nodelock x) l (kernel x) (nodes x) (clients x) (notified x) (released x) (forced x).
Definition set_signal x b := mk (ctx x) (status x) (nodemap x) (garbagenodes x) b (wakeup x)
  (queuemap x) (nodelock x) (garbagelock x) (kernel x) (nodes x) (clients x) (notified x) (released x) (forced x).
Definition set_wakeup x b := mk (ctx x) (status x) (nodemap x) (garbagenodes x) (nodecond_signal x) b
  (queuemap x) (nodelock x) (garbagelock x) (kernel x) (nodes x) (clients x) (notified x) (released x) (forced x).
Definition set_queuemap x m := mk (ctx x) (status x) (nodemap x) (garbagenodes x) (nodecond_signal x) (wakeup x)
  m (nodelock x) (garbagelock x) (kernel x) (nodes x) (clients x) (notified x) (released x) (forced x).
Definition set_nodelock x l := mk (ctx x) (status x) (nodemap x) (garbagenodes x) (nodecond_signal x) (wakeup x)
  (queuemap x) l (garbagelock x) (kernel x) (nodes x) (clients x) (notified x) (released x) (forced x).
Definition set_kernel x p := mk (ctx x) (status x) (nodemap x) (garbagenodes x) (nodecond_signal x) (wakeup x)
  (queuemap x) (nodelock x) (garbagelock x) p (nodes x) (clients x) (notified x) (released x) (forced x).
Definition set_nodes x m := mk (ctx x) (status x) (nodemap x) (garbagenodes x) (nodecond_signal x) (wakeup x)
  (queuemap x) (nodelock x) (garbagelock x) (kernel x) m (clients x) (notified x) (released x) (forced x).
Definition set_clients x l := mk (ctx x) (status x) (nodemap x) (garbagenodes x) (nodecond_signal x) (wakeup x)
  (queuemap x) (nodelock x) (garbagelock x) (kernel x) (nodes x) l (notified x) (released x) (forced x).
Definition set_told x n r := mk (ctx x) (status x) (nodemap x) (garbagenodes x) (nodecond_signal x) (wakeup x)
  (queuemap x) (nodelock x) (garbagelock x) (kernel x) (nodes x) (clients x) n r (forced x).
Definition set_forced x := mk (ctx x) (status x) (nodemap x) (garbagenodes x) (nodecond_signal x) (wakeup x)
  (queuemap x) (nodelock x) (garbagelock x) (kernel x) (nodes x) (clients x) (notified x) (released x) true.

Definition set_node x k p := set_nodes x (<[k := p]> (nodes x)).
Definition set_pc x i p :=
  set_clients x (alter (λ c, mk_client p (todo c)) i (clients x)).
(** [map.insert] keeps the entry there is. *)
Definition insert_new {A} (k : Z) (a : A) (m : gmap Z A) : gmap Z A :=
  match m !! k with Some _ => m | None => <[k := a]> m end.

(** A call of the context. *)
Definition call_ctx {A} (m : LC.Op A) (x : sys) : res A * sys :=
  let (r, c) := m (LC.set_signals (ctx x) false false) in (r, set_ctx x c).

(** [nodecond.Signal()]: only the kernel's thread waits on [nodecond]. *)
Definition awake (p : kpc) : kpc :=
  match p with KMainSleep => KMainAwake | KDrainSleep => KDrainAwake | _ => p end.
Definition Signal x := set_kernel x (awake (kernel x)).

(** [nodelock.Lock()] of a thread that does not hold it. *)
Definition is_free (l : option tid) : bool := match l with None => true | Some _ => false end.

Section kernel.
Context `{Config}.

(** [SendWakeup], under [nodelock]. *)
Definition SendWakeup x := set_signal (Signal (if useremote then set_wakeup x true else x)) true.

(** The end of [NodeTerminated], which releases [nodelock]. *)
Definition NodeTerminated_end x := set_nodelock (set_signal (Signal x) true) None.
Inductive tres := TGo (t : tpc) | TDone | TFail (e : fault).
(** [NodeTerminated(key)], run by the thread [r]. *)
Definition NodeTerminated (r : tid) (key : Z) (t : tpc) (x : sys) : option (sys * tres) :=
  match t with
  | TSignal =>
      let (o, x) := call_ctx (LC.SignalNodeEnd key) x in
      Some (x, match o with Ok _ => TGo TLock | Err e => TFail e end)
  | TLock =>
      if is_free (nodelock x) then
        if decide (status x = DONE) then Some (NodeTerminated_end x, TDone) else
        match nodemap x !! key with
        | None => Some (x, TFail AssertFailed)
        | Some _ => Some (set_nodelock (set_nodemap x (delete key (nodemap x))) (Some r), TGo TPush)
        end
      else None
  | TPush =>
      if is_free (garbagelock x) then Some (set_garbage x (key :: garbagenodes x) None, TGo TWake)
      else None
  | TWake => Some (NodeTerminated_end (SendWakeup x), TDone)
  end.

(** [NodeBase::EntryPoint] of the node [k]; [o] is what its [Process] does, which
    ends when the node is told to, or by itself (see [step]). *)
Definition catches (e : fault) : bool :=
  match e with Shutdown | Deadlock => true | BrokenQueue _ => swallowbrokenqueue | _ => false end.
Definition process_ends (o : outcome) : npc :=
  match o with
  | Returns => NTerm TSignal
  | Throws e => if catches e then NTerm TSignal else NUnhandled e
  end.
Definition node_step (k : Z) (o : outcome) (x : sys) : option sys :=
  match nodes x !! k with
  | Some NStart =>
      let (r, x) := call_ctx (LC.SignalNodeStart k) x in
      Some (set_node x k (match r with
                          | Ok _ => NProcess
                          | Err e => process_ends (Throws e)
                          end))
  | Some NProcess => if decide (k ∈ notified x) then Some (set_node x k (process_ends o)) else None
  | Some (NTerm t) =>
      '(x, r) ← NodeTerminated (TNode k) k t x;
      Some (set_node x k (match r with TGo t => NTerm t | TDone => NEnded | TFail e => NUnhandled e end))
  | _ => None
  end.

(** [ClearGarbage], under [garbagelock]: the loop test; [r] is where it returns. *)
Definition gc_return (r : gc_call) : kpc :=
  match r with
  | GFirst => KMain
  | GMain => if useremote then KCleanup else KMain
  | GShut | GDrain => KDrain
  | GFinal => KSignalEnd
  end.
Definition gc_test (r : gc_call) (x : sys) : sys :=
  match garbagenodes x with
  | [] => set_kernel (set_garbage x [] None) (gc_return r)
  | k :: g => set_kernel (set_garbage x (k :: g) (Some TKernel)) (KJoin r k)
  end.
(** [thread->Join()] returns when the thread has ended; a [PseudoNode] has none. *)
Definition joinable (k : Z) (x : sys) : bool :=
  match nodes x !! k with None => true | Some NEnded => true | Some _ => false end.

Definition leave_main : kpc := if useremote then KClose else KCopy.
(** [Kernel::EntryPoint] *)
Definition kernel_step (x : sys) : option sys :=
  match kernel x with
  | KInit =>
      Some (set_kernel (set_status x (CompareAndPost INITIALIZED RUNNING (status x)).2) KSignalStart)
  | KSignalStart =>
      let (r, x) := call_ctx (LC.SignalKernelStart kernelkey) x in
      Some (match r with
            | Ok _ => set_kernel x (if useremote then KPollTest else KGc GFirst)
            | Err Shutdown => set_kernel (set_forced x) leave_main
            | Err e => set_kernel x (KFault e)
            end)
  | KPollTest =>
      Some (set_kernel x (if decide (status x = RUNNING) then KGc GMain else leave_main))
  | KCleanup => Some (set_kernel x KPoll)
  | KPoll => if wakeup x then Some (set_kernel (set_wakeup x false) KPollTest) else None
  | KMain =>
      if is_free (nodelock x) then
        Some (set_kernel x (if decide (status x = RUNNING)
                            then if nodecond_signal x then KGc GMain else KMainSleep
                            else leave_main))
      else None
  | KMainAwake =>
      if is_free (nodelock x) then Some (set_kernel (set_signal x false) (KGc GMain)) else None
  | KClose => Some (set_kernel x KHolder)
  | KHolder => Some (set_kernel (set_queuemap x ((λ _, true) <$> queuemap x)) KHolderWait)
  | KHolderWait => if decide (queuemap x = ∅) then Some (set_kernel x KCopy) else None
  | KCopy =>
      if is_free (nodelock x) then Some (set_kernel x (KNotify (map_to_list (nodemap x)).*1)) else None
  | KNotify (k :: l) => Some (set_kernel (set_told x ({[k]} ∪ notified x) (released x)) (KNotify l))
  | KNotify [] => Some (set_kernel x (KGc GShut))
  | KDrain =>
      if is_free (nodelock x) then
        Some (set_kernel x (if decide (nodemap x = ∅) then KGc GFinal
                            else if nodecond_signal x then KGc GDrain else KDrainSleep))
      else None
  | KDrainAwake =>
      if is_free (nodelock x) then Some (set_kernel (set_signal x false) (KGc GDrain)) else None
  | KGc r => if is_free (garbagelock x) then Some (gc_test r x) else None
  | KJoin r k =>
      if joinable k x then
        Some (gc_test r (set_garbage (set_told x (notified x) ({[k]} ∪ released x))
                                     (tail (garbagenodes x)) (garbagelock x)))
      else None
  | KSignalEnd =>
      let (r, x) := call_ctx (LC.SignalKernelEnd kernelkey) x in
      Some (set_kernel x (match r with Ok _ => KPost | Err e => KFault e end))
  | KPost => Some (set_kernel (set_status x DONE) KEnded)
  | KMainSleep | KDrainSleep | KEnded | KFault _ => None
  end.

(** [InternalCreateNode], under [nodelock]. *)
Definition InternalCreateNode (key : Z) (type : string) (x : sys) : res Z * sys :=
  if decide (status x = RUNNING) then
    match GetNodeFactory type with
    | Ok true => (Ok key, set_nodes (set_nodemap x (insert_new key Threaded (nodemap x)))
                                    (<[key := NStart]> (nodes x)))
    | Ok false => (Err InvalidArgument, x)
    | Err e => (Err e, x)
    end
  else (Err AssertFailed, x).

(** The calls: their start, up to where another thread can come in between. *)
Definition to {A} (f : A → cpc) (o : res A) : cpc :=
  match o with Ok a => f a | Err e => CIdle (Err e) end.
Definition start (c : call) (x : sys) : option (sys * cpc) :=
  match c with
  | CCreateNode name type =>
      let (o, x) := call_ctx (LC.CreateNodeKey kernelkey name) x in
      Some (x, to (λ key, CCreate key type) o)
  | CRemoteCreateNode name type =>
      let (o, x) := call_ctx (LC.CreateNodeKey kernelkey name) x in
      Some (x, to (λ key, CSend key type) o)
  | CCreateExternal name w =>
      let (o, x) := call_ctx (LC.CreateNodeKey kernelkey name) x in
      Some (x, to (λ key, CExtInsert key w) o)
  | CDestroyExternal name =>
      let (o, x) := call_ctx (LC.GetNodeKey name) x in
      Some (x, to CDestroy o)
  | CEndpoint queuekey nodekey =>
      if negb useremote then Some (x, CIdle (Err AssertFailed)) else
      if is_free (nodelock x) then
        Some (x, match nodemap x !! nodekey with
                 | Some _ => CAdd queuekey
                 | None => CIdle (Err AssertFailed)
                 end)
      else None
  | CTerminate =>
      let (o, x) := call_ctx LC.Terminate x in
      Some (x, to (λ l, if decide (self ∈ l) then CNotifyPost else CIdle (Ok 0)) o)
  | CWait => Some (x, CWaiting (status x))
  end.
(** What follows. *)
Definition resume (i : nat) (p : cpc) (x : sys) : option (sys * cpc) :=
  match p with
  | CIdle _ => None
  | CSend key type =>
      let (o, x) := call_ctx (LC.SendCreate kernelkey) x in
      Some (x, to (λ _, if useremote then CCreate key type else CIdle (Err AssertFailed)) o)
  | CCreate key type =>
      if is_free (nodelock x) then
        let (o, x) := InternalCreateNode key type x in Some (x, CIdle o)
      else None
  | CExtInsert key w =>
      if is_free (nodelock x) then
        Some (set_nodemap x (insert_new key (Pure w) (nodemap x)), CExtSignal key)
      else None
  | CExtSignal key =>
      let (o, x) := call_ctx (LC.SignalNodeStart key) x in
      Some (x, to (λ _, CIdle (Ok key)) o)
  | CDestroy key =>
      if is_free (nodelock x) then
        Some (x, match nodemap x !! key with
                 | Some n => if IsPurePseudo n then CTerm key TSignal else CIdle (Err InvalidArgument)
                 | None => CIdle (Err InvalidArgument)
                 end)
      else None
  | CTerm key t =>
      '(x, r) ← NodeTerminated (TClient i) key t x;
      Some (x, match r with TGo t => CTerm key t | TDone => CIdle (Ok key) | TFail e => CIdle (Err e) end)
  | CAdd queuekey => Some (set_queuemap x (insert_new queuekey false (queuemap x)), CIdle (Ok queuekey))
  | CNotifyPost =>
      let (posted, s) := CompareAndPost RUNNING TERMINATE (status x) in
      Some (set_status x s, if posted then CNotifyWake else CIdle (Ok 0))
  | CNotifyWake => if is_free (nodelock x) then Some (SendWakeup x, CIdle (Ok 0)) else None
  | CWaiting s =>
      s' ← CompareAndWait s (status x);
      Some (x, if decide (s' = DONE) then CIdle (Ok 0) else CWaiting s')
  end.
Definition put_client (i : nat) (cs : list call) (r : option (sys * cpc)) : option sys :=
  '(x, p) ← r; Some (set_clients x (<[i := mk_client p cs]> (clients x))).
Definition client_step (i : nat) (x : sys) : option sys :=
  c ← clients x !! i;
  match pc c, todo c with
  | CIdle _, [] => None
  | CIdle _, call :: cs => put_client i cs (start call x)
  | p, cs => put_client i cs (resume i p x)
  end.

(** A remote queue whose [Shutdown] was called ends, and calls [CleanupQueue]. *)
Definition CleanupQueue (k : Z) (x : sys) : sys := set_queuemap x (delete k (queuemap x)).
Definition queue_step (k : Z) (x : sys) : option sys :=
  match queuemap x !! k with Some true => Some (CleanupQueue k x) | _ => None end.

(** The threads; a [Process] may end in any way. *)
Definition runs (r : tid) (x y : sys) : Prop :=
  match r with
  | TKernel => kernel_step x = Some y
  | TNode k => ∃ o, node_step k o x = Some y
  | TClient i => client_step i x = Some y
  | TQueue k => queue_step k x = Some y
  end.
(** A thread that can go on. *)
Definition enabled (r : tid) (x : sys) : Prop :=
  match r with
  | TKernel => is_Some (kernel_step x)
  | TNode k => is_Some (node_step k Returns x)
  | TClient i => is_Some (client_step i x)
  | TQueue k => is_Some (queue_step k x)
  end.

(** Calls of the context by others: other kernels and their nodes. *)
Definition foreign (o : LC.op) : Prop := o ≠ LC.OTerminate ∧ o ≠ LC.OSignalKernelEnd kernelkey.
Definition last_key : Z := 18446744073709551615.
(** A step of a thread ([Some]), or of the surroundings ([None]). *)
Inductive step : option tid → sys → sys → Prop :=
  | S_thread r x y : runs r x y → LC.counter (ctx x) < last_key → step (Some r) x y
  | S_over r x y : runs r x y → LC.shutdown (ctx x) = true → step (Some r) x y
  | S_context o x : foreign o → LC.counter (ctx x) < last_key →
      step None x (call_ctx (LC.run o) x).2
  | S_process k o x : nodes x !! k = Some NProcess → step None x (set_node x k (process_ends o))
  | S_queue k b x : queuemap x !! k = Some b → step None x (CleanupQueue k x)
  | S_connect x : kernel x = KPoll → step None x (set_kernel (set_wakeup x false) KPollTest)
  | S_spurious x : step None x (Signal x)       (** a wait returns by itself *)
  | S_idle x : step None x x.

(** A kernel that was constructed: the context knows it, and no thread has run. *)
Definition initial (x : sys) : Prop :=
  LC.wf (ctx x) ∧ LC.shutdown (ctx x) = false ∧ LC.counter (ctx x) < last_key ∧
  (∃ i, LC.kernelmap (ctx x) !! kernelkey = Some i ∧ LC.k_kernel i = self ∧ LC.k_dead i = false) ∧
  status x = INITIALIZED ∧ nodemap x = ∅ ∧ garbagenodes x = [] ∧ nodecond_signal x = false ∧
  wakeup x = false ∧ queuemap x = ∅ ∧ nodelock x = None ∧ garbagelock x = None ∧
  kernel x = KInit ∧ nodes x = ∅ ∧ notified x = ∅ ∧ released x = ∅ ∧ forced x = false ∧
  ∀ i c, clients x !! i = Some c → ∃ r, pc c = CIdle r.

Definition reachable (x : sys) : Prop := ∃ x0, initial x0 ∧ rtc (λ x y, ∃ r, step r x y) x0 x.
End kernel.
End KN.
