(* ===== verification/KernelInvariants.v ===== *)
(** The invariants of [Kernel], and what they give: which nodes the end of a
    kernel waits for, and who stops it. *)
From S2P Require Import Prelude LocalContext Fairness Kernel.

Module KI.
Import KN.
Open Scope Z_scope.

(** ** What the calls of the context do *)

(** Nodes stay known, and a termination stays. *)
Definition grows (c c' : LC.context) : Prop :=
  LC.wf c' ∧ (∀ k, is_Some (LC.nodemap c !! k) → is_Some (LC.nodemap c' !! k)) ∧
  (LC.shutdown c = true → LC.shutdown c' = true).
Definition can_call (c : LC.context) : Prop := LC.counter c < last_key ∨ LC.shutdown c = true.

Lemma fmap_state {A B} (f : A → B) (m : LC.Op A) c : (LC.mfmap f m c).2 = (m c).2.
Proof. unfold LC.mfmap. mred. by destruct (m c) as [[]]. Qed.

Lemma op_wf_over o s : LC.wf s → LC.shutdown s = true → LC.wf (LC.run o s).2.
Proof.
  intros Hw Hs. destruct (LC.unchecked o) eqn:Hu.
  - destruct o; try discriminate Hu; LC.op_unfold; LC.op_cases; try (by apply (LC.wf_same s)).
    + eapply LC.wf_same; [eapply LC.wf_put_kernel|]; [| | |by constructor]; done.
    + eapply LC.wf_same; [eapply LC.wf_put_node|]; [| | | | |by constructor]; done.
  - destruct o; try discriminate Hu; LC.op_unfold; rewrite ?Hs; by mred.
Qed.
Lemma op_nodes o s k : is_Some (LC.nodemap s !! k) → is_Some (LC.nodemap (LC.run o s).2 !! k).
Proof.
  intros Hk. destruct o; LC.op_unfold; LC.op_cases; try exact Hk;
    (apply lookup_insert_is_Some'; by right).
Qed.
Lemma op_shutdown o s : o ≠ LC.OTerminate → LC.shutdown (LC.run o s).2 = LC.shutdown s.
Proof. intros Ho. destruct o; try done; LC.op_unfold; LC.op_cases. Qed.
Lemma op_kernel o s k i : LC.wf s → can_call s → o ≠ LC.OSignalKernelEnd k →
  LC.kernelmap s !! k = Some i → ∃ j, LC.kernelmap (LC.run o s).2 !! k = Some j ∧
    LC.k_kernel j = LC.k_kernel i ∧ LC.k_dead j = LC.k_dead i.
Proof.
  intros Hw Hc Ho Hk. pose proof (LC.next_fresh s Hw LC.Kernel) as Hf.
  pose proof (LC.w_counter s Hw).
  destruct o; LC.op_unfold; LC.op_cases; try (by exists i); cbn.
  all: match goal with |- context [<[?n := _]> _ !! ?k] =>
    destruct (decide (k = n)) as [-> |]; simplify_map_eq end; try (by eexists).
  all: destruct Hf; rewrite <- (u64_id (LC.counter c0 + 1)); [by eexists|].
  all: destruct Hc; [unfold last_key in *; lia|congruence].
Qed.

Section context.
Context `{Config}.

(** What the kernel relies on: the context is well-formed and knows the kernel. *)
Definition entry (c : LC.context) (dead : bool) : Prop :=
  ∃ i, LC.kernelmap c !! kernelkey = Some i ∧ LC.k_kernel i = self ∧ LC.k_dead i = dead.
Definition ctx_ok (c : LC.context) (dead : bool) : Prop := LC.wf c ∧ entry c dead.
Definition quiet_ctx (x : sys) : LC.context := LC.set_signals (ctx x) false false.

Lemma run_ok o c dead : ctx_ok c dead → can_call c → o ≠ LC.OSignalKernelEnd kernelkey →
  ctx_ok (LC.run o (LC.set_signals c false false)).2 dead ∧
  grows c (LC.run o (LC.set_signals c false false)).2.
Proof.
  intros [Hw (i & Hi & Hs & Hd)] Hc Ho. set (s := LC.set_signals c false false).
  assert (LC.wf s) as Hws by (by eapply LC.wf_same).
  assert (LC.wf (LC.run o s).2) as Hw'.
  { destruct Hc; [by apply LC.op_wf|by apply op_wf_over]. }
  destruct (op_kernel o s kernelkey i) as (j & Hj & E1 & E2); try done.
  split; [split; [done|]; exists j; by rewrite E1, E2|]. split; [done|]. split.
  - intros k Hk. by apply op_nodes.
  - intros Hsd. destruct o; try (by rewrite op_shutdown). done.
Qed.

(** [o] is the call [m], as data. *)
Lemma call_ok {A} (m : LC.Op A) (f : A → LC.value) o x dead :
  LC.run o = LC.mfmap f m → ctx_ok (ctx x) dead → can_call (ctx x) →
  o ≠ LC.OSignalKernelEnd kernelkey →
  ctx_ok (ctx (call_ctx m x).2) dead ∧ grows (ctx x) (ctx (call_ctx m x).2).
Proof.
  intros Hm Hx Hc Ho. destruct (run_ok o (ctx x) dead) as [H1 H2]; try done.
  unfold call_ctx. rewrite Hm, fmap_state in H1, H2. by destruct (m _).
Qed.

(** *** The calls one by one *)
Lemma call_CreateNodeKey name x o y dead : ctx_ok (ctx x) dead → can_call (ctx x) →
  call_ctx (LC.CreateNodeKey kernelkey name) x = (o, y) →
  y = set_ctx x (ctx y) ∧ ctx_ok (ctx y) dead ∧ grows (ctx x) (ctx y) ∧
  LC.shutdown (ctx y) = LC.shutdown (ctx x) ∧
  match o with
  | Ok k => LC.nodemap (ctx x) !! k = None ∧ is_Some (LC.nodemap (ctx y) !! k) ∧
            LC.shutdown (ctx x) = false
  | Err e => True
  end.
Proof.
  intros Hx Hc E. destruct (call_ok (LC.CreateNodeKey kernelkey name) LC.VKey
    (LC.OCreateNodeKey kernelkey name) x dead) as [H1 H2]; try done.
  pose proof (op_shutdown (LC.OCreateNodeKey kernelkey name) (quiet_ctx x)) as Hsd.
  cbn [LC.run] in Hsd. rewrite fmap_state in Hsd. unfold quiet_ctx in Hsd.
  rewrite E in H1, H2. unfold call_ctx in E. revert E Hsd.
  destruct (LC.CreateNodeKey _ _ _) as [o' c'] eqn:Eo. intros [= <- <-] Hsd. cbn in *.
  split; [done|]. do 2 (split; [done|]). split; [by apply Hsd|].
  destruct o' as [k|]; [|done]. revert Eo.
  unfold LC.CreateNodeKey, LC.InternalCheckTerminated, LC.NewKey. mred. cbn.
  destruct (LC.shutdown (ctx x)) eqn:Es; mred; [done|]. cbn.
  destruct (LC.nodenames (ctx x) !! name); mred; [done|].
  intros [= <- <-]. cbn. destruct Hx as [Hw _]. pose proof (LC.w_counter _ Hw).
  destruct Hc as [Hc|]; [|congruence]. rewrite u64_id by (unfold last_key in *; lia).
  rewrite lookup_insert_eq. split; [|done].
  apply eq_None_not_Some, (LC.next_fresh _ Hw LC.Node).
Qed.

Lemma call_SignalNodeStart k x o y dead : ctx_ok (ctx x) dead → can_call (ctx x) →
  is_Some (LC.nodemap (ctx x) !! k) → call_ctx (LC.SignalNodeStart k) x = (o, y) →
  y = set_ctx x (ctx y) ∧ ctx_ok (ctx y) dead ∧ grows (ctx x) (ctx y) ∧
  LC.shutdown (ctx y) = LC.shutdown (ctx x) ∧
  o = if LC.shutdown (ctx x) then Err Shutdown else Ok tt.
Proof.
  intros Hx Hc [i Hi] E. destruct (call_ok (LC.SignalNodeStart k) (λ _, LC.VUnit)
    (LC.OSignalNodeStart k) x dead) as [H1 H2]; try done.
  rewrite E in H1, H2. revert E. unfold call_ctx, LC.SignalNodeStart, LC.InternalCheckTerminated,
    LC.find_node, LC.put_node, LC.BroadcastNodes, LC.find. mred. cbn.
  destruct (LC.shutdown (ctx x)) eqn:Es; mred; cbn.
  - intros [= <- <-]. done.
  - rewrite Hi. mred. intros [= <- <-]. done.
Qed.

Lemma call_SignalNodeEnd k x o y dead : ctx_ok (ctx x) dead → can_call (ctx x) →
  is_Some (LC.nodemap (ctx x) !! k) → call_ctx (LC.SignalNodeEnd k) x = (o, y) →
  y = set_ctx x (ctx y) ∧ ctx_ok (ctx y) dead ∧ grows (ctx x) (ctx y) ∧
  LC.shutdown (ctx y) = LC.shutdown (ctx x) ∧ o = Ok tt.
Proof.
  intros Hx Hc [i Hi] E. destruct (call_ok (LC.SignalNodeEnd k) (λ _, LC.VUnit)
    (LC.OSignalNodeEnd k) x dead) as [H1 H2]; try done.
  rewrite E in H1, H2. revert E. unfold call_ctx, LC.SignalNodeEnd,
    LC.find_node, LC.put_node, LC.BroadcastNodes, LC.find. mred. cbn.
  rewrite Hi. mred. intros [= <- <-]. done.
Qed.

Lemma call_GetNodeKey name x o y : LC.wf (ctx x) →
  call_ctx (LC.GetNodeKey name) x = (o, y) → y = set_ctx x (quiet_ctx x) ∧
  match o with
  | Ok k => is_Some (LC.nodemap (ctx x) !! k) ∧ LC.shutdown (ctx x) = false
  | Err e => True
  end.
Proof.
  intros Hw. unfold call_ctx, LC.GetNodeKey, LC.InternalCheckTerminated, LC.find. mred. cbn.
  destruct (LC.shutdown (ctx x)); mred; [by intros [= <- <-]|]. cbn.
  destruct (LC.nodenames (ctx x) !! name) as [k|] eqn:Ek; mred; intros [= <- <-]; [|done].
  split; [done|]. split; [|done]. apply (LC.w_nodes _ Hw) in Ek as (i & Ei & _). by eexists.
Qed.

Lemma call_SendCreate x o y : call_ctx (LC.SendCreate kernelkey) x = (o, y) → y = set_ctx x (quiet_ctx x).
Proof.
  unfold call_ctx, LC.SendCreate, LC.InternalCheckTerminated. mred. cbn.
  destruct (LC.shutdown (ctx x)); mred; [by intros [= <- <-]|]. cbn.
  destruct (LC.kernelmap (ctx x) !! kernelkey) as [i|]; mred; [|by intros [= <- <-]].
  destruct (negb _); by intros [= <- <-].
Qed.

Lemma call_Terminate x o y dead : ctx_ok (ctx x) dead →
  call_ctx LC.Terminate x = (o, y) →
  y = set_ctx x (ctx y) ∧ ctx_ok (ctx y) dead ∧ grows (ctx x) (ctx y) ∧
  LC.shutdown (ctx y) = true ∧ LC.counter (ctx y) = LC.counter (ctx x) ∧
  ∃ l, o = Ok l ∧ (dead = false → self ∈ l).
Proof.
  intros [Hw (i & Hi & Hs & Hd)]. unfold call_ctx, LC.Terminate, LC.BroadcastNodes, LC.BroadcastKernels.
  mred. cbn. intros [= <- <-]. cbn. split; [done|].
  assert (LC.wf (LC.set_signals (LC.set_signals (LC.set_shutdown (LC.set_signals (ctx x) false false))
    true false) true true)) as Hw' by (by eapply LC.wf_same).
  split; [split; [done|by exists i]|]. split; [done|]. split; [done|]. split; [done|]. eexists. split; [done|].
  intros ->. apply list_elem_of_fmap. exists (kernelkey, i). split; [done|].
  apply list_elem_of_filter. split; [done|]. by apply elem_of_map_to_list.
Qed.

Lemma call_SignalKernelStart x o y dead : ctx_ok (ctx x) dead → can_call (ctx x) →
  call_ctx (LC.SignalKernelStart kernelkey) x = (o, y) →
  y = set_ctx x (ctx y) ∧ ctx_ok (ctx y) dead ∧ grows (ctx x) (ctx y) ∧
  LC.shutdown (ctx y) = LC.shutdown (ctx x) ∧
  o = if LC.shutdown (ctx x) then Err Shutdown else Ok tt.
Proof.
  intros Hx Hc E. destruct (call_ok (LC.SignalKernelStart kernelkey) (λ _, LC.VUnit)
    (LC.OSignalKernelStart kernelkey) x dead) as [H1 H2]; try done.
  rewrite E in H1, H2. destruct Hx as [Hw (i & Hi & Hs & Hd)].
  revert E. unfold call_ctx, LC.SignalKernelStart, LC.InternalCheckTerminated,
    LC.find_kernel, LC.put_kernel, LC.BroadcastKernels, LC.find. mred. cbn.
  destruct (LC.shutdown (ctx x)) eqn:Es; mred; cbn.
  - intros [= <- <-]. done.
  - rewrite Hi. mred. intros [= <- <-]. done.
Qed.

Lemma call_SignalKernelEnd x o y : ctx_ok (ctx x) false → can_call (ctx x) →
  call_ctx (LC.SignalKernelEnd kernelkey) x = (o, y) →
  y = set_ctx x (ctx y) ∧ ctx_ok (ctx y) true ∧ grows (ctx x) (ctx y) ∧
  LC.shutdown (ctx y) = LC.shutdown (ctx x) ∧ o = Ok tt.
Proof.
  intros [Hw (i & Hi & Hs & Hd)] Hc E.
  assert (LC.wf (ctx y)) as Hw'.
  { assert (LC.wf (LC.run (LC.OSignalKernelEnd kernelkey) (quiet_ctx x)).2) as Hr.
    { destruct Hc; [apply LC.op_wf|apply op_wf_over]; try done; by eapply LC.wf_same. }
    cbn [LC.run] in Hr. rewrite fmap_state in Hr. unfold call_ctx in E.
    unfold quiet_ctx in Hr. revert E Hr. destruct (LC.SignalKernelEnd _ _). by intros [= <- <-]. }
  revert E Hw'. unfold call_ctx, LC.SignalKernelEnd, LC.find_kernel, LC.put_kernel,
    LC.BroadcastKernels, LC.find. mred. cbn. rewrite Hi. mred. intros [= <- <-] Hw'.
  split; [done|]. split; [split; [done|]|done].
  eexists. cbn. by rewrite lookup_insert_eq.
Qed.
End context.

(** ** The invariants *)

(** A thread inside [NodeTerminated], and with [nodelock]. *)
Definition nterm (p : npc) : option tpc := match p with NTerm t => Some t | _ => None end.
Definition cterm (p : cpc) : option tpc := match p with CTerm _ t => Some t | _ => None end.
Definition ending (x : sys) (r : tid) : option tpc :=
  match r with
  | TNode k => nodes x !! k ≫= nterm
  | TClient i => clients x !! i ≫= λ c, cterm (pc c)
  | _ => None
  end.
Definition critical (t : tpc) : bool := match t with TPush | TWake => true | _ => false end.
Definition crit (o : option tpc) : bool := from_option critical false o.
(** A thread that is about to wake the kernel: with the lock, or in
    [NotifyTerminate] before [status.CompareAndPost] and before [SendWakeup]. *)
Definition waking (x : sys) : Prop := ∃ r, ending x r = Some TWake.
Definition client_at (p : cpc) (x : sys) : Prop := ∃ i c, clients x !! i = Some c ∧ pc c = p.

Record locks (x : sys) : Prop := {
  l_node r : nodelock x = Some r ↔ crit (ending x r) = true;
  l_garbage : match kernel x with
              | KJoin _ k => garbagelock x = Some TKernel ∧ ∃ g, garbagenodes x = k :: g
              | _ => garbagelock x = None
              end }.

(** Where a node is, by how far its thread has come. *)
Definition key_ok (x : sys) (k : Z) : Prop :=
  match nodes x !! k with
  | None => nodemap x !! k ≠ Some Threaded
  | Some (NTerm TPush) => nodemap x !! k = None ∧ k ∉ garbagenodes x
  | Some (NTerm TWake) => nodemap x !! k = None ∧ k ∈ garbagenodes x
  | Some NEnded => nodemap x !! k = None ∧ (k ∈ garbagenodes x ∨ k ∈ released x) ∨
                   nodemap x !! k = Some Threaded ∧ status x = DONE
  | Some _ => nodemap x !! k = Some Threaded ∧ k ∉ garbagenodes x
  end.
Definition used (x : sys) (k : Z) : Prop :=
  is_Some (nodes x !! k) ∨ is_Some (nodemap x !! k) ∨ k ∈ garbagenodes x.
Definition known (x : sys) (k : Z) : Prop := is_Some (LC.nodemap (ctx x) !! k).
(** A key that a client has been given and not used yet; one it works on. *)
Definition pend (p : cpc) : option Z :=
  match p with CSend k _ | CCreate k _ | CExtInsert k _ => Some k | _ => None end.
Definition owns (p : cpc) : option Z := match p with CTerm k _ => Some k | _ => pend p end.
Definition ckey (p : cpc) : option Z :=
  match p with CExtSignal k | CDestroy k => Some k | _ => owns p end.
Definition client_keys (f : cpc → option Z) (x : sys) (i : nat) (k : Z) : Prop :=
  ∃ c, clients x !! i = Some c ∧ f (pc c) = Some k.
Record keys (x : sys) : Prop := {
  k_ok k : key_ok x k;
  k_used k : used x k → known x k;
  k_known i k : client_keys ckey x i k → known x k;
  k_pend i k : client_keys pend x i k → ¬ used x k;
  k_inj i j k : client_keys pend x i k → client_keys owns x j k → i = j;
  k_owns i k : client_keys owns x i k → nodes x !! k = None }.

(** Before the sleeps, and asleep. *)
Definition drowsy (p : kpc) : bool :=
  match p with KMain | KDrain | KMainSleep | KDrainSleep => true | _ => false end.
Definition asleep (p : kpc) : bool := match p with KMainSleep | KDrainSleep => true | _ => false end.
Definition polls `{Config} (p : kpc) : bool :=
  match p with KCleanup | KPoll => true | KGc GMain | KJoin GMain _ => useremote | _ => false end.
Definition local (p : kpc) : bool :=
  match p with
  | KMain | KMainSleep | KMainAwake | KGc GFirst | KJoin GFirst _ => true | _ => false end.
Definition remote (p : kpc) : bool := match p with KPollTest | KCleanup | KPoll => true | _ => false end.
Definition polled (p : kpc) : bool := match p with KCleanup | KPoll => true | _ => false end.
Record sleeps `{Config} (x : sys) : Prop := {
  s_mode : local (kernel x) = true → useremote = false;
  s_remote : remote (kernel x) = true → useremote = true;
  s_garbage : drowsy (kernel x) = true → garbagenodes x ≠ [] → nodecond_signal x = true ∨ waking x;
  s_signal : asleep (kernel x) = true → nodecond_signal x = false;
  s_main : kernel x = KMainSleep → status x = RUNNING ∨ client_at CNotifyWake x;
  s_poll : polls (kernel x) = true → status x = RUNNING ∨ client_at CNotifyWake x ∨ wakeup x = true;
  s_polled : polled (kernel x) = true → garbagenodes x ≠ [] → wakeup x = true ∨ waking x;
  s_drain : kernel x = KDrainSleep → nodemap x ≠ ∅ ∨ nodelock x ≠ None }.

(** The parts of [EntryPoint]. *)
Definition past_main (p : kpc) : bool :=
  match p with
  | KInit | KSignalStart | KPollTest | KCleanup | KPoll | KMain | KMainSleep | KMainAwake => false
  | KGc r | KJoin r _ => match r with GFirst | GMain => false | _ => true end
  | _ => true
  end.
Definition in_main (p : kpc) : bool :=
  match p with KInit | KSignalStart => false | _ => negb (past_main p) end.
Definition past_copy (p : kpc) : bool :=
  match p with KClose | KHolder | KHolderWait | KCopy => false | _ => past_main p end.
Definition past_drain (p : kpc) : bool :=
  match p with KGc GFinal | KJoin GFinal _ | KSignalEnd | KPost | KEnded => true | _ => false end.
Definition past_gc (p : kpc) : bool :=
  match p with KSignalEnd | KPost | KEnded => true | _ => false end.
Definition signalled_end (p : kpc) : bool := match p with KPost | KEnded => true | _ => false end.
Definition is_fault (p : kpc) : bool := match p with KFault _ => true | _ => false end.
Definition over (x : sys) : Prop := LC.shutdown (ctx x) = true.
Record life `{Config} (x : sys) : Prop := {
  f_ctx : ctx_ok (ctx x) (signalled_end (kernel x));
  f_fault : is_fault (kernel x) = false;
  f_init : status x = INITIALIZED ↔ kernel x = KInit;
  f_done : status x = DONE ↔ kernel x = KEnded;
  f_term : status x = TERMINATE → over x;
  f_notify p : client_at p x → p = CNotifyPost ∨ p = CNotifyWake → over x;
  f_past : past_main (kernel x) = true → over x;
  f_exit : over x → in_main (kernel x) = true → status x = TERMINATE ∨ client_at CNotifyPost x;
  f_forced : past_main (kernel x) = true → forced x = false → status x = TERMINATE ∨ status x = DONE;
  f_note k : nodes x !! k = Some NProcess → past_copy (kernel x) = false ∨ k ∈ notified x ∨
    ∃ l, kernel x = KNotify l ∧ k ∈ l;
  f_end k p : past_drain (kernel x) = true → forced x = false → nodes x !! k = Some p → p = NEnded;
  f_join k p : past_gc (kernel x) = true → forced x = false → nodes x !! k = Some p → k ∈ released x }.

Record inv `{Config} (x : sys) : Prop := {
  i_locks : locks x; i_keys : keys x; i_sleeps : sleeps x; i_life : life x }.

(** ** Frames *)
Lemma lock_put (l l' : option tid) (e e' : tid → option tpc) r t :
  (∀ q, l = Some q ↔ crit (e q) = true) → (∀ q, e' q = if decide (q = r) then t else e q) →
  l' = l ∧ crit t = crit (e r) ∨ l = None ∧ l' = Some r ∧ crit t = true ∨
  l = Some r ∧ l' = None ∧ crit t = false →
  ∀ q, l' = Some q ↔ crit (e' q) = true.
Proof.
  intros Hl He Hc q. rewrite He. destruct (decide (q = r)) as [->|Hq].
  - destruct Hc as [[-> ->]|[(_ & -> & ->)|(_ & -> & ->)]]; [apply Hl|done|done].
  - rewrite <- Hl. destruct Hc as [[-> _]|[(-> & -> & _)|(-> & -> & _)]]; [done|naive_solver..].
Qed.
Lemma ending_node x k p q : ending (set_node x k p) q = if decide (q = TNode k) then nterm p else ending x q.
Proof.
  case_decide as Hq; [subst q; cbn; by rewrite lookup_insert_eq|].
  destruct q as [|j| |]; try done. cbn. rewrite lookup_insert_ne by congruence. done.
Qed.
Lemma ending_client x i c d q : clients x !! i = Some d →
  ending (set_clients x (<[i := c]> (clients x))) q =
    if decide (q = TClient i) then cterm (pc c) else ending x q.
Proof.
  intros Hi. case_decide as Hq; [subst q; cbn|].
  - rewrite list_lookup_insert_eq by (by eapply lookup_lt_Some). done.
  - destruct q as [| |j|]; try done. cbn. rewrite list_lookup_insert_ne by congruence. done.
Qed.

Lemma key_frame x y k : key_ok x k → nodes y !! k = nodes x !! k → nodemap y !! k = nodemap x !! k →
  (k ∈ garbagenodes y ↔ k ∈ garbagenodes x) → (k ∈ released x → k ∈ released y) →
  (status x = DONE → status y = DONE) → key_ok y k.
Proof.
  unfold key_ok. intros Hk En Em Hg Hr Hs. rewrite En, Em.
  destruct (nodes x !! k) as [[| |[]| |]|]; try done; rewrite ?Hg; naive_solver.
Qed.

Section steps.
Context `{Config}.

(** ** The steps, case by case *)

(** What a call leaves of the context. *)
Definition goes_on (x : sys) (c : LC.context) (dead : bool) : Prop :=
  ctx_ok c dead ∧ grows (ctx x) c ∧ LC.shutdown c = LC.shutdown (ctx x).

Inductive gc_case (r : gc_call) (x : sys) : sys → Prop :=
  | G_empty : garbagenodes x = [] → gc_case r x (set_kernel (set_garbage x [] None) (gc_return r))
  | G_next k g : garbagenodes x = k :: g →
      gc_case r x (set_kernel (set_garbage x (k :: g) (Some TKernel)) (KJoin r k)).
Lemma gc_test_case r x : gc_case r x (gc_test r x).
Proof. unfold gc_test. destruct (garbagenodes x) eqn:E; by constructor. Qed.

Inductive kernel_case (x : sys) : kpc → sys → Prop :=
  | K_init : kernel_case x KInit
      (set_kernel (set_status x (CompareAndPost INITIALIZED RUNNING (status x)).2) KSignalStart)
  | K_start c : goes_on x c false → LC.shutdown c = false →
      kernel_case x KSignalStart (set_kernel (set_ctx x c) (if useremote then KPollTest else KGc GFirst))
  | K_forced c : goes_on x c false → LC.shutdown c = true →
      kernel_case x KSignalStart (set_kernel (set_forced (set_ctx x c)) leave_main)
  | K_stay : status x = RUNNING → kernel_case x KPollTest (set_kernel x (KGc GMain))
  | K_leave_poll : status x ≠ RUNNING → kernel_case x KPollTest (set_kernel x leave_main)
  | K_cleanup : kernel_case x KCleanup (set_kernel x KPoll)
  | K_poll : wakeup x = true → kernel_case x KPoll (set_kernel (set_wakeup x false) KPollTest)
  | K_leave : nodelock x = None → status x ≠ RUNNING → kernel_case x KMain (set_kernel x leave_main)
  | K_again : nodelock x = None → status x = RUNNING → nodecond_signal x = true →
      kernel_case x KMain (set_kernel x (KGc GMain))
  | K_sleep : nodelock x = None → status x = RUNNING → nodecond_signal x = false →
      kernel_case x KMain (set_kernel x KMainSleep)
  | K_woken : nodelock x = None → kernel_case x KMainAwake (set_kernel (set_signal x false) (KGc GMain))
  | K_close : kernel_case x KClose (set_kernel x KHolder)
  | K_holder : kernel_case x KHolder (set_kernel (set_queuemap x ((λ _, true) <$> queuemap x)) KHolderWait)
  | K_held : queuemap x = ∅ → kernel_case x KHolderWait (set_kernel x KCopy)
  | K_copy : nodelock x = None → kernel_case x KCopy (set_kernel x (KNotify (map_to_list (nodemap x)).*1))
  | K_notify k l : kernel_case x (KNotify (k :: l))
      (set_kernel (set_told x ({[k]} ∪ notified x) (released x)) (KNotify l))
  | K_notified : kernel_case x (KNotify []) (set_kernel x (KGc GShut))
  | K_drained : nodelock x = None → nodemap x = ∅ → kernel_case x KDrain (set_kernel x (KGc GFinal))
  | K_dagain : nodelock x = None → nodemap x ≠ ∅ → nodecond_signal x = true →
      kernel_case x KDrain (set_kernel x (KGc GDrain))
  | K_dsleep : nodelock x = None → nodemap x ≠ ∅ → nodecond_signal x = false →
      kernel_case x KDrain (set_kernel x KDrainSleep)
  | K_dwoken : nodelock x = None → kernel_case x KDrainAwake (set_kernel (set_signal x false) (KGc GDrain))
  | K_gc r y : garbagelock x = None → gc_case r x y → kernel_case x (KGc r) y
  | K_join r k y : joinable k x = true →
      gc_case r (set_garbage (set_told x (notified x) ({[k]} ∪ released x))
                             (tail (garbagenodes x)) (garbagelock x)) y →
      kernel_case x (KJoin r k) y
  | K_end c : goes_on x c true → kernel_case x KSignalEnd (set_kernel (set_ctx x c) KPost)
  | K_done : kernel_case x KPost (set_kernel (set_status x DONE) KEnded).

Lemma is_free_true l : is_free l = true → l = None.
Proof. by destruct l. Qed.
Ltac cases Hs := repeat (case_match; try discriminate Hs); injection Hs as <-;
  repeat match goal with H : is_free _ = true |- _ => apply is_free_true in H end.
Lemma kernel_cases x y : inv x → can_call (ctx x) → kernel_step x = Some y → kernel_case x (kernel x) y.
Proof.
  intros Hi Hc Hs. pose proof (f_ctx _ (i_life _ Hi)) as Hx. unfold kernel_step in Hs.
  destruct (kernel x) eqn:Hk; try discriminate Hs; cbn in Hx.
  2: { destruct (call_ctx _ x) as [o z] eqn:E.
    apply (call_SignalKernelStart x o z false) in E as (E & H1 & H2 & H3 & H4); try done.
    rewrite E in Hs. destruct (LC.shutdown (ctx x)) eqn:Es; subst o; injection Hs as <-;
      constructor; rewrite ?H3; try done; (split; [done|]; split; [done|congruence]). }
  16: { destruct (call_ctx _ x) as [o z] eqn:E.
    apply (call_SignalKernelEnd x o z) in E as (E & H1 & H2 & H3 & ->); try done.
    rewrite E in Hs. injection Hs as <-. constructor. done. }
  all: cases Hs; try (by constructor).
  - constructor; [done|]. apply gc_test_case.
  - constructor; [done|]. apply gc_test_case.
Qed.

(** [NodeTerminated], of a key that the context knows. *)
Inductive term_case (r : tid) (k : Z) (x : sys) : tpc → sys → tres → Prop :=
  | T_signal c : goes_on x c (signalled_end (kernel x)) →
      term_case r k x TSignal (set_ctx x c) (TGo TLock)
  | T_done : nodelock x = None → status x = DONE → term_case r k x TLock (NodeTerminated_end x) TDone
  | T_fail : nodelock x = None → nodemap x !! k = None → term_case r k x TLock x (TFail AssertFailed)
  | T_erase : nodelock x = None → status x ≠ DONE → is_Some (nodemap x !! k) →
      term_case r k x TLock (set_nodelock (set_nodemap x (delete k (nodemap x))) (Some r)) (TGo TPush)
  | T_push : garbagelock x = None → term_case r k x TPush (set_garbage x (k :: garbagenodes x) None) (TGo TWake)
  | T_wake : term_case r k x TWake (NodeTerminated_end (SendWakeup x)) TDone.
Lemma term_cases r k t x y o : inv x → can_call (ctx x) → known x k →
  NodeTerminated r k t x = Some (y, o) → term_case r k x t y o.
Proof.
  intros Hi Hc Hk Hs. pose proof (f_ctx _ (i_life _ Hi)) as Hx. unfold NodeTerminated in Hs.
  destruct t; cbn in Hs.
  - destruct (call_ctx _ x) as [o' z] eqn:E.
    apply (call_SignalNodeEnd k x o' z _ Hx) in E as (E & H1 & H2 & H3 & ->); try done.
    injection Hs as <- <-. rewrite E. by constructor.
  - repeat (case_match; try discriminate Hs); injection Hs as <- <-;
      repeat match goal with H : is_free _ = true |- _ => apply is_free_true in H end; by constructor.
  - case_match; try discriminate Hs. injection Hs as <- <-. constructor. by apply is_free_true.
  - injection Hs as <- <-. constructor.
Qed.

(** A node's thread, and a client. *)
Inductive node_case (k : Z) (x : sys) : npc → sys → Prop :=
  | N_start c : goes_on x c (signalled_end (kernel x)) → LC.shutdown c = false →
      node_case k x NStart (set_node (set_ctx x c) k NProcess)
  | N_over c : goes_on x c (signalled_end (kernel x)) → LC.shutdown c = true →
      node_case k x NStart (set_node (set_ctx x c) k (NTerm TSignal))
  | N_process o : k ∈ notified x → node_case k x NProcess (set_node x k (process_ends o))
  | N_term t y r : term_case (TNode k) k x t y r →
      node_case k x (NTerm t)
        (set_node y k (match r with TGo t => NTerm t | TDone => NEnded | TFail e => NUnhandled e end)).
Lemma node_cases k o x y : inv x → can_call (ctx x) → node_step k o x = Some y →
  ∃ p, nodes x !! k = Some p ∧ node_case k x p y.
Proof.
  intros Hi Hc Hs. pose proof (f_ctx _ (i_life _ Hi)) as Hx. unfold node_step in Hs.
  destruct (nodes x !! k) as [p|] eqn:Hp; [|done]. exists p. split; [done|].
  assert (known x k) as Hk by (apply k_used; [apply i_keys, Hi|left; by rewrite Hp]).
  destruct p; try discriminate Hs.
  - destruct (call_ctx _ x) as [o' z] eqn:E.
    apply (call_SignalNodeStart k x o' z _ Hx) in E as (E & H1 & H2 & H3 & H4); try done.
    rewrite E in Hs. destruct (LC.shutdown (ctx x)) eqn:Es; subst o'; injection Hs as <-;
      constructor; rewrite ?H3; try done; (split; [done|]; split; [done|congruence]).
  - cases Hs. by constructor.
  - destruct (NodeTerminated _ _ _ _) as [[z r]|] eqn:E; [|done]. cbn in Hs. injection Hs as <-.
    constructor. by eapply term_cases.
Qed.

(** A call that the client [c] ends here. *)
Definition ends (c : client) (cs : list call) : Prop :=
  match pc c with
  | CIdle _ => ∃ a, todo c = a :: cs
  | CTerm _ _ | CNotifyPost | CNotifyWake => False
  | _ => todo c = cs
  end.
Inductive client_case (i : nat) (x : sys) (c : client) : sys → cpc → list call → Prop :=
  | C_new r a cs c' p k : pc c = CIdle r → todo c = a :: cs →
      goes_on x c' (signalled_end (kernel x)) → LC.shutdown c' = false →
      LC.nodemap (ctx x) !! k = None → is_Some (LC.nodemap c' !! k) →
      (∃ t, p = CCreate k t ∨ p = CSend k t) ∨ (∃ w, p = CExtInsert k w) →
      client_case i x c (set_ctx x c') p cs
  | C_look r a cs c' k : pc c = CIdle r → todo c = a :: cs →
      goes_on x c' (signalled_end (kernel x)) → LC.shutdown c' = false → known x k →
      client_case i x c (set_ctx x c') (CDestroy k) cs
  | C_terminate r cs c' p : pc c = CIdle r → todo c = CTerminate :: cs →
      ctx_ok c' (signalled_end (kernel x)) → grows (ctx x) c' → LC.shutdown c' = true →
      p = CNotifyPost ∨ p = CIdle (Ok 0) ∧ signalled_end (kernel x) = true →
      client_case i x c (set_ctx x c') p cs
  | C_endpoint r q k cs : pc c = CIdle r → todo c = CEndpoint q k :: cs → useremote = true →
      nodelock x = None → is_Some (nodemap x !! k) → client_case i x c x (CAdd q) cs
  | C_wait r cs : pc c = CIdle r → todo c = CWait :: cs → client_case i x c x (CWaiting (status x)) cs
  | C_quiet c' o cs : goes_on x c' (signalled_end (kernel x)) → ends c cs →
      client_case i x c (set_ctx x c') (CIdle o) cs
  | C_sent k t c' : pc c = CSend k t → goes_on x c' (signalled_end (kernel x)) →
      client_case i x c (set_ctx x c') (CCreate k t) (todo c)
  | C_create k t : pc c = CCreate k t → nodelock x = None → status x = RUNNING →
      client_case i x c (set_nodes (set_nodemap x (insert_new k Threaded (nodemap x)))
        (<[k := NStart]> (nodes x))) (CIdle (Ok k)) (todo c)
  | C_insert k w : pc c = CExtInsert k w → nodelock x = None →
      client_case i x c (set_nodemap x (insert_new k (Pure w) (nodemap x))) (CExtSignal k) (todo c)
  | C_destroy k w : pc c = CDestroy k → nodelock x = None → nodemap x !! k = Some (Pure w) →
      client_case i x c x (CTerm k TSignal) (todo c)
  | C_term k t y r : pc c = CTerm k t → term_case (TClient i) k x t y r →
      client_case i x c y (match r with
        | TGo t => CTerm k t | TDone => CIdle (Ok k) | TFail e => CIdle (Err e) end) (todo c)
  | C_add q : pc c = CAdd q →
      client_case i x c (set_queuemap x (insert_new q false (queuemap x))) (CIdle (Ok q)) (todo c)
  | C_post : pc c = CNotifyPost → status x = RUNNING →
      client_case i x c (set_status x TERMINATE) CNotifyWake (todo c)
  | C_posted : pc c = CNotifyPost → status x ≠ RUNNING →
      client_case i x c (set_status x (status x)) (CIdle (Ok 0)) (todo c)
  | C_wake : pc c = CNotifyWake → nodelock x = None →
      client_case i x c (SendWakeup x) (CIdle (Ok 0)) (todo c)
  | C_waited s : pc c = CWaiting s → status x ≠ s → status x ≠ DONE →
      client_case i x c x (CWaiting (status x)) (todo c).

Lemma set_ctx_id x : set_ctx x (ctx x) = x.
Proof. by destruct x. Qed.
Lemma goes_on_refl x : inv x → goes_on x (ctx x) (signalled_end (kernel x)).
Proof.
  intros Hi. pose proof (f_ctx _ (i_life _ Hi)) as [Hw He]. done.
Qed.
Lemma goes_on_quiet x : inv x → goes_on x (quiet_ctx x) (signalled_end (kernel x)).
Proof.
  intros Hi. pose proof (f_ctx _ (i_life _ Hi)) as [Hw He].
  assert (LC.wf (quiet_ctx x)) by (by eapply LC.wf_same). done.
Qed.
Lemma quiet_same i x c o cs : inv x → ends c cs → client_case i x c x (CIdle o) cs.
Proof.
  intros Hi He. pose proof (C_quiet i x c (ctx x) o cs (goes_on_refl x Hi) He) as Hq.
  by rewrite set_ctx_id in Hq.
Qed.

Lemma start_cases i x c r a cs y p : inv x → can_call (ctx x) → pc c = CIdle r → todo c = a :: cs →
  start a x = Some (y, p) → client_case i x c y p cs.
Proof.
  intros Hi Hc Hp Ht Hs. pose proof (f_ctx _ (i_life _ Hi)) as Hx.
  assert (ends c cs) as He by (unfold ends; rewrite Hp; by eexists).
  destruct a as [n t|n t|n w|n|q k| |]; cbn in Hs.
  1-3: destruct (call_ctx _ x) as [o z] eqn:E;
    apply (call_CreateNodeKey n x o z _ Hx) in E as (E & H1 & H2 & H3 & H4); try done;
    injection Hs as <- <-; rewrite E; destruct o as [k|]; cbn; [|by apply C_quiet];
    destruct H4 as (H4 & H5 & H6); eapply C_new; try done; [congruence|]; by eauto.
  - destruct (call_ctx _ x) as [o z] eqn:E. apply call_GetNodeKey in E as (-> & H1); [|apply Hx].
    injection Hs as <- <-. destruct o as [k|]; cbn; [|apply C_quiet; [by apply goes_on_quiet|done]].
    destruct H1. eapply C_look; try done. by apply goes_on_quiet.
  - destruct useremote eqn:Hr; cbn in Hs; [|injection Hs as <- <-; by apply quiet_same].
    destruct (is_free _) eqn:Hl; [|done]. apply is_free_true in Hl.
    destruct (nodemap x !! k) eqn:Hk; injection Hs as <- <-; [|by apply quiet_same].
    by eapply C_endpoint.
  - destruct (call_ctx _ x) as [o z] eqn:E.
    apply (call_Terminate x o z _ Hx) in E as (E & H1 & H2 & H3 & H4 & l & -> & H5).
    injection Hs as <- <-. rewrite E. cbn. eapply C_terminate; try done.
    destruct (signalled_end _); [|rewrite decide_True by auto; by left]. case_decide; auto.
  - injection Hs as <- <-. by eapply C_wait.
Qed.

Lemma resume_cases i x c y p : inv x → can_call (ctx x) → clients x !! i = Some c →
  resume i (pc c) x = Some (y, p) → client_case i x c y p (todo c).
Proof.
  intros Hi Hc Hci Hs. pose proof (f_ctx _ (i_life _ Hi)) as Hx.
  assert (∀ k, ckey (pc c) = Some k → known x k) as Hk.
  { intros k Hk. eapply k_known; [apply i_keys, Hi|]. by exists c. }
  destruct (pc c) eqn:Hp; try discriminate Hs; cbn in Hs.
  all: try (assert (ends c (todo c)) as He by (unfold ends; by rewrite Hp)).
  - destruct (call_ctx _ x) as [o z] eqn:E. apply call_SendCreate in E as ->. injection Hs as <- <-.
    pose proof (goes_on_quiet x Hi). destruct o; cbn; [|by apply C_quiet].
    destruct useremote; [by eapply C_sent|by apply C_quiet].
  - destruct (is_free _) eqn:Hl; [|done]. apply is_free_true in Hl. unfold InternalCreateNode in Hs.
    case_decide; [|injection Hs as <- <-; by apply quiet_same].
    destruct (GetNodeFactory type) as [[]|]; injection Hs as <- <-; try by apply quiet_same.
    by eapply C_create.
  - destruct (is_free _) eqn:Hl; [|done]. apply is_free_true in Hl. injection Hs as <- <-.
    by eapply C_insert.
  - destruct (call_ctx _ x) as [o z] eqn:E.
    apply (call_SignalNodeStart key x o z _ Hx) in E as (E & H1 & H2 & H3 & ->); [|done|by apply Hk].
    injection Hs as <- <-. rewrite E. assert (goes_on x (ctx z) (signalled_end (kernel x))) by done.
    destruct (LC.shutdown (ctx x)); by apply C_quiet.
  - destruct (is_free _) eqn:Hl; [|done]. apply is_free_true in Hl. injection Hs as <- <-.
    destruct (nodemap x !! key) as [[w|]|] eqn:Em; cbn; try by apply quiet_same.
    by eapply C_destroy.
  - destruct (NodeTerminated _ _ _ _) as [[z r]|] eqn:E; [|done]. cbn in Hs. injection Hs as <- <-.
    eapply C_term; [done|]. apply term_cases; try done. by apply Hk.
  - injection Hs as <- <-. by apply C_add.
  - unfold CompareAndPost in Hs. case_decide as Hr; injection Hs as <- <-; [by apply C_post|].
    apply C_posted; [done|congruence].
  - destruct (is_free _) eqn:Hl; [|done]. apply is_free_true in Hl. injection Hs as <- <-. by apply C_wake.
  - unfold CompareAndWait in Hs. case_decide as Hw; [done|]. cbn in Hs. injection Hs as <- <-.
    case_decide; [by apply quiet_same|]. by eapply C_waited.
Qed.

Lemma client_cases i x y : inv x → can_call (ctx x) → client_step i x = Some y →
  ∃ c z p cs, clients x !! i = Some c ∧ client_case i x c z p cs ∧
    y = set_clients z (<[i := mk_client p cs]> (clients z)).
Proof.
  intros Hi Hc Hs. unfold client_step in Hs. destruct (clients x !! i) as [c|] eqn:Hci; [|done].
  cbn in Hs. assert (∀ r cs, put_client i cs r = Some y → ∃ z p, r = Some (z, p) ∧
    y = set_clients z (<[i := mk_client p cs]> (clients z))) as Hput.
  { intros [[z p]|] cs E; [|done]. cbn in E. injection E as <-. by exists z, p. }
  destruct (pc c) eqn:Hp.
  1: { destruct (todo c) as [|a cs] eqn:Ht; [done|]. apply Hput in Hs as (z & p & E & ->).
    exists c, z, p, cs. split; [done|]. split; [|done]. by eapply start_cases. }
  all: assert (put_client i (todo c) (resume i (pc c) x) = Some y) as Hr by (rewrite Hp; exact Hs);
    apply Hput in Hr as (z & p & E & ->); exists c, z, p, (todo c); (split; [done|]); (split; [|done]);
    by apply resume_cases.
Qed.

(** ** The invariants hold *)

(** *** Steps of the kernel's thread *)
Lemma kernel_step_locks x p y : locks x → kernel x = p → kernel_case x p y → locks y.
Proof.
  intros [Hl Hg] Hp Hs. rewrite Hp in Hg.
  destruct Hs; try match goal with Hc : gc_case _ _ _ |- _ => destruct Hc end; constructor; try exact Hl; cbn in *; try done; try (by eauto);
    unfold leave_main, gc_return; try (by repeat case_match).
Qed.

(** The kernel takes nodes from the garbage and changes nothing else of them. *)
Lemma keys_frame x y : keys x → (∀ k, key_ok y k) → nodes y = nodes x → nodemap y = nodemap x →
  clients y = clients x → (∀ k, k ∈ garbagenodes y → k ∈ garbagenodes x) →
  (∀ k, known x k → known y k) → keys y.
Proof.
  intros [Ho Hu Hn Hp Hi Hw] Hok En Em Ec Hg Hk.
  assert (∀ k, used y k → used x k) as Huu.
  { intros k. unfold used. rewrite En, Em. naive_solver. }
  constructor; unfold client_keys in *; rewrite ?Ec, ?En; try done.
  - intros k Hy. by apply Hk, Hu, Huu.
  - intros i k Hy. by eapply Hk, Hn.
  - intros i k Hy Hy'. by eapply Hp, Huu.
Qed.
Lemma gc_keys r x y z : keys x → gc_case r y z → (∀ k, key_ok y k) → nodes y = nodes x →
  nodemap y = nodemap x → clients y = clients x → (∀ k, k ∈ garbagenodes y → k ∈ garbagenodes x) →
  ctx y = ctx x → keys z.
Proof.
  intros Hx Hc Hok En Em Ec Hg Et. unfold key_ok in Hok.
  destruct Hc as [Eg|k g Eg]; rewrite Eg in *; apply (keys_frame x); try done; unfold known; cbn;
    by rewrite Et.
Qed.
Lemma kernel_step_keys x p y : inv x → kernel x = p → kernel_case x p y → keys y.
Proof.
  intros [[_ Hg] Hx _ Hlife] Hk Hs. rewrite Hk in Hg. pose proof (k_ok _ Hx) as Ho.
  assert (∀ c dead, goes_on x c dead → ∀ k, known x k → is_Some (LC.nodemap c !! k)) as Hc.
  { intros c dead (_ & (_ & Hm & _) & _). exact Hm. }
  destruct Hs; try (by apply (keys_frame x); eauto using key_frame);
    try (by apply (keys_frame x); try done; intros j Hj; eapply Hc; eassumption).
  - apply (keys_frame x); try done. intros k. eapply key_frame; try done; cbn. intros Es.
    apply (f_done _ Hlife) in Es. congruence.
  - by eapply (gc_keys r x x).
  - eapply gc_keys; try done; cbn.
    + destruct Hg as (_ & g & Eg). intros j. destruct (decide (j = k)) as [->|Hj].
      * unfold joinable in H0. specialize (Ho k). unfold key_ok in *. cbn.
        destruct (nodes x !! k) as [[]|]; try done. set_solver.
      * eapply key_frame; try done; cbn; rewrite ?Eg; cbn; set_solver.
    + destruct Hg as (_ & g & ->). cbn. set_solver.
Qed.

Lemma kernel_step_sleeps x p y : inv x → kernel x = p → kernel_case x p y → sleeps y.
Proof.
  intros [[_ Hg] _ [Hm Hrm Hsg Hss Hsm Hsp Hspg Hsd] Hlife] Hk Hs. rewrite Hk in *.
  destruct Hs; try match goal with Hc : gc_case _ _ _ |- _ => destruct Hc end; constructor; cbn in *;
    unfold leave_main, gc_return in *; try done; try (by repeat case_match); auto.
  - intros Hr. by rewrite Hm in Hr.
Qed.

(** When the map is empty every thread is over, and is, or was, in the garbage. *)
Lemma ended_collected x k : keys x → kernel x ≠ KEnded → (status x = DONE ↔ kernel x = KEnded) →
  nodes x !! k = Some NEnded → k ∈ garbagenodes x ∨ k ∈ released x.
Proof.
  intros Hk Hp Hd Hn. pose proof (k_ok _ Hk k) as Ho. unfold key_ok in Ho. rewrite Hn in Ho.
  destruct Ho as [[_ ?]|[_ Hs]]; [done|]. by apply Hd in Hs.
Qed.
Lemma drained_ended x k q : locks x → keys x → nodemap x = ∅ → nodelock x = None →
  nodes x !! k = Some q → q = NEnded.
Proof.
  intros Hl Hk Em El Eq. pose proof (k_ok _ Hk k) as Ho. unfold key_ok in Ho.
  rewrite Eq, Em, lookup_empty in Ho.
  assert (crit (nterm q) ≠ true) as Hc.
  { intros Hc. assert (nodelock x = Some (TNode k)); [|congruence]. apply l_node; [done|]. cbn. by rewrite Eq. }
  destruct q as [| |[]| |]; try done; by destruct Ho.
Qed.
Lemma kernel_step_life x p y : inv x → kernel x = p → kernel_case x p y → life y.
Proof.
  intros Hinv Hk Hs. pose proof Hinv as [Hlocks Hkeys _ [Hc Hf Hi Hd Ht Hn Hp He Hfo Hno Hen Hj]].
  pose proof (l_garbage _ Hlocks) as Hg. rewrite Hk in *.
  assert (p ≠ KInit → p ≠ KEnded → status x ≠ RUNNING → status x = TERMINATE) as Hl.
  { destruct (status x) eqn:Es; try done; intros H1 H2 _; [by destruct H1; apply Hi|by destruct H2; apply Hd]. }
  assert (p = KInit → status x = INITIALIZED) as Hini by apply Hi.
  assert (p ≠ KEnded → ∀ k, nodes x !! k = Some NEnded → k ∈ garbagenodes x ∨ k ∈ released x) as Hcol.
  { intros Hp' k. apply ended_collected; [done|congruence|by rewrite Hk]. }
  assert (∀ k, nodes x !! k = Some NProcess → nodelock x = None → k ∈ (map_to_list (nodemap x)).*1) as Hmap.
  { intros k Hk' _. pose proof (k_ok _ Hkeys k) as Ho. unfold key_ok in Ho. rewrite Hk' in Ho.
    destruct Ho as [Ho _]. apply list_elem_of_fmap. exists (k, Threaded). split; [done|]. by apply elem_of_map_to_list. }
  destruct Hs; try match goal with Hg : gc_case ?r _ _ |- _ => destruct Hg, r end; cbn in *;
    try match goal with Hg : goes_on _ _ _ |- _ => destruct Hg as (Hcok & (_ & _ & Hgr) & Hsd) end;
    unfold leave_main, gc_return in *;
    try match goal with |- context [useremote] => destruct useremote end.
  all: try rewrite Hini by done.
  all: try (assert (status x = TERMINATE) as Hst by (by apply Hl)).
  all: constructor; cbn in *; unfold over in *; cbn in *; rewrite ?Hst in *; try done; auto.
  all:  try (split; [intros E; first [apply Hi in E|apply Hd in E]; discriminate E|discriminate]);
    try (intros j Hj'; destruct (Hno j Hj') as [?|[?|(? & ? & ?)]]; simplify_eq; by eauto).
  all: try (intros q Hq Hq'; rewrite Hsd; by apply (Hn q)); try (intros; congruence).
  - intros k Hk'. right. right. eexists. split; [done|]. by apply Hmap.
  - intros j Hj'. right. destruct (Hno j Hj') as [?|[?|(l' & [= <-] & [->|?]%elem_of_cons)]]; [done|..].
    + left. set_solver.
    + left. set_solver.
    + right. by exists l.
  - intros k Hk'. destruct (Hno k Hk') as [?|[?|(l & [= <-] & []%elem_of_nil)]]; auto.
  - intros k q _ _ Eq. by apply (drained_ended x k q).
  - intros k q _ Hf' Eq. pose proof (Hen k q eq_refl Hf' Eq) as ->.
    destruct (Hcol ltac:(done) k Eq) as [Hin|]; [|done].
    match goal with E : garbagenodes x = [] |- _ => rewrite E in Hin end. by apply elem_of_nil in Hin.
  - intros j q _ Hf' Eq. pose proof (Hen j q eq_refl Hf' Eq) as ->. destruct Hg as (_ & g & Eg).
    destruct (Hcol ltac:(done) j Eq) as [Hin|]; [|set_solver].
    match goal with E : tail (garbagenodes x) = [] |- _ => rewrite Eg in E; cbn in E; subst g end.
    rewrite Eg in Hin. apply list_elem_of_singleton in Hin as ->. set_solver.
Qed.

Lemma kernel_step_inv x y : inv x → can_call (ctx x) → kernel_step x = Some y → inv y.
Proof.
  intros Hi Hc Hs. apply kernel_cases in Hs; [|done..]. split.
  - by eapply kernel_step_locks, Hs; [apply Hi|].
  - by eapply kernel_step_keys.
  - by eapply kernel_step_sleeps.
  - by eapply kernel_step_life.
Qed.

(** *** Steps of [NodeTerminated] *)
Record same_but_threads (z y : sys) : Prop := {
  b_ctx : ctx y = ctx z; b_status : status y = status z; b_nodemap : nodemap y = nodemap z;
  b_garbage : garbagenodes y = garbagenodes z; b_signal : nodecond_signal y = nodecond_signal z;
  b_wakeup : wakeup y = wakeup z; b_nodelock : nodelock y = nodelock z;
  b_garbagelock : garbagelock y = garbagelock z; b_kernel : kernel y = kernel z;
  b_notified : notified y = notified z; b_released : released y = released z;
  b_forced : forced y = forced z }.
Definition put_thread (r : tid) (t : option tpc) (z y : sys) : Prop :=
  same_but_threads z y ∧ (∀ q, ending y q = if decide (q = r) then t else ending z q) ∧
  (∀ p, p = CNotifyPost ∨ p = CNotifyWake → client_at p z → client_at p y).

Definition after_term (o : tres) : option tpc := match o with TGo t => Some t | _ => None end.
Lemma put_node z k p : put_thread (TNode k) (nterm p) z (set_node z k p).
Proof. split; [done|]. split; [apply ending_node|done]. Qed.
Lemma put_client z i c d : clients z !! i = Some d → pc d ≠ CNotifyPost → pc d ≠ CNotifyWake →
  put_thread (TClient i) (cterm (pc c)) z (set_clients z (<[i := c]> (clients z))).
Proof.
  intros Hi H1 H2. split; [done|]. split; [by intros q; eapply ending_client|].
  intros p Hp (j & e & Hj & <-). exists j, e. split; [|done]. cbn.
  rewrite list_lookup_insert_ne; [done|]. intros <-. simplify_eq. by destruct Hp.
Qed.

Lemma term_ending r k t x z o q : term_case r k x t z o → ending z q = ending x q.
Proof. intros []; try done; unfold SendWakeup; by destruct useremote. Qed.
Lemma term_clients r k t x z o : term_case r k x t z o → clients z = clients x.
Proof. intros []; try done; unfold SendWakeup; by destruct useremote. Qed.
Lemma term_nodes r k t x z o : term_case r k x t z o → nodes z = nodes x.
Proof. intros []; try done; unfold SendWakeup; by destruct useremote. Qed.
Lemma awake_join p : match awake p with KJoin r k => p = KJoin r k | _ => ∀ r k, p ≠ KJoin r k end.
Proof. by destruct p. Qed.

Lemma locks_frame x y : locks x → (∀ q, ending y q = ending x q) → nodelock y = nodelock x →
  garbagelock y = garbagelock x → garbagenodes y = garbagenodes x →
  kernel y = kernel x ∨ kernel y = awake (kernel x) → locks y.
Proof.
  intros [Hl Hg] He El Eg En Hk. split.
  - intros q. by rewrite El, He.
  - rewrite Eg, En. destruct Hk as [-> | ->]; [done|]. by destruct (kernel x).
Qed.
Lemma locks_put r t z y : put_thread r t z y →
  (∀ q, nodelock z = Some q ↔ crit (if decide (q = r) then t else ending z q) = true) →
  match kernel z with
  | KJoin _ k => garbagelock z = Some TKernel ∧ ∃ g, garbagenodes z = k :: g
  | _ => garbagelock z = None
  end → locks y.
Proof.
  intros [[] [He _]] Hl Hg. split.
  - intros q. by rewrite b_nodelock0, He.
  - by rewrite b_kernel0, b_garbagelock0, b_garbage0.
Qed.
Lemma term_locks r k t x z o y : locks x → ending x r = Some t → term_case r k x t z o →
  put_thread r (after_term o) z y → locks y.
Proof.
  intros [Hl Hg] Hr Ht Hp. eapply locks_put; [done|..].
  - intros q. rewrite (term_ending _ _ _ _ _ _ _ Ht). revert q.
    assert (critical t = true → nodelock x = Some r) as Hcr by (intros Hc; apply Hl; by rewrite Hr).
    apply (lock_put (nodelock x) (nodelock z) (ending x) _ r (after_term o) Hl); [done|].
    rewrite Hr. destruct Ht; cbn in *; try (by left); try (right; by auto).
  - destruct Ht; try done; cbn; try (by destruct (kernel x)).
    + destruct (kernel x); try done. destruct Hg; congruence.
    + unfold SendWakeup. destruct useremote; cbn; by destruct (kernel x).
Qed.

Lemma term_sleeps r k t x z o y : sleeps x → locks x → ending x r = Some t → term_case r k x t z o →
  put_thread r (after_term o) z y → sleeps y.
Proof.
  intros [Hm Hrm Hsg Hss Hsm Hsp Hspg Hsd] Hlx Hr Ht [[] [He Hcl]].
  assert (∀ p, p = CNotifyPost ∨ p = CNotifyWake → client_at p x → client_at p y) as Hat.
  { intros p Hp' Hc. apply Hcl; [done|]. unfold client_at. by rewrite (term_clients _ _ _ _ _ _ Ht). }
  assert (t ≠ TWake → waking x → waking y) as Hw.
  { intros Htw [q Hq]. exists q. rewrite He, (term_ending _ _ _ _ _ _ _ Ht). case_decide; [|done].
    subst q. congruence. }
  destruct Ht; cbn in *.
  all: constructor; rewrite ?b_kernel0, ?b_status0, ?b_nodemap0, ?b_garbage0, ?b_signal0, ?b_wakeup0, ?b_nodelock0; cbn; auto.
  all: try (intros E1; destruct (Hsm E1); by auto);
    try (intros E1; destruct (Hsp E1) as [?|[?|?]]; by auto 6);
    try (intros E1 E2; destruct (Hsg E1 E2); by auto);
    try (intros E1 E2; destruct (Hspg E1 E2); by auto).
  all: try (intros _ _; right; exists r; rewrite He; by rewrite decide_True).
  all: destruct useremote; cbn in *; destruct (kernel x) as [| | | | | | | | | | | | | | | |[]|[] ?| | | |];
    cbn in *; try done; auto.
  all: try (intros E1; destruct (Hsp E1) as [?|[?|?]]; by auto 6).
  all: intros E1 E2; first [by specialize (Hrm E1)|destruct (Hspg E1 E2); by auto].
Qed.

Lemma client_at_frame p x y : clients y = clients x → client_at p y → client_at p x.
Proof. unfold client_at. by intros ->. Qed.
(** The threads of nodes and clients inside [NodeTerminated]; [k'] is the node
    whose thread moved, if one did. *)
Lemma term_life r k t x z o y : life x → ending x r = Some t → term_case r k x t z o →
  put_thread r (after_term o) z y →
  (∀ p, p = CNotifyPost ∨ p = CNotifyWake → client_at p y → client_at p x) →
  (∀ j p, nodes y !! j = Some p → nodes x !! j = Some p ∨ r = TNode j ∧ p ≠ NProcess) → life y.
Proof.
  intros [Hc Hf Hi Hd Ht Hn Hp He Hfo Hno Hen Hj] Hr Hs Hput Hcl Hnodes.
  assert (ctx_ok (ctx z) (signalled_end (kernel x)) ∧ (LC.shutdown (ctx z) = LC.shutdown (ctx x)) ∧
    status z = status x ∧ forced z = forced x ∧ notified z = notified x ∧ released z = released x ∧
    (kernel z = kernel x ∨ kernel z = awake (kernel x))) as (Hcz & Hsz & Est & Efo & Eno & Ere & Ek).
  { destruct Hs; unfold SendWakeup; try (by auto 10); [|by destruct useremote; cbn; split_and!; auto; right; destruct (kernel x)].
    destruct H0 as (? & (_ & _ & ?) & ?). by auto 10. }
  assert (∀ p, p = CNotifyPost ∨ p = CNotifyWake → client_at p x → client_at p y) as Hat.
  { intros p Hp' Hx. apply Hput; [done|]. unfold client_at. by rewrite (term_clients _ _ _ _ _ _ Hs). }
  assert (∀ j, r = TNode j → ∃ p, nodes x !! j = Some p ∧ p ≠ NEnded) as Hrn.
  { intros j ->. cbn in Hr. destruct (nodes x !! j) as [p|]; [|done]. exists p. split; [done|].
    intros ->. done. }
  destruct Hput as [[] _].
  assert (∀ f : kpc → bool, (f KMainAwake = f KMainSleep) → (f KDrainAwake = f KDrainSleep) →
    f (kernel y) = f (kernel x)) as Hfk.
  { intros f E1 E2. rewrite b_kernel0. destruct Ek as [-> | ->]; [done|]. by destruct (kernel x). }
  assert (∀ q, q ≠ KMainSleep → q ≠ KMainAwake → q ≠ KDrainSleep → q ≠ KDrainAwake →
    kernel y = q ↔ kernel x = q) as Hkq.
  { intros q H1 H2 H3 H4. rewrite b_kernel0. destruct Ek as [-> | ->]; [done|].
    destruct (kernel x); cbn; try done; split; congruence. }
  assert (over y ↔ over x) as Hov by (unfold over; by rewrite b_ctx0, Hsz).
  constructor; rewrite ?(Hfk signalled_end), ?(Hfk is_fault), ?(Hfk past_main), ?(Hfk in_main),
    ?(Hfk past_copy), ?(Hfk past_drain), ?(Hfk past_gc) by done; rewrite ?b_ctx0, ?b_status0, ?b_forced0, ?Est, ?Efo, ?Hov; try done.
  - by rewrite Hi, Hkq.
  - by rewrite Hd, Hkq.
  - intros p Hpy Hp'. apply Hov. eapply Hn; [|done]. by apply Hcl.
  - intros Ho Hm. destruct (He Ho Hm); auto.
  - intros j Hj'. destruct (Hnodes j _ Hj') as [Hx|[_ ?]]; [|done]. rewrite b_notified0, Eno.
    destruct (Hno j Hx) as [?|[?|(l & El & ?)]]; auto. right. right. exists l. by rewrite Hkq.
  - intros j p H1 H2 H3. destruct (Hnodes j _ H3) as [Hx|[Hx _]]; [by eapply Hen|].
    destruct (Hrn j Hx) as (p' & E & Hne). by destruct Hne, (Hen j p' H1 H2 E).
  - intros j p H1 H2 H3. rewrite b_released0, Ere. destruct (Hnodes j _ H3) as [Hx|[Hx _]]; [by eapply Hj|].
    destruct (Hrn j Hx) as (p' & E & _). by eapply Hj.
Qed.

(** *** Steps of the nodes' threads *)
Lemma keys_node x y k q : keys x → is_Some (nodes x !! k) → key_ok y k →
  nodes y = <[k := q]> (nodes x) → clients y = clients x → (∀ j, known x j → known y j) →
  (∀ j, j ≠ k → nodemap y !! j = nodemap x !! j) →
  (∀ j, j ≠ k → j ∈ garbagenodes y ↔ j ∈ garbagenodes x) →
  released y = released x → (status x = DONE → status y = DONE) → keys y.
Proof.
  intros [Ho Hu Hn Hp Hi Hw] Hk Hok En Ec Hkn Hm Hg Hr Hs.
  assert (∀ j, used y j → used x j) as Huu.
  { intros j. destruct (decide (j = k)) as [->|Hj]; [intros _; by left|]. unfold used.
    rewrite En, lookup_insert_ne, Hm, Hg by done. done. }
  constructor; unfold client_keys in *; rewrite ?Ec; try done.
  - intros j. destruct (decide (j = k)) as [->|Hj]; [done|].
    eapply key_frame; try done; rewrite ?En, ?Hr; auto. by rewrite lookup_insert_ne.
  - intros j Hy. by apply Hkn, Hu, Huu.
  - intros i j Hy. by eapply Hkn, Hn.
  - intros i j Hy Hy'. by eapply Hp, Huu.
  - intros i j Hy. rewrite En. pose proof (Hw i j Hy) as Hnone. destruct (decide (j = k)) as [->|Hj].
    + rewrite Hnone in Hk. by destruct Hk.
    + by rewrite lookup_insert_ne.
Qed.

Lemma goes_on_known x c dead j : goes_on x c dead → known x j → is_Some (LC.nodemap c !! j).
Proof. intros (_ & (_ & Hm & _) & _). apply Hm. Qed.

Lemma node_step_keys x k p y : inv x → nodes x !! k = Some p → node_case k x p y → keys y.
Proof.
  intros [Hl Hx _ Hlife] Hp Hs.
  assert (is_Some (nodes x !! k)) as Hk by by eexists.
  pose proof (k_ok _ Hx k) as Ho. unfold key_ok in Ho. rewrite Hp in Ho.
  assert (∀ q, key_ok (set_node x k q) k ↔ key_ok (set_node x k q) k) as _ by done.
  destruct Hs as [c Hc _|c Hc _|o Hn|t z r Ht].
  - eapply (keys_node x _ k NProcess); try done; [|intros j; by eapply goes_on_known].
    unfold key_ok. cbn. by rewrite lookup_insert_eq.
  - eapply (keys_node x _ k (NTerm TSignal)); try done; [|intros j; by eapply goes_on_known].
    unfold key_ok. cbn. by rewrite lookup_insert_eq.
  - eapply (keys_node x _ k (process_ends o)); try done. unfold key_ok. cbn. rewrite lookup_insert_eq.
    unfold process_ends. destruct o as [|e]; [done|]. by destruct (catches e).
  - assert (∀ j, known x j → known z j) as Hkn.
    { intros j Hj. destruct Ht; try done; [by eapply goes_on_known|]. unfold known, SendWakeup. by destruct useremote. }
    eapply (keys_node x _ k); [done|done| |cbn; rewrite (term_nodes _ _ _ _ _ _ Ht); done
      |by apply (term_clients _ _ _ _ _ _ Ht)|exact Hkn|..];
      unfold key_ok; cbn; rewrite ?lookup_insert_eq; destruct Ht; cbn; try done;
      unfold SendWakeup; try (by destruct useremote).
    all: try (intros; by rewrite lookup_delete_ne).
    all: try (intros; set_solver).
    + destruct Ho. by rewrite lookup_delete_eq.
    + left. destruct useremote; cbn; by destruct Ho; auto.
Qed.

Lemma sleeps_frame x y : sleeps x → kernel y = kernel x → garbagenodes y = garbagenodes x →
  nodecond_signal y = nodecond_signal x → status y = status x → wakeup y = wakeup x →
  nodemap y = nodemap x → nodelock y = nodelock x → (waking x → waking y) →
  (client_at CNotifyWake x → client_at CNotifyWake y) → sleeps y.
Proof.
  intros [Hm Hrm Hsg Hss Hsm Hsp Hspg Hsd] Ek Eg Es Et Ew En El Hw Hc.
  constructor; rewrite ?Ek, ?Eg, ?Es, ?Et, ?Ew, ?En, ?El; auto.
  - intros H1 H2. destruct (Hsg H1 H2); auto.
  - intros H1. destruct (Hsm H1); auto.
  - intros H1. destruct (Hsp H1) as [?|[?|?]]; auto.
  - intros H1 H2. destruct (Hspg H1 H2); auto.
Qed.
Lemma life_frame x y : life x → ctx_ok (ctx y) (signalled_end (kernel x)) → (over y ↔ over x) →
  status y = status x → kernel y = kernel x → forced y = forced x → notified y = notified x →
  released y = released x →
  (∀ p, p = CNotifyPost ∨ p = CNotifyWake → client_at p y → client_at p x) →
  (in_main (kernel x) = true → client_at CNotifyPost x → status x = TERMINATE ∨ client_at CNotifyPost y) →
  (∀ j p, nodes y !! j = Some p → nodes x !! j = Some p ∨
    (p = NProcess → past_copy (kernel x) = false) ∧
    (past_drain (kernel x) = true → forced x = false → ∃ p', nodes x !! j = Some p' ∧ p' ≠ NEnded)) →
  life y.
Proof.
  intros [Hc Hf Hi Hd Ht Hn Hp He Hfo Hno Hen Hj] Hcy Hov Es Ek Ef En Er Hcl Hpost Hnodes.
  assert (past_gc (kernel x) = true → past_drain (kernel x) = true) as Hpast by by destruct (kernel x).
  constructor; rewrite ?Es, ?Ek, ?Ef, ?En, ?Er, ?Hov; try done.
  - intros p Hpy Hp'. apply Hov. eapply Hn; [|done]. by apply Hcl.
  - intros Ho Hm. destruct (He Ho Hm); auto.
  - intros j Hj'. destruct (Hnodes j _ Hj') as [Hx|[Hx _]]; [|by left; apply Hx]. by apply Hno.
  - intros j p H1 H2 H3. destruct (Hnodes j _ H3) as [Hx|[_ Hx]]; [by eapply Hen|].
    destruct (Hx H1 H2) as (p' & E & Hne). by destruct Hne, (Hen j p' H1 H2 E).
  - intros j p H1 H2 H3. destruct (Hnodes j _ H3) as [Hx|[_ Hx]]; [by eapply Hj|].
    destruct (Hx (Hpast H1) H2) as (p' & E & _). by eapply Hj.
Qed.

(** A node's thread that stays outside [NodeTerminated], or comes to it. *)
Lemma node_life x k p q c : life x → nodes x !! k = Some p → p ≠ NEnded →
  goes_on x c (signalled_end (kernel x)) → (q = NProcess → LC.shutdown c = false) →
  life (set_node (set_ctx x c) k q).
Proof.
  intros Hx Hp Hne (Hc & _ & Hs) Hq. apply (life_frame x); try done.
  - unfold over. cbn. by rewrite Hs.
  - intros _ ?. by right.
  - intros j p'. cbn. destruct (decide (j = k)) as [->|Hj].
    + rewrite lookup_insert_eq. intros [= <-]. right. split; [|by eauto].
      intros ->. specialize (Hq eq_refl). pose proof (f_past _ Hx) as Hpast. unfold over in Hpast.
      destruct (kernel x) as [| | | | | | | | | | | | | | | |[]|[] ?| | | |]; cbn in *; try done;
        rewrite <- Hs, Hq in Hpast; by specialize (Hpast eq_refl).
    + rewrite lookup_insert_ne by done. by left.
Qed.

Lemma waking_node x k p q : nodes x !! k = Some p → nterm p ≠ Some TWake → waking x →
  waking (set_node x k q).
Proof.
  intros Hp Hne [r Hr]. exists r. rewrite ending_node. case_decide; [|done]. subst r. cbn in Hr.
  by rewrite Hp in Hr.
Qed.
Lemma node_quiet_inv x k p q c : inv x → nodes x !! k = Some p → p ≠ NEnded →
  crit (nterm p) = false → crit (nterm q) = false →
  goes_on x c (signalled_end (kernel x)) → (q = NProcess → LC.shutdown c = false) →
  keys (set_node (set_ctx x c) k q) → inv (set_node (set_ctx x c) k q).
Proof.
  intros [Hl Hk Hs Hlife] Hp Hne Hcp Hcq Hc Hq Hkeys. split; [|done|..].
  - eapply locks_put; [apply put_node|..]; cbn; [|by apply Hl].
    apply (lock_put (nodelock x) (nodelock x) (ending x) _ (TNode k) (nterm q)); [by apply Hl|done|].
    left. split; [done|]. cbn. by rewrite Hp, Hcq.
  - apply (sleeps_frame x); try done. intros Hw.
    eapply (waking_node (set_ctx x c)); [done|by intros E; rewrite E in Hcp|done].
  - by eapply node_life.
Qed.

Lemma node_step_inv x k o y : inv x → can_call (ctx x) → node_step k o x = Some y → inv y.
Proof.
  intros Hi Hc Hs. apply node_cases in Hs as (p & Hp & Hs); [|done..].
  pose proof (node_step_keys _ _ _ _ Hi Hp Hs) as Hkeys.
  pose proof Hi as [Hlocks _ Hsleeps Hlife].
  destruct Hs as [c Hco Hsd|c Hco Hsd|o' Hn|t z r Ht].
  - by eapply node_quiet_inv.
  - by eapply node_quiet_inv.
  - pose proof (node_quiet_inv x k _ (process_ends o') (ctx x) Hi Hp) as Hq.
    rewrite set_ctx_id in Hq. apply Hq; try done; [|by apply goes_on_refl|];
      unfold process_ends; destruct o' as [|e]; try done; by destruct (catches e).
  - set (q := match r with TGo t => NTerm t | TDone => NEnded | TFail e => NUnhandled e end) in *.
    assert (put_thread (TNode k) (after_term r) z (set_node z k q)) as Hput.
    { replace (after_term r) with (nterm q) by (by destruct r). apply put_node. }
    assert (ending x (TNode k) = Some t) as He by (cbn; by rewrite Hp).
    split; [by eapply term_locks|done|by eapply term_sleeps|].
    eapply term_life; try done.
    + intros p _ Hp'. eapply client_at_frame; [|done]. cbn. by rewrite (term_clients _ _ _ _ _ _ Ht).
    + intros j p. cbn. rewrite (term_nodes _ _ _ _ _ _ Ht). destruct (decide (j = k)) as [->|Hj].
      * rewrite lookup_insert_eq. intros [= <-]. right. split; [done|]. by destruct r.
      * rewrite lookup_insert_ne by done. by left.
Qed.

(** *** Steps of the clients *)
Lemma owns_ckey p k : owns p = Some k → ckey p = Some k.
Proof. by destruct p. Qed.
Lemma pend_owns p k : pend p = Some k → owns p = Some k.
Proof. by destruct p. Qed.
Lemma keys_client x y i c p cs : keys x → clients x !! i = Some c →
  clients y = <[i := mk_client p cs]> (clients x) →
  (∀ j, known x j → known y j) → (∀ j, key_ok y j) →
  (∀ j, used y j → used x j ∨ owns (pc c) = Some j) →
  (∀ j, nodes x !! j = None → nodes y !! j = None ∨ pend (pc c) = Some j) →
  (∀ k, ckey p = Some k → known y k) →
  (∀ k, pend p = Some k → ¬ used y k ∧ (pend (pc c) = Some k ∨ ¬ known x k)) →
  (∀ k, owns p = Some k → nodes y !! k = None ∧ (owns (pc c) = Some k ∨ ¬ known x k ∨ used x k)) →
  keys y.
Proof.
  intros [Ho Hu Hn Hp Hi Hw] Hci Ec H1 H2 H3 H4 H5 H6 H7.
  assert (∀ f j k, client_keys f y j k ↔ if decide (j = i) then f p = Some k else client_keys f x j k) as Hck.
  { intros f j k. unfold client_keys. rewrite Ec. case_decide as Hj.
    - subst j. rewrite list_lookup_insert_eq by (by eapply lookup_lt_Some). split.
      + by intros (? & [= <-] & ?).
      + intros ?. by eexists.
    - by rewrite list_lookup_insert_ne. }
  assert (∀ (f : cpc → option Z) k, f (pc c) = Some k → client_keys f x i k) as Hci' by (intros; by exists c).
  constructor; try done.
  - intros k [Hy|Hy]%H3; [by apply H1, Hu|]. eapply H1, Hn, Hci'. by apply owns_ckey.
  - intros j k. rewrite Hck. case_decide; [by apply H5|]. intros Hy. by eapply H1, Hn.
  - intros j k. rewrite Hck. case_decide as Hj; [by apply H6|]. intros Hy [Hz|Hz]%H3.
    + by eapply Hp.
    + by apply Hj, (Hi j i k), Hci'.
  - intros a b k. rewrite !Hck. repeat case_decide; subst; try done.
    + intros [_ [E|E]]%H6 Hb; [by apply (Hi i b k), Hb; apply Hci'|]. destruct E.
      destruct Hb as (d & Hd & E). apply (Hn b k). exists d. by split; [|apply owns_ckey].
    + intros Ha [_ [E|[E|E]]]%H7; [by apply (Hi a i k), Hci'| |by destruct (Hp a k)].
      destruct E, Ha as (d & Hd & E). apply (Hn a k). exists d. by split; [|apply owns_ckey, pend_owns].
    + by apply Hi.
  - intros j k. rewrite Hck. case_decide as Hj; [by apply H7|]. intros Hy.
    destruct (H4 k (Hw j k Hy)) as [?|E]; [done|]. destruct Hj. symmetry. by apply (Hi i j k); [apply Hci'|].
Qed.

Lemma client_step_keys i x c z p cs : inv x → clients x !! i = Some c → client_case i x c z p cs →
  keys (set_clients z (<[i := mk_client p cs]> (clients z))).
Proof.
  intros [Hl Hx _ Hlife] Hci Hs.
  assert (∀ k, key_ok x k) as Ho by apply (k_ok _ Hx).
  assert (∀ k, ckey (pc c) = Some k → known x k) as Hkn by (intros k Hk; eapply (k_known _ Hx); by exists c).
  assert (∀ k, pend (pc c) = Some k → ¬ used x k) as Hpe by (intros k Hk; eapply (k_pend _ Hx); by exists c).
  assert (∀ k, owns (pc c) = Some k → nodes x !! k = None) as How by (intros k Hk; eapply (k_owns _ Hx); by exists c).
  destruct Hs as [r a cs c' p k Hp Ht Hc Hsd Hf Hin Hk|r a cs c' k Hp Ht Hc Hsd Hk|r cs c' p Hp Ht Hc Hg Hsd Hk
    |r q k cs Hp Ht|r cs Hp Ht|c' o cs Hc He|k t c' Hp Hc|k t Hp Hl' Hst|k w Hp Hl'|k w Hp Hl' Hm|k t y r Hp Ht
    |q Hp|Hp Hst|Hp Hst|Hp Hl'|s Hp Hst].
  all: try (eapply keys_client; [exact Hx|exact Hci|done|..]; try done; by auto).
  - eapply keys_client; [exact Hx|exact Hci|done|..]; try done; auto.
    + intros j. by eapply goes_on_known.
    + destruct Hk as [(t & [-> | ->])|[w ->]]; intros j [= <-]; exact Hin.
    + assert (∀ j, pend p = Some j → j = k) as Hpk by (by destruct Hk as [(t & [-> | ->])|[w ->]]; intros j [= <-]).
      assert (¬ known x k) as Hn by (unfold known; rewrite Hf; by intros []).
      intros j ->%Hpk. split; [|by right]. intros Hy. by apply Hn, (k_used _ Hx).
    + assert (∀ j, owns p = Some j → j = k) as Hpk by (by destruct Hk as [(t & [-> | ->])|[w ->]]; intros j [= <-]).
      assert (¬ known x k) as Hn by (unfold known; rewrite Hf; by intros []).
      intros j ->%Hpk. split; [|by auto]. cbn. destruct (nodes x !! k) eqn:E; [|done].
      destruct Hn. apply (k_used _ Hx). left. by rewrite E.
  - eapply keys_client; [exact Hx|exact Hci|done|..]; try done; auto.
    + intros j. by eapply goes_on_known.
    + intros j [= <-]. by eapply goes_on_known.
  - eapply keys_client; [exact Hx|exact Hci|done|..]; try done; auto; try (by destruct Hk as [-> |[-> _]]).
    intros j. destruct Hg as (_ & Hg & _). apply Hg.
  - eapply keys_client; [exact Hx|exact Hci|done|..]; try done; auto.
    intros j. by eapply goes_on_known.
  - eapply keys_client; [exact Hx|exact Hci|done|..]; try done; auto.
    + intros j. by eapply goes_on_known.
    + intros j [= <-]. eapply goes_on_known, Hkn; [done|]. by rewrite Hp.
    + intros j [= <-]. rewrite Hp. split; [|by left]. apply Hpe. by rewrite Hp.
    + intros j [= <-]. rewrite Hp. split; [|by left]. apply How. by rewrite Hp.
  - assert (¬ used x k) as Hnu by (apply Hpe; by rewrite Hp).
    assert (nodemap x !! k = None) as Hnm by (destruct (nodemap x !! k) eqn:E; [|done]; destruct Hnu; right; left; by rewrite E).
    assert (k ∉ garbagenodes x) as Hng by (intros ?; destruct Hnu; by right; right).
    unfold insert_new. rewrite Hnm.
    eapply keys_client; [exact Hx|exact Hci|done|..]; try done; auto; cbn.
    + intros j. destruct (decide (j = k)) as [->|Hj].
      * unfold key_ok. cbn. by rewrite !lookup_insert_eq.
      * eapply key_frame; [apply Ho|..]; cbn; try done; by rewrite lookup_insert_ne.
    + intros j. destruct (decide (j = k)) as [->|Hj]; [rewrite Hp; by right|]. unfold used. cbn.
      rewrite !lookup_insert_ne by done. by left.
    + intros j Hj. destruct (decide (j = k)) as [->|Hne]; [rewrite Hp; by right|].
      rewrite lookup_insert_ne by done. by left.
  - assert (¬ used x k) as Hnu by (apply Hpe; by rewrite Hp).
    assert (nodemap x !! k = None) as Hnm by (destruct (nodemap x !! k) eqn:E; [|done]; destruct Hnu; right; left; by rewrite E).
    assert (nodes x !! k = None) as Hnn by (apply How; by rewrite Hp).
    unfold insert_new. rewrite Hnm.
    eapply keys_client; [exact Hx|exact Hci|done|..]; try done; auto; cbn.
    + intros j. destruct (decide (j = k)) as [->|Hj].
      * unfold key_ok. cbn. by rewrite Hnn, !lookup_insert_eq.
      * eapply key_frame; [apply Ho|..]; cbn; try done; by rewrite lookup_insert_ne.
    + intros j. destruct (decide (j = k)) as [->|Hj]; [rewrite Hp; by right|]. unfold used. cbn.
      rewrite !lookup_insert_ne by done. by left.
    + intros j [= <-]. apply Hkn. by rewrite Hp.
  - eapply keys_client; [exact Hx|exact Hci|done|..]; try done; auto; cbn.
    + intros j [= <-]. apply Hkn. by rewrite Hp.
    + intros j [= <-]. split; [|right; right; right; left; by rewrite Hm]. pose proof (Ho k) as Hk. unfold key_ok in Hk.
      rewrite Hm in Hk. destruct (nodes x !! k) as [[| |[]| |]|]; try done; by destruct Hk as [[]|[]]||destruct Hk.
  - assert (nodes x !! k = None) as Hnn by (apply How; by rewrite Hp).
    assert (known x k) as Hkk by (apply Hkn; by rewrite Hp).
    assert (∀ j, known x j → known y j) as Hkn'.
    { intros j Hj. destruct Ht; try done; [by eapply goes_on_known|]. unfold known, SendWakeup. by destruct useremote. }
    assert (nodemap x !! k ≠ Some Threaded) as Hnt by (pose proof (Ho k) as Hk; unfold key_ok in Hk; by rewrite Hnn in Hk).
    assert (∀ j, (nodes y !! j = nodes x !! j) ∧ (j ≠ k → nodemap y !! j = nodemap x !! j ∧
      (j ∈ garbagenodes y ↔ j ∈ garbagenodes x)) ∧ (nodemap y !! k = nodemap x !! k ∨ nodemap y !! k = None) ∧
      released y = released x ∧ status y = status x) as Hy.
    { intros j. rewrite (term_nodes _ _ _ _ _ _ Ht). split; [done|].
      destruct Ht; unfold SendWakeup; try (by auto 10); try (by destruct useremote; auto 10); cbn.
      - rewrite lookup_delete_eq. split; [|by auto]. intros Hj. by rewrite lookup_delete_ne.
      - split; [|by auto]. intros Hj. set_solver. }
    eapply (keys_client x _ i c _ (todo c)); [exact Hx|exact Hci|cbn; by rewrite (term_clients _ _ _ _ _ _ Ht)
      |exact Hkn'|..]; cbn.
    + intros j. destruct (Hy j) as (E1 & E2 & E3 & E4 & E5). destruct (decide (j = k)) as [->|Hj].
      * unfold key_ok. cbn. rewrite E1, Hnn. destruct E3 as [-> | ->]; done.
      * destruct (E2 Hj). eapply key_frame; [apply Ho|..]; cbn; rewrite ?E4, ?E5; done.
    + intros j Hu. destruct (decide (j = k)) as [->|Hj]; [rewrite Hp; by right|].
      destruct (Hy j) as (E1 & E2 & _). destruct (E2 Hj) as [E3 E4]. left. unfold used in *. cbn in Hu.
      by rewrite E1, E3, E4 in Hu.
    + intros j Hj. left. by destruct (Hy j) as (-> & _).
    + intros j. destruct r; cbn; try done. intros [= <-]. by apply Hkn'.
    + intros j. by destruct r.
    + intros j. destruct r; cbn; try done. intros [= <-]. destruct (Hy k) as (-> & _). rewrite Hp. auto.
  - eapply keys_client; [exact Hx|exact Hci|done|..]; try done; auto.
    intros j. eapply key_frame; [apply Ho|..]; try done. cbn. congruence.
  - unfold SendWakeup. destruct useremote;
      (eapply keys_client; [exact Hx|exact Hci|done|..]; try done; by auto).
Qed.

(** A client that goes from one call of the context to the next, or does less. *)
Record calm (x y : sys) : Prop := {
  m_status : status y = status x; m_nodemap : nodemap y = nodemap x; m_garbage : garbagenodes y = garbagenodes x;
  m_signal : nodecond_signal y = nodecond_signal x; m_wakeup : wakeup y = wakeup x;
  m_nodelock : nodelock y = nodelock x; m_garbagelock : garbagelock y = garbagelock x;
  m_kernel : kernel y = kernel x; m_notified : notified y = notified x; m_released : released y = released x;
  m_forced : forced y = forced x; m_nodes : nodes y = nodes x; m_clients : clients y = clients x }.
Definition notifies (p : cpc) : bool := match p with CNotifyPost | CNotifyWake => true | _ => false end.
Lemma client_at_put x i c p cs q : clients x !! i = Some c →
  client_at q (set_clients x (<[i := mk_client p cs]> (clients x))) →
  client_at q x ∨ p = q.
Proof.
  intros Hci (j & d & Hj & <-). cbn in Hj. destruct (decide (j = i)) as [->|Hne].
  - rewrite list_lookup_insert_eq in Hj by (by eapply lookup_lt_Some). injection Hj as <-. by right.
  - rewrite list_lookup_insert_ne in Hj by done. left. by exists j, d.
Qed.
Lemma client_at_keep x i c p cs q : clients x !! i = Some c → pc c ≠ q → client_at q x →
  client_at q (set_clients x (<[i := mk_client p cs]> (clients x))).
Proof.
  intros Hci Hne (j & d & Hj & <-). exists j, d. split; [|done]. cbn.
  rewrite list_lookup_insert_ne; [done|]. intros <-. congruence.
Qed.
Lemma client_calm_inv x z i c p cs : inv x → calm x z → clients x !! i = Some c →
  ctx_ok (ctx z) (signalled_end (kernel x)) → LC.shutdown (ctx z) = LC.shutdown (ctx x) →
  crit (cterm (pc c)) = false → crit (cterm p) = false → notifies (pc c) = false → notifies p = false →
  keys (set_clients z (<[i := mk_client p cs]> (clients z))) →
  inv (set_clients z (<[i := mk_client p cs]> (clients z))).
Proof.
  intros [Hl Hk Hs Hlife] [] Hci Hc Hsd Hcc Hcp Hnc Hnp Hkeys.
  assert (clients z !! i = Some c) as Hcz by by rewrite m_clients0.
  assert (∀ q, ending z q = ending x q) as He by (intros []; cbn; by rewrite ?m_nodes0, ?m_clients0).
  set (y := set_clients _ _) in *.
  assert (∀ q, ending y q = if decide (q = TClient i) then cterm p else ending x q) as Hey.
  { intros q. unfold y. by rewrite (ending_client z i _ c), He. }
  split; [|done|..].
  - split.
    + cbn. rewrite m_nodelock0. apply (lock_put (nodelock x) (nodelock x) (ending x) _ (TClient i) (cterm p));
        [by apply Hl|done|]. left. split; [done|]. cbn. by rewrite Hci, Hcp.
    + cbn. rewrite m_kernel0, m_garbage0, m_garbagelock0. by apply Hl.
  - apply (sleeps_frame x); try done.
    + intros [q Hq]. exists q. rewrite Hey. case_decide; [|done]. subst q. cbn in Hq. rewrite Hci in Hq.
      cbn in Hq. by rewrite Hq in Hcc.
    + intros Ha. eapply client_at_keep; [done|by intros E; rewrite E in Hnc|]. by eapply client_at_frame.
  - apply (life_frame x); try done.
    + unfold over. by rewrite <- Hsd.
    + intros q Hq Ha. apply (client_at_put z i c) in Ha as [Ha| ->]; [by eapply client_at_frame| |done].
      by destruct Hq as [-> | ->].
    + intros _ Ha. right. eapply client_at_keep; [done| |by eapply client_at_frame].
      intros E. by rewrite E in Hnc.
    + intros j q. cbn. rewrite m_nodes0. by left.
Qed.

Lemma client_locks x z i c p cs : locks x → clients x !! i = Some c → clients z = clients x →
  (∀ q, ending z q = ending x q) → nodelock z = nodelock x → garbagelock z = garbagelock x →
  garbagenodes z = garbagenodes x → kernel z = kernel x ∨ kernel z = awake (kernel x) →
  crit (cterm (pc c)) = false → crit (cterm p) = false →
  locks (set_clients z (<[i := mk_client p cs]> (clients z))).
Proof.
  intros Hl Hci Ec He En Eg Egn Ek Hcc Hcp. assert (locks z) as [Hz1 Hz2] by by eapply (locks_frame x).
  assert (clients z !! i = Some c) as Hcz by by rewrite Ec.
  split; [|done]. cbn. apply (lock_put (nodelock z) (nodelock z) (ending z) _ (TClient i) (cterm p)); [done| |].
  - intros q. by eapply (ending_client z i (mk_client p cs) c).
  - left. split; [done|]. cbn. by rewrite Hcz, Hcp.
Qed.
(** An entry is added to [nodemap]. *)
Lemma insert_sleeps x y k n : sleeps x → nodelock x = None → kernel y = kernel x →
  garbagenodes y = garbagenodes x → nodecond_signal y = nodecond_signal x → status y = status x →
  wakeup y = wakeup x → nodemap y = insert_new k n (nodemap x) → (waking x → waking y) →
  (client_at CNotifyWake x → client_at CNotifyWake y) → sleeps y.
Proof.
  intros [Hm Hrm Hsg Hss Hsm Hsp Hspg Hsd] Hl Ek Eg Es Et Ew En Hw Hc.
  constructor; rewrite ?Ek, ?Eg, ?Es, ?Et, ?Ew, ?En; auto.
  - intros H1 H2. destruct (Hsg H1 H2); auto.
  - intros H1. destruct (Hsm H1); auto.
  - intros H1. destruct (Hsp H1) as [?|[?|?]]; auto.
  - intros H1 H2. destruct (Hspg H1 H2); auto.
  - intros H1. left. destruct (Hsd H1) as [Hne|]; [|done]. unfold insert_new.
    destruct (nodemap x !! k); [done|]. apply insert_non_empty.
Qed.
Lemma waking_client x z i c p cs : clients x !! i = Some c → clients z = clients x →
  cterm (pc c) = None → (∀ q, ending z q = ending x q) → waking x →
  waking (set_clients z (<[i := mk_client p cs]> (clients z))).
Proof.
  intros Hci Ec Hp He [q Hq]. exists q. rewrite (ending_client z i _ c) by by rewrite Ec.
  case_decide; [|by rewrite He]. subst q. cbn in Hq. by rewrite Hci in Hq; cbn in Hq; rewrite Hp in Hq.
Qed.

Lemma wake_life x : life x → life (SendWakeup x).
Proof.
  intros [Hc Hf Hi Hd Ht Hn Hp He Hfo Hno Hen Hj]. unfold SendWakeup.
  destruct useremote; constructor; unfold over; cbn; try done; destruct (kernel x); try done; auto;
    try (split; [intros E; first [apply Hi in E|apply Hd in E]; discriminate E|discriminate]);
    intros k Hk; destruct (Hno k Hk) as [?|[?|(l & E & ?)]]; by auto.
Qed.

Lemma client_step_inv i x y : inv x → can_call (ctx x) → client_step i x = Some y → inv y.
Proof.
  intros Hi Hc Hs. apply client_cases in Hs as (c & z & p & cs & Hci & Hs & ->); [|done..].
  pose proof (client_step_keys _ _ _ _ _ _ Hi Hci Hs) as Hkeys.
  pose proof Hi as [Hlocks Hk Hsleeps Hlife]. pose proof (f_ctx _ Hlife) as Hctx.
  assert (∀ cs, ends c cs → crit (cterm (pc c)) = false ∧ notifies (pc c) = false) as Hends.
  { intros ?. unfold ends. by destruct (pc c). }
  destruct Hs as [r a cs c' p k Hp Ht Hco Hsd Hf Hin Hkk|r a cs c' k Hp Ht Hco Hsd Hkk
    |r cs c' p Hp Ht Hco Hg Hsd Hkk
    |r q k cs Hp Ht|r cs Hp Ht|c' o cs Hco He|k t c' Hp Hco|k t Hp Hl' Hst|k w Hp Hl'|k w Hp Hl' Hm|k t y r Hp Ht
    |q Hp|Hp Hst|Hp Hst|Hp Hl'|s Hp Hst].
  all: try (by apply (client_calm_inv x _ i c); try done; try (by apply Hco); try (by apply (Hends cs));
    try (by rewrite Hp); by destruct Hkk as [(t & [-> | ->])|[w ->]]).
  all: try (by apply (client_calm_inv x _ i c); try done; by rewrite Hp).
  - split; [|done|..].
    + eapply (client_locks x); try done; try (by left); [by rewrite Hp|by destruct Hkk as [-> |[-> _]]].
    + apply (sleeps_frame x); try done.
      * eapply (waking_client x (set_ctx x c')); try done. by rewrite Hp.
      * eapply (client_at_keep (set_ctx x c')); [done|by rewrite Hp].
    + destruct Hlife as [Hc' Hf Hin Hd Htm Hn Hpa He Hfo Hno Hen Hj].
      constructor; unfold over; cbn; try done; auto.
      intros _ Hm. right. destruct Hkk as [-> |[-> Hsg]].
      * eexists i, _. split; [apply list_lookup_insert_eq; by eapply lookup_lt_Some|done].
      * by destruct (kernel x).
  - set (z := set_nodes _ _) in *. assert (nodes x !! k = None) as Hnn.
    { apply (k_owns _ Hk i). exists c. by rewrite Hp. }
    assert (∀ q, ending z q = ending x q) as He.
    { intros [|j| |]; try done. cbn. destruct (decide (j = k)) as [->|Hj].
      - by rewrite lookup_insert_eq, Hnn.
      - by rewrite lookup_insert_ne. }
    split; [|done|..].
    + eapply (client_locks x); try done; try (by left); by rewrite Hp.
    + eapply (insert_sleeps x _ k Threaded); try done.
      * eapply (waking_client x z); try done. by rewrite Hp.
      * eapply (client_at_keep z); [done|by rewrite Hp].
    + apply (life_frame x); try done.
      * intros q Hq Ha. apply (client_at_put z i c) in Ha as [Ha| <-]; [done| |done]. by destruct Hq.
      * intros _ Ha. right. eapply (client_at_keep z); [done|by rewrite Hp|done].
      * intros j q. cbn. destruct (decide (j = k)) as [->|Hj]; [|rewrite lookup_insert_ne by done; by left].
        rewrite lookup_insert_eq. intros [= <-]. right. split; [done|]. intros Hpd Hfo.
        destruct (f_forced _ Hlife) as [E|E]; [by destruct (kernel x) as [| | | | | | | | | | | | | | | |[]|[] ?| | | |]|done|congruence..].
  - set (z := set_nodemap _ _) in *. split; [|done|..].
    + eapply (client_locks x); try done; try (by left); by rewrite Hp.
    + eapply (insert_sleeps x _ k (Pure w)); try done.
      * eapply (waking_client x z); try done. by rewrite Hp.
      * eapply (client_at_keep z); [done|by rewrite Hp].
    + apply (life_frame x); try done.
      * intros q Hq Ha. apply (client_at_put z i c) in Ha as [Ha| <-]; [done| |done]. by destruct Hq.
      * intros _ Ha. right. eapply (client_at_keep z); [done|by rewrite Hp|done].
      * intros j q. by left.
  - set (p := match r with TGo t => CTerm k t | TDone => CIdle (Ok k) | TFail e => CIdle (Err e) end) in *.
    assert (clients y !! i = Some c) as Hcy by (by rewrite (term_clients _ _ _ _ _ _ Ht)).
    assert (put_thread (TClient i) (after_term r) y (set_clients y (<[i := mk_client p (todo c)]> (clients y)))) as Hput.
    { replace (after_term r) with (cterm (pc (mk_client p (todo c)))) by (by destruct r).
      apply (put_client y i _ c); [done|by rewrite Hp..]. }
    assert (ending x (TClient i) = Some t) as He by (cbn; by rewrite Hci; cbn; rewrite Hp).
    split; [by eapply term_locks|done|by eapply term_sleeps|].
    eapply term_life; try done.
    + intros q Hq Ha. apply (client_at_put y i c) in Ha as [Ha| <-]; [| |done].
      * eapply client_at_frame; [|done]. by rewrite (term_clients _ _ _ _ _ _ Ht).
      * unfold p in Hq. destruct r; by destruct Hq.
    + intros j q. cbn. rewrite (term_nodes _ _ _ _ _ _ Ht). by left.
  - assert (over x) as Hov by (eapply (f_notify _ Hlife CNotifyPost); [by exists i, c|by left]).
    set (z := set_status _ _) in *.
    assert (client_at CNotifyWake (set_clients z (<[i := mk_client CNotifyWake (todo c)]> (clients z)))) as Hat.
    { eexists i, _. split; [apply list_lookup_insert_eq; by eapply lookup_lt_Some|done]. }
    split; [|done|..].
    + eapply (client_locks x); try done; try (by left); by rewrite Hp.
    + destruct Hsleeps as [Hm Hrm Hsg Hss Hsm Hsp Hspg Hsd]. constructor; cbn; try done; auto.
      all: intros H1 H2; first [destruct (Hsg H1 H2)|destruct (Hspg H1 H2)]; [by left|right];
        eapply (waking_client x z); try done; by rewrite Hp.
    + destruct Hlife as [Hc' Hf Hin Hd Htm Hn Hpa He Hfo Hno Hen Hj].
      constructor; unfold over; cbn; try done; auto; split; try done; intros E; [apply Hin in E|apply Hd in E];
        congruence.
  - set (z := set_status _ _) in *. split; [|done|..].
    + eapply (client_locks x); try done; try (by left); by rewrite Hp.
    + apply (sleeps_frame x); try done.
      * eapply (waking_client x z); try done. by rewrite Hp.
      * eapply (client_at_keep z); [done|by rewrite Hp].
    + apply (life_frame x); try done.
      * intros q Hq Ha. apply (client_at_put z i c) in Ha as [Ha| <-]; [done| |done]. by destruct Hq.
      * intros Hm _. left. destruct (status x) eqn:Es; try done.
        -- by rewrite (proj1 (f_init _ Hlife) Es) in Hm.
        -- by rewrite (proj1 (f_done _ Hlife) Es) in Hm.
      * intros j q. by left.
  - assert (life (SendWakeup x)) as Hlz by by apply wake_life.
    assert (clients (SendWakeup x) = clients x ∧ nodes (SendWakeup x) = nodes x ∧
      kernel (SendWakeup x) = awake (kernel x) ∧ nodelock (SendWakeup x) = nodelock x ∧
      garbagelock (SendWakeup x) = garbagelock x ∧ garbagenodes (SendWakeup x) = garbagenodes x ∧
      nodecond_signal (SendWakeup x) = true ∧ (useremote = true → wakeup (SendWakeup x) = true))
      as (Ec & En & Ek & El & Eg & Egn & Es & Ew).
    { unfold SendWakeup. by destruct useremote. }
    assert (clients (SendWakeup x) !! i = Some c) as Hcz by by rewrite Ec.
    assert (∀ q, ending (SendWakeup x) q = ending x q) as He by (intros []; unfold SendWakeup; by destruct useremote).
    split; [|done|..].
    + eapply (client_locks x); try done; try (by right); by rewrite Hp.
    + destruct Hsleeps as [Hm Hrm Hsg Hss Hsm Hsp Hspg Hsd]. constructor; cbn [set_clients kernel nodecond_signal status
        wakeup nodemap nodelock garbagenodes]; rewrite Ek; rewrite ?Es.
      * destruct (kernel x); try done; auto.
      * by destruct (kernel x).
      * by left.
      * by destruct (kernel x).
      * by destruct (kernel x).
      * intros Hpo. right. right. apply Ew. destruct (kernel x) as [| | | | | | | | | | | | | | | |[]|[] ?| | | |]; try done; first [by apply Hrm|exact Hpo].
      * intros Hpo _. left. apply Ew. destruct (kernel x); try done; by apply Hrm.
      * by destruct (kernel x).
    + apply (life_frame (SendWakeup x)); try done; [by apply Hlz|..].
      * intros q Hq Ha. apply (client_at_put _ i c) in Ha as [Ha| <-]; [done| |done]. by destruct Hq.
      * intros _ Ha. right. eapply (client_at_keep (SendWakeup x)); [done|by rewrite Hp|done].
      * intros j q. by left.
Qed.

(** *** The other steps *)
Lemma calm_inv x z : inv x → calm x z → ctx_ok (ctx z) (signalled_end (kernel x)) →
  LC.shutdown (ctx z) = LC.shutdown (ctx x) → (∀ k, known x k → known z k) → inv z.
Proof.
  intros [Hl Hk Hs Hlife] [] Hc Hsd Hkn.
  assert (∀ q, ending z q = ending x q) as He by (intros []; cbn; by rewrite ?m_nodes0, ?m_clients0).
  assert (∀ p, client_at p z ↔ client_at p x) as Hat by (intros p; unfold client_at; by rewrite m_clients0).
  split.
  - apply (locks_frame x); auto.
  - apply (keys_frame x); auto.
    + intros k. eapply key_frame; [apply (k_ok _ Hk)|..]; rewrite ?m_nodes0, ?m_nodemap0, ?m_garbage0,
        ?m_released0, ?m_status0; done.
    + intros k. by rewrite m_garbage0.
  - apply (sleeps_frame x); auto; [|by rewrite Hat]. intros [q Hq]. exists q. by rewrite He.
  - apply (life_frame x); auto.
    + unfold over. by rewrite Hsd.
    + intros p _. by rewrite Hat.
    + intros _. rewrite Hat. by right.
    + intros j p. rewrite m_nodes0. by left.
Qed.

(** The kernel wakes by itself. *)
Lemma spurious_inv x : inv x → inv (Signal x).
Proof.
  intros [Hl Hk Hs Hlife]. split.
  - apply (locks_frame x); auto.
  - by apply (keys_frame x); try apply Hk.
  - destruct Hs as [Hm Hrm Hsg Hss Hsm Hsp Hspg Hsd].
    constructor; unfold Signal; cbn; destruct (kernel x); try done; auto.
  - destruct Hlife as [Hc Hf Hi Hd Ht Hn Hp He Hfo Hno Hen Hj].
    constructor; unfold over; cbn; try done; destruct (kernel x); try done; auto;
    try (split; [intros E; first [apply Hi in E|apply Hd in E]; discriminate E|discriminate]);
    intros k Hk'; destruct (Hno k Hk') as [?|[?|(l & E & ?)]]; by auto.
Qed.

Lemma step_inv r x y : inv x → step r x y → inv y.
Proof.
  intros Hi Hs. pose proof (f_ctx _ (i_life _ Hi)) as Hc.
  assert (∀ q, runs q x y → can_call (ctx x) → inv y) as Hrun.
  { intros q Hr Hcc. destruct q; cbn in Hr.
    - by eapply kernel_step_inv.
    - destruct Hr as [o Hr]. by eapply node_step_inv.
    - by eapply client_step_inv.
    - unfold queue_step in Hr. destruct (queuemap x !! k) as [[]|]; try done. injection Hr as <-.
      by apply (calm_inv x). }
  destruct Hs as [q x y Hr Hcc|q x y Hr Hcc|o x [Ho1 Ho2] Hcc|k o x Hp|k b x|x Hp|x|x]; try done.
  - eapply Hrun; [done|by left].
  - eapply Hrun; [done|by right].
  - destruct (run_ok o (ctx x) _ Hc (or_introl Hcc) Ho2) as [H1 (H2 & H3 & H4)].
    unfold call_ctx. destruct (LC.run o (LC.set_signals (ctx x) false false)) as [v c] eqn:E. cbn in *.
    apply (calm_inv x); try done. cbn.
    pose proof (op_shutdown o (LC.set_signals (ctx x) false false) Ho1) as Hs. rewrite E in Hs. done.
  - pose proof (node_quiet_inv x k _ (process_ends o) (ctx x) Hi Hp) as Hq. rewrite set_ctx_id in Hq.
    apply Hq; try done; [|by apply goes_on_refl| |];
      try (unfold process_ends; destruct o as [|e]; try done; by destruct (catches e)).
    pose proof (k_ok _ (i_keys _ Hi) k) as Ho. unfold key_ok in Ho. rewrite Hp in Ho.
    eapply (keys_node x _ k (process_ends o)); try done; [by apply Hi|].
    unfold key_ok. cbn. rewrite lookup_insert_eq.
    unfold process_ends. destruct o as [|e]; [done|]. by destruct (catches e).
  - by apply (calm_inv x).
  - destruct Hi as [Hl Hk Hs Hlife]. split.
    + destruct Hl as [Hl Hg]. rewrite Hp in Hg. by split.
    + by apply (keys_frame x); try apply Hk.
    + destruct Hs as [Hm Hrm Hsg Hss Hsm Hsp Hspg Hsd]. rewrite Hp in *. by constructor.
    + destruct Hlife as [Hc' Hf Hin Hd Ht Hn Hpa He Hfo Hno Hen Hj]. rewrite Hp in *.
      constructor; cbn; try done; auto;
      try (split; [intros E; first [apply Hin in E|apply Hd in E]; discriminate E|discriminate]).
  - by apply spurious_inv.
Qed.

Lemma kernel_initial_inv x : initial x → inv x.
Proof.
  intros (Hw & Hsd & Hc & (i & Hi & Hs & Hd) & E1 & E2 & E3 & E4 & E5 & E6 & E7 & E8 & E9 & E10 & E11 & E12 & E13 & Hcl).
  assert (∀ q, ending x q = None) as He.
  { intros [|k|j|]; cbn; try done; [by rewrite E10, lookup_empty|].
    destruct (clients x !! j) as [c|] eqn:Ej; [|done]. destruct (Hcl j c Ej) as [r Hr]. cbn. by rewrite Hr. }
  assert (∀ f j k, (∀ r, f (CIdle r) = None) → ¬ client_keys f x j k) as Hno.
  { intros f j k Hf (c & Hj & Hk). destruct (Hcl j c Hj) as [r Hr]. rewrite Hr, Hf in Hk. done. }
  assert (∀ p, client_at p x → ∃ r, p = CIdle r) as Hat by (intros p (j & c & Hj & <-); by eapply Hcl).
  split.
  - split; [intros q; by rewrite E7, He|by rewrite E9].
  - constructor.
    + intros k. unfold key_ok. by rewrite E10, E2, lookup_empty.
    + intros k. unfold used. rewrite E10, E2, E3, !lookup_empty.
      intros [[? ?]|[[? ?]|Hk]]; [done..|]. by apply elem_of_nil in Hk.
    + intros j k Hk. by apply Hno in Hk.
    + intros j k Hk. by apply Hno in Hk.
    + intros j j' k Hk. by apply Hno in Hk.
    + intros j k Hk. by apply Hno in Hk.
  - by constructor; rewrite E9.
  - constructor; rewrite ?E9, ?E10, ?E1; unfold over; try done.
    + by split; [|exists i].
    + intros p Hp Hq. by destruct (Hat p Hp) as [r ->], Hq.
Qed.
Lemma kernel_reachable_inv x : reachable x → inv x.
Proof.
  intros (x0 & H0%kernel_initial_inv & Hs). induction Hs as [|a b d [r Hr] _ IH]; [done|].
  by apply IH, (step_inv r a).
Qed.

(** ** What the invariants give *)

Lemma not_waking x : locks x → nodelock x = None → ¬ waking x.
Proof.
  intros Hl En [q Hq]. assert (nodelock x = Some q); [|congruence]. apply l_node; [done|]. by rewrite Hq.
Qed.

(** C10: a kernel ends after its nodes.  In every reachable state, whatever nodes
    are created, end, and by which threads: the kernel's thread does not fail, a
    node that ends is in [nodemap], so that [NodeTerminated] does not fail, and
    until the kernel is [DONE] it is then with the nodes to be joined or joined.
    When [Wait] can return, every node that was ever created has ended and its
    thread was joined, but where the kernel had to stop before it had started. *)
Theorem kernel_ends_after_its_nodes x : reachable x →
  (∀ e, kernel x ≠ KFault e) ∧
  (∀ k t y e, nodes x !! k = Some (NTerm t) → can_call (ctx x) →
    NodeTerminated (TNode k) k t x ≠ Some (y, TFail e)) ∧
  (∀ k, nodes x !! k = Some NEnded → status x ≠ DONE → k ∈ garbagenodes x ∨ k ∈ released x) ∧
  (CompareAndWait RUNNING (status x) = Some DONE → forced x = false →
    ∀ k p, nodes x !! k = Some p → p = NEnded ∧ k ∈ released x).
Proof.
  intros Hi%kernel_reachable_inv. pose proof Hi as [Hl Hk _ Hlife]. split_and!.
  - intros e E. pose proof (f_fault _ Hlife) as Hf. by rewrite E in Hf.
  - intros k t y e Hn Hc E. pose proof (k_ok _ Hk k) as Ho. unfold key_ok in Ho. rewrite Hn in Ho.
    apply term_cases in E; [|done|done|apply (k_used _ Hk); left; by rewrite Hn].
    inversion E; subst. destruct Ho. congruence.
  - intros k Hn Hd. apply ended_collected; try done; [|apply Hlife].
    intros E. by apply Hd, (f_done _ Hlife).
  - unfold CompareAndWait. case_decide; [done|]. intros [= Hd] Hfo k p Hp.
    apply (f_done _ Hlife) in Hd. split.
    + eapply (f_end _ Hlife k p); [by rewrite Hd|done..].
    + eapply (f_join _ Hlife k p); [by rewrite Hd|done..].
Qed.

(** C34: the kernel sleeps only when it has nothing to do.  In every reachable
    state in which no thread is inside [nodelock], a kernel's thread that waits on
    [nodecond], or in [Poll] with nothing in the pipe, has no ended node to join,
    and was not told to stop by anyone who is not still about to wake it; waiting
    for its nodes, it has some.  So no wake-up is lost. *)
Theorem kernel_sleeps_when_idle x : reachable x → nodelock x = None →
  (kernel x = KMainSleep ∨ kernel x = KPoll ∧ wakeup x = false →
    garbagenodes x = [] ∧ (status x = RUNNING ∨ client_at CNotifyWake x)) ∧
  (kernel x = KDrainSleep → garbagenodes x = [] ∧ nodemap x ≠ ∅).
Proof.
  intros [Hl _ Hs Hlife]%kernel_reachable_inv En. pose proof (not_waking x Hl En) as Hw.
  assert (∀ b, (drowsy (kernel x) = true ∧ b = nodecond_signal x ∨ polled (kernel x) = true ∧ b = wakeup x) →
    b = false → garbagenodes x = []) as Hg.
  { intros b Hb Hf. destruct (garbagenodes x) eqn:Eg; [done|].
    destruct Hb as [[Hb ->]|[Hb ->]];
      [destruct (s_garbage _ Hs Hb)|destruct (s_polled _ Hs Hb)]; try (by rewrite Eg); try done; congruence. }
  split.
  - intros [E|[E Ew]].
    + split; [|by apply (s_main _ Hs)]. eapply (Hg _ (or_introl (conj _ eq_refl))).
      apply (s_signal _ Hs). by rewrite E.
    + split; [by eapply Hg; [right; rewrite E|]|].
      assert (polls (kernel x) = true) as Hpo by by rewrite E.
      destruct (s_poll _ Hs Hpo) as [?|[?|?]]; [by left|by right|congruence].
  - intros E. split.
    + eapply (Hg _ (or_introl (conj _ eq_refl))). apply (s_signal _ Hs). by rewrite E.
    + by destruct (s_drain _ Hs E).
  Unshelve. all: by rewrite E.
Qed.

(** An external endpoint that nobody is destroying. *)
Definition left_behind (k : Z) (x : sys) : Prop :=
  (∃ w, nodemap x !! k = Some (Pure w)) ∧
  ∀ i c, clients x !! i = Some c → pc c ≠ CDestroy k ∧ ∀ t, pc c ≠ CTerm k t.
Definition stuck (k : Z) (x : sys) : Prop :=
  inv x ∧ over x ∧ left_behind k x ∧ past_drain (kernel x) = false.
Lemma goes_on_over x c dead : goes_on x c dead → over x → LC.shutdown c = true.
Proof. unfold over. by intros (_ & _ & ->). Qed.
Lemma term_over r k t x y o : term_case r k x t y o → over x → over y.
Proof.
  intros [] Ho; try done; [by eapply goes_on_over|]. unfold over, SendWakeup. by destruct useremote.
Qed.
Lemma term_nodemap r k t x y o j : term_case r k x t y o → j ≠ k → nodemap y !! j = nodemap x !! j.
Proof.
  intros [] Hj; try done; cbn; [by rewrite lookup_delete_ne|]. unfold SendWakeup. by destruct useremote.
Qed.
Lemma term_drain r k t x y o : term_case r k x t y o → past_drain (kernel y) = past_drain (kernel x).
Proof.
  intros []; try done; cbn; [by destruct (kernel x)|]. unfold SendWakeup.
  destruct useremote; cbn; by destruct (kernel x).
Qed.
Lemma insert_new_keep {A} k j (a : A) m b : m !! j = Some b → insert_new k a m !! j = Some b.
Proof.
  intros Hj. unfold insert_new. destruct (m !! k) eqn:Hk; [done|]. rewrite lookup_insert_ne; [done|congruence].
Qed.

Lemma stuck_kernel k x y : stuck k x → can_call (ctx x) → kernel_step x = Some y → stuck k y.
Proof.
  intros (Hi & Ho & [[w Hm] Hc] & Hd) Hcc Hs. assert (inv y) as Hy by by eapply kernel_step_inv.
  apply kernel_cases in Hs; [|done..]. revert Hs Hd. generalize (kernel x). intros p Hs Hd.
  destruct Hs; try match goal with Hg : gc_case ?r _ _ |- _ => destruct Hg, r end; try discriminate Hd;
    try (split; [done|]; split; [exact Ho|]; split; [by split; [exists w|]|];
      unfold leave_main, gc_return; cbn; by repeat case_match).
  - split; [done|]. split; [by eapply goes_on_over|]. split; [by split; [exists w|]|]. cbn. by destruct useremote.
  - split; [done|]. split; [by eapply goes_on_over|]. split; [by split; [exists w|]|]. cbn.
    unfold leave_main. by destruct useremote.
  - match goal with E : nodemap x = ∅ |- _ => by rewrite E, lookup_empty in Hm end.
Qed.
Lemma stuck_node k x j o y : stuck k x → can_call (ctx x) → node_step j o x = Some y → stuck k y.
Proof.
  intros (Hi & Ho & [[w Hm] Hc] & Hd) Hcc Hs. assert (inv y) as Hy by by eapply node_step_inv.
  apply node_cases in Hs as (p & Hp & Hs); [|done..].
  assert (j ≠ k) as Hjk.
  { intros ->. pose proof (k_ok _ (i_keys _ Hi) k) as Hk. unfold key_ok in Hk. rewrite Hp, Hm in Hk.
    destruct p as [| |[]| |]; try (by destruct Hk). by destruct Hk as [[]|[]]. }
  split; [done|]. destruct Hs as [c Hg _|c Hg _|o' _|t z r Ht].
  - split; [by eapply goes_on_over|]. split; [by split; [exists w|]|done].
  - split; [by eapply goes_on_over|]. split; [by split; [exists w|]|done].
  - split; [done|]. split; [by split; [exists w|]|done].
  - split; [exact (term_over _ _ _ _ _ _ Ht Ho)|]. split; [split|].
    + exists w. cbn. by rewrite (term_nodemap _ _ _ _ _ _ k Ht).
    + intros i c. cbn. rewrite (term_clients _ _ _ _ _ _ Ht). apply Hc.
    + cbn. by rewrite (term_drain _ _ _ _ _ _ Ht).
Qed.
Lemma stuck_client k x i y : stuck k x → can_call (ctx x) → client_step i x = Some y → stuck k y.
Proof.
  intros (Hi & Ho & [[w Hm] Hc] & Hd) Hcc Hs. assert (inv y) as Hy by by eapply client_step_inv.
  apply client_cases in Hs as (c & z & p & cs & Hci & Hs & ->); [|done..].
  destruct (Hc i c Hci) as [Hnd Hnt].
  assert (over z ∧ nodemap z !! k = Some (Pure w) ∧ clients z = clients x ∧
    past_drain (kernel z) = past_drain (kernel x) ∧ p ≠ CDestroy k ∧ ∀ t, p ≠ CTerm k t) as (H1 & H2 & H3 & H4 & H5).
  { destruct Hs as [r a cs c' p k' Hp Ht Hco Hsd Hf Hin Hkk|r a cs c' k' Hp Ht Hco Hsd Hkk
      |r cs c' p Hp Ht Hco Hg Hsd Hkk
      |r q k' cs Hp Ht|r cs Hp Ht|c' o cs Hco He|k' t c' Hp Hco|k' t Hp Hl' Hst|k' w' Hp Hl'|k' w' Hp Hl' Hm'|k' t y r Hp Ht
      |q Hp|Hp Hst|Hp Hst|Hp Hl'|s Hp Hst]; try done; try (split; [by eapply goes_on_over|done]).
    - pose proof (goes_on_over _ _ _ Hco Ho). congruence.
    - pose proof (goes_on_over _ _ _ Hco Ho). congruence.
    - split; [done|]. split; [done|]. by destruct Hkk as [-> |[-> _]].
    - split; [done|]. split; [by apply insert_new_keep|done].
    - split; [done|]. split; [by apply insert_new_keep|done].
    - split_and!; try done. intros t E. injection E as -> _. congruence.
    - assert (k ≠ k') as Hne by (intros ->; by destruct (Hnt t)).
      split; [by eapply term_over|]. split; [by rewrite (term_nodemap _ _ _ _ _ _ k Ht)|].
      split; [by apply (term_clients _ _ _ _ _ _ Ht)|]. split; [by apply (term_drain _ _ _ _ _ _ Ht)|].
      destruct r; try done. split; [done|]. intros t'. congruence.
    - unfold over, SendWakeup. destruct useremote; cbn; by destruct (kernel x). }
  split; [done|]. split; [done|]. split; [|cbn; congruence]. split; [by exists w|].
  intros j d Hj. cbn in Hj. rewrite H3 in Hj. destruct (decide (j = i)) as [->|Hji].
  - rewrite list_lookup_insert_eq in Hj by (by eapply lookup_lt_Some). by injection Hj as <-.
  - rewrite list_lookup_insert_ne in Hj by done. by eapply Hc.
Qed.
Lemma stuck_step k r x y : stuck k x → step r x y → stuck k y.
Proof.
  intros Hx Hs. assert (∀ q, runs q x y → can_call (ctx x) → stuck k y) as Hrun.
  { intros q Hr Hcc. destruct q; cbn in Hr.
    - by eapply stuck_kernel.
    - destruct Hr as [o Hr]. by eapply stuck_node.
    - by eapply stuck_client.
    - assert (inv y) as Hy by (eapply (step_inv (Some (TQueue k0)) x); [apply Hx|by apply S_over; [|apply Hx]]).
      unfold queue_step in Hr. destruct (queuemap x !! k0) as [[]|]; try done. injection Hr as <-.
      destruct Hx as (_ & Hx). done. }
  assert (inv y) as Hy by (by eapply step_inv; [apply Hx|]). destruct Hx as (Hi & Ho & Hl & Hd).
  destruct Hs as [q x y Hr Hcc|q x y Hr Hcc|o x [Ho1 Ho2] Hcc|j o x Hp|j b x|x Hp|x|x]; try done.
  - eapply Hrun; [done|by left].
  - eapply Hrun; [done|by right].
  - revert Hy. unfold call_ctx. pose proof (op_shutdown o (LC.set_signals (ctx x) false false) Ho1) as Hs.
    destruct (LC.run o _) as [v c]. cbn in *. intros Hy. split; [done|]. split; [|done].
    unfold over in *. cbn. congruence.
  - split; [done|]. split; [done|]. split; [done|]. cbn. by destruct (kernel x).
Qed.

(** An external endpoint that is there when the network is terminated keeps
    its kernel from ever ending.  The kernel's thread waits for it as for a node,
    but it has no thread that could end; [DestroyExternalEndpoint] asks the context
    for its key first, which throws [ShutdownException]; and no step of any
    thread takes it from [nodemap] or lets the kernel get to [DONE], so [Wait] and
    the destructor do not return. *)
Theorem external_endpoint_blocks_end x k w : reachable x → over x →
  nodemap x !! k = Some (Pure w) → past_drain (kernel x) = false →
  (∀ i c, clients x !! i = Some c → pc c ≠ CDestroy k ∧ ∀ t, pc c ≠ CTerm k t) →
  (∀ name, ∃ y, start (CDestroyExternal name) x = Some (y, CIdle (Err Shutdown))) ∧
  ∀ y, rtc (λ a b, ∃ r, step r a b) x y →
    nodemap y !! k ≠ None ∧ CompareAndWait RUNNING (status y) ≠ Some DONE.
Proof.
  intros Hi%kernel_reachable_inv Ho Hm Hd Hc. split.
  - intros name. cbn. unfold call_ctx, LC.GetNodeKey, LC.InternalCheckTerminated. mred. cbn.
    unfold over in Ho. rewrite Ho. mred. by eexists.
  - intros y Hs. assert (stuck k y) as (Hy & _ & [[w' Hm'] _] & Hd').
    { assert (stuck k x) as Hx by (split; [done|]; split; [done|]; split; [|done]; split; [by exists w|done]).
      clear -Hs Hx. induction Hs as [|a b c [r Hr] _ IH]; [done|]. by apply IH, (stuck_step k r a). }
    split; [congruence|]. unfold CompareAndWait. case_decide; [done|]. intros [= E].
    apply (f_done _ (i_life _ Hy)) in E. by rewrite E in Hd'.
Qed.

(** The loop of [EntryPoint] tests [nodecond_signal] before it waits, and clears it
    only after it has waited: once it is set while the thread is elsewhere, the
    thread goes round without ever sleeping again. *)
Lemma kernel_spins x : useremote = false → kernel x = KMain → nodelock x = None → garbagelock x = None →
  status x = RUNNING → nodecond_signal x = true → garbagenodes x = [] →
  ∃ y, kernel_step x = Some y ∧ kernel_step y = Some x.
Proof.
  intros Hr Ek En Eg Es Ec Egn. destruct x. cbn in *. subst. unfold kernel_step. cbn.
  eexists. split; [done|]. cbn. unfold gc_test, gc_return. cbn. by rewrite Hr.
Qed.
End steps.
End KI.
