(* ===== verification/KernelShutdown.v ===== *)
(** A kernel that was terminated comes to its end, whatever the order in which its
    threads run. *)
From S2P Require Import Prelude LocalContext Fairness Kernel KernelInvariants.

Module KS.
Import KN KI.
Open Scope Z_scope.

(** ** The measure: the part of [EntryPoint], what the other threads have left to
    do and the garbage, and the way to the end of the part. *)
Definition phase (p : kpc) : nat :=
  match p with
  | KInit => 7 | KSignalStart => 6
  | KClose | KHolder | KHolderWait => 4
  | KCopy => 3 | KNotify _ => 2
  | KDrain | KDrainSleep | KDrainAwake => 1
  | KGc r | KJoin r _ => match r with GFirst | GMain => 5 | GShut | GDrain => 1 | GFinal => 0 end
  | KSignalEnd | KPost | KEnded | KFault _ => 0
  | _ => 5
  end.
Definition term_weight (t : tpc) : nat := match t with TSignal => 16 | TLock => 14 | TPush => 12 | TWake => 6 end.
Definition node_weight (p : npc) : nat :=
  match p with NStart => 20 | NProcess => 18 | NTerm t => term_weight t | NEnded | NUnhandled _ => 0 end.
Definition pc_weight (p : cpc) : nat :=
  match p with
  | CIdle _ => 0 | CSend _ _ => 38 | CCreate _ _ => 36 | CExtInsert _ _ => 30 | CExtSignal _ => 28
  | CDestroy _ => 30 | CTerm _ t => term_weight t | CAdd _ => 10 | CNotifyPost => 20 | CNotifyWake => 18
  | CWaiting _ => 1
  end.
Definition client_weight (c : client) : nat := 40 * length (todo c) + pc_weight (pc c).
Definition is_join (p : kpc) : bool := match p with KJoin _ _ => true | _ => false end.
Definition garbage_weight (x : sys) : nat :=
  2 * length (garbagenodes x) + if is_join (kernel x) then 0 else 1.
Definition work (x : sys) : nat :=
  sum_list_with client_weight (clients x) + msum node_weight (nodes x) + 8 * size (queuemap x) +
  garbage_weight x.
Definition way (x : sys) : nat :=
  let terminated n := if decide (status x = TERMINATE) then n else 0%nat in
  let drained n := if decide (nodemap x = ∅) then n else 0%nat in
  match kernel x with
  | KMainSleep => terminated 10 | KMainAwake => terminated 9
  | KGc (GFirst | GMain) => terminated 8 | KJoin (GFirst | GMain) _ => terminated 7
  | KCleanup => terminated 6 | KPoll => terminated 5
  | KMain | KPollTest => terminated 1
  | KClose => 2 | KHolder => 1
  | KNotify l => length l
  | KDrainSleep => drained 6 | KDrainAwake => drained 5
  | KGc (GShut | GDrain) => drained 4 | KJoin (GShut | GDrain) _ => drained 3 | KDrain => drained 2
  | KGc GFinal => 4 | KJoin GFinal _ => 3 | KSignalEnd => 2 | KPost => 1
  | _ => 0
  end%nat.
Definition measure (x : sys) : nat * nat * nat := (phase (kernel x), work x, way x).

(** ** The thread that helps *)
Definition busy (c : client) : bool :=
  match pc c, todo c with CWaiting _, _ => false | CIdle _, [] => false | _, _ => true end.
Definition busy_client (l : list client) : option nat :=
  fst <$> list_find (λ b, b = true) (busy <$> l).
Definition live (p : npc) : bool := match p with NEnded => false | _ => true end.
Definition live_node (m : gmap Z npc) : option Z :=
  fst <$> head (filter (λ e : Z * npc, live e.2 = true) (map_to_list m)).
Definition live_queue (m : gmap Z bool) : option Z := fst <$> head (map_to_list m).
Definition in_wait (p : kpc) : bool := match p with KHolderWait => true | _ => false end.
Definition pushing (x : sys) (r : tid) : bool :=
  match ending x r with Some TPush => negb (is_free (garbagelock x)) | _ => false end.
Definition helpful (x : sys) : tid :=
  match nodelock x with
  | Some r => if pushing x r then TKernel else r
  | None =>
      match busy_client (clients x) with
      | Some i => TClient i
      | None =>
          if in_wait (kernel x) then from_option TQueue TKernel (live_queue (queuemap x))
          else if Nat.eqb (phase (kernel x)) 1 then from_option TNode TKernel (live_node (nodes x))
          else TKernel
      end
  end.

(** No external endpoint is left, and no remote queue comes after the holder was
    shut down. *)
Record quiet (x : sys) : Prop := {
  q_pure k w : nodemap x !! k ≠ Some (Pure w);
  q_client i c : clients x !! i = Some c →
    (∀ k w, pc c ≠ CExtInsert k w) ∧ (∀ k, pc c ≠ CAdd k) ∧ (∀ q k, CEndpoint q k ∉ todo c);
  q_told k b : kernel x = KHolderWait → queuemap x !! k = Some b → b = true }.

(** The end, or an exception that nothing catches. *)
Definition crashed (x : sys) : Prop := ∃ k e, nodes x !! k = Some (NUnhandled e).
Definition final (x : sys) : Prop := status x = DONE ∨ crashed x.
Definition is_unhandled (p : npc) : bool := match p with NUnhandled _ => true | _ => false end.
Lemma final_test x :
  status x = DONE ∨ map_Exists (λ _ p, is_unhandled p = true) (nodes x) ↔ final x.
Proof.
  split; (intros [?|Hc]; [by left|right]).
  - destruct Hc as (k & p & Hk & Hp). destruct p as [| | | |e]; try done. by exists k, e.
  - destruct Hc as (k & e & Hk). by exists k, (NUnhandled e).
Qed.
#[export] Instance final_dec x : Decision (final x).
Proof.
  destruct (decide (status x = DONE ∨ map_Exists (λ _ p, is_unhandled p = true) (nodes x))) as [Hd|Hd];
    [left|right]; by rewrite <- final_test.
Defined.

Section shutdown.
Context `{Config}.

(** ** What stays *)
Definition ready (x : sys) : Prop := inv x ∧ over x ∧ quiet x.
Lemma ready_call x : ready x → can_call (ctx x).
Proof. intros (_ & Ho & _). by right. Qed.

Lemma quiet_frame x y : quiet x → (∀ k w, nodemap y !! k = Some (Pure w) → nodemap x !! k = Some (Pure w)) →
  clients y = clients x → queuemap y = queuemap x → (kernel y = KHolderWait → kernel x = KHolderWait) → quiet y.
Proof.
  intros [Hp Hc Ht] Hm Ec Eq Hk. constructor.
  - intros k w Hy%Hm. by eapply Hp.
  - intros i c. rewrite Ec. apply Hc.
  - intros k b E. rewrite Eq. by apply Ht, Hk.
Qed.
Lemma kernel_quiet x p y : quiet x → kernel x = p → kernel_case x p y → quiet y.
Proof.
  intros Hq Hk Hs. destruct Hs; try match goal with Hg : gc_case ?r _ _ |- _ => destruct Hg, r end;
    try (apply (quiet_frame x); try done; unfold leave_main, gc_return; cbn; by repeat case_match).
  destruct Hq as [Hp Hc Ht]. constructor; try done. cbn. intros k b _.
  rewrite lookup_fmap. destruct (queuemap x !! k); [|done]. by intros [= <-].
Qed.
Lemma awake_holder p : awake p = KHolderWait → p = KHolderWait.
Proof. by destruct p. Qed.
Lemma term_quiet r k t x y o : term_case r k x t y o → quiet x → quiet y.
Proof.
  intros Ht Hq. apply (quiet_frame x); [done|..];
    destruct Ht; try done; unfold SendWakeup; try (by destruct useremote); cbn.
  - intros j w [_ ?]%lookup_delete_Some. done.
  - apply awake_holder.
  - destruct useremote; cbn; intros E; by do 2 apply awake_holder in E.
Qed.
Lemma kernel_over x p y : over x → kernel_case x p y → over y.
Proof.
  intros Ho Hs. destruct Hs; try match goal with Hg : gc_case _ _ _ |- _ => destruct Hg end; try exact Ho;
    by eapply goes_on_over.
Qed.
Lemma node_ready x k p y : over x → quiet x → node_case k x p y → over y ∧ quiet y.
Proof.
  intros Ho Hq Hs. destruct Hs as [c Hg _|c Hg _|o' _|t z r Ht].
  1-2: split; [by eapply goes_on_over|by apply (quiet_frame x)].
  - split; [done|by apply (quiet_frame x)].
  - split; [by eapply (term_over _ _ _ _ _ _ Ht)|]. apply (quiet_frame z); try done. by eapply term_quiet.
Qed.
Lemma put_quiet x i c p cs : quiet x → clients x !! i = Some c →
  (∀ k w, p ≠ CExtInsert k w) → (∀ k, p ≠ CAdd k) → cs ⊆ todo c →
  quiet (set_clients x (<[i := mk_client p cs]> (clients x))).
Proof.
  intros [Hp Hc Ht] Hci H1 H2 H3. constructor; try done.
  intros j d Hj. cbn in Hj. destruct (decide (j = i)) as [->|Hji].
  - rewrite list_lookup_insert_eq in Hj by (by eapply lookup_lt_Some). injection Hj as <-.
    split; [done|]. split; [done|]. intros q k Hin. destruct (Hc i c Hci) as (_ & _ & Hn). by apply (Hn q k), H3.
  - rewrite list_lookup_insert_ne in Hj by done. by eapply Hc.
Qed.
Lemma insert_new_pure (m : gmap Z node) k j w :
  insert_new k Threaded m !! j = Some (Pure w) → m !! j = Some (Pure w).
Proof.
  unfold insert_new. destruct (m !! k) eqn:Ek; [done|]. by intros [[_ ?]|[_ ?]]%lookup_insert_Some.
Qed.
Lemma client_ready x i c z p cs : over x → quiet x → clients x !! i = Some c → client_case i x c z p cs →
  over z ∧ quiet (set_clients z (<[i := mk_client p cs]> (clients z))).
Proof.
  intros Ho Hq Hci Hs.
  assert (∀ r a, pc c = CIdle r → todo c = a :: cs → cs ⊆ todo c) as Hsub by (intros r a _ ->; set_solver).
  assert (ends c cs → cs ⊆ todo c) as Hends.
  { unfold ends. destruct (pc c); try done; try (by intros ->). intros [a ->]. set_solver. }
  assert (∀ z' : sys, clients z' = clients x → quiet z' → clients z' !! i = Some c ∧ quiet z') as Hput by (by intros z' ->).
  assert (∀ c', quiet (set_ctx x c')) as Hctx by (intros; by apply (quiet_frame x)).
  destruct (q_client _ Hq i c Hci) as (Hx1 & Hx2 & Hx3).
  destruct Hs as [r a cs c' p k Hp Ht Hco Hsd Hf Hin Hkk|r a cs c' k Hp Ht Hco Hsd Hkk
    |r cs c' p Hp Ht Hco Hg Hsd Hkk
    |r q k cs Hp Ht|r cs Hp Ht|c' o cs Hco He|k t c' Hp Hco|k t Hp Hl' Hst|k w Hp Hl'|k w Hp Hl' Hm|k t y r Hp Ht
    |q Hp|Hp Hst|Hp Hst|Hp Hl'|s Hp Hst].
  - pose proof (goes_on_over _ _ _ Hco Ho). congruence.
  - pose proof (goes_on_over _ _ _ Hco Ho). congruence.
  - split; [done|]. eapply put_quiet; eauto; by destruct Hkk as [-> |[-> _]].
  - destruct (Hx3 q k). rewrite Ht. by left.
  - split; [done|]. eapply put_quiet; eauto; done.
  - split; [by eapply goes_on_over|]. eapply put_quiet; eauto; done.
  - split; [by eapply goes_on_over|]. eapply put_quiet; eauto; done.
  - split; [done|]. eapply put_quiet; eauto; try done.
    apply (quiet_frame x); try done. intros j w. apply insert_new_pure.
  - by destruct (Hx1 k w).
  - split; [done|]. eapply put_quiet; eauto; done.
  - split; [by eapply (term_over _ _ _ _ _ _ Ht)|]. eapply put_quiet; eauto; try (by destruct r).
    + by eapply term_quiet.
    + by rewrite (term_clients _ _ _ _ _ _ Ht).
  - by destruct (Hx2 q).
  - split; [done|]. eapply put_quiet; eauto; try done; by apply (quiet_frame x).
  - split; [done|]. eapply put_quiet; eauto; try done; by apply (quiet_frame x).
  - assert (over (SendWakeup x) ∧ quiet (SendWakeup x) ∧ clients (SendWakeup x) = clients x) as (H1 & H2 & H3).
    { unfold over, SendWakeup. destruct useremote; (split; [done|]; split; [|done]);
        apply (quiet_frame x); try done; apply awake_holder. }
    split; [done|]. eapply put_quiet; eauto; try done. by rewrite H3.
  - split; [done|]. eapply put_quiet; eauto; done.
Qed.
Lemma queue_quiet x k : quiet x → quiet (CleanupQueue k x).
Proof.
  intros [Hp Hc Ht]. constructor; try done. cbn. intros j b E [_ Hj]%lookup_delete_Some. by eapply Ht.
Qed.

Lemma ready_step r x y : ready x → step r x y → ready y.
Proof.
  intros Hx Hs. pose proof (ready_call x Hx) as Hc. destruct Hx as (Hi & Ho & Hq).
  split; [by eapply step_inv|].
  assert (∀ q, runs q x y → over y ∧ quiet y) as Hrun.
  { intros q Hr. destruct q; cbn in Hr.
    - apply kernel_cases in Hr; [|done..]. split; [by eapply kernel_over|by eapply kernel_quiet].
    - destruct Hr as [o Hr]. apply node_cases in Hr as (p & _ & Hr); [|done..]. by eapply node_ready.
    - apply client_cases in Hr as (c & z & p & cs & Hci & Hr & ->); [|done..].
      by destruct (client_ready _ _ _ _ _ _ Ho Hq Hci Hr).
    - unfold queue_step in Hr. destruct (queuemap x !! k) as [[]|]; try done. injection Hr as <-.
      split; [done|by apply queue_quiet]. }
  destruct Hs as [q x y Hr Hcc|q x y Hr Hcc|o x [Ho1 Ho2] Hcc|k o x Hp|k b x Hk|x Hp|x|x];
    try (by eapply Hrun); try (by split; [done|apply (quiet_frame x)]).
  - unfold call_ctx. pose proof (op_shutdown o (LC.set_signals (ctx x) false false) Ho1) as Hs.
    destruct (LC.run o _) as [v c]. cbn in *. split; [by unfold over; cbn; rewrite Hs|by apply (quiet_frame x)].
  - split; [done|by apply queue_quiet].
  - split; [done|]. apply (quiet_frame x); try done. apply awake_holder.
Qed.

(** ** What each step does to the measure *)
Definition rest (x : sys) : nat := msum node_weight (nodes x) + 8 * size (queuemap x) + garbage_weight x.
Definition works (x y : sys) : Prop := phase (kernel y) = phase (kernel x) ∧ (work y < work x)%nat.
Lemma works_lt x y : works x y → lex3 (measure y) (measure x).
Proof. intros [E Hw]. right. by split; [|left]. Qed.
Lemma put_works x z i c d : clients x !! i = Some c → clients z = clients x →
  phase (kernel z) = phase (kernel x) → (client_weight d + rest z < client_weight c + rest x)%nat →
  works x (set_clients z (<[i := d]> (clients z))).
Proof.
  intros Hci Ec Hph Hlt. split; [done|]. unfold work, rest in *. cbn. rewrite Ec.
  pose proof (lsum_put client_weight (clients x) i d c Hci). unfold garbage_weight in *. cbn in *. lia.
Qed.
Lemma node_works x z k p q : nodes x !! k = Some p → nodes z = nodes x → clients z = clients x →
  queuemap z = queuemap x → phase (kernel z) = phase (kernel x) →
  (node_weight q + garbage_weight z < node_weight p + garbage_weight x)%nat → works x (set_node z k q).
Proof.
  intros Hk En Ec Eq Hph Hlt. split; [done|]. unfold work, garbage_weight in *. cbn.
  rewrite En, Ec, Eq. pose proof (msum_put node_weight (nodes x) k q p Hk). lia.
Qed.
Lemma queue_works x k b : queuemap x !! k = Some b → works x (CleanupQueue k x).
Proof.
  intros Hk. split; [done|]. unfold work, garbage_weight, CleanupQueue. cbn.
  rewrite map_size_delete, Hk. assert (0 < size (queuemap x))%nat; [|cbn; lia].
  apply Nat.neq_0_lt_0. intros E%map_size_empty_iff. by rewrite E, lookup_empty in Hk.
Qed.

Definition after_weight (o : tres) : nat := from_option term_weight 0%nat (after_term o).
Lemma awake_phase p : phase (awake p) = phase p.
Proof. by destruct p. Qed.
Lemma awake_is_join p : is_join (awake p) = is_join p.
Proof. by destruct p. Qed.
Lemma term_work r k t x z o : term_case r k x t z o →
  queuemap z = queuemap x ∧ phase (kernel z) = phase (kernel x) ∧
  (after_weight o + garbage_weight z < term_weight t + garbage_weight x)%nat.
Proof.
  intros Ht. unfold garbage_weight.
  destruct Ht; unfold SendWakeup, after_weight; try destruct useremote; cbn [after_term from_option];
    cbn; rewrite ?awake_phase, ?awake_is_join; (split; [done|]); (split; [done|]); lia.
Qed.
Lemma client_work i x c z p cs : inv x → over x → quiet x → clients x !! i = Some c → client_case i x c z p cs →
  (∃ s s', pc c = CWaiting s ∧ z = x ∧ p = CWaiting s' ∧ cs = todo c) ∨
  works x (set_clients z (<[i := mk_client p cs]> (clients z))).
Proof.
  intros Hi Ho Hq Hci Hs.
  destruct (q_client _ Hq i c Hci) as (Hx1 & Hx2 & Hx3).
  assert (∀ r a cs, pc c = CIdle r → todo c = a :: cs → client_weight c = (40 + 40 * length cs)%nat) as Hnew.
  { intros r a cs' Hp Ht. unfold client_weight. rewrite Hp, Ht. cbn. lia. }
  assert (∀ cs o, ends c cs → (client_weight (mk_client (CIdle o) cs) < client_weight c)%nat) as Hends.
  { intros cs' o. unfold ends, client_weight. cbn. destruct (pc c); try done; cbn; try (intros <-; lia).
    intros [a ->]. cbn. lia. }
  destruct Hs as [r a cs c' p k Hp Ht Hco Hsd Hf Hin Hkk|r a cs c' k Hp Ht Hco Hsd Hkk
    |r cs c' p Hp Ht Hco Hg Hsd Hkk
    |r q k cs Hp Ht|r cs Hp Ht|c' o cs Hco He|k t c' Hp Hco|k t Hp Hl' Hst|k w Hp Hl'|k w Hp Hl' Hm|k t y r Hp Ht
    |q Hp|Hp Hst|Hp Hst|Hp Hl'|s Hp Hst].
  - pose proof (goes_on_over _ _ _ Hco Ho). congruence.
  - pose proof (goes_on_over _ _ _ Hco Ho). congruence.
  - right. eapply put_works; try done. rewrite (Hnew _ _ _ Hp Ht). unfold client_weight, rest, garbage_weight. cbn.
    destruct Hkk as [-> |[-> _]]; cbn; lia.
  - destruct (Hx3 q k). rewrite Ht. by left.
  - right. eapply put_works; try done. rewrite (Hnew _ _ _ Hp Ht). unfold client_weight. cbn. lia.
  - right. eapply put_works; try done. pose proof (Hends cs o He).
    change (rest (set_ctx x c')) with (rest x). lia.
  - right. eapply put_works; try done. unfold client_weight, rest, garbage_weight. rewrite Hp. cbn. lia.
  - right. eapply put_works; try done. unfold client_weight, rest, garbage_weight. rewrite Hp. cbn.
    rewrite msum_new; [cbn; lia|]. apply (k_owns _ (i_keys _ Hi) i). exists c. by rewrite Hp.
  - by destruct (Hx1 k w).
  - right. eapply put_works; try done. unfold client_weight. rewrite Hp. cbn. lia.
  - right. destruct (term_work _ _ _ _ _ _ Ht) as (Eq & Ep & Hw).
    pose proof (term_nodes _ _ _ _ _ _ Ht) as En. pose proof (term_clients _ _ _ _ _ _ Ht) as Ec.
    eapply put_works; try done. unfold client_weight, rest. rewrite Hp, En, Eq. cbn [pc todo pc_weight].
    unfold after_weight in Hw. destruct r; cbn [after_term from_option pc_weight] in Hw |- *; lia.
  - by destruct (Hx2 q).
  - right. eapply put_works; try done. unfold client_weight, rest, garbage_weight. rewrite Hp. cbn. lia.
  - right. eapply put_works; try done. unfold client_weight, rest, garbage_weight. rewrite Hp. cbn. lia.
  - right. assert (clients (SendWakeup x) = clients x ∧ phase (kernel (SendWakeup x)) = phase (kernel x) ∧
      rest (SendWakeup x) = rest x) as (E1 & E2 & E3).
    { unfold SendWakeup, rest, garbage_weight. destruct useremote; cbn; by rewrite awake_phase, awake_is_join. }
    eapply put_works; try done. unfold client_weight. rewrite Hp, E3. cbn. lia.
  - left. by eauto 10.
Qed.
Lemma node_work x k p y : nodes x !! k = Some p → node_case k x p y → works x y.
Proof.
  intros Hp Hs. destruct Hs as [c Hg _|c Hg _|o' _|t z r Ht].
  - eapply node_works; try done. unfold garbage_weight. cbn. lia.
  - eapply node_works; try done. unfold garbage_weight. cbn. lia.
  - eapply node_works; try done. destruct o' as [|e]; cbn; [lia|]. destruct (catches e); cbn; lia.
  - destruct (term_work _ _ _ _ _ _ Ht) as (Eq & Ep & Hw).
    eapply node_works; [done|by eapply term_nodes|by eapply term_clients|done|done|].
    unfold after_weight in Hw. destruct r; cbn in Hw |- *; lia.
Qed.

(** A client that waits goes on waiting, and nothing else changes. *)
Lemma wait_same x i c s : clients x !! i = Some c → busy c = false →
  busy (mk_client (CWaiting s) (todo c)) = false →
  busy <$> <[i := mk_client (CWaiting s) (todo c)]> (clients x) = busy <$> clients x.
Proof.
  intros Hci Hb Hb'. rewrite list_fmap_insert, Hb'. apply list_insert_id.
  by rewrite list_lookup_fmap, Hci; cbn; rewrite Hb.
Qed.
Definition same_turn (x y : sys) : Prop := measure y = measure x ∧ helpful y = helpful x.
Lemma waiting_turn x i c s s' : clients x !! i = Some c → pc c = CWaiting s →
  same_turn x (set_clients x (<[i := mk_client (CWaiting s') (todo c)]> (clients x))).
Proof.
  intros Hci Hp. split.
  - unfold measure, work. f_equal. f_equal.
    pose proof (lsum_put client_weight (clients x) i (mk_client (CWaiting s') (todo c)) c Hci) as Hw.
    assert (client_weight (mk_client (CWaiting s') (todo c)) = client_weight c) as Hcw
      by (unfold client_weight; cbn; by rewrite Hp).
    unfold garbage_weight in *. cbn in *. lia.
  - unfold helpful, busy_client. cbn.
    rewrite (wait_same x i c s' Hci); [|unfold busy; by rewrite Hp|done].
    destruct (nodelock x) as [q|]; [|done]. unfold pushing.
    rewrite (ending_client x i _ c q Hci). case_decide; [|done]. subst q. cbn. rewrite Hci. cbn. by rewrite Hp.
Qed.

(** *** The kernel's thread *)
Definition progress (x y : sys) : Prop := lex3 (measure y) (measure x).
Definition lingers (x : sys) (p : kpc) : Prop :=
  is_join p = false ∧ (phase p = 5%nat ∧ status x ≠ TERMINATE ∨ phase p = 1%nat ∧ nodemap x ≠ ∅).
Lemma by_phase x y : (phase (kernel y) < phase (kernel x))%nat → progress x y.
Proof. by left. Qed.
Lemma by_work x y : phase (kernel y) = phase (kernel x) → (work y < work x)%nat → progress x y.
Proof. intros E Hw. right. by split; [|left]. Qed.
Lemma by_way x y : phase (kernel y) = phase (kernel x) → work y = work x → (way y < way x)%nat → progress x y.
Proof. intros E1 E2 Hw. right. split; [done|]. by right. Qed.
Lemma kernel_work x y : nodes y = nodes x → clients y = clients x → size (queuemap y) = size (queuemap x) →
  garbage_weight y = garbage_weight x → work y = work x.
Proof. unfold work. by intros -> -> -> ->. Qed.
Lemma same_helpful x y : nodes y = nodes x → clients y = clients x → nodelock y = nodelock x →
  garbagelock y = garbagelock x → phase (kernel y) = phase (kernel x) →
  in_wait (kernel x) = false → in_wait (kernel y) = false → helpful y = helpful x.
Proof.
  intros En Ec El Eg Ep E1 E2. unfold helpful, pushing. rewrite E1, E2, Ep, En, Ec, El, Eg.
  destruct (nodelock x) as [[]|]; cbn; by rewrite ?En, ?Ec.
Qed.
(** A step that stays in its part: it is on the way to its end, or it lingers. *)
Record turns (x y : sys) : Prop := {
  t_phase : phase (kernel y) = phase (kernel x);
  t_nodes : nodes y = nodes x; t_clients : clients y = clients x;
  t_queues : size (queuemap y) = size (queuemap x); t_garbage : garbage_weight y = garbage_weight x;
  t_lock : nodelock y = nodelock x; t_glock : garbagelock y = garbagelock x }.
Lemma turns_way x y : turns x y → (way y < way x)%nat → progress x y.
Proof. intros [] Hw. apply by_way; [done| |done]. by apply kernel_work. Qed.
Lemma turns_same x y : turns x y → in_wait (kernel x) = false → in_wait (kernel y) = false →
  way y = way x → same_turn x y.
Proof.
  intros [] H1 H2 Hw. split; [|by apply same_helpful]. unfold measure.
  by rewrite t_phase0, Hw, (kernel_work x y).
Qed.
Lemma turn_or_way x y p P `{Decision P} (n m : nat) : turns x y →
  in_wait (kernel x) = false → in_wait (kernel y) = false →
  way x = (if decide P then n else 0%nat) → way y = (if decide P then m else 0%nat) →
  (P → (m < n)%nat) → (¬ P → lingers x p) →
  progress x y ∨ same_turn x y ∧ lingers x p.
Proof.
  intros Ht H1 H2 Ex Ey HP Hl. destruct (decide P) as [Hp|Hp].
  - left. apply turns_way; [done|]. rewrite Ex, Ey. by apply HP.
  - right. split; [|by apply Hl]. apply turns_same; [done..|congruence].
Qed.

Lemma gc_work r x : garbage_weight (set_kernel (set_garbage x [] None) (gc_return r)) = 1%nat.
Proof. unfold garbage_weight, gc_return. cbn. by destruct r, useremote. Qed.
Lemma gc_phase r : phase (gc_return r) = phase (KGc r).
Proof. unfold gc_return. by destruct r, useremote. Qed.
(** [y] is [x], or [x] with one less to join. *)
Lemma gc_turn r x y z : gc_case r y z → phase (kernel x) = phase (KGc r) →
  nodes y = nodes x → clients y = clients x → queuemap y = queuemap x →
  (2 * length (garbagenodes y) + (match garbagenodes y with [] => 1 | _ => 0 end) < garbage_weight x)%nat →
  progress x z.
Proof.
  intros Hg Ep En Ec Eq Hw. pose proof (gc_phase r) as Ep1. apply by_work; [by destruct Hg; cbn; rewrite Ep|].
  unfold work. destruct Hg as [Eg|k g Eg]; rewrite Eg in Hw.
  - rewrite gc_work. cbn in *. rewrite En, Ec, Eq. lia.
  - unfold garbage_weight at 1. cbn in *. rewrite En, Ec, Eq. lia.
Qed.

Lemma leave_phase : (phase leave_main < 5)%nat.
Proof. unfold leave_main. destruct useremote; cbn; lia. Qed.
Lemma kernel_turn x p y : inv x → over x → kernel x = p → kernel_case x p y →
  progress x y ∨ same_turn x y ∧ lingers x p.
Proof.
  intros Hi Ho Hk Hs. pose proof (l_garbage _ (i_locks _ Hi)) as Hg. rewrite Hk in Hg.
  pose proof leave_phase as Hlv.
  destruct Hs as [|c Hg' Hsd|c Hg' Hsd|Hst|Hst| |Hw|El Hst|El Hst Hc|El Hst Hc|El| | |Eq|El|k l| |El Em|El Em Hc|El Em Hc|El
    |r y Egl Hgc|r k y Hj Hgc|c Hg'|].
  all: try (left; apply by_phase; rewrite Hk; cbn; lia).
  all: try match goal with |- progress ?a ?y ∨ _ =>
    assert (garbagelock a = None → turns a y) as Hturns by
      (intros E; constructor; unfold garbage_weight; rewrite ?Hk, ?E; try done; cbn; by rewrite ?map_size_fmap) end.
  all: try (left; apply turns_way; [by apply Hturns|unfold way; rewrite Hk; cbn; lia]).
  all: try (eapply (turn_or_way x _ _ (status x = TERMINATE));
    [by apply Hturns|by rewrite Hk|done|by unfold way; rewrite Hk|reflexivity
    |intros; first [congruence|lia]|by intros; split; [|left]]).
  all: try (eapply (turn_or_way x _ _ (nodemap x = ∅));
    [by apply Hturns|by rewrite Hk|done|by unfold way; rewrite Hk|reflexivity
    |intros; first [congruence|lia]|by intros; split; [|right]]).
  - pose proof (goes_on_over _ _ _ Hg' Ho). congruence.
  - destruct (garbagenodes x) as [|k g] eqn:Egn.
    + destruct Hgc as [_|k g E]; [|congruence].
      assert (turns x (set_kernel (set_garbage x [] None) (gc_return r))) as Hturns.
      { constructor; try done; [by cbn; rewrite Hk; apply gc_phase|].
        rewrite gc_work. unfold garbage_weight. by rewrite Egn, Hk. }
      destruct r; try (left; apply turns_way; [done|unfold way; rewrite Hk; cbn; lia]).
      1-2: eapply (turn_or_way x _ _ (status x = TERMINATE)); [done|by rewrite Hk
        |by unfold gc_return; cbn; destruct useremote|by unfold way; rewrite Hk| | |by intros; split; [|left]].
      1: by unfold way, gc_return; cbn.
      1: intros; lia.
      1: instantiate (1 := if useremote then 6%nat else 1%nat); unfold way, gc_return; cbn; by destruct useremote.
      1: intros; destruct useremote; lia.
      all: eapply (turn_or_way x _ _ (nodemap x = ∅)); [done|by rewrite Hk|done|by unfold way; rewrite Hk
        |reflexivity|intros; lia|by intros; split; [|right]].
    + left. apply (gc_turn r x x); try done; [by rewrite Hk|]. unfold garbage_weight. rewrite Egn, Hk. cbn. lia.
  - destruct Hg as (_ & g & Eg). left. eapply (gc_turn r); try done; [by rewrite Hk|].
    unfold garbage_weight. rewrite Hk. cbn. rewrite Eg. cbn. destruct g; cbn; lia.
Qed.

(** ** The thread that helps can go on, and its step counts *)
Lemma lock_holder x r : inv x → nodelock x = Some r → ∃ t, ending x r = Some t ∧ critical t = true.
Proof.
  intros Hi Hr%(l_node _ (i_locks _ Hi)). destruct (ending x r) as [t|]; [by exists t|done].
Qed.
Lemma unlocked x r t : inv x → nodelock x = None → ending x r = Some t → critical t = false.
Proof.
  intros Hi El He. destruct (critical t) eqn:Ec; [|done].
  assert (nodelock x = Some r); [|congruence]. apply (l_node _ (i_locks _ Hi)). by rewrite He.
Qed.
Lemma garbage_free x : inv x → is_join (kernel x) = false → garbagelock x = None.
Proof. intros Hi Hj. pose proof (l_garbage _ (i_locks _ Hi)) as Hg. by destruct (kernel x). Qed.
Lemma join_joinable x r k : inv x → kernel x = KJoin r k → nodelock x ≠ Some (TNode k) ∨ ending x (TNode k) ≠ Some TWake →
  joinable k x = true.
Proof.
  intros Hi Hk Hl. pose proof (l_garbage _ (i_locks _ Hi)) as Hg. rewrite Hk in Hg.
  destruct Hg as (_ & g & Eg). pose proof (k_ok _ (i_keys _ Hi) k) as Ho. unfold joinable, key_ok in *.
  assert (k ∈ garbagenodes x) as Hin by (rewrite Eg; by left).
  destruct (nodes x !! k) as [[| |[]| |]|] eqn:En; try done; try (by destruct Ho).
  assert (ending x (TNode k) = Some TWake) as He by (cbn; by rewrite En).
  destruct Hl as [Hl|Hl]; [|done]. destruct Hl. apply (l_node _ (i_locks _ Hi)). by rewrite He.
Qed.

(** What [NodeTerminated] waits for. *)
Definition can_end (x : sys) (t : tpc) : Prop :=
  match t with TSignal | TWake => True | TLock => nodelock x = None | TPush => garbagelock x = None end.
Lemma term_enabled r k t x : can_end x t → is_Some (NodeTerminated r k t x).
Proof.
  destruct t; cbn; try (intros ->; cbn; by repeat case_match).
  - intros _. destruct (call_ctx _ _). by eexists.
  - by eexists.
Qed.
Lemma node_enabled x k p : nodes x !! k = Some p →
  match p with NStart => True | NProcess => k ∈ notified x | NTerm t => can_end x t | _ => False end →
  is_Some (node_step k Returns x).
Proof.
  intros Hp Hc. unfold node_step. rewrite Hp. destruct p; try done.
  - destruct (call_ctx _ _). by eexists.
  - rewrite decide_True by done. by eexists.
  - destruct (term_enabled (TNode k) k t x Hc) as [[z o] ->]. by eexists.
Qed.
Lemma term_client_enabled x i c k t : clients x !! i = Some c → pc c = CTerm k t → can_end x t →
  is_Some (client_step i x).
Proof.
  intros Hci Hp Hc. unfold client_step. rewrite Hci. cbn. rewrite Hp. cbn.
  destruct (term_enabled (TClient i) k t x Hc) as [[z o] ->]. by eexists.
Qed.
Lemma busy_enabled x i c : inv x → nodelock x = None → clients x !! i = Some c → busy c = true →
  is_Some (client_step i x).
Proof.
  intros Hi El Hci Hb. destruct (pc c) eqn:Hp; unfold busy in Hb; rewrite Hp in Hb.
  all: try match goal with Hp : pc _ = CTerm _ ?t |- _ =>
    eapply term_client_enabled; [done..|]; assert (critical t = false) as Hc
      by (eapply (unlocked x (TClient i)); [done..|]; cbn; rewrite Hci; cbn; by rewrite Hp);
    by destruct t end.
  all: unfold client_step; rewrite Hci; cbn; rewrite Hp; cbn; try done.
  - destruct (todo c) as [|a cs]; [done|]. destruct a; cbn; try destruct (call_ctx _ _); rewrite ?El; try by eexists.
    cbn. destruct useremote; by eexists.
  - destruct (call_ctx _ _); by eexists.
  - rewrite El. cbn. destruct (InternalCreateNode _ _ _). by eexists.
  - rewrite El. by eexists.
  - destruct (call_ctx _ _); by eexists.
  - rewrite El. by eexists.
  - destruct (CompareAndPost _ _ _). by eexists.
  - rewrite El. by eexists.
Qed.
Lemma busy_progress x i c y : ready x → clients x !! i = Some c → (∀ s, pc c ≠ CWaiting s) →
  client_step i x = Some y → progress x y.
Proof.
  intros Hx Hci Hb Hs. pose proof (ready_call x Hx) as Hcc. destruct Hx as (Hi & Ho & Hq).
  apply client_cases in Hs as (c' & z & p & cs & Hci' & Hs & ->); [|done..]. simplify_eq.
  destruct (client_work _ _ _ _ _ _ Hi Ho Hq Hci Hs) as [(s & s' & E & _)|Hw]; [by destruct (Hb s)|].
  by apply works_lt.
Qed.
Lemma node_progress x k y o : ready x → node_step k o x = Some y → progress x y.
Proof.
  intros Hx Hs. pose proof (ready_call x Hx) as Hcc. destruct Hx as (Hi & Ho & Hq).
  apply node_cases in Hs as (p & Hp & Hs); [|done..]. by eapply works_lt, node_work.
Qed.

(** The holder of [nodelock]. *)
Lemma ending_thread x r t : ending x r = Some t →
  (∃ k, r = TNode k ∧ nodes x !! k = Some (NTerm t)) ∨
  (∃ i c k, r = TClient i ∧ clients x !! i = Some c ∧ pc c = CTerm k t).
Proof.
  destruct r as [|k|i|]; cbn; try done.
  - destruct (nodes x !! k) as [[]|] eqn:E; try done. cbn. intros [= ->]. left. by exists k.
  - destruct (clients x !! i) as [c|] eqn:E; [|done]. cbn. destruct (pc c) eqn:Hp; try done. intros [= ->].
    right. by exists i, c, key.
Qed.
Lemma ending_enabled x r t : ending x r = Some t → can_end x t → enabled r x.
Proof.
  intros [(k & -> & Hk)|(i & c & k & -> & Hci & Hp)]%ending_thread Hc; cbn.
  - by eapply node_enabled.
  - by eapply term_client_enabled.
Qed.
Lemma ending_progress x r t y : ready x → ending x r = Some t → runs r x y → progress x y.
Proof.
  intros Hx [(k & -> & Hk)|(i & c & k & -> & Hci & Hp)]%ending_thread Hs; cbn in Hs.
  - destruct Hs as [o Hs]. by eapply node_progress.
  - eapply busy_progress; [done|done| |done]. intros s. by rewrite Hp.
Qed.

(** No thread of the program is inside a call. *)
Definition at_rest (x : sys) : Prop := ∀ i c, clients x !! i = Some c → busy c = false.
Lemma busy_client_Some x i : busy_client (clients x) = Some i → ∃ c, clients x !! i = Some c ∧ busy c = true.
Proof.
  unfold busy_client. intros ([j b] & (Hj & Hb & _)%list_find_Some & ->)%fmap_Some. cbn.
  rewrite list_lookup_fmap in Hj. apply fmap_Some in Hj as (c & Hc & ->). by exists c.
Qed.
Lemma busy_client_None x : busy_client (clients x) = None → at_rest x.
Proof.
  unfold busy_client. intros Hf%fmap_None%list_find_None i c Hc.
  rewrite Forall_fmap, Forall_lookup in Hf. specialize (Hf i c Hc). cbn in Hf. by destruct (busy c).
Qed.
Lemma rest_no_notify x p : at_rest x → p = CNotifyPost ∨ p = CNotifyWake → ¬ client_at p x.
Proof. intros Hr Hp (i & c & Hc & E). specialize (Hr i c Hc). unfold busy in Hr. rewrite E in Hr. by destruct Hp as [-> | ->]. Qed.
Lemma rest_terminate x : ready x → at_rest x → phase (kernel x) = 5%nat → status x = TERMINATE.
Proof.
  intros (Hi & Ho & _) Hr Hp. destruct (f_exit _ (i_life _ Hi) Ho) as [?|?]; [|done|].
  - by destruct (kernel x) as [| | | | | | | | | | | | | | | |[]|[] ?| | | |].
  - by apply rest_no_notify in H0; auto.
Qed.
Lemma live_node_Some m k : live_node m = Some k → ∃ p, m !! k = Some p ∧ live p = true.
Proof.
  unfold live_node. intros ([j p] & Hh & ->)%fmap_Some. apply head_Some_elem_of in Hh.
  apply list_elem_of_filter in Hh as [Hl Hin%elem_of_map_to_list]. by exists p.
Qed.
Lemma live_node_None m k p : live_node m = None → m !! k = Some p → p = NEnded.
Proof.
  unfold live_node. intros Hh%fmap_None Hk. apply head_None in Hh.
  destruct (live p) eqn:El; [|by destruct p]. exfalso.
  assert ((k, p) ∈ filter (λ e : Z * npc, live e.2 = true) (map_to_list m)) as Hin.
  { apply list_elem_of_filter. split; [done|]. by apply elem_of_map_to_list. }
  rewrite Hh in Hin. by apply elem_of_nil in Hin.
Qed.
Lemma live_queue_Some m k : live_queue m = Some k → ∃ b, m !! k = Some b.
Proof.
  unfold live_queue. intros ([j b] & Hh & ->)%fmap_Some. apply head_Some_elem_of, elem_of_map_to_list in Hh. by exists b.
Qed.
Lemma live_queue_None m : live_queue m = None → m = ∅.
Proof. unfold live_queue. intros Hh%fmap_None%head_None. by apply map_to_list_empty_iff. Qed.
Lemma ended_drained x : inv x → quiet x → status x ≠ DONE → (∀ k p, nodes x !! k = Some p → p = NEnded) → nodemap x = ∅.
Proof.
  intros Hi Hq Hd Hn. apply map_eq. intros k. rewrite lookup_empty.
  pose proof (k_ok _ (i_keys _ Hi) k) as Ho. unfold key_ok in Ho.
  destruct (nodes x !! k) as [p|] eqn:En; [rewrite (Hn k p En) in Ho; by destruct Ho as [[? _]|[_ ?]]|].
  destruct (nodemap x !! k) as [[w|]|] eqn:Em; [by destruct (q_pure _ Hq k w)|done|done].
Qed.

Lemma kernel_enabled x : ready x → status x ≠ DONE → nodelock x = None → at_rest x →
  (kernel x = KHolderWait → queuemap x = ∅) → (phase (kernel x) = 1%nat → nodemap x = ∅) →
  is_Some (kernel_step x).
Proof.
  intros Hx Hd El Hr Hw Hdr. pose proof (rest_terminate x Hx Hr) as Ht. destruct Hx as (Hi & Ho & Hq).
  pose proof (i_sleeps _ Hi) as Hs. pose proof (garbage_free x Hi) as Hg.
  pose proof (join_joinable x) as Hj. unfold kernel_step.
  destruct (kernel x) as [| | | | | | | | | | | | |l| | |r|r k| | | |] eqn:Ek; cbn in *; rewrite ?El, ?Hg by done;
    try (destruct (call_ctx _ _)); try (by eexists).
  - destruct (s_poll _ Hs) as [E|[E|E]]; [by rewrite Ek|rewrite Ht in E by done; done| |rewrite E; by eexists].
    by apply rest_no_notify in E; auto.
  - destruct (s_main _ Hs Ek) as [E|E]; [rewrite Ht in E by done; done|]. by apply rest_no_notify in E; auto.
  - rewrite decide_True by auto. by eexists.
  - destruct l; by eexists.
  - destruct (s_drain _ Hs Ek); [by rewrite Hdr in *|done].
  - rewrite (Hj r k Hi); [by eexists|done|left; by rewrite El].
  - by destruct Hd; apply (f_done _ (i_life _ Hi)).
  - pose proof (f_fault _ (i_life _ Hi)) as Hf. by rewrite Ek in Hf.
Qed.

Lemma turn_helps x y p : ready x → kernel x = p → kernel_step x = Some y → ¬ lingers x p → progress x y.
Proof.
  intros Hx Hk Hs Hl. pose proof (ready_call x Hx) as Hcc. destruct Hx as (Hi & Ho & _).
  apply kernel_cases in Hs; [|done..]. rewrite Hk in Hs.
  by destruct (kernel_turn x p y Hi Ho Hk Hs) as [?|[_ ?]].
Qed.
(** Which thread helps, and why it can go on. *)
Inductive helps (x : sys) : tid → Prop :=
  | H_join r k : kernel x = KJoin r k → joinable k x = true → helps x TKernel
  | H_ending r t : ending x r = Some t → can_end x t → helps x r
  | H_client i c : nodelock x = None → clients x !! i = Some c → busy c = true → helps x (TClient i)
  | H_queue k : queuemap x !! k = Some true → helps x (TQueue k)
  | H_node k p : nodes x !! k = Some p →
      match p with NStart => True | NProcess => k ∈ notified x | NTerm t => can_end x t | _ => False end →
      helps x (TNode k)
  | H_kernel : nodelock x = None → at_rest x → (kernel x = KHolderWait → queuemap x = ∅) →
      (phase (kernel x) = 1%nat → nodemap x = ∅) → helps x TKernel.
Lemma helpful_helps x : ready x → ¬ final x → helps x (helpful x).
Proof.
  intros Hx Hf. pose proof Hx as (Hi & Ho & Hq). unfold helpful.
  assert (status x ≠ DONE) as Hd by (intros ?; apply Hf; by left).
  destruct (nodelock x) as [r|] eqn:El.
  { destruct (lock_holder x r Hi El) as (t & He & Hct). unfold pushing. rewrite He.
    assert (t ≠ TPush ∨ garbagelock x = None → helps x r) as Hr.
    { intros Hor. eapply H_ending; [done|]. destruct t; try done. by destruct Hor. }
    destruct t; try (by apply Hr; left). destruct (garbagelock x) eqn:Eg; cbn; [|by apply Hr; right].
    destruct (is_join (kernel x)) eqn:Ej; [|by rewrite (garbage_free x Hi Ej) in Eg].
    destruct (kernel x) as [| | | | | | | | | | | | | | | | |r' k| | | |] eqn:Ek; try done.
    apply (H_join x r' k); [done|]. eapply join_joinable; [done|done|].
    destruct (decide (r = TNode k)) as [->|Hne]; [right; congruence|left; congruence]. }
  destruct (busy_client (clients x)) as [i|] eqn:Eb.
  { apply busy_client_Some in Eb as (c & Hc & Hb). by eapply H_client. }
  apply busy_client_None in Eb. destruct (in_wait (kernel x)) eqn:Ew.
  { assert (kernel x = KHolderWait) as Ek by (by destruct (kernel x)).
    destruct (live_queue (queuemap x)) as [k|] eqn:Eq; cbn.
    - apply live_queue_Some in Eq as [b Hb]. apply H_queue. by rewrite Hb, (q_told _ Hq k b Ek Hb).
    - apply live_queue_None in Eq. apply H_kernel; try done. by rewrite Ek. }
  destruct (Nat.eqb_spec (phase (kernel x)) 1) as [Ep|Ep].
  2: apply H_kernel; try done; intros E; by rewrite E in Ew.
  destruct (live_node (nodes x)) as [k|] eqn:En; cbn.
  - apply live_node_Some in En as (p & Hp & Hlive). eapply H_node; [done|].
    destruct p as [| |t| |e]; try done.
    + destruct (f_note _ (i_life _ Hi) k Hp) as [E|[?|(l & E & _)]]; [|done|by rewrite E in Ep].
      by destruct (kernel x) as [| | | | | | | | | | | | | | | |[]|[] ?| | | |].
    + assert (critical t = false) as Hc by (eapply (unlocked x (TNode k)); [done..|]; cbn; by rewrite Hp).
      by destruct t.
    + apply Hf. right. by exists k, e.
  - apply H_kernel; try done; [intros E; by rewrite E in Ew|]. intros _.
    apply ended_drained; try done. intros k p. by apply live_node_None.
Qed.
Lemma helps_enabled x r : ready x → status x ≠ DONE → helps x r → enabled r x.
Proof.
  intros Hx Hd [r' k Hk Hj|r' t He Hc|i c El Hci Hb|k Hk|k p Hp Hc|El Hr Hw Hdr]; cbn.
  - unfold kernel_step. rewrite Hk, Hj. by eexists.
  - by eapply ending_enabled.
  - eapply busy_enabled; [apply Hx|done..].
  - unfold queue_step. rewrite Hk. by eexists.
  - by eapply node_enabled.
  - by apply kernel_enabled.
Qed.
Lemma helps_progress x r y : ready x → helps x r → runs r x y → progress x y.
Proof.
  intros Hx [r' k Hk Hj|r' t He Hc|i c El Hci Hb|k Hk|k p Hp Hc|El Hr Hw Hdr] Hs; cbn in Hs.
  - eapply turn_helps; [done..|]. by intros [? _].
  - by eapply ending_progress.
  - eapply busy_progress; [done|done| |done]. intros s E. unfold busy in Hb. by rewrite E in Hb.
  - unfold queue_step in Hs. rewrite Hk in Hs. injection Hs as <-. by eapply works_lt, queue_works.
  - destruct Hs as [o Hs]. by eapply node_progress.
  - eapply turn_helps; [done..|]. intros [_ [[Hp Hn]|[Hp Hn]]]; [by apply Hn, rest_terminate|by apply Hn, Hdr].
Qed.

(** The steps of the others. *)
Lemma run_turn q x y : ready x → runs q x y → progress x y ∨ same_turn x y.
Proof.
  intros Hx Hs. pose proof (ready_call x Hx) as Hcc. destruct q as [|k|i|k]; cbn in Hs.
  - destruct Hx as (Hi & Ho & _). apply kernel_cases in Hs; [|done..].
    destruct (kernel_turn x _ y Hi Ho eq_refl Hs) as [?|[? _]]; auto.
  - destruct Hs as [o Hs]. left. by eapply node_progress.
  - destruct Hx as (Hi & Ho & Hq). apply client_cases in Hs as (c & z & p & cs & Hci & Hs & ->); [|done..].
    destruct (client_work _ _ _ _ _ _ Hi Ho Hq Hci Hs) as [(s & s' & E & -> & -> & ->)|Hw].
    + right. by eapply waiting_turn.
    + left. by apply works_lt.
  - unfold queue_step in Hs. destruct (queuemap x !! k) as [[]|] eqn:Hk; try done. injection Hs as <-.
    left. by eapply works_lt, queue_works.
Qed.
Lemma other_turn r x y : ready x → step r x y → progress x y ∨ same_turn x y.
Proof.
  intros Hx Hs. destruct Hs as [q x y Hr Hcc|q x y Hr Hcc|o x Ho Hcc|k o x Hp|k b x Hk|x Hp|x|x].
  - by eapply run_turn.
  - by eapply run_turn.
  - right. unfold call_ctx. by destruct (LC.run o _).
  - left. eapply works_lt, node_works; try done. destruct o as [|e]; cbn; [lia|]. destruct (catches e); cbn; lia.
  - left. by eapply works_lt, queue_works.
  - assert (turns x (set_kernel (set_wakeup x false) KPollTest)) as Ht
      by (constructor; unfold garbage_weight; cbn; by rewrite ?Hp).
    destruct (decide (status x = TERMINATE)) as [E|E].
    + left. apply turns_way; [done|]. unfold way. rewrite Hp. cbn. rewrite !decide_True by done. lia.
    + right. apply turns_same; [done|by rewrite Hp|done|]. unfold way. rewrite Hp. cbn. by rewrite !decide_False.
  - assert (turns x (Signal x)) as Ht.
    { constructor; unfold garbage_weight; cbn; by rewrite ?awake_phase, ?awake_is_join. }
    assert (way (Signal x) < way x ∨ way (Signal x) = way x)%nat as [Hw|Hw].
    { unfold way, Signal. cbn. destruct (kernel x) as [| | | | | | | | | | | | | | | |[]|[] ?| | | |]; cbn; auto;
        case_decide; auto; left; lia. }
    + left. by apply turns_way.
    + destruct (in_wait (kernel x)) eqn:Ew.
      * right. assert (Signal x = x) as ->; [|done]. destruct x. cbn in *. by destruct kernel0.
      * right. apply turns_same; try done. cbn. by destruct (kernel x).
  - by right.
Qed.

(** C9: a kernel that was terminated comes to its end.  Whatever the order in which
    the threads run, the kernel's, its nodes', the program's and those of its remote
    queues, and however often waits return by themselves, other connections come
    in or other kernels call the context: if no thread that can go on is left
    waiting for ever, then [EntryPoint] gets to [DONE], so that [Wait] and the
    destructor return, or an exception that nothing catches has ended the program.
    It takes a node to end once [NotifyTerminate] was called on it, no external
    endpoint that is left, and no remote queue that comes too late. *)
Theorem shutdown_completes run who : fair_run step enabled run who →
  reachable (run O) → over (run O) → quiet (run O) →
  ∃ n, CompareAndWait RUNNING (status (run n)) = Some DONE ∨ crashed (run n).
Proof.
  intros Hr Hreach Ho Hq.
  destruct (fair_termination step enabled ready final lex3 measure helpful) with (run := run) (who := who) as [n Hn];
    [exact lex3_wf|intros; by eapply ready_step| | | |done| |].
  - intros x Hx Hf. apply helps_enabled; [done|intros ?; apply Hf; by left|by apply helpful_helps].
  - intros x y Hx Hf Hs. eapply helps_progress; [done|by apply helpful_helps|].
    by inversion Hs.
  - intros l x y Hx _ Hs. by eapply other_turn.
  - split; [by apply kernel_reachable_inv|done].
  - exists n. destruct Hn as [E|?]; [left|by right]. unfold CompareAndWait. by rewrite E, decide_False.
Qed.
End shutdown.
End KS.
