(* ===== verification/KernelExamples.v ===== *)
(** The kernel at work: runs that are played thread by thread, and the theorems on
    them. *)
From S2P Require Import Prelude LocalContext Fairness Kernel KernelInvariants KernelShutdown.

Module KX.
Import KN KI KS.
Open Scope Z_scope.

Section plays.
Context `{Config}.
(** ** Runs that are played *)
Definition play (r : tid) (x : sys) : option sys :=
  if LC.counter (ctx x) <? last_key then
    match r with
    | TKernel => kernel_step x
    | TNode k => node_step k Returns x
    | TClient i => client_step i x
    | TQueue k => queue_step k x
    end
  else None.
Lemma play_step r x y : play r x = Some y → step (Some r) x y.
Proof.
  unfold play. destruct (Z.ltb_spec (LC.counter (ctx x)) last_key) as [Hc|]; [|done].
  intros Hs. apply S_thread; [|done]. destruct r; try done. by exists Returns.
Qed.

(** Nobody can go on. *)
Definition at_end (x : sys) : bool :=
  match kernel x with KEnded => true | _ => false end &&
  bool_decide (queuemap x = ∅) &&
  bool_decide (map_Forall (λ _ p, live p = false) (nodes x)) &&
  forallb (λ c, match pc c, todo c with CIdle _, [] => true | _, _ => false end) (clients x).
Lemma at_end_stays x r : at_end x = true → ¬ enabled r x.
Proof.
  unfold at_end. rewrite !andb_true_iff, !bool_decide_eq_true, forallb_forall.
  intros (((Hk & Hq) & Hn) & Hc). destruct r as [|k|i|k]; cbn.
  - unfold kernel_step. destruct (kernel x); try done; by intros [].
  - unfold node_step. destruct (nodes x !! k) as [p|] eqn:E; [|by intros []].
    specialize (Hn k p E). destruct p; try done; by intros [].
  - unfold client_step. destruct (clients x !! i) as [c|] eqn:E; [|by intros []]. cbn.
    specialize (Hc c). apply list_elem_of_lookup_2 in E. rewrite list_elem_of_In in E.
    specialize (Hc E). destruct (pc c), (todo c); try done; by intros [].
  - unfold queue_step. rewrite Hq, lookup_empty. by intros [].
Qed.
End plays.

(** ** A kernel without remote queues, and one client *)
Definition ex_config : Config := {|
  kernelkey := 1; self := 4096; useremote := false; swallowbrokenqueue := false;
  GetNodeFactory _ := Ok true |}.
#[local] Existing Instance ex_config.
Definition ex_ctx : LC.context := (LC.SetupKernel "k" 4096 LC.make).2.
Definition ex_begin (l : list call) : sys :=
  mk ex_ctx INITIALIZED ∅ [] false false ∅ None None KInit ∅ [mk_client (CIdle (Ok 0)) l] ∅ ∅ false.
Lemma ex_begins l : initial (ex_begin l).
Proof.
  unfold initial. split_and!; try done.
  - change (LC.wf (LC.run (LC.OSetup "k" 4096) LC.make).2). apply LC.op_wf; [apply LC.make_wf|done].
  - by eexists.
  - intros [|i] c; cbn; [|done]. intros [= <-]. by eexists.
Qed.
(** The state that a list of turns comes to. *)
Definition ex_state (l : list call) (turns : list tid) : sys := default (ex_begin l) (plays play turns (ex_begin l)).
Lemma ex_reachable l turns : reachable (ex_state l turns).
Proof.
  exists (ex_begin l). split; [apply ex_begins|]. unfold ex_state.
  destruct (plays play turns (ex_begin l)) as [y|] eqn:E; [|apply rtc_refl].
  by eapply (plays_rtc step play), E; apply play_step.
Qed.

(** One node, which the program terminates. *)
Definition ex_calls : list call := [CCreateNode "n" "t"; CTerminate].
Definition ex_before : list tid :=
  [TKernel; TKernel; TKernel; TClient 0; TClient 0; TKernel; TNode 2; TClient 0].
Definition ex_after : list tid :=
  [TClient 0; TClient 0; TKernel; TKernel; TKernel; TKernel; TKernel; TKernel; TKernel; TKernel;
   TNode 2; TNode 2; TNode 2; TNode 2; TNode 2;
   TKernel; TKernel; TKernel; TKernel; TKernel; TKernel; TKernel].
Definition ex_terminated : sys := ex_state ex_calls ex_before.
Lemma ex_play : plays play ex_after ex_terminated = Some (ex_state ex_calls (ex_before ++ ex_after)).
Proof. vm_compute. reflexivity. Qed.
Lemma ex_fair : fair_run step enabled (played play ex_after ex_terminated) (λ n, ex_after !! n).
Proof.
  eapply played_fair; [apply play_step|apply S_idle|apply ex_play|].
  intros r. apply at_end_stays. vm_compute. reflexivity.
Qed.
Lemma ex_quiet : quiet ex_terminated.
Proof.
  constructor.
  - intros k w. change (nodemap ex_terminated) with ({[ 2 := Threaded ]} : gmap Z node).
    by intros [_ ?]%lookup_singleton_Some.
  - change (clients ex_terminated) with [mk_client CNotifyPost []]. intros [|i] c; [|done].
    intros [= <-]. split; [done|]. split; [done|]. intros q k. apply not_elem_of_nil.
  - done.
Qed.

Lemma kernel_ends_after_its_nodes_witness :
  nodes (ex_state ex_calls (ex_before ++ ex_after)) !! 2 = Some NEnded ∧
  2 ∈ released (ex_state ex_calls (ex_before ++ ex_after)).
Proof.
  destruct (kernel_ends_after_its_nodes _ (ex_reachable ex_calls (ex_before ++ ex_after))) as (_ & _ & _ & Hw).
  split; [vm_compute; reflexivity|]. apply (Hw ltac:(vm_compute; reflexivity) ltac:(vm_compute; reflexivity) 2 NEnded).
  vm_compute. reflexivity.
Defined.
Lemma kernel_sleeps_when_idle_witness :
  kernel ex_terminated = KMainSleep ∧ garbagenodes ex_terminated = [] ∧
  (status ex_terminated = RUNNING ∨ client_at CNotifyWake ex_terminated).
Proof.
  assert (kernel ex_terminated = KMainSleep) as Hk by (vm_compute; reflexivity). split; [exact Hk|].
  apply (kernel_sleeps_when_idle ex_terminated); [apply ex_reachable|vm_compute; reflexivity|left; exact Hk].
Defined.
Lemma shutdown_completes_witness :
  ∃ n, CompareAndWait RUNNING (status (played play ex_after ex_terminated n)) = Some DONE ∨
       crashed (played play ex_after ex_terminated n).
Proof.
  apply (shutdown_completes (played play ex_after ex_terminated) (λ n, ex_after !! n) ex_fair).
  - apply ex_reachable.
  - vm_compute. reflexivity.
  - exact ex_quiet.
Defined.

(** An external endpoint that is left. *)
Definition ex_left : sys :=
  ex_state [CCreateExternal "e" true; CTerminate] [TKernel; TKernel; TClient 0; TClient 0; TClient 0; TClient 0].
Lemma external_endpoint_blocks_end_witness :
  over ex_left ∧
  (∀ name, ∃ y, start (CDestroyExternal name) ex_left = Some (y, CIdle (Err Shutdown))) ∧
  ∀ y, rtc (λ a b, ∃ r, step r a b) ex_left y →
    nodemap y !! 2 ≠ None ∧ CompareAndWait RUNNING (status y) ≠ Some DONE.
Proof.
  assert (over ex_left) as Ho by (vm_compute; reflexivity). split; [exact Ho|].
  apply (external_endpoint_blocks_end ex_left 2 true); [apply ex_reachable|exact Ho|vm_compute; reflexivity..|].
  change (clients ex_left) with [mk_client CNotifyPost []]. intros [|i] c; [|done].
  intros [= <-]. done.
Defined.

(** A kernel that spins: an external endpoint was destroyed while the kernel's
    thread was not waiting. *)
Definition ex_spinning : sys :=
  ex_state [CCreateExternal "e" true; CDestroyExternal "e"]
    [TKernel; TKernel; TKernel; TClient 0; TClient 0; TClient 0; TClient 0; TClient 0; TClient 0; TClient 0;
     TClient 0; TClient 0; TKernel; TKernel; TKernel].
Lemma kernel_spins_example : reachable ex_spinning ∧
  plays play [TKernel; TKernel] ex_spinning = Some ex_spinning.
Proof. split; [apply ex_reachable|vm_compute; reflexivity]. Qed.
End KX.
