(* ===== verification/Network.v ===== *)
(** [libraries/CPN/Kernel::CreateQueue], with [PseudoNode] as far as its queues go:
    kernels of one process that share a registry, and the queues between their
    nodes.

    The queues are objects that kernels, nodes and the D4R nodes hold pointers to:
    a pointer is an index into [objects].  What is in a queue is the matter of
    [QueueBase] and [RemoteStream].  A call is one step here; where it sleeps until
    a node has started, it gives [None] and the caller calls it again. *)
From S2P Require Import Prelude LocalContext RemoteClient.

Module NW.
Open Scope string_scope.
Open Scope list_scope.
Open Scope Z_scope.

Section network.
Context {F : Type}.
Notation SimpleQueueAttr := (@RCC.SimpleQueueAttr F).

(** [QueueAttr] *)
Record QueueAttr := mk_attr {
  a_hint : Z; a_datatype : string; a_name : string; a_length : Z; a_maxThreshold : Z; a_numChannels : Z;
  a_alpha : F; a_readernode : string; a_readerport : string; a_writernode : string; a_writerport : string;
  a_readerkey : Z; a_writerkey : Z; a_readernodekey : Z; a_writernodekey : Z; a_maxwritethreshold : Z }.
Definition SimpleQueueAttr_of (q : QueueAttr) : SimpleQueueAttr :=
  RCC.mk_queueattr (a_hint q) (a_datatype q) (a_length q) (a_maxThreshold q) (a_numChannels q) (a_alpha q)
    (a_readerkey q) (a_writerkey q) (a_readernodekey q) (a_writernodekey q) (a_maxwritethreshold q).
Definition SetReaderKeys (a : SimpleQueueAttr) (nodekey key : Z) : SimpleQueueAttr :=
  RCC.mk_queueattr (RCC.q_hint a) (RCC.q_datatype a) (RCC.q_length a) (RCC.q_maxThreshold a)
    (RCC.q_numChannels a) (RCC.q_alpha a) key (RCC.q_writerkey a) nodekey (RCC.q_writernodekey a)
    (RCC.q_maxwritethreshold a).
Definition SetWriterKeys (a : SimpleQueueAttr) (nodekey key : Z) : SimpleQueueAttr :=
  RCC.mk_queueattr (RCC.q_hint a) (RCC.q_datatype a) (RCC.q_length a) (RCC.q_maxThreshold a)
    (RCC.q_numChannels a) (RCC.q_alpha a) (RCC.q_readerkey a) key (RCC.q_readernodekey a) nodekey
    (RCC.q_maxwritethreshold a).

(** A [ThresholdQueue], or a [RemoteQueue] in one of its modes; the keys of the D4R
    nodes at its ends. *)
Inductive mode := Local | READ | WRITE.
Record queue := mk_queue {
  q_mode : mode; q_attr : SimpleQueueAttr; q_reader : option Z; q_writer : option Z; q_started : bool }.
Definition GetReaderKey (q : queue) : Z := RCC.q_readerkey (q_attr q).
Definition GetWriterKey (q : queue) : Z := RCC.q_writerkey (q_attr q).
(** [RemoteQueue::GetKey] *)
Definition GetKey (q : queue) : Z := match q_mode q with READ => GetReaderKey q | _ => GetWriterKey q end.

(** [PseudoNode]: the queues of its readers and writers by the key of the port, and
    those of its D4R node. *)
Record pnode := mk_pnode {
  readermap : gmap Z nat; writermap : gmap Z nat; readerlist : list nat; writerlist : list nat }.
Definition new_pnode : pnode := mk_pnode ∅ ∅ [] [].
Record kernel := mk_kernel {
  kernelkey : Z; useremote : bool; nodemap : gmap Z pnode;
  queuemap : gmap Z nat }.                     (** of [remotequeueholder] *)
(** The kernels are known by their addresses. *)
Record world := mk { ctx : LC.context; kernels : gmap Z kernel; objects : list queue }.

Definition set_ctx w c := mk c (kernels w) (objects w).
Definition set_kernels w m := mk (ctx w) m (objects w).
Definition set_objects w l := mk (ctx w) (kernels w) l.
Definition set_nodemap k m := mk_kernel (kernelkey k) (useremote k) m (queuemap k).
Definition set_queuemap k m := mk_kernel (kernelkey k) (useremote k) (nodemap k) m.

Definition Op := M world.
(** A call of the context. *)
Definition call {A} (m : LC.Op A) : Op A := λ w, let (r, c) := m (ctx w) in (r, set_ctx w c).
(** [this] of a method of a kernel. *)
Definition this (p : Z) : Op kernel :=
  w ← mget; match kernels w !! p with Some k => mret k | None => mthrow Dangling end.
Definition put_this (p : Z) (k : kernel) : Op unit := mmodify (λ w, set_kernels w (<[p := k]> (kernels w))).
Definition object (i : nat) : Op queue :=
  w ← mget; match objects w !! i with Some q => mret q | None => mthrow Dangling end.
Definition put_object (i : nat) (q : queue) : Op unit := mmodify (λ w, set_objects w (<[i := q]> (objects w))).
Definition new (q : queue) : Op nat := w ← mget; mput (set_objects w (objects w ++ [q])) ;; mret (length (objects w)).

(** ** [PseudoNode] *)
Definition node (p n : Z) : Op pnode :=
  k ← this p; match nodemap k !! n with Some d => mret d | None => mthrow AssertFailed end.
Definition put_node (p n : Z) (d : pnode) : Op unit :=
  k ← this p; put_this p (set_nodemap k (<[n := d]> (nodemap k))).
Definition is_none {A} (o : option A) : bool := match o with None => true | Some _ => false end.
Definition CreateReader (p n : Z) (i : nat) : Op unit :=
  d ← node p n; q ← object i;
  put_node p n (mk_pnode (readermap d) (writermap d) (readerlist d ++ [i]) (writerlist d)) ;;
  put_object i (mk_queue (q_mode q) (q_attr q) (Some n) (q_writer q) (q_started q)) ;;
  massert (is_none (readermap d !! GetReaderKey q)) ;;
  put_node p n (mk_pnode (<[GetReaderKey q := i]> (readermap d)) (writermap d) (readerlist d ++ [i]) (writerlist d)).
Definition CreateWriter (p n : Z) (i : nat) : Op unit :=
  d ← node p n; q ← object i;
  put_node p n (mk_pnode (readermap d) (writermap d) (readerlist d) (writerlist d ++ [i])) ;;
  put_object i (mk_queue (q_mode q) (q_attr q) (q_reader q) (Some n) (q_started q)) ;;
  massert (is_none (writermap d !! GetWriterKey q)) ;;
  put_node p n (mk_pnode (readermap d) (<[GetWriterKey q := i]> (writermap d)) (readerlist d) (writerlist d ++ [i])).
(** [GetReader], [GetWriter]: one test of the loop; [None]: the thread sleeps. *)
Definition CheckTerminated : LC.Op unit := LC.InternalCheckTerminated.
Definition GetReader (p n ekey : Z) : Op (option nat) :=
  d ← node p n;
  match readermap d !! ekey with Some i => mret (Some i) | None => call CheckTerminated ;; mret None end.
Definition GetWriter (p n ekey : Z) : Op (option nat) :=
  d ← node p n;
  match writermap d !! ekey with Some i => mret (Some i) | None => call CheckTerminated ;; mret None end.
Definition GetIQueue (p n : Z) (portname : string) : Op (option nat) :=
  call CheckTerminated ;; ekey ← call (LC.GetCreateReaderKey n portname); GetReader p n ekey.
Definition GetOQueue (p n : Z) (portname : string) : Op (option nat) :=
  call CheckTerminated ;; ekey ← call (LC.GetCreateWriterKey n portname); GetWriter p n ekey.

(** ** [Kernel] *)
(** [remotequeueholder->AddQueue] *)
Definition AddQueue (p : Z) (i : nat) : Op unit :=
  q ← object i; k ← this p;
  match queuemap k !! GetKey q with
  | Some _ => mret tt
  | None => put_this p (set_queuemap k (<[GetKey q := i]> (queuemap k)))
  end.
(** [RemoteQueue::Start] *)
Definition Start (i : nat) : Op unit :=
  q ← object i; put_object i (mk_queue (q_mode q) (q_attr q) (q_reader q) (q_writer q) true).
(** The part that [CreateReaderEndpoint] and [CreateWriterEndpoint] share; [n] is the
    node. *)
Definition OpenEndpoint (p n : Z) (m : mode) (attr : SimpleQueueAttr) : Op nat :=
  k ← this p; massert (useremote k) ;;
  endp ← new (mk_queue m attr None None false);
  node p n ;; AddQueue p endp ;; Start endp ;; mret endp.
Definition CreateReaderEndpoint (p : Z) (attr : SimpleQueueAttr) : Op unit :=
  endp ← OpenEndpoint p (RCC.q_readernodekey attr) READ attr;
  CreateReader p (RCC.q_readernodekey attr) endp.
Definition CreateWriterEndpoint (p : Z) (attr : SimpleQueueAttr) : Op unit :=
  endp ← OpenEndpoint p (RCC.q_writernodekey attr) WRITE attr;
  CreateWriter p (RCC.q_writernodekey attr) endp.
Definition CreateLocalQueue (p : Z) (attr : SimpleQueueAttr) : Op unit :=
  q ← new (mk_queue Local attr None None false);
  node p (RCC.q_readernodekey attr) ;; node p (RCC.q_writernodekey attr) ;;
  CreateWriter p (RCC.q_writernodekey attr) q ;; CreateReader p (RCC.q_readernodekey attr) q.
Definition RemoteCreateWriter (p : Z) (attr : SimpleQueueAttr) : Op unit :=
  k ← this p; massert (useremote k) ;; CreateWriterEndpoint p attr.
Definition RemoteCreateReader (p : Z) (attr : SimpleQueueAttr) : Op unit :=
  k ← this p; massert (useremote k) ;; CreateReaderEndpoint p attr.
Definition RemoteCreateQueue (p : Z) (attr : SimpleQueueAttr) : Op unit :=
  k ← this p; massert (useremote k) ;; CreateLocalQueue p attr.
(** [LocalContext] calls the kernel itself. *)
Definition SendCreateWriter (kernelkey : Z) attr : Op unit := p ← call (LC.SendCreate kernelkey); RemoteCreateWriter p attr.
Definition SendCreateReader (kernelkey : Z) attr : Op unit := p ← call (LC.SendCreate kernelkey); RemoteCreateReader p attr.
Definition SendCreateQueue (kernelkey : Z) attr : Op unit := p ← call (LC.SendCreate kernelkey); RemoteCreateQueue p attr.

(** [CreateQueue], first part: from names to keys. *)
Definition normalize_reader (q : QueueAttr) (a : SimpleQueueAttr) : LC.Op (option SimpleQueueAttr) :=
  if RCC.q_readerkey a =? 0 then
    n ← (if RCC.q_readernodekey a =? 0 then
           if String.eqb (a_readernode q) "" then mthrow InvalidArgument
           else LC.WaitForNodeStart (a_readernode q)
         else mret (Some (RCC.q_readernodekey a)));
    match n with
    | None => mret None
    | Some n =>
        if String.eqb (a_readerport q) "" then mthrow InvalidArgument else
        key ← LC.GetCreateReaderKey n (a_readerport q); mret (Some (SetReaderKeys a n key))
    end
  else if RCC.q_readernodekey a =? 0 then
    n ← LC.GetReaderNode (RCC.q_readerkey a); mret (Some (SetReaderKeys a n (RCC.q_readerkey a)))
  else mret (Some a).
Definition normalize_writer (q : QueueAttr) (a : SimpleQueueAttr) : LC.Op (option SimpleQueueAttr) :=
  if RCC.q_writerkey a =? 0 then
    n ← (if RCC.q_writernodekey a =? 0 then
           if String.eqb (a_writernode q) "" then mthrow InvalidArgument
           else LC.WaitForNodeStart (a_writernode q)
         else mret (Some (RCC.q_writernodekey a)));
    match n with
    | None => mret None
    | Some n =>
        if String.eqb (a_writerport q) "" then mthrow InvalidArgument else
        key ← LC.GetCreateWriterKey n (a_writerport q); mret (Some (SetWriterKeys a n key))
    end
  else if RCC.q_writernodekey a =? 0 then
    n ← LC.GetWriterNode (RCC.q_writerkey a); mret (Some (SetWriterKeys a n (RCC.q_writerkey a)))
  else mret (Some a).
Definition normalize (q : QueueAttr) : LC.Op (option SimpleQueueAttr) :=
  a ← normalize_reader q (SimpleQueueAttr_of q);
  match a with Some a => normalize_writer q a | None => mret None end.

(** Second part: the ports are connected in the registry, and the kernels of the
    two nodes make the ends. *)
Definition place (p : Z) (attr : SimpleQueueAttr) : Op unit :=
  k ← this p;
  readerkernel ← call (LC.GetNodeKernel (RCC.q_readernodekey attr));
  writerkernel ← call (LC.GetNodeKernel (RCC.q_writernodekey attr));
  if readerkernel =? writerkernel then
    if readerkernel =? kernelkey k then CreateLocalQueue p attr
    else massert (useremote k) ;; SendCreateQueue readerkernel attr
  else if readerkernel =? kernelkey k then
    massert (useremote k) ;; CreateReaderEndpoint p attr ;; SendCreateWriter writerkernel attr
  else if writerkernel =? kernelkey k then
    massert (useremote k) ;; CreateWriterEndpoint p attr ;; SendCreateReader readerkernel attr
  else
    massert (useremote k) ;; SendCreateWriter writerkernel attr ;; SendCreateReader readerkernel attr.
Definition CreateQueue (p : Z) (q : QueueAttr) : Op (option unit) :=
  a ← call (normalize q);
  match a with
  | None => mret None
  | Some attr =>
      call (LC.ConnectEndpoints (RCC.q_writerkey attr) (RCC.q_readerkey attr) (a_name q)) ;;
      place p attr ;; mret (Some tt)
  end.

(** ** What the operations do *)
Definition node_at (w : world) (p n : Z) : option pnode := kernels w !! p ≫= λ k, nodemap k !! n.
Definition add_reader (key : Z) (i : nat) (d : pnode) : pnode :=
  mk_pnode (<[key := i]> (readermap d)) (writermap d) (readerlist d ++ [i]) (writerlist d).
Definition add_writer (key : Z) (i : nat) (d : pnode) : pnode :=
  mk_pnode (readermap d) (<[key := i]> (writermap d)) (readerlist d) (writerlist d ++ [i]).
Definition with_reader (n : Z) (q : queue) : queue := mk_queue (q_mode q) (q_attr q) (Some n) (q_writer q) (q_started q).
Definition with_writer (n : Z) (q : queue) : queue := mk_queue (q_mode q) (q_attr q) (q_reader q) (Some n) (q_started q).

(** Nothing but the nodes and the queues of a kernel changes. *)
Definition same_kernels (w w' : world) : Prop :=
  ∀ p, (λ k, (kernelkey k, useremote k)) <$> (kernels w' !! p) = (λ k, (kernelkey k, useremote k)) <$> (kernels w !! p).
Definition node_becomes (w w' : world) (p n : Z) (d : pnode) : Prop :=
  node_at w' p n = Some d ∧ ∀ p' n', (p' ≠ p ∨ n' ≠ n) → node_at w' p' n' = node_at w p' n'.
(** [w'] differs from [w] in one node and one object. *)
Record attached (w w' : world) (p n : Z) (d : pnode) (i : nat) (q : queue) : Prop := {
  at_ctx : ctx w' = ctx w; at_kernels : same_kernels w w';
  at_node : node_becomes w w' p n d; at_objects : objects w' = <[i := q]> (objects w) }.

Lemma node_run p n w d : node_at w p n = Some d → node p n w = (Ok d, w).
Proof.
  unfold node_at, node, this. intros (K & Hk & Hn)%bind_Some. mred. by rewrite Hk; cbn; rewrite Hn.
Qed.
Lemma object_run i w q : objects w !! i = Some q → object i w = (Ok q, w).
Proof. intros E. unfold object. mred. by rewrite E. Qed.
Lemma put_node_run p n d d' w : node_at w p n = Some d → ∃ w', put_node p n d' w = (Ok tt, w') ∧
  ctx w' = ctx w ∧ objects w' = objects w ∧ same_kernels w w' ∧ node_becomes w w' p n d'.
Proof.
  unfold node_at, put_node, this, put_this. intros (K & Hk & Hn)%bind_Some. mred. rewrite Hk. cbn.
  eexists. split; [done|]. cbn. split; [done|]. split; [done|]. split.
  - intros p'. cbn. destruct (decide (p' = p)) as [->|Hp]; [by rewrite lookup_insert_eq, Hk|].
    by rewrite lookup_insert_ne by done.
  - split; unfold node_at; cbn; [by rewrite lookup_insert_eq; cbn; rewrite lookup_insert_eq|].
    intros p' n' Hne. destruct (decide (p' = p)) as [->|Hp]; [|by rewrite lookup_insert_ne by done].
    rewrite lookup_insert_eq, Hk. cbn. destruct Hne as [|Hne]; [done|]. by rewrite lookup_insert_ne by done.
Qed.
Lemma same_kernels_trans w w' w'' : same_kernels w w' → same_kernels w' w'' → same_kernels w w''.
Proof. intros H1 H2 p. by rewrite H2, H1. Qed.
Lemma node_becomes_twice w w' w'' p n d d' : node_becomes w w' p n d → node_becomes w' w'' p n d' →
  node_becomes w w'' p n d'.
Proof. intros [H1 H2] [H3 H4]. split; [done|]. intros p' n' Hne. by rewrite H4, H2. Qed.

Lemma CreateReader_run p n i w d q : node_at w p n = Some d → objects w !! i = Some q →
  readermap d !! GetReaderKey q = None → ∃ w', CreateReader p n i w = (Ok tt, w') ∧
  attached w w' p n (add_reader (GetReaderKey q) i d) i (with_reader n q).
Proof.
  intros Hd Hq Hm. unfold CreateReader. mred. rewrite (node_run _ _ _ _ Hd), (object_run _ _ _ Hq).
  destruct (put_node_run p n d (mk_pnode (readermap d) (writermap d) (readerlist d ++ [i]) (writerlist d)) w Hd)
    as (w1 & -> & Ec & Eo & Hk1 & Hn1). unfold put_object. mred. rewrite Hm. cbn.
  set (w2 := set_objects w1 _).
  destruct (put_node_run p n _ (add_reader (GetReaderKey q) i d) w2 (proj1 Hn1)) as (w3 & E3 & Ec3 & Eo3 & Hk3 & Hn3).
  unfold add_reader in E3. rewrite E3. exists w3. split; [done|]. constructor.
  - by rewrite Ec3.
  - by eapply same_kernels_trans.
  - eapply node_becomes_twice; [exact Hn1|done].
  - rewrite Eo3. cbn. by rewrite Eo.
Qed.
Lemma CreateWriter_run p n i w d q : node_at w p n = Some d → objects w !! i = Some q →
  writermap d !! GetWriterKey q = None → ∃ w', CreateWriter p n i w = (Ok tt, w') ∧
  attached w w' p n (add_writer (GetWriterKey q) i d) i (with_writer n q).
Proof.
  intros Hd Hq Hm. unfold CreateWriter. mred. rewrite (node_run _ _ _ _ Hd), (object_run _ _ _ Hq).
  destruct (put_node_run p n d (mk_pnode (readermap d) (writermap d) (readerlist d) (writerlist d ++ [i])) w Hd)
    as (w1 & -> & Ec & Eo & Hk1 & Hn1). unfold put_object. mred. rewrite Hm. cbn.
  set (w2 := set_objects w1 _).
  destruct (put_node_run p n _ (add_writer (GetWriterKey q) i d) w2 (proj1 Hn1)) as (w3 & E3 & Ec3 & Eo3 & Hk3 & Hn3).
  unfold add_writer in E3. rewrite E3. exists w3. split; [done|]. constructor.
  - by rewrite Ec3.
  - by eapply same_kernels_trans.
  - eapply node_becomes_twice; [exact Hn1|done].
  - rewrite Eo3. cbn. by rewrite Eo.
Qed.
(** A second queue on a port: the assertion fails. *)
Lemma CreateReader_taken p n i w d q j : node_at w p n = Some d → objects w !! i = Some q →
  readermap d !! GetReaderKey q = Some j → ∃ w', CreateReader p n i w = (Err AssertFailed, w') ∧
  attached w w' p n (mk_pnode (readermap d) (writermap d) (readerlist d ++ [i]) (writerlist d)) i (with_reader n q).
Proof.
  intros Hd Hq Hm. unfold CreateReader. mred. rewrite (node_run _ _ _ _ Hd), (object_run _ _ _ Hq).
  destruct (put_node_run p n d (mk_pnode (readermap d) (writermap d) (readerlist d ++ [i]) (writerlist d)) w Hd)
    as (w1 & -> & Ec & Eo & Hk1 & Hn1). unfold put_object. mred. rewrite Hm. cbn.
  eexists. split; [done|]. constructor; try done. cbn. by rewrite Eo.
Qed.

(** A new remote queue, before its node has it. *)
Record opened (w w' : world) (q : queue) : Prop := {
  op_ctx : ctx w' = ctx w; op_kernels : same_kernels w w'; op_nodes p n : node_at w' p n = node_at w p n;
  op_objects : objects w' = objects w ++ [q] }.
Lemma AddQueue_run p i w q K : kernels w !! p = Some K → objects w !! i = Some q →
  ∃ w', AddQueue p i w = (Ok tt, w') ∧ ctx w' = ctx w ∧ objects w' = objects w ∧ same_kernels w w' ∧
    ∀ p' n', node_at w' p' n' = node_at w p' n'.
Proof.
  intros Hk Hq. unfold AddQueue, this, put_this. mred. rewrite (object_run _ _ _ Hq), Hk.
  destruct (queuemap K !! GetKey q); [by exists w|]. eexists. split; [done|]. cbn. split; [done|]. split; [done|].
  unfold same_kernels, node_at. cbn. split.
  - intros p'. destruct (decide (p' = p)) as [->|Hp]; [by rewrite lookup_insert_eq, Hk|by rewrite lookup_insert_ne].
  - intros p' n'. destruct (decide (p' = p)) as [->|Hp]; [by rewrite lookup_insert_eq, Hk|by rewrite lookup_insert_ne].
Qed.
Lemma insert_last {A} (l : list A) x y : <[length l := y]> (l ++ [x]) = l ++ [y].
Proof. rewrite insert_app_r_alt by lia. by rewrite Nat.sub_diag. Qed.
Lemma lookup_last {A} (l : list A) x : (l ++ [x]) !! length l = Some x.
Proof. rewrite lookup_app_r by lia. by rewrite Nat.sub_diag. Qed.

Lemma endpoint_open p n w m a K d : kernels w !! p = Some K → useremote K = true → node_at w p n = Some d →
  ∃ w', OpenEndpoint p n m a w = (Ok (length (objects w)), w') ∧
    opened w w' (mk_queue m a None None true).
Proof.
  intros Hk Hu Hd. unfold OpenEndpoint, this. mred. rewrite Hk, Hu. unfold new. mred.
  set (w1 := set_objects w _). assert (node_at w1 p n = Some d) as Hd1 by done.
  rewrite (node_run _ _ _ _ Hd1).
  destruct (AddQueue_run p (length (objects w)) w1 (mk_queue m a None None false) K) as (w2 & -> & Ec & Eo & Hk2 & Hn2);
    [done|apply lookup_last|]. unfold Start. mred.
  rewrite (object_run _ _ (mk_queue m a None None false)) by (rewrite Eo; apply lookup_last).
  unfold put_object. mred. eexists. split; [done|]. constructor; try done. cbn. rewrite Eo. cbn. apply insert_last.
Qed.

(** *** The ends of a queue *)
Lemma reader_endpoint p w a K d : kernels w !! p = Some K → useremote K = true →
  node_at w p (RCC.q_readernodekey a) = Some d → readermap d !! RCC.q_readerkey a = None →
  ∃ w', CreateReaderEndpoint p a w = (Ok tt, w') ∧ ctx w' = ctx w ∧ same_kernels w w' ∧
    node_becomes w w' p (RCC.q_readernodekey a) (add_reader (RCC.q_readerkey a) (length (objects w)) d) ∧
    objects w' = objects w ++ [mk_queue READ a (Some (RCC.q_readernodekey a)) None true].
Proof.
  intros Hk Hu Hd Hm. unfold CreateReaderEndpoint. mred.
  destruct (endpoint_open p _ w READ a K d Hk Hu Hd) as (w1 & -> & [Ec1 Hk1 Hn1 Eo1]).
  destruct (CreateReader_run p (RCC.q_readernodekey a) (length (objects w)) w1 d (mk_queue READ a None None true))
    as (w2 & -> & [Ec2 Hk2 [Hn2 Hn2'] Eo2]); [by rewrite Hn1|rewrite Eo1; apply lookup_last|done|].
  exists w2. split; [done|]. split; [congruence|]. split; [by eapply same_kernels_trans|]. split.
  - split; [done|]. intros p' n' Hne. by rewrite Hn2', Hn1.
  - rewrite Eo2, Eo1. apply insert_last.
Qed.
Lemma writer_endpoint p w a K d : kernels w !! p = Some K → useremote K = true →
  node_at w p (RCC.q_writernodekey a) = Some d → writermap d !! RCC.q_writerkey a = None →
  ∃ w', CreateWriterEndpoint p a w = (Ok tt, w') ∧ ctx w' = ctx w ∧ same_kernels w w' ∧
    node_becomes w w' p (RCC.q_writernodekey a) (add_writer (RCC.q_writerkey a) (length (objects w)) d) ∧
    objects w' = objects w ++ [mk_queue WRITE a None (Some (RCC.q_writernodekey a)) true].
Proof.
  intros Hk Hu Hd Hm. unfold CreateWriterEndpoint. mred.
  destruct (endpoint_open p _ w WRITE a K d Hk Hu Hd) as (w1 & -> & [Ec1 Hk1 Hn1 Eo1]).
  destruct (CreateWriter_run p (RCC.q_writernodekey a) (length (objects w)) w1 d (mk_queue WRITE a None None true))
    as (w2 & -> & [Ec2 Hk2 [Hn2 Hn2'] Eo2]); [by rewrite Hn1|rewrite Eo1; apply lookup_last|done|].
  exists w2. split; [done|]. split; [congruence|]. split; [by eapply same_kernels_trans|]. split.
  - split; [done|]. intros p' n' Hne. by rewrite Hn2', Hn1.
  - rewrite Eo2, Eo1. apply insert_last.
Qed.

(** What a queue with the attributes [a] adds to a node, when its ends are [i] and [j]. *)
Definition gains (w w' : world) (pr pw : Z) (a : SimpleQueueAttr) (i j : nat) : Prop := ∀ p n,
  node_at w' p n = (λ d,
    (if decide (p = pw ∧ n = RCC.q_writernodekey a) then add_writer (RCC.q_writerkey a) j else id)
      ((if decide (p = pr ∧ n = RCC.q_readernodekey a) then add_reader (RCC.q_readerkey a) i else id) d)) <$>
    node_at w p n.
Lemma gains_both w w1 w' pr pw a i j d e :
  node_at w pr (RCC.q_readernodekey a) = Some d →
  node_becomes w w1 pr (RCC.q_readernodekey a) (add_reader (RCC.q_readerkey a) i d) →
  node_at w1 pw (RCC.q_writernodekey a) = Some e →
  node_becomes w1 w' pw (RCC.q_writernodekey a) (add_writer (RCC.q_writerkey a) j e) → gains w w' pr pw a i j.
Proof.
  intros Hd [H1 H1'] He [H2 H2'] p n.
  destruct (decide (p = pw ∧ n = RCC.q_writernodekey a)) as [[-> ->]|Hw].
  - rewrite H2. case_decide as Hr.
    + destruct Hr as [<- Hr]. rewrite <- Hr in *. by rewrite Hd; cbn; rewrite H1 in He; simplify_eq.
    + rewrite H1' in He; [by rewrite He|]. by destruct (decide (pw = pr)) as [->|]; auto.
  - rewrite H2' by (destruct (decide (p = pw)); naive_solver). case_decide as Hr.
    + destruct Hr as [-> ->]. by rewrite H1, Hd.
    + rewrite H1' by (destruct (decide (p = pr)); naive_solver). by destruct (node_at w p n).
Qed.
Lemma gains_both' w w1 w' pr pw a i j d e :
  node_at w pw (RCC.q_writernodekey a) = Some e →
  node_becomes w w1 pw (RCC.q_writernodekey a) (add_writer (RCC.q_writerkey a) j e) →
  node_at w1 pr (RCC.q_readernodekey a) = Some d →
  node_becomes w1 w' pr (RCC.q_readernodekey a) (add_reader (RCC.q_readerkey a) i d) → gains w w' pr pw a i j.
Proof.
  intros He [H1 H1'] Hd [H2 H2'] p n.
  destruct (decide (p = pr ∧ n = RCC.q_readernodekey a)) as [[-> ->]|Hr].
  - rewrite H2. case_decide as Hw.
    + destruct Hw as [<- Hw]. rewrite <- Hw in *. rewrite H1 in Hd. simplify_eq. by rewrite He.
    + rewrite H1' in Hd; [by rewrite Hd|]. by destruct (decide (pr = pw)) as [->|]; auto.
  - rewrite H2' by (destruct (decide (p = pr)); naive_solver). case_decide as Hw.
    + destruct Hw as [-> ->]. by rewrite H1, He.
    + rewrite H1' by (destruct (decide (p = pw)); naive_solver). by destruct (node_at w p n).
Qed.

(** The two ends of a queue between two kernels, or the queue of one. *)
Definition ends (w w' : world) (pr pw : Z) (a : SimpleQueueAttr) (i j : nat) : Prop :=
  (∀ k, (k < length (objects w))%nat → objects w' !! k = objects w !! k) ∧
  (length (objects w) ≤ i)%nat ∧ (length (objects w) ≤ j)%nat ∧
  if decide (pr = pw) then
    i = j ∧ objects w' !! i = Some (mk_queue Local a (Some (RCC.q_readernodekey a)) (Some (RCC.q_writernodekey a)) false)
  else
    i ≠ j ∧ objects w' !! i = Some (mk_queue READ a (Some (RCC.q_readernodekey a)) None true) ∧
    objects w' !! j = Some (mk_queue WRITE a None (Some (RCC.q_writernodekey a)) true).
Record placed (w w' : world) (pr pw : Z) (a : SimpleQueueAttr) (i j : nat) : Prop := {
  pl_ctx : ctx w' = ctx w; pl_kernels : same_kernels w w';
  pl_nodes : gains w w' pr pw a i j; pl_ends : ends w w' pr pw a i j }.

Lemma local_queue p w a d e : node_at w p (RCC.q_readernodekey a) = Some d →
  node_at w p (RCC.q_writernodekey a) = Some e →
  readermap d !! RCC.q_readerkey a = None → writermap e !! RCC.q_writerkey a = None →
  ∃ w' i, CreateLocalQueue p a w = (Ok tt, w') ∧ placed w w' p p a i i.
Proof.
  intros Hd He Hm Hm'. unfold CreateLocalQueue, new. mred. set (w1 := set_objects w _).
  rewrite (node_run p (RCC.q_readernodekey a) w1 d Hd), (node_run p (RCC.q_writernodekey a) w1 e He).
  destruct (CreateWriter_run p (RCC.q_writernodekey a) (length (objects w)) w1 e (mk_queue Local a None None false))
    as (w2 & -> & [Ec2 Hk2 Hn2 Eo2]); [done|apply lookup_last|done|].
  assert (∃ d2, node_at w2 p (RCC.q_readernodekey a) = Some d2 ∧ readermap d2 = readermap d) as (d2 & Hd2 & Ed2).
  { destruct (decide (RCC.q_readernodekey a = RCC.q_writernodekey a)) as [E|E].
    - rewrite E in *. destruct Hn2 as [Hn2 _]. rewrite Hn2. eexists. split; [done|]. cbn. congruence.
    - destruct Hn2 as [_ Hn2]. rewrite Hn2 by auto. by exists d. }
  destruct (CreateReader_run p (RCC.q_readernodekey a) (length (objects w)) w2 d2
    (with_writer (RCC.q_writernodekey a) (mk_queue Local a None None false)))
    as (w3 & -> & [Ec3 Hk3 Hn3 Eo3]); [done| |by rewrite Ed2|].
  { rewrite Eo2. cbn. rewrite insert_last. apply lookup_last. }
  exists w3, (length (objects w)). split; [done|]. constructor.
  - by rewrite Ec3, Ec2.
  - by eapply (same_kernels_trans w w2).
  - by eapply (gains_both' w w2).
  - rewrite Eo2 in Eo3. cbn in Eo3. rewrite !insert_last in Eo3. unfold ends. rewrite Eo3.
    rewrite decide_True by done. split_and!; try lia; try done; [|by rewrite lookup_last].
    intros k Hk. by rewrite lookup_app_l.
Qed.

(** *** From whichever kernel *)
(** The kernels of the process are those that the registry knows by their keys. *)
Definition registered (w : world) : Prop := ∀ p k, kernels w !! p = Some k →
  p ≠ 0 ∧ ∃ i, LC.kernelmap (ctx w) !! kernelkey k = Some i ∧ LC.k_kernel i = p.
(** The node [n] lives on the kernel at [p], and its kernel has it. *)
Definition lives (w : world) (n p : Z) (d : pnode) : Prop :=
  node_at w p n = Some d ∧
  ∃ k i, kernels w !! p = Some k ∧ LC.nodemap (ctx w) !! n = Some i ∧ LC.n_kernelkey i = kernelkey k.
Lemma same_key w p p' k k' : registered w → kernels w !! p = Some k → kernels w !! p' = Some k' →
  kernelkey k = kernelkey k' → p = p'.
Proof.
  intros Hr Hp Hp' E. destruct (Hr p k Hp) as (_ & i & Hi & <-). destruct (Hr p' k' Hp') as (_ & i' & Hi' & <-).
  congruence.
Qed.
Lemma node_kernel w n p d k : lives w n p d → kernels w !! p = Some k → LC.shutdown (ctx w) = false →
  call (LC.GetNodeKernel n) w = (Ok (kernelkey k), w).
Proof.
  intros (Hd & k' & i & Hk' & Hi & E) Hk Hs. simplify_eq. unfold call, LC.GetNodeKernel, LC.InternalCheckTerminated, LC.find_node, LC.find.
  mred. rewrite Hs. cbn. rewrite Hi. cbn. rewrite E. by destruct w.
Qed.
Lemma send_run w p k : registered w → kernels w !! p = Some k → LC.shutdown (ctx w) = false →
  call (LC.SendCreate (kernelkey k)) w = (Ok p, w).
Proof.
  intros Hr Hk Hs. destruct (Hr p k Hk) as (H0 & i & Hi & <-). unfold call, LC.SendCreate, LC.InternalCheckTerminated.
  mred. rewrite Hs. cbn. rewrite Hi. cbn. destruct (Z.eqb_spec (LC.k_kernel i) 0); [done|]. by destruct w.
Qed.
Lemma same_kernel w w' p k : same_kernels w w' → kernels w !! p = Some k →
  ∃ k', kernels w' !! p = Some k' ∧ kernelkey k' = kernelkey k ∧ useremote k' = useremote k.
Proof.
  intros Hs Hk. specialize (Hs p). rewrite Hk in Hs. destruct (kernels w' !! p) as [k'|]; [|done].
  injection Hs as E1 E2. by exists k'.
Qed.
Lemma same_kernel_back w w' p k' : same_kernels w w' → kernels w' !! p = Some k' →
  ∃ k, kernels w !! p = Some k ∧ kernelkey k' = kernelkey k.
Proof.
  intros Hs Hk. specialize (Hs p). rewrite Hk in Hs. destruct (kernels w !! p) as [k|]; [|done].
  injection Hs as E1 E2. by exists k.
Qed.
Lemma registered_same w w' : registered w → ctx w' = ctx w → same_kernels w w' → registered w'.
Proof.
  intros Hr Ec Hs p k' Hk. destruct (same_kernel_back w w' p k' Hs Hk) as (k & Hk' & ->). rewrite Ec. by apply Hr.
Qed.

(** The kernel that asks, and the two that are asked. *)
Record placeable (w : world) (p pr pw : Z) (a : SimpleQueueAttr) (d e : pnode) : Prop := {
  pb_open : LC.shutdown (ctx w) = false;
  pb_registered : registered w;
  pb_caller : is_Some (kernels w !! p);
  pb_remote : p = pr ∧ p = pw ∨ ∀ p' k, p' = p ∨ p' = pr ∨ p' = pw → kernels w !! p' = Some k → useremote k = true;
  pb_reader : lives w (RCC.q_readernodekey a) pr d;
  pb_writer : lives w (RCC.q_writernodekey a) pw e;
  pb_rfree : readermap d !! RCC.q_readerkey a = None;
  pb_wfree : writermap e !! RCC.q_writerkey a = None }.

Lemma ends_remote w w1 w' pr pw a (rd : bool) : pr ≠ pw →
  let qr := mk_queue READ a (Some (RCC.q_readernodekey a)) None true in
  let qw := mk_queue WRITE a None (Some (RCC.q_writernodekey a)) true in
  objects w1 = objects w ++ [if rd then qr else qw] →
  objects w' = objects w1 ++ [if rd then qw else qr] →
  ends w w' pr pw a (if rd then length (objects w) else length (objects w1))
                    (if rd then length (objects w1) else length (objects w)).
Proof.
  intros Hne qr qw E1 E2. unfold ends. rewrite decide_False by done.
  assert (length (objects w1) = (length (objects w) + 1)%nat) as El by (rewrite E1, length_app; done).
  split; [|destruct rd; split_and!; try lia].
  - intros k Hk. by rewrite E2, E1, !lookup_app_l by (rewrite ?length_app; cbn; lia).
  - by rewrite E2, E1, lookup_app_l, lookup_last by (rewrite length_app; cbn; lia).
  - by rewrite E2, lookup_last.
  - by rewrite E2, lookup_last.
  - by rewrite E2, E1, lookup_app_l, lookup_last by (rewrite length_app; cbn; lia).
Qed.

(** The reader's end first, or the writer's. *)
Lemma remote_ends w p pr pw a d e (rd : bool) : placeable w p pr pw a d e → pr ≠ pw → ∃ w1 w' i j,
  (if rd then CreateReaderEndpoint pr a else CreateWriterEndpoint pw a) w = (Ok tt, w1) ∧
  ctx w1 = ctx w ∧ same_kernels w w1 ∧
  (if rd then CreateWriterEndpoint pw a else CreateReaderEndpoint pr a) w1 = (Ok tt, w') ∧
  placed w w' pr pw a i j.
Proof.
  intros [Hs Hr Hc Hu [Hd (kr & ir & Hkr & _)] [He (kw & iw & Hkw & _)] Hm Hm'] Hne.
  assert (∀ p' k, p' = p ∨ p' = pr ∨ p' = pw → kernels w !! p' = Some k → useremote k = true) as Hu'
    by (destruct Hu as [[-> ?]|]; [done|done]).
  pose proof (Hu' pr kr (or_intror (or_introl eq_refl)) Hkr) as Hur.
  pose proof (Hu' pw kw (or_intror (or_intror eq_refl)) Hkw) as Huw.
  destruct rd.
  - destruct (reader_endpoint pr w a kr d) as (w1 & E1 & Ec1 & Hk1 & Hn1 & Eo1); try done.
    destruct (same_kernel w w1 pw kw Hk1 Hkw) as (kw' & Hkw' & _ & Eu).
    assert (node_at w1 pw (RCC.q_writernodekey a) = Some e) as He1.
    { destruct Hn1 as [_ Hn1]. rewrite Hn1; [done|by left]. }
    destruct (writer_endpoint pw w1 a kw' e) as (w' & E2 & Ec2 & Hk2 & Hn2 & Eo2); try done; [by rewrite Eu|].
    exists w1, w', (length (objects w)), (length (objects w1)).
    split; [done|]. split; [done|]. split; [done|]. split; [done|]. constructor.
    + congruence.
    + by eapply same_kernels_trans.
    + by eapply (gains_both w w1).
    + by apply (ends_remote w w1 w' pr pw a true).
  - destruct (writer_endpoint pw w a kw e) as (w1 & E1 & Ec1 & Hk1 & Hn1 & Eo1); try done.
    destruct (same_kernel w w1 pr kr Hk1 Hkr) as (kr' & Hkr' & _ & Eu).
    assert (node_at w1 pr (RCC.q_readernodekey a) = Some d) as Hd1.
    { destruct Hn1 as [_ Hn1]. rewrite Hn1; [done|by left]. }
    destruct (reader_endpoint pr w1 a kr' d) as (w' & E2 & Ec2 & Hk2 & Hn2 & Eo2); try done; [by rewrite Eu|].
    exists w1, w', (length (objects w1)), (length (objects w)).
    split; [done|]. split; [done|]. split; [done|]. split; [done|]. constructor.
    + congruence.
    + by eapply same_kernels_trans.
    + by eapply (gains_both' w w1).
    + by apply (ends_remote w w1 w' pr pw a false).
Qed.

Lemma place_run w p pr pw a d e : placeable w p pr pw a d e → ∃ w' i j,
  place p a w = (Ok tt, w') ∧ placed w w' pr pw a i j.
Proof.
  intros Hpb. pose proof Hpb as [Hs Hr [K HK] Hu Hlr Hlw Hm Hm'].
  pose proof Hlr as [Hd (kr & ir & Hkr & Hir & Er)]. pose proof Hlw as [He (kw & iw & Hkw & Hiw & Ew)].
  assert (p = pr ∧ p = pw ∨ useremote K = true ∧ useremote kr = true ∧ useremote kw = true) as Hu'.
  { destruct Hu as [?|Hu]; [by left|right].
    split_and!; [apply (Hu p)|apply (Hu pr)|apply (Hu pw)]; by auto. }
  assert (∀ w1 q kq, ctx w1 = ctx w → same_kernels w w1 → kernels w !! q = Some kq →
    call (LC.SendCreate (kernelkey kq)) w1 = (Ok q, w1)) as Hsend.
  { intros w1 q kq Ec Hk1 Hq. destruct (same_kernel w w1 q kq Hk1 Hq) as (kq' & Hq' & E & _). rewrite <- E.
    apply send_run; [by eapply registered_same|done|by rewrite Ec]. }
  assert (∀ w1 q kq, same_kernels w w1 → kernels w !! q = Some kq → useremote kq = true →
    ∃ kq', kernels w1 !! q = Some kq' ∧ useremote kq' = true) as Hrem.
  { intros w1 q kq Hk1 Hq E. destruct (same_kernel w w1 q kq Hk1 Hq) as (kq' & Hq' & _ & E'). exists kq'. by rewrite E'. }
  unfold place, this. mred. rewrite HK. rewrite (node_kernel _ _ _ _ _ Hlr Hkr Hs), (node_kernel _ _ _ _ _ Hlw Hkw Hs).
  destruct (Z.eqb_spec (kernelkey kr) (kernelkey kw)) as [Ek|Ek].
  - pose proof (same_key _ _ _ _ _ Hr Hkr Hkw Ek) as <-. simplify_eq.
    destruct (local_queue pr w a d e Hd He Hm Hm') as (w' & i & E & Hp). exists w', i, i.
    split; [|done]. destruct (Z.eqb_spec (kernelkey kr) (kernelkey K)) as [Ek'|Ek'].
    + by pose proof (same_key _ _ _ _ _ Hr Hkr HK Ek') as <-.
    + destruct Hu' as [[-> _]|(Hu1 & Hu2 & _)]; [by simplify_eq|]. rewrite Hu1. cbn.
      unfold SendCreateQueue. mred. rewrite (Hsend w pr kr) by done. unfold RemoteCreateQueue, this. mred.
      by rewrite Hkr, Hu2.
  - assert (pr ≠ pw) as Hne by (intros ->; by simplify_eq).
    destruct Hu' as [[-> ->]|(Hu1 & Hu2 & Hu3)]; [done|]. rewrite Hu1. cbn.
    destruct (Z.eqb_spec (kernelkey kr) (kernelkey K)) as [Ek'|Ek'].
    { pose proof (same_key _ _ _ _ _ Hr Hkr HK Ek') as <-.
      destruct (remote_ends w pr pr pw a d e true Hpb Hne) as (w1 & w' & i & j & E1 & Ec & Hk1 & E2 & Hp).
      exists w', i, j. rewrite E1. unfold SendCreateWriter. mred. rewrite (Hsend w1 pw kw) by done.
      unfold RemoteCreateWriter, this. mred. destruct (Hrem w1 pw kw) as (k' & -> & ->); try done. }
    destruct (Z.eqb_spec (kernelkey kw) (kernelkey K)) as [Ek''|Ek''].
    { pose proof (same_key _ _ _ _ _ Hr Hkw HK Ek'') as <-.
      destruct (remote_ends w pw pr pw a d e false Hpb Hne) as (w1 & w' & i & j & E1 & Ec & Hk1 & E2 & Hp).
      exists w', i, j. rewrite E1. unfold SendCreateReader. mred. rewrite (Hsend w1 pr kr) by done.
      unfold RemoteCreateReader, this. mred. destruct (Hrem w1 pr kr) as (k' & -> & ->); try done. }
    destruct (remote_ends w p pr pw a d e false Hpb Hne) as (w1 & w' & i & j & E1 & Ec & Hk1 & E2 & Hp).
    exists w', i, j. unfold SendCreateWriter, SendCreateReader. mred. rewrite (Hsend w pw kw) by done.
    unfold RemoteCreateWriter, this. mred. rewrite Hkw, Hu3, E1. rewrite (Hsend w1 pr kr) by done.
    unfold RemoteCreateReader, this. mred. destruct (Hrem w1 pr kr) as (k' & -> & ->); try done.
Qed.

(** *** From names to keys *)
Ltac lc := unfold LC.WaitForNodeStart, LC.GetCreateReaderKey, LC.GetCreateWriterKey,
  LC.GetReaderNode, LC.GetWriterNode, LC.ConnectEndpoints, LC.GetReadersWriter, LC.GetWritersReader,
  LC.find_node, LC.find_reader, LC.find_writer, LC.put_node, LC.put_reader, LC.put_writer, LC.NewKey,
  LC.InternalCheckTerminated, LC.find; mred.
(** The port [name] of node [n] has the key [k]. *)
Definition reader_port (c : LC.context) (n : Z) (name : string) (k : Z) : Prop :=
  ∃ i, LC.nodemap c !! n = Some i ∧ LC.n_readers i !! name = Some k.
Definition writer_port (c : LC.context) (n : Z) (name : string) (k : Z) : Prop :=
  ∃ i, LC.nodemap c !! n = Some i ∧ LC.n_writers i !! name = Some k.
(** A port that is there is found; it does not change anything. *)
Lemma reader_key_old c n name k : LC.shutdown c = false → reader_port c n name k →
  LC.GetCreateReaderKey n name c = (Ok k, c).
Proof. intros Hs (i & Hi & Hk). lc. rewrite Hs. cbn. rewrite Hi. cbn. by rewrite Hk. Qed.
Lemma writer_key_old c n name k : LC.shutdown c = false → writer_port c n name k →
  LC.GetCreateWriterKey n name c = (Ok k, c).
Proof. intros Hs (i & Hi & Hk). lc. rewrite Hs. cbn. rewrite Hi. cbn. by rewrite Hk. Qed.
(** Asking for a port gives it a key for good, and leaves the rest. *)
Record port_added (c c' : LC.context) : Prop := {
  pa_shutdown : LC.shutdown c' = LC.shutdown c; pa_names : LC.nodenames c' = LC.nodenames c;
  pa_kernels : LC.kernelmap c' = LC.kernelmap c;
  pa_nodes n i : LC.nodemap c !! n = Some i → ∃ i', LC.nodemap c' !! n = Some i' ∧
    LC.n_kernelkey i' = LC.n_kernelkey i ∧ LC.n_started i' = LC.n_started i ∧
    (∀ p k, LC.n_readers i !! p = Some k → LC.n_readers i' !! p = Some k) ∧
    (∀ p k, LC.n_writers i !! p = Some k → LC.n_writers i' !! p = Some k) }.
Lemma port_added_refl c : port_added c c.
Proof. constructor; try done. intros n i Hi. by exists i. Qed.
Lemma port_added_trans c c' c'' : port_added c c' → port_added c' c'' → port_added c c''.
Proof.
  intros [H1 H2 H3 H4] [G1 G2 G3 G4]. constructor; try congruence. intros n i Hi.
  destruct (H4 n i Hi) as (i' & Hi' & E1 & E2 & Hr & Hw). destruct (G4 n i' Hi') as (i'' & Hi'' & E3 & E4 & Hr' & Hw').
  exists i''. split; [done|]. split; [congruence|]. split; [congruence|]. split; auto.
Qed.
Lemma reader_key c n name i : LC.shutdown c = false → 0 ≤ LC.counter c < 18446744073709551615 →
  LC.nodemap c !! n = Some i → ∃ k c',
  LC.GetCreateReaderKey n name c = (Ok k, c') ∧ port_added c c' ∧ reader_port c' n name k ∧
  (reader_port c n name k ∨ LC.counter c < k) ∧ LC.counter c ≤ LC.counter c' ≤ LC.counter c + 1 ∧
  (∀ m p k, writer_port c' m p k → writer_port c m p k).
Proof.
  intros Hs Hc Hi. destruct (LC.n_readers i !! name) as [k|] eqn:Hk.
  - exists k, c. split; [apply reader_key_old; [done|by exists i]|]. split; [apply port_added_refl|].
    split; [by exists i|]. split; [left; by exists i|]. split; [lia|done].
  - lc. rewrite Hs. cbn. rewrite Hi. cbn. rewrite Hk. cbn. eexists _, _. split; [done|]. split.
    + constructor; cbn; try done. intros m j Hj. destruct (decide (m = n)) as [->|Hm].
      * simplify_eq. rewrite lookup_insert_eq. eexists. split; [done|]. cbn. split_and!; try done.
        intros p k' Hp. rewrite lookup_insert_ne; [done|congruence].
      * rewrite lookup_insert_ne by done. by exists j.
    + cbn. split; [eexists; cbn; rewrite lookup_insert_eq; split; [done|cbn; apply lookup_insert_eq]|].
      words. split; [right; lia|]. split; [lia|].
      intros m p k (j & Hj & Hk'). cbn in Hj. destruct (decide (m = n)) as [->|Hm].
      * rewrite lookup_insert_eq in Hj. simplify_eq. by exists i.
      * rewrite lookup_insert_ne in Hj by done. by exists j.
Qed.
Lemma writer_key c n name i : LC.shutdown c = false → 0 ≤ LC.counter c < 18446744073709551615 →
  LC.nodemap c !! n = Some i → ∃ k c',
  LC.GetCreateWriterKey n name c = (Ok k, c') ∧ port_added c c' ∧ writer_port c' n name k ∧
  (writer_port c n name k ∨ LC.counter c < k).
Proof.
  intros Hs Hc Hi. destruct (LC.n_writers i !! name) as [k|] eqn:Hk.
  - exists k, c. split; [apply writer_key_old; [done|by exists i]|]. split; [apply port_added_refl|].
    split; [by exists i|]. left; by exists i.
  - lc. rewrite Hs. cbn. rewrite Hi. cbn. rewrite Hk. cbn. eexists _, _. split; [done|]. split.
    + constructor; cbn; try done. intros m j Hj. destruct (decide (m = n)) as [->|Hm].
      * simplify_eq. rewrite lookup_insert_eq. eexists. split; [done|]. cbn. split_and!; try done.
        intros p k' Hp. rewrite lookup_insert_ne; [done|congruence].
      * rewrite lookup_insert_ne by done. by exists j.
    + cbn. split; [eexists; cbn; rewrite lookup_insert_eq; split; [done|cbn; apply lookup_insert_eq]|].
      right. words. lia.
Qed.
Lemma reader_key_wf c n name o c' : LC.wf c → LC.counter c < 18446744073709551615 →
  LC.GetCreateReaderKey n name c = (o, c') → LC.wf c'.
Proof.
  intros Hw Hc E. pose proof (LC.op_wf (LC.OGetCreateReaderKey n name) c Hw Hc) as Hr. revert Hr. cbn.
  unfold LC.mfmap. mred. rewrite E. by destruct o.
Qed.
Lemma writer_key_wf c n name o c' : LC.wf c → LC.counter c < 18446744073709551615 →
  LC.GetCreateWriterKey n name c = (o, c') → LC.wf c'.
Proof.
  intros Hw Hc E. pose proof (LC.op_wf (LC.OGetCreateWriterKey n name) c Hw Hc) as Hr. revert Hr. cbn.
  unfold LC.mfmap. mred. rewrite E. by destruct o.
Qed.
Lemma reader_port_kept c c' n name k : port_added c c' → reader_port c n name k → reader_port c' n name k.
Proof. intros Ha (i & Hi & Hk). destruct (pa_nodes _ _ Ha n i Hi) as (i' & Hi' & _ & _ & Hr & _). exists i'. auto. Qed.

(** The three ways to give the ends: by the names of nodes and ports, by the keys
    of the nodes and the names of ports, and by the keys of ports. *)
Inductive naming (c : LC.context) (q : QueueAttr) (n m : Z) : Prop :=
  | By_names i j : a_readerkey q = 0 → a_readernodekey q = 0 → a_readernode q ≠ "" →
      LC.nodenames c !! a_readernode q = Some n → LC.nodemap c !! n = Some i → LC.n_started i = true →
      a_writerkey q = 0 → a_writernodekey q = 0 → a_writernode q ≠ "" →
      LC.nodenames c !! a_writernode q = Some m → LC.nodemap c !! m = Some j → LC.n_started j = true →
      naming c q n m
  | By_nodes i j : a_readerkey q = 0 → a_readernodekey q = n → n ≠ 0 → LC.nodemap c !! n = Some i →
      a_writerkey q = 0 → a_writernodekey q = m → m ≠ 0 → LC.nodemap c !! m = Some j → naming c q n m
  | By_ports rp wp : a_readerkey q ≠ 0 → LC.readports c !! a_readerkey q = Some rp →
      a_readernodekey q = 0 ∨ a_readernodekey q = n → LC.p_nodekey rp = n → LC.p_name rp = a_readerport q →
      a_writerkey q ≠ 0 → LC.writeports c !! a_writerkey q = Some wp →
      a_writernodekey q = 0 ∨ a_writernodekey q = m → LC.p_nodekey wp = m → LC.p_name wp = a_writerport q →
      naming c q n m.
(** The attributes of the queue, but for what names its ends. *)
Definition keyed (q : QueueAttr) (n m rk wk : Z) : SimpleQueueAttr :=
  RCC.mk_queueattr (a_hint q) (a_datatype q) (a_length q) (a_maxThreshold q) (a_numChannels q) (a_alpha q)
    rk wk n m (a_maxwritethreshold q).
Lemma bind_run {S A B} (m : M S A) (f : A → M S B) s a s' : m s = (Ok a, s') → (m ≫= f) s = f a s'.
Proof. mred. by intros ->. Qed.
Lemma reader_by_key q a c n rp : LC.shutdown c = false → RCC.q_readerkey a ≠ 0 →
  LC.readports c !! RCC.q_readerkey a = Some rp → RCC.q_readernodekey a = 0 ∨ RCC.q_readernodekey a = n →
  LC.p_nodekey rp = n → normalize_reader q a c = (Ok (Some (SetReaderKeys a n (RCC.q_readerkey a))), c).
Proof.
  intros Hs H1 Hr H2 <-. unfold normalize_reader. destruct (Z.eqb_spec (RCC.q_readerkey a) 0); [done|].
  destruct (Z.eqb_spec (RCC.q_readernodekey a) 0) as [E|E].
  - lc. rewrite Hs. cbn. by rewrite Hr.
  - destruct H2 as [|H2]; [done|]. mred. rewrite <- H2. by destruct a.
Qed.
Lemma writer_by_key q a c n wp : LC.shutdown c = false → RCC.q_writerkey a ≠ 0 →
  LC.writeports c !! RCC.q_writerkey a = Some wp → RCC.q_writernodekey a = 0 ∨ RCC.q_writernodekey a = n →
  LC.p_nodekey wp = n → normalize_writer q a c = (Ok (Some (SetWriterKeys a n (RCC.q_writerkey a))), c).
Proof.
  intros Hs H1 Hr H2 <-. unfold normalize_writer. destruct (Z.eqb_spec (RCC.q_writerkey a) 0); [done|].
  destruct (Z.eqb_spec (RCC.q_writernodekey a) 0) as [E|E].
  - lc. rewrite Hs. cbn. by rewrite Hr.
  - destruct H2 as [|H2]; [done|]. mred. rewrite <- H2. by destruct a.
Qed.
Lemma normalize_run c q n m : LC.wf c → LC.shutdown c = false → LC.counter c < 18446744073709551614 → a_readerport q ≠ "" → a_writerport q ≠ "" →
  naming c q n m → ∃ rk wk c', normalize q c = (Ok (Some (keyed q n m rk wk)), c') ∧ port_added c c' ∧ LC.wf c' ∧
    reader_port c' n (a_readerport q) rk ∧ writer_port c' m (a_writerport q) wk ∧
    (reader_port c n (a_readerport q) rk ∨ LC.counter c < rk) ∧
    (writer_port c m (a_writerport q) wk ∨ LC.counter c < wk).
Proof.
  intros Hw Hs Hcount Hrp Hwp Hn. unfold normalize.
  apply String.eqb_neq in Hrp, Hwp.
  assert (∀ i j, LC.nodemap c !! n = Some i → LC.nodemap c !! m = Some j → ∃ rk wk c1 c',
    LC.GetCreateReaderKey n (a_readerport q) c = (Ok rk, c1) ∧ port_added c c1 ∧
    LC.GetCreateWriterKey m (a_writerport q) c1 = (Ok wk, c') ∧ port_added c c' ∧ LC.wf c' ∧
    reader_port c' n (a_readerport q) rk ∧ writer_port c' m (a_writerport q) wk ∧
    (reader_port c n (a_readerport q) rk ∨ LC.counter c < rk) ∧
    (writer_port c m (a_writerport q) wk ∨ LC.counter c < wk)) as Hports.
  { intros i j Hi Hj. pose proof (LC.w_counter _ Hw).
    destruct (reader_key c n (a_readerport q) i Hs) as (rk & c1 & E1 & Ha1 & Hp1 & Hf1 & Hc1 & Hback); [lia|done|].
    destruct (pa_nodes _ _ Ha1 m j Hj) as (j' & Hj' & _).
    destruct (writer_key c1 m (a_writerport q) j') as (wk & c' & E2 & Ha2 & Hp2 & Hf2);
      [by rewrite (pa_shutdown _ _ Ha1)|lia|done|].
    exists rk, wk, c1, c'. split_and!; try done; [by eapply port_added_trans| |by eapply reader_port_kept|].
    { eapply writer_key_wf, E2; [eapply reader_key_wf, E1; [done|lia]|lia]. }
    destruct Hf2 as [Hf2|?]; [left; by apply Hback|right; lia]. }
  destruct Hn as [i j E1 E2 Er Enr Hi Hsi E3 E4 Ew Enw Hj Hsj|i j E1 E2 Er Hi E3 E4 Ew Hj
    |rp wp E1 Hr E2 En Ep E3 Hw' E4 Em Ep'].
  - destruct (Hports i j Hi Hj) as (rk & wk & c1 & c' & Ek1 & Ha1 & Ek2 & Ha2 & Hp1 & Hp2).
    exists rk, wk, c'. split; [|done]. unfold normalize_reader, normalize_writer. mred. cbn. rewrite E1, E2. cbn. apply String.eqb_neq in Er, Ew. rewrite Er.
    unfold LC.WaitForNodeStart at 1, LC.InternalCheckTerminated. mred. rewrite Hs. cbn. rewrite Enr. cbn.
    rewrite Hi. cbn. rewrite Hsi, Hrp, Ek1. cbn. rewrite E3, E4. cbn. rewrite Ew.
    destruct (pa_nodes _ _ Ha1 m j Hj) as (j' & Hj' & _ & Hst & _).
    unfold LC.WaitForNodeStart, LC.InternalCheckTerminated. mred. rewrite (pa_shutdown _ _ Ha1), Hs. cbn.
    rewrite (pa_names _ _ Ha1), Enw. cbn. rewrite Hj'. cbn. rewrite Hst, Hsj, Hwp, Ek2. done.
  - destruct (Hports i j Hi Hj) as (rk & wk & c1 & c' & Ek1 & Ha1 & Ek2 & Ha2 & Hp1 & Hp2).
    exists rk, wk, c'. split; [|done]. unfold normalize_reader, normalize_writer. mred. cbn. rewrite E1, E2. cbn.
    destruct (Z.eqb_spec n 0); [done|]. rewrite Hrp, Ek1. cbn. rewrite E3, E4. cbn.
    destruct (Z.eqb_spec m 0); [done|]. by rewrite Hwp, Ek2.
  - exists (a_readerkey q), (a_writerkey q), c. split; [|split; [apply port_added_refl|split; [done|]]].
    + rewrite (bind_run _ _ _ _ _ (reader_by_key q (SimpleQueueAttr_of q) c n rp Hs E1 Hr E2 En)).
      etrans; [exact (writer_by_key q (SetReaderKeys (SimpleQueueAttr_of q) n (a_readerkey q)) c m wp Hs E3 Hw' E4 Em)|done].
    + assert (reader_port c n (a_readerport q) (a_readerkey q)) by (apply (LC.w_readers _ Hw); by exists rp).
      assert (writer_port c m (a_writerport q) (a_writerkey q)) by (apply (LC.w_writers _ Hw); by exists wp).
      by auto.
Qed.

(** ** A queue is asked for, and its nodes get it *)
Definition connected (c : LC.context) (wk rk : Z) (name : string) (rp wp : LC.PortInfo) : LC.context :=
  LC.set_ports c
    (<[rk := LC.mk_port (LC.p_name rp) name (LC.p_nodekey rp) wk (LC.p_dead rp)]> (LC.readports c))
    (<[wk := LC.mk_port (LC.p_name wp) name (LC.p_nodekey wp) rk (LC.p_dead wp)]> (LC.writeports c)).
Lemma connect_run c wk rk name rp wp : LC.shutdown c = false → LC.readports c !! rk = Some rp →
  LC.writeports c !! wk = Some wp → LC.ConnectEndpoints wk rk name c = (Ok tt, connected c wk rk name rp wp).
Proof. intros Hs Hr Hw. lc. rewrite Hs. cbn. rewrite Hw. cbn. by rewrite Hr. Qed.
Lemma call_run {A} (m : LC.Op A) w o c : m (ctx w) = (o, c) → call m w = (o, set_ctx w c).
Proof. unfold call. by intros ->. Qed.
Lemma check_run w : LC.shutdown (ctx w) = false → call CheckTerminated w = (Ok tt, w).
Proof.
  intros Hs. rewrite (call_run _ w (Ok tt) (ctx w)); [by destruct w|].
  unfold CheckTerminated. lc. by rewrite Hs.
Qed.
Lemma GetIQueue_run p n port k w d i : LC.shutdown (ctx w) = false → reader_port (ctx w) n port k →
  node_at w p n = Some d → readermap d !! k = Some i → GetIQueue p n port w = (Ok (Some i), w).
Proof.
  intros Hs Hp Hd Hi. unfold GetIQueue, GetReader. rewrite (bind_run _ _ _ _ _ (check_run w Hs)).
  rewrite (bind_run _ _ w k w), (bind_run _ _ _ _ _ (node_run _ _ _ _ Hd)), Hi; [done|].
  rewrite (call_run _ w (Ok k) (ctx w)); [by destruct w|]. by apply reader_key_old.
Qed.
Lemma GetOQueue_run p n port k w d i : LC.shutdown (ctx w) = false → writer_port (ctx w) n port k →
  node_at w p n = Some d → writermap d !! k = Some i → GetOQueue p n port w = (Ok (Some i), w).
Proof.
  intros Hs Hp Hd Hi. unfold GetOQueue, GetWriter. rewrite (bind_run _ _ _ _ _ (check_run w Hs)).
  rewrite (bind_run _ _ w k w), (bind_run _ _ _ _ _ (node_run _ _ _ _ Hd)), Hi; [done|].
  rewrite (call_run _ w (Ok k) (ctx w)); [by destruct w|]. by apply writer_key_old.
Qed.

(** What is asked for can be done: the two nodes are there, their ports are free,
    and the kernels involved may talk to one another. *)
Record askable (w : world) (p pr pw n m : Z) (q : QueueAttr) (d e : pnode) : Prop := {
  as_open : LC.shutdown (ctx w) = false; as_wf : LC.wf (ctx w);
  as_room : LC.counter (ctx w) < 18446744073709551614;
  as_registered : registered w; as_caller : is_Some (kernels w !! p);
  as_remote : p = pr ∧ p = pw ∨ ∀ p' k, p' = p ∨ p' = pr ∨ p' = pw → kernels w !! p' = Some k → useremote k = true;
  as_reader : lives w n pr d; as_writer : lives w m pw e;
  as_ports : a_readerport q ≠ "" ∧ a_writerport q ≠ "";
  as_naming : naming (ctx w) q n m;
  as_rfree k : reader_port (ctx w) n (a_readerport q) k → readermap d !! k = None;
  as_wfree k : writer_port (ctx w) m (a_writerport q) k → writermap e !! k = None;
  as_known k : is_Some (readermap d !! k) ∨ is_Some (writermap e !! k) → k ≤ LC.counter (ctx w) }.


(** C11: a queue can be asked for from any kernel.  Whichever kernel [CreateQueue] is
    called on, the reader's, the writer's or a third, and in whichever of the three
    ways the ends are given, by names, by the keys of the nodes, or by the keys of
    their ports: the port of the reader and that of the writer are connected in the
    registry, the reader's node then gets the one end from [GetIQueue] and the
    writer's node the other from [GetOQueue], and no other port of any node, no
    other queue and no kernel is changed.  The ends are one queue when the two nodes
    are on one kernel, and otherwise the reading and the writing half of a remote
    queue, with the same keys. *)
Theorem queue_from_anywhere w p pr pw n m q d e : askable w p pr pw n m q d e → ∃ w' rk wk i j,
  CreateQueue p q w = (Ok (Some tt), w') ∧
  GetIQueue pr n (a_readerport q) w' = (Ok (Some i), w') ∧
  GetOQueue pw m (a_writerport q) w' = (Ok (Some j), w') ∧
  ends w w' pr pw (keyed q n m rk wk) i j ∧ gains w w' pr pw (keyed q n m rk wk) i j ∧ same_kernels w w' ∧
  LC.GetReadersWriter rk (ctx w') = (Ok wk, ctx w') ∧ LC.GetWritersReader wk (ctx w') = (Ok rk, ctx w').
Proof.
  intros [Hs Hw Hc Hr Hcall Hrem Hrd Hwr [Hp1 Hp2] Hn Hfr Hfw Hkn].
  destruct (normalize_run (ctx w) q n m Hw Hs Hc Hp1 Hp2 Hn) as (rk & wk & c & En & Ha & Hwc & Hport1 & Hport2 & Hf1 & Hf2).
  assert (LC.shutdown c = false) as Hsc by by rewrite (pa_shutdown _ _ Ha).
  destruct (proj1 (LC.w_readers _ Hwc _ _ _) Hport1) as (rp & Hrp & _).
  destruct (proj1 (LC.w_writers _ Hwc _ _ _) Hport2) as (wp & Hwp & _).
  set (a := keyed q n m rk wk). set (c2 := connected c wk rk (a_name q) rp wp). set (w2 := set_ctx w c2).
  assert (∀ k z f, lives w k z f → lives w2 k z f) as Hlive.
  { intros k z f (Hf & K & i & HK & Hi & E). split; [done|].
    destruct (pa_nodes _ _ Ha k i Hi) as (i' & Hi' & E' & _). exists K, i'. split; [done|]. split; [done|congruence]. }
  assert (placeable w2 p pr pw a d e) as Hpl.
  { constructor; try done.
    - intros z K HK. destruct (Hr z K HK) as [Hz (i & Hi & E)]. split; [done|]. exists i. split; [|done].
      cbn. by rewrite (pa_kernels _ _ Ha).
    - by apply Hlive.
    - by apply Hlive.
    - cbn. destruct Hf1 as [Hf1|Hf1]; [by apply Hfr|]. apply eq_None_not_Some. intros Hk.
      pose proof (Hkn rk (or_introl Hk)). lia.
    - cbn. destruct Hf2 as [Hf2|Hf2]; [by apply Hfw|]. apply eq_None_not_Some. intros Hk.
      pose proof (Hkn wk (or_intror Hk)). lia. }
  destruct (place_run w2 p pr pw a d e Hpl) as (w' & i & j & Epl & [Ec Hk Hg He]).
  exists w', rk, wk, i, j.
  assert (∃ d', node_at w' pr n = Some d' ∧ readermap d' !! rk = Some i) as (d' & Hd' & Hi').
  { rewrite (Hg pr n). change (node_at w2 pr n) with (node_at w pr n). destruct Hrd as [-> _]. cbn.
    eexists. split; [done|]. rewrite (decide_True (P := pr = pr ∧ n = n)) by done.
    case_decide; apply lookup_insert_eq. }
  assert (∃ e', node_at w' pw m = Some e' ∧ writermap e' !! wk = Some j) as (e' & He' & Hj').
  { rewrite (Hg pw m). change (node_at w2 pw m) with (node_at w pw m). destruct Hwr as [-> _]. cbn.
    eexists. split; [done|]. rewrite (decide_True (P := pw = pw ∧ m = m)) by done. apply lookup_insert_eq. }
  assert (LC.shutdown (ctx w') = false) as Hs' by by rewrite Ec.
  split_and!.
  - unfold CreateQueue. rewrite (bind_run _ _ _ _ _ (call_run _ _ _ _ En)).
    rewrite (bind_run _ _ (set_ctx w c) tt w2).
    + by rewrite (bind_run _ _ _ _ _ Epl).
    + apply (call_run _ (set_ctx w c) (Ok tt) c2). by apply connect_run.
  - eapply GetIQueue_run; [done| |done|done]. by rewrite Ec.
  - eapply GetOQueue_run; [done| |done|done]. by rewrite Ec.
  - exact He.
  - exact Hg.
  - exact Hk.
  - lc. rewrite Hs'. cbn. rewrite Ec. cbn. by rewrite lookup_insert_eq.
  - lc. rewrite Hs'. cbn. rewrite Ec. cbn. by rewrite lookup_insert_eq.
Qed.

(** A second queue on a port of a reader: the registry has forgotten the first one
    before the assertion of [CreateReader] fails, and the writer's node has got an
    end that no reader will ever see. *)
Lemma second_queue_misleads w p n m q d e rk wk rp wp i0 :
  LC.shutdown (ctx w) = false → registered w →
  a_readerkey q = rk → a_writerkey q = wk → a_readernodekey q = n → a_writernodekey q = m →
  rk ≠ 0 → wk ≠ 0 → n ≠ 0 → m ≠ 0 → n ≠ m →
  LC.readports (ctx w) !! rk = Some rp → LC.writeports (ctx w) !! wk = Some wp →
  lives w n p d → lives w m p e → readermap d !! rk = Some i0 → (i0 < length (objects w))%nat →
  writermap e !! wk = None →
  ∃ w', CreateQueue p q w = (Err AssertFailed, w') ∧
    LC.GetReadersWriter rk (ctx w') = (Ok wk, ctx w') ∧
    GetReader p n rk w' = (Ok (Some i0), w') ∧ objects w' !! i0 = objects w !! i0 ∧
    GetWriter p m wk w' = (Ok (Some (length (objects w))), w').
Proof.
  intros Hs Hr Erk Ewk En Em H1 H2 H3 H4 Hnm Hrp Hwp Hrd Hwr Hm Hi0 Hm'.
  set (a := SimpleQueueAttr_of q).
  assert (normalize q (ctx w) = (Ok (Some a), ctx w)) as Enorm.
  { unfold normalize, normalize_reader, normalize_writer. cbn. rewrite Erk, En.
    destruct (Z.eqb_spec rk 0); [done|]. destruct (Z.eqb_spec n 0); [done|]. mred. cbn. rewrite Ewk, Em.
    destruct (Z.eqb_spec wk 0); [done|]. by destruct (Z.eqb_spec m 0). }
  set (w2 := set_ctx w (connected (ctx w) wk rk (a_name q) rp wp)).
  pose proof Hrd as [Hd (K & ir & HK & Hir & Er)]. pose proof Hwr as [He (K' & iw & HK' & Hiw & Ew)].
  assert (lives w2 n p d ∧ lives w2 m p e) as [Hrd2 Hwr2].
  { split; (split; [done|]); [exists K, ir|exists K', iw]; done. }
  set (w3 := set_objects w2 (objects w ++ [mk_queue Local a None None false])).
  destruct (CreateWriter_run p m (length (objects w)) w3 e (mk_queue Local a None None false))
    as (w4 & E4 & [Ec4 Hk4 [Hn4 Hn4'] Eo4]); [done|apply lookup_last|by unfold GetWriterKey; cbn; rewrite Ewk|].
  destruct (CreateReader_taken p n (length (objects w)) w4 d (with_writer m (mk_queue Local a None None false)) i0)
    as (w5 & E5 & [Ec5 Hk5 [Hn5 Hn5'] Eo5]).
  { by rewrite Hn4' by auto. }
  { rewrite Eo4. cbn. rewrite insert_last. apply lookup_last. }
  { unfold GetReaderKey. cbn. by rewrite Erk. }
  assert (ctx w5 = connected (ctx w) wk rk (a_name q) rp wp) as Ec by by rewrite Ec5, Ec4.
  exists w5. split_and!.
  - unfold CreateQueue. rewrite (bind_run _ _ w (Some a) w); [|rewrite (call_run _ _ _ _ Enorm); by destruct w].
    rewrite (bind_run _ _ w tt w2).
    + assert (place p a w2 = (Err AssertFailed, w5)) as Epl; [|mred; by rewrite Epl].
      unfold place, this. mred. change (kernels w2) with (kernels w). rewrite HK. cbn. rewrite En, Em.
      rewrite (node_kernel _ _ _ _ _ Hrd2 HK Hs), (node_kernel _ _ _ _ _ Hwr2 HK Hs), !Z.eqb_refl.
      unfold CreateLocalQueue, new. mred.
      change (set_objects w2 _) with w3. change (objects w2) with (objects w). cbn. rewrite En, Em.
      by rewrite (node_run p n w3 d Hd), (node_run p m w3 e He), E4, E5.
    + apply (call_run _ w (Ok tt)). cbn. rewrite Erk, Ewk. by apply connect_run.
  - lc. rewrite Ec. cbn. rewrite Hs. cbn. by rewrite lookup_insert_eq.
  - unfold GetReader. rewrite (bind_run _ _ _ _ _ (node_run _ _ _ _ Hn5)). cbn. by rewrite Hm.
  - rewrite Eo5, Eo4. cbn. rewrite !insert_last. by rewrite lookup_app_l.
  - unfold GetWriter. rewrite (bind_run _ _ w5 (add_writer wk (length (objects w)) e) w5).
    + cbn. by rewrite lookup_insert_eq.
    + apply node_run. rewrite Hn5' by auto. rewrite Hn4. unfold GetWriterKey. cbn. by rewrite Ewk.
Qed.
End network.

(** ** Example: two nodes on two kernels, and a third kernel that connects them *)
Definition ex_ctx : LC.context :=
  foldl (λ c o, (LC.run o c).2) LC.make
    [LC.OSetupRemote "k1" "host" "1" 4096; LC.OSetupRemote "k2" "host" "2" 8192;
     LC.OSetupRemote "k3" "host" "3" 12288; LC.OCreateNodeKey 1 "source"; LC.OCreateNodeKey 2 "sink";
     LC.OSignalNodeStart 4; LC.OSignalNodeStart 5].
Definition ex_world : @world Z := mk ex_ctx
  {[ 4096 := mk_kernel 1 true {[ 4 := new_pnode ]} ∅; 8192 := mk_kernel 2 true {[ 5 := new_pnode ]} ∅;
     12288 := mk_kernel 3 true ∅ ∅ ]} [].
Definition ex_attr : @QueueAttr Z :=
  mk_attr 2 "double" "" 100 10 1 3 "sink" "in" "source" "out" 0 0 0 0 7.
Lemma ex_wf : LC.wf ex_ctx.
Proof. unfold ex_ctx. cbn [foldl]. do 7 (apply LC.op_wf; [|vm_compute; reflexivity]). apply LC.make_wf. Qed.
Lemma ex_kernel p k : kernels ex_world !! p = Some k →
  p = 4096 ∧ k = mk_kernel 1 true {[ 4 := new_pnode ]} ∅ ∨ p = 8192 ∧ k = mk_kernel 2 true {[ 5 := new_pnode ]} ∅ ∨
  p = 12288 ∧ k = mk_kernel 3 true ∅ ∅.
Proof.
  cbn. intros [[<- <-]|[_ [[<- <-]|[_ [<- <-]%lookup_singleton_Some]]%lookup_insert_Some]]%lookup_insert_Some; auto.
Qed.
Lemma ex_lives n p : n = 5 ∧ p = 8192 ∨ n = 4 ∧ p = 4096 → lives ex_world n p new_pnode.
Proof. intros [[-> ->]|[-> ->]]; (split; [vm_compute; reflexivity|]); eexists _, _; vm_compute; done. Qed.
Lemma ex_askable : askable ex_world 12288 8192 4096 5 4 ex_attr new_pnode new_pnode.
Proof.
  constructor; try (vm_compute; reflexivity).
  - exact ex_wf.
  - intros p k [[-> ->]|[[-> ->]|[-> ->]]]%ex_kernel; (split; [done|]); eexists; vm_compute; done.
  - by eexists.
  - right. intros p' k _ [[-> ->]|[[-> ->]|[-> ->]]]%ex_kernel; done.
  - apply ex_lives. by left.
  - apply ex_lives. by right.
  - done.
  - eapply By_names; try (vm_compute; reflexivity); done.
  - intros k. cbn. rewrite lookup_empty. by intros [[]|[]].
Qed.
Lemma queue_from_anywhere_witness : ∃ w' rk wk i j,
  CreateQueue 12288 ex_attr ex_world = (Ok (Some tt), w') ∧
  GetIQueue 8192 5 "in" w' = (Ok (Some i), w') ∧ GetOQueue 4096 4 "out" w' = (Ok (Some j), w') ∧
  ends ex_world w' 8192 4096 (keyed ex_attr 5 4 rk wk) i j ∧
  gains ex_world w' 8192 4096 (keyed ex_attr 5 4 rk wk) i j ∧ same_kernels ex_world w' ∧
  LC.GetReadersWriter rk (ctx w') = (Ok wk, ctx w') ∧ LC.GetWritersReader wk (ctx w') = (Ok rk, ctx w').
Proof. exact (queue_from_anywhere ex_world 12288 8192 4096 5 4 ex_attr new_pnode new_pnode ex_askable). Defined.

(** The same port again: the registry says that the sink reads from the second
    writer, and the sink has the first queue. *)
Definition ex_first : @world Z := (CreateQueue 12288 ex_attr ex_world).2.
Definition ex_again : @QueueAttr Z :=
  mk_attr 2 "double" "" 100 10 1 3 "sink" "in" "source" "other" 0 0 0 0 7.
Lemma second_queue_example :
  ∃ w', CreateQueue 12288 ex_again ex_first = (Err AssertFailed, w') ∧
    LC.GetReadersWriter 6 (ctx w') = (Ok 8, ctx w') ∧
    (λ q, GetWriterKey q) <$> (objects w' !! 1%nat) = Some 7 ∧
    (λ d, readermap d !! 6) <$> node_at w' 8192 5 = Some (Some 1%nat).
Proof. eexists. vm_compute. split_and!; reflexivity. Qed.
End NW.
