(* ===== verification/NodeLoader.v ===== *)
(** [libraries/CPN/NodeLoader], with [libraries/utils/PathUtils]: the lists of node
    types and the libraries they are in, how such a list is read, and how the
    factory of a type is found.

    The file system and the dynamic linker are parameters: [RealPath] is
    [realpath(3)], [files] gives the text of a file that can be opened, and
    [exports] the symbols of a library, or of the program ([None]).  Texts are lists
    of characters, tokens and names are strings. *)
From S2P Require Import Prelude.
From Stdlib Require Import Ascii.

(** ** [PathUtils] *)
Module Path.
Open Scope nat_scope.

Definition text := list ascii.
Definition PATH_SEP : ascii := "/"%char.
Definition is_sep (c : ascii) : bool := bool_decide (c = PATH_SEP).
(** [*cur]; the iterators never leave the string. *)
Definition at_ (path : text) (cur : nat) : ascii := nth cur path PATH_SEP.
(** [while (cur != path.begin() && p( *cur)) --cur] *)
Fixpoint back (p : ascii → bool) (path : text) (cur : nat) : nat :=
  match cur with
  | O => O
  | S n => if p (at_ path cur) then back p path n else cur
  end.
Definition DirName (path : text) : text :=
  match path with
  | [] => ["."%char]
  | _ :: _ =>
      let cur := back is_sep path (length path - 1) in
      if cur =? 0 then
        if is_sep (at_ path cur) then [at_ path cur] else ["."%char]
      else
        let cur := back (negb ∘ is_sep) path cur in
        if cur =? 0 then
          if is_sep (at_ path cur) then [at_ path cur] else ["."%char]
        else
          let cur := back is_sep path cur in take (cur + 1) path
  end.
Definition BaseName (path : text) : text :=
  match path with
  | [] => []
  | _ :: _ =>
      let end_ := back is_sep path (length path - 1) in
      if end_ =? 0 then
        if is_sep (at_ path end_) then [at_ path end_] else []
      else
        let start := back (negb ∘ is_sep) path end_ in
        let start := if is_sep (at_ path start) then start + 1 else start in
        drop start (take (end_ + 1) path)
  end.
Definition PathConcat (dir file : text) : text := dir ++ PATH_SEP :: file.
Definition IsAbsPath (path : text) : bool :=
  match path with [] => false | c :: _ => is_sep c end.

(** *** What they do *)
Lemma at_app_l a b n : n < length a → at_ (a ++ b) n = at_ a n.
Proof. intros Hn. unfold at_. by rewrite app_nth1. Qed.
Lemma at_app_r a b n : length a ≤ n → at_ (a ++ b) n = at_ b (n - length a).
Proof. intros Hn. unfold at_. by rewrite app_nth2. Qed.
(** Going back over characters that all pass, or past none. *)
Lemma back_stays p path cur : p (at_ path cur) = false → back p path cur = cur.
Proof. intros Hp. destruct cur; [done|]. cbn [back]. by rewrite Hp. Qed.
Lemma back_over p path n d : (∀ i, n < i ≤ n + d → p (at_ path i) = true) →
  p (at_ path n) = false ∨ n = 0 → back p path (n + d) = n.
Proof.
  intros Hp Hn. induction d as [|d IH].
  - rewrite Nat.add_0_r. destruct Hn as [Hn| ->]; [by apply back_stays|done].
  - rewrite <- plus_n_Sm. cbn [back]. rewrite (Hp (S (n + d))) by lia. apply IH. intros i Hi. apply Hp. lia.
Qed.
Definition no_sep (t : text) : Prop := Forall (λ c, is_sep c = false) t.
Lemma no_sep_at t i : no_sep t → i < length t → is_sep (at_ t i) = false.
Proof.
  intros Ht Hi. unfold at_. unfold no_sep in Ht. rewrite Forall_lookup in Ht.
  destruct (lookup_lt_is_Some_2 t i Hi) as [c Hc]. apply (Ht i). by rewrite Hc, (nth_lookup_Some _ _ _ _ Hc).
Qed.
Lemma seps_at k i : is_sep (at_ (replicate k PATH_SEP) i) = true.
Proof.
  unfold at_. rewrite nth_lookup. destruct (replicate k PATH_SEP !! i) as [c|] eqn:E; [|done].
  by apply lookup_replicate in E as [-> _].
Qed.

(** The directory [d] of a path, with any number of separators behind it, and then
    the name [b], again with separators behind it. *)
Lemma DirName_split d b j k : d ≠ [] → b ≠ [] → no_sep b → is_sep (at_ d (length d - 1)) = false → 1 ≤ j →
  DirName (d ++ replicate j PATH_SEP ++ b ++ replicate k PATH_SEP) = d.
Proof.
  intros Hd Hb Hs Hl Hj. set (path := d ++ _).
  assert (0 < length d) by (destruct d; [done|cbn; lia]). assert (0 < length b) by (destruct b; [done|cbn; lia]).
  assert (length path = length d + (j + (length b + k))) as Hlen.
  { unfold path. by rewrite !length_app, !length_replicate. }
  assert (∀ i, i < length d → at_ path i = at_ d i) as H1 by (intros; by apply at_app_l).
  assert (∀ i, length d ≤ i < length d + j → is_sep (at_ path i) = true) as H2.
  { intros i Hi. unfold path. rewrite at_app_r, at_app_l by (rewrite ?length_replicate; lia). apply seps_at. }
  assert (∀ i, length d + j ≤ i < length d + j + length b → is_sep (at_ path i) = false) as H3.
  { intros i Hi. unfold path. rewrite !at_app_r by (rewrite ?length_replicate; lia).
    rewrite at_app_l by (rewrite length_replicate; lia). apply no_sep_at; [done|]. rewrite length_replicate. lia. }
  assert (∀ i, length d + j + length b ≤ i → is_sep (at_ path i) = true) as H4.
  { intros i Hi. unfold path. rewrite !at_app_r by (rewrite ?length_replicate; lia). apply seps_at. }
  unfold DirName. destruct path as [|c0 p0] eqn:Ep; [cbn in Hlen; lia|]. rewrite <- Ep in *. clear Ep.
  replace (length path - 1) with (length d + j + length b - 1 + k) by lia.
  rewrite back_over; [|intros i Hi; apply H4; lia|left; apply H3; lia].
  destruct (Nat.eqb_spec (length d + j + length b - 1) 0); [lia|].
  replace (length d + j + length b - 1) with (length d + j - 1 + length b) by lia.
  rewrite back_over; [|intros i Hi; cbn; rewrite H3 by lia; done|left; cbn; rewrite H2 by lia; done].
  destruct (Nat.eqb_spec (length d + j - 1) 0); [lia|].
  replace (length d + j - 1) with (length d - 1 + j) by lia.
  rewrite back_over; [|intros i Hi; apply H2; lia|left; rewrite H1 by lia; done].
  replace (length d - 1 + 1) with (length d) by lia. unfold path. by rewrite take_app_length.
Qed.
Lemma BaseName_split d b k : b ≠ [] → no_sep b →
  BaseName (d ++ PATH_SEP :: b ++ replicate k PATH_SEP) = b.
Proof.
  intros Hb Hs. set (path := d ++ _). assert (0 < length b) by (destruct b; [done|cbn; lia]).
  assert (length path = length d + (1 + (length b + k))) as Hlen.
  { unfold path. rewrite length_app. cbn. by rewrite length_app, length_replicate. }
  assert (at_ path (length d) = PATH_SEP) as H2.
  { unfold path. rewrite at_app_r, Nat.sub_diag by lia. done. }
  assert (∀ i, length d + 1 ≤ i < length d + 1 + length b → is_sep (at_ path i) = false) as H3.
  { intros i Hi. unfold path. rewrite at_app_r by lia.
    replace (i - length d) with (S (i - length d - 1)) by lia. unfold at_. cbn [nth]. fold (at_ (b ++ replicate k PATH_SEP) (i - length d - 1)).
    rewrite at_app_l by lia. apply no_sep_at; [done|lia]. }
  assert (∀ i, length d + 1 + length b ≤ i → is_sep (at_ path i) = true) as H4.
  { intros i Hi. unfold path. rewrite at_app_r by lia.
    replace (i - length d) with (S (i - length d - 1)) by lia. unfold at_. cbn [nth]. fold (at_ (b ++ replicate k PATH_SEP) (i - length d - 1)).
    rewrite at_app_r by lia. apply seps_at. }
  unfold BaseName. destruct path as [|c0 p0] eqn:Ep; [cbn in Hlen; lia|]. rewrite <- Ep in *. clear Ep.
  replace (length path - 1) with (length d + length b + k) by lia.
  rewrite back_over; [|intros i Hi; apply H4; lia|left; apply H3; lia].
  destruct (Nat.eqb_spec (length d + length b) 0); [lia|].
  rewrite back_over; [|intros i Hi; cbn; rewrite H3 by lia; done|left; cbn; by rewrite H2].
  rewrite H2. cbn [is_sep]. replace (is_sep PATH_SEP) with true by done.
  unfold path. rewrite take_app_ge by lia. rewrite drop_app_ge by lia.
  replace (length d + length b + 1 - length d) with (S (length b)) by lia.
  replace (length d + 1 - length d) with 1 by lia. cbn. by rewrite take_app_length.
Qed.
Lemma BaseName_plain b k : 2 ≤ length b → no_sep b → BaseName (b ++ replicate k PATH_SEP) = b.
Proof.
  intros Hl Hs. set (path := b ++ _).
  assert (length path = length b + k) as Hlen by (unfold path; by rewrite length_app, length_replicate).
  assert (∀ i, i < length b → is_sep (at_ path i) = false) as H3.
  { intros i Hi. unfold path. rewrite at_app_l by lia. by apply no_sep_at. }
  assert (∀ i, length b ≤ i → is_sep (at_ path i) = true) as H4.
  { intros i Hi. unfold path. rewrite at_app_r by lia. apply seps_at. }
  unfold BaseName. destruct path as [|c0 p0] eqn:Ep; [cbn in Hlen; lia|]. rewrite <- Ep in *. clear Ep.
  replace (length path - 1) with (length b - 1 + k) by lia.
  rewrite back_over; [|intros i Hi; apply H4; lia|left; apply H3; lia].
  destruct (Nat.eqb_spec (length b - 1) 0); [lia|].
  replace (length b - 1) with (0 + (length b - 1)) by lia.
  rewrite (back_over (negb ∘ is_sep) path 0); [|intros i Hi; cbn; rewrite H3 by lia; done|by right].
  rewrite H3 by lia. replace (0 + (length b - 1) + 1) with (length b) by lia.
  unfold path. by rewrite take_app_length.
Qed.
(** A name of one character, with nothing before it, is lost. *)
Lemma BaseName_loses c k : is_sep c = false → BaseName (c :: replicate k PATH_SEP) = [].
Proof.
  intros Hc. unfold BaseName. cbn [length].
  replace (S (length (replicate k PATH_SEP)) - 1) with (0 + k) by (rewrite length_replicate; lia).
  rewrite back_over; [|intros i Hi|by right].
  - cbn. by rewrite Hc.
  - destruct i; [lia|]. apply (seps_at k i).
Qed.

(** Paths come apart where they were put together.  For a directory that does
    not end in a separator and a name without one, [DirName] and [BaseName] of
    [PathConcat] give the two back, whatever separators are put behind the name. *)
Theorem path_round_trip d b k : d ≠ [] → is_sep (at_ d (length d - 1)) = false → b ≠ [] → no_sep b →
  DirName (PathConcat d b ++ replicate k PATH_SEP) = d ∧ BaseName (PathConcat d b ++ replicate k PATH_SEP) = b.
Proof.
  intros Hd Hl Hb Hs. unfold PathConcat. rewrite <- app_assoc, <- app_comm_cons.
  split; [by apply (DirName_split d b 1 k)|by apply BaseName_split].
Qed.
End Path.

Module NL.
Open Scope list_scope.
Notation text := (list ascii).
Definition str (t : text) : string := String.string_of_list_ascii t.

(** ** The lexer: the locals of [Loader] *)
Record lexer := mk {
  token_stack : text; stack : list string;
  in_comment : bool; escape : bool; in_single_quote : bool; in_double_quote : bool }.
Definition start : lexer := mk [] [] false false false false.
Definition push s c := mk (token_stack s ++ [c]) (stack s) (in_comment s) (escape s) (in_single_quote s) (in_double_quote s).
Definition set_comment s b := mk (token_stack s) (stack s) b (escape s) (in_single_quote s) (in_double_quote s).
Definition set_escape s b := mk (token_stack s) (stack s) (in_comment s) b (in_single_quote s) (in_double_quote s).
Definition set_single s b := mk (token_stack s) (stack s) (in_comment s) (escape s) b (in_double_quote s).
Definition set_double s b := mk (token_stack s) (stack s) (in_comment s) (escape s) (in_single_quote s) b.
Definition set_stack s l := mk (token_stack s) l (in_comment s) (escape s) (in_single_quote s) (in_double_quote s).
Definition end_token s :=
  match token_stack s with
  | [] => s
  | _ => mk [] (stack s ++ [str (token_stack s)]) (in_comment s) (escape s) (in_single_quote s) (in_double_quote s)
  end.
Definition DQUOTE : ascii := "034"%char.
Definition LF : ascii := "010"%char.
Definition CR : ascii := "013"%char.
Definition is_newline (c : ascii) : bool := bool_decide (c = LF ∨ c = CR).
Definition is_white (c : ascii) : bool :=
  is_newline c || bool_decide (c = " "%char ∨ c = "009"%char ∨ c = "011"%char ∨ c = "012"%char).
Definition same (c d : ascii) : bool := bool_decide (c = d).

(** One turn of the loop: the state after it, and the stack when it calls
    [ProcessLine], which clears it. *)
Definition next_token (c : ascii) (s : lexer) : lexer * option (list string) :=
  if in_single_quote s then (if same c "'" then set_single s false else push s c, None)
  else if escape s then (set_escape (push s c) false, None)
  else if in_double_quote s then (if same c DQUOTE then set_double s false else push s c, None)
  else if same c "#" then (set_comment s true, None)
  else if same c "'" then (set_single s true, None)
  else if same c DQUOTE then (set_double s true, None)
  else if same c "\" then (set_escape s true, None)
  else if same c ";" then let s := end_token s in (set_stack s [], Some (stack s))
  else if is_white c then (end_token s, None)
  else (push s c, None).
Definition next (c : ascii) (s : lexer) : lexer * option (list string) :=
  if in_comment s then
    if is_newline c then next_token c (set_comment s false) else (s, None)
  else next_token c s.
(** The stacks that [ProcessLine] gets; the last when the file has ended. *)
Fixpoint lines_from (t : text) (s : lexer) : list (list string) :=
  match t with
  | [] => [stack s]
  | c :: t => let (s, line) := next c s in option_list line ++ lines_from t s
  end.
Definition lines (t : text) : list (list string) := lines_from t start.

(** ** What is done with the lines *)
Section loader.
Context (RealPath : text → text) (files : text → option text).

Definition data := gmap string string.
(** [curdir] and the names of files are texts; the empty one is [""]. *)
Definition chars (s : string) : text := String.list_ascii_of_string s.
Definition absolute (curdir : text) (name : string) : text :=
  if Path.IsAbsPath (chars name) then chars name else RealPath (Path.PathConcat curdir (chars name)).
Definition ProcessLine (load : text → M data unit) (curdir : text) (line : list string) : M data unit :=
  match line with
  | w :: rest =>
      if String.eqb w "lib" then
        match rest with
        | libname :: names =>
            let libname := absolute curdir libname in
            match libname with
            | [] => mret tt
            | _ => mmodify (λ d, foldl (λ d n, <[n := str libname]> d) d names)
            end
        | [] => mret tt
        end
      else if String.eqb w "include" then
        foldr (λ inc m, load (absolute curdir inc) ;; m) (mret tt) rest
      else mret tt
  | [] => mret tt
  end.
(** The loop of [Loader]. *)
Fixpoint scan (process : list string → M data unit) (t : text) (s : lexer) : M data unit :=
  match t with
  | [] => process (stack s)
  | c :: t =>
      let (s, line) := next c s in
      (match line with Some l => process l | None => mret tt end) ;; scan process t s
  end.
(** [Loader(ldfile, data, rep)], where [n] is [100 - rep]. *)
Fixpoint Loader (n : nat) (ldfile : text) : M data unit :=
  match n with
  | O => mthrow AssertFailed
  | S n =>
      match files ldfile with
      | None => mthrow AssertFailed
      | Some t => scan (ProcessLine (Loader n) (Path.DirName (RealPath ldfile))) t start
      end
  end.
Definition LoadNodeList (filename : string) : M data unit := Loader 100 (chars filename).
End loader.


(** ** The grammar *)
(** What writes the characters of a word: a plain one, one after a backslash, or
    any number of them in quotes. *)
Definition special (c : ascii) : bool :=
  same c "#" || same c "'" || same c DQUOTE || same c "\" || same c ";" || is_white c.
Inductive piece : text → text → Prop :=
  | Plain c : special c = false → piece [c] [c]
  | Escaped c : piece ["\"%char; c] [c]
  | Single t : Forall (λ c, same c "'" = false) t → piece ("'"%char :: t ++ ["'"%char]) t
  | Double t : Forall (λ c, same c DQUOTE = false) t → piece (DQUOTE :: t ++ [DQUOTE]) t.
Inductive word : text → text → Prop :=
  | Nothing : word [] []
  | Pieces x t y u : piece x t → word y u → word (x ++ y) (t ++ u).
(** White space, or a comment up to the end of its line. *)
Inductive space : text → Prop :=
  | White c : is_white c = true → space [c]
  | Comment t c : Forall (λ c, is_newline c = false) t → is_newline c = true → space ("#"%char :: t ++ [c]).
(** [source st t ls]: after the words [st] of a line, the text [t] writes the lines
    [ls], the first of which goes on from [st]. *)
Inductive source : list string → text → list (list string) → Prop :=
  | At_end st : source st [] [st]
  | Space st x t ls : space x → source st t ls → source st (x ++ t) ls
  | Word st x u y t ls : word x u → u ≠ [] → space y → source (st ++ [str u]) t ls → source st (x ++ y ++ t) ls
  | Semi st t ls : source [] t ls → source st (";"%char :: t) (st :: ls)
  | Word_semi st x u t ls : word x u → u ≠ [] → source [] t ls →
      source st (x ++ ";"%char :: t) ((st ++ [str u]) :: ls).

(** Between tokens, with [tok] read of one. *)
Definition within (tok : text) (st : list string) : lexer := mk tok st false false false false.
Lemma same_spec c d : same c d = true ↔ c = d.
Proof. apply bool_decide_eq_true. Qed.
Lemma same_refl c : same c c = true.
Proof. by apply same_spec. Qed.
Lemma lines_skip c t s s' : next c s = (s', None) → lines_from (c :: t) s = lines_from t s'.
Proof. intros E. cbn [lines_from]. by rewrite E. Qed.
Lemma in_quotes (d : ascii) (q : lexer → bool) (f : lexer → lexer) s0 u t :
  (∀ c v, same c d = false → next c (f (within v s0)) = (f (within (v ++ [c]) s0), None)) →
  Forall (λ c, same c d = false) u → ∀ v, lines_from (u ++ t) (f (within v s0)) = lines_from t (f (within (v ++ u) s0)).
Proof.
  intros Hf Hu. induction Hu as [|c u Hc _ IH]; intros v; [by rewrite app_nil_r|].
  cbn [app]. rewrite (lines_skip c _ _ _ (Hf c v Hc)), IH. by rewrite <- app_assoc.
Qed.
Lemma lines_piece x u t tok st : piece x u → lines_from (x ++ t) (within tok st) = lines_from t (within (tok ++ u) st).
Proof.
  intros Hp. destruct Hp as [c Hc|c|u Hu|u Hu].
  - cbn [app]. apply lines_skip. unfold next, next_token. cbn. unfold special in Hc. rewrite !orb_false_iff in Hc.
    destruct Hc as (((((-> & ->) & ->) & ->) & ->) & ->). done.
  - cbn [app]. rewrite (lines_skip "\"%char _ _ (set_escape (within tok st) true)) by done.
    by apply lines_skip.
  - cbn [app]. rewrite <- app_assoc. rewrite (lines_skip "'"%char _ _ (set_single (within tok st) true)) by done.
    rewrite (in_quotes "'"%char in_single_quote (λ s, set_single s true)); [|intros c v Hc; unfold next, next_token; cbn; by rewrite Hc|done].
    by apply lines_skip.
  - cbn [app]. rewrite <- app_assoc. rewrite (lines_skip DQUOTE _ _ (set_double (within tok st) true)) by done.
    rewrite (in_quotes DQUOTE in_double_quote (λ s, set_double s true)); [|intros c v Hc; unfold next, next_token; cbn; by rewrite Hc|done].
    by apply lines_skip.
Qed.
Lemma lines_word x u t st : word x u → ∀ tok, lines_from (x ++ t) (within tok st) = lines_from t (within (tok ++ u) st).
Proof.
  induction 1 as [|x u y v Hp _ IH]; intros tok; [by rewrite app_nil_r|].
  rewrite <- app_assoc, (lines_piece x u) by done. by rewrite IH, app_assoc.
Qed.
Lemma end_token_within u st : u ≠ [] → end_token (within u st) = within [] (st ++ [str u]).
Proof. by destruct u. Qed.
Lemma white_not_special c : is_white c = true → same c "#" = false ∧ same c "'" = false ∧ same c DQUOTE = false ∧
  same c "\" = false ∧ same c ";" = false.
Proof.
  intros Hw. assert (∀ d, is_white d = false → same c d = false) as Hs; [|by split_and!; apply Hs].
  intros d Hd. destruct (same c d) eqn:E; [|done]. apply same_spec in E as ->. congruence.
Qed.
Lemma next_white c s : is_white c = true → in_single_quote s = false → escape s = false → in_double_quote s = false →
  in_comment s = false → next c s = (end_token s, None).
Proof.
  intros Hw H1 H2 H3 H4. unfold next, next_token. rewrite H1, H2, H3, H4.
  destruct (white_not_special c Hw) as (-> & -> & -> & -> & ->). by rewrite Hw.
Qed.
Lemma lines_space x t tok st : space x → lines_from (x ++ t) (within tok st) = lines_from t (end_token (within tok st)).
Proof.
  intros Hs. destruct Hs as [c Hc|u c Hu Hc].
  - cbn [app]. apply lines_skip. by apply next_white.
  - cbn [app]. rewrite <- app_assoc. rewrite (lines_skip "#"%char _ _ (set_comment (within tok st) true)) by done.
    assert (lines_from (u ++ [c] ++ t) (set_comment (within tok st) true) =
      lines_from ([c] ++ t) (set_comment (within tok st) true)) as ->.
    { induction Hu as [|d u Hd _ IH]; [done|]. etrans; [|exact IH]. apply lines_skip.
      unfold next. cbn. by rewrite Hd. }
    cbn [app]. apply lines_skip. unfold next. cbn [in_comment set_comment]. rewrite Hc.
    change (set_comment (set_comment (within tok st) true) false) with (within tok st).
    pose proof (next_white c (within tok st)) as Hn. unfold next in Hn. cbn [in_comment within] in Hn.
    apply Hn; try done. unfold is_white. by rewrite Hc.
Qed.

(** A list reads as what it writes.  Every text of the grammar, with words in quotes
    of both kinds, characters after backslashes, and comments and white space between
    words, gives [ProcessLine] exactly the lines of words that it writes. *)
Lemma node_list_lines t ls : source [] t ls → lines t = ls.
Proof.
  cut (∀ st, source st t ls → lines_from t (within [] st) = ls); [intros Hc Hs; by apply Hc|].
  intros st Hs. induction Hs as [st|st x t ls Hx _ IH|st x u y t ls Hx Hu Hy _ IH|st t ls _ IH|st x u t ls Hx Hu _ IH].
  - done.
  - by rewrite (lines_space x t [] st Hx).
  - rewrite (lines_word x u (y ++ t) st Hx), (lines_space y t ([] ++ u) st Hy). cbn [app]. by rewrite end_token_within.
  - cbn [lines_from]. by rewrite <- IH.
  - rewrite (lines_word x u (";"%char :: t) st Hx). cbn [lines_from app].
    assert (next ";" (within u st) = (within [] [], Some (st ++ [str u]))) as ->; [|by rewrite <- IH].
    unfold next, next_token. cbn -[end_token]. by rewrite end_token_within.
Qed.

(** A word that ends with the file, with nothing behind it, is lost. *)
Theorem last_word_is_lost st x u : word x u → lines_from x (within [] st) = [st].
Proof. intros Hx. pose proof (lines_word x u [] st Hx []) as Hl. by rewrite app_nil_r in Hl. Qed.

(** ** What a list does *)
Section lists.
Context (RealPath : text → text) (files : text → option text).
Notation Loader := (Loader RealPath files).
Notation ProcessLine := (ProcessLine RealPath).
Notation absolute := (absolute RealPath).

Lemma scan_lines process t s d :
  scan process t s d = foldr (λ l m, process l ;; m) (mret tt) (lines_from t s) d.
Proof.
  revert s d. induction t as [|c t IH]; intros s d; cbn.
  - mred. by destruct (process (stack s) d) as [[[]|] ?].
  - destruct (next c s) as [s' [l|]]; cbn; mred; [|apply IH].
    destruct (process l d) as [[]]; [|done]. apply IH.
Qed.

(** The lines [lib <library> <symbol> ...] of a list that includes no other. *)
Definition declares (curdir : text) (d : data) (line : list string) : data :=
  match line with
  | "lib"%string :: libname :: names =>
      match absolute curdir libname with
      | [] => d
      | path => foldl (λ d n, <[n := str path]> d) d names
      end
  | _ => d
  end.
Definition includes (line : list string) : bool :=
  match line with "include"%string :: _ => true | _ => false end.
Lemma process_declares load curdir line d : includes line = false →
  ProcessLine load curdir line d = (Ok tt, declares curdir d line).
Proof.
  intros Hi. unfold ProcessLine, declares, includes in *. destruct line as [|w rest]; [done|].
  destruct (String.eqb_spec w "lib") as [->|Hl].
  - destruct rest as [|l names]; [done|]. by destruct (absolute curdir l).
  - destruct (String.eqb_spec w "include") as [->|Hn]; [done|].
    repeat (case_match; try done).
Qed.
Lemma foldr_declares load curdir ls d : forallb (λ l, negb (includes l)) ls = true →
  foldr (λ l m, ProcessLine load curdir l ;; m) (mret tt) ls d = (Ok tt, foldl (declares curdir) d ls).
Proof.
  revert d. induction ls as [|l ls IH]; cbn; intros d; [done|].
  rewrite andb_true_iff, negb_true_iff. intros [Hl Hls]. mred. rewrite process_declares by done. by apply IH.
Qed.

(** C23: a node list declares what its lines say.  For a file that can be opened and
    whose text writes [ls], none of them an include, [LoadNodeList] returns and has
    entered every symbol of every line [lib <library> <symbol> ...], the later line
    before the earlier one, with the library's path taken from the directory of the
    list; and lines of other words, or with a library that does not exist, enter
    nothing. *)
Theorem list_declares filename t ls d : files (chars filename) = Some t → source [] t ls →
  forallb (λ l, negb (includes l)) ls = true →
  LoadNodeList RealPath files filename d =
    (Ok tt, foldl (declares (Path.DirName (RealPath (chars filename)))) d ls).
Proof.
  intros Hf Hs Hi. unfold LoadNodeList. cbn [Loader NL.Loader]. rewrite Hf, scan_lines.
  fold (lines t). rewrite (node_list_lines _ _ Hs). by apply foldr_declares.
Qed.

(** Lists that include one another in a ring are never read: the assertion fails
    after 100 of them. *)
Lemma fails_through load curdir line inc d : "include"%string :: inc = line →
  ∀ f, f ∈ (absolute curdir <$> inc) → (∀ g d, ∃ r, load g d = r) → (∀ d, (load f d).1 ≠ Ok tt) →
  (ProcessLine load curdir line d).1 ≠ Ok tt.
Proof.
  intros <- f Hf _ Hl. cbn. revert d. induction inc as [|i inc IH]; cbn in *; intros d.
  - by apply elem_of_nil in Hf.
  - mred. destruct (load (absolute curdir i) d) as [[[]|] d'] eqn:E; [|done].
    apply elem_of_cons in Hf as [->|Hf]; [|by apply IH]. destruct (Hl d). by rewrite E.
Qed.
Definition asks_for (f g : text) : Prop := ∃ t inc, files f = Some t ∧
  ("include"%string :: inc) ∈ lines t ∧ g ∈ (absolute (Path.DirName (RealPath f)) <$> inc).
Lemma foldr_fails (process : list string → M data unit) l ls d : l ∈ ls → (∀ d, (process l d).1 ≠ Ok tt) →
  (foldr (λ l m, process l ;; m) (mret tt) ls d).1 ≠ Ok tt.
Proof.
  intros Hl Hp. revert d. induction ls as [|l' ls IH]; intros d; [by apply elem_of_nil in Hl|]. cbn. mred.
  destruct (process l' d) as [[[]|] d'] eqn:E; [|done].
  apply elem_of_cons in Hl as [->|Hl]; [|by apply IH]. destruct (Hp d). by rewrite E.
Qed.
Theorem include_ring_fails (ring : text → Prop) : (∀ f, ring f → ∃ g, asks_for f g ∧ ring g) →
  ∀ filename d, ring (chars filename) → (LoadNodeList RealPath files filename d).1 ≠ Ok tt.
Proof.
  intros Hr filename d Hf. unfold LoadNodeList. revert Hf d. generalize (chars filename). generalize 100%nat.
  induction n as [|n IH]; intros f Hf d; [done|]. cbn.
  destruct (Hr f Hf) as (g & (t & inc & Ht & Hl & Hg) & Hrg). rewrite Ht, scan_lines.
  eapply foldr_fails; [exact Hl|]. intros d'. eapply fails_through; [done|exact Hg|by eauto|]. intros d''. by apply IH.
Qed.
End lists.

(** ** [NodeLoader] *)
Section factories.
(** What the dynamic linker knows: whether a library can be opened, and which
    symbols the program ([None]) and each library have. *)
Context {Factory : Type} (GetName : Factory → string)
  (opens : string → bool) (exports : option string → string → bool)
  (init : option string → string → Factory).           (** the call of the symbol *)
Context (RealPath : text → text) (files : text → option text).

Record loader := mk_loader {
  libmap : list string;                                (** in the order of their loading *)
  factorymap : gmap string Factory; nodelibmap : data }.
Definition new_loader : loader := mk_loader [] ∅ ∅.
Definition set_libmap s l := mk_loader l (factorymap s) (nodelibmap s).
Definition set_factorymap s m := mk_loader (libmap s) m (nodelibmap s).
Definition set_nodelibmap s m := mk_loader (libmap s) (factorymap s) m.

(** [dlsym] of the handle of the program: who has the symbol. *)
Definition dlsym (sym : string) (s : loader) : option (option string) :=
  snd <$> list_find (λ o, exports o sym = true) (None :: (Some <$> libmap s)).
Definition InternalLoadLib (lib : string) : M loader unit :=
  s ← mget;
  if bool_decide (lib ∈ libmap s) then mret tt
  else if opens lib then mput (set_libmap s (libmap s ++ [lib])) else mthrow RuntimeError.
Definition insert_new {A} (k : string) (a : A) (m : gmap string A) : gmap string A :=
  match m !! k with Some _ => m | None => <[k := a]> m end.
Definition RegisterFactory (f : Factory) : M loader unit :=
  mmodify (λ s, set_factorymap s (insert_new (GetName f) f (factorymap s))).
Definition InternalLoad (name : string) : M loader unit :=
  let sym := ("cpninit" ++ name)%string in
  s ← mget;
  o ← (match dlsym sym s with
       | Some o => mret o
       | None =>
           match nodelibmap s !! sym with
           | None => mthrow RuntimeError
           | Some lib =>
               InternalLoadLib lib ;;
               s ← mget; match dlsym sym s with Some o => mret o | None => mthrow RuntimeError end
           end
       end);
  RegisterFactory (init o sym).
Definition GetFactory (nodetype : string) : M loader Factory :=
  s ← mget;
  match factorymap s !! nodetype with
  | Some f => mret f
  | None =>
      InternalLoad nodetype ;;
      s ← mget; match factorymap s !! nodetype with Some f => mret f | None => mthrow AssertFailed end
  end.
Definition LoadSharedLib (libname : string) : M loader unit := InternalLoadLib libname.
(** [LoadNodeList] of the class: the lists are read into [nodelibmap]. *)
Definition LoadList (filename : string) : M loader unit :=
  λ s, let (r, d) := LoadNodeList RealPath files filename (nodelibmap s) in (r, set_nodelibmap s d).

Lemma dlsym_program sym s : exports None sym = true → dlsym sym s = Some None.
Proof. intros He. unfold dlsym. cbn. by rewrite decide_True. Qed.
Lemma dlsym_none sym s : exports None sym = false → (∀ l, l ∈ libmap s → exports (Some l) sym = false) →
  dlsym sym s = None.
Proof.
  intros He Hl. unfold dlsym. rewrite fmap_None. apply list_find_None. apply Forall_cons. split; [by rewrite He|].
  apply Forall_fmap, Forall_forall. intros l Hin. cbn. by rewrite Hl.
Qed.
Lemma dlsym_last sym s lib : exports None sym = false → (∀ l, l ∈ libmap s → exports (Some l) sym = false) →
  exports (Some lib) sym = true → dlsym sym (set_libmap s (libmap s ++ [lib])) = Some (Some lib).
Proof.
  intros He Hl Hlib. unfold dlsym. cbn [libmap set_libmap]. rewrite fmap_app, app_comm_cons.
  assert (list_find (λ o, exports o sym = true) (None :: (Some <$> libmap s)) = None) as Hn.
  { apply list_find_None. apply Forall_cons. split; [by rewrite He|].
    apply Forall_fmap, Forall_forall. intros l Hin. cbn. by rewrite Hl. }
  rewrite list_find_app_r by done. cbn. by rewrite decide_True.
Qed.

(** A factory that was found is found again, and nothing is loaded for it. *)
Lemma GetFactory_again name s f s' : GetFactory name s = (Ok f, s') → GetFactory name s' = (Ok f, s').
Proof.
  unfold GetFactory. mred. destruct (factorymap s !! name) as [f'|] eqn:E.
  - intros [= <- <-]. by rewrite E.
  - destruct (InternalLoad name s) as [[[]|] s1]; [|done]. destruct (factorymap s1 !! name) as [f'|] eqn:E1; [|done].
    intros [= <- <-]. by rewrite E1.
Qed.

(** A type of a node list is found.  After a list was read that declares the
    symbol [cpninit<type>] in a library, which neither the program nor a library
    loaded before has, [GetFactory] loads that library and gives the factory that its
    function returns, when that has the name of the type; asked again, it gives the
    same and changes nothing.  A type that no list declares and nothing exports is
    a [runtime_error] that changes nothing, and a factory of another name fails the
    assertion. *)
Theorem listed_type_is_found filename t ls name lib s :
  let sym := ("cpninit" ++ name)%string in
  let d := foldl (declares RealPath (Path.DirName (RealPath (chars filename)))) (nodelibmap s) ls in
  files (chars filename) = Some t → source [] t ls → forallb (λ l, negb (includes l)) ls = true →
  factorymap s !! name = None → exports None sym = false →
  (∀ l, l ∈ libmap s → exports (Some l) sym = false) →
  LoadList filename s = (Ok tt, set_nodelibmap s d) ∧
  (d !! sym = None → GetFactory name (set_nodelibmap s d) = (Err RuntimeError, set_nodelibmap s d)) ∧
  (d !! sym = Some lib → lib ∉ libmap s →
    (opens lib = false → GetFactory name (set_nodelibmap s d) = (Err RuntimeError, set_nodelibmap s d)) ∧
    (opens lib = true → exports (Some lib) sym = true → ∃ s',
      (GetFactory name (set_nodelibmap s d) =
        (if decide (GetName (init (Some lib) sym) = name) then (Ok (init (Some lib) sym), s') else (Err AssertFailed, s'))) ∧
      libmap s' = libmap s ++ [lib] ∧
      (GetName (init (Some lib) sym) = name → GetFactory name s' = (Ok (init (Some lib) sym), s')))).
Proof.
  intros sym d Hf Hs Hi Hn Hp Hl. split; [|split].
  - unfold LoadList. unfold LoadNodeList. cbn [NL.Loader]. rewrite Hf, scan_lines. fold (lines t).
    rewrite (node_list_lines _ _ Hs). by rewrite foldr_declares.
  - intros Hd. unfold GetFactory, InternalLoad. mred. cbn [factorymap nodelibmap set_nodelibmap]. rewrite Hn. fold sym.
    rewrite dlsym_none by done. cbn [nodelibmap set_nodelibmap]. by rewrite Hd.
  - intros Hd Hlib. split.
    + intros Ho. unfold GetFactory, InternalLoad, InternalLoadLib. mred. cbn [factorymap nodelibmap libmap set_nodelibmap].
      rewrite Hn. fold sym. rewrite dlsym_none by done.
      cbn [nodelibmap libmap set_nodelibmap]. rewrite Hd. rewrite bool_decide_false by done. by rewrite Ho.
    + intros Ho Hx. set (f := init (Some lib) sym).
      set (s1 := set_libmap (set_nodelibmap s d) (libmap s ++ [lib])).
      set (s' := set_factorymap s1 (insert_new (GetName f) f (factorymap s1))).
      assert (InternalLoad name (set_nodelibmap s d) = (Ok tt, s')) as E.
      { unfold InternalLoad, InternalLoadLib, RegisterFactory. mred. cbn [nodelibmap libmap set_nodelibmap]. fold sym. rewrite dlsym_none by done.
        cbn [nodelibmap libmap set_nodelibmap]. rewrite Hd. rewrite bool_decide_false by done. rewrite Ho. fold s1.
        rewrite (dlsym_last sym (set_nodelibmap s d) lib) by done. done. }
      assert (factorymap s' !! name = if decide (GetName f = name) then Some f else None) as Hf'.
      { cbn. unfold insert_new. case_decide as Hname.
        - by rewrite Hname, Hn, lookup_insert_eq.
        - destruct (factorymap s !! GetName f); [done|]. by rewrite lookup_insert_ne. }
      exists s'. split; [|split; [done|]].
      * unfold GetFactory. mred. cbn [factorymap set_nodelibmap]. rewrite Hn, E, Hf'. by case_decide.
      * intros Hname. unfold GetFactory. mred. by rewrite Hf', decide_True.
Qed.
End factories.
End NL.

(** ** Examples *)
Module NX.
Import NL.
Open Scope string_scope.
Lemma word_plain x : forallb (λ c, negb (special c)) x = true → word x x.
Proof.
  induction x as [|c x IH]; [constructor|]. cbn. rewrite andb_true_iff, negb_true_iff. intros [Hc Hx].
  apply (Pieces [c] [c] x x); [by constructor|by apply IH].
Qed.
(** A list with a comment, and a library whose name has a space. *)
Definition ex_text : text := chars ("# filters" ++ String LF "lib '/opt/my nodes.so' cpninitfir cpninitiir;" ++ String LF "").
Definition ex_lines : list (list string) := [["lib"; "/opt/my nodes.so"; "cpninitfir"; "cpninitiir"]; []].
Lemma ex_source : source [] ex_text ex_lines.
Proof.
  apply (Space [] (chars ("# filters" ++ String LF ""))); [apply (Comment (chars " filters") LF); [|done]; by repeat constructor|].
  apply (Word [] (chars "lib") (chars "lib") (chars " ")); [by apply word_plain|done|by constructor|].
  apply (Word _ (chars "'/opt/my nodes.so'") (chars "/opt/my nodes.so") (chars " ")); [|done|by constructor|].
  { apply (Pieces (chars "'/opt/my nodes.so'") (chars "/opt/my nodes.so") [] []); [|constructor].
    apply (Single (chars "/opt/my nodes.so")). by repeat constructor. }
  apply (Word _ (chars "cpninitfir") (chars "cpninitfir") (chars " ")); [by apply word_plain|done|by constructor|].
  apply (Word_semi ["lib"; "/opt/my nodes.so"; "cpninitfir"] (chars "cpninitiir") (chars "cpninitiir") [LF] [[]]); [by apply word_plain|done|].
  apply (Space [] [LF]); [by constructor|]. apply At_end.
Qed.
Definition ex_files (f : text) : option text := if decide (f = chars "/etc/list") then Some ex_text else None.
Definition ex_exports (o : option string) (sym : string) : bool :=
  bool_decide (o = Some "/opt/my nodes.so" ∧ sym = "cpninitfir").
Definition ex_init (o : option string) (sym : string) : string := "fir".
Definition ex_opens (lib : string) : bool := true.

Lemma path_round_trip_witness :
  Path.DirName (Path.PathConcat (chars "/usr") (chars "lib") ++ replicate 2 Path.PATH_SEP)%list = chars "/usr" ∧
  Path.BaseName (Path.PathConcat (chars "/usr") (chars "lib") ++ replicate 2 Path.PATH_SEP)%list = chars "lib".
Proof. apply (Path.path_round_trip (chars "/usr") (chars "lib") 2); [done|done|done|by repeat constructor]. Defined.
Lemma list_declares_witness :
  LoadNodeList (λ p, p) ex_files "/etc/list" ∅ =
    (Ok tt, <["cpninitiir" := "/opt/my nodes.so"]> {["cpninitfir" := "/opt/my nodes.so"]}).
Proof. exact (list_declares (λ p, p) ex_files "/etc/list" ex_text ex_lines ∅ eq_refl ex_source eq_refl). Defined.
Lemma listed_type_is_found_witness : ∃ s' : @loader string,
  (s ← LoadList (Factory := string) (λ p, p) ex_files "/etc/list"; GetFactory (λ f, f) ex_opens ex_exports ex_init "fir")
    new_loader = (Ok "fir", s') ∧ libmap s' = ["/opt/my nodes.so"].
Proof.
  destruct (listed_type_is_found (λ f : string, f) ex_opens ex_exports ex_init (λ p, p) ex_files "/etc/list" ex_text
    ex_lines "fir" "/opt/my nodes.so" new_loader eq_refl ex_source eq_refl eq_refl eq_refl) as (E & _ & Hf).
  { intros l Hl. by apply elem_of_nil in Hl. }
  destruct (Hf ltac:(vm_compute; reflexivity) ltac:(apply not_elem_of_nil)) as [_ Hs].
  destruct (Hs eq_refl ltac:(vm_compute; reflexivity)) as (s' & Eg & El & _).
  exists s'. split; [|exact El]. mred. rewrite E. exact Eg.
Defined.
(** A list that includes itself. *)
Lemma include_ring_example d :
  (LoadNodeList (λ p, p) (λ f, if decide (f = chars "/etc/list") then Some (chars "include /etc/list;") else None)
    "/etc/list" d).1 ≠ Ok tt.
Proof.
  apply (include_ring_fails _ _ (λ f, f = chars "/etc/list")); [|done]. intros f ->. exists (chars "/etc/list").
  split; [|done]. exists (chars "include /etc/list;"), ["/etc/list"]. split; [done|]. split; [|by left].
  change (lines (chars "include /etc/list;")) with [["include"; "/etc/list"]; []]. by left.
Qed.
End NX.
