(* ===== verification/ThreadPool.v ===== *)
(** [libraries/Synchronize/ThreadPool]: the threads of a pool, and the threads of the
    program that call it, under one lock and two condition variables.

    A step takes one thread from where it waits for the lock, or runs a task, to
    where it releases the lock.  A task is a number, and its [Run] is one step
    without the lock; what a task itself gives to the pool is a call of a client.
    A signal wakes one of those that sleep: which one, [o n] says for the [n]th
    signal of a step. *)
From S2P Require Import Prelude Fairness.

Module TP.
Open Scope Z_scope.

Class Config := { minthreads : Z; maxthreads : Z; timed : bool (** [timeout > 0] *) }.

(** In [TaskThread]. *)
Inductive tpc :=
  | TStart                       (** before the lock *)
  | TAsleep | TAwake (timedout : bool)   (** in the wait on [enqueue_cond], and after it *)
  | TRun (r : nat) | TDone       (** in [Run], and after it, before the lock *)
  | TLeaving                     (** it has given the lock back for the last time *)
  | TDead.                       (** it has returned: [Pthread::Done], and [Join] does not block *)
Inductive call := Execute (r : nat) | Wait | Shutdown.
Inductive cpc :=
  | CIdle (o : res unit)
  | CWaiting (asleep : bool)     (** in the wait of [Wait] *)
  | CShutting (asleep : bool)    (** in the wait of [Shutdown] *)
  | CJoin (l : list nat)         (** the threads still to be joined *)
  | CLeft (l : list nat).        (** the tasks that are left *)
Record client := mk_client { pc : cpc; todo : list call }.

Record pool := mk {
  shutdown : bool; taskqueue : list nat; handles : list nat;
  numthreads : Z; numtasks : Z; waiting : Z; needscleanup : bool;
  threads : list tpc; clients : list client;
  accepted : list nat; started : list nat; ran : list nat }.   (** what happened to the tasks *)

Definition set_shutdown x := mk true (taskqueue x) (handles x) (numthreads x) (numtasks x) (waiting x)
  (needscleanup x) (threads x) (clients x) (accepted x) (started x) (ran x).
Definition set_queue x q s := mk (shutdown x) q (handles x) (numthreads x) (numtasks x) (waiting x)
  (needscleanup x) (threads x) (clients x) (accepted x) s (ran x).
Definition set_handles x h b := mk (shutdown x) (taskqueue x) h (numthreads x) (numtasks x) (waiting x)
  b (threads x) (clients x) (accepted x) (started x) (ran x).
Definition set_counts x n m w := mk (shutdown x) (taskqueue x) (handles x) n m w
  (needscleanup x) (threads x) (clients x) (accepted x) (started x) (ran x).
Definition set_threads x l := mk (shutdown x) (taskqueue x) (handles x) (numthreads x) (numtasks x) (waiting x)
  (needscleanup x) l (clients x) (accepted x) (started x) (ran x).
Definition set_clients x l := mk (shutdown x) (taskqueue x) (handles x) (numthreads x) (numtasks x) (waiting x)
  (needscleanup x) (threads x) l (accepted x) (started x) (ran x).
Definition set_accepted x l := mk (shutdown x) (taskqueue x) (handles x) (numthreads x) (numtasks x) (waiting x)
  (needscleanup x) (threads x) (clients x) l (started x) (ran x).
Definition set_ran x l := mk (shutdown x) (taskqueue x) (handles x) (numthreads x) (numtasks x) (waiting x)
  (needscleanup x) (threads x) (clients x) (accepted x) (started x) l.

(** *** Condition variables: the one that is named is woken, or else the first *)
Definition is_asleep (t : tpc) : bool := match t with TAsleep => true | _ => false end.
Definition client_asleep (c : client) : bool :=
  match pc c with CWaiting b | CShutting b => b | _ => false end.
Definition rouse (c : client) : client :=
  match pc c with
  | CWaiting _ => mk_client (CWaiting false) (todo c)
  | CShutting _ => mk_client (CShutting false) (todo c)
  | _ => c
  end.
Definition signal {A} (asleep : A → bool) (wake : A → A) (o : nat) (l : list A) : list A :=
  if from_option asleep false (l !! o) then alter wake o l
  else match list_find (λ a, asleep a = true) l with Some (i, _) => alter wake i l | None => l end.
Definition enqueue_Signal o x := set_threads x (signal is_asleep (λ _, TAwake false) o (threads x)).
Definition dequeue_Signal o x := set_clients x (signal client_asleep rouse o (clients x)).
Definition enqueue_Broadcast x :=
  set_threads x ((λ t, if is_asleep t then TAwake false else t) <$> threads x).
Definition dequeue_Broadcast x := set_clients x (rouse <$> clients x).

(** [Pthread::Done] *)
Definition Done (x : pool) (k : nat) : bool := match threads x !! k with Some TDead => true | _ => false end.
Definition InternalCleanup x :=
  if needscleanup x then set_handles x (filter (λ k, Done x k = false) (handles x)) false else x.

Section pool.
Context `{Config}.

Definition Spawn x :=
  if shutdown x then x else
  let x := set_handles x (length (threads x) :: handles x) (needscleanup x) in
  let x := set_threads x (threads x ++ [TStart]) in
  set_counts x (u32 (numthreads x + 1)) (numtasks x) (waiting x).

(** The inner loop of [TaskThread] of the thread [k], with the lock, up to where it
    releases it. *)
Definition loop (k : nat) (o : nat → nat) (timedout : bool) (x : pool) : pool :=
  match taskqueue x with
  | r :: q => set_threads (set_queue x q (started x ++ [r])) (<[k := TRun r]> (threads x))
  | [] =>
      if shutdown x || (timedout && (minthreads <? numthreads x)) then
        let x := set_counts x (u32 (numthreads x - 1)) (numtasks x) (waiting x) in
        let x := dequeue_Signal (o 1%nat) (enqueue_Signal (o 0%nat) (set_handles x (handles x) true)) in
        set_threads x (<[k := TLeaving]> (threads x))
      else
        let x := InternalCleanup x in
        set_threads (set_counts x (numthreads x) (numtasks x) (u32 (waiting x + 1))) (<[k := TAsleep]> (threads x))
  end.
Definition at_top (k : nat) (x : pool) : pool := set_threads x (<[k := TStart]> (threads x)).
Definition thread_step (k : nat) (o : nat → nat) (x : pool) : option pool :=
  match threads x !! k with
  | Some TStart => Some (loop k o false x)
  | Some (TAwake timedout) =>
      Some (loop k o timedout (at_top k (set_counts x (numthreads x) (numtasks x) (u32 (waiting x - 1)))))
  | Some (TRun r) => Some (set_ran (set_threads x (<[k := TDone]> (threads x))) (ran x ++ [r]))
  | Some TDone =>
      Some (loop k o false (at_top k
        (dequeue_Signal (o 2%nat) (set_counts x (numthreads x) (u32 (numtasks x - 1)) (waiting x)))))
  | Some TLeaving => Some (set_threads x (<[k := TDead]> (threads x)))
  | _ => None
  end.

(** [while (numtasks != 0 && numthreads != 0) dequeue_cond.Wait(lock)]: it sleeps. *)
Definition must_wait (x : pool) : bool := negb (numtasks x =? 0) && negb (numthreads x =? 0).
(** [Shutdown] after its wait. *)
Definition begin_shutdown (x : pool) : pool * cpc :=
  let x := enqueue_Broadcast (dequeue_Broadcast (set_shutdown x)) in (x, CJoin (handles x)).
Definition start (o : nat → nat) (c : call) (x : pool) : pool * cpc :=
  match c with
  | Execute r =>
      if shutdown x then (x, CIdle (Err AssertFailed)) else
      let x := set_accepted (set_queue x (taskqueue x ++ [r]) (started x)) (accepted x ++ [r]) in
      let x := InternalCleanup (set_counts x (numthreads x) (u32 (numtasks x + 1)) (waiting x)) in
      let x := if (waiting x =? 0) && (numthreads x <? maxthreads) then Spawn x else x in
      (enqueue_Signal (o 0%nat) x, CIdle (Ok tt))
  | Wait => (x, if shutdown x then CIdle (Ok tt) else if must_wait x then CWaiting true else CIdle (Ok tt))
  | Shutdown => if must_wait x then (x, CShutting true) else begin_shutdown x
  end.
Definition resume (p : cpc) (x : pool) : option (pool * cpc) :=
  match p with
  | CIdle _ | CWaiting true | CShutting true => None
  | CWaiting false => Some (x, if must_wait x then CWaiting true else CIdle (Ok tt))
  | CShutting false => Some (if must_wait x then (x, CShutting true) else begin_shutdown x)
  | CJoin (k :: l) => if Done x k then Some (x, CJoin l) else None
  | CJoin [] => Some (set_handles x [] (needscleanup x), CLeft (taskqueue x))
  | CLeft (r :: l) => Some (set_ran (set_queue x (taskqueue x) (started x ++ [r])) (ran x ++ [r]), CLeft l)
  | CLeft [] => Some (set_queue x [] (started x), CIdle (Ok tt))
  end.
Definition put_client (i : nat) (cs : list call) (r : pool * cpc) : pool :=
  set_clients r.1 (<[i := mk_client r.2 cs]> (clients r.1)).
Definition client_step (i : nat) (o : nat → nat) (x : pool) : option pool :=
  c ← clients x !! i;
  match pc c, todo c with
  | CIdle _, [] => None
  | CIdle _, a :: cs => Some (put_client i cs (start o a x))
  | p, cs => put_client i cs <$> resume p x
  end.

(** The threads of the pool, and those that call it. *)
Inductive tid := Worker (k : nat) | Client (i : nat).
Definition go (r : tid) (o : nat → nat) (x : pool) : option pool :=
  match r with Worker k => thread_step k o x | Client i => client_step i o x end.
Definition enabled (r : tid) (x : pool) : Prop := is_Some (go r (λ _, O) x).
(** A step of a thread; or a wait ends by itself, or with its time. *)
Inductive step : option tid → pool → pool → Prop :=
  | S_go r o x y : go r o x = Some y → step (Some r) x y
  | S_timeout k x : timed = true → threads x !! k = Some TAsleep →
      step None x (set_threads x (<[k := TAwake true]> (threads x)))
  | S_spurious k x : threads x !! k = Some TAsleep →
      step None x (set_threads x (<[k := TAwake false]> (threads x)))
  | S_rouse i c x : clients x !! i = Some c → client_asleep c = true →
      step None x (set_clients x (<[i := rouse c]> (clients x)))
  | S_idle x : step None x x.

(** What a client may still give to the pool. *)
Definition is_execute (a : call) : bool := match a with Execute _ => true | _ => false end.
Definition executes (c : client) : nat := length (filter (λ a, is_execute a = true) (todo c)).
(** A pool that was constructed, and what its clients will call. *)
Definition initial (x : pool) : Prop :=
  shutdown x = false ∧ taskqueue x = [] ∧ handles x = [] ∧ numthreads x = 0 ∧ numtasks x = 0 ∧ waiting x = 0 ∧
  threads x = [] ∧ accepted x = [] ∧ started x = [] ∧ ran x = [] ∧
  0 ≤ minthreads ∧ minthreads ≤ maxthreads < 4294967296 ∧
  Z.of_nat (sum_list_with executes (clients x)) < 4294967296 ∧ (∀ c, c ∈ clients x → ∃ o, pc c = CIdle o).
(** All but one of the clients only give tasks. *)
Definition one_waits (w : nat) (x : pool) : Prop :=
  ∀ i c, clients x !! i = Some c → i ≠ w → ∀ a, a ∈ todo c → is_execute a = true.
Definition steps : pool → pool → Prop := rtc (λ x y, ∃ r, step r x y).
End pool.

(** ** Threads that are woken, or that change their place *)
Definition counted (t : tpc) : nat := match t with TLeaving | TDead => 0 | _ => 1 end.
Definition waits (t : tpc) : nat := match t with TAsleep | TAwake _ => 1 | _ => 0 end.
Definition busy (t : tpc) : nat := match t with TRun _ | TDone => 1 | _ => 0 end.
Definition task (t : tpc) : option nat := match t with TRun r => Some r | _ => None end.
(** It will look at the queue before it sleeps. *)
Definition ready (t : tpc) : bool := match t with TStart | TAwake _ | TRun _ | TDone => true | _ => false end.
Notation tsum f x := (sum_list_with f (threads x)).
Notation running x := (omap task (threads x)).

Lemma signal_cases {A} (asleep : A → bool) wake o l :
  (signal asleep wake o l = l ∧ ∀ i a, l !! i = Some a → asleep a = false) ∨
  ∃ i a, l !! i = Some a ∧ asleep a = true ∧ signal asleep wake o l = <[i := wake a]> l.
Proof.
  assert (Ha : ∀ i a, l !! i = Some a → alter wake i l = <[i := wake a]> l)
    by (intros i a E; symmetry; apply list_insert_alter_eq || (apply list_eq; intros j;
        destruct (decide (i = j)) as [<-|]; [rewrite list_lookup_alter_eq, E, list_lookup_insert_eq by
        (by eapply lookup_lt_Some); done|by rewrite list_lookup_alter_ne, list_lookup_insert_ne])).
  unfold signal. destruct (l !! o) as [a|] eqn:E; cbn.
  - destruct (asleep a) eqn:Ea; [right; exists o, a; by rewrite (Ha _ _ E)|].
    destruct (list_find _ l) as [[i b]|] eqn:Ef.
    + apply list_find_Some in Ef as (Ei & Eb & _). right. exists i, b. by rewrite (Ha _ _ Ei).
    + left. split; [done|]. intros i b Hb. apply list_find_None in Ef. rewrite Forall_lookup in Ef.
      pose proof (Ef _ _ Hb). by destruct (asleep b).
  - destruct (list_find _ l) as [[i b]|] eqn:Ef.
    + apply list_find_Some in Ef as (Ei & Eb & _). right. exists i, b. by rewrite (Ha _ _ Ei).
    + left. split; [done|]. intros i b Hb. apply list_find_None in Ef. rewrite Forall_lookup in Ef.
      pose proof (Ef _ _ Hb). by destruct (asleep b).
Qed.

Definition woken (t t' : tpc) : Prop := t = t' ∨ t = TAsleep ∧ ∃ b, t' = TAwake b.
Definition roused (c c' : client) : Prop := c = c' ∨ client_asleep c = true ∧ c' = rouse c.
#[export] Instance woken_refl : Reflexive woken. Proof. by left. Qed.
#[export] Instance roused_refl : Reflexive roused. Proof. by left. Qed.

Lemma Forall2_put {A} (R : A → A → Prop) l i a b : Reflexive R → l !! i = Some a → R a b →
  Forall2 R l (<[i := b]> l).
Proof.
  intros Hr E Hab. rewrite <- (list_insert_id l i a) at 1 by done. apply Forall2_insert; [|done].
  by apply Forall_Forall2_diag, Forall_forall.
Qed.
Lemma enqueue_Signal_woken o x : Forall2 woken (threads x) (threads (enqueue_Signal o x)).
Proof.
  cbn. destruct (signal_cases is_asleep (λ _, TAwake false) o (threads x)) as [[-> _]|(i & t & E & Et & ->)].
  - by apply Forall_Forall2_diag, Forall_forall.
  - apply (Forall2_put _ _ _ t); [apply _|done|]. destruct t; try done. right. by eauto.
Qed.
Lemma enqueue_Broadcast_woken x : Forall2 woken (threads x) (threads (enqueue_Broadcast x)).
Proof.
  cbn. rewrite Forall2_fmap_r. apply Forall_Forall2_diag, Forall_forall. intros [] _; try by left.
  right. by eauto.
Qed.
Lemma dequeue_Signal_roused o x : Forall2 roused (clients x) (clients (dequeue_Signal o x)).
Proof.
  cbn. destruct (signal_cases client_asleep rouse o (clients x)) as [[-> _]|(i & t & E & Et & ->)].
  - by apply Forall_Forall2_diag, Forall_forall.
  - apply (Forall2_put _ _ _ t); [apply _|done|]. by right.
Qed.
Lemma rouse_awake c : client_asleep c = false → rouse c = c.
Proof. destruct c as [[|[]|[]| |] ?]; done. Qed.
Lemma dequeue_Broadcast_roused x : Forall2 roused (clients x) (clients (dequeue_Broadcast x)).
Proof.
  cbn. rewrite Forall2_fmap_r. apply Forall_Forall2_diag, Forall_forall. intros c _.
  destruct (client_asleep c) eqn:E; [by right|]. left. by rewrite rouse_awake.
Qed.

Lemma Forall2_sum {A} (R : A → A → Prop) (f : A → nat) l l' : (∀ a b, R a b → f a = f b) →
  Forall2 R l l' → sum_list_with f l = sum_list_with f l'.
Proof. intros Hf. induction 1 as [|a b l l' Hab _ IH]; [done|]. cbn. by rewrite (Hf _ _ Hab), IH. Qed.
Lemma woken_sum (f : tpc → nat) l l' : (∀ b, f TAsleep = f (TAwake b)) → Forall2 woken l l' →
  sum_list_with f l = sum_list_with f l'.
Proof. intros Hf. apply Forall2_sum. intros ? ? [->|[-> [b ->]]]; [done|apply Hf]. Qed.
Lemma woken_running l l' : Forall2 woken l l' → omap task l = omap task l'.
Proof.
  induction 1 as [|? ? l l' Hab _ IH]; [done|]. destruct Hab as [->|[-> [b ->]]]; cbn; by rewrite IH.
Qed.
Lemma running_put l k t t' : l !! k = Some t →
  omap task (<[k := t']> l) ++ option_list (task t) ≡ₚ omap task l ++ option_list (task t').
Proof.
  intros E. rewrite <- (list_insert_id l k t) at 2 by done.
  rewrite !insert_take_drop by (by eapply lookup_lt_Some).
  rewrite !omap_app. change (t :: ?l) with ([t] ++ l). change (t' :: ?l) with ([t'] ++ l).
  rewrite !omap_app. cbn. destruct (task t), (task t'); cbn; solve_Permutation.
Qed.
Lemma sum_positive {A} (f : A → nat) l i a : l !! i = Some a → (f a ≤ sum_list_with f l)%nat.
Proof.
  revert i. induction l as [|b l IH]; intros [|i] E; cbn in *; simplify_eq; [lia|].
  pose proof (IH _ E). lia.
Qed.
Lemma sum_zero {A} (f : A → nat) l : sum_list_with f l = O → ∀ i a, l !! i = Some a → f a = O.
Proof. intros Hz i a E. pose proof (sum_positive f l i a E). lia. Qed.

(** ** The invariant, when one client alone waits and shuts the pool down *)
Section invariant.
Context `{Config} (w : nat).

Definition pcw (x : pool) : option cpc := pc <$> clients x !! w.
(** The tasks that nobody has started. *)
Definition left_over (x : pool) : list nat :=
  match pcw x with Some (CLeft l) => l | _ => taskqueue x end.
Definition joinable (x : pool) : list nat :=
  match pcw x with Some (CJoin l) => l | _ => handles x end.
Definition phase (x : pool) : Prop :=
  match pcw x with
  | Some (CJoin l) => shutdown x = true
  | Some (CLeft _) => shutdown x = true ∧ handles x = []
  | Some (CIdle _) => shutdown x = true → handles x = [] ∧ taskqueue x = []
  | _ => shutdown x = false
  end.

Record inv (x : pool) : Prop := {
  i_config : 0 ≤ minthreads ∧ minthreads ≤ maxthreads < 4294967296;
  i_threads : numthreads x = Z.of_nat (tsum counted x) ∧ numthreads x ≤ maxthreads;
  i_waiting : waiting x = Z.of_nat (tsum waits x);
  i_room : 0 ≤ numtasks x ∧ numtasks x + Z.of_nat (sum_list_with executes (clients x)) < 4294967296;
  i_tasks : if shutdown x then numthreads x = 0 ∨ taskqueue x = [] ∧ numtasks x = 0
            else numtasks x = Z.of_nat (length (taskqueue x) + tsum busy x);
  i_idle : shutdown x = true → tsum busy x = O ∧ ∀ k, threads x !! k ≠ Some TAsleep;
  i_ready : taskqueue x ≠ [] → maxthreads = 0 ∨ ∃ k t, threads x !! k = Some t ∧ ready t = true;
  i_live : ∀ k t, threads x !! k = Some t → t ≠ TDead → k ∈ joinable x;
  i_known : ∀ k, k ∈ joinable x ∨ k ∈ handles x → (k < length (threads x))%nat;
  i_others : ∀ i c, clients x !! i = Some c → i ≠ w →
    (∃ o, pc c = CIdle o) ∧ ∀ a, a ∈ todo c → is_execute a = true;
  i_phase : phase x;
  i_order : accepted x = started x ++ left_over x;
  i_ran : started x ≡ₚ ran x ++ running x }.

(** While the client sleeps there is something to wait for. *)
Definition sleeps_for (x : pool) : Prop :=
  ∀ c, clients x !! w = Some c → client_asleep c = true → must_wait x = true.

Lemma fresh_inv x : initial x → one_waits w x → inv x ∧ sleeps_for x.
Proof.
  intros (Es & Eq & Eh & En & Em & Ew & Et & Ea & Est & Er & ? & ? & ? & Hc) Hw.
  assert (Hi : ∀ i c, clients x !! i = Some c → ∃ o, pc c = CIdle o)
    by (intros i c E; by eapply Hc, list_elem_of_lookup_2).
  assert (Hp : pcw x = None ∨ ∃ o, pcw x = Some (CIdle o)).
  { unfold pcw. destruct (clients x !! w) as [c|] eqn:E; [right|by left].
    destruct (Hi _ _ E) as [o Eo]. exists o. cbn. by rewrite Eo. }
  split; [split|].
  all: unfold left_over, joinable, phase; rewrite ?Et, ?Es, ?Eq, ?Eh, ?En, ?Em, ?Ew, ?Ea, ?Est, ?Er;
    try (cbn; done || lia).
  - destruct Hp as [->|[o ->]]; intros ? [?|?]; by set_solver.
  - intros i c E Hne. split; [by eapply Hi|by eapply Hw].
  - destruct Hp as [->|[o ->]]; [done|by intros].
  - by destruct Hp as [->|[o ->]].
  - intros c E Hs. destruct (Hi _ _ E) as [o Eo]. unfold client_asleep in Hs. by rewrite Eo in Hs.
Qed.

Lemma inv_woken x l : inv x → Forall2 woken (threads x) l → inv (set_threads x l).
Proof.
  intros [] Hl.
  assert (Hb : ∀ k t', l !! k = Some t' → ∃ t, threads x !! k = Some t ∧ woken t t')
    by (intros k t' E; destruct (Forall2_lookup_r _ _ _ _ _ Hl E) as (t & ? & ?); eauto).
  split; cbn; rewrite <- ?(woken_running _ _ Hl), <- ?(woken_sum counted _ _ ltac:(done) Hl),
    <- ?(woken_sum waits _ _ ltac:(done) Hl), <- ?(woken_sum busy _ _ ltac:(done) Hl),
    <- ?(Forall2_length _ _ _ Hl); auto.
  - intros Hs. destruct (i_idle0 Hs) as [? Hn]. split; [done|]. intros k E.
    destruct (Hb _ _ E) as (t & Et & [->|(-> & b & ?)]); [by apply (Hn k)|done].
  - intros Hq. destruct (i_ready0 Hq) as [?|(k & t & E & Ht)]; [by left|right].
    destruct (Forall2_lookup_l _ _ _ _ _ Hl E) as (t' & E' & [->|[-> ?]]); [by eauto|done].
  - intros k t E Hd. destruct (Hb _ _ E) as (t0 & E0 & Hw). apply (i_live0 k t0 E0).
    destruct Hw as [->|(-> & ?)]; done.
Qed.

Lemma roused_pc x l : Forall2 roused (clients x) l →
  pcw (set_clients x l) = pcw x ∨
  ∃ p p', pcw x = Some p ∧ pcw (set_clients x l) = Some p' ∧
    ((∃ b, p = CWaiting true ∧ p' = CWaiting b) ∨ (∃ b, p = CShutting true ∧ p' = CShutting b)).
Proof.
  intros Hl. unfold pcw. cbn. destruct (clients x !! w) as [c|] eqn:E.
  - destruct (Forall2_lookup_l _ _ _ _ _ Hl E) as (c' & -> & [->|[Ha ->]]); [by left|]. right. cbn.
    unfold client_asleep, rouse in *. destruct c as [[] ?]; cbn in *; try done; subst; eauto 10.
  - left. pose proof (proj1 (Forall2_lookup _ _ _) Hl w) as Ho. rewrite E in Ho. by inversion Ho.
Qed.
Lemma inv_roused x l : inv x → Forall2 roused (clients x) l → inv (set_clients x l).
Proof.
  intros [] Hl.
  assert (He : sum_list_with executes l = sum_list_with executes (clients x)).
  { symmetry. eapply Forall2_sum; [|done]. intros c c' [->|[_ ->]]; [done|].
    unfold executes, rouse. by destruct c as [[] ?]. }
  assert (Hj : joinable (set_clients x l) = joinable x ∧ left_over (set_clients x l) = left_over x ∧
    (phase x → phase (set_clients x l))).
  { unfold joinable, left_over, phase.
    destruct (roused_pc x l Hl) as [->|(p & p' & -> & -> & [(b & -> & ->)|(b & -> & ->)])]; by destruct (pcw x). }
  destruct Hj as (Ej & Eo & Hp). split; rewrite ?Ej, ?Eo; cbn; rewrite ?He; auto.
  intros i c E Hne. destruct (Forall2_lookup_r _ _ _ _ _ Hl E) as (c0 & E0 & Hr).
  destruct (i_others0 _ _ E0 Hne) as [[o Ho] Ha].
  destruct Hr as [->|[_ ->]]; [by eauto|]. unfold rouse. rewrite Ho. by eauto.
Qed.

Lemma inv_cleanup x : inv x → inv (InternalCleanup x).
Proof.
  intros Hi. unfold InternalCleanup. destruct (needscleanup x); [|done]. destruct Hi.
  assert (Hk : ∀ k, k ∈ joinable (set_handles x (filter (λ k, Done x k = false) (handles x)) false) →
    k ∈ joinable x).
  { intros k. unfold joinable, pcw. cbn. destruct (pc <$> _) as [[]|]; rewrite ?list_elem_of_filter; tauto. }
  split; cbn; auto.
  - intros k t E Hd. pose proof (i_live0 _ _ E Hd) as Hj. revert Hj. unfold joinable, pcw. cbn.
    assert (Done x k = false) by (unfold Done; rewrite E; by destruct t).
    destruct (pc <$> _) as [[]|]; rewrite ?list_elem_of_filter; tauto.
  - intros k [Hj|Hj]; [by apply i_known0; left; apply Hk|]. apply i_known0. right.
    by apply list_elem_of_filter in Hj as [? ?].
  - revert i_phase0. unfold phase, pcw. cbn. destruct (pc <$> _) as [[]|]; try done.
    + intros Hp Hs. by destruct (Hp Hs) as [-> ->].
    + by intros [? ->].
Qed.

(** *** The threads of the pool *)
Lemma kept_live (l : list tpc) (js : list nat) k t t' :
  (∀ i a, l !! i = Some a → a ≠ TDead → i ∈ js) → l !! k = Some t → (t' ≠ TDead → t ≠ TDead) →
  ∀ i a, <[k := t']> l !! i = Some a → a ≠ TDead → i ∈ js.
Proof.
  intros Hl E Ht i a Ei Ha. apply list_lookup_insert_Some in Ei as [(<- & -> & ?)|[_ Ei]]; eauto.
Qed.
Lemma ready_put (l : list tpc) k t t' : l !! k = Some t → ready t' = true →
  ∃ i a, <[k := t']> l !! i = Some a ∧ ready a = true.
Proof.
  intros E Ht. exists k, t'. split; [|done]. by rewrite list_lookup_insert_eq by by eapply lookup_lt_Some.
Qed.
Lemma not_asleep_put (l : list tpc) k t' : (∀ i, l !! i ≠ Some TAsleep) → t' ≠ TAsleep →
  ∀ i, <[k := t']> l !! i ≠ Some TAsleep.
Proof. intros Hl Ht i E. apply list_lookup_insert_Some in E as [(_ & -> & _)|[_ E]]; [done|by eapply Hl]. Qed.

Lemma u32_up x : 0 ≤ x → x + 1 < 4294967296 → u32 (x + 1) = x + 1.
Proof. intros. by apply u32_id; lia. Qed.
Lemma u32_down x : 0 < x → x < 4294967297 → u32 (x - 1) = x - 1.
Proof. intros. by apply u32_id; lia. Qed.

Lemma counted_bound x k t : inv x → threads x !! k = Some t → counted t = 1%nat → 0 < numthreads x.
Proof.
  intros Hi E Ht. destruct (i_threads _ Hi) as [-> _].
  pose proof (sum_positive counted _ _ _ E). lia.
Qed.
(** A thread that is not asleep finds a task only before the shutdown. *)
Lemma queue_open x k t : inv x → threads x !! k = Some t → counted t = 1%nat → taskqueue x ≠ [] →
  shutdown x = false.
Proof.
  intros Hi E Ht Hq. destruct (shutdown x) eqn:Es; [|done].
  pose proof (i_tasks _ Hi) as Hn. rewrite Es in Hn.
  pose proof (counted_bound _ _ _ Hi E Ht). destruct Hn as [?|[? _]]; [lia|done].
Qed.
Lemma open_left x : inv x → shutdown x = false → left_over x = taskqueue x ∧ joinable x = handles x.
Proof.
  intros Hi Es. pose proof (i_phase _ Hi) as Hp. unfold phase, left_over, joinable in *.
  destruct (pcw x) as [[]|]; split; try done; try congruence; by destruct Hp; congruence.
Qed.

(** A turn of the thread [k], which gives tasks out of the front of the queue, and
    keeps the counts. *)
Lemma inv_turn x k t t' q s r n m v c : inv x → threads x !! k = Some t →
  n + Z.of_nat (counted t) = numthreads x + Z.of_nat (counted t') → (counted t' ≤ counted t)%nat →
  v + Z.of_nat (waits t) = waiting x + Z.of_nat (waits t') → 0 ≤ m ≤ numtasks x →
  (if shutdown x then q = taskqueue x ∧ m = numtasks x ∧ (busy t' ≤ busy t)%nat ∧ t' ≠ TAsleep
   else m + Z.of_nat (length (taskqueue x) + busy t) = numtasks x + Z.of_nat (length q + busy t')) →
  (t' ≠ TDead → t ≠ TDead) → (q ≠ [] → ready t' = true ∨ ready t = false) →
  (∃ d, s = started x ++ d ∧ taskqueue x = d ++ q ∧ (shutdown x = false ∨ d = [])) →
  s ++ ran x ++ option_list (task t) ≡ₚ started x ++ r ++ option_list (task t') →
  inv (mk (shutdown x) q (handles x) n m v c (<[k := t']> (threads x)) (clients x) (accepted x) s r).
Proof.
  intros [] E Hn Hle Hv Hm Ht Hd Hrd (d & -> & Hq & Hl) Hs.
  pose proof (lsum_put counted _ _ t' _ E) as Hc. pose proof (lsum_put waits _ _ t' _ E) as Hws.
  pose proof (lsum_put busy _ _ t' _ E) as Hb. pose proof (running_put _ _ _ t' E) as Hr.
  split; cbn; rewrite ?length_insert; auto; try lia.
  - destruct (shutdown x); [|lia]. destruct Ht as (-> & -> & _), i_tasks0; [left|by right]. lia.
  - intros Hsh. rewrite Hsh in Ht. destruct (i_idle0 Hsh), Ht as (_ & _ & ? & ?).
    split; [lia|]. by apply not_asleep_put.
  - intros Hq'. destruct i_ready0 as [?|(i & a & Ei & Ha)]; [by rewrite Hq; destruct d|by left|right].
    destruct (Hrd Hq') as [?|Hf]; [by eapply ready_put|]. exists i, a. split; [|done].
    rewrite list_lookup_insert_ne; [done|]. intros ->. congruence.
  - by eapply kept_live.
  - revert i_phase0. unfold phase, pcw. cbn. destruct (pc <$> _) as [[]|]; try done.
    intros Hp Hsh. rewrite Hsh in Ht. by destruct Ht as [-> _], (Hp Hsh).
  - rewrite i_order0, <- app_assoc. f_equal. revert i_phase0. unfold left_over, phase, pcw. cbn.
    destruct (pc <$> _) as [[]|]; try by rewrite Hq. intros [Hsh _]. destruct Hl as [?| ->]; [congruence|done].
  - apply (Permutation_app_inv_r (ran x ++ option_list (task t))). rewrite Hs, i_ran0.
    transitivity (r ++ ran x ++ (running x ++ option_list (task t'))); [solve_Permutation|].
    rewrite <- Hr. solve_Permutation.
Qed.

Lemma waits_counted l : (sum_list_with waits l ≤ sum_list_with counted l)%nat.
Proof. induction l as [|[] l IH]; cbn; lia. Qed.

(** A thread that leaves its wait, or its task, goes to the top of the loop. *)
Lemma inv_awake x k b : inv x → threads x !! k = Some (TAwake b) →
  inv (at_top k (set_counts x (numthreads x) (numtasks x) (u32 (waiting x - 1)))).
Proof.
  intros Hi E. pose proof (sum_positive waits _ _ _ E) as Hp. cbn in Hp.
  pose proof (waits_counted (threads x)). destruct (i_config _ Hi), (i_threads _ Hi), (i_room _ Hi).
  pose proof (i_waiting _ Hi). apply (inv_turn x k _ TStart _ _ _ _ _ _ _ Hi E); cbn; try done || lia.
  - rewrite u32_down; lia.
  - by destruct (shutdown x).
  - exists []. rewrite app_nil_r. auto.
Qed.
Lemma inv_done x k o : inv x → threads x !! k = Some TDone →
  inv (at_top k (dequeue_Signal o (set_counts x (numthreads x) (u32 (numtasks x - 1)) (waiting x)))).
Proof.
  intros Hi E. pose proof (sum_positive busy _ _ _ E) as Hp. cbn in Hp. destruct (i_room _ Hi).
  assert (Hs : shutdown x = false).
  { destruct (shutdown x) eqn:Es; [|done]. destruct (i_idle _ Hi Es) as [Hz _]. lia. }
  pose proof (i_tasks _ Hi) as Ht. rewrite Hs in Ht.
  change (at_top k (dequeue_Signal o ?y)) with (set_clients (at_top k y) (clients (dequeue_Signal o y))).
  apply inv_roused; [|apply (dequeue_Signal_roused o (set_counts x _ _ _))].
  apply (inv_turn x k _ TStart _ _ _ _ _ _ _ Hi E); cbn; rewrite ?u32_down by lia; try done || lia.
  - rewrite Hs. lia.
  - exists []. rewrite app_nil_r. auto.
Qed.
Lemma inv_ran x k r : inv x → threads x !! k = Some (TRun r) →
  inv (set_ran (set_threads x (<[k := TDone]> (threads x))) (ran x ++ [r])).
Proof.
  intros Hi E. destruct (i_room _ Hi).
  apply (inv_turn x k _ TDone _ _ _ _ _ _ _ Hi E); cbn; try done || lia.
  - by destruct (shutdown x).
  - exists []. rewrite app_nil_r. auto.
  - solve_Permutation.
Qed.
Lemma inv_leave x k : inv x → threads x !! k = Some TLeaving →
  inv (set_threads x (<[k := TDead]> (threads x))).
Proof.
  intros Hi E. destruct (i_room _ Hi).
  apply (inv_turn x k _ TDead _ _ _ _ _ _ _ Hi E); cbn; try done || lia.
  - by destruct (shutdown x).
  - exists []. rewrite app_nil_r. auto.
Qed.

(** The three ways out of the loop. *)
Lemma inv_take x k r q : inv x → threads x !! k = Some TStart → taskqueue x = r :: q →
  inv (set_threads (set_queue x q (started x ++ [r])) (<[k := TRun r]> (threads x))).
Proof.
  intros Hi E Hq. assert (Hs : shutdown x = false) by (eapply queue_open; try done; by rewrite Hq).
  destruct (i_room _ Hi). apply (inv_turn x k _ (TRun r) _ _ _ _ _ _ _ Hi E); cbn; try done || lia.
  - rewrite Hs, Hq. cbn. lia.
  - exists [r]. split; [done|]. split; [done|by left].
  - solve_Permutation.
Qed.
Lemma inv_die x k o : inv x → threads x !! k = Some TStart → taskqueue x = [] →
  inv (let x := set_counts x (u32 (numthreads x - 1)) (numtasks x) (waiting x) in
       let x := dequeue_Signal (o 1%nat) (enqueue_Signal (o 0%nat) (set_handles x (handles x) true)) in
       set_threads x (<[k := TLeaving]> (threads x))).
Proof.
  intros Hi E Hq. cbn zeta. set (y := set_handles _ _ _).
  change (inv (set_clients (set_threads (set_threads y (<[k := TLeaving]> (threads x)))
    (<[k := TLeaving]> (threads (enqueue_Signal (o 0%nat) y)))) (clients (dequeue_Signal (o 1%nat) y)))).
  apply inv_roused; [|apply (dequeue_Signal_roused _ y)].
  apply inv_woken; [|apply Forall2_insert; [apply (enqueue_Signal_woken _ y)|by left]].
  pose proof (counted_bound _ _ _ Hi E eq_refl). destruct (i_config _ Hi), (i_threads _ Hi), (i_room _ Hi).
  apply (inv_turn x k _ TLeaving _ _ _ _ _ _ _ Hi E); cbn; rewrite ?u32_down by lia; try done || lia.
  - by destruct (shutdown x).
  - exists []. rewrite app_nil_r. auto.
Qed.
Lemma inv_sleep x k : inv x → threads x !! k = Some TStart → taskqueue x = [] → shutdown x = false →
  inv (set_threads (set_counts x (numthreads x) (numtasks x) (u32 (waiting x + 1))) (<[k := TAsleep]> (threads x))).
Proof.
  intros Hi E Hq Hs. destruct (i_config _ Hi), (i_threads _ Hi), (i_room _ Hi). pose proof (i_waiting _ Hi).
  pose proof (waits_counted (threads x)).
  assert (sum_list_with waits (threads x) < sum_list_with counted (threads x))%nat.
  { pose proof (lsum_put counted _ _ TDead _ E). pose proof (lsum_put waits _ _ TDead _ E).
    pose proof (waits_counted (<[k := TDead]> (threads x))). cbn in *. lia. }
  apply (inv_turn x k _ TAsleep _ _ _ _ _ _ _ Hi E); cbn; rewrite ?u32_up by lia; try done || lia.
  - rewrite Hs. lia.
  - exists []. rewrite app_nil_r. auto.
Qed.
Lemma inv_loop x k o b : inv x → threads x !! k = Some TStart → inv (loop k o b x).
Proof.
  intros Hi E. unfold loop. destruct (taskqueue x) as [|r q] eqn:Hq; [|by apply inv_take].
  destruct (shutdown x || _) eqn:Es; [by apply inv_die|]. apply orb_false_iff in Es as [Es _].
  assert (He : threads (InternalCleanup x) = threads x ∧ taskqueue (InternalCleanup x) = taskqueue x ∧
    shutdown (InternalCleanup x) = shutdown x) by (unfold InternalCleanup; by destruct (needscleanup x)).
  destruct He as (Et & Eq & Esh). apply inv_sleep; rewrite ?Et, ?Eq, ?Esh; try done. by apply inv_cleanup.
Qed.
Lemma top_lookup x k t : threads x !! k = Some t → threads (at_top k x) !! k = Some TStart.
Proof. intros E. cbn. apply list_lookup_insert_eq. by eapply lookup_lt_Some. Qed.
Lemma thread_keeps k o x y : inv x → thread_step k o x = Some y → inv y.
Proof.
  intros Hi Hs. unfold thread_step in Hs. destruct (threads x !! k) as [t|] eqn:E; [|done].
  destruct t; simplify_eq.
  - by apply inv_loop.
  - apply inv_loop; [by eapply inv_awake|]. by eapply top_lookup.
  - by apply inv_ran.
  - apply inv_loop; [by apply inv_done|]. by eapply top_lookup.
  - by apply inv_leave.
Qed.

(** *** The clients *)
Lemma pcw_put x i cs p c : clients x !! i = Some c →
  pcw (put_client i cs (x, p)) = if decide (i = w) then Some p else pcw x.
Proof.
  intros E. unfold pcw. cbn. case_decide as Hi; subst.
  - by rewrite list_lookup_insert_eq by by eapply lookup_lt_Some.
  - by rewrite list_lookup_insert_ne.
Qed.
(** A client that goes on, with the state as it is. *)
Lemma inv_client x i c p cs : inv x → clients x !! i = Some c →
  (executes (mk_client p cs) ≤ executes c)%nat →
  (i ≠ w → (∃ o, p = CIdle o) ∧ ∀ a, a ∈ cs → is_execute a = true) →
  (i = w → let y := put_client i cs (x, p) in
    left_over y = left_over x ∧ (∀ k, k ∈ joinable x → k ∈ joinable y ∨ threads x !! k = Some TDead) ∧
    (∀ k, k ∈ joinable y → k ∈ joinable x ∨ k ∈ handles x) ∧ phase y) →
  inv (put_client i cs (x, p)).
Proof.
  intros Hi E He Hother Hw. pose proof (pcw_put x i cs p c E) as Hp.
  pose proof (lsum_put executes _ _ (mk_client p cs) _ E) as Hs.
  assert (Hj : let y := put_client i cs (x, p) in
    left_over y = left_over x ∧ (∀ k, k ∈ joinable x → k ∈ joinable y ∨ threads x !! k = Some TDead) ∧
    (∀ k, k ∈ joinable y → k ∈ joinable x ∨ k ∈ handles x) ∧ phase y).
  { destruct (decide (i = w)); [by apply Hw|]. cbn zeta. pose proof (i_phase _ Hi) as Hph. revert Hph.
    unfold left_over, joinable, phase. rewrite Hp. cbn. destruct (pcw x) as [[]|]; auto. }
  destruct Hj as (El & Hj1 & Hj2 & Hph), Hi. split; rewrite ?El; cbn; auto; try lia.
  - intros k t Ek Ht. destruct (Hj1 k) as [?|Hd]; [by eauto|done|]. congruence.
  - intros k [Hk|Hk]; [|by auto]. destruct (Hj2 _ Hk); auto.
  - intros j c' Ej Hne. apply list_lookup_insert_Some in Ej as [(<- & <- & _)|[_ Ej]]; [by apply Hother|by eauto].
Qed.

Lemma must_wait_open x : inv x → must_wait x = true → shutdown x = false.
Proof.
  intros Hi Hm. pose proof (i_tasks _ Hi) as Ht. destruct (shutdown x); [|done].
  unfold must_wait in Hm. apply andb_true_iff in Hm as [Hm1 Hm2].
  apply negb_true_iff, Z.eqb_neq in Hm1, Hm2. by destruct Ht as [?|[_ ?]].
Qed.
Lemma must_wait_busy x : inv x → shutdown x = false → must_wait x = false → tsum busy x = O.
Proof.
  intros Hi Hs Hm. pose proof (i_tasks _ Hi) as Ht. rewrite Hs in Ht. destruct (i_threads _ Hi) as [Hn _].
  assert (tsum busy x ≤ tsum counted x)%nat by (clear; induction (threads x) as [|[] l IH]; cbn; lia).
  unfold must_wait in Hm. apply andb_false_iff in Hm as [Hm|Hm]; apply negb_false_iff, Z.eqb_eq in Hm; lia.
Qed.

(** [Execute]: the cleaning, the new thread and the signal, and then the task. *)
Definition push (r : nat) (x : pool) : pool :=
  set_accepted (set_queue (set_counts x (numthreads x) (u32 (numtasks x + 1)) (waiting x))
    (taskqueue x ++ [r]) (started x)) (accepted x ++ [r]).
Definition spawn_if x := if (waiting x =? 0) && (numthreads x <? maxthreads) then Spawn x else x.
Lemma Execute_parts o r x i cs : shutdown x = false →
  put_client i cs (start o (Execute r) x) =
  push r (enqueue_Signal (o 0%nat) (spawn_if (InternalCleanup (put_client i cs (x, CIdle (Ok tt)))))).
Proof.
  intros Hs. destruct x. cbn in Hs. subst. unfold start, spawn_if, InternalCleanup, Spawn. cbn.
  destruct needscleanup0; cbn; destruct ((waiting0 =? 0) && (numthreads0 <? maxthreads)); reflexivity.
Qed.
Lemma inv_spawn x : inv x → shutdown x = false → numthreads x < maxthreads → inv (Spawn x).
Proof.
  intros Hi Hs Hlt. destruct (open_left _ Hi Hs) as [El Ej]. pose proof Hi as [].
  unfold Spawn. rewrite Hs in *. cbn.
  assert (Hj : ∀ h b n m v l, joinable (set_threads (set_counts (set_handles x h b) n m v) l) = h).
  { intros. revert i_phase0. unfold joinable, phase, pcw. cbn. rewrite Hs.
    by destruct (pc <$> _) as [[]|]. }
  change (inv (set_counts (set_threads (set_handles x (length (threads x) :: handles x) (needscleanup x))
    (threads x ++ [TStart])) (u32 (numthreads x + 1)) (numtasks x) (waiting x))).
  split; cbn; rewrite ?Hs, ?sum_list_with_app, ?length_app, ?omap_app, ?app_nil_r; cbn;
    rewrite ?app_nil_r, ?Nat.add_0_r; auto; try done; try lia.
  - rewrite u32_up; lia.
  - intros Hq. destruct (i_ready0 Hq) as [?|(k & t & E & Ht)]; [by left|right]. exists k, t.
    split; [|done]. by apply lookup_app_l_Some.
  - intros k t E Ht. change (k ∈ joinable (set_threads (set_counts (set_handles x (length (threads x) :: handles x)
      (needscleanup x)) (u32 (numthreads x + 1)) (numtasks x) (waiting x)) (threads x ++ [TStart]))).
    rewrite Hj. apply lookup_app_Some in E as [E|[? E]].
    + rewrite Ej in i_live0. set_solver.
    + destruct (k - length (threads x))%nat as [|[]] eqn:Ek; [|done..]. replace k with (length (threads x)) by lia. set_solver.
  - change (joinable _) with (joinable (set_threads (set_counts (set_handles x (length (threads x) :: handles x)
      (needscleanup x)) (u32 (numthreads x + 1)) (numtasks x) (waiting x)) (threads x ++ [TStart]))).
    rewrite Hj. intros k Hk. assert (Hk' : k = length (threads x) ∨ k ∈ handles x) by set_solver.
    destruct Hk' as [->|Hk']; [lia|]. specialize (i_known0 k (or_intror Hk')). lia.
  - revert i_phase0. unfold phase, pcw. cbn. rewrite Hs. by destruct (pc <$> _) as [[]|]; intuition.
Qed.
Lemma inv_push x r : inv x → shutdown x = false →
  numtasks x + 1 + Z.of_nat (sum_list_with executes (clients x)) < 4294967296 →
  (maxthreads = 0 ∨ ∃ k t, threads x !! k = Some t ∧ ready t = true) → inv (push r x).
Proof.
  intros Hi Hs Hlt Hrd. destruct (open_left _ Hi Hs) as [El Ej]. pose proof Hi as [].
  split; cbn; rewrite ?Hs in *; auto; try done.
  - rewrite u32_up; lia.
  - rewrite u32_up, length_app by lia. cbn. lia.
  - revert i_phase0. unfold phase, pcw. cbn. rewrite Hs. by destruct (pc <$> _) as [[]|].
  - rewrite i_order0, El, <- app_assoc. f_equal. revert i_phase0. unfold left_over, phase, pcw. cbn. rewrite Hs.
    destruct (pc <$> _) as [[]|]; try done. by intros [? _].
Qed.

Lemma sum_witness {A} (f : A → nat) l : sum_list_with f l ≠ O → ∃ k a, l !! k = Some a ∧ f a ≠ O.
Proof.
  induction l as [|a l IH]; cbn; [done|]. intros Hs. destruct (decide (f a = O)) as [Ha|]; [|by exists O, a].
  destruct IH as (k & b & ? & ?); [lia|]. by exists (S k), b.
Qed.
Lemma woken_ready l l' k t : Forall2 woken l l' → l !! k = Some t → ready t = true →
  ∃ i a, l' !! i = Some a ∧ ready a = true.
Proof.
  intros Hl E Ht. destruct (Forall2_lookup_l _ _ _ _ _ Hl E) as (t' & E' & [->|[-> ?]]); [by eauto|done].
Qed.
(** After a signal, one who was given a task is ready to take it. *)
Lemma ready_after x o : inv x → shutdown x = false →
  maxthreads = 0 ∨ ∃ k t, threads (enqueue_Signal o (spawn_if x)) !! k = Some t ∧ ready t = true.
Proof.
  intros Hi Hs. pose proof (i_waiting _ Hi) as Hw. destruct (i_threads _ Hi) as [Hn Hle].
  assert (Hk : ∀ z k t, threads z !! k = Some t → ready t = true →
    ∃ i a, threads (enqueue_Signal o z) !! i = Some a ∧ ready a = true).
  { intros z k t E Ht. by eapply (woken_ready (threads z)), Ht; [apply enqueue_Signal_woken|]. }
  unfold spawn_if. destruct (Z.eqb_spec (waiting x) 0) as [Hz|Hz]; cbn [andb].
  - destruct (Z.ltb_spec (numthreads x) maxthreads) as [Hlt|Hge].
    + right. eapply (Hk _ (length (threads x)) TStart); [|done]. unfold Spawn. rewrite Hs. cbn.
      apply list_lookup_middle. done.
    + destruct (decide (maxthreads = 0)); [by left|right]. destruct (i_config _ Hi).
      destruct (sum_witness counted (threads x)) as (k & t & E & Ht); [lia|].
      eapply (Hk x k t E). pose proof (sum_zero waits (threads x) ltac:(lia) _ _ E). by destruct t.
  - right. destruct (sum_witness waits (threads x)) as (k & t & E & Ht); [lia|].
    destruct t; try done; [|by eapply (Hk x k)]. cbn.
    destruct (signal_cases is_asleep (λ _, TAwake false) o (threads x)) as [[_ Hno]|(i & a & Ei & _ & ->)].
    + by specialize (Hno _ _ E).
    + exists i, (TAwake false). by rewrite list_lookup_insert_eq by by eapply lookup_lt_Some.
Qed.

Lemma executes_tail p p' a cs : executes (mk_client p' (a :: cs)) =
  (executes (mk_client p cs) + if is_execute a then 1 else 0)%nat.
Proof. unfold executes. cbn [todo]. rewrite filter_cons. destruct (is_execute a); case_decide; cbn; try done; lia. Qed.

(** A client that turns idle, or goes to wait. *)
Lemma inv_idle x i c o cs : inv x → clients x !! i = Some c → (∀ a, a ∈ cs → a ∈ todo c) →
  (executes (mk_client (CIdle o) cs) ≤ executes c)%nat →
  match pc c with CJoin _ | CLeft _ => False | _ => True end → inv (put_client i cs (x, CIdle o)).
Proof.
  intros Hi E Hcs He Hpc. eapply inv_client; try done.
  - intros Hne. split; [by eauto|]. intros a Ha. by apply (i_others _ Hi _ _ E Hne), Hcs.
  - intros ->. cbn zeta. pose proof (pcw_put x w cs (CIdle o) c E) as Hp. rewrite decide_True in Hp by done.
    pose proof (i_phase _ Hi) as Hph. revert Hph. unfold left_over, joinable, phase. rewrite Hp.
    unfold pcw. rewrite E. cbn. destruct (pc c); try done; intros Hph; (split; [done|split; [by auto|split; [by auto|]]]);
    cbn; intros; intuition congruence.
Qed.
Lemma inv_wait x c p cs : inv x → clients x !! w = Some c → shutdown x = false →
  (executes (mk_client p cs) ≤ executes c)%nat →
  match p with CWaiting _ | CShutting _ => True | _ => False end → inv (put_client w cs (x, p)).
Proof.
  intros Hi E Hs He Hpc. eapply inv_client; try done. intros _. cbn zeta.
  pose proof (pcw_put x w cs p c E) as Hp. rewrite decide_True in Hp by done.
  destruct (open_left _ Hi Hs) as [-> ->]. unfold left_over, joinable, phase. rewrite Hp. cbn.
  destruct p; try done; repeat split; auto.
Qed.

Lemma inv_execute x i c o r cs : inv x → clients x !! i = Some c → todo c = Execute r :: cs →
  (∃ o, pc c = CIdle o) → inv (put_client i cs (start o (Execute r) x)).
Proof.
  intros Hi E Ht [v Hpc]. assert (He : ∀ o, executes c = S (executes (mk_client (CIdle o) cs))).
  { intros o'. destruct c as [p l]. cbn in Ht. subst l. by rewrite (executes_tail (CIdle o')), Nat.add_1_r. }
  assert (Hidle : ∀ o, inv (put_client i cs (x, CIdle o))).
  { intros o'. eapply inv_idle; try done; [rewrite Ht; set_solver|rewrite (He o'); lia|by rewrite Hpc]. }
  destruct (shutdown x) eqn:Hs; [by cbn; rewrite Hs|]. rewrite Execute_parts by done.
  pose proof (inv_cleanup _ (Hidle (Ok tt))) as Hc. set (z := InternalCleanup _) in *.
  assert (Hz : shutdown z = false ∧ numtasks z = numtasks x ∧
    clients z = <[i := mk_client (CIdle (Ok tt)) cs]> (clients x)).
  { subst z. unfold InternalCleanup. cbn. by destruct (needscleanup x). }
  destruct Hz as (Hzs & Hzn & Hzc).
  assert (Hsp : inv (spawn_if z) ∧ shutdown (spawn_if z) = false ∧ numtasks (spawn_if z) = numtasks z ∧
    clients (spawn_if z) = clients z).
  { unfold spawn_if. destruct (_ && _) eqn:Eb; [|done]. apply andb_true_iff in Eb as [_ Eb].
    split; [apply inv_spawn; [done..|lia]|]. unfold Spawn. by rewrite Hzs. }
  destruct Hsp as (Hsi & Hss & Hsn & Hsc). apply inv_push; [|done| |by apply ready_after].
  - apply (inv_woken (spawn_if z) _ Hsi), enqueue_Signal_woken.
  - change (numtasks (enqueue_Signal ?o ?y)) with (numtasks y). change (clients (enqueue_Signal ?o ?y)) with (clients y).
    rewrite Hsn, Hsc, Hzn, Hzc. pose proof (lsum_put executes _ _ (mk_client (CIdle (Ok tt)) cs) _ E) as Hsum.
    rewrite (He (Ok tt)) in Hsum. destruct (i_room _ Hi). lia.
Qed.

(** [Shutdown], once nothing is to be waited for: first everybody is woken. *)
Lemma inv_shut x c cs : inv x → clients x !! w = Some c → must_wait x = false →
  (∀ k, threads x !! k ≠ Some TAsleep) → (executes (mk_client (CJoin (handles x)) cs) ≤ executes c)%nat →
  match pc c with CJoin _ | CLeft _ => False | _ => True end →
  inv (put_client w cs (set_shutdown x, CJoin (handles x))).
Proof.
  intros Hi E Hm Ha He Hpc. pose proof (pcw_put (set_shutdown x) w cs (CJoin (handles x)) c E) as Hp.
  rewrite decide_True in Hp by done. pose proof (lsum_put executes _ _ (mk_client (CJoin (handles x)) cs) _ E) as Hs.
  assert (Hj : joinable x = handles x ∧ left_over x = taskqueue x).
  { unfold joinable, left_over, pcw. rewrite E. cbn. by destruct (pc c). }
  destruct Hj as [Ej El]. pose proof (must_wait_busy x Hi) as Hb. pose proof Hi as [].
  assert (Hz : numthreads x = 0 ∨ taskqueue x = [] ∧ numtasks x = 0).
  { destruct (shutdown x); [done|]. unfold must_wait in Hm.
    apply andb_false_iff in Hm as [Hm|Hm]; apply negb_false_iff, Z.eqb_eq in Hm; [right|by left].
    split; [|done]. apply nil_length_inv. lia. }
  split; unfold left_over, joinable, phase; rewrite ?Hp; cbn; auto; try lia.
  - intros _. split; [|done]. destruct (shutdown x) eqn:Hsh; [|by apply Hb]. by destruct (i_idle0 eq_refl).
  - intros k t Ek Ht. rewrite <- Ej. by eauto.
  - intros k Hk. apply i_known0. right. by destruct Hk.
  - intros j c' Ej' Hne. apply list_lookup_insert_Some in Ej' as [(<- & _)|[_ Ej']]; [done|by eauto].
  - by rewrite i_order0, El.
Qed.
Lemma broadcast_awake x k : threads (enqueue_Broadcast x) !! k ≠ Some TAsleep.
Proof.
  cbn. rewrite list_lookup_fmap. destruct (threads x !! k) as [[]|]; cbn; congruence.
Qed.
Lemma inv_begin x c cs : inv x → clients x !! w = Some c → must_wait x = false →
  (executes (mk_client (CIdle (Ok tt)) cs) ≤ executes c)%nat →
  match pc c with CJoin _ | CLeft _ => False | _ => True end → inv (put_client w cs (begin_shutdown x)).
Proof.
  intros Hi E Hm He Hpc.
  change (put_client w cs (begin_shutdown x)) with
    (put_client w cs (set_shutdown (enqueue_Broadcast (dequeue_Broadcast x)), CJoin (handles x))).
  eapply (inv_shut (enqueue_Broadcast (dequeue_Broadcast x)) (rouse c)).
  - apply inv_woken; [|apply enqueue_Broadcast_woken]. apply inv_roused; [done|apply dequeue_Broadcast_roused].
  - cbn. by rewrite list_lookup_fmap, E.
  - exact Hm.
  - apply broadcast_awake.
  - destruct c as [[] ?]; done.
  - by destruct c as [[] ?].
Qed.

(** The client that joined a thread, all of them, or ran a task that was left. *)
Lemma inv_join x c k l : inv x → clients x !! w = Some c → pc c = CJoin (k :: l) → Done x k = true →
  inv (put_client w (todo c) (x, CJoin l)).
Proof.
  intros Hi E Hpc Hd. eapply inv_client; try done. intros _. cbn zeta.
  pose proof (pcw_put x w (todo c) (CJoin l) c E) as Hp. rewrite decide_True in Hp by done.
  pose proof (i_phase _ Hi) as Hph. revert Hph. unfold left_over, joinable, phase. rewrite Hp. unfold pcw.
  rewrite E. cbn. rewrite Hpc. intros Hph. split; [done|]. split; [|split; [|done]]; intros j Hj; [|left; by right].
  apply elem_of_cons in Hj as [->|?]; [right|by left]. unfold Done in Hd.
  by destruct (threads x !! k) as [[]|].
Qed.
Lemma inv_closing x c q h s r p : inv x → clients x !! w = Some c → shutdown x = true →
  q = taskqueue x ∨ q = [] → h = handles x ∨ h = [] → s ++ ran x ≡ₚ started x ++ r →
  let y := put_client w (todo c) (mk (shutdown x) q h (numthreads x) (numtasks x) (waiting x) (needscleanup x)
    (threads x) (clients x) (accepted x) s r, p) in
  joinable y = joinable x → started x ++ left_over x = s ++ left_over y → phase y → inv y.
Proof.
  intros Hi E Hs Hq Hh Hr y Hj Hl Hp. pose proof (lsum_put executes _ _ (mk_client p (todo c)) _ E) as Hsum.
  change (executes (mk_client _ (todo c))) with (executes c) in Hsum. destruct Hi. rewrite Hs in i_tasks0.
  split; rewrite ?Hj; cbn; rewrite ?Hs; auto; try lia.
  - destruct Hq as [->| ->], i_tasks0 as [?|[? ?]]; auto.
  - destruct Hq as [->| ->]; auto.
  - intros k [?|Hk]; [by auto|]. apply i_known0. destruct Hh as [->| ->]; [by right|]. by apply not_elem_of_nil in Hk.
  - intros j c' Ej' Hne. apply list_lookup_insert_Some in Ej' as [(<- & _)|[_ Ej']]; [done|by eauto].
  - by rewrite i_order0.
  - apply (Permutation_app_inv_r (ran x)). rewrite Hr, i_ran0. solve_Permutation.
Qed.
Lemma inv_joined x c : inv x → clients x !! w = Some c → pc c = CJoin [] →
  inv (put_client w (todo c) (set_handles x [] (needscleanup x), CLeft (taskqueue x))).
Proof.
  intros Hi E Hpc. set (p := CLeft _). pose proof (pcw_put (set_handles x [] (needscleanup x)) w (todo c) p c E) as Hp.
  rewrite decide_True in Hp by done. pose proof (i_phase _ Hi) as Hph.
  assert (Hx : pcw x = Some (CJoin [])) by (unfold pcw; by rewrite E, <- Hpc).
  unfold phase in Hph. rewrite Hx in Hph.
  apply (inv_closing x c (taskqueue x) [] (started x) (ran x) p Hi E); auto;
    unfold joinable, left_over, phase; rewrite ?Hx;
    change (mk _ _ _ _ _ _ _ _ _ _ _ _) with (set_handles x [] (needscleanup x)); by rewrite Hp.
Qed.
Lemma inv_left x c r l : inv x → clients x !! w = Some c → pc c = CLeft (r :: l) →
  inv (put_client w (todo c) (set_ran (set_queue x (taskqueue x) (started x ++ [r])) (ran x ++ [r]), CLeft l)).
Proof.
  intros Hi E Hpc. pose proof (pcw_put (set_ran (set_queue x (taskqueue x) (started x ++ [r])) (ran x ++ [r]))
    w (todo c) (CLeft l) c E) as Hp.
  rewrite decide_True in Hp by done. pose proof (i_phase _ Hi) as Hph.
  assert (Hx : pcw x = Some (CLeft (r :: l))) by (unfold pcw; by rewrite E, <- Hpc).
  unfold phase in Hph. rewrite Hx in Hph. destruct Hph as [Hs Hh].
  apply (inv_closing x c (taskqueue x) (handles x) (started x ++ [r]) (ran x ++ [r]) (CLeft l) Hi E); auto;
    [solve_Permutation|..]; unfold joinable, left_over, phase; rewrite ?Hx;
    change (mk _ _ _ _ _ _ _ _ _ _ _ _) with (set_ran (set_queue x (taskqueue x) (started x ++ [r])) (ran x ++ [r]));
    rewrite Hp; by rewrite <- ?app_assoc.
Qed.
Lemma inv_over x c : inv x → clients x !! w = Some c → pc c = CLeft [] →
  inv (put_client w (todo c) (set_queue x [] (started x), CIdle (Ok tt))).
Proof.
  intros Hi E Hpc. pose proof (pcw_put (set_queue x [] (started x)) w (todo c) (CIdle (Ok tt)) c E) as Hp.
  rewrite decide_True in Hp by done. pose proof (i_phase _ Hi) as Hph.
  assert (Hx : pcw x = Some (CLeft [])) by (unfold pcw; by rewrite E, <- Hpc).
  unfold phase in Hph. rewrite Hx in Hph. destruct Hph as [Hs Hh].
  apply (inv_closing x c [] (handles x) (started x) (ran x) (CIdle (Ok tt)) Hi E); auto;
    unfold joinable, left_over, phase; rewrite ?Hx;
    change (mk _ _ _ _ _ _ _ _ _ _ _ _) with (set_queue x [] (started x)); by rewrite Hp.
Qed.

(** *** All steps *)
Lemma client_keeps i o x y : inv x → client_step i o x = Some y → inv y.
Proof.
  intros Hi Hs. unfold client_step in Hs. destruct (clients x !! i) as [c|] eqn:E; [|done]. cbn in Hs.
  assert (Hiw : (∃ v, pc c = CIdle v) ∧ (∀ a, a ∈ todo c → is_execute a = true) ∨ i = w).
  { destruct (decide (i = w)); [by right|left]. by apply (i_others _ Hi _ _ E). }
  assert (Hidle : ∀ v, match pc c with CJoin _ | CLeft _ => False | _ => True end →
    inv (put_client i (todo c) (x, CIdle v))) by (intros v ?; by eapply inv_idle).
  assert (Hwait : must_wait x = true → i = w → ∀ p, match p with CWaiting _ | CShutting _ => True | _ => False end →
    inv (put_client i (todo c) (x, p))) by (intros ? -> p Hp; eapply inv_wait; try done; by apply must_wait_open).
  destruct (pc c) as [v|[]|[]|l|l] eqn:Hpc; [|destruct Hiw as [[[? ?] _]|Ew]; [done|]..]; cbn in Hs; try done.
  - destruct (todo c) as [|a cs] eqn:Ht; [done|]. simplify_eq.
    assert (He : ∀ p, (executes (mk_client p cs) ≤ executes c)%nat).
    { intros p. destruct c as [p0 l]. cbn in Ht. subst l. rewrite (executes_tail p). lia. }
    assert (Hi' : ∀ u, inv (put_client i cs (x, CIdle u))).
    { intros u. eapply inv_idle; try done; [rewrite Ht; set_solver|by rewrite Hpc]. }
    destruct a as [r| |]; [by eapply inv_execute; eauto|..];
      (destruct Hiw as [[_ Hex]|Ew]; [by discriminate (Hex _ (list_elem_of_here _ _))|]); try subst i; cbn.
    + destruct (shutdown x) eqn:Hs; [done|]. destruct (must_wait x); [|done]. by eapply inv_wait.
    + destruct (must_wait x) eqn:Hm; [|by eapply inv_begin; eauto; rewrite Hpc].
      eapply inv_wait; try done. by apply must_wait_open.
  - simplify_eq. destruct (must_wait x) eqn:Hm; [by apply Hwait|by apply Hidle].
  - simplify_eq. try subst i. destruct (must_wait x) eqn:Hm; [by apply Hwait|]. eapply inv_begin; eauto. by rewrite Hpc.
  - try subst i. destruct l as [|k l]; cbn in Hs; [simplify_eq; by apply inv_joined|].
    destruct (Done x k) eqn:Hd; cbn in Hs; simplify_eq. by eapply inv_join.
  - try subst i. destruct l as [|r l]; cbn in Hs; simplify_eq; [by apply inv_over|by apply inv_left].
Qed.
Lemma pool_step_inv r x y : inv x → step r x y → inv y.
Proof.
  intros Hi Hs. destruct Hs as [[k|i] o x y Hg|k x _ E|k x E|i c x E Ha|x].
  - by eapply thread_keeps.
  - by eapply client_keeps.
  - apply inv_woken; [done|]. eapply Forall2_put; [apply _|done|]. right. by eauto.
  - apply inv_woken; [done|]. eapply Forall2_put; [apply _|done|]. right. by eauto.
  - apply inv_roused; [done|]. eapply Forall2_put; [apply _|done|]. by right.
  - done.
Qed.

(** *** Nobody sleeps for nothing *)
Definition awake (x : pool) : Prop := ∀ c, clients x !! w = Some c → client_asleep c = false.
Lemma awake_sleeps x : awake x → sleeps_for x.
Proof. intros Ha c E Hs. by rewrite (Ha c E) in Hs. Qed.
Lemma roused_awake c c' : roused c c' → client_asleep c' = true → c' = c.
Proof. intros [->|[_ ->]]; [done|]. by destruct c as [[] ?]. Qed.
Lemma roused_sleeps x y : Forall2 roused (clients x) (clients y) → must_wait y = must_wait x →
  sleeps_for x → sleeps_for y.
Proof.
  intros Hl Hm Hs c E Ha. destruct (Forall2_lookup_r _ _ _ _ _ Hl E) as (c0 & E0 & Hr).
  rewrite Hm. apply (Hs c0 E0). by rewrite <- (roused_awake _ _ Hr Ha).
Qed.
Lemma signal_awake o x : inv x → awake (dequeue_Signal o x).
Proof.
  intros Hi c. cbn. destruct (signal_cases client_asleep rouse o (clients x)) as [[-> Hn]|(i & a & E & Ha & ->)].
  - intros E. by eapply Hn.
  - destruct (decide (i = w)) as [->|Hne].
    + rewrite list_lookup_insert_eq by by eapply lookup_lt_Some. intros [= <-]. unfold rouse, client_asleep.
      by destruct a as [[] ?].
    + destruct (i_others _ Hi _ _ E Hne) as [[v Hv] _]. unfold client_asleep in Ha. by rewrite Hv in Ha.
Qed.
Lemma loop_sleeps k o b x : inv x → sleeps_for x → sleeps_for (loop k o b x).
Proof.
  intros Hi Hs. unfold loop. destruct (taskqueue x); [|done]. destruct (_ || _).
  - apply awake_sleeps. set (y := set_handles _ _ _). intros c E.
    apply (signal_awake (o 1%nat) x Hi c). exact E.
  - unfold InternalCleanup. by destruct (needscleanup x).
Qed.
Lemma thread_sleeps k o x y : inv x → sleeps_for x → thread_step k o x = Some y → sleeps_for y.
Proof.
  intros Hi Hs Ht. unfold thread_step in Ht. destruct (threads x !! k) as [t|] eqn:E; [|done].
  destruct t; simplify_eq; try done.
  - by apply loop_sleeps.
  - apply loop_sleeps; [by eapply inv_awake|done].
  - apply loop_sleeps; [by apply inv_done|]. apply awake_sleeps. intros c Ec.
    apply (signal_awake (o 2%nat) x Hi c). exact Ec.
Qed.
Lemma Execute_keeps o r x : inv x → (∃ c, c ∈ clients x ∧ executes c ≠ O) →
  clients (start o (Execute r) x).1 = clients x ∧
  (must_wait x = true → must_wait (start o (Execute r) x).1 = true).
Proof.
  intros Hi (c & Hc & He). destruct (i_room _ Hi), (i_config _ Hi), (i_threads _ Hi).
  apply list_elem_of_lookup in Hc as [i E]. pose proof (sum_positive executes _ _ _ E).
  cbn. destruct (shutdown x) eqn:Hs; [done|]. unfold InternalCleanup, Spawn, must_wait. cbn.
  destruct (needscleanup x); cbn; rewrite Hs; destruct (_ && _) eqn:Eb; cbn; (split; [done|]);
    rewrite !andb_true_iff, !negb_true_iff, !Z.eqb_neq; rewrite ?u32_up in * by lia; lia.
Qed.
Lemma client_sleeps i o x y : inv x → sleeps_for x → client_step i o x = Some y → sleeps_for y.
Proof.
  intros Hi Hs Hc. unfold client_step in Hc. destruct (clients x !! i) as [c|] eqn:E; [|done]. cbn in Hc.
  destruct (decide (i = w)) as [->|Hne].
  - assert (Hp : ∀ cs z p, clients z !! w = Some c ∨ (∃ c, clients z !! w = Some c) →
      (match p with CWaiting true | CShutting true => must_wait z = true | _ => True end) →
      sleeps_for (put_client w cs (z, p))).
    { intros cs z p Hz Hp c' E' Ha. assert (is_Some (clients z !! w)) as [? Ez] by (destruct Hz as [?|[? ?]]; eauto).
      cbn in E'. rewrite list_lookup_insert_eq in E' by by eapply lookup_lt_Some. simplify_eq.
      unfold client_asleep in Ha. cbn in Ha. by destruct p as [|[]|[]| |]. }
    assert (Hb : ∀ cs, sleeps_for (put_client w cs (begin_shutdown x))).
    { intros cs. apply Hp; [|done]. right. cbn. rewrite list_lookup_fmap, E. by eauto. }
    destruct (pc c) as [v|[]|[]|l|l] eqn:Hpc; cbn in Hc; try done.
    + destruct (todo c) as [|a cs] eqn:Ht; [done|]. simplify_eq. destruct a as [r| |]; cbn.
      * destruct (shutdown x); [by apply Hp; [left|]|]. apply Hp; [|done]. left.
        unfold InternalCleanup, Spawn. destruct (needscleanup _); cbn; destruct (_ && _); cbn; by destruct (shutdown x).
      * destruct (shutdown x); [by apply Hp; [left|]|]. destruct (must_wait x) eqn:Hm; by apply Hp; [left|].
      * destruct (must_wait x) eqn:Hm; [by apply Hp; [left|]|apply Hb].
    + simplify_eq. destruct (must_wait x) eqn:Hm; by apply Hp; [left|].
    + simplify_eq. destruct (must_wait x) eqn:Hm; [by apply Hp; [left|]|apply Hb].
    + destruct l as [|k l]; cbn in Hc; [simplify_eq; by apply Hp; [left|]|].
      destruct (Done x k); cbn in Hc; simplify_eq. by apply Hp; [left|].
    + destruct l as [|r l]; cbn in Hc; simplify_eq; by apply Hp; [left|].
  - destruct (i_others _ Hi _ _ E Hne) as [[v Hv] Hex]. rewrite Hv in Hc.
    destruct (todo c) as [|a cs] eqn:Ht; [done|]. simplify_eq.
    destruct a as [r| |]; try discriminate (Hex _ (list_elem_of_here _ _)).
    destruct (Execute_keeps o r x Hi) as [Hcl Hm].
    { exists c. split; [by eapply list_elem_of_lookup_2|]. unfold executes. by rewrite Ht. }
    intros c' E' Ha. cbn [put_client set_clients clients] in E'.
    rewrite Hcl, list_lookup_insert_ne in E' by done. apply Hm. by eapply Hs.
Qed.
Lemma step_sleeps r x y : inv x → sleeps_for x → step r x y → sleeps_for y.
Proof.
  intros Hi Hs Ht. destruct Ht as [[k|i] o x y Hg|k x _ E|k x E|i c x E Ha|x]; try done.
  - by eapply thread_sleeps.
  - by eapply client_sleeps.
  - apply (roused_sleeps x); [|done..]. eapply Forall2_put; [apply _|done|]. by right.
Qed.
Lemma steps_inv x0 x : initial x0 → one_waits w x0 → steps x0 x → inv x ∧ sleeps_for x.
Proof.
  intros H0 Hw Hs. destruct (fresh_inv x0 H0 Hw) as [Hi Hz]. clear H0 Hw.
  induction Hs as [x|x y z [r Hr] _ IH]; [done|]. apply IH; [by eapply pool_step_inv|by eapply step_sleeps].
Qed.

(** ** Every call returns *)
Definition tw (t : tpc) : nat :=
  match t with TStart => 4 | TAsleep | TAwake _ => 3 | TRun _ => 8 | TDone => 6 | TLeaving => 1 | TDead => 0 end.
Definition cw (c : client) : nat :=
  20 * length (todo c) + match pc c with CIdle _ => 0 | CWaiting _ => 1 | CShutting _ => 4 | CJoin _ => 3 | CLeft _ => 2 end.
Definition cl (c : client) : nat := match pc c with CJoin l | CLeft l => length l | _ => 0 end.
Definition dozing (t : tpc) : nat := if is_asleep t then 1 else 0.
Definition main (x : pool) : nat :=
  sum_list_with cw (clients x) + 10 * length (taskqueue x) + sum_list_with tw (threads x).
Definition measure (x : pool) : nat * nat * nat :=
  (main x, match taskqueue x with [] => O | _ => sum_list_with dozing (threads x) end,
   sum_list_with cl (clients x)).

Definition active (t : tpc) : bool := match t with TStart | TRun _ | TDone | TLeaving => true | _ => false end.
Definition is_awake (t : tpc) : bool := match t with TAwake _ => true | _ => false end.
Definition is_over (c : client) : bool :=
  match pc c, todo c with CIdle _, [] => true | _, _ => false end.
Definition over (x : pool) : Prop := Forall (λ c, is_over c = true) (clients x).
Definition first {A} (f : A → bool) (l : list A) : option nat := fst <$> list_find (λ a, f a = true) l.
(** Who brings the pool on: a thread that can go on, or the one that is to take a
    task, or a client, or whom it joins. *)
Definition next_client (x : pool) : tid :=
  match first (λ c, negb (is_over c)) (clients x) with
  | None => Client O
  | Some i => match pc <$> clients x !! i with
              | Some (CJoin (k :: _)) => if Done x k then Client i else Worker k
              | _ => Client i
              end
  end.
Definition helpful (x : pool) : tid :=
  match first active (threads x), taskqueue x, first is_awake (threads x) with
  | Some k, _, _ => Worker k
  | None, _ :: _, Some k => Worker k
  | None, _, _ => next_client x
  end.

Lemma first_Some {A} (f : A → bool) l i : first f l = Some i → ∃ a, l !! i = Some a ∧ f a = true.
Proof.
  unfold first. destruct (list_find _ l) as [[j a]|] eqn:E; [|done]. intros [= <-].
  apply list_find_Some in E as (? & ? & _). by eauto.
Qed.
Lemma first_None {A} (f : A → bool) l i a : first f l = None → l !! i = Some a → f a = false.
Proof.
  unfold first. destruct (list_find _ l) as [[j b]|] eqn:E; [done|]. intros _ Ei.
  apply list_find_None in E. rewrite Forall_lookup in E. pose proof (E _ _ Ei). by destruct (f a).
Qed.
Lemma first_same {A} (R : A → A → Prop) (f : A → bool) l l' : (∀ a b, R a b → f a = f b) →
  Forall2 R l l' → first f l = first f l'.
Proof.
  intros Hf. unfold first. induction 1 as [|a b l l' Hab _ IH]; [done|]. cbn. rewrite <- (Hf _ _ Hab).
  case_decide; [done|]. destruct (list_find _ l) as [[]|], (list_find _ l') as [[]|]; cbn in *; congruence.
Qed.

(** *** Steps that change nothing that matters *)
Definition dozes (t t' : tpc) : Prop := t = t' ∨ waits t = 1%nat ∧ waits t' = 1%nat.
Definition nods (c c' : client) : Prop :=
  c = c' ∨ todo c = todo c' ∧ ((∃ a b, pc c = CWaiting a ∧ pc c' = CWaiting b) ∨
                               (∃ a b, pc c = CShutting a ∧ pc c' = CShutting b)).
#[export] Instance dozes_refl : Reflexive dozes. Proof. by left. Qed.
#[export] Instance nods_refl : Reflexive nods. Proof. by left. Qed.
Lemma Forall2_self {A} (R : A → A → Prop) l : Reflexive R → Forall2 R l l.
Proof. intros Hr. by apply Forall_Forall2_diag, Forall_forall. Qed.
Lemma nods_roused c c' : roused c c' → nods c c'.
Proof.
  intros [->|[Ha ->]]; [by left|right]. unfold rouse, client_asleep in *. destruct c as [[|[]|[]| |] ?]; try done; eauto 10.
Qed.
Lemma nods_weights c c' : nods c c' → cw c = cw c' ∧ cl c = cl c' ∧ is_over c = is_over c'.
Proof.
  destruct c as [p l], c' as [p' l']. intros [->|[E [(a & b & E1 & E2)|(a & b & E1 & E2)]]]; [done|..];
  cbn in E, E1, E2; by subst.
Qed.
Lemma nods_sum l l' : Forall2 nods l l' →
  sum_list_with cw l = sum_list_with cw l' ∧ sum_list_with cl l = sum_list_with cl l'.
Proof. intros Hl. split; (eapply Forall2_sum; [|done]); intros c c' Hc; by apply nods_weights in Hc as (? & ? & ?). Qed.
Lemma dozes_sum l l' : Forall2 dozes l l' → sum_list_with tw l = sum_list_with tw l'.
Proof. apply Forall2_sum. intros t t' [->|[? ?]]; [done|]. by destruct t, t'. Qed.
Lemma dozes_first l l' : Forall2 dozes l l' → first active l = first active l'.
Proof. apply first_same. intros t t' [->|[? ?]]; [done|]. by destruct t, t'. Qed.
Lemma quiet x y : taskqueue y = taskqueue x → Forall2 nods (clients x) (clients y) →
  (taskqueue x = [] ∧ Forall2 dozes (threads x) (threads y) ∨ threads y = threads x) →
  measure y = measure x ∧ helpful y = helpful x.
Proof.
  intros Eq Hc Ht. destruct (nods_sum _ _ Hc) as [Ecw Ecl].
  assert (Hd : Forall2 dozes (threads x) (threads y)) by (destruct Ht as [[_ ?]| ->]; [done|apply Forall2_self, _]).
  assert (Hdone : ∀ k, Done y k = Done x k).
  { intros k. unfold Done. pose proof (proj1 (Forall2_lookup _ _ _) Hd k) as Ho.
    inversion Ho as [t t' Hr|]; [|done]. destruct Hr as [->|[Hw Hw']]; [done|]. by destruct t, t'. }
  assert (Hn : next_client y = next_client x).
  { unfold next_client. rewrite (first_same _ _ _ _ (λ a b Hab, f_equal negb (proj2 (proj2 (nods_weights a b Hab)))) Hc).
    destruct (first _ (clients y)) as [i|]; [|done]. pose proof (proj1 (Forall2_lookup _ _ _) Hc i) as Ho.
    inversion Ho as [c c' Hr|]; [|done]. cbn.
    destruct Hr as [->|[_ [(? & ? & -> & ->)|(? & ? & -> & ->)]]]; [|done..].
    destruct (pc c') as [| | |[]|]; by rewrite ?Hdone. }
  unfold measure, main, helpful. rewrite Eq, <- Ecw, <- Ecl, <- (dozes_sum _ _ Hd), <- (dozes_first _ _ Hd), Hn.
  destruct Ht as [[Hq _]| ->]; [|done]. by rewrite Hq.
Qed.

(** *** Steps that bring the pool on *)
Definition less (y x : pool) : Prop := lex3 (measure y) (measure x).
Definition same (y x : pool) : Prop := measure y = measure x ∧ helpful y = helpful x.
Lemma less_main x y : (main y < main x)%nat → less y x.
Proof. intros. by left. Qed.

Lemma roused_cw l l' : Forall2 roused l l' → sum_list_with cw l' = sum_list_with cw l.
Proof. intros Hl. symmetry. apply nods_sum. eapply Forall2_impl; [done|apply nods_roused]. Qed.
Lemma woken_tw l l' : Forall2 woken l l' → sum_list_with tw l' = sum_list_with tw l.
Proof. intros Hl. symmetry. by apply woken_sum. Qed.
Lemma signal_tw o l : sum_list_with tw (signal is_asleep (λ _, TAwake false) o l) = sum_list_with tw l.
Proof.
  destruct (signal_cases is_asleep (λ _, TAwake false) o l) as [[-> _]|(i & t & E & Et & ->)]; [done|].
  pose proof (lsum_put tw _ _ (TAwake false) _ E). destruct t; try done. cbn in *. lia.
Qed.

Lemma loop_main k o b x : threads x !! k = Some TStart →
  (main (loop k o b x) + 3 ≤ main x)%nat ∨
  taskqueue x = [] ∧ shutdown x = false ∧ taskqueue (loop k o b x) = [] ∧
  clients (loop k o b x) = clients x ∧ threads (loop k o b x) = <[k := TAsleep]> (threads x).
Proof.
  intros E. unfold loop. destruct (taskqueue x) as [|r q] eqn:Hq.
  - destruct (shutdown x || _) eqn:Eb.
    + left. set (y := set_handles _ _ _). unfold main. cbn [set_threads taskqueue clients threads].
      rewrite (roused_cw (clients y)) by apply (dequeue_Signal_roused _ (enqueue_Signal _ y)).
      assert (Ek : threads y !! k = Some TStart) by done.
      change (threads (dequeue_Signal _ ?z)) with (threads z).
      change (taskqueue (dequeue_Signal _ (enqueue_Signal _ y))) with (taskqueue x). rewrite Hq.
      rewrite (woken_tw (<[k := TLeaving]> (threads y)));
        [|apply Forall2_insert; [apply enqueue_Signal_woken|by left]].
      pose proof (lsum_put tw _ _ TLeaving _ Ek). subst y. cbn in *. lia.
    + right. apply orb_false_iff in Eb as [Es _]. unfold InternalCleanup. by destruct (needscleanup x).
  - left. unfold main. cbn. pose proof (lsum_put tw _ _ (TRun r) _ E). rewrite Hq. cbn in *. lia.
Qed.
(** A thread's step brings the pool on, but when it has looked at an empty queue. *)
Lemma thread_main k o x y : thread_step k o x = Some y →
  less y x ∨ same y x ∧ shutdown x = false ∧ taskqueue x = [] ∧ ∃ b, threads x !! k = Some (TAwake b).
Proof.
  intros Hs. unfold thread_step in Hs. destruct (threads x !! k) as [t|] eqn:E; [|done].
  pose proof (lsum_put tw _ _ TStart _ E) as Htop.
  destruct t as [| |b|r| | |]; simplify_eq.
  - left. apply less_main. destruct (loop_main k o false x E) as [?|(Hq & Hs & Hq' & Hc & Ht)]; [lia|].
    unfold main. rewrite Hq, Hq', Hc, Ht. pose proof (lsum_put tw _ _ TAsleep _ E). cbn in *. lia.
  - set (z := at_top k _).
    assert (Ez : main z = S (main x) ∧ threads z !! k = Some TStart ∧ taskqueue z = taskqueue x ∧
      shutdown z = shutdown x ∧ clients z = clients x ∧ threads z = <[k := TStart]> (threads x)).
    { subst z. split; [unfold main; cbn in *; lia|]. split; [by eapply top_lookup|done]. }
    destruct Ez as (Em & Ek & Ezq & Ezs & Ezc & Ezt).
    destruct (loop_main k o b z Ek) as [?|(Hq & Hs & Hq' & Hc & Ht)]; [left; apply less_main; lia|right].
    rewrite Ezq in Hq. split; [|rewrite <- Ezs; by eauto]. apply quiet.
    + by rewrite Hq', Hq.
    + rewrite Hc, Ezc. apply Forall2_self, _.
    + left. split; [done|]. rewrite Ht, Ezt, list_insert_insert_eq. eapply Forall2_put; [apply _|done|]. by right.
  - left. apply less_main. unfold main. cbn. pose proof (lsum_put tw _ _ TDone _ E). cbn in *. lia.
  - left. apply less_main. set (z := at_top k _).
    assert (Ez : (main z + 2 = main x)%nat ∧ threads z !! k = Some TStart).
    { subst z. split; [|by eapply top_lookup]. unfold main. cbn.
      rewrite (roused_cw (clients x)) by apply (dequeue_Signal_roused _ x). cbn in Htop. lia. }
    destruct Ez as [Em Ek].
    destruct (loop_main k o false z Ek) as [?|(Hq & Hs & Hq' & Hc & Ht)]; [lia|].
    unfold main in *. rewrite Hq', Hc, Ht. rewrite Hq in Em. pose proof (lsum_put tw _ _ TAsleep _ Ek). cbn in *. lia.
  - left. apply less_main. unfold main. cbn. pose proof (lsum_put tw _ _ TDead _ E). cbn in *. lia.
Qed.

Lemma put_main i cs z p c : clients z !! i = Some c →
  (main (put_client i cs (z, p)) + cw c = main z + cw (mk_client p cs))%nat.
Proof.
  intros E. unfold main. pose proof (lsum_put cw _ _ (mk_client p cs) _ E).
  cbn [put_client set_clients clients taskqueue threads fst snd]. lia.
Qed.
Lemma Execute_main o r x : ∃ z v, start o (Execute r) x = (z, CIdle v) ∧ clients z = clients x ∧ (main z ≤ main x + 14)%nat.
Proof.
  unfold start. destruct (shutdown x) eqn:Hs; [eexists _, _; split; [done|split; [done|lia]]|]. eexists _, _.
  split; [reflexivity|]. set (z := InternalCleanup _).
  assert (Hz : clients z = clients x ∧ threads z = threads x ∧ taskqueue z = taskqueue x ++ [r] ∧ shutdown z = false).
  { subst z. unfold InternalCleanup. cbn. by destruct (needscleanup x). }
  destruct Hz as (Hc & Ht & Hq & Hz). destruct (_ && _); unfold Spawn; rewrite ?Hz; unfold main; cbn -[signal];
    rewrite signal_tw; rewrite Hc, Ht, Hq, length_app, ?sum_list_with_app; cbn;
    (split; [done|lia]).
Qed.
Lemma begin_main x : ∃ z l, begin_shutdown x = (z, CJoin l) ∧ Forall2 roused (clients x) (clients z) ∧ main z = main x.
Proof.
  eexists _, _. split; [reflexivity|]. split; [apply (dequeue_Broadcast_roused x)|].
  pose proof (roused_cw _ _ (dequeue_Broadcast_roused x)) as Hc.
  pose proof (woken_tw _ _ (enqueue_Broadcast_woken x)) as Ht. cbn in Hc, Ht. unfold main. cbn. lia.
Qed.

(** A client's step brings the pool on, but when it has to wait on. *)
Lemma client_main i o x y : client_step i o x = Some y → less y x ∨ same y x ∧ must_wait x = true.
Proof.
  intros Hs. unfold client_step in Hs. destruct (clients x !! i) as [c|] eqn:E; [|done]. cbn in Hs.
  assert (Hput : ∀ cs z p c', clients z !! i = Some c' → cw c' = cw c → (main z + cw (mk_client p cs) < main x + cw c)%nat →
    less (put_client i cs (z, p)) x).
  { intros cs z p c' Ez Ec Hlt. apply less_main. pose proof (put_main i cs z p c' Ez). lia. }
  assert (Hbegin : ∀ cs, (5 ≤ 20 * (length (todo c) - length cs) + match pc c with CShutting _ => 5 | _ => 0 end)%nat →
    (length cs ≤ length (todo c))%nat → less (put_client i cs (begin_shutdown x)) x).
  { intros cs Hlen Hle. destruct (begin_main x) as (z & l & -> & Hr & Hm).
    destruct (Forall2_lookup_l _ _ _ _ _ Hr E) as (c' & Ez & Hcc).
    destruct (nods_weights _ _ (nods_roused _ _ Hcc)) as [Ew _]. apply (Hput _ _ _ c'); [done|done|].
    rewrite Hm. unfold cw. cbn. destruct (pc c); cbn in *; lia. }
  destruct (pc c) as [v|[]|[]|l|l] eqn:Hpc; cbn in Hs; try done.
  - destruct (todo c) as [|a cs] eqn:Ht; [done|]. simplify_eq. cbn [length] in Hbegin.
    assert (Hw : ∀ p, (cw (mk_client p cs) ≤ 20 * length cs + 4)%nat → less (put_client i cs (x, p)) x).
    { intros p Hp. apply (Hput _ _ _ c E eq_refl). unfold cw at 2. rewrite Ht, Hpc. cbn in *. lia. }
    assert (Hc : cw c = (20 * S (length cs) + 0)%nat) by (unfold cw; by rewrite Ht, Hpc).
    destruct a as [r| |].
    + left. destruct (Execute_main o r x) as (z & v' & -> & Hcz & Hm). rewrite <- Hcz in E.
      apply (Hput _ _ _ c E eq_refl). rewrite Hc. unfold cw. cbn. lia.
    + left. cbn. destruct (shutdown x); [|destruct (must_wait x)]; apply Hw; unfold cw; cbn; lia.
    + left. cbn. destruct (must_wait x); [apply Hw; unfold cw; cbn; lia|]. apply Hbegin; cbn; lia.
  - simplify_eq. destruct (must_wait x); [right|left].
    + split; [|done]. apply quiet; [done| |by right]. eapply Forall2_put; [apply _|done|].
      right. cbn. split; [done|]. left. by eauto.
    + apply (Hput _ _ _ c E eq_refl). unfold cw. rewrite Hpc. cbn. lia.
  - simplify_eq. destruct (must_wait x); [right|left].
    + split; [|done]. apply quiet; [done| |by right]. eapply Forall2_put; [apply _|done|].
      right. cbn. split; [done|]. right. by eauto.
    + apply Hbegin; lia.
  - left. destruct l as [|k l]; cbn in Hs.
    + simplify_eq. apply (Hput _ _ _ c E eq_refl). unfold cw. rewrite Hpc. cbn. unfold main. cbn. lia.
    + destruct (Done x k); cbn in Hs; simplify_eq. right. split.
      { pose proof (put_main i (todo c) x (CJoin l) c E) as Hm. replace (cw (mk_client _ _)) with (cw c) in Hm
          by (unfold cw; by rewrite Hpc). change (main (put_client i (todo c) (x, CJoin l)) = main x). lia. }
      right. split; [done|]. pose proof (lsum_put cl _ _ (mk_client (CJoin l) (todo c)) _ E) as Hl.
      unfold cl at 2 3 in Hl. rewrite Hpc in Hl. cbn in *. lia.
  - left. destruct l as [|r l]; cbn in Hs; simplify_eq.
    + refine (Hput (todo c) (set_queue x [] (started x)) (CIdle (Ok tt)) c E eq_refl _). unfold cw. rewrite Hpc. unfold main. cbn. lia.
    + right. set (z := set_ran _ _). split.
      { pose proof (put_main i (todo c) z (CLeft l) c E) as Hm. replace (cw (mk_client _ _)) with (cw c) in Hm
          by (unfold cw; by rewrite Hpc). change (main (put_client i (todo c) (z, CLeft l)) = main z). lia. }
      right. split; [done|]. pose proof (lsum_put cl _ _ (mk_client (CLeft l) (todo c)) _ E) as Hl.
      unfold cl at 2 3 in Hl. rewrite Hpc in Hl. cbn in *. lia.
Qed.

(** A wait that ends by itself: one thread less that sleeps before a queue. *)
Lemma woken_less k b x : threads x !! k = Some TAsleep →
  let y := set_threads x (<[k := TAwake b]> (threads x)) in less y x ∨ same y x.
Proof.
  intros E y. destruct (taskqueue x) as [|r q] eqn:Hq.
  - right. apply quiet; [done|apply Forall2_self, _|]. left. split; [done|].
    eapply Forall2_put; [apply _|done|]. by right.
  - left. right. pose proof (lsum_put tw _ _ (TAwake b) _ E). pose proof (lsum_put dozing _ _ (TAwake b) _ E).
    subst y. unfold measure, main. cbn in *. rewrite Hq. cbn. split; [lia|]. left. lia.
Qed.

(** Every step brings the pool on, or leaves it to the same thread as before. *)
Lemma step_less r x y : step r x y → less y x ∨ same y x.
Proof.
  intros Hs. destruct Hs as [[k|i] o x y Hg|k x _ E|k x E|i c x E Ha|x].
  - destruct (thread_main _ _ _ _ Hg) as [?|[? _]]; auto.
  - destruct (client_main _ _ _ _ Hg) as [?|[? _]]; auto.
  - by apply (woken_less k true).
  - by apply (woken_less k false).
  - right. apply quiet; [done| |by right]. eapply Forall2_put; [apply _|done|]. apply nods_roused. by right.
  - right. done.
Qed.

(** *** The one who brings it on can *)
Lemma no_active x : first active (threads x) = None →
  ∀ k t, threads x !! k = Some t → waits t = 1%nat ∨ t = TDead.
Proof. intros Hf k t E. pose proof (first_None _ _ _ _ Hf E). destruct t; auto; done. Qed.
Lemma nothing_to_wait x : inv x → first active (threads x) = None →
  taskqueue x = [] ∨ first is_awake (threads x) = None → must_wait x = false.
Proof.
  intros Hi Hf Hq. destruct (must_wait x) eqn:Hm; [|done]. pose proof (must_wait_open x Hi Hm) as Hs.
  pose proof (i_tasks _ Hi) as Ht. rewrite Hs in Ht.
  assert (Hb : tsum busy x = O).
  { destruct (decide (tsum busy x = O)) as [|Hn]; [done|]. destruct (sum_witness _ _ Hn) as (k & t & E & Hb).
    destruct (no_active x Hf k t E) as [?| ->]; [by destruct t|done]. }
  unfold must_wait in Hm. apply andb_true_iff in Hm as [Hm1 Hm2]. apply negb_true_iff, Z.eqb_neq in Hm1, Hm2.
  destruct (decide (taskqueue x = [])) as [Eq|Hne]; [rewrite Eq in Ht; cbn in Ht; lia|].
  destruct Hq as [?|Ha]; [done|]. destruct (i_ready _ Hi Hne) as [Hz|(k & t & E & Hr)].
  - destruct (i_threads _ Hi). lia.
  - pose proof (first_None _ _ _ _ Ha E). pose proof (first_None _ _ _ _ Hf E). by destruct t.
Qed.
Lemma helpful_cases x : inv x →
  (∃ k t, helpful x = Worker k ∧ threads x !! k = Some t ∧ active t = true) ∨
  (∃ k b, helpful x = Worker k ∧ threads x !! k = Some (TAwake b) ∧ taskqueue x ≠ []) ∨
  (helpful x = next_client x ∧ must_wait x = false ∧ first active (threads x) = None).
Proof.
  intros Hi. unfold helpful. destruct (first active _) as [k|] eqn:Ha.
  { left. destruct (first_Some _ _ _ Ha) as (t & ? & ?). by exists k, t. }
  right. destruct (taskqueue x) as [|r q] eqn:Hq.
  { right. split; [done|]. split; [|done]. apply nothing_to_wait; auto. }
  destruct (first is_awake _) as [k|] eqn:Hw.
  - left. destruct (first_Some _ _ _ Hw) as (t & E & Ht). destruct t; try done. by eauto.
  - right. split; [done|]. split; [|done]. apply nothing_to_wait; auto.
Qed.
Lemma next_cases x : inv x → sleeps_for x → must_wait x = false → first active (threads x) = None → ¬ over x →
  (∃ i, next_client x = Client i ∧ enabled (Client i) x) ∨
  (∃ k b, next_client x = Worker k ∧ threads x !! k = Some (TAwake b) ∧ shutdown x = true).
Proof.
  intros Hi Hs Hm Hf Hov. unfold next_client. destruct (first _ (clients x)) as [i|] eqn:Hc.
  2: { destruct Hov. apply Forall_lookup. intros i c E. pose proof (first_None _ _ _ _ Hc E) as Ho. cbn in Ho.
       by apply negb_false_iff in Ho. }
  destruct (first_Some _ _ _ Hc) as (c & E & Ho). rewrite E. cbn. apply negb_true_iff in Ho.
  assert (Hen : match pc c with CJoin (k :: _) => Done x k = true | _ => True end → enabled (Client i) x).
  { intros Hd. unfold enabled, go, client_step. rewrite E. cbn.
    assert (Hiw : (∃ v, pc c = CIdle v) ∨ i = w)
      by (destruct (decide (i = w)); [by right|left]; by apply (i_others _ Hi _ _ E)).
    destruct (pc c) as [v|[]|[]|[|k l]|[|r l]] eqn:Hpc; cbn; rewrite ?Hm; try by eexists.
    - unfold is_over in Ho. rewrite Hpc in Ho. destruct (todo c); [done|by eexists].
    - destruct Hiw as [[? ?]| ->]; [done|]. specialize (Hs c E). unfold client_asleep in Hs. rewrite Hpc in Hs.
      rewrite Hs in Hm by done. done.
    - destruct Hiw as [[? ?]| ->]; [done|]. specialize (Hs c E). unfold client_asleep in Hs. rewrite Hpc in Hs.
      rewrite Hs in Hm by done. done.
    - rewrite Hd. by eexists. }
  destruct (pc c) as [| | |[|k l]|] eqn:Hpc; try by left; exists i; split; [done|apply Hen].
  destruct (Done x k) eqn:Hd; [by left; exists i; split; [done|apply Hen]|]. right.
  assert (i = w) as ->.
  { destruct (decide (i = w)) as [|Hne]; [done|]. destruct (i_others _ Hi _ _ E Hne) as [[? ?] _]. congruence. }
  assert (Hx : pcw x = Some (CJoin (k :: l))) by (unfold pcw; rewrite E; cbn; by rewrite Hpc).
  pose proof (i_phase _ Hi) as Hsh. unfold phase in Hsh. rewrite Hx in Hsh.
  destruct (lookup_lt_is_Some_2 (threads x) k) as [t Et].
  { apply (i_known _ Hi). left. unfold joinable. rewrite Hx. by left. }
  destruct (i_idle _ Hi Hsh) as [_ Hna]. unfold Done in Hd. rewrite Et in Hd.
  destruct (no_active x Hf k t Et) as [Hw| ->]; [|done]. specialize (Hna k).
  destruct t; try done. by exists k, timedout.
Qed.
Lemma worker_enabled k t x : threads x !! k = Some t → active t = true ∨ is_awake t = true → enabled (Worker k) x.
Proof. intros E Ht. unfold enabled, go, thread_step. rewrite E. destruct t; try by eexists. all: by destruct Ht. Qed.
Lemma helpful_enabled x : inv x ∧ sleeps_for x → ¬ over x → enabled (helpful x) x.
Proof.
  intros [Hi Hs] Hov. destruct (helpful_cases x Hi) as [(k & t & -> & E & Ht)|[(k & b & -> & E & _)|(-> & Hm & Hf)]].
  - eapply worker_enabled; eauto.
  - eapply worker_enabled; eauto.
  - destruct (next_cases x Hi Hs Hm Hf Hov) as [(i & -> & ?)|(k & b & -> & E & _)]; [done|].
    eapply worker_enabled; eauto.
Qed.
Lemma helpful_less x y : inv x ∧ sleeps_for x → ¬ over x → step (Some (helpful x)) x y → less y x.
Proof.
  intros [Hi Hs] Hov Hst. inversion Hst as [r o ? ? Hg Er| | | |]; subst. clear Hst.
  assert (Hworker : ∀ k t, helpful x = Worker k → threads x !! k = Some t →
    (∀ b, t = TAwake b → taskqueue x ≠ [] ∨ shutdown x = true) → less y x).
  { intros k t Eh E Ht. rewrite Eh in Hg. destruct (thread_main _ _ _ _ Hg) as [?|(_ & Hn & Hq & b & Eb)]; [done|].
    rewrite E in Eb. simplify_eq. destruct (Ht b eq_refl); congruence. }
  destruct (helpful_cases x Hi) as [(k & t & Eh & E & Ht)|[(k & b & Eh & E & Hq)|(Eh & Hm & Hf)]].
  - apply (Hworker k t); [done..|]. by intros b ->.
  - apply (Hworker k (TAwake b)); auto.
  - destruct (next_cases x Hi Hs Hm Hf Hov) as [(i & Ei & _)|(k & b & Ek & E & Hsh)].
    + rewrite Eh, Ei in Hg. destruct (client_main _ _ _ _ Hg) as [?|[_ ?]]; congruence.
    + apply (Hworker k (TAwake b)); [congruence|done|auto].
Qed.
End invariant.

(** ** What the pool promises *)
Section promises.
Context `{Config} (w : nat).

Lemma no_running l : sum_list_with busy l = O → omap task l = [].
Proof. induction l as [|[] l IH]; cbn; try done; exact IH. Qed.
Lemma all_ran x : inv w x → shutdown x = false → must_wait x = false → maxthreads ≠ 0 → ran x ≡ₚ accepted x.
Proof.
  intros Hi Hs Hm Hz. pose proof (must_wait_busy _ _ Hi Hs Hm) as Hb. destruct (i_threads _ _ Hi) as [Hn _].
  assert (Hq : taskqueue x = []).
  { destruct (decide (taskqueue x = [])) as [|Hne]; [done|]. destruct (i_ready _ _ Hi Hne) as [?|(k & t & E & Ht)]; [done|].
    pose proof (sum_positive counted _ _ _ E) as Hp. pose proof (i_tasks _ _ Hi) as Hk. rewrite Hs in Hk.
    assert (length (taskqueue x) ≠ O) by (by destruct (taskqueue x)). unfold must_wait in Hm.
    apply andb_false_iff in Hm as [Hm|Hm]; apply negb_false_iff, Z.eqb_eq in Hm; [lia|].
    assert (counted t = 1%nat) by (by destruct t). lia. }
  destruct (open_left _ _ Hi Hs) as [El _]. rewrite (i_order _ _ Hi), El, Hq, app_nil_r, (i_ran _ _ Hi).
  rewrite (no_running (threads x)); [by rewrite app_nil_r|]. done.
Qed.

(** The answer of [Wait], or of [Shutdown]. *)
Definition returns (a : call) (o : nat → nat) (x y : pool) : Prop :=
  client_step w o x = Some y ∧ (∃ v, pcw w y = Some (CIdle v)) ∧
  ∃ c, clients x !! w = Some c ∧
    ((∃ u cs, pc c = CIdle u ∧ todo c = a :: cs) ∨ (a = Wait ∧ pc c = CWaiting false)).
Lemma wait_is_over x y o : inv w x → shutdown x = false → returns Wait o x y →
  must_wait x = false ∧ ran y = ran x ∧ accepted y = accepted x.
Proof.
  intros Hi Hs (Hc & (v & Hv) & c & E & Hw). unfold client_step in Hc. rewrite E in Hc. cbn in Hc.
  assert (Hy : y = put_client w (match todo c with Wait :: cs => match pc c with CIdle _ => cs | _ => todo c end | cs => cs end)
    (x, if must_wait x then CWaiting true else CIdle (Ok tt))).
  { destruct Hw as [(u & cs & Ep & Et)|[_ Ep]]; rewrite Ep in Hc; rewrite ?Et in *; cbn in Hc; rewrite ?Hs in Hc;
      simplify_eq; rewrite ?Ep; [done|]. by destruct (todo c) as [|[]]. }
  subst y. unfold pcw in Hv. cbn in Hv. rewrite list_lookup_insert_eq in Hv by by eapply lookup_lt_Some.
  cbn in Hv. by destruct (must_wait x).
Qed.

(** The shutdown is over. *)
Lemma all_over x v : inv w x → shutdown x = true → pcw w x = Some (CIdle v) →
  ran x ≡ₚ accepted x ∧ ∀ k t, threads x !! k = Some t → t = TDead.
Proof.
  intros Hi Hsh Hp. pose proof (i_phase _ _ Hi) as Hph. unfold phase in Hph. rewrite Hp in Hph.
  destruct (Hph Hsh) as [Hh Hq], (i_idle _ _ Hi Hsh) as [Hb _]. split.
  - rewrite (i_order _ _ Hi), (i_ran _ _ Hi), no_running by done. unfold left_over. by rewrite Hp, Hq, !app_nil_r.
  - intros k t E. pose proof (i_live _ _ Hi _ _ E) as Hl. unfold joinable in Hl. rewrite Hp, Hh in Hl.
    destruct t; try done; by destruct (not_elem_of_nil k (Hl ltac:(done))).
Qed.

(** C13: Of the tasks given to a pool, each is started once and in the order in
    which they were given, and what was started has run or runs; when [Wait]
    returns before the shutdown, and the pool may have threads at all, every task
    has run; and when the one client that calls [Shutdown] is out of it, every
    task has run, the ones that were left too, and every thread has ended. *)
Theorem tasks_run_once_in_order x0 x : initial x0 → one_waits w x0 → steps x0 x →
  (∃ rest, accepted x = started x ++ rest) ∧ started x ≡ₚ ran x ++ running x ∧
  (∀ o y, returns Wait o x y → shutdown x = false → maxthreads ≠ 0 → ran y ≡ₚ accepted y) ∧
  (∀ v, shutdown x = true → pcw w x = Some (CIdle v) →
    ran x ≡ₚ accepted x ∧ ∀ k t, threads x !! k = Some t → t = TDead).
Proof.
  intros H0 Hw Hs. destruct (steps_inv w x0 x H0 Hw Hs) as [Hi _]. split_and!.
  - exists (left_over w x). apply (i_order _ _ Hi).
  - apply (i_ran _ _ Hi).
  - intros o y Hr Hsh Hz. destruct (wait_is_over x y o Hi Hsh Hr) as (Hm & -> & ->). by apply all_ran.
  - intros v. by apply all_over.
Qed.

(** C14: When one client alone waits for the pool and shuts it down, no call is left
    waiting: in every fair run, with timeouts and spurious wakeups, each client
    comes to the end of what it calls; and if the pool was shut down by then,
    every task has run and every thread has ended. *)
Theorem every_call_returns run who : fair_run step enabled run who →
  initial (run O) → one_waits w (run O) →
  ∃ n, over (run n) ∧ (shutdown (run n) = true → (∃ c, clients (run n) !! w = Some c) →
    ran (run n) ≡ₚ accepted (run n) ∧ ∀ k t, threads (run n) !! k = Some t → t = TDead).
Proof.
  intros Hr H0 Hw.
  destruct (fair_termination step enabled (λ x, inv w x ∧ sleeps_for w x) over lex3 measure helpful lex3_wf)
    with (run := run) (who := who) as [n Hn]; try done.
  - intros l x y [Hi Hs] Hst. split; [by eapply pool_step_inv|by eapply step_sleeps].
  - intros x. apply helpful_enabled.
  - intros x y. apply helpful_less.
  - intros l x y _ _ Hst. by apply (step_less l).
  - by apply fresh_inv.
  - exists n. split; [done|]. intros Hsh [c E]. pose proof Hn as Ho. unfold over in Ho. rewrite Forall_lookup in Ho.
    specialize (Ho _ _ E). cbn in Ho. unfold is_over in Ho. destruct (pc c) as [v| | | |] eqn:Hp; try done.
    apply (all_over _ v); [|done|unfold pcw; rewrite E; cbn; by rewrite Hp].
    apply (run_inv step enabled (inv w)) with (who := who); [|done|by apply fresh_inv].
    intros l x y Hi Hst. by eapply pool_step_inv.
Qed.
End promises.

(** ** Pools at work *)
Section examples.
Definition ex_pool (calls : list (list call)) : pool :=
  mk false [] [] 0 0 0 false [] (mk_client (CIdle (Ok tt)) <$> calls) [] [] [].
Lemma ex_initial_pool `{Config} calls : 0 ≤ minthreads → minthreads ≤ maxthreads < 4294967296 →
  Z.of_nat (sum_list_with executes (clients (ex_pool calls))) < 4294967296 → initial (ex_pool calls).
Proof.
  intros. unfold initial. split_and!; try done || lia. intros c Hc.
  apply list_elem_of_fmap in Hc as (l & -> & _). by exists (Ok tt).
Qed.
Definition play `{Config} (r : tid) : pool → option pool := go r (λ _, O).
Lemma play_go `{Config} r x y : play r x = Some y → step (Some r) x y.
Proof. apply S_go. Qed.
Definition at_rest (x : pool) : bool :=
  forallb (λ t, match t with TAsleep | TDead => true | _ => false end) (threads x) &&
  forallb (λ c, client_asleep c || is_over c) (clients x).
Lemma at_rest_stays `{Config} x r : at_rest x = true → ¬ enabled r x.
Proof.
  unfold at_rest. rewrite andb_true_iff, !forallb_forall. intros [Ht Hc]. destruct r as [k|i]; unfold enabled; cbn [go].
  - unfold thread_step. destruct (threads x !! k) as [t|] eqn:E; [|by intros []].
    apply list_elem_of_lookup_2, list_elem_of_In in E. specialize (Ht _ E). destruct t; try done; by intros [].
  - unfold client_step. destruct (clients x !! i) as [c|] eqn:E; [|by intros []]. cbn.
    apply list_elem_of_lookup_2, list_elem_of_In in E. specialize (Hc _ E).
    unfold client_asleep, is_over in Hc. destruct (pc c) as [|[]|[]| |], (todo c); try done; by intros [].
Qed.

(** Two threads at most, and no timeout. *)
Definition ex_two : Config := {| minthreads := 0; maxthreads := 2; timed := false |}.
#[local] Existing Instance ex_two.
Definition ex_given : pool := ex_pool [[Execute 7; Execute 8; Wait; Shutdown]; [Execute 9]].
Definition ex_turns : list tid :=
  [Client 0; Client 1; Client 0; Worker 1; Worker 0; Client 0; Worker 1; Worker 1; Worker 1; Worker 0; Worker 0;
   Client 0; Worker 1; Client 0; Client 0; Worker 0; Worker 1; Worker 0; Worker 1;
   Client 0; Client 0; Client 0; Client 0].
Definition ex_played (n : nat) : pool := played play ex_turns ex_given n.
Lemma ex_given_initial : initial ex_given.
Proof. apply ex_initial_pool; done. Qed.
Lemma ex_given_one : one_waits 0 ex_given.
Proof. intros [|[|i]] c E Hne; [done|injection E as <-; cbn; set_solver|done]. Qed.
Lemma ex_played_fair : fair_run step enabled ex_played (λ n, ex_turns !! n).
Proof.
  eapply played_fair; [apply play_go|apply S_idle|vm_compute; reflexivity|].
  intros r. apply at_rest_stays. vm_compute. reflexivity.
Qed.
Lemma ex_steps calls turns x : plays play turns (ex_pool calls) = Some x → steps (ex_pool calls) x.
Proof. apply (plays_rtc step play play_go). Qed.
(** All calls were made. *)
Definition ex_end : pool := default ex_given (plays play ex_turns ex_given).

Lemma tasks_run_once_in_order_witness : ran ex_end ≡ₚ accepted ex_end ∧ accepted ex_end = [7; 9; 8]%nat ∧
  ∀ k t, threads ex_end !! k = Some t → t = TDead.
Proof.
  destruct (tasks_run_once_in_order 0 ex_given ex_end ex_given_initial ex_given_one) as (_ & _ & _ & Hd).
  { apply (ex_steps _ ex_turns). vm_compute. reflexivity. }
  destruct (Hd (Ok tt)) as [Hr Ht]; [vm_compute; reflexivity..|].
  split; [exact Hr|split; [vm_compute; reflexivity|exact Ht]].
Defined.
Lemma every_call_returns_witness : ∃ n, over (ex_played n) ∧
  (shutdown (ex_played n) = true → (∃ c, clients (ex_played n) !! 0%nat = Some c) →
    ran (ex_played n) ≡ₚ accepted (ex_played n) ∧ ∀ k t, threads (ex_played n) !! k = Some t → t = TDead).
Proof.
  apply (every_call_returns 0 ex_played (λ n, ex_turns !! n) ex_played_fair).
  - exact ex_given_initial.
  - exact ex_given_one.
Defined.

(** Two clients that wait: the signal at the end of the task wakes one of them, and
    the other sleeps on, with nothing to wait for and nobody to wake it. *)
Definition ex_two_turns : list tid := [Client 0; Client 0; Client 1; Worker 0; Worker 0; Worker 0; Client 0].
Definition ex_two_wait : pool :=
  default (ex_pool []) (plays play ex_two_turns (ex_pool [[Execute 7; Wait]; [Wait]])).
Lemma second_waiter_sleeps : initial (ex_pool [[Execute 7; Wait]; [Wait]]) ∧
  steps (ex_pool [[Execute 7; Wait]; [Wait]]) ex_two_wait ∧ numtasks ex_two_wait = 0 ∧
  clients ex_two_wait !! 1%nat = Some (mk_client (CWaiting true) []) ∧ ∀ r, ¬ enabled r ex_two_wait.
Proof.
  split_and!.
  - apply ex_initial_pool; done.
  - apply (ex_steps _ ex_two_turns). vm_compute. reflexivity.
  - vm_compute. reflexivity.
  - vm_compute. reflexivity.
  - intros r. apply at_rest_stays. vm_compute. reflexivity.
Qed.

(** A pool that may have no threads: its tasks run in [Shutdown], and twice when two
    clients are in it. *)
Definition ex_none : Config := {| minthreads := 0; maxthreads := 0; timed := false |}.
Lemma two_shutdowns_run_twice :
  ran <$> plays (@play ex_none) [Client 0; Client 0; Client 1; Client 0; Client 1; Client 0; Client 1]
    (ex_pool [[Execute 7; Shutdown]; [Shutdown]]) = Some [7; 7]%nat.
Proof. vm_compute. reflexivity. Qed.
End examples.
End TP.
