(* ===== verification/BinaryHeap.v ===== *)
(** The binary heap of the C++ standard library's [push_heap] and [pop_heap], over a
    list of elements with an integer key, the smallest in front.

    The tools that use them ([tools/PrimeSieve]) are modelled for every implementation
    with the library's laws; this one shows that there is one, and that it does not
    look at the front's own key when it pops. *)
From S2P Require Import Prelude.

Module BH.
Open Scope nat_scope.

Definition parent (i : nat) : nat := (i - 1) / 2.
Lemma parent_spec i : 0 < i → i = 2 * parent i + 1 ∨ i = 2 * parent i + 2.
Proof.
  intros Hi. unfold parent. pose proof (Nat.div_mod (i - 1) 2 ltac:(lia)).
  pose proof (Nat.mod_upper_bound (i - 1) 2 ltac:(lia)). lia.
Qed.

Section heap.
Context {A : Type} (f : A → Z).

Definition key (l : list A) (i : nat) : Z := from_option f 0%Z (l !! i).
(** Exchanges the elements at [i] and [j]. *)
Definition swap (i j : nat) (l : list A) : list A :=
  match l !! i, l !! j with
  | Some x, Some y => <[i := y]> (<[j := x]> l)
  | _, _ => l
  end.
(** The element at [i] goes up as long as its parent is larger. *)
Fixpoint sift_up (fuel i : nat) (l : list A) : list A :=
  match fuel with
  | O => l
  | S fuel =>
      if i =? 0 then l
      else if (key l i <? key l (parent i))%Z then sift_up fuel (parent i) (swap i (parent i) l) else l
  end.
(** The child of [i] with the smaller key. *)
Definition child (i : nat) (l : list A) : nat :=
  if (2 * i + 2 <? length l) && (key l (2 * i + 2) <? key l (2 * i + 1))%Z then 2 * i + 2 else 2 * i + 1.
(** The element at [i] goes down as long as a child is smaller. *)
Fixpoint sift_down (fuel i : nat) (l : list A) : list A :=
  match fuel with
  | O => l
  | S fuel =>
      if 2 * i + 1 <? length l then
        if (key l (child i l) <? key l i)%Z then sift_down fuel (child i l) (swap i (child i l) l) else l
      else l
  end.
Definition push_heap (l : list A) : list A := sift_up (length l) (length l - 1) l.
(** The front goes to the end; the last takes its place and goes down. *)
Definition pop_heap (l : list A) : list A :=
  match l with
  | [] => []
  | x :: l =>
      match last l with
      | None => [x]
      | Some z => let h := z :: removelast l in sift_down (length h) 0 h ++ [x]
      end
  end.

(** ** Exchanges *)
Lemma swap_perm i j l : swap i j l ≡ₚ l.
Proof.
  unfold swap. destruct (l !! i) as [x|] eqn:Ei; [|done]. destruct (l !! j) as [y|] eqn:Ej; [|done].
  apply Permutation_inj. split; [by rewrite !length_insert|].
  exists (λ k, if decide (k = i) then j else if decide (k = j) then i else k). split.
  - intros k k'. repeat case_decide; subst; intros; subst; done.
  - intros k. pose proof (lookup_lt_Some _ _ _ Ei). pose proof (lookup_lt_Some _ _ _ Ej).
    destruct (decide (k = i)) as [->|Hki]; [by rewrite list_lookup_insert_eq by (rewrite length_insert; lia)|].
    rewrite list_lookup_insert_ne by done.
    destruct (decide (k = j)) as [->|Hkj]; [by rewrite list_lookup_insert_eq|]. by rewrite list_lookup_insert_ne.
Qed.
Lemma swap_length i j l : length (swap i j l) = length l.
Proof. by rewrite swap_perm. Qed.
Lemma swap_key i j l k : i < length l → j < length l →
  key (swap i j l) k = if decide (k = i) then key l j else if decide (k = j) then key l i else key l k.
Proof.
  intros [x Ei]%lookup_lt_is_Some_2 [y Ej]%lookup_lt_is_Some_2. unfold swap, key. rewrite Ei, Ej.
  pose proof (lookup_lt_Some _ _ _ Ei). pose proof (lookup_lt_Some _ _ _ Ej).
  destruct (decide (k = i)) as [->|Hki]; [by rewrite list_lookup_insert_eq by (rewrite length_insert; lia)|].
  rewrite list_lookup_insert_ne by done.
  destruct (decide (k = j)) as [->|Hkj]; [by rewrite list_lookup_insert_eq|]. by rewrite list_lookup_insert_ne.
Qed.

(** ** Order *)
Definition ordered (l : list A) : Prop := ∀ j, 0 < j < length l → (key l (parent j) ≤ key l j)%Z.
(** In order but for [i] and what is above it, or under it. *)
Definition up_inv (i : nat) (l : list A) : Prop :=
  (∀ j, 0 < j < length l → j ≠ i → (key l (parent j) ≤ key l j)%Z) ∧
  (∀ j, 0 < j < length l → parent j = i → 0 < i → (key l (parent i) ≤ key l j)%Z).
Definition down_inv (i : nat) (l : list A) : Prop :=
  (∀ j, 0 < j < length l → parent j ≠ i → (key l (parent j) ≤ key l j)%Z) ∧
  (∀ j, 0 < j < length l → parent j = i → 0 < i → (key l (parent i) ≤ key l j)%Z).

Lemma up_step i l : up_inv i l → 0 < i < length l → (key l i < key l (parent i))%Z →
  up_inv (parent i) (swap i (parent i) l).
Proof.
  intros [H1 H2] Hi Hlt. pose proof (parent_spec i ltac:(lia)) as Hp. split.
  - intros j Hj Hne. rewrite swap_length in Hj. pose proof (parent_spec j ltac:(lia)) as Hq.
    rewrite !swap_key by lia. pose proof (H1 j Hj) as Hj1. pose proof (H2 j Hj) as Hj2.
    destruct (decide (j = i)) as [->|]; [rewrite decide_False, decide_True by lia; lia|].
    rewrite (decide_False (P := j = parent i)) by done. specialize (Hj1 ltac:(done)).
    destruct (decide (parent j = i)); [by apply Hj2; lia|].
    destruct (decide (parent j = parent i)) as [E|]; [rewrite E in Hj1; lia|done].
  - intros j Hj Hpj Hpi. rewrite swap_length in Hj. pose proof (parent_spec (parent i) Hpi) as Hq.
    pose proof (H1 (parent i) ltac:(lia) ltac:(lia)) as Ha. rewrite !swap_key by lia.
    rewrite (decide_False (P := parent (parent i) = i)), (decide_False (P := parent (parent i) = parent i)) by lia.
    destruct (decide (j = i)) as [->|]; [done|]. rewrite decide_False by (intros ->; lia).
    pose proof (H1 j Hj ltac:(done)) as Hb. rewrite Hpj in Hb. lia.
Qed.
Lemma sift_up_spec fuel i l : up_inv i l → i < length l → i ≤ fuel →
  ordered (sift_up fuel i l) ∧ sift_up fuel i l ≡ₚ l.
Proof.
  revert i l. induction fuel as [|fuel IH]; intros i l Hu Hi Hf; cbn [sift_up].
  { split; [|done]. intros j Hj. apply Hu; lia. }
  destruct (Nat.eqb_spec i 0) as [->|H0]; [split; [|done]; intros j Hj; apply Hu; lia|].
  destruct (Z.ltb_spec (key l i) (key l (parent i))) as [Hlt|Hge].
  - pose proof (parent_spec i ltac:(lia)). destruct (IH (parent i) (swap i (parent i) l)) as [? Hp].
    + apply up_step; [done|lia|done].
    + rewrite swap_length. lia.
    + lia.
    + split; [done|]. by rewrite Hp, swap_perm.
  - split; [|done]. intros j Hj. destruct (decide (j = i)) as [->|]; [done|]. by apply Hu.
Qed.

Lemma child_spec i l : 2 * i + 1 < length l →
  child i l < length l ∧ parent (child i l) = i ∧ i < child i l ∧
  ∀ j, 0 < j < length l → parent j = i → (key l (child i l) ≤ key l j)%Z.
Proof.
  intros Hl.
  assert (Hc : child i l = 2 * i + 1 ∨ child i l = 2 * i + 2) by (unfold child; destruct (_ && _); lia).
  assert (Hlt : child i l < length l).
  { unfold child. destruct (Nat.ltb_spec (2 * i + 2) (length l)); cbn; [destruct (_ <? _)%Z|]; lia. }
  pose proof (parent_spec (child i l) ltac:(lia)). split_and!; [lia|lia|lia|].
  intros j Hj Hp. pose proof (parent_spec j ltac:(lia)) as Hq. rewrite Hp in Hq. unfold child.
  destruct (Nat.ltb_spec (2 * i + 2) (length l)), (Z.ltb_spec (key l (2 * i + 2)) (key l (2 * i + 1)));
    cbn [andb]; destruct Hq as [->| ->]; lia.
Qed.
Lemma down_step i l : down_inv i l → 2 * i + 1 < length l → (key l (child i l) < key l i)%Z →
  down_inv (child i l) (swap i (child i l) l).
Proof.
  intros [H1 H2] Hl Hlt. destruct (child_spec i l Hl) as (Hc & Hpc & Hic & Hmin). set (c := child i l) in *. split.
  - intros j Hj Hne. rewrite swap_length in Hj. pose proof (parent_spec j ltac:(lia)) as Hq.
    rewrite !swap_key by lia. pose proof (H1 j Hj) as Hj1. pose proof (H2 j Hj) as Hj2.
    rewrite (decide_False (P := parent j = c)) by done. destruct (decide (parent j = i)) as [Ej|Hnj].
    + rewrite decide_False by (intros ->; lia). destruct (decide (j = c)) as [->|]; [lia|]. by apply Hmin.
    + specialize (Hj1 Hnj). destruct (decide (j = i)) as [->|]; [apply H2; lia|].
      destruct (decide (j = c)) as [->|]; [done|done].
  - intros j Hj Hpj _. rewrite swap_length in Hj. pose proof (parent_spec j ltac:(lia)) as Hq.
    rewrite !swap_key by lia. rewrite Hpc, decide_True by done. rewrite !decide_False by lia.
    rewrite <- Hpj. apply H1; [done|lia].
Qed.
Lemma sift_down_spec fuel i l : down_inv i l → i < length l → length l - i ≤ fuel →
  ordered (sift_down fuel i l) ∧ sift_down fuel i l ≡ₚ l.
Proof.
  revert i l. induction fuel as [|fuel IH]; intros i l Hd Hi Hf; cbn [sift_down]; [lia|].
  destruct (Nat.ltb_spec (2 * i + 1) (length l)) as [Hl|Hl].
  - destruct (child_spec i l Hl) as (Hc & Hpc & Hic & Hmin). destruct (Z.ltb_spec (key l (child i l)) (key l i)) as [Hlt|Hge].
    + destruct (IH (child i l) (swap i (child i l) l)) as [? Hp].
      * by apply down_step.
      * by rewrite swap_length.
      * rewrite swap_length. lia.
      * split; [done|]. by rewrite Hp, swap_perm.
    + split; [|done]. intros j Hj. destruct (decide (parent j = i)) as [E|]; [|by apply Hd].
      specialize (Hmin j Hj E). rewrite E. lia.
  - split; [|done]. intros j Hj. pose proof (parent_spec j ltac:(lia)). apply Hd; [done|lia].
Qed.

Lemma key_app_l l k i : i < length l → key (l ++ k) i = key l i.
Proof. intros Hi. unfold key. by rewrite lookup_app_l. Qed.
Lemma key_cons x l i : key (x :: l) (S i) = key l i.
Proof. done. Qed.
Lemma push_heap_ok l x : ordered l → ordered (push_heap (l ++ [x])) ∧ push_heap (l ++ [x]) ≡ₚ l ++ [x].
Proof.
  intros Ho. unfold push_heap. rewrite length_app. cbn [length].
  apply sift_up_spec; [|rewrite length_app; cbn; lia|lia].
  split; intros j Hj; rewrite length_app in Hj; cbn in Hj; pose proof (parent_spec j ltac:(lia)).
  - intros Hne. rewrite !key_app_l by lia. apply Ho. lia.
  - intros Hp. lia.
Qed.
Lemma push_heap_perm l : push_heap l ≡ₚ l.
Proof.
  unfold push_heap. generalize (length l), (length l - 1). intros n. revert l.
  induction n as [|n IH]; intros l i; cbn [sift_up]; [done|]. destruct (i =? 0); [done|].
  destruct (_ <? _)%Z; [|done]. etransitivity; [apply IH|apply swap_perm].
Qed.
Lemma sift_down_perm n i l : sift_down n i l ≡ₚ l.
Proof.
  revert i l. induction n as [|n IH]; intros i l; cbn [sift_down]; [done|]. destruct (2 * i + 1 <? length l); [|done].
  destruct (_ <? _)%Z; [|done]. etransitivity; [apply IH|apply swap_perm].
Qed.
Lemma removelast_perm (l : list A) z : last l = Some z → z :: removelast l ≡ₚ l.
Proof.
  intros [k ->]%last_Some. rewrite removelast_app by done. cbn. rewrite app_nil_r. apply Permutation_cons_append.
Qed.
Lemma pop_heap_perm l : pop_heap l ≡ₚ l.
Proof.
  destruct l as [|x l]; [done|]. cbn [pop_heap]. destruct (last l) as [z|] eqn:El.
  - rewrite sift_down_perm, removelast_perm by done. by rewrite Permutation_app_comm.
  - by apply last_None in El as ->.
Qed.
(** Only the others need be in order. *)
Lemma pop_heap_ok x l : (∀ j, 0 < parent j → j < S (length l) → (key (x :: l) (parent j) ≤ key (x :: l) j)%Z) →
  ∃ l', pop_heap (x :: l) = l' ++ [x] ∧ ordered l' ∧ l' ≡ₚ l.
Proof.
  intros Ho. cbn [pop_heap]. destruct (last l) as [z|] eqn:El.
  2:{ apply last_None in El as ->. exists []. by split_and!. }
  pose proof El as [k ->]%last_Some. rewrite removelast_app, app_nil_r by done.
  destruct (sift_down_spec (length (z :: k)) 0 (z :: k)) as [Ho' Hp]; [|cbn; lia|lia|].
  - split; intros j Hj Hne; [|lia]. cbn in Hj. pose proof (parent_spec j ltac:(lia)).
    destruct j as [|j]; [lia|]. destruct (parent (S j)) as [|p] eqn:Ep; [lia|].
    specialize (Ho (S j)). rewrite Ep, length_app in Ho. specialize (Ho ltac:(lia) ltac:(lia)).
    rewrite !key_cons, !key_app_l in Ho by lia. by rewrite !key_cons.
  - eexists. split_and!; [done..|]. rewrite Hp. apply Permutation_cons_append.
Qed.
End heap.
End BH.
