(* ===== verification/PrimeSieve.v ===== *)
(** [tools/PrimeSieve]: the sieve of Eratosthenes that the sieve networks run, and
    the wheel that makes its candidates.

    The sieve keeps, for each prime it found, the next of its multiples that can
    be a candidate; the smallest is at the front of a heap.  The heap functions are
    the standard library's: the class [Heaps] has what the C++ standard says of them,
    and a call outside it may be a fault.  The sieve makes such calls: it advances the
    front and then calls [pop_heap], on a range that is in order but for its front.
    That this works is the law [PopsAdvanced], apart; the instance [Binary], the usual
    binary heap, has it, and the instance [Strict], which tests its argument, faults. *)
From S2P Require Import Prelude BinaryHeap.
From stdpp Require Import sorting.
From Stdlib Require Import Znumtheory.

Module PS.
Open Scope Z_scope.

(** ** [PrimeSieveEntry] *)
Record PrimeSieveEntry := mk_entry { multiple : Z; advancer : Z * Z }.
Definition Advance (e : PrimeSieveEntry) : PrimeSieveEntry :=
  mk_entry (u64 (multiple e + (advancer e).1)) ((advancer e).2, (advancer e).1).
Definition new_entry (pr : Z) : PrimeSieveEntry :=
  Advance (mk_entry pr
    (if 3 <? pr then (u64 (pr * 4), u64 (pr * 2)) else if 2 <? pr then (u64 (pr * 2), u64 (pr * 2)) else (pr, pr))).
(** [operator<]: a reverse sort. *)
Definition entry_lt (x y : PrimeSieveEntry) : bool := multiple y <? multiple x.

(** ** The heap functions of the standard library *)
(** No entry is less than one under it: the front has the smallest multiple. *)
Definition is_heap_from (n : nat) (l : list PrimeSieveEntry) : Prop :=
  ∀ i x y, l !! i = Some x → l !! ((i - 1) / 2)%nat = Some y → (i ≠ 0)%nat → (n ≤ (i - 1) / 2)%nat →
    multiple y ≤ multiple x.
Definition is_heap := is_heap_from 0.
(** What the standard says: on a heap, and on a heap with one entry more, they
    rearrange the entries.  Elsewhere it says nothing, and they may fault; in every case
    they work in place, so there are as many entries as before. *)
Class Heaps := {
  push_heap : list PrimeSieveEntry → res (list PrimeSieveEntry);
  pop_heap : list PrimeSieveEntry → res (list PrimeSieveEntry);
  push_heap_length l l' : push_heap l = Ok l' → length l' = length l;
  pop_heap_length l l' : pop_heap l = Ok l' → length l' = length l;
  push_heap_spec l x : is_heap l → ∃ l', push_heap (l ++ [x]) = Ok l' ∧ is_heap l' ∧ l' ≡ₚ l ++ [x];
  pop_heap_spec x l : is_heap (x :: l) → ∃ l', pop_heap (x :: l) = Ok (l' ++ [x]) ∧ is_heap l' ∧ l' ≡ₚ l }.
(** Beyond the standard: [pop_heap] moves the front to the end and makes a heap of the
    others also when only the others are in order. *)
Class PopsAdvanced `{Heaps} : Prop :=
  pop_heap_advanced x l : is_heap_from 1 (x :: l) →
    ∃ l', pop_heap (x :: l) = Ok (l' ++ [x]) ∧ is_heap l' ∧ l' ≡ₚ l.

(** ** [PrimeSieve] *)
Record PrimeSieve := mk { primeSieve : list PrimeSieveEntry; maxNumPrimes : Z }.
Definition new_sieve (maxNumPrimes : Z) : PrimeSieve := mk [] maxNumPrimes.
Definition NumPrimes (s : PrimeSieve) : Z := Z.of_nat (length (primeSieve s)).

Section sieve.
Context `{Heaps}.

Definition push (pr : Z) (s : PrimeSieve) : res PrimeSieve :=
  l ← push_heap (primeSieve s ++ [new_entry pr]);
  Ok (mk l (maxNumPrimes s)).
(** The front advances, and is put in its place. *)
Definition advance_front (s : PrimeSieve) : res PrimeSieve :=
  match primeSieve s with
  | [] => Err OutOfBounds
  | e :: l =>
      l ← pop_heap (Advance e :: l);
      l ← push_heap l;
      Ok (mk l (maxNumPrimes s))
  end.
Definition full (s : PrimeSieve) : bool := negb (maxNumPrimes s =? 0) && (maxNumPrimes s <=? NumPrimes s).
(** As many turns as multiples can still be before the candidate. *)
Definition turns (c : Z) (s : PrimeSieve) : nat :=
  S (sum_list_with (λ e, Z.to_nat (c - multiple e)) (primeSieve s)).

Fixpoint try_loop (fuel : nat) (primeCandidate : Z) (s : PrimeSieve) : res (PrimeSieve * Z) :=
  match fuel with
  | O => Err Diverges
  | S fuel =>
      match primeSieve s with
      | [] => Err OutOfBounds
      | e :: _ =>
          if multiple e <? primeCandidate then
            s ← advance_front s;
            try_loop fuel primeCandidate s
          else if primeCandidate =? multiple e then Ok (s, 0)
          else if full s then Ok (s, -1)
          else
            s ← push primeCandidate s;
            Ok (s, 1)
      end
  end.
Definition TryCandidate (primeCandidate : Z) (s : PrimeSieve) : res (PrimeSieve * Z) :=
  match primeSieve s with
  | [] =>
      s ← push primeCandidate s;
      Ok (s, 1)
  | _ => try_loop (turns primeCandidate s) primeCandidate s
  end.

(** The arrays [primes] and [passed], as far as [numPrimes] and [numPassed]. *)
Definition out : Type := list Z * list Z.
Fixpoint simple_loop (candidates : list Z) (s : PrimeSieve) (o : out) : res (PrimeSieve * out) :=
  match candidates with
  | [] => Ok (s, o)
  | c :: cs =>
      '(s, r) ← TryCandidate c s;
      simple_loop cs s (if r =? 1 then (o.1 ++ [c], o.2) else if r =? -1 then (o.1, o.2 ++ [c]) else o)
  end.
Definition TryCandidatesSimple (candidates : list Z) (s : PrimeSieve) (o : out) : res (PrimeSieve * out) :=
  simple_loop candidates s ([], []).

(** [while (primeCandidate > smallestSieveMultiple)] *)
Fixpoint advance_loop (fuel : nat) (primeCandidate : Z) (s : PrimeSieve) : res (PrimeSieve * Z) :=
  match fuel with
  | O => Err Diverges
  | S fuel =>
      match primeSieve s with
      | [] => Err OutOfBounds
      | e :: _ =>
          if multiple e <? primeCandidate then
            s ← advance_front s;
            advance_loop fuel primeCandidate s
          else Ok (s, multiple e)
      end
  end.
Fixpoint candidates_loop (candidates : list Z) (s : PrimeSieve) (o : out) : res (PrimeSieve * out) :=
  match candidates with
  | [] => Ok (s, o)
  | c :: cs =>
      '(s, smallest) ← advance_loop (turns c s) c s;
      if c <? smallest then
        if full s then candidates_loop cs s (o.1, o.2 ++ [c])
        else
          s ← push c s;
          candidates_loop cs s (o.1 ++ [c], o.2)
      else candidates_loop cs s o
  end.
Definition TryCandidates (candidates : list Z) (s : PrimeSieve) (o : out) : res (PrimeSieve * out) :=
  match candidates with
  | [] => Ok (s, o)
  | c :: cs =>
      match primeSieve s with
      | [] =>
          s ← push c s;
          candidates_loop cs s ([c], [])
      | _ => candidates_loop candidates s ([], [])
      end
  end.

(** ** [PrimeSieveSource] *)
Record PrimeSieveSource := mk_source {
  whichRound : Z; baseValue : Z; cumprod : Z; roundLength : Z; buffer : list Z }.
Definition roundLengths : list Z := [1; 2; 8; 48; 480; 5760; 92160; 1658880].
(** The loop of the constructor: a candidate [k], the sieve, the product, what is in
    the array [primes] and in the buffer. *)
Fixpoint source_loop (fuel : nat) (numPrimes len k : Z) (s : PrimeSieve) (prod : Z) (primes buf : list Z) :
    res (Z * list Z * list Z) :=
  match fuel with
  | O => Err Diverges
  | S fuel =>
      if (k <? prod) || (NumPrimes s <? numPrimes) then
        '(s, r) ← TryCandidate k s;
        if r =? 1 then source_loop fuel numPrimes len (u64 (k + 2)) s (u64 (prod * k)) (primes ++ [k]) buf
        else if r =? -1 then
          if Z.of_nat (length buf) <? len then source_loop fuel numPrimes len (u64 (k + 2)) s prod primes (buf ++ [k])
          else Err OutOfBounds
        else source_loop fuel numPrimes len (u64 (k + 2)) s prod primes buf
      else Ok (prod, primes, buf)
  end.
Definition new_source (numPrimes : Z) : res (PrimeSieveSource * list Z) :=
  assert (0 <? numPrimes) ;;
  assert (numPrimes <=? 8) ;;
  let len := default 0 (roundLengths !! Z.to_nat (numPrimes - 1)) in
  '(s, _) ← TryCandidate 2 (new_sieve numPrimes);
  '(prod, primes, buf) ← source_loop (Z.to_nat 5000000) numPrimes len 3 s 2 [2] [1];
  Ok (mk_source 0 0 prod len buf, primes).
(** What is written to [dest]; the buffer beyond what the constructor wrote is not
    initialised. *)
Definition GetNextRound (s : PrimeSieveSource) : res (PrimeSieveSource * list Z) :=
  if negb (Z.of_nat (length (buffer s)) =? roundLength s) then Err OutOfBounds
  else if whichRound s =? 0 then
    Ok (mk_source 1 (baseValue s) (cumprod s) (roundLength s) (buffer s), tail (buffer s))
  else
    let base := u64 (baseValue s + cumprod s) in
    Ok (mk_source (u64 (whichRound s + 1)) base (cumprod s) (roundLength s) (buffer s),
        (λ b, u64 (b + base)) <$> buffer s).
End sieve.

(** ** The heap *)
Section heap.
Context `{Heaps}.

Lemma heap_front e l x : is_heap (e :: l) → x ∈ e :: l → multiple e ≤ multiple x.
Proof.
  intros Hh [i E]%list_elem_of_lookup. revert x E. induction (Nat.lt_wf_0 i) as [i _ IH]. intros x E.
  destruct (decide (i = O)) as [->|Hi]; [by injection E as ->|].
  assert (Hlt : ((i - 1) / 2 < i)%nat) by (apply Nat.Div0.div_lt_upper_bound; lia).
  destruct (lookup_lt_is_Some_2 (e :: l) ((i - 1) / 2)) as [y Ey].
  { apply lookup_lt_Some in E. lia. }
  etransitivity; [by apply (IH _ Hlt)|]. eapply Hh; [done|done|done|lia].
Qed.
Lemma heap_tail e e' l : is_heap (e :: l) → is_heap_from 1 (e' :: l).
Proof.
  intros Hh i x y Ei Ey Hi Hp. destruct i as [|i]; [done|]. cbn [lookup list_lookup] in Ei.
  destruct ((S i - 1) / 2)%nat as [|k] eqn:Ek; [lia|]. apply (Hh (S i) x y); [done|by rewrite Ek|lia|lia].
Qed.
Lemma push_ok c s : is_heap (primeSieve s) →
  ∃ s', push c s = Ok s' ∧ is_heap (primeSieve s') ∧ primeSieve s' ≡ₚ new_entry c :: primeSieve s ∧
    maxNumPrimes s' = maxNumPrimes s.
Proof.
  intros Hh. destruct (push_heap_spec (primeSieve s) (new_entry c) Hh) as (l & E & ? & Hp).
  unfold push, mbind, res_bind. rewrite E. eexists. split_and!; [done..| |done].
  cbn. rewrite Hp. by rewrite Permutation_app_comm.
Qed.
Lemma advance_front_ok `{!PopsAdvanced} e l s : is_heap (primeSieve s) → primeSieve s = e :: l →
  ∃ s', advance_front s = Ok s' ∧ is_heap (primeSieve s') ∧ primeSieve s' ≡ₚ Advance e :: l ∧
    maxNumPrimes s' = maxNumPrimes s.
Proof.
  intros Hh E. unfold advance_front. rewrite E in *.
  destruct (pop_heap_advanced (Advance e) l) as (l' & Ep & Hl & Hp); [by eapply heap_tail|].
  destruct (push_heap_spec l' (Advance e) Hl) as (l1 & Eq & Hh' & Hq).
  unfold mbind, res_bind. rewrite Ep, Eq. eexists. split_and!; [done..| |done].
  cbn. rewrite Hq, Hp. by rewrite Permutation_app_comm.
Qed.
(** Whatever the order of the entries, none is lost. *)
Lemma push_nonempty c s s' : push c s = Ok s' → primeSieve s' ≠ [].
Proof.
  unfold push, mbind, res_bind. destruct (push_heap _) as [l|?] eqn:E; [|done].
  intros [= <-] Hn. apply push_heap_length in E. rewrite length_app in E. cbn in Hn. subst l. cbn in E. lia.
Qed.
Lemma advance_nonempty s s' : advance_front s = Ok s' → primeSieve s' ≠ [].
Proof.
  unfold advance_front, mbind, res_bind. destruct (primeSieve s) as [|e l]; [done|].
  destruct (pop_heap _) as [l1|?] eqn:E1; [|done]. destruct (push_heap l1) as [l2|?] eqn:E2; [|done].
  intros [= <-] Hn. apply pop_heap_length in E1. apply push_heap_length in E2. cbn in Hn. subst l2. cbn in E1, E2. lia.
Qed.

(** ** The two ways to try candidates *)
Lemma try_loop_advance fuel c s : try_loop fuel c s =
  '(s, smallest) ← advance_loop fuel c s;
  if c =? smallest then Ok (s, 0)
  else if full s then Ok (s, -1)
  else s ← push c s; Ok (s, 1).
Proof.
  revert s. induction fuel as [|fuel IH]; intros s; cbn; [done|].
  destruct (primeSieve s) as [|e l] eqn:E; [done|]. destruct (multiple e <? c); [|done].
  destruct (advance_front s) as [s'|?]; [apply IH|done].
Qed.
Lemma advance_loop_ge fuel c s s' m : advance_loop fuel c s = Ok (s', m) → c ≤ m ∧ primeSieve s' ≠ [].
Proof.
  revert s. induction fuel as [|fuel IH]; intros s; cbn; [done|].
  destruct (primeSieve s) as [|e l] eqn:E; [done|]. destruct (Z.ltb_spec (multiple e) c) as [?|Hge].
  - unfold mbind, res_bind. destruct (advance_front s) as [s1|?]; [apply IH|done].
  - intros [= <- <-]. by rewrite E.
Qed.
Lemma loops_agree cs s o : primeSieve s ≠ [] → candidates_loop cs s o = simple_loop cs s o.
Proof.
  revert s o. induction cs as [|c cs IH]; intros s o Hn; cbn [candidates_loop simple_loop]; [done|].
  unfold TryCandidate. destruct (primeSieve s) as [|e l] eqn:E; [done|]. rewrite try_loop_advance.
  unfold mbind, res_bind.
  destruct (advance_loop (turns c s) c s) as [[s' m]|?] eqn:Ea; [|done].
  destruct (advance_loop_ge _ _ _ _ _ Ea) as [Hcm Hn'].
  destruct (Z.eqb_spec c m) as [->|Hne].
  - rewrite Z.ltb_irrefl. cbn. by apply IH.
  - rewrite (proj2 (Z.ltb_lt c m)) by lia. destruct (full s') eqn:Ef; cbn; [by apply IH|].
    destruct (push c s') as [s1|?] eqn:Ep; [|done]. cbn. apply IH. by eapply push_nonempty.
Qed.

(** C27: TryCandidates, which keeps the smallest multiple at hand, does what trying
    the candidates one by one does: the same sieve, primes, passed candidates and
    faults, for any sieve and whatever the heap functions do, as long as there is a
    candidate.  ([Diverges] is for both a loop beyond [turns], which in a sieve that is
    in order does not occur, as [sieve_finds_primes] shows.) *)
Theorem TryCandidates_is_simple cs s o : cs ≠ [] → TryCandidates cs s o = TryCandidatesSimple cs s o.
Proof.
  intros Hcs. unfold TryCandidates, TryCandidatesSimple. destruct cs as [|c cs]; [done|].
  destruct (primeSieve s) as [|e l] eqn:E; [|apply loops_agree; by rewrite E].
  cbn [simple_loop]. unfold TryCandidate. rewrite E. unfold mbind, res_bind.
  destruct (push c s) as [s1|?] eqn:Ep; [|done]. cbn. apply loops_agree. by eapply push_nonempty.
Qed.
(** Without one, the numbers of primes and passed are not set. *)
Lemma no_candidates s o : TryCandidates [] s o = Ok (s, o) ∧ TryCandidatesSimple [] s o = Ok (s, ([], [])).
Proof. done. Qed.
End heap.

(** ** The multiples of an entry *)
(** The factors that an entry goes through: those prime to six beyond 3, the odd ones
    for 3, and all for 2. *)
Definition factor (p j : Z) : Z := if 3 <? p then 3 * j + 1 + j mod 2 else if 2 <? p then 2 * j + 1 else j + 1.
Definition gaps (p j : Z) : Z * Z :=
  if 3 <? p then if Z.even j then (p * 4, p * 2) else (p * 2, p * 4)
  else if 2 <? p then (p * 2, p * 2) else (p, p).
Definition ent (p j : Z) : PrimeSieveEntry := mk_entry (p * factor p j) (gaps p j).

Lemma parity j : (Z.even j = true ∧ j mod 2 = 0 ∧ (j + 1) mod 2 = 1) ∨
  (Z.even j = false ∧ j mod 2 = 1 ∧ (j + 1) mod 2 = 0).
Proof.
  rewrite Zeven_mod. pose proof (Z.mod_pos_bound j 2 ltac:(lia)). pose proof (Z.mod_pos_bound (j + 1) 2 ltac:(lia)).
  pose proof (Z.div_mod j 2 ltac:(lia)). pose proof (Z.div_mod (j + 1) 2 ltac:(lia)).
  assert (Hj : j mod 2 = 0 ∧ (j + 1) mod 2 = 1 ∨ j mod 2 = 1 ∧ (j + 1) mod 2 = 0) by lia.
  destruct Hj as [[-> ->]|[-> ->]]; auto.
Qed.
Lemma factor_next p j : p * factor p (j + 1) = p * factor p j + (gaps p j).1.
Proof.
  unfold factor, gaps. destruct (3 <? p).
  - destruct (parity j) as [(-> & -> & ->)|(-> & -> & ->)]; cbn; lia.
  - destruct (2 <? p); cbn; lia.
Qed.
Lemma gaps_next p j : gaps p (j + 1) = ((gaps p j).2, (gaps p j).1).
Proof.
  unfold gaps. destruct (3 <? p); [|by destruct (2 <? p)].
  change (j + 1) with (Z.succ j). rewrite Z.even_succ, <- Z.negb_even. by destruct (Z.even j).
Qed.
Lemma gaps_bound p j : 1 < p → 0 < (gaps p j).1 ≤ 4 * p ∧ 0 < (gaps p j).2 ≤ 4 * p.
Proof. intros Hp. unfold gaps. destruct (3 <? p); [destruct (Z.even j)|destruct (2 <? p)]; cbn; lia. Qed.
Lemma Advance_ent p j : 1 < p → 0 ≤ p * factor p j → p * factor p j + 4 * p < 18446744073709551616 →
  Advance (ent p j) = ent p (j + 1).
Proof.
  intros Hp ? ?. pose proof (gaps_bound p j Hp) as [? ?]. unfold Advance, ent. cbn.
  rewrite u64_id by lia. by rewrite factor_next, gaps_next.
Qed.
Lemma new_entry_ent p : 1 < p → 5 * p < 18446744073709551616 → new_entry p = ent p 1.
Proof.
  intros Hp Hb. unfold new_entry. rewrite !u64_id by lia.
  assert (Hz : factor p 0 = 1) by (unfold factor; change (0 mod 2) with 0; by destruct (3 <? p), (2 <? p)).
  transitivity (Advance (ent p 0)); [|apply Advance_ent; rewrite ?Hz; lia].
  f_equal. unfold ent, gaps. rewrite Hz, Z.mul_1_r. cbn [Z.even].
  destruct (Z.ltb_spec 3 p), (Z.ltb_spec 2 p); done || lia.
Qed.
Lemma factor_mono p i j : i < j → factor p i < factor p j.
Proof.
  intros Hij. unfold factor. destruct (3 <? p); [|destruct (2 <? p); lia].
  pose proof (Z.mod_pos_bound i 2 ltac:(lia)). pose proof (Z.mod_pos_bound j 2 ltac:(lia)).
  destruct (decide (j = i + 1)) as [->|]; [|lia].
  destruct (parity i) as [(_ & -> & ->)|(_ & -> & ->)]; lia.
Qed.
Lemma factor_one p : 2 ≤ factor p 1 ≤ 5.
Proof. unfold factor. change (1 mod 2) with 1. destruct (3 <? p), (2 <? p); lia. Qed.
Lemma factor_pos p j : 1 ≤ j → 2 ≤ factor p j.
Proof.
  intros Hj. destruct (decide (j = 1)) as [->|]; [by apply factor_one|].
  pose proof (factor_mono p 1 j ltac:(lia)). pose proof (factor_one p). lia.
Qed.
(** What no smaller prime divides is met. *)
Lemma factor_meets p k : 1 < p → 1 < k → ((2 | k) → p ≤ 2) → ((3 | k) → p ≤ 3) → ∃ j, 1 ≤ j ∧ k = factor p j.
Proof.
  intros Hp Hk H2 H3. unfold factor. destruct (Z.ltb_spec 3 p); [|destruct (Z.ltb_spec 2 p)].
  - assert (N2 : k mod 2 ≠ 0) by (intros Hm; apply Z.mod_divide in Hm; [|lia]; specialize (H2 Hm); lia).
    assert (N3 : k mod 3 ≠ 0) by (intros Hm; apply Z.mod_divide in Hm; [|lia]; specialize (H3 Hm); lia).
    pose proof (Z.mod_pos_bound k 2 ltac:(lia)). pose proof (Z.mod_pos_bound k 3 ltac:(lia)).
    pose proof (Z.div_mod k 2 ltac:(lia)). pose proof (Z.div_mod k 3 ltac:(lia)).
    destruct (decide (k mod 3 = 1)).
    + exists (k / 3). assert (Hq : (k / 3) mod 2 = 0); [|rewrite Hq; lia].
      pose proof (Z.mod_pos_bound (k / 3) 2 ltac:(lia)). pose proof (Z.div_mod (k / 3) 2 ltac:(lia)). lia.
    + exists (k / 3). assert (Hq : (k / 3) mod 2 = 1); [|rewrite Hq; lia].
      pose proof (Z.mod_pos_bound (k / 3) 2 ltac:(lia)). pose proof (Z.div_mod (k / 3) 2 ltac:(lia)). lia.
  - assert (N2 : k mod 2 ≠ 0) by (intros Hm; apply Z.mod_divide in Hm; [|lia]; specialize (H2 Hm); lia).
    pose proof (Z.mod_pos_bound k 2 ltac:(lia)). pose proof (Z.div_mod k 2 ltac:(lia)). exists (k / 2). lia.
  - exists (k - 1). lia.
Qed.

(** ** The sieve is trial division *)
(** The candidates that a sieve for [m] primes finds prime, and those it passes, when
    it has found [ps]. *)
Definition divided (ps : list Z) (c : Z) : bool := existsb (λ p, c mod p =? 0) ps.
Definition room (m : Z) (ps : list Z) : bool := (m =? 0) || (Z.of_nat (length ps) <? m).
Fixpoint trial (m : Z) (ps cs : list Z) : list Z * out :=
  match cs with
  | [] => (ps, ([], []))
  | c :: cs =>
      if divided ps c then trial m ps cs
      else if room m ps then let '(ps', (P, Q)) := trial m (ps ++ [c]) cs in (ps', (c :: P, Q))
      else let '(ps', (P, Q)) := trial m ps cs in (ps', (P, c :: Q))
  end.
Lemma divided_spec ps c : (∀ p, p ∈ ps → 1 < p) → divided ps c = true ↔ ∃ p, p ∈ ps ∧ (p | c).
Proof.
  intros Hp. unfold divided. rewrite existsb_exists. split.
  - intros (p & Hin & Hm). apply list_elem_of_In in Hin. exists p. split; [done|].
    apply Z.mod_divide; [|lia]. specialize (Hp p Hin). lia.
  - intros (p & Hin & Hd). exists p. split; [by apply list_elem_of_In|]. specialize (Hp p Hin).
    apply Z.eqb_eq, Z.mod_divide; [lia|done].
Qed.

(** Of the primes that divide a candidate, the ones before one that was found were
    found too: then no multiple that is left out is a candidate. *)
Definition closed (ps : list Z) (c : Z) : Prop :=
  ∀ p q, p ∈ ps → prime q → q < p → (q | c) → q ∈ ps.

Section trial_division.
Context `{Heaps} `{!PopsAdvanced}.
Notation entries l := ((λ pj : Z * Z, ent pj.1 pj.2) <$> l).

(** The entries of a sieve that has found [ps], when the candidates that come are
    at least [lo]. *)
Definition due (lo : Z) (pj : Z * Z) : Prop :=
  1 < pj.1 ≤ lo ∧ 1 ≤ pj.2 ∧ ∀ i, 1 ≤ i < pj.2 → pj.1 * factor pj.1 i < lo.
Definition tracks (ps : list Z) (lo : Z) (s : PrimeSieve) : Prop :=
  is_heap (primeSieve s) ∧ ∃ l, primeSieve s ≡ₚ entries l ∧ l.*1 ≡ₚ ps ∧ Forall (due lo) l.

Lemma due_mono lo lo' pj : lo ≤ lo' → due lo pj → due lo' pj.
Proof. intros Hle (? & ? & Hi). split_and!; try lia. intros i Hij. specialize (Hi i Hij). lia. Qed.
Lemma tracks_mono ps lo lo' s : lo ≤ lo' → tracks ps lo s → tracks ps lo' s.
Proof.
  intros Hle (Hh & l & He & Hp & Hd). split; [done|]. exists l. split_and!; [done..|].
  eapply Forall_impl; [done|]. intros pj. by apply due_mono.
Qed.
Lemma tracks_new lo m : tracks [] lo (new_sieve m).
Proof. split; [by intros i x y|]. by exists []. Qed.
Lemma tracks_nonempty ps lo s : tracks ps lo s → ps ≠ [] → primeSieve s ≠ [].
Proof.
  intros (_ & l & He & Hp & _) Hps Hn. rewrite Hn in He. apply Permutation_nil_l in He. symmetry in He.
  apply fmap_nil_inv in He. subst l. apply Hps. symmetry. by apply Permutation_nil_l.
Qed.
Lemma tracks_empty lo s : tracks [] lo s → primeSieve s = [].
Proof.
  intros (_ & l & He & Hp & _). apply Permutation_nil_r, fmap_nil_inv in Hp. subst l. by apply Permutation_nil_r.
Qed.
Lemma tracks_full ps lo s : tracks ps lo s → 0 ≤ maxNumPrimes s → full s = negb (room (maxNumPrimes s) ps).
Proof.
  intros (_ & l & He & Hp & _) Hm. assert (Hl : length (primeSieve s) = length ps).
  { rewrite He, <- Hp. by rewrite !length_fmap. }
  unfold full, room, NumPrimes. by rewrite Hl, negb_orb, <- Z.leb_antisym.
Qed.
Lemma tracks_push ps lo c s : tracks ps lo s → lo ≤ c → 1 < c → 5 * c < 18446744073709551616 →
  ∃ s', push c s = Ok s' ∧ tracks (ps ++ [c]) c s' ∧ maxNumPrimes s' = maxNumPrimes s.
Proof.
  intros (Hh & l & He & Hp & Hd) Hlo Hc Hb. destruct (push_ok c s Hh) as (s' & Es & Hh' & Hq & Hm).
  exists s'. split; [done|]. split; [|done]. split; [done|]. exists ((c, 1) :: l). split_and!.
  - cbn. by rewrite Hq, new_entry_ent, He.
  - cbn. rewrite Hp. apply Permutation_cons_append.
  - constructor; [split_and!; cbn; lia|]. eapply Forall_impl; [done|]. intros pj. by apply due_mono.
Qed.
Lemma factor_upto lo pj : due lo pj → 0 ≤ pj.1 * factor pj.1 pj.2 ≤ 5 * lo.
Proof.
  intros (Hp & Hj & Hi). pose proof (factor_pos pj.1 pj.2 Hj). split; [nia|].
  destruct (decide (pj.2 = 1)) as [->|].
  - pose proof (factor_one pj.1). nia.
  - specialize (Hi (pj.2 - 1) ltac:(lia)). pose proof (factor_next pj.1 (pj.2 - 1)) as Hf.
    replace (pj.2 - 1 + 1) with pj.2 in Hf by lia. pose proof (gaps_bound pj.1 (pj.2 - 1)). lia.
Qed.

(** The front advances. *)
Lemma tracks_advance ps c s e l0 : tracks ps c s → primeSieve s = e :: l0 → multiple e < c →
  5 * c < 18446744073709551616 →
  ∃ s', advance_front s = Ok s' ∧ tracks ps c s' ∧ (turns c s' < turns c s)%nat ∧ maxNumPrimes s' = maxNumPrimes s.
Proof.
  intros (Hh & l & He & Hp & Hd) E Hlt Hb.
  assert (Hin : e ∈ entries l) by (rewrite <- He, E; by left).
  apply list_elem_of_fmap in Hin as ([p j] & -> & Hin). apply elem_of_Permutation in Hin as [l' Hl'].
  destruct (advance_front_ok _ _ _ Hh E) as (s' & Es & Hh' & Hq & Hm).
  rewrite E, Hl' in He. cbn in He. apply Permutation_cons_inv in He.
  rewrite Hl' in Hd. apply Forall_cons in Hd as [Hpj Hd]. pose proof (factor_upto _ _ Hpj) as Hf.
  destruct Hpj as (Hp1 & Hj & Hi). cbn [ent multiple fst snd] in Hlt, Hp1, Hj, Hi, Hf. change (Advance _) with (Advance (ent p j)) in Hq.
  rewrite Advance_ent in Hq by lia. exists s'. split; [done|]. split; [split; [done|]|split; [|done]].
  - exists ((p, j + 1) :: l'). split_and!.
    + cbn. by rewrite Hq, He.
    + rewrite <- Hp, Hl'. done.
    + constructor; [|done]. split_and!; cbn; try lia. intros i Hij.
      destruct (decide (i = j)) as [->|]; [done|]. apply Hi. lia.
  - unfold turns. rewrite E. apply (proj1 (Nat.succ_lt_mono _ _)).
    assert (Hsum : ∀ l l', l ≡ₚ l' → sum_list_with (λ e, Z.to_nat (c - multiple e)) l =
      sum_list_with (λ e, Z.to_nat (c - multiple e)) l').
    { intros ?? Hperm. by rewrite Hperm. }
    rewrite (Hsum _ _ Hq). cbn. pose proof (factor_next p j). pose proof (gaps_bound p j). lia.
Qed.

(** The loop comes to a front that is not before the candidate. *)
Lemma advance_loop_tracks fuel ps c s : tracks ps c s → ps ≠ [] → 5 * c < 18446744073709551616 →
  (turns c s ≤ fuel)%nat →
  ∃ s' e l, advance_loop fuel c s = Ok (s', multiple e) ∧ primeSieve s' = e :: l ∧ c ≤ multiple e ∧
    tracks ps c s' ∧ maxNumPrimes s' = maxNumPrimes s.
Proof.
  intros Ht Hps Hb. revert s Ht. induction fuel as [|fuel IH]; intros s Ht Hfuel; [unfold turns in Hfuel; lia|].
  pose proof (tracks_nonempty _ _ _ Ht Hps) as Hn. cbn [advance_loop].
  destruct (primeSieve s) as [|e l] eqn:E; [done|]. destruct (Z.ltb_spec (multiple e) c) as [Hlt|Hge].
  - destruct (tracks_advance _ _ _ _ _ Ht E Hlt Hb) as (s1 & -> & Ht' & Hdec & Hm1).
    destruct (IH s1 Ht' ltac:(lia)) as (s' & e' & l' & ? & ? & ? & ? & Hm).
    exists s', e', l'. split_and!; try done. by rewrite Hm.
  - by exists s, e, l.
Qed.
(** Then the candidate is the front's multiple just when a prime that was found
    divides it. *)
Lemma front_divides ps c s e l : tracks ps c s → primeSieve s = e :: l → c ≤ multiple e →
  (∀ p, p ∈ ps → p < c) → closed ps c → multiple e = c ↔ ∃ p, p ∈ ps ∧ (p | c).
Proof.
  intros (Hh & l1 & He & Hp & Hd) E Hle Hlt Hcl. rewrite Forall_forall in Hd.
  assert (Hof : ∀ p j, (p, j) ∈ l1 → p ∈ ps).
  { intros p j Hin. rewrite <- Hp. apply list_elem_of_fmap. by exists (p, j). }
  split.
  - intros <-. assert (Hin : e ∈ entries l1) by (rewrite <- He, E; by left).
    apply list_elem_of_fmap in Hin as ([p j] & -> & Hin). exists p. split; [by eapply Hof|]. apply Z.divide_factor_l.
  - intros (p & Hin & Hdiv).
    assert (Hmet : ∃ p j, p ∈ ps ∧ 1 ≤ j ∧ c = p * factor p j).
    { assert (Hcase : ∀ p, p ∈ ps → (p | c) → ((2 | c) → p ≤ 2) → ((3 | c) → p ≤ 3) → ∃ j, 1 ≤ j ∧ c = p * factor p j).
      { intros p' Hp' [k Hk] H2 H3. specialize (Hlt _ Hp'). rewrite <- Hp in Hp'.
        apply list_elem_of_fmap in Hp' as ([p1 j1] & -> & Hin'). destruct (Hd _ Hin') as ([Hp1 _] & _ & _). cbn in *.
        destruct (factor_meets p1 k) as (j & Hj & Ek); [lia|nia|..].
        - intros Hk2. apply H2. rewrite Hk. by apply Z.divide_mul_l.
        - intros Hk3. apply H3. rewrite Hk. by apply Z.divide_mul_l.
        - exists j. split; [done|]. rewrite Hk, Ek. lia. }
      assert (H2 : (2 | c) → 2 < p → 2 ∈ ps) by (intros; apply (Hcl p 2); auto using prime_2).
      assert (H3 : (3 | c) → 3 < p → 3 ∈ ps) by (intros; apply (Hcl p 3); auto using prime_3).
      destruct (Znumtheory.Zdivide_dec 2 c) as [Hd2|Hn2].
      { destruct (Z_lt_dec 2 p) as [Hp2|Hp2].
        - destruct (Hcase 2) as (j & ? & ?); [by auto|done|lia|lia|]. exists 2, j. by auto.
        - destruct (Hcase p) as (j & ? & ?); [done|done|lia|lia|]. by exists p, j. }
      destruct (Znumtheory.Zdivide_dec 3 c) as [Hd3|Hn3].
      { destruct (Z_lt_dec 3 p) as [Hp3|Hp3].
        - destruct (Hcase 3) as (j & ? & ?); [by auto|done|done|lia|]. exists 3, j. by auto.
        - destruct (Hcase p) as (j & ? & ?); [done|done|done|lia|]. by exists p, j. }
      destruct (Hcase p) as (j & ? & ?); [done..|]. by exists p, j. }
    destruct Hmet as (p' & j0 & Hin' & Hj0 & Ec). rewrite <- Hp in Hin'.
    apply list_elem_of_fmap in Hin' as ([p1 j1] & -> & Hin'). destruct (Hd _ Hin') as ([Hp1 _] & Hj1 & Hi). cbn in *.
    assert (Hj : j1 ≤ j0) by (destruct (Z_le_gt_dec j1 j0); [done|]; specialize (Hi j0 ltac:(lia)); lia).
    assert (Hm : multiple (ent p1 j1) ≤ c).
    { cbn [ent multiple]. destruct (decide (j1 = j0)) as [->|]; [lia|].
      pose proof (factor_mono p1 j1 j0 ltac:(lia)). nia. }
    assert (Hmin : multiple e ≤ multiple (ent p1 j1)); [|lia].
    eapply heap_front; [rewrite <- E; done|]. rewrite <- E, He. apply list_elem_of_fmap. by exists (p1, j1).
Qed.

(** So the loop tells whether a prime that was found divides the candidate. *)
Lemma settled ps lo c s : tracks ps lo s → ps ≠ [] → (∀ p, p ∈ ps → 1 < p ≤ lo) → lo < c →
  5 * c < 18446744073709551616 → closed ps c →
  ∃ s' m, advance_loop (turns c s) c s = Ok (s', m) ∧ c ≤ m ∧ (c =? m) = divided ps c ∧
    tracks ps c s' ∧ maxNumPrimes s' = maxNumPrimes s.
Proof.
  intros Ht Hps Hlo Hc Hb Hcl.
  destruct (advance_loop_tracks (turns c s) ps c s) as (s1 & e & l & Ea & El & Hge & Ht1 & Hm1);
    [eapply tracks_mono, Ht; lia|done|done|done|].
  exists s1, (multiple e). split_and!; try done. apply eq_true_iff_eq.
  rewrite Z.eqb_eq, divided_spec by (intros p Hp; specialize (Hlo p Hp); lia). rewrite <- (front_divides ps c s1 e l); try done.
  intros p Hp. specialize (Hlo p Hp). lia.
Qed.
Lemma TryCandidate_step ps lo c s : tracks ps lo s → ps ≠ [] → (∀ p, p ∈ ps → 1 < p ≤ lo) → lo < c →
  5 * c < 18446744073709551616 → closed ps c → 0 ≤ maxNumPrimes s →
  ∃ s', TryCandidate c s = Ok (s', if divided ps c then 0 else if room (maxNumPrimes s) ps then 1 else -1) ∧
    tracks (if negb (divided ps c) && room (maxNumPrimes s) ps then ps ++ [c] else ps) c s' ∧
    maxNumPrimes s' = maxNumPrimes s.
Proof.
  intros Ht Hps Hlo Hc Hb Hcl Hm. pose proof (tracks_nonempty _ _ _ Ht Hps) as Hn. unfold TryCandidate.
  destruct (primeSieve s) as [|e l] eqn:E; [done|]. rewrite try_loop_advance. clear e l E Hn.
  destruct (settled ps lo c s) as (s1 & m & -> & Hcm & Hd & Ht1 & Hm1); try done.
  unfold mbind, res_bind. rewrite Hd, (tracks_full _ _ _ Ht1), <- Hm1 by lia.
  destruct (divided ps c); [by exists s1|]. cbn [negb andb]. destruct (room _ ps); [|by exists s1].
  destruct (tracks_push ps c c s1) as (s' & -> & ? & Hm'); [done..| |lia|].
  { destruct ps as [|p ps]; [done|]. specialize (Hlo p ltac:(by left)). lia. }
  exists s'. split_and!; [done..|]. by rewrite Hm'.
Qed.

(** The candidates that come, with what will have been found before each. *)
Fixpoint suited (m : Z) (ps cs : list Z) : Prop :=
  match cs with
  | [] => True
  | c :: cs => closed ps c ∧ suited m (if negb (divided ps c) && room m ps then ps ++ [c] else ps) cs
  end.

Lemma candidates_loop_trial cs : ∀ ps lo hi s o, tracks ps lo s → ps ≠ [] → 0 ≤ maxNumPrimes s →
  (∀ p, p ∈ ps → 1 < p ≤ lo) →
  StronglySorted Z.lt cs → (∀ c, c ∈ cs → lo < c ≤ hi) → lo ≤ hi → 5 * hi < 18446744073709551616 →
  suited (maxNumPrimes s) ps cs →
  ∃ s' ps' P Q, trial (maxNumPrimes s) ps cs = (ps', (P, Q)) ∧
    candidates_loop cs s o = Ok (s', (o.1 ++ P, o.2 ++ Q)) ∧ tracks ps' hi s' ∧ maxNumPrimes s' = maxNumPrimes s.
Proof.
  induction cs as [|c cs IH]; intros ps lo hi s o Ht Hps Hm Hlo Hso Hcs Hhi Hb Hsu.
  { exists s, ps, [], []. cbn. rewrite !app_nil_r. destruct o. split_and!; try done. by eapply tracks_mono. }
  assert (Hc : lo < c ≤ hi) by (apply Hcs; left).
  apply StronglySorted_inv in Hso as [Hso Hcc]. rewrite Forall_forall in Hcc. destruct Hsu as [Hcl Hsu].
  destruct (settled ps lo c s) as (s1 & m & Ea & Hge & Hd & Ht1 & Hm1); try done || lia.
  assert (Hnext : ∀ c', c' ∈ cs → c < c' ≤ hi).
  { intros c' Hin. specialize (Hcc c' Hin). specialize (Hcs c' ltac:(by right)). lia. }
  cbn [candidates_loop trial]. rewrite Ea. unfold mbind, res_bind.
  destruct (divided ps c) eqn:Ediv; cbn [negb andb] in Hsu.
  - apply Z.eqb_eq in Hd as <-. rewrite Z.ltb_irrefl. rewrite <- Hm1 in *.
    apply (IH ps c); try done; [|lia]. intros p Hp. specialize (Hlo p Hp). lia.
  - apply Z.eqb_neq in Hd. assert (Hlt : c < m) by lia.
    rewrite (proj2 (Z.ltb_lt _ _) Hlt), (tracks_full _ _ _ Ht1) by lia. rewrite <- Hm1 in *.
    destruct (room (maxNumPrimes s1) ps) eqn:Er; cbn [negb].
    + destruct (tracks_push ps c c s1) as (s2 & -> & Ht2 & Hm2); [done|lia| |lia|].
      { destruct ps as [|p ps]; [done|]. specialize (Hlo p ltac:(by left)). lia. }
      rewrite <- Hm2 in *.
      destruct (IH (ps ++ [c]) c hi s2 (o.1 ++ [c], o.2)) as (s' & ps' & P & Q & Et & Ec & Ht' & Hm'); try done.
      * intros Hn. by apply app_nil in Hn as [_ ?].
      * intros p Hp. assert (1 < c) by (destruct ps as [|p1 ps]; [done|]; specialize (Hlo p1 ltac:(by left)); lia).
        apply elem_of_app in Hp as [Hp|Hp]; [specialize (Hlo p Hp); lia|]. apply list_elem_of_singleton in Hp. lia.
      * lia.
      * exists s', ps', (c :: P), Q. cbn in Et, Ec. rewrite Et. split_and!; try done. by rewrite Ec, <- app_assoc.
    + destruct (IH ps c hi s1 (o.1, o.2 ++ [c])) as (s' & ps' & P & Q & Et & Ec & Ht' & Hm'); try done; [|lia|].
      * intros p Hp. specialize (Hlo p Hp). lia.
      * exists s', ps', P, (c :: Q). cbn [fst snd] in Ec. rewrite Et. split_and!; try done. by rewrite Ec, <- app_assoc.
Qed.

Lemma TryCandidates_trial cs ps lo hi s o : tracks ps lo s → cs ≠ [] → 0 ≤ maxNumPrimes s →
  (∀ p, p ∈ ps → 1 < p ≤ lo) → StronglySorted Z.lt cs → (∀ c, c ∈ cs → lo < c ≤ hi ∧ 1 < c) →
  5 * hi < 18446744073709551616 → suited (maxNumPrimes s) ps cs →
  ∃ s' ps' P Q, trial (maxNumPrimes s) ps cs = (ps', (P, Q)) ∧ TryCandidates cs s o = Ok (s', (P, Q)) ∧
    tracks ps' hi s' ∧ maxNumPrimes s' = maxNumPrimes s.
Proof.
  intros Ht Hcs Hm Hps Hso Hb Hhi Hsu. destruct cs as [|c cs]; [done|].
  destruct (Hb c ltac:(by left)) as [Hc Hc1]. unfold TryCandidates.
  destruct ps as [|p ps].
  - rewrite (tracks_empty _ _ Ht). apply StronglySorted_inv in Hso as [Hso Hcc]. rewrite Forall_forall in Hcc.
    assert (Hr : room (maxNumPrimes s) [] = true) 
      by (unfold room; destruct (Z.eqb_spec (maxNumPrimes s) 0); [done|]; cbn; apply Z.ltb_lt; lia).
    cbn [trial divided existsb]. destruct Hsu as [_ Hsu]. cbn [divided existsb negb andb] in Hsu. rewrite Hr in *.
    destruct (tracks_push [] lo c s) as (s1 & Es & Ht1 & Hm1); [done|lia..|].
    unfold mbind, res_bind. rewrite Es. rewrite <- Hm1 in *.
    destruct (candidates_loop_trial cs [c] c hi s1 ([c], [])) as (s' & ps' & P & Q & Et & Ec & Ht' & Hm');
      try done; try lia.
    + intros q ->%list_elem_of_singleton. lia.
    + intros c' Hin. specialize (Hcc _ Hin). destruct (Hb c' ltac:(by right)). lia.
    + exists s', ps', (c :: P), Q. cbn in Et. cbn [app]. rewrite Et. by split_and!.
  - pose proof (tracks_nonempty _ _ _ Ht ltac:(done)) as Hn. destruct (primeSieve s) eqn:E; [done|].
    destruct (candidates_loop_trial (c :: cs) (p :: ps) lo hi s ([], [])) as (s' & ps' & P & Q & Et & Ec & Ht' & Hm');
      try done; try lia.
    + intros c' Hin. by apply Hb.
    + by exists s', ps', P, Q.
Qed.

(** A sieve that gets its candidates in pieces, and what it finds and passes at each. *)
Fixpoint feed (pieces : list (list Z)) (s : PrimeSieve) : res (PrimeSieve * list out) :=
  match pieces with
  | [] => Ok (s, [])
  | cs :: pieces =>
      '(s, o) ← TryCandidates cs s ([], []);
      '(s, os) ← feed pieces s;
      Ok (s, o :: os)
  end.
End trial_division.

(** *** Trial division in pieces *)
Lemma trial_app m a : ∀ ps b, trial m ps (a ++ b) =
  let '(ps1, (P1, Q1)) := trial m ps a in let '(ps2, (P2, Q2)) := trial m ps1 b in (ps2, (P1 ++ P2, Q1 ++ Q2)).
Proof.
  induction a as [|c a IH]; intros ps b; cbn [trial app].
  - by destruct (trial m ps b) as [? [? ?]].
  - destruct (divided ps c); [apply IH|]. destruct (room m ps); rewrite IH.
    + destruct (trial m (ps ++ [c]) a) as [ps1 [P1 Q1]]. by destruct (trial m ps1 b) as [? [? ?]].
    + destruct (trial m ps a) as [ps1 [P1 Q1]]. by destruct (trial m ps1 b) as [? [? ?]].
Qed.
Lemma suited_app m a : ∀ ps b, suited m ps (a ++ b) ↔ suited m ps a ∧ suited m (trial m ps a).1 b.
Proof.
  induction a as [|c a IH]; intros ps b; cbn [trial app suited]; [by cbn; tauto|].
  rewrite IH. destruct (divided ps c); cbn [negb andb]; [tauto|]. destruct (room m ps).
  - destruct (trial m (ps ++ [c]) a) as [? [? ?]]. tauto.
  - destruct (trial m ps a) as [? [? ?]]. tauto.
Qed.
Lemma trial_found m cs : ∀ ps, (trial m ps cs).1 = ps ++ (trial m ps cs).2.1.
Proof.
  induction cs as [|c cs IH]; intros ps; cbn [trial]; [by rewrite app_nil_r|].
  destruct (divided ps c); [apply IH|]. destruct (room m ps).
  - specialize (IH (ps ++ [c])). destruct (trial m (ps ++ [c]) cs) as [? [? ?]]. cbn in *. by rewrite IH, <- app_assoc.
  - specialize (IH ps). by destruct (trial m ps cs) as [? [? ?]].
Qed.

(** ** Streams of candidates *)
#[export] Instance prime_decision p : Decision (prime p) := prime_dec p.
(** In order, beyond 1, and with all the primes that divide one of them. *)
Definition stream (cs : list Z) : Prop :=
  StronglySorted Z.lt cs ∧ (∀ c, c ∈ cs → 1 < c) ∧ ∀ c q, c ∈ cs → prime q → (q | c) → q ∈ cs.
Definition first_primes (m : Z) (cs : list Z) : list Z :=
  let ps := filter prime cs in if m =? 0 then ps else take (Z.to_nat m) ps.
Definition undivided (ps cs : list Z) : list Z := filter (λ c, divided ps c = false) cs.

Lemma prime_divisor_in c : 1 < c → ∃ q, prime q ∧ (q | c).
Proof.
  intros Hc. assert (H0 : 0 ≤ c) by lia. revert Hc. pattern c. apply Z_lt_induction; [|done]. clear c H0.
  intros c IH Hc. destruct (prime_dec c) as [Hp|Hn]; [by exists c|].
  destruct (not_prime_divide c Hc Hn) as (d & Hd & Hdc). destruct (IH d) as (q & Hq & Hqd); [lia..|].
  exists q. split; [done|]. by transitivity d.
Qed.
Lemma sorted_app_lt a b x y : StronglySorted Z.lt (a ++ b) → x ∈ a → y ∈ b → x < y.
Proof. intros Hs Hx Hy. by eapply (StronglySorted_app_1_elem_of Z.lt). Qed.

Section streams.
Context (m : Z) (Hm : 0 ≤ m).

(** What was found in the first candidates of a stream. *)
Lemma first_primes_elem cs p : p ∈ first_primes m cs → prime p ∧ p ∈ cs.
Proof.
  unfold first_primes. intros Hp. assert (Hin : p ∈ filter prime cs).
  { destruct (m =? 0); [done|]. by eapply elem_of_take in Hp as (i & E%list_elem_of_lookup_2 & _). }
  by apply list_elem_of_filter in Hin.
Qed.
Lemma first_primes_all cs : room m (first_primes m cs) = true → first_primes m cs = filter prime cs.
Proof.
  unfold room, first_primes. destruct (Z.eqb_spec m 0); [done|]. cbn [orb]. intros Hl%Z.ltb_lt.
  rewrite length_take in Hl. apply take_ge. lia.
Qed.
Lemma first_primes_snoc a c : first_primes m (a ++ [c]) =
  if decide (prime c) then if room m (first_primes m a) then first_primes m a ++ [c] else first_primes m a
  else first_primes m a.
Proof.
  assert (Hf : filter prime (a ++ [c]) = filter prime a ++ (if decide (prime c) then [c] else [])).
  { rewrite filter_app, filter_cons. by destruct (decide (prime c)). }
  unfold first_primes, room. rewrite Hf. destruct (Z.eqb_spec m 0); cbn [orb].
  - destruct (decide (prime c)); [done|by rewrite app_nil_r].
  - destruct (decide (prime c)); [|by rewrite app_nil_r]. rewrite length_take.
    destruct (Z.ltb_spec (Z.of_nat (Z.to_nat m `min` length (filter prime a))) m).
    + rewrite !take_ge; [done|lia|rewrite length_app; cbn; lia].
    + rewrite take_app_le; [done|lia].
Qed.
(** A prime before one that was found was found. *)
Lemma first_primes_below a p q : StronglySorted Z.lt a → p ∈ first_primes m a → prime q → q ∈ a → q < p →
  q ∈ first_primes m a.
Proof.
  unfold first_primes. intros Hs Hp Hq Hin Hlt. assert (Hf : q ∈ filter prime a) by (by apply list_elem_of_filter).
  destruct (m =? 0); [done|]. assert (Hsf : StronglySorted Z.lt (filter prime a)).
  { clear -Hs. induction Hs as [|c a Hs IH Hc]; [constructor|]. rewrite filter_cons.
    destruct (decide (prime c)); [|done]. constructor; [done|]. rewrite Forall_forall in *.
    intros x [_ Hx]%list_elem_of_filter. by apply Hc. }
  rewrite <- (take_drop (Z.to_nat m) (filter prime a)) in Hf, Hsf. apply elem_of_app in Hf as [?|Hd]; [done|].
  pose proof (sorted_app_lt _ _ _ _ Hsf Hp Hd). lia.
Qed.

Lemma undivided_snoc ps a c : undivided ps (a ++ [c]) = undivided ps a ++ (if divided ps c then [] else [c]).
Proof. unfold undivided. rewrite filter_app, filter_cons. by destruct (divided ps c). Qed.
Lemma undivided_nil ps a : (∀ c, c ∈ a → divided ps c = true) → undivided ps a = [].
Proof.
  intros Ha. destruct (undivided ps a) as [|c l] eqn:E; [done|]. exfalso.
  assert (Hin : c ∈ undivided ps a) by (rewrite E; by left). apply list_elem_of_filter in Hin as [Hf Hin].
  by rewrite (Ha c Hin) in Hf.
Qed.

Lemma stream_trial cs a b : stream cs → cs = a ++ b →
  trial m [] a = (first_primes m a, (first_primes m a, undivided (first_primes m a) a)) ∧ suited m [] a.
Proof.
  intros (Hso & H1 & Hcl). revert b. induction a as [|c a IH] using rev_ind; intros b Ecs.
  { unfold first_primes. cbn. by destruct (m =? 0); rewrite ?take_nil. }
  destruct (IH (c :: b)) as [Et Hsu]; [by rewrite Ecs, <- app_assoc|].
  set (ps := first_primes m a) in *.
  assert (Hca : c ∈ cs) by (rewrite Ecs; set_solver).
  assert (Hlt : ∀ x, x ∈ a → x < c).
  { intros x Hx. eapply (sorted_app_lt a (c :: b)); [|done|by left]. by rewrite Ecs, <- app_assoc in Hso. }
  assert (Hsa : StronglySorted Z.lt a) by (rewrite Ecs, <- app_assoc in Hso; by eapply StronglySorted_app_1_l).
  assert (Hps : ∀ p, p ∈ ps → prime p ∧ p ∈ a ∧ 1 < p).
  { intros p Hp. destruct (first_primes_elem _ _ Hp) as [Hpr Hpa]. split_and!; [done..|]. apply H1. rewrite Ecs. set_solver. }
  assert (Hpre : ∀ q, q ∈ cs → q < c → q ∈ a).
  { intros q Hin Hlq. rewrite Ecs, <- app_assoc in Hin, Hso.
    apply elem_of_app in Hin as [?|Hin]; [done|]. exfalso. apply elem_of_cons in Hin as [->|Hin]; [lia|].
    apply StronglySorted_app_1_r, StronglySorted_inv in Hso as [_ Hf]. rewrite Forall_forall in Hf. specialize (Hf _ Hin). lia. }
  assert (Hcl' : closed ps c).
  { intros p q Hp Hpr Hqp Hqc. destruct (Hps p Hp) as (_ & Hpa & _). specialize (Hlt p Hpa).
    eapply first_primes_below; try done. apply Hpre; [by eapply Hcl|lia]. }
  assert (Hall : room m ps = true → ∀ q, prime q → q ∈ a → q ∈ ps).
  { intros Hr q Hpr Hin. unfold ps. rewrite (first_primes_all _ Hr). by apply list_elem_of_filter. }
  rewrite trial_app, suited_app, Et. cbn [trial fst snd suited].
  rewrite first_primes_snoc. fold ps.
  destruct (divided ps c) eqn:Ed; cbn [negb andb].
  - assert (Hnp : ¬ prime c).
    { apply divided_spec in Ed as (p & Hp & Hd); [|by intros p Hp; apply Hps]. destruct (Hps p Hp) as (Hpr & Hpa & Hp1).
      intros Hc. apply (prime_div_prime p c Hpr Hc) in Hd. specialize (Hlt p Hpa). lia. }
    rewrite decide_False by done. rewrite undivided_snoc, Ed, !app_nil_r. done.
  - destruct (room m ps) eqn:Er.
    + assert (Hc : prime c).
      { destruct (prime_divisor_in c (H1 c Hca)) as (q & Hpr & Hd). destruct (Z.eq_dec q c) as [->|Hne]; [done|].
        exfalso. assert (Hqc : q < c) by (apply Z.divide_pos_le in Hd; specialize (H1 c Hca); lia).
        assert (Hdv : divided ps c = true); [|congruence].
        apply divided_spec; [by intros p Hp; apply Hps|]. exists q. split; [|done].
        apply Hall; [done..|]. apply Hpre; [by eapply Hcl|done]. }
      rewrite decide_True by done. split; [|done].
      assert (Hcov : ∀ x, x ∈ a → divided ps x = true).
      { intros x Hx. assert (Hxc : x ∈ cs) by (rewrite Ecs; set_solver).
        destruct (prime_divisor_in x (H1 x Hxc)) as (q & Hpr & Hd).
        apply divided_spec; [by intros p Hp; apply Hps|]. exists q. split; [|done]. apply Hall; [done..|].
        apply Hpre; [by eapply Hcl|]. apply Z.divide_pos_le in Hd; [|specialize (H1 x Hxc); lia].
        specialize (Hlt x Hx). lia. }
      rewrite (undivided_nil ps a), (undivided_nil (ps ++ [c]) (a ++ [c])); [done|..|done].
      intros x Hx. unfold divided. rewrite existsb_app. apply orb_true_iff.
      apply elem_of_app in Hx as [Hx|Hx]; [left; by apply Hcov|right].
      apply list_elem_of_singleton in Hx as ->. cbn. rewrite Z.mod_same by (specialize (H1 c Hca); lia). done.
    + replace (if decide (prime c) then ps else ps) with ps by (by destruct (decide (prime c))).
      by rewrite undivided_snoc, Ed, app_nil_r.
Qed.
End streams.

Lemma trial_sub m cs : ∀ ps p, p ∈ (trial m ps cs).2.1 → p ∈ cs.
Proof.
  induction cs as [|c cs IH]; intros ps p; cbn [trial]; [done|].
  destruct (divided ps c); [intros Hp; right; by eapply IH|]. destruct (room m ps).
  - specialize (IH (ps ++ [c]) p). destruct (trial m (ps ++ [c]) cs) as [? [? ?]]. cbn in *.
    intros [->|Hp]%elem_of_cons; [by left|right; auto].
  - specialize (IH ps p). destruct (trial m ps cs) as [? [? ?]]. cbn in *. intros Hp. right. auto.
Qed.
Section finds.
Context `{Heaps} `{!PopsAdvanced}.
(** A sieve that has found [ps], and the pieces that it is to get. *)
Record fed (m : Z) (ps : list Z) (lo hi : Z) (s : PrimeSieve) (pieces : list (list Z)) : Prop := {
  fed_tracks : tracks ps lo s;
  fed_max : maxNumPrimes s = m ∧ 0 ≤ m;
  fed_found p : p ∈ ps → 1 < p ≤ lo;
  fed_sorted : StronglySorted Z.lt (concat pieces);
  fed_bounds c : c ∈ concat pieces → lo < c ≤ hi ∧ 1 < c;
  fed_hi : lo ≤ hi ∧ 5 * hi < 18446744073709551616;
  fed_pieces cs : cs ∈ pieces → cs ≠ [];
  fed_suited : suited m ps (concat pieces) }.
Lemma fed_step m ps lo hi s cs pieces : fed m ps lo hi s (cs :: pieces) →
  ∃ s' ps' lo' P Q, trial m ps cs = (ps', (P, Q)) ∧ TryCandidates cs s ([], []) = Ok (s', (P, Q)) ∧
    fed m ps' lo' hi s' pieces.
Proof.
  intros [Ht [Hm Hm0] Hps Hso Hb [Hle Hhi] Hne Hsu]. cbn [concat] in *.
  rewrite suited_app in Hsu. destruct Hsu as [Hsu1 Hsu2].
  assert (Hcs : cs ≠ []) by (apply Hne; left). destruct (exists_last Hcs) as (ini & z & Ez).
  assert (Hz : z ∈ cs) by (rewrite Ez; set_solver).
  assert (Hmax : ∀ c, c ∈ cs → c ≤ z).
  { intros c Hc. rewrite Ez in Hc. apply elem_of_app in Hc as [Hc|Hc]; [|by apply list_elem_of_singleton in Hc as ->; lia].
    apply StronglySorted_app_1_l in Hso. rewrite Ez in Hso. pose proof (sorted_app_lt ini [z] c z Hso Hc). set_solver by lia. }
  assert (Hbc : ∀ c, c ∈ cs → lo < c ≤ hi ∧ 1 < c) by (intros c Hc; apply Hb; set_solver).
  destruct (Hbc z Hz) as [Hzb _]. rewrite <- Hm in *.
  destruct (TryCandidates_trial cs ps lo z s ([], [])) as (s1 & ps1 & P & Q & Et & Ec & Ht1 & Hm1); try done.
  - by eapply StronglySorted_app_1_l.
  - intros c Hc. destruct (Hbc c Hc). split; [|done]. specialize (Hmax c Hc). lia.
  - lia.
  - pose proof (trial_found (maxNumPrimes s) cs ps) as Hf. rewrite Et in Hf, Hsu2. cbn [fst snd] in Hf, Hsu2.
    exists s1, ps1, z, P, Q. split_and!; [done..|]. split; try done; try lia.
    + intros p Hp. rewrite Hf in Hp. apply elem_of_app in Hp as [Hp|Hp].
      * specialize (Hps p Hp). lia.
      * pose proof (trial_sub (maxNumPrimes s) cs ps) as Hsub. rewrite Et in Hsub. cbn in Hsub.
        specialize (Hsub p Hp). specialize (Hmax p Hsub). destruct (Hbc p Hsub). lia.
    + by eapply StronglySorted_app_1_r.
    + intros c Hc. destruct (Hb c ltac:(set_solver)). split; [|done]. split; [|lia].
      by eapply (sorted_app_lt cs (concat pieces)).
    + intros c Hc. apply Hne. by right.
Qed.
Lemma feed_trial m pieces : ∀ ps lo hi s, fed m ps lo hi s pieces →
  ∃ s' os, feed pieces s = Ok (s', os) ∧ (trial m ps (concat pieces)).2 = (concat os.*1, concat os.*2).
Proof.
  induction pieces as [|cs pieces IH]; intros ps lo hi s Hf; [by exists s, []|].
  destruct (fed_step _ _ _ _ _ _ _ Hf) as (s1 & ps1 & lo1 & P & Q & Et & Ec & Hf').
  destruct (IH _ _ _ _ Hf') as (s' & os & Ef & Eo). exists s', ((P, Q) :: os).
  cbn [feed fmap list_fmap concat fst snd]. rewrite Ec. unfold mbind, res_bind. rewrite Ef. split; [done|].
  rewrite trial_app, Et. destruct (trial m ps1 (concat pieces)) as [? [? ?]]. cbn in *. by injection Eo as -> ->.
Qed.
Lemma fed_new m pieces : 0 ≤ m → stream (concat pieces) → (∀ cs, cs ∈ pieces → cs ≠ []) →
  (∀ c, c ∈ concat pieces → 5 * c < 18446744073709551616) →
  fed m [] 0 (18446744073709551615 / 5) (new_sieve m) pieces.
Proof.
  intros Hm Hst Hne Hb. destruct (stream_trial m Hm _ (concat pieces) [] Hst) as [_ Hsu]; [by rewrite app_nil_r|].
  destruct Hst as (Hso & H1 & _). split; try done.
  - apply tracks_new.
  - set_solver.
  - intros c Hc. specialize (H1 c Hc). specialize (Hb c Hc). split; [|done]. split; [lia|].
    apply Z.div_le_lower_bound; lia.
Qed.
(** A sieve that is full finds no more. *)
Lemma trial_full m ps cs : room m ps = false → ∃ Q, trial m ps cs = (ps, ([], Q)).
Proof.
  intros Hr. induction cs as [|c cs [Q IH]]; cbn [trial]; [by exists []|]. rewrite Hr, IH.
  destruct (divided ps c); eauto.
Qed.
Lemma trial_passed m cs : ∀ ps ps' P Q, trial m ps cs = (ps', (P, Q)) → Q ≠ [] → room m ps' = false.
Proof.
  induction cs as [|c cs IH]; intros ps ps' P Q; cbn [trial]; [by intros [= <- <- <-]|].
  destruct (divided ps c); [apply IH|]. destruct (room m ps) eqn:Er.
  - destruct (trial m (ps ++ [c]) cs) as [ps1 [P1 Q1]] eqn:E. intros [= <- <- <-]. by eapply IH.
  - destruct (trial_full m ps cs Er) as [Q1 ->]. by intros [= <- <- <-].
Qed.

(** C26: However a stream of candidates is cut into pieces (candidates in order, with
    every prime that divides one of them among them), a sieve for [m] primes, 0 for
    no limit, says of exactly the first [m] primes of the stream that they are prime,
    in order, and passes exactly the candidates that none of these divides.  This is so
    for heap functions with the standard's laws and the law [PopsAdvanced], which the
    standard does not give: [pop_heap] does not need the front itself to be in order.
    The binary heap has it; for one that has not, see [pop_heap_out_of_contract]. *)
Theorem sieve_finds_primes m pieces : 0 ≤ m → stream (concat pieces) → (∀ cs, cs ∈ pieces → cs ≠ []) →
  (∀ c, c ∈ concat pieces → 5 * c < 18446744073709551616) →
  ∃ s os, feed pieces (new_sieve m) = Ok (s, os) ∧
    concat os.*1 = first_primes m (concat pieces) ∧
    concat os.*2 = undivided (first_primes m (concat pieces)) (concat pieces).
Proof.
  intros Hm Hst Hne Hb. destruct (stream_trial m Hm _ (concat pieces) [] Hst) as [Et _]; [by rewrite app_nil_r|].
  destruct (feed_trial m pieces [] 0 _ _ (fed_new m pieces Hm Hst Hne Hb)) as (s & os & Ef & Eo).
  exists s, os. rewrite Et in Eo. cbn in Eo. by injection Eo as <- <-.
Qed.
End finds.

(** What a sieve passes is a stream again, and has the rest of the primes. *)
Lemma undivided_elem ps cs c : c ∈ undivided ps cs ↔ c ∈ cs ∧ divided ps c = false.
Proof. unfold undivided. rewrite list_elem_of_filter. tauto. Qed.
Lemma filter_sorted (P : Z → Prop) `{∀ x, Decision (P x)} l : StronglySorted Z.lt l → StronglySorted Z.lt (filter P l).
Proof.
  induction 1 as [|c a Hs IH Hc]; [constructor|]. rewrite filter_cons. destruct (decide (P c)); [|done].
  constructor; [done|]. rewrite Forall_forall in *. intros x [_ Hx]%list_elem_of_filter. by apply Hc.
Qed.
Lemma undivided_stream m cs : stream cs → stream (undivided (first_primes m cs) cs).
Proof.
  intros (Hso & H1 & Hcl). split_and!.
  - by apply filter_sorted.
  - intros c [Hc _]%undivided_elem. by apply H1.
  - intros c q [Hc Hd]%undivided_elem Hpr Hqc. apply undivided_elem. split; [by eapply Hcl|].
    apply not_true_is_false. intros Hq. apply not_true_iff_false in Hd. apply Hd.
    apply divided_spec in Hq as (p & Hp & Hpq); [apply divided_spec; [|exists p; split; [done|by transitivity q]]|];
      intros p' Hp'; destruct (first_primes_elem _ _ _ Hp'); by apply H1.
Qed.
(** Two lists in order with the same elements. *)
Lemma sorted_NoDup l : StronglySorted Z.lt l → NoDup l.
Proof.
  induction 1 as [|c l Hs IH Hc]; constructor; [|done]. intros Hin. rewrite Forall_forall in Hc.
  specialize (Hc c Hin). lia.
Qed.
Lemma sorted_ext l k : StronglySorted Z.lt l → StronglySorted Z.lt k → (∀ x, x ∈ l ↔ x ∈ k) → l = k.
Proof.
  intros Hl Hk Hx. apply (StronglySorted_unique_strong Z.lt); [|done|done|].
  - intros x y _ _ ? ?. lia.
  - apply NoDup_Permutation; [by apply sorted_NoDup..|done].
Qed.
Lemma primes_split m cs : stream cs →
  filter prime cs = first_primes m cs ++ filter prime (undivided (first_primes m cs) cs).
Proof.
  intros (Hso & H1 & Hcl). set (ps := first_primes m cs).
  assert (Hps : ∀ p, p ∈ ps → prime p ∧ p ∈ cs) by apply first_primes_elem.
  assert (Hrest : ∀ p, prime p → p ∈ cs → p ∈ undivided ps cs ↔ p ∉ ps).
  { intros p Hp Hin. rewrite undivided_elem, <- not_true_iff_false, divided_spec.
    - split.
      + intros [_ Hn] Hps'. apply Hn. by exists p.
      + intros Hn. split; [done|]. intros (q & Hq & Hd). destruct (Hps q Hq) as [Hqp _].
        apply (prime_div_prime q p) in Hd; [|done..]. by subst.
    - intros q Hq. apply H1. by apply Hps. }
  apply sorted_ext.
  - by apply filter_sorted.
  - apply StronglySorted_app. split_and!.
    + intros x y Hx [Hy Hyc]%list_elem_of_filter. destruct (Hps x Hx) as [Hxp Hxc].
      assert (Hyin : y ∈ cs) by (by apply undivided_elem in Hyc as [? _]).
      apply (Hrest y Hy Hyin) in Hyc. destruct (Z.lt_trichotomy x y) as [?|[->|Hlt]]; [done|done|].
      destruct Hyc. by apply (first_primes_below m cs x y).
    + assert (Hf : StronglySorted Z.lt (filter prime cs)) by (by apply filter_sorted).
      unfold ps, first_primes. destruct (m =? 0); [done|].
      rewrite <- (take_drop (Z.to_nat m) (filter prime cs)) in Hf. by eapply StronglySorted_app_1_l.
    + by apply filter_sorted, filter_sorted.
  - intros p. rewrite elem_of_app, !list_elem_of_filter. split.
    + intros [Hp Hin]. destruct (decide (p ∈ ps)); [by left|right]. split; [done|]. by apply Hrest.
    + intros [Hp|[Hp Hu]]; [by apply Hps|]. split; [done|]. by apply undivided_elem in Hu as [? _].
Qed.

(** ** The binary heap *)
Lemma ordered_heap l : BH.ordered multiple l ↔ is_heap l.
Proof.
  assert (Hk : ∀ i x, l !! i = Some x → BH.key multiple l i = multiple x) by (intros i x E; unfold BH.key; by rewrite E).
  split.
  - intros Ho i x y Ex Ey Hi _. rewrite <- (Hk _ _ Ex), <- (Hk _ _ Ey). apply Ho.
    apply lookup_lt_Some in Ex. lia.
  - intros Hh i [Hi Hl]. destruct (lookup_lt_is_Some_2 l i Hl) as [x Ex].
    pose proof (BH.parent_spec i Hi).
    destruct (lookup_lt_is_Some_2 l (BH.parent i) ltac:(lia)) as [y Ey].
    rewrite (Hk _ _ Ex), (Hk _ _ Ey). apply (Hh i x y); [done|done|lia|lia].
Qed.
Lemma binary_pop x l : is_heap_from 1 (x :: l) →
  ∃ l', BH.pop_heap multiple (x :: l) = l' ++ [x] ∧ is_heap l' ∧ l' ≡ₚ l.
Proof.
  intros Hh. destruct (BH.pop_heap_ok multiple x l) as (l' & E & Ho & Hp).
  - intros j Hp Hj. destruct (lookup_lt_is_Some_2 (x :: l) j Hj) as [y Ey].
    assert (Hpj : (BH.parent j < length (x :: l))%nat).
    { destruct (decide (j = O)) as [->|]; [by apply Nat.lt_irrefl in Hp|].
      pose proof (BH.parent_spec j ltac:(lia)). cbn [length]. lia. }
    destruct (lookup_lt_is_Some_2 _ _ Hpj) as [z Ez]. unfold BH.key. rewrite Ey, Ez.
    apply (Hh j y z); [done|done|intros ->; by apply Nat.lt_irrefl in Hp|exact Hp].
  - exists l'. split_and!; [done|by apply ordered_heap|done].
Qed.
Lemma binary_push l x : is_heap l →
  is_heap (BH.push_heap multiple (l ++ [x])) ∧ BH.push_heap multiple (l ++ [x]) ≡ₚ l ++ [x].
Proof. intros Hh. destruct (BH.push_heap_ok multiple l x) as [? ?]; [by apply ordered_heap|]. by rewrite <- ordered_heap. Qed.
Lemma binary_pop_length l l' : Some (BH.pop_heap multiple l) = Some l' → length l' = length l.
Proof.
  generalize (BH.pop_heap_perm multiple l). generalize (BH.pop_heap multiple l). intros k Hk [= ->]. by rewrite Hk.
Qed.
(** The usual implementation: it does not test its argument, and does not look at the
    front's multiple when it pops. *)
Definition binary_push_heap (l : list PrimeSieveEntry) : res (list PrimeSieveEntry) := Ok (BH.push_heap multiple l).
Definition binary_pop_heap (l : list PrimeSieveEntry) : res (list PrimeSieveEntry) :=
  match l with [] => Err OutOfBounds | _ => Ok (BH.pop_heap multiple l) end.
#[local] Program Instance Binary : Heaps := {| push_heap := binary_push_heap; pop_heap := binary_pop_heap |}.
Next Obligation. intros l l' [= <-]. by rewrite BH.push_heap_perm. Qed.
Next Obligation. intros [|x l] l'; [done|]. unfold binary_pop_heap. intros E. apply binary_pop_length. congruence. Qed.
Next Obligation. intros l x Hh. eexists. split; [done|]. by apply binary_push. Qed.
Next Obligation.
  intros x l Hh. destruct (binary_pop x l) as (l' & E & ?); [by eapply heap_tail|]. exists l'.
  unfold binary_pop_heap. by rewrite E.
Qed.
#[local] Instance Binary_advanced : PopsAdvanced.
Proof. intros x l Hh. destruct (binary_pop x l Hh) as (l' & E & ?). exists l'.
  cbn -[BH.pop_heap]. unfold binary_pop_heap. by rewrite E.
Qed.

(** One that tests its argument, as the standard allows. *)
Definition heapb (l : list PrimeSieveEntry) : bool :=
  forallb (λ j, BH.key multiple l (BH.parent j) <=? BH.key multiple l j) (seq 1 (length l - 1)).
Lemma heapb_spec l : heapb l = true ↔ is_heap l.
Proof.
  rewrite <- ordered_heap. unfold heapb. rewrite forallb_forall. split.
  - intros Hf j Hj. apply Z.leb_le, Hf, in_seq. lia.
  - intros Ho j Hj%in_seq. apply Z.leb_le, Ho. lia.
Qed.
Definition strict_push_heap (l : list PrimeSieveEntry) : res (list PrimeSieveEntry) :=
  if heapb (removelast l) then Ok (BH.push_heap multiple l) else Err Undefined.
Definition strict_pop_heap (l : list PrimeSieveEntry) : res (list PrimeSieveEntry) :=
  match l with
  | [] => Err OutOfBounds
  | _ => if heapb l then Ok (BH.pop_heap multiple l) else Err Undefined
  end.
#[local] Program Definition Strict : Heaps := {| push_heap := strict_push_heap; pop_heap := strict_pop_heap |}.
Next Obligation. intros l l'. unfold strict_push_heap. destruct (heapb _); [|done]. intros [= <-]. by rewrite BH.push_heap_perm. Qed.
Next Obligation.
  intros [|x l] l'; [done|]. unfold strict_pop_heap. destruct (heapb _); [|done]. intros E. apply binary_pop_length. congruence.
Qed.
Next Obligation.
  intros l x Hh. unfold strict_push_heap. rewrite removelast_app, app_nil_r, (proj2 (heapb_spec l)) by done. eexists. split; [done|].
  by apply binary_push.
Qed.
Next Obligation.
  intros x l Hh. destruct (binary_pop x l) as (l' & E & ?); [by eapply heap_tail|]. exists l'.
  unfold strict_pop_heap. by rewrite (proj2 (heapb_spec _)), E.
Qed.
(** With it the sieve fails at the first advance that takes the front past another
    entry: 10 for the prime 2, when the next for 3 is 9.  So the calls are outside the
    standard's contract, although the heap is in order before each of them. *)
Lemma pop_heap_out_of_contract :
  TryCandidates (H := Strict) (seqZ 2 8) (new_sieve 0) ([], []) = Err Undefined.
Proof. vm_compute. reflexivity. Qed.

(** The numbers up to 60, in pieces, through a sieve for two primes. *)
Definition ex_pieces : list (list Z) := [seqZ 2 7; seqZ 9 1; seqZ 10 50].
Definition primeb (c : Z) : bool := forallb (λ d, negb (c mod d =? 0)) (seqZ 2 (Z.sqrt c - 1)) && (1 <? c).
Lemma sorted_by_lookup (R : Z → Z → Prop) l :
  (∀ i j x y, (i < j)%nat → l !! i = Some x → l !! j = Some y → R x y) → StronglySorted R l.
Proof.
  induction l as [|a l IH]; intros Hl; constructor.
  - apply IH. intros i j x y Hij. apply (Hl (S i) (S j)). lia.
  - rewrite Forall_lookup. intros i x Ei. by apply (Hl O (S i) a x); [lia|..].
Qed.
Lemma seqZ_sorted m n : StronglySorted Z.lt (seqZ m n).
Proof. apply sorted_by_lookup. intros i j x y Hij [-> _]%lookup_seqZ [-> _]%lookup_seqZ. lia. Qed.
(** All numbers from 2. *)
Lemma counter_stream n : stream (seqZ 2 n).
Proof.
  split_and!.
  - apply seqZ_sorted.
  - intros c Hc%elem_of_seqZ. lia.
  - intros c q Hc%elem_of_seqZ Hq Hd. apply elem_of_seqZ. pose proof (prime_ge_2 q Hq).
    apply Z.divide_pos_le in Hd; lia.
Qed.

Lemma sieve_finds_primes_witness : ∃ s os, feed ex_pieces (new_sieve 2) = Ok (s, os) ∧
  concat os.*1 = first_primes 2 (seqZ 2 58) ∧ concat os.*2 = undivided (first_primes 2 (seqZ 2 58)) (seqZ 2 58).
Proof.
  apply (sieve_finds_primes 2 ex_pieces).
  - lia.
  - exact (counter_stream 58).
  - intros cs Hcs. unfold ex_pieces in Hcs. apply elem_of_cons in Hcs as [->|Hcs]; [vm_compute; discriminate|].
    apply elem_of_cons in Hcs as [->|Hcs]; [vm_compute; discriminate|].
    apply list_elem_of_singleton in Hcs as ->. vm_compute. discriminate.
  - intros c Hc. change (c ∈ seqZ 2 58) in Hc. apply elem_of_seqZ in Hc. lia.
Defined.
Lemma ex_feed : (λ r, (concat r.2.*1, concat r.2.*2)) <$> (match feed ex_pieces (new_sieve 2) with Ok r => Some r | _ => None end) =
  Some ([2; 3], [5; 7; 11; 13; 17; 19; 23; 25; 29; 31; 35; 37; 41; 43; 47; 49; 53; 55; 59]).
Proof. vm_compute. reflexivity. Qed.
Lemma TryCandidates_is_simple_witness :
  TryCandidates (seqZ 2 30) (new_sieve 0) ([], []) = TryCandidatesSimple (seqZ 2 30) (new_sieve 0) ([], []).
Proof. apply (TryCandidates_is_simple (seqZ 2 30) (new_sieve 0) ([], [])). vm_compute. discriminate. Defined.
End PS.
