(* ===== verification/PrimeWheel.v ===== *)
(** [tools/PrimeSieve/PrimeSieveSource]: the wheel, and that it issues every
    candidate. *)
From S2P Require Import Prelude PrimeSieve.
From stdpp Require Import sorting.
From Stdlib Require Import Znumtheory.

Module PW.
Import PS.
Open Scope Z_scope.

(** ** Counting the numbers prime to a modulus *)
Definition coprimes (m n : Z) : list Z := filter (λ c, Z.gcd c m = 1) (seqZ 0 n).
Lemma coprimes_elem m n c : c ∈ coprimes m n ↔ 0 ≤ c < n ∧ Z.gcd c m = 1.
Proof. unfold coprimes. rewrite list_elem_of_filter, elem_of_seqZ. intuition lia. Qed.
Lemma coprimes_sorted m n : StronglySorted Z.lt (coprimes m n).
Proof. apply filter_sorted, seqZ_sorted. Qed.
Lemma coprimes_NoDup m n : NoDup (coprimes m n).
Proof. apply sorted_NoDup, coprimes_sorted. Qed.
Lemma sorted_shift d l : StronglySorted Z.lt l → StronglySorted Z.lt ((λ c, c + d) <$> l).
Proof.
  induction 1 as [|c l Hs IH Hc]; [constructor|]. rewrite fmap_cons. constructor; [done|].
  apply Forall_fmap. eapply Forall_impl; [done|]. intros x. cbn. lia.
Qed.
(** One turn of the wheel more. *)
Lemma coprimes_turn m r : 0 < m → 0 ≤ r →
  coprimes m ((r + 1) * m) = coprimes m (r * m) ++ ((λ c, c + r * m) <$> coprimes m m).
Proof.
  intros Hm Hr. apply sorted_ext; [apply coprimes_sorted|..].
  - apply StronglySorted_app. split_and!.
    + intros x y Hx%coprimes_elem (c & -> & Hc%coprimes_elem)%list_elem_of_fmap. nia.
    + apply coprimes_sorted.
    + apply sorted_shift, coprimes_sorted.
  - intros x. rewrite elem_of_app, list_elem_of_fmap, !coprimes_elem. split.
    + intros [Hx Hg]. destruct (Z_lt_dec x (r * m)); [left; lia|right]. exists (x - r * m). split; [lia|].
      apply coprimes_elem. split; [nia|]. replace (x - r * m) with (x + (- r) * m) by lia. rewrite Z.gcd_comm, Z.gcd_add_mult_diag_r, Z.gcd_comm. done.
    + intros [[Hx Hg]|(c & -> & [Hc Hg]%coprimes_elem)]; [split; [nia|done]|]. split; [nia|].
      rewrite Z.gcd_comm, Z.gcd_add_mult_diag_r, Z.gcd_comm. done.
Qed.
Lemma coprimes_count m r : 0 < m → 0 ≤ r →
  Z.of_nat (length (coprimes m (r * m))) = r * Z.of_nat (length (coprimes m m)).
Proof.
  intros Hm Hr. pattern r. apply natlike_ind; [done| |done]. clear r Hr. intros r Hr IH.
  change (Z.succ r) with (r + 1). rewrite coprimes_turn, length_app, length_fmap by done. lia.
Qed.
Lemma gcd_prime c m p : prime p → Z.gcd c (m * p) = 1 ↔ Z.gcd c m = 1 ∧ ¬ (p | c).
Proof.
  intros Hp. rewrite !Zgcd_1_rel_prime. split.
  - intros Hr. split.
    + apply rel_prime_sym, (rel_prime_div (m * p)); [by apply rel_prime_sym|]. apply Z.divide_factor_l.
    + intros Hd. assert (Hq : (p | 1)); [|apply Z.divide_1_r_nonneg in Hq; pose proof (prime_ge_2 p Hp); lia].
      destruct Hr as [_ _ Hr]. apply Hr; [done|apply Z.divide_factor_r].
  - intros [Hm Hd]. apply rel_prime_mult; [done|]. by apply rel_prime_sym, prime_rel_prime.
Qed.
#[local] Instance divide_decision p c : Decision (p | c) := Znumtheory.Zdivide_dec p c.
(** Another prime in the wheel. *)
Lemma coprimes_prime m p : 0 < m → prime p → Z.gcd p m = 1 →
  Z.of_nat (length (coprimes (m * p) (m * p))) = (p - 1) * Z.of_nat (length (coprimes m m)).
Proof.
  intros Hm Hp Hg. pose proof (prime_ge_2 p Hp).
  set (hit := filter (λ c, (p | c)) (coprimes m (p * m))). set (miss := filter (λ c, ¬ (p | c)) (coprimes m (p * m))).
  assert (Hmiss : coprimes (m * p) (m * p) = miss).
  { apply sorted_ext; [apply coprimes_sorted|apply filter_sorted, coprimes_sorted|].
    intros c. unfold miss. rewrite list_elem_of_filter, !coprimes_elem, gcd_prime by done.
    rewrite (Z.mul_comm p m). tauto. }
  assert (Hhit : hit ≡ₚ (λ j, p * j) <$> coprimes m m).
  { apply NoDup_Permutation.
    - apply NoDup_filter, coprimes_NoDup.
    - apply NoDup_fmap_2; [|apply coprimes_NoDup]. intros x y. nia.
    - intros c. unfold hit. rewrite list_elem_of_filter, list_elem_of_fmap, coprimes_elem. split.
      + intros [[j ->] [Hj Hgj]]. exists j. split; [lia|]. apply coprimes_elem. split; [nia|].
        apply Zgcd_1_rel_prime. apply Zgcd_1_rel_prime in Hgj. eapply rel_prime_div; [exact Hgj|]. apply Z.divide_factor_l.
      + intros (j & -> & [Hj Hgj]%coprimes_elem). split; [apply Z.divide_factor_l|]. split; [nia|].
        apply Zgcd_1_rel_prime. apply Zgcd_1_rel_prime in Hgj, Hg. apply rel_prime_sym, rel_prime_mult; by apply rel_prime_sym. }
  pose proof (filter_app_complement (λ c, (p | c)) (coprimes m (p * m))) as Hall.
  change (hit ++ miss ≡ₚ coprimes m (p * m)) in Hall.
  apply Permutation_length in Hall, Hhit. rewrite length_app in Hall. rewrite length_fmap in Hhit.
  pose proof (coprimes_count m p Hm ltac:(lia)). rewrite Hmiss. lia.
Qed.

(** ** The candidates of the constructor *)
Lemma primeb_prime c : primeb c = true ↔ prime c.
Proof.
  unfold primeb. rewrite andb_true_iff, Z.ltb_lt, forallb_forall. split.
  - intros [Hd Hc]. destruct (prime_dec c) as [|Hn]; [done|]. exfalso.
    destruct (not_prime_divide c Hc Hn) as (d & Hd1 & [e He]).
    assert (Hsmall : ∀ x y, 1 < x → 1 < y → c = x * y → x ≤ y → False).
    { intros x y Hx Hy -> Hxy. specialize (Hd x). rewrite Z.mul_comm, Z.mod_mul in Hd by lia.
      assert (Hin : In x (seqZ 2 (Z.sqrt (y * x) - 1))); [|by specialize (Hd Hin)].
      apply list_elem_of_In, elem_of_seqZ. assert (x ≤ Z.sqrt (y * x)); [|lia].
      apply Z.sqrt_le_square; nia. }
    destruct (Z_le_dec d e); [apply (Hsmall d e)|apply (Hsmall e d)]; nia.
  - intros Hp. pose proof (prime_ge_2 c Hp). split; [|lia]. intros d Hd%list_elem_of_In%elem_of_seqZ.
    apply negb_true_iff, Z.eqb_neq. intros Hm. apply Z.mod_divide in Hm; [|lia].
    assert (d * d ≤ c).
    { transitivity (Z.sqrt c * Z.sqrt c); [nia|]. apply Z.sqrt_spec. lia. }
    destruct (prime_divisors c Hp d Hm) as [?|[?|[?|?]]]; nia.
Qed.
Lemma filter_primeb (l : list Z) : filter prime l = filter (λ c, primeb c = true) l.
Proof. apply list_filter_iff. intros c. symmetry. apply primeb_prime. Qed.

(** 2, and the odd numbers before [k]. *)
Definition cands (k : Z) : list Z := 2 :: filter (λ c, Z.odd c = true) (seqZ 3 (k - 3)).
Lemma cands_elem k c : 3 ≤ k → c ∈ cands k ↔ c = 2 ∨ 3 ≤ c < k ∧ Z.odd c = true.
Proof. intros Hk. unfold cands. rewrite elem_of_cons, list_elem_of_filter, elem_of_seqZ. intuition lia. Qed.
Lemma cands_sorted k : StronglySorted Z.lt (cands k).
Proof.
  constructor; [apply filter_sorted, seqZ_sorted|]. apply Forall_forall.
  intros c [_ Hc%elem_of_seqZ]%list_elem_of_filter. lia.
Qed.
Lemma cands_stream k : 3 ≤ k → stream (cands k).
Proof.
  intros Hk. split_and!; [apply cands_sorted|..].
  - intros c Hc%cands_elem; lia.
  - intros c q Hc Hq Hd. apply (cands_elem k c Hk) in Hc. apply (cands_elem k q Hk). pose proof (prime_ge_2 q Hq).
    destruct Hc as [->|[Hc Ho]]; [left; apply Z.divide_pos_le in Hd; lia|].
    destruct (Z.eq_dec q 2); [by left|right]. split; [apply Z.divide_pos_le in Hd; lia|].
    destruct Hd as [e He]. rewrite He, Z.odd_mul in Ho. by apply andb_true_iff in Ho as [_ ?].
Qed.
Lemma cands_next k : 3 ≤ k → Z.odd k = true → cands (k + 2) = cands k ++ [k].
Proof.
  intros Hk Ho. apply sorted_ext; [apply cands_sorted|..].
  - apply StronglySorted_app. split_and!; [|apply cands_sorted|constructor; constructor].
    intros x y Hx%cands_elem ->%list_elem_of_singleton; lia.
  - intros c. rewrite elem_of_app, list_elem_of_singleton, !cands_elem by lia. split.
    + intros [->|[Hc Hoc]]; [by left; left|]. destruct (Z.eq_dec c k) as [->|]; [by right|left; right].
      split; [|done]. destruct (Z.eq_dec c (k + 1)) as [->|]; [|lia].
      change (k + 1) with (Z.succ k) in Hoc. rewrite Z.odd_succ, <- Z.negb_odd, Ho in Hoc. done.
    + intros [[->|[Hc Hoc]]| ->]; [by left|right; split; [lia|done]..].
Qed.

(** ** The primes of the wheel *)
Definition wheel_primes : list Z := [2; 3; 5; 7; 11; 13; 17; 19].
Definition wp (n : Z) : list Z := take (Z.to_nat n) wheel_primes.
Definition product (l : list Z) : Z := foldr Z.mul 1 l.
Definition P (n : Z) : Z := product (wp n).
Definition len (n : Z) : Z := default 0 (roundLengths !! Z.to_nat (n - 1)).
Definition kend (n : Z) : Z := if n =? 1 then 3 else P n + 1.
Definition fp (n k : Z) : list Z := first_primes n (cands k).
Definition fpb (n k : Z) : list Z :=
  let ps := filter (λ c, primeb c = true) (cands k) in if n =? 0 then ps else take (Z.to_nat n) ps.
Lemma fp_fpb n k : fp n k = fpb n k.
Proof. unfold fp, fpb, first_primes. by rewrite filter_primeb. Qed.
Definition sizes : list Z := [1; 2; 3; 4; 5; 6; 7; 8].
Lemma sizes_elem n : 1 ≤ n ≤ 8 → In n sizes.
Proof. intros Hn. cbn. lia. Qed.

Lemma wheel_primes_prime p : p ∈ wheel_primes → prime p.
Proof.
  intros Hp. apply primeb_prime. assert (Hall : forallb primeb wheel_primes = true) by (vm_compute; reflexivity).
  rewrite forallb_forall in Hall. by apply Hall, list_elem_of_In.
Qed.
Lemma wp_prime n p : p ∈ wp n → prime p.
Proof. intros (i & E%list_elem_of_lookup_2 & _)%elem_of_take. by apply wheel_primes_prime. Qed.
Lemma product_gcd l c : (∀ p, p ∈ l → prime p) → Z.gcd c (product l) = 1 ↔ divided l c = false.
Proof.
  induction l as [|p l IH]; intros Hl; [by rewrite Z.gcd_1_r|]. cbn [product foldr divided existsb].
  pose proof (Hl p ltac:(by left)) as Hp. pose proof (prime_ge_2 p Hp).
  rewrite Z.mul_comm, gcd_prime by done. rewrite orb_false_iff, <- IH by (intros; apply Hl; by right).
  rewrite Z.eqb_neq, Z.mod_divide by lia. unfold product. tauto.
Qed.
Lemma wheel_count n : 1 ≤ n ≤ 8 → Z.of_nat (length (coprimes (P n) (P n))) = len n.
Proof.
  assert (Hs : ∀ m p k, 0 < m → prime p → Z.gcd p m = 1 → Z.of_nat (length (coprimes m m)) = k →
    Z.of_nat (length (coprimes (m * p) (m * p))) = (p - 1) * k).
  { intros m p k Hm Hp Hg <-. by apply coprimes_prime. }
  assert (Hw : ∀ p, primeb p = true → prime p) by (intros p; apply primeb_prime).
  assert (H1 : Z.of_nat (length (coprimes 2 2)) = 1) by (vm_compute; reflexivity).
  pose proof (Hs 2 3 _ ltac:(lia) (Hw 3 eq_refl) eq_refl H1) as H2.
  pose proof (Hs 6 5 _ ltac:(lia) (Hw 5 eq_refl) eq_refl H2) as H3.
  pose proof (Hs 30 7 _ ltac:(lia) (Hw 7 eq_refl) eq_refl H3) as H4.
  pose proof (Hs 210 11 _ ltac:(lia) (Hw 11 eq_refl) eq_refl H4) as H5.
  pose proof (Hs 2310 13 _ ltac:(lia) (Hw 13 eq_refl) eq_refl H5) as H6.
  pose proof (Hs 30030 17 _ ltac:(lia) (Hw 17 eq_refl) eq_refl H6) as H7.
  pose proof (Hs 510510 19 _ ltac:(lia) (Hw 19 eq_refl) eq_refl H7) as H8.
  intros Hn. apply sizes_elem in Hn. cbn [In sizes] in Hn.
  destruct Hn as [<-|[<-|[<-|[<-|[<-|[<-|[<-|[<-|[]]]]]]]]]; assumption.
Qed.

(** ** The loop of the constructor *)
Lemma fp_late n k : 1 ≤ n ≤ 8 → 21 ≤ k → fp n k = wp n.
Proof.
  intros Hn Hk. rewrite fp_fpb. unfold fpb. destruct (Z.eqb_spec n 0); [lia|].
  assert (Hc : cands k = cands 21 ++ filter (λ c, Z.odd c = true) (seqZ 21 (k - 21))).
  { unfold cands. cbn [app]. f_equal. replace (k - 3) with (18 + (k - 21)) by lia.
    rewrite seqZ_app, filter_app by lia. done. }
  rewrite Hc, filter_app. replace (filter (λ c, primeb c = true) (cands 21)) with wheel_primes by (vm_compute; reflexivity).
  unfold wp. apply take_app_le. cbn. lia.
Qed.
(** What is computed: the first candidates. *)
Definition small_ok (n k : Z) : bool :=
  let ps := fpb n k in
  ((kend n <=? k) || (k <? product ps) || (Z.of_nat (length ps) <? n)) && (0 <=? product ps) && (product ps <=? P n) &&
  ((Z.of_nat (length ps) <? n) || bool_decide (ps = wp n)) && ((k <? kend n) || negb (k =? kend n) || bool_decide (ps = wp n)).
Lemma small_all : forallb (λ n, forallb (small_ok n) [3; 5; 7; 9; 11; 13; 15; 17; 19]) sizes = true.
Proof. vm_compute. reflexivity. Qed.
Lemma P_even n : 1 ≤ n ≤ 8 → Z.even (P n) = true ∧ 2 ≤ P n ≤ 9699690.
Proof.
  intros Hn. apply sizes_elem in Hn. cbn [In sizes] in Hn.
  destruct Hn as [<-|[<-|[<-|[<-|[<-|[<-|[<-|[<-|[]]]]]]]]]; vm_compute; split; (reflexivity || split; discriminate).
Qed.
Lemma odd_small k : 3 ≤ k < 21 → Z.odd k = true → In k [3; 5; 7; 9; 11; 13; 15; 17; 19].
Proof.
  intros Hk Ho. assert (Hin : In k (seqZ 3 18)) by (apply list_elem_of_In, elem_of_seqZ; lia).
  cbn in Hin. repeat (destruct Hin as [<-|Hin]; [cbn in *; tauto || discriminate|]). done.
Qed.
Lemma small_facts n k : 1 ≤ n ≤ 8 → 3 ≤ k < 21 → Z.odd k = true → small_ok n k = true.
Proof.
  intros Hn Hk Ho. pose proof small_all as Ha. rewrite forallb_forall in Ha.
  specialize (Ha n (sizes_elem n Hn)). rewrite forallb_forall in Ha. by apply Ha, odd_small.
Qed.
Record facts (n k : Z) : Prop := {
  f_on : k < kend n → (k <? product (fp n k)) || (Z.of_nat (length (fp n k)) <? n) = true;
  f_product : 0 ≤ product (fp n k) ≤ P n;
  f_full : n ≤ Z.of_nat (length (fp n k)) → fp n k = wp n;
  f_end : k = kend n → fp n k = wp n }.
Lemma all_facts n k : 1 ≤ n ≤ 8 → 3 ≤ k ≤ kend n → Z.odd k = true → facts n k.
Proof.
  intros Hn Hk Ho. destruct (P_even n Hn) as [Hev HP]. destruct (Z_lt_dec k 21) as [Hs|Hl].
  - pose proof (small_facts n k Hn ltac:(lia) Ho) as Hf. unfold small_ok in Hf. rewrite <- fp_fpb in Hf.
    rewrite !andb_true_iff, !orb_true_iff, !negb_true_iff, bool_decide_eq_true in Hf.
    destruct Hf as ((((H1 & H2) & H3) & H4) & H5). split; rewrite ?orb_true_iff.
    + intros Hlt. destruct H1 as [[H1|H1]|H1]; [apply Z.leb_le in H1; lia|by left|by right].
    + lia.
    + intros Hle. destruct H4 as [H4|H4]; [apply Z.ltb_lt in H4; lia|done].
    + intros ->. destruct H5 as [[H5|H5]|H5]; [apply Z.ltb_lt in H5; lia|by rewrite Z.eqb_refl in H5|done].
  - split; rewrite (fp_late n k) by lia; try done.
    + intros Hlt. apply orb_true_iff. left. apply Z.ltb_lt. change (k < P n). unfold kend in Hlt.
      destruct (n =? 1); [lia|]. destruct (Z.eq_dec k (P n)) as [->|]; [|lia]. rewrite <- Z.negb_even, Hev in Ho. done.
    + change (0 ≤ P n ≤ P n). lia.
Qed.

Section loop.
Context `{Heaps} `{!PopsAdvanced}.

(** The state of the loop at the candidate [k]. *)
Record at_k (n k : Z) (s : PrimeSieve) (prod : Z) (primes buf : list Z) : Prop := {
  k_tracks : tracks (fp n k) (k - 1) s;
  k_max : maxNumPrimes s = n;
  k_prod : prod = product (fp n k);
  k_primes : primes = fp n k;
  k_buf : buf = 1 :: undivided (fp n k) (cands k) }.

Lemma fp_bound n k p : 3 ≤ k → p ∈ fp n k → 1 < p ≤ k - 1.
Proof. intros Hk Hp. destruct (first_primes_elem _ _ _ Hp) as [_ Hc]. apply cands_elem in Hc; lia. Qed.
Lemma fp_two n k : 1 ≤ n → 3 ≤ k → fp n k ≠ [].
Proof.
  intros Hn Hk. rewrite fp_fpb. unfold fpb, cands. rewrite filter_cons_True by (vm_compute; reflexivity).
  destruct (Z.eqb_spec n 0); [lia|]. destruct (Z.to_nat n) eqn:E; [lia|]. done.
Qed.
Lemma product_snoc l c : product (l ++ [c]) = product l * c.
Proof. induction l as [|x l IH]; cbn [product foldr app]; [lia|]. unfold product in IH. rewrite IH. lia. Qed.
(** One candidate more: what becomes of the primes, and of the others. *)
Lemma next_k n k : 0 ≤ n → 3 ≤ k → Z.odd k = true →
  closed (fp n k) k ∧
  fp n (k + 2) = (if negb (divided (fp n k) k) && room n (fp n k) then fp n k ++ [k] else fp n k) ∧
  undivided (fp n (k + 2)) (cands (k + 2)) = undivided (fp n k) (cands k) ++
    (if negb (divided (fp n k) k) && negb (room n (fp n k)) then [k] else []).
Proof.
  intros Hn Hk Ho. pose proof (cands_next k Hk Ho) as Hc. pose proof (cands_stream (k + 2) ltac:(lia)) as Hst.
  destruct (stream_trial n Hn _ (cands k) [k] Hst Hc) as [Et _].
  destruct (stream_trial n Hn _ (cands (k + 2)) [] Hst) as [Et' Hsu]; [by rewrite app_nil_r|].
  fold (fp n k) in *. fold (fp n (k + 2)) in *. rewrite Hc in Et' at 1. rewrite Hc, suited_app, Et in Hsu.
  destruct Hsu as (_ & Hcl & _). rewrite trial_app, Et in Et'. cbn [trial] in Et'. split; [done|].
  destruct (divided (fp n k) k); cbn [negb andb] in *; [|destruct (room n (fp n k)); cbn [negb andb] in *];
    injection Et' as E1 E2 E3; rewrite <- E3, <- E1; by rewrite ?app_nil_r.
Qed.

Lemma tracks_length ps lo s : tracks ps lo s → NumPrimes s = Z.of_nat (length ps).
Proof.
  intros (_ & l & He & Hp & _). unfold NumPrimes. rewrite He, <- Hp. by rewrite !length_fmap.
Qed.
Lemma wp_length n : 1 ≤ n ≤ 8 → Z.of_nat (length (wp n)) = n.
Proof. intros Hn. unfold wp. rewrite length_take. cbn [length wheel_primes]. lia. Qed.
Lemma two_in_wp n : 1 ≤ n → 2 ∈ wp n.
Proof. intros Hn. unfold wp. destruct (Z.to_nat n) eqn:E; [lia|]. by left. Qed.
Lemma wp_gt n p : p ∈ wp n → 1 < p.
Proof. intros Hp. by apply prime_ge_2, Z.le_succ_l in Hp || (pose proof (prime_ge_2 p (wp_prime n p Hp)); lia). Qed.
(** The buffer is full of numbers prime to the product. *)
Lemma buffer_coprimes n k : 1 ≤ n ≤ 8 → 3 ≤ k → ∀ c, c ∈ 1 :: undivided (wp n) (cands k) →
  1 ≤ c ∧ (c < k) ∧ Z.gcd c (P n) = 1.
Proof.
  intros Hn Hk c [->|[Hc Hd]%undivided_elem]%elem_of_cons; [split; [lia|]; split; [lia|apply Z.gcd_1_l]|].
  assert (Hg : Z.gcd c (P n) = 1) by (apply product_gcd; [apply wp_prime|done]).
  apply cands_elem in Hc; [|done]. split; [lia|]. split; [|done]. destruct Hc as [->|]; lia.
Qed.
Lemma buffer_sorted ps k : StronglySorted Z.lt (1 :: undivided ps (cands k)).
Proof.
  constructor; [apply filter_sorted, cands_sorted|]. apply Forall_forall. intros c [Hc _]%undivided_elem.
  unfold cands in Hc. apply elem_of_cons in Hc as [->|[_ Hc%elem_of_seqZ]%list_elem_of_filter]; lia.
Qed.
Lemma sorted_subset_length l k : StronglySorted Z.lt l → (∀ x, x ∈ l → x ∈ k) → (length l ≤ length k)%nat.
Proof. intros Hs Hin. apply submseteq_length, NoDup_submseteq; [by apply sorted_NoDup|done]. Qed.
Lemma buffer_length n k : 1 ≤ n ≤ 8 → 3 ≤ k → k ≤ P n + 1 →
  Z.of_nat (length (1 :: undivided (wp n) (cands k))) ≤ len n.
Proof.
  intros Hn Hk Hle. rewrite <- wheel_count by done. apply inj_le, sorted_subset_length; [apply buffer_sorted|].
  intros c Hc. destruct (buffer_coprimes n k Hn Hk c Hc) as (H1 & H2 & Hg). apply coprimes_elem. split; [|done].
  split; [lia|]. destruct (Z.eq_dec c (P n)) as [->|]; [|lia]. rewrite Z.gcd_diag in Hg.
  destruct (P_even n Hn) as [_ ?]. lia.
Qed.
Lemma buffer_final n : 1 ≤ n ≤ 8 → 1 :: undivided (wp n) (cands (kend n)) = coprimes (P n) (P n).
Proof.
  intros Hn. destruct (P_even n Hn) as [Hev HP].
  assert (Hk : 3 ≤ kend n ∧ P n ≤ kend n ∧ kend n ≤ P n + 1).
  { unfold kend. destruct (Z.eqb_spec n 1) as [->|]; [vm_compute; repeat split; discriminate|].
    assert (P n ≠ 2); [|lia]. apply sizes_elem in Hn. cbn [In sizes] in Hn.
    destruct Hn as [<-|[<-|[<-|[<-|[<-|[<-|[<-|[<-|[]]]]]]]]]; vm_compute; done. }
  apply sorted_ext; [apply buffer_sorted|apply coprimes_sorted|]. intros c. split.
  - intros Hc. destruct (buffer_coprimes n (kend n) Hn ltac:(lia) c Hc) as (H1 & H2 & Hg). apply coprimes_elem.
    split; [|done]. split; [lia|]. destruct (Z.eq_dec c (P n)) as [->|]; [|lia]. rewrite Z.gcd_diag in Hg. lia.
  - intros [Hc Hg]%coprimes_elem. destruct (Z.eq_dec c 1) as [->|]; [by left|right]. apply undivided_elem.
    split; [|by apply product_gcd in Hg; [|apply wp_prime]]. apply cands_elem; [lia|right].
    assert (Ho : Z.odd c = true).
    { destruct (Z.odd c) eqn:Ho; [done|]. apply (f_equal negb) in Ho. rewrite Z.negb_odd in Ho.
      apply Z.even_spec in Ho as [a Ha]. apply Z.even_spec in Hev as [b Hb].
      assert (Hd : (2 | Z.gcd c (P n))); [|rewrite Hg in Hd; apply Z.divide_1_r_nonneg in Hd; lia].
      apply Z.gcd_greatest; [exists a|exists b]; lia. }
    split; [|done]. split; [|lia]. destruct (Z.eq_dec c 0) as [->|]; [done|]. destruct (Z.eq_dec c 2) as [->|]; [done|]. lia.
Qed.

Lemma source_run n d : 1 ≤ n ≤ 8 → ∀ k fuel s prod primes buf, at_k n k s prod primes buf →
  3 ≤ k → Z.odd k = true → k + 2 * Z.of_nat d = kend n → (d < fuel)%nat →
  source_loop fuel n (len n) k s prod primes buf = Ok (P n, wp n, coprimes (P n) (P n)).
Proof.
  intros Hn. destruct (P_even n Hn) as [Hev HP].
  assert (Hke : kend n ≤ 9699691) by (unfold kend; destruct (n =? 1); lia).
  induction d as [|d IH]; intros k fuel s prod primes buf [Ht Hmax Hpr Hps Hbuf] Hk Ho Hd Hfuel;
    (destruct fuel as [|fuel]; [lia|]); destruct (all_facts n k Hn ltac:(lia) Ho) as [Hon Hprod Hfull Hend]; cbn [source_loop].
  - assert (Ek : k = kend n) by lia. rewrite (Hend Ek) in *. rewrite (tracks_length _ _ _ Ht), wp_length, Z.ltb_irrefl by done.
    rewrite Hpr, Hps, Hbuf, Ek, buffer_final by done. rewrite (proj2 (Z.ltb_ge _ _)); [done|].
    change (P n ≤ kend n). unfold kend. destruct (Z.eqb_spec n 1) as [->|]; [vm_compute; discriminate|lia].
  - rewrite (tracks_length _ _ _ Ht), Hpr, Hon by lia. unfold mbind, res_bind.
    destruct (next_k n k ltac:(lia) Hk Ho) as (Hcl & Ef & Eu).
    destruct (TryCandidate_step (fp n k) (k - 1) k s) as (s' & -> & Ht' & Hm'); try done; try lia.
    { apply fp_two; lia. } { by intros p Hp; apply (fp_bound n k). }
    assert (Hnext : ∀ prod' primes' buf', prod' = product (fp n (k + 2)) → primes' = fp n (k + 2) →
      buf' = 1 :: undivided (fp n (k + 2)) (cands (k + 2)) →
      source_loop fuel n (len n) (u64 (k + 2)) s' prod' primes' buf' = Ok (P n, wp n, coprimes (P n) (P n))).
    { intros prod' primes' buf' -> -> ->. rewrite u64_id by lia. apply IH; try lia.
      - split; try done; [|congruence]. rewrite Ef. rewrite Hmax in Ht'. eapply tracks_mono, Ht'. lia.
      - by rewrite Z.odd_add, Ho. }
    rewrite Hmax in *. assert (Hfacts : facts n (k + 2)) by (apply all_facts; [done|lia|by rewrite Z.odd_add, Ho]).
    destruct Hfacts as [_ Hprod' _ _].
    destruct (divided (fp n k) k); cbn [negb andb] in Ef, Eu; [|destruct (room n (fp n k)) eqn:Er; cbn [negb andb] in Ef, Eu].
    + apply Hnext; rewrite ?Eu, ?Ef, ?app_nil_r; done.
    + apply Hnext; rewrite ?Eu, ?Ef, ?app_nil_r; try done.
      * rewrite product_snoc, u64_id; [done|]. rewrite <- product_snoc, <- Ef. lia.
      * by rewrite Hps.
    + assert (Hw : fp n k = wp n).
      { apply Hfull. unfold room in Er. apply orb_false_iff in Er as [_ Er]. apply Z.ltb_ge in Er. lia. }
      assert (Hlen : Z.of_nat (length (buf ++ [k])) ≤ len n).
      { rewrite Hbuf. change ((1 :: undivided (fp n k) (cands k)) ++ [k]) with (1 :: (undivided (fp n k) (cands k) ++ [k])).
        rewrite <- Eu, Ef, Hw. apply buffer_length; [done|lia|]. unfold kend in Hd. destruct (Z.eqb_spec n 1) as [->|]; lia. }
      rewrite length_app in Hlen. cbn [length] in Hlen. rewrite (proj2 (Z.ltb_lt _ _)) by lia.
      apply Hnext; rewrite ?Eu, ?Ef; try done. by rewrite Hbuf.
Qed.

Lemma new_source_ok n : 1 ≤ n ≤ 8 →
  new_source n = Ok (mk_source 0 0 (P n) (len n) (coprimes (P n) (P n)), wp n).
Proof.
  intros Hn. unfold new_source, assert. rewrite (proj2 (Z.ltb_lt 0 n)), (proj2 (Z.leb_le n 8)) by lia.
  unfold mbind, res_bind. cbn [TryCandidate primeSieve new_sieve]. fold (len n).
  destruct (tracks_push [] 0 2 (new_sieve n)) as (s & Es & Ht & Hm); [apply tracks_new|lia..|].
  unfold mbind, res_bind. rewrite Es.
  rewrite (source_run n (Z.to_nat ((kend n - 3) / 2)) Hn 3); try done.
  - assert (Hf : fp n 3 = [2]).
    { rewrite fp_fpb. unfold fpb. destruct (Z.eqb_spec n 0); [lia|].
      change (filter (λ c, primeb c = true) (cands 3)) with [2]. destruct (Z.to_nat n) eqn:E; [lia|]. cbn. by rewrite take_nil. }
    split; by rewrite ?Hf.
  - unfold kend. destruct (Z.eqb_spec n 1) as [->|]; [done|]. destruct (P_even n Hn) as [[a Ha]%Z.even_spec HP].
    assert (P n ≠ 2).
    { apply sizes_elem in Hn. cbn [In sizes] in Hn.
      destruct Hn as [<-|[<-|[<-|[<-|[<-|[<-|[<-|[<-|[]]]]]]]]]; vm_compute; done. }
    rewrite Z2Nat.id by (apply Z.div_pos; lia). replace (P n + 1 - 3) with ((a - 1) * 2) by lia. rewrite Z.div_mul; lia.
  - destruct (P_even n Hn) as [_ HP]. unfold kend. apply Z2Nat.inj_lt; [destruct (n =? 1); apply Z.div_pos; lia|lia|].
    apply Z.div_lt_upper_bound; [lia|]. destruct (n =? 1); lia.
Qed.

(** ** The rounds *)
Fixpoint rounds (r : nat) (s : PrimeSieveSource) : res (PrimeSieveSource * list (list Z)) :=
  match r with
  | O => Ok (s, [])
  | S r =>
      '(s, dest) ← GetNextRound s;
      '(s, os) ← rounds r s;
      Ok (s, dest :: os)
  end.
(** A source that has issued [i] rounds. *)
Definition issued (n i : Z) : PrimeSieveSource :=
  mk_source i (if i =? 0 then 0 else (i - 1) * P n) (P n) (len n) (coprimes (P n) (P n)).
Definition beyond_one (m N : Z) : list Z := filter (λ c, Z.gcd c m = 1) (seqZ 2 (N - 2)).
Lemma beyond_one_elem m N c : c ∈ beyond_one m N ↔ 2 ≤ c < N ∧ Z.gcd c m = 1.
Proof. unfold beyond_one. rewrite list_elem_of_filter, elem_of_seqZ. intuition lia. Qed.
Lemma coprimes_first m : 2 ≤ m → coprimes m m = 1 :: beyond_one m m.
Proof.
  intros Hm. apply sorted_ext; [apply coprimes_sorted|constructor|].
  - apply filter_sorted, seqZ_sorted.
  - apply Forall_forall. intros c [Hc _]%beyond_one_elem. lia.
  - intros c. rewrite elem_of_cons, beyond_one_elem, coprimes_elem. split.
    + intros [Hc Hg]. destruct (Z.eq_dec c 0) as [->|]; [rewrite Z.gcd_0_l in Hg; lia|].
      destruct (Z.eq_dec c 1); [by left|right; lia].
    + intros [->|[Hc Hg]]; [split; [lia|apply Z.gcd_1_l]|split; [lia|done]].
Qed.
Lemma beyond_one_turn m i : 2 ≤ m → 1 ≤ i →
  beyond_one m ((i + 1) * m) = beyond_one m (i * m) ++ ((λ c, c + i * m) <$> coprimes m m).
Proof.
  intros Hm Hi. pose proof (coprimes_turn m i ltac:(lia) ltac:(lia)) as Ht.
  assert (Hc : ∀ N, 2 ≤ N → coprimes m N = 1 :: beyond_one m N).
  { intros N HN. unfold coprimes, beyond_one. replace N with (2 + (N - 2)) at 1 by lia.
    rewrite seqZ_app, filter_app by lia. change (seqZ 0 2) with [0; 1].
    rewrite filter_cons_False by (rewrite Z.gcd_0_l; lia). rewrite filter_cons_True by apply Z.gcd_1_l. done. }
  rewrite !Hc in Ht by nia. cbn [app] in Ht. rewrite <- (Hc m Hm) in Ht. by injection Ht.
Qed.
Lemma round_first n : 1 ≤ n ≤ 8 → GetNextRound (issued n 0) = Ok (issued n 1, beyond_one (P n) (P n)).
Proof.
  intros Hn. destruct (P_even n Hn) as [_ HP]. unfold GetNextRound, issued.
  cbn [buffer roundLength whichRound baseValue cumprod Z.eqb]. rewrite wheel_count, Z.eqb_refl by done.
  cbn [negb]. by rewrite coprimes_first by lia.
Qed.
Lemma round_next n i : 1 ≤ n ≤ 8 → 1 ≤ i → (i + 1) * P n < 18446744073709551616 →
  GetNextRound (issued n i) = Ok (issued n (i + 1), (λ c, c + i * P n) <$> coprimes (P n) (P n)).
Proof.
  intros Hn Hi Hb. destruct (P_even n Hn) as [_ HP]. unfold GetNextRound, issued.
  cbn [buffer roundLength whichRound baseValue cumprod]. rewrite wheel_count, Z.eqb_refl by done.
  destruct (Z.eqb_spec i 0); [lia|]. destruct (Z.eqb_spec (i + 1) 0); [lia|]. cbn [negb].
  replace ((i - 1) * P n + P n) with (i * P n) by lia. rewrite (u64_id (i * P n)), (u64_id (i + 1)) by nia.
  replace (i + 1 - 1) with i by lia. do 2 f_equal.
  apply list_fmap_ext. intros j c Ec%list_elem_of_lookup_2%coprimes_elem. apply u64_id. nia.
Qed.
Lemma rounds_from n r : 1 ≤ n ≤ 8 → ∀ i, 1 ≤ i → (i + Z.of_nat r) * P n < 18446744073709551616 →
  ∃ os, rounds r (issued n i) = Ok (issued n (i + Z.of_nat r), os) ∧
    beyond_one (P n) ((i + Z.of_nat r) * P n) = beyond_one (P n) (i * P n) ++ concat os.
Proof.
  intros Hn. destruct (P_even n Hn) as [_ HP]. induction r as [|r IH]; intros i Hi Hb.
  { exists []. cbn. rewrite app_nil_r, Z.add_0_r. done. }
  cbn [rounds]. rewrite round_next by (done || nia). unfold mbind, res_bind.
  destruct (IH (i + 1)) as (os & -> & Eb); [lia|nia|].
  exists (((λ c, c + i * P n) <$> coprimes (P n) (P n)) :: os). replace (i + Z.of_nat (S r)) with (i + 1 + Z.of_nat r) by lia.
  split; [done|]. cbn [concat]. by rewrite Eb, beyond_one_turn, <- app_assoc by lia.
Qed.

(** For one to eight primes, the constructor gives the first primes and a source
    whose rounds are together, in order, all numbers from 2 up to the rounds times
    the product of the primes that none of these primes divides; the buffer and the
    round lengths written into the code fit exactly. *)
Theorem wheel_enumerates n r : 1 ≤ n ≤ 8 → Z.of_nat r * P n < 18446744073709551616 →
  ∃ s s' os, new_source n = Ok (s, wp n) ∧ rounds r s = Ok (s', os) ∧
    cumprod s = P n ∧ roundLength s = Z.of_nat (length (buffer s)) ∧
    concat os = filter (λ c, Z.gcd c (P n) = 1) (seqZ 2 (Z.of_nat r * P n - 2)).
Proof.
  intros Hn Hr. destruct (P_even n Hn) as [_ HP]. exists (issued n 0). rewrite new_source_ok by done.
  assert (Hl : roundLength (issued n 0) = Z.of_nat (length (buffer (issued n 0)))) by (cbn; by rewrite wheel_count).
  destruct r as [|r]; [by exists (issued n 0), []|].
  destruct (rounds_from n r Hn 1 ltac:(lia)) as (os & Er & Eb); [lia|].
  exists (issued n (1 + Z.of_nat r)), (beyond_one (P n) (P n) :: os). split_and!; try done.
  - cbn [rounds]. rewrite round_first by done. unfold mbind, res_bind. by rewrite Er.
  - cbn [concat]. rewrite Z.mul_1_l in Eb. replace (Z.of_nat (S r)) with (1 + Z.of_nat r) by lia. by rewrite <- Eb.
Qed.
End loop.

#[local] Existing Instances Binary Binary_advanced.
Lemma wheel_enumerates_witness : ∃ s s' os, new_source 3 = Ok (s, [2; 3; 5]) ∧ rounds 2 s = Ok (s', os) ∧
  cumprod s = 30 ∧ roundLength s = Z.of_nat (length (buffer s)) ∧ concat os = filter (λ c, Z.gcd c 30 = 1) (seqZ 2 58).
Proof. apply (wheel_enumerates 3 2); [lia|vm_compute; reflexivity]. Defined.
End PW.
