(* ===== verification/ThresholdSieve.v ===== *)
(** [apps/SieveOfEratosthenes/ThresholdSieve]: the network that finds primes, from
    its producer through the filters that it makes as it runs to its controller.

    A node is a function from the streams that it reads to the streams that it
    writes: that a queue gives its reader what its writer put in, in order, and its
    end, is [QB.queue_is_a_stream] and [RS.remote_queue_is_a_stream], and that reads
    block, so that a node cannot see when data come, makes the functions the whole
    of a node.  The composition is that of queues without bound: what the streams are
    when no write waits for room.  A network whose queues are no longer than the
    threshold can deadlock, as the help of its [main] says, and then gives out less;
    nothing here says that it does not.  The heap functions are those of [PrimeSieve],
    with the law [PopsAdvanced]. *)
From S2P Require Import Prelude PrimeSieve PrimeWheel.
From stdpp Require Import sorting.
From Stdlib Require Import Znumtheory.

Module TS.
Import PS PW.
Open Scope Z_scope.

(** [ThresholdSieveOptions], as far as the nodes use them; the polynomial of
    [primesPerFilter] at a filter's number, rounded down. *)
Class Options := {
  maxprime : Z; threshold : Z; numPrimesSource : Z; ppf_at : Z → Z }.

Section nodes.
Context `{Heaps} `{Options}.

(** [(NumberT)(ceil(sqrt(opts.maxprime)))], which the doubles give exactly for the
    [int] that the bound is read into. *)
Definition cutoff : Z := Z.sqrt_up maxprime.
Definition PrimesPerFilter (filtercount : Z) : Z := if ppf_at filtercount <? 1 then 1 else ppf_at filtercount.

(** How [GetDequeueCount] cuts what a filter reads: a threshold at a time, and what is
    left when the queue has ended. *)
Fixpoint cut (fuel : nat) (n : nat) (l : list Z) : list (list Z) :=
  match fuel, l with
  | S fuel, _ :: _ => take n l :: cut fuel n (drop n l)
  | _, _ => []
  end.
Definition pieces (input : list Z) : list (list Z) := cut (length input) (Z.to_nat threshold) input.

(** ** [ThresholdSieveFilter::Process] *)
(** [while (loop && numPassed == 0)]: the sieve, what went to the controller, and
    [buffer] with the pieces that come after it, unless the input has ended. *)
Fixpoint first_loop (l : list (list Z)) (sieve : PrimeSieve) (out : list Z) :
    res (PrimeSieve * list Z * option (list Z * list (list Z))) :=
  match l with
  | [] => Ok (sieve, out, None)
  | inbuff :: l =>
      '(sieve, (primes, passed)) ← TryCandidates inbuff sieve ([], []);
      match passed with
      | [] => first_loop l sieve (out ++ primes)
      | _ => Ok (sieve, out ++ primes, Some (passed, l))
      end
  end.
(** [while (loop)] *)
Fixpoint second_loop (l : list (list Z)) (sieve : PrimeSieve) (out : list Z) : res (list Z) :=
  match l with
  | [] => Ok out
  | inbuff :: l =>
      '(sieve, (primes, passed)) ← TryCandidates inbuff sieve ([], []);
      assert (Z.of_nat (length primes) =? 0) ;;
      second_loop l sieve (out ++ passed)
  end.
(** What the controller gets from it, and what the filter that it created. *)
Record written := mk_written { control : list Z; created : option (list Z) }.
Definition filter_Process (filtercount : Z) (input : list Z) : res written :=
  '(sieve, out, more) ← first_loop (pieces input) (new_sieve (PrimesPerFilter filtercount)) [];
  match more with
  | None => Ok (mk_written out None)
  | Some ([], _) => Err OutOfBounds
  | Some ((b :: _) as buffer, l) =>
      rest ← second_loop l sieve buffer;
      if b <=? cutoff then Ok (mk_written out (Some rest)) else Ok (mk_written (out ++ rest) None)
  end.

(** ** [ThresholdSieveProducer::Process] *)
Fixpoint fill (index : nat) (counter : Z) : list Z :=
  match index with
  | O => []
  | S index => if counter <? maxprime then counter :: fill index (counter + 1) else []
  end.
Fixpoint simple_loop (fuel : nat) (counter : Z) : res (list Z) :=
  if counter <? maxprime then
    match fuel with
    | O => Err Diverges
    | S fuel =>
        let outbuff := fill (Z.to_nat threshold) counter in
        rest ← simple_loop fuel (counter + Z.of_nat (length outbuff));
        Ok (outbuff ++ rest)
    end
  else Ok [].
Fixpoint wheel_loop (fuel : nat) (source : PrimeSieveSource) : res (list Z) :=
  match fuel with
  | O => Err Diverges
  | S fuel =>
      '(source, outbuff) ← GetNextRound source;
      if match last outbuff with Some c => maxprime <? c | None => false end then Ok outbuff
      else rest ← wheel_loop fuel source; Ok (outbuff ++ rest)
  end.
(** What the controller and the first filter get. *)
Definition producer_Process : res (list Z * list Z) :=
  if 0 <? numPrimesSource then
    '(source, primes) ← new_source numPrimesSource;
    input ← wheel_loop (S (S (Z.to_nat maxprime))) source;
    Ok (primes, input)
  else input ← simple_loop (Z.to_nat maxprime) 2; Ok ([], input).

(** ** [ThresholdSieveController::Process] *)
(** The ports of the producer and of the filters, which it reads to their ends; what
    it gives out, and whether it ends, or else waits for a port that nobody makes. *)
Fixpoint controller_Process (ports : list (list Z)) (lastprime : Z) : list Z * bool :=
  match ports with
  | [] => ([], false)
  | port :: ports =>
      let lastprime := default lastprime (last port) in
      if cutoff <? lastprime then (port, true)
      else let (out, ended) := controller_Process ports lastprime in (port ++ out, ended)
  end.

(** ** The network *)
(** The filters, each the reader of the one that made it, and the whole network, as
    functions of streams. *)
Fixpoint filters (fuel : nat) (filtercount : Z) (input : list Z) : res (list (list Z)) :=
  match fuel with
  | O => Err Diverges
  | S fuel =>
      w ← filter_Process filtercount input;
      match created w with
      | None => Ok [control w]
      | Some next => ports ← filters fuel (filtercount + 1) next; Ok (control w :: ports)
      end
  end.
Definition sieve_network : res (list Z * bool) :=
  '(port, input) ← producer_Process;
  ports ← filters (S (length input)) 1 input;
  Ok (controller_Process (port :: ports) 0).
End nodes.

(** ** What a filter does to a stream *)
Section filter.
Context `{Heaps} {advanced : PopsAdvanced} `{Options}.

Lemma cut_concat fuel n l : (0 < n)%nat → (length l ≤ fuel)%nat → concat (cut fuel n l) = l.
Proof.
  intros Hn. revert l. induction fuel as [|fuel IH]; intros l Hl; [by destruct l; [|cbn in Hl; lia]|].
  destruct l as [|c l]; [done|]. cbn [cut]. change (concat (?a :: ?b)) with (a ++ concat b).
  rewrite IH; [apply take_drop|]. rewrite length_drop. cbn [length] in *. lia.
Qed.
Lemma cut_pieces fuel n l cs : (0 < n)%nat → cs ∈ cut fuel n l → cs ≠ [].
Proof.
  intros Hn. revert l. induction fuel as [|fuel IH]; intros l Hin; [by apply not_elem_of_nil in Hin|].
  destruct l as [|c l]; [by apply not_elem_of_nil in Hin|]. cbn [cut] in Hin.
  apply elem_of_cons in Hin as [->|Hin]; [destruct n; [lia|done]|by eapply IH].
Qed.
Lemma pieces_concat l : 0 < threshold → concat (pieces l) = l.
Proof. intros Ht. apply cut_concat; lia. Qed.

Lemma second_loop_ok m l : ∀ ps lo hi s out, fed m ps lo hi s l → room m ps = false →
  second_loop l s out = Ok (out ++ (trial m ps (concat l)).2.2).
Proof.
  induction l as [|cs l IH]; intros ps lo hi s out Hf Hr; cbn [second_loop concat]; [by rewrite app_nil_r|].
  destruct (fed_step _ _ _ _ _ _ _ Hf) as (s' & ps' & lo' & P & Q & Et & -> & Hf').
  destruct (trial_full m ps cs Hr) as [Q' Et']. rewrite Et' in Et. injection Et as <- <- <-.
  unfold mbind, res_bind, assert. cbn [length Z.of_nat Z.eqb].
  rewrite (IH _ _ _ _ _ Hf' Hr), trial_app, Et'. destruct (trial m ps (concat l)) as [? [? ?]]. cbn. by rewrite <- app_assoc.
Qed.
Lemma first_loop_ok m l : ∀ ps lo hi s out, fed m ps lo hi s l →
  ∃ P Q, (trial m ps (concat l)).2 = (P, Q) ∧
    ((Q = [] ∧ ∃ s', first_loop l s out = Ok (s', out ++ P, None)) ∨
     (∃ s' b Q1 l', first_loop l s out = Ok (s', out ++ P, Some (b :: Q1, l')) ∧
       second_loop l' s' (b :: Q1) = Ok Q ∧ head Q = Some b)).
Proof.
  induction l as [|cs l IH]; intros ps lo hi s out Hf; cbn [first_loop concat].
  { exists [], []. split; [done|]. left. split; [done|]. exists s. by rewrite app_nil_r. }
  destruct (fed_step _ _ _ _ _ _ _ Hf) as (s' & ps' & lo' & P & Q & Et & -> & Hf').
  unfold mbind, res_bind. rewrite trial_app, Et. destruct Q as [|b Q].
  - destruct (IH _ _ _ _ (out ++ P) Hf') as (P' & Q' & Et' & Hr).
    destruct (trial m ps' (concat l)) as [? [? ?]]. cbn in Et'. injection Et' as -> ->.
    exists (P ++ P'), Q'. split; [done|]. by rewrite app_assoc.
  - pose proof (trial_passed _ _ _ _ _ _ Et ltac:(done)) as Hr.
    destruct (trial_full m ps' (concat l) Hr) as [Q' Et']. rewrite Et'. exists P, ((b :: Q) ++ Q').
    rewrite app_nil_r. split; [done|]. right. exists s', b, Q, l. split; [done|]. split; [|done].
    rewrite (second_loop_ok _ _ _ _ _ _ (b :: Q) Hf' Hr), Et'. done.
Qed.

(** A filter keeps the first primes, and gives what they do not divide to the next
    filter, or all to the controller when it cannot hold a product any more. *)
Lemma PrimesPerFilter_pos n : 1 ≤ PrimesPerFilter n.
Proof. unfold PrimesPerFilter. destruct (Z.ltb_spec (ppf_at n) 1); lia. Qed.
Lemma filter_ok n input : 0 < threshold → stream input → (∀ c, c ∈ input → 5 * c < 18446744073709551616) →
  let ps := first_primes (PrimesPerFilter n) input in
  let rest := undivided ps input in
  filter_Process n input = Ok (match head rest with
                               | None => mk_written ps None
                               | Some b => if b <=? cutoff then mk_written ps (Some rest) else mk_written (ps ++ rest) None
                               end).
Proof.
  intros Ht Hst Hb ps rest. pose proof (PrimesPerFilter_pos n) as Hm. set (m := PrimesPerFilter n) in *.
  pose proof (pieces_concat input Ht) as Ec. pose proof Hst as Hst'. rewrite <- Ec in Hst', Hb.
  assert (Hne : ∀ cs, cs ∈ pieces input → cs ≠ []) by (intros cs; apply cut_pieces; lia).
  pose proof (fed_new m (pieces input) ltac:(lia) Hst' Hne Hb) as Hf.
  destruct (first_loop_ok _ _ _ _ _ _ [] Hf) as (P & Q & Et & Hr). rewrite Ec in Et.
  destruct (stream_trial m ltac:(lia) input input [] Hst) as [Et' _]; [by rewrite app_nil_r|].
  rewrite Et' in Et. injection Et as <- <-. fold ps rest in Hr. unfold filter_Process. fold m.
  destruct Hr as [[-> (s' & ->)]|(s' & b & Q1 & l' & -> & E2 & ->)]; [done|].
  unfold mbind, res_bind. rewrite E2. by destruct (b <=? cutoff).
Qed.

(** ** The network *)
Lemma undivided_shorter m cs : 0 < m → stream cs → cs ≠ [] →
  first_primes m cs ≠ [] ∧ (length (undivided (first_primes m cs) cs) < length cs)%nat.
Proof.
  intros Hm (Hso & H1 & Hcl) Hne. destruct cs as [|c cs]; [done|]. set (l := c :: cs) in *.
  destruct (prime_divisor_in c) as (q & Hq & Hd); [apply H1; by left|].
  assert (Hf : q ∈ filter prime l) by (apply list_elem_of_filter; split; [done|eapply Hcl; [by left|done..]]).
  assert (Hps : first_primes m l ≠ []).
  { unfold first_primes. destruct (Z.eqb_spec m 0); [lia|]. destruct (filter prime l); [by apply not_elem_of_nil in Hf|].
    destruct (Z.to_nat m) eqn:E; [lia|done]. }
  split; [done|]. destruct (first_primes m l) as [|p ps] eqn:E; [done|].
  destruct (first_primes_elem m l p) as [Hp Hin]; [rewrite E; by left|]. unfold undivided.
  eapply length_filter_lt; [exact Hin|]. intros Hdf. cbn in Hdf. rewrite Z.mod_same in Hdf; [done|].
  pose proof (prime_ge_2 p Hp). lia.
Qed.
(** The first candidate that is passed is a prime, beyond the ones that were kept. *)
Lemma passed_head m cs b rest : 0 ≤ m → stream cs → undivided (first_primes m cs) cs = b :: rest →
  ∀ p, p ∈ first_primes m cs → p < b.
Proof.
  intros Hm Hst E p Hp. pose proof (undivided_stream m cs Hst) as (Hso & H1 & Hcl). rewrite E in *.
  assert (Hb : prime b).
  { destruct (prime_divisor_in b) as (q & Hq & Hd); [apply H1; by left|].
    assert (Hin : q ∈ b :: rest) by (eapply Hcl; [by left|done..]).
    apply elem_of_cons in Hin as [->|Hin]; [done|]. apply StronglySorted_inv in Hso as [_ Hf].
    rewrite Forall_forall in Hf. specialize (Hf q Hin). apply Z.divide_pos_le in Hd; [lia|]. specialize (H1 b ltac:(by left)). lia. }
  pose proof (primes_split m cs Hst) as Hs. rewrite E, filter_cons_True in Hs by done.
  assert (Hf : StronglySorted Z.lt (filter prime cs)) by (apply filter_sorted; by destruct Hst).
  rewrite Hs in Hf. by eapply (sorted_app_lt _ _ p b Hf); [|left].
Qed.

(** No candidate but a prime is free of the primes up to the cutoff. *)
Definition cut_off (cs : list Z) : Prop :=
  ∀ c, c ∈ cs → (∀ q, prime q → (q | c) → cutoff < q) → prime c.
Definition beyond (cs : list Z) : bool := existsb (λ p, cutoff <? p) cs.
Lemma cut_off_sub cs l : cut_off cs → (∀ c, c ∈ l → c ∈ cs) → cut_off l.
Proof. intros Hc Hl c Hin. by apply Hc, Hl. Qed.
Lemma below_cutoff l : (∀ p, p ∈ l → p ≤ cutoff) → beyond l = false.
Proof.
  intros Hl. unfold beyond. apply not_true_iff_false. rewrite existsb_exists. intros (p & Hp & Hlt%Z.ltb_lt).
  apply list_elem_of_In, Hl in Hp. lia.
Qed.
(** The controller at the last port. *)
Lemma last_port l0 port : l0 ≤ cutoff → StronglySorted Z.lt port →
  controller_Process [port] l0 = (port, beyond port).
Proof.
  intros Hl0 Hs. cbn [controller_Process]. rewrite app_nil_r.
  assert (Hb : (cutoff <? default l0 (last port)) = beyond port); [|rewrite Hb; by destruct (beyond port)].
  destruct port as [|p ps] using rev_ind; [cbn; apply Z.ltb_ge; lia|]. clear IHps. rewrite last_snoc. cbn [default].
  unfold beyond. rewrite existsb_app. cbn. rewrite orb_false_r. destruct (Z.ltb_spec cutoff p) as [|Hle]; [by rewrite orb_true_r|].
  rewrite orb_false_r. symmetry. apply below_cutoff. intros q Hq.
  pose proof (sorted_app_lt _ _ q p Hs Hq ltac:(by left)). lia.
Qed.
Lemma next_port l0 port ports : l0 ≤ cutoff → (∀ p, p ∈ port → p ≤ cutoff) →
  controller_Process (port :: ports) l0 =
  (let (out, ended) := controller_Process ports (default l0 (last port)) in (port ++ out, ended)) ∧
  default l0 (last port) ≤ cutoff.
Proof.
  intros Hl0 Hp. assert (Hle : default l0 (last port) ≤ cutoff).
  { destruct port as [|p ps] using rev_ind; [done|]. rewrite last_snoc. apply Hp. set_solver. }
  cbn [controller_Process]. by rewrite (proj2 (Z.ltb_ge _ _) Hle).
Qed.

Lemma filters_ok fuel : ∀ n input, 0 < threshold → stream input → cut_off input →
  (∀ c, c ∈ input → 5 * c < 18446744073709551616) → (length input < fuel)%nat →
  ∃ ports, filters fuel n input = Ok ports ∧
    ∀ l0, l0 ≤ cutoff → controller_Process ports l0 = (filter prime input, beyond (filter prime input)).
Proof.
  induction fuel as [|fuel IH]; intros n input Ht Hst Hcut Hb Hfuel; [lia|]. cbn [filters].
  rewrite (filter_ok n input Ht Hst Hb). set (m := PrimesPerFilter n). pose proof (PrimesPerFilter_pos n).
  pose proof (primes_split m input Hst) as Hsplit. pose proof (undivided_stream m input Hst) as Hst'.
  assert (Hso : StronglySorted Z.lt (filter prime input)) by (apply filter_sorted; by destruct Hst).
  assert (Hsub : ∀ c, c ∈ undivided (first_primes m input) input → c ∈ input) by (by intros c [? _]%undivided_elem).
  unfold mbind, res_bind. destruct (undivided (first_primes m input) input) as [|b rest] eqn:E; cbn [head].
  - exists [first_primes m input]. split; [done|]. intros l0 Hl0. rewrite filter_nil, app_nil_r in Hsplit.
    rewrite <- Hsplit. by apply last_port.
  - pose proof (passed_head m input b rest ltac:(lia) Hst E) as Hlow. destruct (Z.leb_spec b cutoff) as [Hle|Hgt]; cbn [created].
    + destruct (IH (n + 1) (b :: rest)) as (ports & -> & Hports); try done.
      * by eapply cut_off_sub.
      * intros c Hc. by apply Hb, Hsub.
      * destruct (undivided_shorter m input) as [_ Hlen]; [lia|done|..]; [|rewrite E in Hlen; lia].
        intros ->. unfold undivided in E. by rewrite filter_nil in E.
      * exists (first_primes m input :: ports). split; [done|]. intros l0 Hl0. cbn [control].
        destruct (next_port l0 (first_primes m input) ports Hl0) as [-> Hl1].
        { intros p Hp. specialize (Hlow p Hp). lia. }
        rewrite (Hports _ Hl1), Hsplit. unfold beyond at 2. rewrite existsb_app.
        change (existsb _ (first_primes m input)) with (beyond (first_primes m input)).
        rewrite (below_cutoff (first_primes m input)); [reflexivity|]. intros p Hp. specialize (Hlow p Hp). lia.
    + assert (Hall : filter prime (b :: rest) = b :: rest).
      { assert (Hpr : ∀ c, c ∈ b :: rest → prime c).
        { intros c Hc. apply Hcut; [by apply Hsub|]. intros q Hq Hd. destruct Hst' as (Hso' & _ & Hcl).
          assert (Hin : q ∈ b :: rest) by (by eapply Hcl). apply elem_of_cons in Hin as [->|Hin]; [done|].
          apply StronglySorted_inv in Hso' as [_ Hf]. rewrite Forall_forall in Hf. specialize (Hf q Hin). lia. }
        clear -Hpr. induction (b :: rest) as [|x l IHl]; [done|]. rewrite filter_cons_True by (apply Hpr; by left).
        f_equal. apply IHl. intros c Hc. apply Hpr. by right. }
      rewrite Hall in Hsplit. exists [first_primes m input ++ b :: rest]. split; [done|]. intros l0 Hl0.
      rewrite <- Hsplit. by apply last_port.
Qed.
End filter.

Section network.
Context `{Heaps} {advanced : PopsAdvanced} `{Options}.

Lemma composite_small c : 1 < c → ¬ prime c → ∃ q, prime q ∧ (q | c) ∧ q * q ≤ c.
Proof.
  intros Hc Hn. destruct (not_prime_divide c Hc Hn) as (d & Hd & [e He]).
  assert (Hsmall : ∀ x y, 1 < x → x ≤ y → c = x * y → ∃ q, prime q ∧ (q | c) ∧ q * q ≤ c).
  { intros x y Hx Hxy ->. destruct (prime_divisor_in x Hx) as (q & Hq & Hqx). exists q. split; [done|].
    split; [by apply Z.divide_mul_l|]. apply Z.divide_pos_le in Hqx; [|lia]. pose proof (prime_ge_2 q Hq). nia. }
  assert (He1 : 1 < e) by nia. destruct (Z_le_dec d e); [apply (Hsmall d e)|apply (Hsmall e d)]; lia.
Qed.
Lemma small_cut_off cs : (∀ c, c ∈ cs → 1 < c < (cutoff + 1) * (cutoff + 1)) → cut_off cs.
Proof.
  intros Hcs c Hc Hq. destruct (prime_dec c) as [|Hn]; [done|]. exfalso. specialize (Hcs c Hc).
  destruct (composite_small c ltac:(lia) Hn) as (q & Hp & Hd & Hle). specialize (Hq q Hp Hd). 
  pose proof (Z.sqrt_up_nonneg maxprime). unfold cutoff in *. nia.
Qed.
Lemma cutoff_bound : 0 ≤ maxprime → 0 ≤ cutoff ∧ maxprime ≤ cutoff * cutoff.
Proof.
  unfold cutoff. generalize maxprime. intros m Hm. split; [apply Z.sqrt_up_nonneg|].
  destruct (Z.eq_dec m 0) as [->|]; [done|]. apply Z.sqrt_up_spec. lia.
Qed.
Lemma beyond_spec l : beyond l = true ↔ ∃ p, p ∈ l ∧ cutoff < p.
Proof.
  unfold beyond. rewrite existsb_exists. split; intros (p & Hp & Hlt); exists p.
  - by apply list_elem_of_In in Hp; apply Z.ltb_lt in Hlt.
  - by rewrite <- list_elem_of_In, Z.ltb_lt.
Qed.

(** *** The producer that counts *)
Lemma fill_seqZ index counter : fill index counter = seqZ counter (Z.min (Z.of_nat index) (maxprime - counter)).
Proof.
  revert counter. induction index as [|index IH]; intros counter; cbn [fill]; [by rewrite seqZ_nil by lia|].
  destruct (Z.ltb_spec counter maxprime); [|by rewrite seqZ_nil by lia].
  rewrite IH, (seqZ_cons counter) by lia. unfold Z.succ. do 2 f_equal. lia.
Qed.
Lemma simple_loop_ok fuel counter : 0 < threshold → (Z.to_nat (maxprime - counter) ≤ fuel)%nat →
  simple_loop fuel counter = Ok (seqZ counter (maxprime - counter)).
Proof.
  intros Ht. revert counter. induction fuel as [|fuel IH]; intros counter Hf; cbn [simple_loop];
    (destruct (Z.ltb_spec counter maxprime); [|by rewrite seqZ_nil by lia]); [lia|].
  rewrite fill_seqZ, length_seqZ. set (k := Z.min (Z.of_nat (Z.to_nat threshold)) (maxprime - counter)).
  assert (Hk : 1 ≤ k ≤ maxprime - counter) by lia. rewrite Z2Nat.id by lia. unfold mbind, res_bind.
  rewrite IH by lia. f_equal. replace (maxprime - counter) with (k + (maxprime - (counter + k))) by lia.
  by rewrite seqZ_app by lia.
Qed.

(** Without bounds on its queues the network without a wheel, whatever its threshold and
    however many primes each filter keeps, gives out exactly the primes below its bound, in order; and
    its controller ends just when one of them is beyond the square root of the bound,
    rounded up, and waits for ever otherwise. *)
Theorem network_finds_primes : 2 ≤ maxprime < 2147483648 → 0 < threshold → numPrimesSource ≤ 0 →
  ∃ ended, sieve_network = Ok (filter prime (seqZ 2 (maxprime - 2)), ended) ∧
    (ended = true ↔ ∃ p, prime p ∧ cutoff < p < maxprime).
Proof.
  intros Hm Ht Hw. destruct cutoff_bound as [Hc0 Hc]; [lia|]. unfold sieve_network, producer_Process.
  rewrite (proj2 (Z.ltb_ge 0 numPrimesSource)), simple_loop_ok by lia. unfold mbind, res_bind.
  set (input := seqZ 2 (maxprime - 2)).
  assert (Hin : ∀ c, c ∈ input → 2 ≤ c < maxprime) by (intros c Hin%elem_of_seqZ; lia).
  destruct (filters_ok (S (length input)) 1 input) as (ports & -> & Hports); try done.
  - apply counter_stream.
  - apply small_cut_off. intros c Hi. specialize (Hin c Hi). nia.
  - intros c Hi. specialize (Hin c Hi). lia.
  - lia.
  - exists (beyond (filter prime input)). split.
    + destruct (next_port 0 [] ports) as [-> Hl]; [done|intros p Hp; by apply not_elem_of_nil in Hp|].
      by rewrite (Hports _ Hl).
    + rewrite beyond_spec. split; intros (p & Hp & Hlt); exists p.
      * apply list_elem_of_filter in Hp as [Hp Hi]. specialize (Hin p Hi). split; [done|lia].
      * split; [|lia]. apply list_elem_of_filter. split; [done|]. apply elem_of_seqZ. pose proof (prime_ge_2 p Hp). lia.
Qed.

(** *** The producer with a wheel *)
Lemma last_coprimes m : 2 ≤ m → last (coprimes m m) = Some (m - 1).
Proof.
  intros Hm. assert (Hin : m - 1 ∈ coprimes m m).
  { apply coprimes_elem. split; [lia|]. replace m with ((m - 1) + 1 * 1) at 2 by lia.
    rewrite Z.gcd_comm. replace (m - 1 + 1 * 1) with (1 + 1 * (m - 1)) by lia. rewrite Z.gcd_comm.
    rewrite Z.gcd_add_mult_diag_r. apply Z.gcd_1_r. }
  destruct (coprimes m m) as [|x l _] eqn:E using rev_ind; [by apply not_elem_of_nil in Hin|].
  rewrite last_snoc. f_equal. assert (Hx : x ∈ coprimes m m) by (rewrite E; set_solver).
  apply coprimes_elem in Hx as [Hx _]. apply elem_of_app in Hin as [Hin|Hin]; [|by apply list_elem_of_singleton in Hin].
  pose proof (coprimes_sorted m m) as Hs. rewrite E in Hs. pose proof (sorted_app_lt l [x] _ x Hs Hin ltac:(by left)). lia.
Qed.
End network.

Section wheel.
Context `{Heaps} {advanced : PopsAdvanced} `{Options}.

(** The end of the round that passes the bound. *)
Definition issued_to : Z := ((maxprime + 1) `div` P numPrimesSource + 1) * P numPrimesSource.

Lemma beyond_one_stream m N : stream (beyond_one m N).
Proof.
  split_and!; [apply filter_sorted, seqZ_sorted|by intros c [? _]%beyond_one_elem; lia|].
  intros c q [Hc Hg]%beyond_one_elem Hq Hd. apply beyond_one_elem. pose proof (prime_ge_2 q Hq).
  split; [apply Z.divide_pos_le in Hd; lia|]. apply Zgcd_1_rel_prime. apply Zgcd_1_rel_prime in Hg.
  by eapply rel_prime_div.
Qed.
Lemma wheel_round n i : 1 ≤ n ≤ 8 → 0 ≤ i → 2 ≤ maxprime → (i + 1) * P n < 18446744073709551616 →
  ∃ o, GetNextRound (issued n i) = Ok (issued n (i + 1), o) ∧
    beyond_one (P n) ((i + 1) * P n) = beyond_one (P n) (i * P n) ++ o ∧
    (match last o with Some c => maxprime <? c | None => false end) = (maxprime <? (i + 1) * P n - 1).
Proof.
  intros Hn Hi Hm Hb. destruct (P_even n Hn) as [_ HP]. pose proof (last_coprimes (P n) ltac:(lia)) as Hl.
  destruct (Z.eq_dec i 0) as [->|Hi0].
  - exists (beyond_one (P n) (P n)). rewrite round_first, Z.mul_1_l by done. split_and!; [done..|].
    rewrite coprimes_first in Hl by lia. destruct (beyond_one (P n) (P n)) as [|x l] eqn:E; [|by rewrite last_cons_cons in Hl; rewrite Hl].
    injection Hl as Hl. symmetry. apply Z.ltb_ge. lia.
  - eexists. rewrite round_next, beyond_one_turn by lia. split_and!; [done..|]. rewrite fmap_last, Hl. cbn. f_equal. lia.
Qed.
Lemma wheel_loop_ok fuel n R : 1 ≤ n ≤ 8 → 2 ≤ maxprime → R * P n < 18446744073709551616 →
  maxprime < R * P n - 1 → (R - 1) * P n - 1 ≤ maxprime → ∀ i, 0 ≤ i < R → R - i ≤ Z.of_nat fuel →
  ∃ l, wheel_loop fuel (issued n i) = Ok l ∧ beyond_one (P n) (R * P n) = beyond_one (P n) (i * P n) ++ l.
Proof.
  intros Hn Hm Hb HR HR1. destruct (P_even n Hn) as [_ HP].
  induction fuel as [|fuel IH]; intros i Hi Hf; [lia|]. cbn [wheel_loop].
  destruct (wheel_round n i) as (o & -> & Eb & Hend); [done|lia|done|nia|].
  unfold mbind, res_bind. rewrite Hend.
  destruct (Z.ltb_spec maxprime ((i + 1) * P n - 1)).
  - exists o. split; [done|]. assert (i + 1 = R) as <- by nia. done.
  - destruct (IH (i + 1)) as (l & -> & El); [nia|lia|]. exists (o ++ l). split; [done|]. by rewrite El, Eb, app_assoc.
Qed.

(** The wheel's primes come before all others. *)
Lemma wp_sorted n : 1 ≤ n ≤ 8 → StronglySorted Z.lt (wp n).
Proof.
  intros Hn. apply sizes_elem in Hn. cbn [In sizes] in Hn.
  destruct Hn as [<-|[<-|[<-|[<-|[<-|[<-|[<-|[<-|[]]]]]]]]]; repeat constructor.
Qed.
Lemma wp_low n p q : 1 ≤ n ≤ 8 → p ∈ wp n → prime q → q ≤ p → q ∈ wp n.
Proof.
  intros Hn Hp Hq Hle.
  assert (Hall : forallb (λ n, forallb (λ p, forallb (λ q, negb (primeb q) || negb (q <=? p) || bool_decide (q ∈ wp n))
    (seqZ 2 18)) (wp n)) sizes = true) by (vm_compute; reflexivity).
  rewrite forallb_forall in Hall. specialize (Hall n (sizes_elem n Hn)). cbv beta in Hall. rewrite forallb_forall in Hall.
  specialize (Hall p (proj1 (list_elem_of_In _ _) Hp)). cbv beta in Hall. rewrite forallb_forall in Hall.
  assert (Hp19 : p ≤ 19).
  { apply elem_of_take in Hp as (i & Hp%list_elem_of_lookup_2 & _). unfold wheel_primes in Hp. set_solver by lia. }
  pose proof (prime_ge_2 q Hq). assert (Hin : In q (seqZ 2 18)) by (apply list_elem_of_In, elem_of_seqZ; lia).
  specialize (Hall q Hin). apply primeb_prime in Hq. rewrite Hq, (proj2 (Z.leb_le q p) Hle) in Hall. cbn in Hall.
  by apply bool_decide_eq_true in Hall.
Qed.
Lemma wp_then_beyond n N : 1 ≤ n ≤ 8 → (∀ p, p ∈ wp n → p < N) →
  wp n ++ filter prime (beyond_one (P n) N) = filter prime (seqZ 2 (N - 2)).
Proof.
  intros Hn HN. apply sorted_ext; [|apply filter_sorted, seqZ_sorted|].
  - apply StronglySorted_app. split_and!; [|by apply wp_sorted|by apply filter_sorted; destruct (beyond_one_stream (P n) N)].
    intros p q Hp [Hq [_ Hg]%beyond_one_elem]%list_elem_of_filter. destruct (Z_lt_dec p q) as [|Hle]; [done|exfalso].
    assert (Hin : q ∈ wp n) by (apply (wp_low n p); lia || done). apply product_gcd in Hg; [|apply wp_prime].
    apply not_true_iff_false in Hg. apply Hg, divided_spec; [apply wp_gt|]. exists q. by split; [|exists 1; lia].
  - intros q. rewrite elem_of_app, !list_elem_of_filter, beyond_one_elem, elem_of_seqZ. split.
    + intros [Hq|(Hq & Hb & _)]; [|split; [done|lia]]. split; [by eapply wp_prime|]. pose proof (wp_gt n q Hq). specialize (HN q Hq). lia.
    + intros [Hq Hb]. destruct (divided (wp n) q) eqn:Ed; [left|right].
      * apply divided_spec in Ed as (p & Hp & Hd); [|apply wp_gt]. pose proof (wp_gt n p Hp).
        destruct (prime_divisors q Hq p Hd) as [?|[?|[->|?]]]; [lia..|done|pose proof (prime_ge_2 q Hq); lia].
      * split; [done|]. split; [lia|]. apply product_gcd; [apply wp_prime|done].
Qed.

(** Without bounds on its queues the network with a wheel of one to eight primes gives out exactly the primes
    before the end of the round that passes its bound, in order, where the wheel is
    not too large for the bound: its primes are not beyond the square root of the
    bound, rounded up, and that round ends before the square of the next number. *)
Theorem wheel_network_finds_primes : 2 ≤ maxprime < 2147483648 → 0 < threshold → 1 ≤ numPrimesSource ≤ 8 →
  (∀ p, p ∈ wp numPrimesSource → p ≤ cutoff) → issued_to ≤ (cutoff + 1) * (cutoff + 1) →
  ∃ ended, sieve_network = Ok (filter prime (seqZ 2 (issued_to - 2)), ended) ∧
    (ended = true ↔ ∃ p, prime p ∧ cutoff < p < issued_to).
Proof.
  intros Hm Ht Hn Hwp Hto. destruct cutoff_bound as [Hc0 Hc]; [lia|]. unfold sieve_network, producer_Process.
  rewrite (proj2 (Z.ltb_lt 0 numPrimesSource)), new_source_ok by lia. unfold mbind, res_bind.
  destruct (P_even _ Hn) as [_ HP]. set (n := numPrimesSource) in *. set (R := (maxprime + 1) `div` P n + 1).
  pose proof (Z.div_mod (maxprime + 1) (P n) ltac:(lia)). pose proof (Z.mod_pos_bound (maxprime + 1) (P n) ltac:(lia)).
  assert (HR : issued_to = R * P n) by done. assert (Hlo : maxprime < R * P n - 1) by lia.
  assert (HR0 : 0 ≤ (maxprime + 1) `div` P n ≤ maxprime + 1) by (split; [apply Z.div_pos|apply Z.div_le_upper_bound]; nia).
  destruct (wheel_loop_ok (S (S (Z.to_nat maxprime))) n R Hn ltac:(lia) ltac:(lia) Hlo ltac:(lia) 0) as (input & El & Ei); [lia..|].
  change (issued n 0) with (mk_source 0 0 (P n) (len n) (coprimes (P n) (P n))) in El. rewrite El.
  replace (beyond_one (P n) (0 * P n)) with (@nil Z) in Ei by done. cbn [app] in Ei. rewrite <- HR in Ei. subst input.
  assert (Hin : ∀ c, c ∈ beyond_one (P n) issued_to → 2 ≤ c < issued_to) by (by intros c [? _]%beyond_one_elem).
  destruct (filters_ok (S (length (beyond_one (P n) issued_to))) 1 (beyond_one (P n) issued_to)) as (ports & -> & Hports); try done.
  - apply beyond_one_stream.
  - apply small_cut_off. intros c Hi. specialize (Hin c Hi). lia.
  - intros c Hi. specialize (Hin c Hi). lia.
  - lia.
  - assert (Hsq : cutoff ≤ maxprime) by (unfold cutoff; clear -Hm; revert Hm; generalize maxprime; intros m Hm; apply Z.sqrt_up_le_lin; lia).
    destruct (next_port 0 (wp n) ports) as [-> Hl]; [done|done|]. rewrite (Hports _ Hl).
    exists (beyond (filter prime (beyond_one (P n) issued_to))). rewrite wp_then_beyond; [|done|by intros p Hp; specialize (Hwp p Hp); lia].
    split; [done|]. rewrite beyond_spec. split; intros (p & Hp & Hlt); exists p.
    + apply list_elem_of_filter in Hp as [Hp Hi]. specialize (Hin p Hi). split; [done|lia].
    + split; [|lia]. apply list_elem_of_filter. split; [done|]. apply beyond_one_elem. pose proof (prime_ge_2 p Hp).
      split; [lia|]. apply product_gcd; [apply wp_prime|]. apply not_true_iff_false. rewrite divided_spec by apply wp_gt.
      intros (q & Hq & Hd). specialize (Hwp q Hq). pose proof (wp_gt n q Hq).
      destruct (prime_divisors p Hp q Hd) as [?|[?|[?|?]]]; lia.
Qed.
End wheel.

(** ** Small networks *)
#[local] Existing Instances Binary Binary_advanced.
Definition bounded (m t w : Z) : Options := {| maxprime := m; threshold := t; numPrimesSource := w; ppf_at := λ n, n |}.
Definition primes_of (r : res (list Z * bool)) : list Z := match r with Ok (ps, _) => ps | Err _ => [] end.

Lemma network_finds_primes_witness : ∃ ended,
  @sieve_network _ (bounded 50 4 0) = Ok (filter prime (seqZ 2 48), ended) ∧
  (ended = true ↔ ∃ p, prime p ∧ 8 < p < 50).
Proof. apply (@network_finds_primes _ _ (bounded 50 4 0)); vm_compute; [split; [discriminate|reflexivity]|reflexivity|discriminate]. Defined.
Lemma wheel_network_finds_primes_witness : ∃ ended,
  @sieve_network _ (bounded 100 4 3) = Ok (filter prime (seqZ 2 118), ended) ∧
  (ended = true ↔ ∃ p, prime p ∧ 10 < p < 120).
Proof.
  apply (@wheel_network_finds_primes _ _ (bounded 100 4 3)).
  - vm_compute. split; [discriminate|reflexivity].
  - reflexivity.
  - vm_compute. split; discriminate.
  - intros p Hp. change (p ∈ [2; 3; 5]) in Hp. change (p ≤ 10). set_solver by lia.
  - vm_compute. discriminate.
Defined.

(** With a bound of 2, 3 or 5 no prime is beyond the square root, rounded up, and the
    controller waits for a port that no filter makes. *)
Lemma small_bounds_wait : @sieve_network _ (bounded 2 4 0) = Ok ([], false) ∧
  @sieve_network _ (bounded 3 4 0) = Ok ([2], false) ∧ @sieve_network _ (bounded 5 4 0) = Ok ([2; 3], false).
Proof. split_and!; vm_compute; reflexivity. Qed.
(** A wheel with a prime beyond the cutoff ends the controller before it has read any
    filter: of the primes below 100 all from 13 are missing. *)
Lemma wide_wheel_stops : @sieve_network _ (bounded 100 4 5) = Ok ([2; 3; 5; 7; 11], true).
Proof. vm_compute. reflexivity. Qed.
(** A round that ends beyond the square of the cutoff gives out numbers that are not
    primes. *)
Lemma long_round_composite : existsb (Z.eqb (13 * 13)) (primes_of (@sieve_network _ (bounded 100 4 4))) = true.
Proof. vm_compute. reflexivity. Qed.
End TS.
