(* ===== verification/SimpleSieve.v ===== *)
(** [apps/SieveOfEratosthenes/SimpleSieve]: a filter per prime, which steps through
    the multiples of its prime by addition; a filter counts by at most one multiple
    for each number that it reads, and that is not always enough.

    A node is a function of the streams that it reads, as in [ThresholdSieve]. *)
From S2P Require Import Prelude PrimeSieve PrimeWheel.
From stdpp Require Import sorting.
From Stdlib Require Import Znumtheory.

Module SS.
Import PS PW.
Open Scope Z_scope.

(** ** [ProducerNode::Process] *)
(** For a [numberBound] other than 0, with the marker of the end. *)
Fixpoint producer_loop (fuel : nat) (cutoff counter : Z) : res (list Z) :=
  if counter <? cutoff then
    match fuel with
    | O => Err Diverges
    | S fuel => y ← producer_loop fuel cutoff (u64 (counter + 1)); Ok (counter :: y)
    end
  else Ok [0].
Definition producer_Process (numberBound : Z) : res (list Z) := producer_loop (Z.to_nat numberBound) numberBound 2.

(** ** [FilterNode::Process] *)
(** What it writes to [prodport] and to [y]. *)
Fixpoint filter_loop (filterval nextFilter : Z) (sendtoresult : bool) (x : list Z) : res (list Z * list Z) :=
  match x with
  | [] => Err Diverges (* [Dequeue] fails, and [readVal] stays what it was *)
  | readVal :: x =>
      let put (sent : bool) (more : res (list Z * list Z)) :=
        '(prodport, y) ← more;
        Ok (if sent then (readVal :: prodport, y) else (prodport, readVal :: y)) in
      let again next send := if readVal =? 0 then Ok ([], []) else filter_loop filterval next send x in
      if readVal =? filterval then put sendtoresult (again nextFilter sendtoresult)
      else if readVal =? nextFilter then again (u64 (nextFilter + filterval)) sendtoresult
      else
        let next := if nextFilter <? readVal then u64 (nextFilter + filterval) else nextFilter in
        put sendtoresult (again next false)
  end.
Definition filter_Process (filterval : Z) (x : list Z) : res (list Z * list Z) := filter_loop filterval filterval true x.

(** ** [SieveControllerNode::Process] *)
(** [stopVal], exact for the [int] that the bound is read into. *)
Definition stopVal (primeBound : Z) : Z := Z.sqrt_up primeBound.
(** What it gives out. It reads [inp]; [y] is what the filter of [lastprime] writes to
    the port that the controller connects, to another filter or to itself. *)
Fixpoint controller_loop (fuel : nat) (primeBound lastprime : Z) (finaltransition : bool) (inp y : list Z) : res (list Z) :=
  match fuel, inp with
  | O, _ => Err Diverges
  | _, [] => Err Diverges
  | S fuel, readVal :: inp =>
      if readVal =? 0 then Ok [] else
      let put (more : res (list Z)) :=
        if readVal <? primeBound then out ← more; Ok (readVal :: out) else Ok [readVal] in
      if readVal =? lastprime then put (controller_loop fuel primeBound lastprime finaltransition inp y)
      else if readVal <? stopVal primeBound then
        if finaltransition then
          '(prodport, y) ← filter_Process readVal y;
          put (controller_loop fuel primeBound readVal finaltransition prodport y)
        else Err AssertFailed (* that port has its queue *)
      else if finaltransition then put (controller_loop fuel primeBound lastprime false y [])
      else put (controller_loop fuel primeBound lastprime finaltransition inp y)
  end.
(** The whole network, with the bound for both, as [main] sets them. *)
Definition simple_sieve (bound : Z) : res (list Z) :=
  x ← producer_Process bound;
  '(prodport, y) ← filter_Process 2 x;
  controller_loop (S (length x)) bound 2 true prodport y.

Lemma sublist_elem (l k : list Z) x : l `sublist_of` k → x ∈ l → x ∈ k.
Proof. intros Hs Hx. by eapply elem_of_submseteq, sublist_submseteq. Qed.
(** ** What a filter passes on *)
Fixpoint kept (p next : Z) (l : list Z) : list Z :=
  match l with
  | [] => []
  | v :: l => if v =? next then kept p (u64 (next + p)) l
              else v :: kept p (if next <? v then u64 (next + p) else next) l
  end.
Lemma kept_sublist p l : ∀ next, kept p next l `sublist_of` l.
Proof.
  induction l as [|v l IH]; intros next; cbn [kept]; [done|]. destruct (v =? next); [by apply sublist_cons|by apply sublist_skip].
Qed.
Section filter.
Context (p hi : Z) (Hp : 2 ≤ p) (Hhi : 0 ≤ hi ∧ hi + p < 18446744073709551616).
(** The next multiple to drop, while the numbers are not beyond [hi]. *)
Definition aims (next : Z) : Prop := 0 < next ≤ hi + p ∧ (p | next).
Lemma aims_next next v : aims next → next ≤ v ≤ hi → u64 (next + p) = next + p ∧ aims (next + p).
Proof.
  intros [Hn Hd] Hv. split; [apply u64_id; lia|]. split; [lia|]. apply Z.divide_add_r; [done|apply Z.divide_refl].
Qed.
Definition within (l : list Z) : Prop := ∀ v, v ∈ l → 0 < v ≤ hi ∧ v ≠ p.
Lemma within_cons v l : within (v :: l) → (0 < v ≤ hi ∧ v ≠ p) ∧ within l.
Proof. intros Hl. split; [apply Hl; by left|]. intros x Hx. apply Hl. by right. Qed.

Lemma kept_primes l : ∀ next, aims next → within l → filter prime (kept p next l) = filter prime l.
Proof.
  induction l as [|v l IH]; intros next Ha Hl; cbn [kept]; [done|]. apply within_cons in Hl as [Hv Hl].
  destruct (Z.eqb_spec v next) as [->|Hne].
  - destruct (aims_next next next Ha) as [-> Ha']; [lia|]. rewrite IH by done. rewrite filter_cons_False; [done|].
    intros Hpr. destruct (prime_divisors next Hpr p ltac:(apply Ha)) as [?|[?|[?|?]]]; lia.
  - destruct (Z.ltb_spec next v).
    + destruct (aims_next next v Ha) as [-> Ha']; [lia|]. rewrite !filter_cons, IH by done. done.
    + rewrite !filter_cons, IH by done. done.
Qed.
Lemma filter_later l : ∀ next, aims next → within l →
  filter_loop p next false (l ++ [0]) = Ok ([], kept p next l ++ [0]).
Proof.
  induction l as [|v l IH]; intros next Ha Hl.
  - cbn [app filter_loop kept]. destruct Ha as [Hn _]. rewrite (proj2 (Z.eqb_neq 0 p)), (proj2 (Z.eqb_neq 0 next)) by lia. done.
  - apply within_cons in Hl as [Hv Hl]. cbn [app filter_loop kept].
    rewrite (proj2 (Z.eqb_neq v p)), (proj2 (Z.eqb_neq v 0)) by lia. destruct (Z.eqb_spec v next) as [->|].
    + destruct (aims_next next next Ha) as [-> Ha']; [lia|]. by apply IH.
    + destruct (Z.ltb_spec next v); [destruct (aims_next next v Ha) as [-> Ha']; [lia|]|]; unfold mbind, res_bind; by rewrite IH.
Qed.
Lemma filter_first l : ∀ next, aims next → within l →
  filter_loop p next true (l ++ [0]) =
  Ok (match kept p next l with [] => ([0], []) | v :: ks => ([v], ks ++ [0]) end).
Proof.
  induction l as [|v l IH]; intros next Ha Hl.
  - cbn [app filter_loop kept]. destruct Ha as [Hn _]. rewrite (proj2 (Z.eqb_neq 0 p)), (proj2 (Z.eqb_neq 0 next)) by lia. done.
  - apply within_cons in Hl as [Hv Hl]. cbn [app filter_loop kept].
    rewrite (proj2 (Z.eqb_neq v p)), (proj2 (Z.eqb_neq v 0)) by lia. destruct (Z.eqb_spec v next) as [->|].
    + destruct (aims_next next next Ha) as [-> Ha']; [lia|]. by apply IH.
    + destruct (Z.ltb_spec next v); [destruct (aims_next next v Ha) as [-> Ha']; [lia|]|];
        unfold mbind, res_bind; by rewrite filter_later.
Qed.
End filter.

Lemma sublist_sorted l k : l `sublist_of` k → StronglySorted Z.lt k → StronglySorted Z.lt l.
Proof.
  induction 1 as [|x l k Hs IH|x l k Hs IH]; [done|..]; intros [Hk Hx]%StronglySorted_inv; [|by apply IH].
  constructor; [by apply IH|]. rewrite Forall_forall in *. intros y Hy. apply Hx. by eapply sublist_elem.
Qed.

(** The numbers that the filters pass to the controller, and to one another while they
    are below [stop]. *)
Fixpoint sifted (n : nat) (stop p : Z) (l : list Z) : list Z :=
  match n with
  | O => []
  | S n => match kept p p l with [] => [] | v :: ks => v :: (if v <? stop then sifted n stop v ks else ks) end
  end.
Lemma sifted_sublist n stop : ∀ p l, sifted n stop p l `sublist_of` l.
Proof.
  induction n as [|n IH]; intros p l; cbn [sifted]; [apply sublist_nil_l|]. pose proof (kept_sublist p l p) as Hs.
  destruct (kept p p l) as [|v ks]; [done|]. etransitivity; [|done]. apply sublist_skip. by destruct (v <? stop).
Qed.
Lemma sifted_primes n stop hi : 0 ≤ hi < 2147483648 → ∀ p l, (length l ≤ n)%nat → 2 ≤ p ≤ hi →
  StronglySorted Z.lt l → (∀ v, v ∈ l → p < v ≤ hi) → filter prime (sifted n stop p l) = filter prime l.
Proof.
  intros Hhi. induction n as [|n IH]; intros p l Hn Hp Hs Hl; [by destruct l; [|cbn in Hn; lia]|]. cbn [sifted].
  rewrite <- (kept_primes p hi ltac:(lia) ltac:(lia) l p);
    [|split; [lia|apply Z.divide_refl]|by intros v Hv; specialize (Hl v Hv); lia].
  pose proof (kept_sublist p l p) as Hsub. destruct (kept p p l) as [|v ks]; [done|].
  destruct (v <? stop); [|done]. rewrite !filter_cons, (IH v ks); [done|..].
  - apply sublist_length in Hsub. cbn in Hsub. lia.
  - specialize (Hl v). assert (v ∈ l) by (eapply sublist_elem; [done|by left]). set_solver by lia.
  - apply (sublist_sorted _ _ Hsub), StronglySorted_inv in Hs. tauto.
  - intros x Hx. pose proof (sublist_sorted _ _ Hsub Hs) as [_ Hv]%StronglySorted_inv. rewrite Forall_forall in Hv.
    specialize (Hv x Hx). assert (Hin : x ∈ l) by (eapply sublist_elem; [exact Hsub|by right]). specialize (Hl x Hin). lia.
Qed.
(** A longer stream gives the same numbers first. *)
Lemma kept_app p l1 : ∀ next l2, ∃ m, kept p next (l1 ++ l2) = kept p next l1 ++ m ∧ m `sublist_of` l2.
Proof.
  induction l1 as [|v l1 IH]; intros next l2; [by exists (kept p next l2); split; [|apply kept_sublist]|].
  cbn [app kept]. destruct (v =? next); [apply IH|].
  destruct (IH (if next <? v then u64 (next + p) else next) l2) as (m & -> & Hm). by exists m.
Qed.
Lemma sifted_app n stop : ∀ p l1 l2, (length l1 ≤ n)%nat →
  ∃ m, sifted n stop p (l1 ++ l2) = sifted n stop p l1 ++ m ∧ m `sublist_of` l2.
Proof.
  induction n as [|n IH]; intros p l1 l2 Hn; [exists []; split; [by destruct l1; [|cbn in Hn; lia]|apply sublist_nil_l]|].
  cbn [sifted]. destruct (kept_app p l1 p l2) as (m & -> & Hm). pose proof (kept_sublist p l1 p) as Hs.
  destruct (kept p p l1) as [|v ks]; cbn [app].
  - destruct m as [|v m]; [exists []; by split; [|apply sublist_nil_l]|]. eexists. split; [done|].
    etransitivity; [|exact Hm]. apply sublist_skip. destruct (v <? stop); [apply sifted_sublist|done].
  - destruct (v <? stop); [|by exists m]. apply sublist_length in Hs. cbn [length] in Hs.
    destruct (IH v ks m) as (m' & -> & Hm'); [lia|]. exists m'. split; [done|]. by etransitivity.
Qed.

(** ** The controller *)
Section controller.
Context (b : Z) (Hb : 2 ≤ b < 2147483648).

Lemma final_port p ks : ∀ fuel, (∀ v, v ∈ ks → 0 < v < b ∧ v ≠ p ∧ stopVal b ≤ v) → (length ks < fuel)%nat →
  controller_loop fuel b p false (ks ++ [0]) [] = Ok ks.
Proof.
  induction ks as [|v ks IH]; intros fuel Hks Hf; (destruct fuel as [|fuel]; [lia|]); cbn [app controller_loop]; [done|].
  destruct (Hks v ltac:(by left)) as (H1 & H2 & H3). cbn [length] in Hf.
  rewrite (proj2 (Z.eqb_neq v 0)), (proj2 (Z.eqb_neq v p)), (proj2 (Z.ltb_ge v (stopVal b))), (proj2 (Z.ltb_lt v b)) by lia.
  unfold mbind, res_bind. rewrite IH; [done| |lia]. intros x Hx. apply Hks. by right.
Qed.
Lemma controller_ok n : ∀ l p fuel, (length l ≤ n)%nat → (length l < fuel)%nat → 2 ≤ p ≤ b →
  StronglySorted Z.lt l → (∀ v, v ∈ l → p < v < b) →
  ∃ prodport y, filter_Process p (l ++ [0]) = Ok (prodport, y) ∧
    controller_loop fuel b p true prodport y = Ok (sifted n (stopVal b) p l).
Proof.
  induction n as [|n IH]; intros l p fuel Hn Hf Hp Hs Hl; (destruct fuel as [|fuel]; [lia|]).
  all: assert (Ha : aims p b p) by (split; [lia|apply Z.divide_refl]).
  all: assert (Hw : within p b l) by (intros v Hv; specialize (Hl v Hv); lia).
  all: pose proof (filter_first p b ltac:(lia) ltac:(lia) l p Ha Hw) as Ef; unfold filter_Process; rewrite Ef.
  all: pose proof (kept_sublist p l p) as Hsub; cbn [sifted].
  all: destruct (kept p p l) as [|v ks]; [by exists [0], []|].
  { apply sublist_length in Hsub. cbn in Hsub. lia. }
  assert (Hin : ∀ x, x ∈ v :: ks → p < x < b).
  { intros x Hx. apply Hl. by eapply sublist_elem. }
  assert (Hs' : StronglySorted Z.lt (v :: ks)) by (by eapply sublist_sorted).
  apply StronglySorted_inv in Hs' as [Hs' Hlt]. rewrite Forall_forall in Hlt.
  pose proof (sublist_length _ _ Hsub) as Hlen. cbn [length] in Hlen. pose proof (Hin v ltac:(by left)) as Hv.
  exists [v], (ks ++ [0]). cbn [controller_loop].
  rewrite (proj2 (Z.eqb_neq v 0)), (proj2 (Z.eqb_neq v p)), (proj2 (Z.ltb_lt v b)) by lia. unfold mbind, res_bind.
  destruct (Z.ltb_spec v (stopVal b)).
  - destruct (IH ks v fuel) as (prodport & y & -> & ->); [lia|lia|lia|done| |done].
    intros x Hx. specialize (Hlt x Hx). specialize (Hin x ltac:(by right)). lia.
  - rewrite final_port; [done| |lia]. intros x Hx. specialize (Hlt x Hx). specialize (Hin x ltac:(by right)). lia.
Qed.
Lemma producer_ok fuel counter : 2 ≤ counter → (Z.to_nat (b - counter) ≤ fuel)%nat →
  producer_loop fuel b counter = Ok (seqZ counter (b - counter) ++ [0]).
Proof.
  revert counter. induction fuel as [|fuel IH]; intros counter Hc Hf; cbn [producer_loop];
    (destruct (Z.ltb_spec counter b); [|by rewrite seqZ_nil by lia]); [lia|].
  rewrite u64_id, IH by lia. unfold mbind, res_bind. rewrite (seqZ_cons counter) by lia.
  replace (Z.pred (b - counter)) with (b - (counter + 1)) by lia. done.
Qed.
End controller.

Definition sieved (n : nat) (stop b : Z) : list Z := if b =? 2 then [] else 2 :: sifted n stop 2 (seqZ 3 (b - 3)).
Lemma simple_sieve_ok b n : 2 ≤ b < 2147483648 → b - 3 ≤ Z.of_nat n → simple_sieve b = Ok (sieved n (stopVal b) b).
Proof.
  intros Hb Hn. unfold simple_sieve, producer_Process, sieved. rewrite producer_ok by lia. unfold mbind, res_bind.
  destruct (Z.eqb_spec b 2) as [->|]; [done|]. rewrite (seqZ_cons 2) by lia. change (Z.succ 2) with 3.
  replace (Z.pred (b - 2)) with (b - 3) by lia. set (l := seqZ 3 (b - 3)).
  assert (Hlen : Z.of_nat (length l) = b - 3) by (unfold l; rewrite length_seqZ; lia).
  destruct (controller_ok b Hb n l 2 (S (length (l ++ [0])))) as (prodport & y & E1 & E2);
    [lia|rewrite length_app; lia|lia|apply seqZ_sorted|by intros v Hv%elem_of_seqZ; lia|].
  unfold filter_Process in *. cbn [app filter_loop Z.eqb Pos.eqb]. rewrite E1. unfold mbind, res_bind.
  cbn [app length]. set (fuel := S (length (l ++ [0]))) in *.
  cbn [controller_loop Z.eqb Pos.eqb]. rewrite (proj2 (Z.ltb_lt 2 b)) by lia. by rewrite E2.
Qed.

(** Every [stopVal] up to 37, by evaluation at the largest bound that has it. *)
Definition top (stop : Z) : Z := Z.min (stop * stop) 1357.
Definition exact (ps : list Z) (stop : Z) : bool :=
  bool_decide (sieved 1354 stop (top stop) = filter (λ c, (c <? top stop) = true) ps).
Lemma tops_exact : forallb (exact (filter (λ c, primeb c = true) (seqZ 2 1355))) (seqZ 2 36) = true.
Proof. vm_compute. reflexivity. Qed.
Lemma primes_below b : 2 ≤ b ≤ 1357 →
  filter (λ c, (c <? b) = true) (filter (λ c, primeb c = true) (seqZ 2 1355)) = filter prime (seqZ 2 (b - 2)).
Proof.
  intros Hb. rewrite <- filter_primeb. apply sorted_ext; [by repeat apply filter_sorted; apply seqZ_sorted..|].
  intros c. rewrite !list_elem_of_filter, !elem_of_seqZ, Z.ltb_lt. intuition lia.
Qed.
Lemma filter_keep (P : Z → Prop) `{∀ x, Decision (P x)} (l : list Z) : (∀ x, x ∈ l → P x) → filter P l = l.
Proof.
  induction l as [|x l IH]; intros Hl; [done|]. rewrite filter_cons_True by (apply Hl; by left).
  f_equal. apply IH. intros y Hy. apply Hl. by right.
Qed.
Lemma filter_lose (P : Z → Prop) `{∀ x, Decision (P x)} (l : list Z) : (∀ x, x ∈ l → ¬ P x) → filter P l = [].
Proof.
  induction l as [|x l IH]; intros Hl; [done|]. rewrite filter_cons_False by (apply Hl; by left).
  apply IH. intros y Hy. apply Hl. by right.
Qed.
Lemma sieved_below n stop b c : 3 ≤ b ≤ c → b - 3 ≤ Z.of_nat n →
  sieved n stop b = filter (λ x, (x <? b) = true) (sieved n stop c).
Proof.
  intros Hb Hn. unfold sieved. rewrite (proj2 (Z.eqb_neq b 2)), (proj2 (Z.eqb_neq c 2)) by lia.
  replace (c - 3) with ((b - 3) + (c - b)) by lia. rewrite seqZ_app by lia.
  destruct (sifted_app n stop 2 (seqZ 3 (b - 3)) (seqZ (3 + (b - 3)) (c - b))) as (m & -> & Hm); [rewrite length_seqZ; lia|].
  change (2 :: ?l ++ m) with ((2 :: l) ++ m). rewrite filter_app, (filter_keep _ (2 :: _)), (filter_lose _ m), app_nil_r; [done|..].
  - intros x Hx%(sublist_elem _ _ x Hm)%elem_of_seqZ. rewrite Z.ltb_lt. lia.
  - intros x [->|Hx]%elem_of_cons; apply Z.ltb_lt; [lia|].
    apply (sublist_elem _ _ x (sifted_sublist _ _ _ _)), elem_of_seqZ in Hx. lia.
Qed.
Lemma small_exact b : 3 ≤ b ≤ 1357 → sieved 1354 (stopVal b) b = filter prime (seqZ 2 (b - 2)).
Proof.
  intros Hb. assert (Hs : (Z.pred (stopVal b)) * (Z.pred (stopVal b)) < b ≤ stopVal b * stopVal b) by (apply Z.sqrt_up_spec; lia).
  pose proof (Z.sqrt_up_nonneg b) as H0. change (0 ≤ stopVal b) in H0. set (s := stopVal b) in *.
  assert (Ht : 2 ≤ s < 38) by nia. rewrite (sieved_below _ s b (top s)) by (unfold top; lia).
  pose proof tops_exact as Ha. rewrite forallb_forall in Ha. specialize (Ha s ltac:(apply list_elem_of_In, elem_of_seqZ; lia)).
  unfold exact in Ha. apply bool_decide_eq_true in Ha. rewrite Ha, <- primes_below by lia.
  rewrite list_filter_filter. apply list_filter_iff. intros c. rewrite !Z.ltb_lt. unfold top. lia.
Qed.

(** C28: The network gives out numbers below its bound, in order, with every prime among
    them and whatever the bound; and nothing else, up to the bound of 1357. *)
Theorem simple_sieve_finds_primes b : 2 ≤ b < 2147483648 →
  ∃ out, simple_sieve b = Ok out ∧ out `sublist_of` seqZ 2 (b - 2) ∧
    filter prime out = filter prime (seqZ 2 (b - 2)) ∧ (b ≤ 1357 → out = filter prime (seqZ 2 (b - 2))).
Proof.
  intros Hb. destruct (Z.eq_dec b 2) as [->|]; [exists []; by vm_compute|].
  exists (sieved (Z.to_nat b) (stopVal b) b). split_and!.
  - apply simple_sieve_ok; lia.
  - unfold sieved. rewrite (proj2 (Z.eqb_neq b 2)), (seqZ_cons 2) by lia. apply sublist_skip.
    change (Z.succ 2) with 3. replace (Z.pred (b - 2)) with (b - 3) by lia. apply sifted_sublist.
  - unfold sieved. rewrite (proj2 (Z.eqb_neq b 2)), (seqZ_cons 2), !filter_cons by lia. change (Z.succ 2) with 3.
    replace (Z.pred (b - 2)) with (b - 3) by lia. rewrite (sifted_primes _ _ b); [done|lia| |lia|apply seqZ_sorted|].
    + rewrite length_seqZ. lia.
    + intros v Hv%elem_of_seqZ. lia.
  - intros Hle. rewrite <- small_exact by lia. pose proof (simple_sieve_ok b (Z.to_nat b) Hb ltac:(lia)) as E1.
    rewrite (simple_sieve_ok b 1354 Hb) in E1 by lia. by injection E1.
Qed.
Lemma simple_sieve_finds_primes_witness : ∃ out, simple_sieve 30 = Ok out ∧ out `sublist_of` seqZ 2 28 ∧
  filter prime out = filter prime (seqZ 2 28) ∧ (30 ≤ 1357 → out = filter prime (seqZ 2 28)).
Proof. apply (simple_sieve_finds_primes 30). lia. Defined.

(** The filter of 23 gets 23 and the numbers that no smaller prime divides, and there
    are not enough of them: when it reads 23 * 59 it expects 23 * 58. *)
Lemma composite_passes : existsb (Z.eqb (23 * 59)) (match simple_sieve 1358 with Ok out => out | Err _ => [] end) = true.
Proof. vm_compute. reflexivity. Qed.
End SS.
