(* ===== verification/Monitor.v ===== *)
(** Objects with one lock and one condition variable, as [libraries/Synchronize]
    builds them: threads that call their operations, in any order, and two theorems
    that every such object can use, that no wake-up is lost and that threads go on
    until they wait for what is not so. *)
From S2P Require Import Prelude Fairness.

Module Mon.
Local Open Scope nat_scope.

(** What an operation does to the condition variable. *)
Inductive notify := Quiet | One | All.

(** An operation takes the lock, does [enter], and then makes its test, which is the
    condition of its loop and what comes after it; when the test is false it waits,
    which gives up the lock, and makes the test again when it is woken. *)
Class Monitor (St Op Val : Type) := {
  enter : nat → Op → St → St * notify;
  attempt : nat → Op → St → option (St * Val) }.

Section monitor.
Context {St Op Val : Type} `{!Monitor St Op Val}.

Inductive place := Idle | Asleep | Awake.
Record thread := mk_thread { todo : list Op; at_ : place }.
(** [returned]: the calls that returned, in the order in which they did, which is the
    order of the lock. *)
Record sys := mk_sys { object : St; threads : list thread; returned : list (nat * Op * Val) }.

Definition wake (t : thread) : thread := mk_thread (todo t) (match at_ t with Asleep => Awake | p => p end).
Definition asleep (t : thread) : bool := match at_ t with Asleep => true | _ => false end.
(** [pthread_cond_signal] wakes a thread, whichever it likes, if there is one, and
    [pthread_cond_broadcast] all. *)
Definition picked (choice : nat) (ts : list thread) : option nat :=
  if match ts !! choice with Some t => asleep t | None => false end then Some choice
  else fst <$> list_find (λ t, asleep t = true) ts.
Definition rouse (n : notify) (choice : nat) (ts : list thread) : list thread :=
  match n with
  | Quiet => ts
  | One => match picked choice ts with Some k => alter wake k ts | None => ts end
  | All => wake <$> ts
  end.
Definition tries (i : nat) (o : Op) (os : list Op) (x : sys) : sys :=
  match attempt i o (object x) with
  | Some (st, v) => mk_sys st (<[i := mk_thread os Idle]> (threads x)) (returned x ++ [(i, o, v)])
  | None => mk_sys (object x) (<[i := mk_thread (o :: os) Asleep]> (threads x)) (returned x)
  end.
(** A turn of the thread [i], from the lock to where it is given up. *)
Definition turn (choice i : nat) (x : sys) : option sys :=
  match threads x !! i with
  | Some (mk_thread (o :: os) Idle) =>
      let (st, n) := enter i o (object x) in
      Some (tries i o os (mk_sys st (rouse n choice (threads x)) (returned x)))
  | Some (mk_thread (o :: os) Awake) => Some (tries i o os x)
  | _ => None
  end.
Inductive step : option nat → sys → sys → Prop :=
  | S_turn choice i x y : turn choice i x = Some y → step (Some i) x y
  | S_spurious i t x : threads x !! i = Some t →
      step None x (mk_sys (object x) (<[i := wake t]> (threads x)) (returned x))
  | S_idle x : step None x x.
Definition enabled (i : nat) (x : sys) : Prop := is_Some (turn 0 i x).
Definition start (st : St) (programs : list (list Op)) : sys :=
  mk_sys st ((λ p, mk_thread p Idle) <$> programs) [].
Definition reaches : sys → sys → Prop := rtc (λ x y, ∃ l, step l x y).

(** ** Threads that wait have something to do *)
Definition busy (t : thread) : Prop := at_ t ≠ Idle → todo t ≠ [].
Definition all_busy (x : sys) : Prop := ∀ i t, threads x !! i = Some t → busy t.
Lemma wake_busy t : busy t → busy (wake t).
Proof. unfold busy, wake. destruct t as [? []]; cbn; auto. Qed.
(** What a turn does: the thread enters or tests again, and then it returns or sleeps. *)
Lemma roused n choice ts j t : rouse n choice ts !! j = Some t →
  ∃ t0, ts !! j = Some t0 ∧ (t = t0 ∨ t = wake t0).
Proof.
  destruct n; cbn; [by eauto| |].
  - destruct (picked choice ts) as [k|]; [|by eauto]. destruct (decide (j = k)) as [->|].
    + rewrite list_lookup_alter_eq. intros (t0 & E & ->)%fmap_Some. eauto.
    + rewrite list_lookup_alter_ne by done. eauto.
  - rewrite list_lookup_fmap. intros (t0 & E & ->)%fmap_Some. eauto.
Qed.
Lemma rouse_length n choice ts : length (rouse n choice ts) = length ts.
Proof. destruct n; cbn; [done| |apply length_fmap]. destruct (picked choice ts); [apply length_alter|done]. Qed.
Lemma rouse_idle n choice ts j t : at_ t = Idle → rouse n choice ts !! j = Some t ↔ ts !! j = Some t.
Proof.
  intros Ht. assert (Hw : ∀ t0, wake t0 = t ↔ t0 = t).
  { intros t0. destruct t0 as [l p], t as [l' p']. cbn in Ht. subst p'. unfold wake. cbn. destruct p; naive_solver. }
  assert (Hf : ∀ o : option thread, wake <$> o = Some t ↔ o = Some t).
  { intros o. rewrite fmap_Some. split; [|intros ->; exists t; split; [done|symmetry; by apply Hw]].
    intros (t0 & -> & E). symmetry in E. by apply Hw in E as ->. }
  destruct n; cbn; [done| |by rewrite list_lookup_fmap].
  destruct (picked choice ts) as [k|]; [|done]. destruct (decide (j = k)) as [->|];
    [by rewrite list_lookup_alter_eq|by rewrite list_lookup_alter_ne].
Qed.

Lemma tries_busy i o os x : all_busy x → all_busy (tries i o os x).
Proof.
  intros Hb j t. unfold tries. destruct (attempt i o (object x)) as [[st v]|]; cbn [threads];
    (intros [(<- & <- & _)|[_ E]]%list_lookup_insert_Some; [by unfold busy; cbn|by eauto]).
Qed.
Lemma step_busy l x y : all_busy x → step l x y → all_busy y.
Proof.
  intros Hb. destruct 1 as [choice i x y E|i t x E|x]; [| |done].
  - unfold turn in E. destruct (threads x !! i) as [[[|o os] []]|]; try discriminate.
    + destruct (enter i o (object x)) as [st n]. injection E as <-. apply tries_busy. intros j t Ej.
      apply roused in Ej as (t0 & E0 & [->| ->]); [by eauto|]. apply wake_busy. by eauto.
    + injection E as <-. by apply tries_busy.
  - intros j t' [(<- & <- & _)|[_ Ej]]%list_lookup_insert_Some; [apply wake_busy|]; by eauto.
Qed.

(** ** Counting what is to be called and what returned *)
Definition account (f : nat → Op → nat) (i : nat) (l : list Op) : nat := sum_list_with (f i) l.
Definition to_call (f : nat → Op → nat) (ts : list thread) : nat :=
  sum_list (imap (λ i t, account f i (todo t)) ts).
Definition called (f : nat → Op → nat) (l : list (nat * Op * Val)) : nat := sum_list_with (λ r, f r.1.1 r.1.2) l.
Lemma imap_ext_lookup {A B} (g : nat → A → B) (l k : list A) :
  (∀ i : nat, g i <$> l !! i = g i <$> k !! i) → imap g l = imap g k.
Proof. intros E. apply list_eq. intros i. by rewrite !list_lookup_imap. Qed.
Lemma to_call_todo f ts ts' : (∀ i : nat, todo <$> ts !! i = todo <$> ts' !! i) → to_call f ts = to_call f ts'.
Proof.
  intros E. unfold to_call. f_equal. apply imap_ext_lookup. intros i. specialize (E i).
  destruct (ts !! i), (ts' !! i); cbn in *; by simplify_eq; f_equal/=; congruence.
Qed.
Lemma to_call_put f ts i t u : ts !! i = Some t →
  to_call f (<[i := u]> ts) + account f i (todo t) = to_call f ts + account f i (todo u).
Proof.
  intros Hi. unfold to_call. assert (E : imap (λ i t, account f i (todo t)) (<[i:=u]> ts) =
    <[i := account f i (todo u)]> (imap (λ i t, account f i (todo t)) ts)).
  { apply list_eq. intros j. rewrite list_lookup_imap. destruct (decide (i = j)) as [<-|Hne].
    - rewrite !list_lookup_insert_eq; [done|rewrite length_imap|]; by eapply lookup_lt_Some.
    - by rewrite !list_lookup_insert_ne, list_lookup_imap by done. }
  rewrite E. assert (Ei : imap (λ i t, account f i (todo t)) ts !! i = Some (account f i (todo t))).
  { by rewrite list_lookup_imap, Hi. }
  set (l := imap (λ i t, account f i (todo t)) ts) in *.
  assert (Hs : sum_list (<[i := account f i (todo u)]> l) + account f i (todo t) = account f i (todo u) + sum_list l)
    by exact (lsum_put id _ i _ _ Ei). lia.
Qed.
Lemma rouse_todo n choice ts (i : nat) : todo <$> rouse n choice ts !! i = todo <$> ts !! i.
Proof.
  destruct (rouse n choice ts !! i) as [t|] eqn:E.
  - apply roused in E as (t0 & -> & [->| ->]); by destruct t0.
  - apply lookup_ge_None in E. rewrite rouse_length in E. by apply lookup_ge_None in E as ->.
Qed.
Lemma tries_accounts f i o os x t : threads x !! i = Some t → todo t = o :: os →
  to_call f (threads (tries i o os x)) + called f (returned (tries i o os x)) = to_call f (threads x) + called f (returned x).
Proof.
  intros Ei Et. unfold tries, called. destruct (attempt i o (object x)) as [[st v]|]; cbn [threads returned].
  - pose proof (to_call_put f _ i t (mk_thread os Idle) Ei) as Hp. rewrite Et in Hp. cbn [todo account] in Hp.
    rewrite sum_list_with_app. unfold account in Hp. cbn [sum_list_with] in *. cbn. lia.
  - pose proof (to_call_put f _ i t (mk_thread (o :: os) Asleep) Ei) as Hp. rewrite Et in Hp. cbn [todo] in Hp. lia.
Qed.
Lemma step_accounts f l x y : step l x y →
  to_call f (threads y) + called f (returned y) = to_call f (threads x) + called f (returned x).
Proof.
  destruct 1 as [choice i x y E|i t x E|x]; [| |done].
  - unfold turn in E. destruct (threads x !! i) as [[[|o os] []]|] eqn:Ei; try discriminate.
    + destruct (enter i o (object x)) as [st n]. injection E as <-.
      pose proof (proj2 (rouse_idle n choice (threads x) i (mk_thread (o :: os) Idle) eq_refl) Ei) as Er.
      rewrite (tries_accounts f i o os (mk_sys st (rouse n choice (threads x)) (returned x)) _ Er eq_refl). cbn [threads returned]. f_equal.
      apply to_call_todo. apply rouse_todo.
    + injection E as <-. by rewrite (tries_accounts f i o os _ _ Ei).
  - cbn [threads returned]. f_equal. apply to_call_todo. intros j. destruct (decide (i = j)) as [<-|].
    + rewrite list_lookup_insert_eq by (by eapply lookup_lt_Some). by rewrite E.
    + by rewrite list_lookup_insert_ne.
Qed.
Lemma reaches_accounts f x y : reaches x y →
  to_call f (threads y) + called f (returned y) = to_call f (threads x) + called f (returned x).
Proof. induction 1 as [|x y z [l Hs] _ IH]; [done|]. by rewrite IH, (step_accounts f _ _ _ Hs). Qed.
Lemma run_reaches run who n : fair_run step enabled run who → reaches (run 0) (run n).
Proof.
  intros Hr. induction n as [|n IH]; [done|]. eapply rtc_r; [exact IH|]. eexists. by apply (f_step _ _ _ _ Hr).
Qed.

(** A call can sleep when its test can be false; no other ever does. *)
Definition can_sleep (i : nat) (o : Op) : Prop := ∃ st, attempt i o st = None.
Definition sleepers (x : sys) : Prop :=
  ∀ i t o os, threads x !! i = Some t → todo t = o :: os → at_ t ≠ Idle → can_sleep i o.
Lemma step_sleepers l x y : sleepers x → step l x y → sleepers y.
Proof.
  intros Hx. assert (Ht : ∀ i o os z, sleepers z → sleepers (tries i o os z)).
  { intros i o os z Hz j t o' os'. unfold tries. destruct (attempt i o (object z)) as [[st v]|] eqn:Ea; cbn [threads];
      (intros [(<- & <- & _)|[_ E]]%list_lookup_insert_Some; [|by eapply Hz]); [done|].
    intros [= <- <-] _. by eexists. }
  destruct 1 as [choice i x y E|i t x E|x]; [| |done].
  - unfold turn in E. destruct (threads x !! i) as [[[|o os] []]|]; try discriminate.
    + destruct (enter i o (object x)) as [st n]. injection E as <-. apply Ht. intros j t o' os' Ej Et Hp.
      apply roused in Ej as (t0 & E0 & Ew). eapply (Hx j t0); [exact E0|destruct Ew as [->| ->]; exact Et|].
      destruct Ew as [->| ->]; [done|]. by destruct t0 as [? []].
    + injection E as <-. by apply Ht.
  - intros j t' o' os' [(<- & <- & _)|[_ Ej]]%list_lookup_insert_Some Et Hp; [|by eapply Hx].
    eapply (Hx i t); [exact E|exact Et|]. by destruct t as [? []].
Qed.
Lemma reaches_sleepers st programs x : reaches (start st programs) x → sleepers x.
Proof.
  intros Hr. assert (H0 : sleepers (start st programs)).
  { intros i t o os. cbn. rewrite list_lookup_fmap. by intros (p & _ & ->)%fmap_Some. }
  revert H0. induction Hr as [|x y z [l Hs] _ IH]; [done|]. intros H0. by eapply IH, step_sleepers.
Qed.

(** An invariant of the object and of the calls that returned. *)
Section object_invariant.
Context (Q : nat → Op → Prop) (P : St → list (nat * Op * Val) → Prop)
  (Henter : ∀ i o st ret, Q i o → P st ret →
    match attempt i o (enter i o st).1 with
    | Some (st', v) => P st' (ret ++ [(i, o, v)])
    | None => P (enter i o st).1 ret
    end)
  (Hattempt : ∀ i o st ret st' v, can_sleep i o → Q i o → P st ret → attempt i o st = Some (st', v) → P st' (ret ++ [(i, o, v)])).
Definition allowed (x : sys) : Prop := ∀ i t o, threads x !! i = Some t → o ∈ todo t → Q i o.
Lemma allowed_todo x y : (∀ i : nat, todo <$> threads y !! i = todo <$> threads x !! i) → allowed x → allowed y.
Proof.
  intros E Hx i t o Ei Ho. specialize (E i). rewrite Ei in E. cbn in E. symmetry in E.
  apply fmap_Some in E as (t' & Ei' & Et). eapply Hx; [exact Ei'|]. by rewrite <- Et.
Qed.
Lemma allowed_put x i t l p st ret : threads x !! i = Some t → (∀ o, o ∈ l → o ∈ todo t) → allowed x →
  allowed (mk_sys st (<[i := mk_thread l p]> (threads x)) ret).
Proof.
  intros Ei Hl Hx j t' o. cbn. intros [(<- & <- & _)|[_ Ej]]%list_lookup_insert_Some Ho; [|by eapply Hx].
  eapply Hx; [exact Ei|]. by apply Hl.
Qed.
Lemma tries_allowed i o os x t : threads x !! i = Some t → todo t = o :: os → allowed x → allowed (tries i o os x).
Proof.
  intros Ei Et Hx. unfold tries. destruct (attempt i o (object x)) as [[st v]|]; eapply allowed_put; try done.
  - intros o' Ho. rewrite Et. by right.
  - intros o' Ho. by rewrite Et.
Qed.
Lemma object_step l x y : sleepers x → allowed x → P (object x) (returned x) → step l x y → allowed y ∧ P (object y) (returned y).
Proof using Henter Hattempt.
  intros Hsl Hq HP. destruct 1 as [choice i x y E|i t x E|x]; [| |done].
  - unfold turn in E. destruct (threads x !! i) as [[[|o os] []]|] eqn:Ei; try discriminate.
    + assert (Hqo : Q i o) by (eapply Hq; [exact Ei|by left]). pose proof (Henter i o _ _ Hqo HP) as He.
      destruct (enter i o (object x)) as [st n]. injection E as <-. cbn [fst] in He.
      pose proof (proj2 (rouse_idle n choice (threads x) i (mk_thread (o :: os) Idle) eq_refl) Ei) as Er. split.
      * eapply tries_allowed; [exact Er|done|]. eapply allowed_todo; [|exact Hq]. apply rouse_todo.
      * unfold tries. cbn [object]. by destruct (attempt i o st) as [[st' v]|].
    + assert (Hqo : Q i o) by (eapply Hq; [exact Ei|by left]). injection E as <-. split; [by eapply tries_allowed|].
      unfold tries. destruct (attempt i o (object x)) as [[st v]|] eqn:Ea; [|done].
      by apply (Hattempt i o _ _ _ _ (Hsl i _ o os Ei eq_refl ltac:(done)) Hqo HP).
  - split; [|done]. eapply allowed_todo; [|exact Hq]. intros j. cbn. destruct (decide (i = j)) as [<-|].
    + rewrite list_lookup_insert_eq by (by eapply lookup_lt_Some). by rewrite E.
    + by rewrite list_lookup_insert_ne.
Qed.
Lemma object_invariant st programs x : P st [] → (∀ i p o, programs !! i = Some p → o ∈ p → Q i o) →
  reaches (start st programs) x → P (object x) (returned x).
Proof using Henter Hattempt.
  intros H0 Hq Hr. cut (allowed x ∧ P (object x) (returned x)); [tauto|].
  assert (Hs : allowed (start st programs) ∧ P (object (start st programs)) (returned (start st programs))).
  { split; [|done]. intros i t o. cbn. rewrite list_lookup_fmap. intros (p & Ei & ->)%fmap_Some Ho. by eapply Hq. }
  pose proof (reaches_sleepers st programs _ (rtc_refl _ _)) as Hsl. revert Hsl Hs.
  induction Hr as [|x y z [l Hs] _ IH]; [done|]. intros Hsl [Hq' HP]. apply IH; [by eapply step_sleepers|by eapply object_step].
Qed.
End object_invariant.

(** What is left to call comes from the programs. *)
Lemma reaches_allowed Q st programs x : (∀ i p o, programs !! i = Some p → o ∈ p → Q i o) →
  reaches (start st programs) x → allowed Q x.
Proof.
  intros Hq Hr. assert (Hs : allowed Q (start st programs)).
  { intros i t o. cbn. rewrite list_lookup_fmap. intros (p & Ei & ->)%fmap_Some Ho. by eapply Hq. }
  pose proof (reaches_sleepers st programs _ (rtc_refl _ _)) as Hsl. revert Hsl Hs.
  induction Hr as [|x y z [l Hs] _ IH]; [done|]. intros Hsl Ha. apply IH; [by eapply step_sleepers|].
  eapply (object_step Q (λ _ _, True)); [|done|exact Hsl|exact Ha|done|exact Hs].
  intros i o st' ret _ _. by destruct (attempt i o (enter i o st').1) as [[? ?]|].
Qed.
Lemma account_zero f i l : (∀ o, o ∈ l → f i o = 0) → account f i l = 0.
Proof.
  unfold account. induction l as [|o l IH]; intros Hz; cbn; [done|]. rewrite (Hz o) by (by left).
  apply IH. intros o' Ho. apply Hz. by right.
Qed.
Lemma account_in f i l o : o ∈ l → f i o ≤ account f i l.
Proof.
  unfold account. induction l as [|o' l IH]; intros Hin; [by apply not_elem_of_nil in Hin|]. cbn.
  apply elem_of_cons in Hin as [->|Hin]; [lia|]. specialize (IH Hin). lia.
Qed.
Lemma to_call_zero f ts : (∀ i t o, ts !! i = Some t → o ∈ todo t → f i o = 0) → to_call f ts = 0.
Proof.
  intros Hz. unfold to_call. assert (Hall : ∀ n, n ∈ imap (λ i t, account f i (todo t)) ts → n = 0).
  { intros n (i & Ei)%list_elem_of_lookup. rewrite list_lookup_imap in Ei. apply fmap_Some in Ei as (t & Ei & ->).
    apply account_zero. intros o Ho. by eapply Hz. }
  induction (imap _ ts) as [|n l IH]; cbn; [done|]. unfold id at 1. rewrite (Hall n) by (by left).
  apply IH. intros m Hm. apply Hall. by right.
Qed.
Lemma sum_list_in (n : nat) l : n ∈ l → n ≤ sum_list l.
Proof.
  induction l as [|m l IH]; intros Hin; [by apply not_elem_of_nil in Hin|]. cbn. unfold id.
  apply elem_of_cons in Hin as [->|Hin]; [lia|]. specialize (IH Hin). unfold id in IH. lia.
Qed.
Lemma to_call_in f ts i t o : ts !! i = Some t → o ∈ todo t → f i o ≤ to_call f ts.
Proof.
  intros Ei Ho. pose proof (account_in f i _ _ Ho) as Hle. unfold to_call.
  assert (El : imap (λ i t, account f i (todo t)) ts !! i = Some (account f i (todo t))) by (by rewrite list_lookup_imap, Ei).
  apply list_elem_of_lookup_2, sum_list_in in El. lia.
Qed.

(** The calls of one thread. *)
Definition own (j i : nat) (o : Op) : nat := if decide (i = j) then 1 else 0.
Lemma to_call_own j ts t : ts !! j = Some t → to_call (own j) ts = length (todo t).
Proof.
  intros Ej. pose proof (to_call_put (own j) ts j t (mk_thread [] Idle) Ej) as Hp.
  assert (Ha : ∀ l, account (own j) j l = length l).
  { intros l. unfold account. induction l as [|o l IH]; cbn; [done|]. rewrite IH. unfold own. by rewrite decide_True. }
  rewrite !Ha in Hp. rewrite (to_call_zero (own j) (<[j := _]> ts)) in Hp; [cbn in Hp; lia|].
  intros i u o [(<- & <- & _)|[Hne _]]%list_lookup_insert_Some Ho; [by apply not_elem_of_nil in Ho|].
  unfold own. by rewrite decide_False.
Qed.
Lemma todo_program st programs x i t : reaches (start st programs) x → threads x !! i = Some t → todo t ≠ [] →
  ∃ p, p ∈ programs ∧ ∀ o, o ∈ todo t → o ∈ p.
Proof.
  intros Hr Ei Hne. pose proof (reaches_allowed (λ j o, ∃ p, programs !! j = Some p ∧ o ∈ p) st programs x
    ltac:(intros; eexists; done) Hr i t) as Ha.
  destruct (todo t) as [|o os] eqn:Et; [done|]. destruct (Ha o Ei) as (p & Ep & _); [rewrite ?Et; by left|].
  exists p. split; [by eapply list_elem_of_lookup_2|]. intros o' Ho. destruct (Ha o' Ei) as (p' & Ep' & Ho'); [by rewrite ?Et|].
  rewrite Ep in Ep'. by injection Ep' as <-.
Qed.

(** ** Threads go on *)
Definition fresh (t : thread) : bool := match t with mk_thread (_ :: _) Idle => true | _ => false end.
Definition ready (i : nat) (st : St) (t : thread) : bool :=
  match t with mk_thread (o :: _) Awake => bool_decide (is_Some (attempt i o st)) | _ => false end.
Definition dozing (i : nat) (st : St) (t : thread) : bool :=
  match t with mk_thread (o :: _) Asleep => bool_decide (is_Some (attempt i o st)) | _ => false end.
Definition look (i : nat) (st : St) (t : thread) : bool * bool * bool := (fresh t, ready i st t, dozing i st t).
Definition looks (x : sys) : list (bool * bool * bool) := imap (λ i t, look i (object x) t) (threads x).
Definition one_fresh (l : list (bool * bool * bool)) : option nat := fst <$> list_find (λ b, b.1.1 = true) l.
Definition one_ready (l : list (bool * bool * bool)) : option nat := fst <$> list_find (λ b, b.1.2 = true) l.
Definition helpful (x : sys) : nat :=
  match one_fresh (looks x) with Some i => i | None => default 0 (one_ready (looks x)) end.
Definition settled (x : sys) : Prop := one_fresh (looks x) = None ∧ one_ready (looks x) = None.
Definition weight (t : thread) : nat := 2 * length (todo t) - match at_ t with Idle => 0 | _ => 1 end.
Definition measure (x : sys) : nat * nat * nat :=
  (sum_list_with weight (threads x), sum_list_with (λ b, Nat.b2n b.2) (looks x), 0).

Lemma wake_weight t : weight (wake t) = weight t.
Proof. by destruct t as [? []]. Qed.
Lemma rouse_weight n choice ts : sum_list_with weight (rouse n choice ts) = sum_list_with weight ts.
Proof.
  destruct n; cbn; [done| |].
  - destruct (picked choice ts) as [k|]; [|done]. destruct (ts !! k) as [t|] eqn:Ek.
    + pose proof (lsum_put weight ts k (wake t) t Ek) as Hs. rewrite wake_weight in Hs.
      replace (alter wake k ts) with (<[k := wake t]> ts); [lia|]. apply list_eq. intros j.
      destruct (decide (k = j)) as [<-|]; [|by rewrite list_lookup_insert_ne, list_lookup_alter_ne].
      rewrite list_lookup_insert_eq, list_lookup_alter_eq, Ek; [done|by eapply lookup_lt_Some].
    + replace (alter wake k ts) with ts; [done|]. apply list_eq. intros j.
      destruct (decide (k = j)) as [<-|]; [by rewrite list_lookup_alter_eq, Ek|by rewrite list_lookup_alter_ne].
  - induction ts as [|t ts IH]; [done|]. rewrite fmap_cons. cbn [sum_list_with]. by rewrite wake_weight, IH.
Qed.
(** A step makes progress, or wakes a thread, or puts one to sleep again. *)
Inductive shift (x y : sys) : Prop :=
  | progress : sum_list_with weight (threads y) < sum_list_with weight (threads x) → shift x y
  | woken i t : threads x !! i = Some t → y = mk_sys (object x) (<[i := wake t]> (threads x)) (returned x) → shift x y
  | back i o os : threads x !! i = Some (mk_thread (o :: os) Awake) → attempt i o (object x) = None →
      y = mk_sys (object x) (<[i := mk_thread (o :: os) Asleep]> (threads x)) (returned x) → shift x y
  | same : y = x → shift x y.
Lemma tries_progress i o os x t : threads x !! i = Some t → todo t = o :: os →
  (at_ t = Idle ∨ is_Some (attempt i o (object x))) →
  sum_list_with weight (threads (tries i o os x)) < sum_list_with weight (threads x).
Proof.
  intros Ei Et Hp. unfold tries. destruct t as [l p]. cbn in Et, Hp. subst l.
  destruct (attempt i o (object x)) as [[st v]|]; cbn [threads].
  - pose proof (lsum_put weight _ i (mk_thread os Idle) _ Ei) as Hs. unfold weight in *. cbn in *. destruct p; cbn in *; lia.
  - destruct Hp as [->|[? ?]]; [|done]. pose proof (lsum_put weight _ i (mk_thread (o :: os) Asleep) _ Ei) as Hs.
    unfold weight in *. cbn in *. lia.
Qed.
Lemma step_shift l x y : step l x y → shift x y.
Proof.
  destruct 1 as [choice i x y E|i t x E|x]; [|by eapply woken|by apply same].
  unfold turn in E. destruct (threads x !! i) as [[[|o os] []]|] eqn:Ei; try discriminate.
  - destruct (enter i o (object x)) as [st n]. injection E as <-. apply progress.
    pose proof (proj2 (rouse_idle n choice (threads x) i (mk_thread (o :: os) Idle) eq_refl) Ei) as Er.
    rewrite <- (rouse_weight n choice (threads x)).
    by apply (tries_progress i o os (mk_sys st (rouse n choice (threads x)) (returned x)) _ Er); [|left].
  - injection E as <-. destruct (attempt i o (object x)) as [[st v]|] eqn:Ea.
    + apply progress. apply (tries_progress i o os x _ Ei); [done|right]. by rewrite Ea.
    + eapply back; [done..|]. unfold tries. by rewrite Ea.
Qed.
Lemma looks_put x i t : looks (mk_sys (object x) (<[i := t]> (threads x)) (returned x)) =
  <[i := look i (object x) t]> (looks x).
Proof.
  unfold looks. cbn [object threads]. apply list_eq. intros j. rewrite list_lookup_imap.
  destruct (decide (i = j)) as [<-|]; [|by rewrite !list_lookup_insert_ne, list_lookup_imap by done].
  destruct (decide (i < length (threads x))) as [Hlt|Hge].
  - rewrite !list_lookup_insert_eq; [done|by rewrite length_imap|done].
  - rewrite !(proj2 (lookup_ge_None _ _)); [done|rewrite length_insert, ?length_imap; lia..].
Qed.
Lemma looks_lookup x i t : threads x !! i = Some t → looks x !! i = Some (look i (object x) t).
Proof. intros E. unfold looks. by rewrite list_lookup_imap, E. Qed.

Lemma found_lookup (P : bool * bool * bool → Prop) `{∀ b, Decision (P b)} l i :
  fst <$> list_find P l = Some i → ∃ b, l !! i = Some b ∧ P b.
Proof. intros ([i' b] & (? & ? & _)%list_find_Some & ->)%fmap_Some. eauto. Qed.
Lemma not_found (P : bool * bool * bool → Prop) `{∀ b, Decision (P b)} l i b :
  fst <$> list_find P l = None → l !! i = Some b → ¬ P b.
Proof. intros E%fmap_None%list_find_None Hi. rewrite Forall_lookup in E. by eapply E. Qed.

(** An invariant that keeps a thread awake while one that sleeps could go on. *)
Section live.
Context (J : sys → Prop) (HJ : ∀ l x y, all_busy x → J x → step l x y → J y)
  (Hwake : ∀ x j o os, J x → threads x !! j = Some (mk_thread (o :: os) Asleep) → is_Some (attempt j o (object x)) →
    ∃ k o' os', threads x !! k = Some (mk_thread (o' :: os') Awake) ∧ is_Some (attempt k o' (object x))).

Lemma who_helps x : ¬ settled x → ∃ o os, let i := helpful x in
  threads x !! i = Some (mk_thread (o :: os) Idle) ∨
  threads x !! i = Some (mk_thread (o :: os) Awake) ∧ is_Some (attempt i o (object x)).
Proof.
  intros Hn. unfold settled, helpful in *. destruct (one_fresh (looks x)) as [i|] eqn:E1.
  - apply found_lookup in E1 as (b & Ei & Hb). unfold looks in Ei. rewrite list_lookup_imap in Ei.
    apply fmap_Some in Ei as ([[|o os] []] & Ei & ->); try discriminate Hb. exists o, os. by left.
  - destruct (one_ready (looks x)) as [i|] eqn:E2; [|by destruct Hn].
    apply found_lookup in E2 as (b & Ei & Hb). unfold looks in Ei. rewrite list_lookup_imap in Ei.
    apply fmap_Some in Ei as ([[|o os] []] & Ei & ->); try discriminate Hb. exists o, os. right.
    cbn in *. by apply bool_decide_eq_true in Hb.
Qed.
Lemma helpful_progress x y : ¬ settled x → step (Some (helpful x)) x y →
  sum_list_with weight (threads y) < sum_list_with weight (threads x).
Proof.
  intros Hn Hs. destruct (who_helps x Hn) as (o & os & Hc). cbv zeta in Hc. inversion Hs as [choice i ? ? E| |]; subst.
  unfold turn in E. destruct Hc as [Ei|[Ei Ha]]; rewrite Ei in E.
  - destruct (enter (helpful x) o (object x)) as [st n]. injection E as <-.
    pose proof (proj2 (rouse_idle n choice (threads x) _ (mk_thread (o :: os) Idle) eq_refl) Ei) as Er.
    rewrite <- (rouse_weight n choice (threads x)).
    by apply (tries_progress _ o os (mk_sys st (rouse n choice (threads x)) (returned x)) _ Er); [|left].
  - injection E as <-. by apply (tries_progress _ o os x _ Ei); [|right].
Qed.
Lemma shift_measure x y : shift x y →
  lex3 (measure y) (measure x) ∨ measure y = measure x ∧ helpful y = helpful x.
Proof.
  unfold measure, lex3. cbn. intros [Hlt|i t Ei ->|i o os Ei Ha ->| ->]; [by left; left| | |by right].
  - cbn [threads]. pose proof (lsum_put weight _ i (wake t) _ Ei) as Hw. rewrite wake_weight in Hw.
    pose proof (lsum_put (λ b, Nat.b2n b.2) _ i (look i (object x) (wake t)) _ (looks_lookup _ _ _ Ei)) as Hl.
    unfold helpful. rewrite looks_put. destruct (dozing i (object x) t) eqn:Ed.
    + left. right. split; [lia|]. left. destruct t as [[|o os] []]; try discriminate Ed. cbn in *. rewrite Ed in Hl. cbn in Hl. lia.
    + right. assert (E : look i (object x) (wake t) = look i (object x) t).
      { destruct t as [[|o os] []]; try done. cbn in Ed. unfold look. cbn. by rewrite Ed. }
      rewrite E, (list_insert_id _ _ _ (looks_lookup _ _ _ Ei)). split; [|done]. f_equal. f_equal. lia.
  - cbn [threads]. pose proof (lsum_put weight _ i (mk_thread (o :: os) Asleep) _ Ei) as Hw.
    unfold helpful. rewrite looks_put. right.
    assert (E : look i (object x) (mk_thread (o :: os) Asleep) = look i (object x) (mk_thread (o :: os) Awake)).
    { unfold look. cbn. by rewrite Ha. }
    rewrite E, (list_insert_id _ _ _ (looks_lookup _ _ _ Ei)). split; [|done]. f_equal. f_equal. cbn in Hw. lia.
Qed.
Lemma settles run who : fair_run step enabled run who → all_busy (run 0) → J (run 0) →
  ∃ n, settled (run n) ∧ J (run n) ∧ all_busy (run n).
Proof using HJ Hwake.
  intros Hr Hb H0.
  assert (Hi : ∀ n, all_busy (run n) ∧ J (run n)).
  { intros n. induction n as [|n [IH1 IH2]]; [done|]. pose proof (f_step _ _ _ _ Hr n) as Hs.
    split; [by eapply step_busy|by eapply HJ]. }
  assert (∀ x, Decision (settled x)) by (unfold settled; apply _).
  destruct (fair_termination step enabled (λ x, True) settled lex3 measure helpful lex3_wf) with (run := run) (who := who)
    as [n Hn]; try done.
  - intros x _ Hn. destruct (who_helps x Hn) as (o & os & [E|[E _]]); unfold enabled, turn; rewrite E; [|done].
    by destruct (enter (helpful x) o (object x)).
  - intros x y _ Hn Hs. left. by apply helpful_progress.
  - intros l x y _ _ Hs. by eapply shift_measure, step_shift.
  - exists n. split; [done|]. destruct (Hi n). done.
Qed.
(** In a settled state a thread has returned from all of its calls, or waits for
    what is not so. *)
Lemma settled_stuck x i t : settled x → J x → all_busy x → threads x !! i = Some t →
  t = mk_thread [] Idle ∨ ∃ o os, todo t = o :: os ∧ at_ t ≠ Idle ∧ attempt i o (object x) = None.
Proof using Hwake.
  intros [H1 H2] Hj Hb Ei. specialize (Hb i t Ei). pose proof (looks_lookup _ _ _ Ei) as El.
  pose proof (not_found _ _ _ _ H1 El) as Hf. pose proof (not_found _ _ _ _ H2 El) as Hg.
  destruct t as [[|o os] []]; [by left|by destruct Hb|by destruct Hb|by destruct Hf| |]; right; exists o, os; (split; [done|]; split; [done|]).
  - destruct (attempt i o (object x)) eqn:Ea; [|done]. exfalso.
    destruct (Hwake x i o os Hj Ei) as (k & o' & os' & Ek & Hk); [by rewrite Ea|].
    apply (not_found _ _ _ _ H2 (looks_lookup _ _ _ Ek)). cbn. by apply bool_decide_eq_true.
  - cbn in Hg. destruct (attempt i o (object x)) eqn:Ea; [|done]. destruct Hg. by rewrite bool_decide_true by done.
Qed.
End live.

(** ** Runs that are played *)
Lemma turn_step i x y : turn 0 i x = Some y → step (Some i) x y.
Proof. apply S_turn. Qed.
Lemma play_fair (l : list nat) (x y : sys) : plays (turn 0) l x = Some y → (∀ i, turn 0 i y = None) →
  fair_run step enabled (played (turn 0) l x) (λ n, l !! n).
Proof.
  intros Hy Hn. eapply played_fair; [apply turn_step|apply S_idle|exact Hy|].
  intros i. unfold enabled. rewrite Hn. by intros [? [=]].
Qed.
Lemma play_reaches (l : list nat) (x y : sys) : plays (turn 0) l x = Some y → reaches x y.
Proof. exact (plays_rtc step (turn 0) turn_step l x y). Qed.

(** ** Objects that broadcast *)
(** What can make the test of another call true is followed by a broadcast. *)
Class Broadcasts := {
  enter_wakes i o st j oj : i ≠ j → attempt j oj st = None →
    (enter i o st).2 = All ∨ attempt j oj (enter i o st).1 = None;
  attempt_wakes i o st st' v j oj : i ≠ j → attempt i o st = Some (st', v) → attempt j oj st = None →
    attempt j oj st' = None }.
(** No wake-up is lost: a thread that sleeps has nothing to wake for. *)
Definition sleeps_rightly (x : sys) : Prop :=
  ∀ j o os, threads x !! j = Some (mk_thread (o :: os) Asleep) → attempt j o (object x) = None.

Section broadcasts.
Context {HB : Broadcasts}.
Lemma tries_rightly i o os x :
  (∀ j oj osj, i ≠ j → threads x !! j = Some (mk_thread (oj :: osj) Asleep) → attempt j oj (object x) = None) →
  sleeps_rightly (tries i o os x).
Proof using HB.
  intros Hs j oj osj. unfold tries. destruct (attempt i o (object x)) as [[st v]|] eqn:Ea; cbn [threads object].
  - intros [(<- & [=] & _)|[Hne E]]%list_lookup_insert_Some. by eapply attempt_wakes, Hs.
  - intros [(<- & [= <- <-] & _)|[Hne E]]%list_lookup_insert_Some; [done|by eapply Hs].
Qed.
Lemma rouse_asleep n choice ts j l : rouse n choice ts !! j = Some (mk_thread l Asleep) →
  n ≠ All ∧ ts !! j = Some (mk_thread l Asleep).
Proof.
  intros E. split.
  - intros ->. cbn in E. rewrite list_lookup_fmap in E. apply fmap_Some in E as ([? []] & _ & [=]).
  - apply roused in E as (t0 & -> & [<-|E]); [done|]. by destruct t0 as [? []].
Qed.
Lemma step_rightly l x y : sleeps_rightly x → step l x y → sleeps_rightly y.
Proof using HB.
  intros Hs. destruct 1 as [choice i x y E|i t x E|x]; [| |done].
  - unfold turn in E. destruct (threads x !! i) as [[[|o os] []]|] eqn:Ei; try discriminate.
    + destruct (enter i o (object x)) as [st n] eqn:En. injection E as <-. apply tries_rightly.
      cbn [threads object]. intros j oj osj Hne [Hn Ej]%rouse_asleep.
      destruct (enter_wakes i o (object x) j oj Hne (Hs _ _ _ Ej)) as [Hall|Ha]; rewrite En in *; by cbn in *.
    + injection E as <-. apply tries_rightly. intros j oj osj _ Ej. by eapply Hs.
  - intros j o os [(<- & Ew & _)|[_ Ej]]%list_lookup_insert_Some; [by destruct t as [? []]|by eapply Hs].
Qed.
Lemma start_rightly st programs : sleeps_rightly (start st programs).
Proof. intros j o os. cbn. rewrite list_lookup_fmap. intros (p & _ & [=])%fmap_Some. Qed.
Lemma start_busy st programs : all_busy (start st programs).
Proof. intros j t. cbn. rewrite list_lookup_fmap. intros (p & _ & ->)%fmap_Some. by unfold busy; cbn. Qed.

Lemma no_lost_wakeup st programs x : reaches (start st programs) x → sleeps_rightly x.
Proof using HB.
  intros Hr. pose proof (start_rightly st programs) as H0. revert H0.
  induction Hr as [|x y z [l Hs] _ IH]; [done|]. intros H0. by eapply IH, step_rightly.
Qed.
Lemma broadcasts_settle run who st programs : fair_run step enabled run who → run 0 = start st programs →
  ∃ n, ∀ i t, threads (run n) !! i = Some t →
    t = mk_thread [] Idle ∨ ∃ o os, todo t = o :: os ∧ at_ t ≠ Idle ∧ attempt i o (object (run n)) = None.
Proof using HB.
  intros Hr E0. assert (Hw : ∀ x j o os, sleeps_rightly x → threads x !! j = Some (mk_thread (o :: os) Asleep) →
    is_Some (attempt j o (object x)) → ∃ k o' os', threads x !! k = Some (mk_thread (o' :: os') Awake) ∧
      is_Some (attempt k o' (object x))).
  { intros x j o os Hx Ej [? Ha]. by rewrite (Hx _ _ _ Ej) in Ha. }
  destruct (settles sleeps_rightly (λ l x y _, step_rightly l x y) Hw run who Hr) as (n & Hn & Hj & Hb);
    [rewrite E0; apply start_busy|rewrite E0; apply start_rightly|].
  exists n. intros i t Ei. by apply (settled_stuck sleeps_rightly Hw).
Qed.
End broadcasts.
End monitor.
Arguments Broadcasts {St Op Val} _.
Arguments thread Op : clear implicits.
Arguments sys St Op Val : clear implicits.
End Mon.
