(* ===== verification/Synchronize.v ===== *)
(** The small objects of [libraries/Synchronize]: [Semaphore], [Event], [Barrier],
    [BlockingQueue], [Future] and [Atomic], each a [Mon.Monitor] but the last. *)
From S2P Require Import Prelude Fairness Monitor.

Import Mon.

(** * [Semaphore.h], [Semaphore.cc] *)
Module Sem.
Record Semaphore := mk { value : Z }.
Inductive op := Post (num : Z) | Wait | GetValue.
Definition on_entry (i : nat) (o : op) (s : Semaphore) : Semaphore * notify :=
  match o with Post num => (mk (u64 (value s + num)), All) | _ => (s, Quiet) end.
Definition test (i : nat) (o : op) (s : Semaphore) : option (Semaphore * option Z) :=
  match o with
  | Wait => if value s =? 0 then None else Some (mk (u64 (value s - 1)), None)
  | GetValue => Some (s, Some (value s))
  | Post _ => Some (s, None)
  end.
#[export] Instance semaphore : Monitor Semaphore op (option Z) := {| enter := on_entry; attempt := test |}.
#[export] Instance semaphore_broadcasts : Broadcasts semaphore.
Proof.
  split.
  - intros i o s j oj _ Ha. destruct o; [by left|by right..].
  - intros i o s s' v j oj _ Hi Hj. cbn in *. unfold on_entry, test in *. destruct oj; try discriminate.
    destruct (value s =? 0) eqn:E; [|discriminate]. destruct o; try discriminate; injection Hi as <- <-; by rewrite E.
Qed.

Definition posts (i : nat) (o : op) : nat := match o with Post num => Z.to_nat num | _ => O end.
Definition waits (i : nat) (o : op) : nat := match o with Wait => 1%nat | _ => O end.
Definition nonneg (o : op) : Prop := match o with Post num => 0 ≤ num | _ => True end.
(** What the semaphore has is what it had and was given, less one for each wait. *)
Lemma value_accounts v0 programs x : 0 ≤ v0 → (∀ p o, p ∈ programs → o ∈ p → nonneg o) →
  v0 + Z.of_nat (called posts (returned x) + to_call posts (threads x)) < 18446744073709551616 →
  reaches (start (mk v0) programs) x →
  0 ≤ value (object x) ∧ value (object x) + Z.of_nat (called waits (returned x)) = v0 + Z.of_nat (called posts (returned x)).
Proof.
  intros Hv Hp Hb Hr. set (P := λ (s : Semaphore) (ret : list (nat * op * option Z)),
    v0 + Z.of_nat (called posts ret) < 18446744073709551616 →
    0 ≤ value s ∧ value s + Z.of_nat (called waits ret) = v0 + Z.of_nat (called posts ret)).
  assert (HP : P (object x) (returned x)); [|apply HP; lia].
  assert (Hc : ∀ f (ret : list (nat * op * option Z)) i o v,
    called f (ret ++ [(i, o, v)]) = (called f ret + f i o)%nat).
  { intros f ret i o v. unfold called. rewrite sum_list_with_app. cbn. lia. }
  eapply (object_invariant (λ _, nonneg) P); [| | | |exact Hr].
  - intros i o s ret Hq Hi. unfold P in *. cbn [enter attempt semaphore]. unfold on_entry, test. destruct o; cbn [fst value nonneg] in *.
    + rewrite !Hc. cbn [posts waits]. intros Hlt. destruct Hi as [H1 H2]; [lia|]. rewrite u64_id by lia. lia.
    + destruct (Z.eqb_spec (value s) 0) as [E|E]; [done|]. rewrite !Hc. cbn [posts waits value].
      intros Hlt. destruct Hi as [H1 H2]; [lia|]. rewrite u64_id by lia. lia.
    + rewrite !Hc. cbn [posts waits]. intros Hlt. destruct Hi as [H1 H2]; [lia|]. lia.
  - intros i o s ret s' v [s0 Hs0] Hq Hi. unfold P in *. cbn [attempt semaphore] in *. unfold test in *. destruct o; try discriminate.
    destruct (Z.eqb_spec (value s) 0) as [E|E]; [done|]. intros [= <- <-]. rewrite !Hc. cbn [posts waits value].
    intros Hlt. destruct Hi as [H1 H2]; [lia|]. rewrite u64_id by lia. lia.
  - unfold P. cbn. lia.
  - intros i p o Hp' Ho. eapply Hp; [by eapply list_elem_of_lookup_2|done].
Qed.

(** C17: The threads that wait for a semaphore and those that post to it, in any
    order and with any spurious wake-ups: when there is enough for all waits, every
    fair run comes to where all calls have returned. *)
Theorem semaphore_serves run who v0 programs : fair_run step enabled run who → run O = start (mk v0) programs →
  0 ≤ v0 → (∀ p o, p ∈ programs → o ∈ p → nonneg o) →
  (∀ p num, p ∈ programs → Wait ∈ p → Post num ∉ p) →
  v0 + Z.of_nat (to_call posts (threads (run O))) < 18446744073709551616 →
  Z.of_nat (to_call waits (threads (run O))) ≤ v0 + Z.of_nat (to_call posts (threads (run O))) →
  ∃ n, ∀ t, t ∈ threads (run n) → t = mk_thread [] Idle.
Proof.
  intros Hr E0 Hv Hp Hsep Hb Hen. destruct (broadcasts_settle run who _ _ Hr E0) as [n Hn]. exists n.
  intros t (i & Ei)%list_elem_of_lookup. destruct (Hn i t Ei) as [|(o & os & Et & _ & Ha)]; [done|exfalso].
  assert (Hreach : reaches (start (mk v0) programs) (run n)) by (rewrite <- E0; by eapply run_reaches).
  pose proof (reaches_accounts posts _ _ Hreach) as Ap. pose proof (reaches_accounts waits _ _ Hreach) as Aw.
  rewrite <- E0 in Ap, Aw. assert (Er : returned (run O) = []) by (by rewrite E0). rewrite Er in Ap, Aw. cbn [called sum_list_with] in Ap, Aw.
  destruct (value_accounts v0 programs (run n)) as [H1 H2]; [done..|lia|done|].
  assert (Hstuck : ∀ j u o' os', threads (run n) !! j = Some u → todo u = o' :: os' → o' = Wait ∧ value (object (run n)) = 0).
  { intros j u o' os' Ej Eu. destruct (Hn j u Ej) as [->|(o1 & os1 & Eu1 & _ & Ha1)]; [done|]. rewrite Eu in Eu1. injection Eu1 as <- <-.
    cbn in Ha1. unfold test in Ha1. destruct o'; try discriminate. destruct (Z.eqb_spec (value (object (run n))) 0); [done|discriminate]. }
  assert (Hno : to_call posts (threads (run n)) = O).
  { apply to_call_zero. intros j u o' Ej Ho'. destruct (todo u) as [|o1 os1] eqn:Eu; [by apply not_elem_of_nil in Ho'|].
    destruct (Hstuck j u o1 os1 Ej Eu) as [-> _].
    destruct (todo_program _ _ _ _ _ Hreach Ej) as (p & Hp' & Hin); [by rewrite Eu|]. rewrite Eu in Hin.
    destruct o' as [num| |]; [|done..]. exfalso. apply (Hsep p num Hp'); [apply Hin; by left|by apply Hin]. }
  destruct (Hstuck i t o os Ei Et) as [-> Hz].
  assert (Hw1 : (1 ≤ to_call waits (threads (run n)))%nat) by (apply (to_call_in waits _ i t Wait Ei); rewrite Et; by left).
  lia.
Qed.

Definition ex_start : sys Semaphore op (option Z) := start (mk 0) [[Wait]; [Post 1]].
Lemma ex_serves_fair : fair_run step enabled (played (turn 0) [0; 1; 0]%nat ex_start) (λ n, [0; 1; 0]%nat !! n).
Proof. eapply play_fair; [vm_compute; reflexivity|]. by intros [|[|i]]. Qed.
Lemma semaphore_serves_witness :
  ∃ n, ∀ t, t ∈ threads (played (turn 0) [0; 1; 0]%nat ex_start n) → t = mk_thread [] Idle.
Proof.
  apply (semaphore_serves _ _ 0 [[Wait]; [Post 1]] ex_serves_fair); [reflexivity|lia| | |vm_compute; reflexivity|vm_compute; discriminate].
  - intros p o [->| ->%list_elem_of_singleton]%elem_of_cons ->%list_elem_of_singleton; cbn; lia.
  - intros p num [->| ->%list_elem_of_singleton]%elem_of_cons Hw%list_elem_of_singleton; [|done].
    intros Hq%list_elem_of_singleton. done.
Defined.
End Sem.

(** * [BlockingQueue.h] *)
Module BQ.
Inductive op := Push (t : Z) | Pop.
Definition on_entry (i : nat) (o : op) (queue : list Z) : list Z * notify :=
  match o with Push t => (queue ++ [t], One) | Pop => (queue, Quiet) end.
Definition test (i : nat) (o : op) (queue : list Z) : option (list Z * option Z) :=
  match o with
  | Push _ => Some (queue, None)
  | Pop => match queue with [] => None | t :: queue => Some (queue, Some t) end
  end.
#[export] Instance blocking_queue : Monitor (list Z) op (option Z) := {| enter := on_entry; attempt := test |}.

Definition pushed (ret : list (nat * op * option Z)) : list Z :=
  omap (λ r, match r.1.2 with Push t => Some t | Pop => None end) ret.
Definition popped (ret : list (nat * op * option Z)) : list Z := omap (λ r, r.2) ret.
Definition pushes (i : nat) (o : op) : nat := match o with Push _ => 1%nat | Pop => O end.
Definition pops (i : nat) (o : op) : nat := match o with Push _ => O | Pop => 1%nat end.

(** [Signal] wakes one thread only; but those that are awake are enough for what
    is in the queue while another sleeps. *)
Definition awake (t : thread op) : nat := match at_ t with Awake => 1%nat | _ => O end.
Definition enough_awake (x : sys (list Z) op (option Z)) : Prop :=
  ∀ i o os, threads x !! i = Some (mk_thread (o :: os) Asleep) →
    (length (object x) ≤ sum_list_with awake (threads x))%nat.
Lemma alter_put (ts : list (thread op)) k t : ts !! k = Some t → alter wake k ts = <[k := wake t]> ts.
Proof.
  intros Ek. apply list_eq. intros j. destruct (decide (k = j)) as [<-|].
  - rewrite list_lookup_alter_eq, Ek, list_lookup_insert_eq; [done|by eapply lookup_lt_Some].
  - by rewrite list_lookup_alter_ne, list_lookup_insert_ne.
Qed.
Lemma picked_asleep choice (ts : list (thread op)) k : picked choice ts = Some k → ∃ t, ts !! k = Some t ∧ asleep t = true.
Proof.
  unfold picked. destruct (ts !! choice) as [t|] eqn:E; [destruct (asleep t) eqn:Ea|]; [by intros [= <-]; eauto|..];
    intros ([? ?] & (? & ? & _)%list_find_Some & ->)%fmap_Some; by eauto.
Qed.
Lemma picked_none choice (ts : list (thread op)) i t : picked choice ts = None → ts !! i = Some t → asleep t = false.
Proof.
  unfold picked. intros Hn Ei. destruct (match ts !! choice with Some t => asleep t | None => false end); [done|].
  apply fmap_None, list_find_None in Hn. rewrite Forall_lookup in Hn. apply not_true_iff_false. by eapply Hn.
Qed.
Lemma step_enough l x y : all_busy x → sleepers x → enough_awake x → step l x y → enough_awake y.
Proof.
  intros Hb Hsl Hx. destruct 1 as [choice i x y E|i t x E|x]; [| |done].
  - unfold turn in E. destruct (threads x !! i) as [[[|o os] []]|] eqn:Ei; try discriminate.
    + destruct o as [t|]; cbn in E; injection E as <-.
      * (* a push *)
        intros j oj osj. unfold tries. cbn. destruct (picked choice (threads x)) as [k|] eqn:Ep.
        -- destruct (picked_asleep _ _ _ Ep) as (u & Ek & Hu). rewrite (alter_put _ _ _ Ek).
           assert (Hk : k ≠ i) by (intros ->; rewrite Ei in Ek; by injection Ek as <-).
           destruct u as [[|ou osu] []]; try discriminate Hu; [by destruct (Hb k _ Ek)|]. intros _.
           pose proof (Hx k ou osu Ek) as Hle. pose proof (lsum_put awake _ k (wake (mk_thread (ou :: osu) Asleep)) _ Ek) as H1.
           assert (Ei' : <[k := wake (mk_thread (ou :: osu) Asleep)]> (threads x) !! i = Some (mk_thread (Push t :: os) Idle))
             by (by rewrite list_lookup_insert_ne).
           pose proof (lsum_put awake _ i (mk_thread os Idle) _ Ei') as H2. rewrite length_app. cbn in *. lia.
        -- intros [(_ & [=] & _)|[Hne Ej]]%list_lookup_insert_Some. by pose proof (picked_none _ _ _ _ Ep Ej).
      * (* a pop *)
        intros j oj osj. unfold tries. cbn. pose proof (lsum_put awake _ i (mk_thread os Idle) _ Ei) as H1.
        destruct (object x) as [|v q] eqn:Eq; cbn; [lia|].
        intros [(_ & [=] & _)|[_ Ej]]%list_lookup_insert_Some. pose proof (Hx j oj osj Ej) as Hle. rewrite Eq in Hle. cbn in *. lia.
    + injection E as <-. intros j oj osj. unfold tries. destruct o as [t|]; cbn.
      * (* a push is never awake *)
        by destruct (Hsl i _ _ _ Ei eq_refl ltac:(done)).
      * pose proof (lsum_put awake _ i (mk_thread os Idle) _ Ei) as H1.
        destruct (object x) as [|v q] eqn:Eq; cbn; [lia|].
        intros [(_ & [=] & _)|[_ Ej]]%list_lookup_insert_Some. pose proof (Hx j oj osj Ej) as Hle. rewrite Eq in Hle. cbn in *. lia.
  - intros j oj osj. cbn. pose proof (lsum_put awake _ i (wake t) _ E) as H1.
    intros [(_ & Ew & _)|[_ Ej]]%list_lookup_insert_Some; [destruct t as [? []]; discriminate Ew|].
    pose proof (Hx j oj osj Ej) as Hle. destruct t as [? []]; cbn in *; lia.
Qed.

Lemma awake_one (ts : list (thread op)) : (0 < sum_list_with awake ts)%nat → ∃ k t, ts !! k = Some t ∧ at_ t = Awake.
Proof.
  induction ts as [|t ts IH]; cbn; [lia|]. intros Hlt. destruct (at_ t) eqn:Et; unfold awake in Hlt at 1; rewrite Et in Hlt.
  - destruct (IH ltac:(lia)) as (k & u & Ek & Hu). by exists (S k), u.
  - destruct (IH ltac:(lia)) as (k & u & Ek & Hu). by exists (S k), u.
  - by exists O, t.
Qed.
Definition live (x : sys (list Z) op (option Z)) : Prop := all_busy x ∧ sleepers x ∧ enough_awake x.
Lemma live_wakes x j o os : live x → threads x !! j = Some (mk_thread (o :: os) Asleep) → is_Some (attempt j o (object x)) →
  ∃ k o' os', threads x !! k = Some (mk_thread (o' :: os') Awake) ∧ is_Some (attempt k o' (object x)).
Proof.
  intros (Hb & Hsl & Hx) Ej Ha. pose proof (Hx j o os Ej) as Hle. destruct o as [t|].
  { by destruct (Hsl j _ _ _ Ej eq_refl ltac:(done)). }
  cbn in Ha. destruct (object x) as [|v q] eqn:Eq; [by destruct Ha|]. cbn in Hle.
  destruct (awake_one (threads x)) as (k & [[|o' os'] p] & Ek & Hp); [lia|exfalso; apply (Hb k _ Ek); [cbn in *; by subst|done]|].
  cbn in Hp. subst p. exists k, o', os'. split; [done|]. destruct o'; cbn; by eauto.
Qed.
Lemma live_step l x y : all_busy x → live x → step l x y → live y.
Proof.
  intros _ (Hb & Hsl & Hx) Hs. split_and!; [by eapply step_busy|by eapply step_sleepers|by eapply step_enough].
Qed.
Lemma in_order programs x : reaches (start [] programs) x → pushed (returned x) = popped (returned x) ++ object x.
Proof.
  apply (object_invariant (λ _ _, True) (λ (q : list Z) ret, pushed ret = popped ret ++ q)); [| |done|done].
  - intros i o q ret _ E. unfold pushed, popped in *. destruct o as [t|]; cbn [enter attempt blocking_queue on_entry test fst].
    + rewrite !omap_app, E. cbn. by rewrite app_nil_r, app_assoc.
    + destruct q as [|v q]; [done|]. rewrite !omap_app, E. cbn. by rewrite app_nil_r, <- app_assoc.
  - intros i o q ret q' v [q0 Hq0] _ E. destruct o as [t|]; [done|]. cbn. destruct q as [|w q]; [done|].
    intros [= <- <-]. unfold pushed, popped in *. rewrite !omap_app, E. cbn. by rewrite app_nil_r, <- app_assoc.
Qed.
Lemma counts programs x : reaches (start [] programs) x →
  length (pushed (returned x)) = called pushes (returned x) ∧ length (popped (returned x)) = called pops (returned x).
Proof.
  apply (object_invariant (λ _ _, True) (λ (_ : list Z) (ret : list (nat * op * option Z)),
    length (pushed ret) = called pushes ret ∧ length (popped ret) = called pops ret)); [| |done|done].
  - intros i o q ret _ [E1 E2]. unfold pushed, popped, called in *. destruct o as [t|]; cbn [enter attempt blocking_queue on_entry test fst];
      [|destruct q; [done|]]; rewrite !omap_app, !length_app, !sum_list_with_app, E1, E2; by cbn.
  - intros i o q ret q' v [q0 Hq0] _ [E1 E2]. destruct o as [t|]; [done|]. cbn. destruct q as [|w q]; [done|].
    intros [= <- <-]. unfold pushed, popped, called in *. rewrite !omap_app, !length_app, !sum_list_with_app, E1, E2; by cbn.
Qed.

(** C16: What is popped is what was pushed, in the order of the lock, whatever threads
    do so; and when some push and others pop, and no more than is pushed, every fair
    run comes to where all calls have returned, though a push wakes one thread only. *)
Theorem pops_what_was_pushed run who programs : fair_run step enabled run who → run O = start [] programs →
  (∀ p t, p ∈ programs → Pop ∈ p → Push t ∉ p) →
  (to_call pops (threads (run O)) ≤ to_call pushes (threads (run O)))%nat →
  (∀ n, pushed (returned (run n)) = popped (returned (run n)) ++ object (run n)) ∧
  ∃ n, ∀ t, t ∈ threads (run n) → t = mk_thread [] Idle.
Proof.
  intros Hr E0 Hsep Hen. assert (Hreach : ∀ n, reaches (start [] programs) (run n)) by (intros n; rewrite <- E0; by eapply run_reaches).
  split; [intros n; by eapply in_order|]. destruct (settles live live_step live_wakes run who Hr) as (n & Hs & Hl & Hb).
  { rewrite E0. apply start_busy. }
  { split_and!; rewrite E0; [apply start_busy|by apply (reaches_sleepers [] programs)|].
    intros i o os. cbn. rewrite list_lookup_fmap. intros (p & _ & [=])%fmap_Some. }
  exists n. intros t (i & Ei)%list_elem_of_lookup. pose proof (settled_stuck live live_wakes (run n)) as Hn.
  destruct (Hn i t Hs Hl Hb Ei) as [|(o & os & Et & _ & Ha)]; [done|exfalso].
  assert (Hstuck : ∀ j u o' os', threads (run n) !! j = Some u → todo u = o' :: os' → o' = Pop ∧ object (run n) = []).
  { intros j u o' os' Ej Eu. destruct (Hn j u Hs Hl Hb Ej) as [->|(o1 & os1 & Eu1 & _ & Ha1)]; [done|]. rewrite Eu in Eu1. injection Eu1 as <- <-.
    cbn in Ha1. unfold test in Ha1. destruct o'; try discriminate. by destruct (object (run n)). }
  pose proof (reaches_accounts pushes _ _ (Hreach n)) as A1. pose proof (reaches_accounts pops _ _ (Hreach n)) as A2.
  rewrite <- E0 in A1, A2. assert (Er : returned (run O) = []) by (by rewrite E0). rewrite Er in A1, A2. cbn [called sum_list_with] in A1, A2.
  assert (Hno : to_call pushes (threads (run n)) = O).
  { apply to_call_zero. intros j u o' Ej Ho'. destruct (todo u) as [|o1 os1] eqn:Eu; [by apply not_elem_of_nil in Ho'|].
    destruct (Hstuck j u o1 os1 Ej Eu) as [-> _].
    destruct (todo_program _ _ _ _ _ (Hreach n) Ej) as (p & Hp & Hin); [by rewrite Eu|]. rewrite Eu in Hin.
    destruct o' as [v|]; [|done]. exfalso. apply (Hsep p v Hp); [apply Hin; by left|by apply Hin]. }
  destruct (Hstuck i t o os Ei Et) as [-> Hz].
  assert (Hw1 : (1 ≤ to_call pops (threads (run n)))%nat) by (apply (to_call_in pops _ i t Pop Ei); rewrite Et; by left).
  pose proof (in_order programs (run n) (Hreach n)) as Eo. rewrite Hz, app_nil_r in Eo.
  pose proof (counts programs (run n) (Hreach n)) as Hc. rewrite Eo in Hc. lia.
Qed.

Definition ex_start : sys (list Z) op (option Z) := start [] [[Pop]; [Push 7]].
Lemma ex_pop_fair : fair_run step enabled (played (turn 0) [0; 1; 0]%nat ex_start) (λ n, [0; 1; 0]%nat !! n).
Proof. eapply play_fair; [vm_compute; reflexivity|]. by intros [|[|i]]. Qed.
Lemma pops_what_was_pushed_witness : let run := played (turn 0) [0; 1; 0]%nat ex_start in
  (∀ n, pushed (returned (run n)) = popped (returned (run n)) ++ object (run n)) ∧
  ∃ n, ∀ t, t ∈ threads (run n) → t = mk_thread [] Idle.
Proof.
  apply (pops_what_was_pushed _ _ [[Pop]; [Push 7]] ex_pop_fair); [reflexivity| |vm_compute; reflexivity].
  intros p t [->| ->%list_elem_of_singleton]%elem_of_cons Hw%list_elem_of_singleton; [|done].
  intros Hq%list_elem_of_singleton. done.
Defined.
End BQ.

(** * [Barrier.h], [Barrier.cc] *)
Module Bar.
(** [waiters] is the deque from its front; a [WaitStatus] is named by the thread on
    whose stack it is, and [woken] are those whose [wakeup] is set. *)
Record Barrier := mk { count : Z; waiters : list nat; woken : gset nat }.
Definition new_barrier (count_ : Z) : Barrier := mk (if count_ =? 0 then 1 else count_) [] ∅.
Inductive op := Wait | IncrCount (change : Z) | DecrCount (change : Z) | GetCount | GetNumWaiter.
Definition WakeUp (b : Barrier) : Barrier * notify :=
  if count b <=? Z.of_nat (length (waiters b)) then
    let rest := (length (waiters b) - Z.to_nat (u32 (count b)))%nat in
    (mk (count b) (take rest (waiters b)) (woken b ∪ list_to_set (drop rest (waiters b))), All)
  else (b, Quiet).
Definition on_entry (i : nat) (o : op) (b : Barrier) : Barrier * notify :=
  match o with
  | Wait => WakeUp (mk (count b) (i :: waiters b) (woken b ∖ {[i]}))
  | IncrCount change => (mk (u64 (count b + change)) (waiters b) (woken b), Quiet)
  | DecrCount change =>
      let c := u64 (count b - change) in WakeUp (mk (if c =? 0 then 1 else c) (waiters b) (woken b))
  | _ => (b, Quiet)
  end.
Definition test (i : nat) (o : op) (b : Barrier) : option (Barrier * option Z) :=
  match o with
  | Wait => if decide (i ∈ woken b) then Some (mk (count b) (waiters b) (woken b ∖ {[i]}), None) else None
  | GetCount => Some (b, Some (count b))
  | GetNumWaiter => Some (b, Some (Z.of_nat (length (waiters b))))
  | _ => Some (b, None)
  end.
#[export] Instance barrier : Monitor Barrier op (option Z) := {| enter := on_entry; attempt := test |}.
Lemma WakeUp_quiet b j : j ∉ woken b → (WakeUp b).2 = All ∨ j ∉ woken (WakeUp b).1.
Proof. intros Hj. unfold WakeUp. destruct (count b <=? _); [by left|by right]. Qed.
#[export] Instance barrier_broadcasts : Broadcasts barrier.
Proof.
  split.
  - intros i o b j oj Hne. cbn. unfold on_entry, test. destruct oj; try discriminate. destruct (decide (j ∈ woken b)); [discriminate|]. intros _.
    assert (Hw : ∀ b', j ∉ woken b' → (WakeUp b').2 = All ∨ (if decide (j ∈ woken (WakeUp b').1)
      then Some (mk (count (WakeUp b').1) (waiters (WakeUp b').1) (woken (WakeUp b').1 ∖ {[j]}), @None Z) else None) = None).
    { intros b' Hj. destruct (WakeUp_quiet b' j Hj); [by left|right]. by rewrite decide_False. }
    destruct o; cbn; [apply Hw; cbn; set_solver|right; by rewrite decide_False|by apply Hw|by right; rewrite decide_False..].
  - intros i o b b' v j oj Hne Hi. cbn in *. unfold on_entry, test in *. destruct oj; try discriminate. destruct (decide (j ∈ woken b)); [discriminate|]. intros _.
    apply (f_equal (λ r, woken (default b (fst <$> r)))) in Hi. cbn in Hi. rewrite <- Hi.
    destruct o; cbn; [|by rewrite decide_False..]. destruct (decide (i ∈ woken b)); cbn; [|by rewrite decide_False].
    rewrite decide_False; [done|set_solver].
Qed.

(** ** As many threads as the barrier counts *)
Section in_step.
Context (N : nat) (HN : (0 < N)%nat ∧ Z.of_nat N < 4294967296).
Notation system := (sys Barrier op (option Z)).
Definition passed (i : nat) (x : system) : nat := called (own i) (returned x).
Definition only_waits (x : system) : Prop := allowed (λ _ o, o = Wait) x.
Definition waiting (ts : list (thread op)) (i : nat) : Prop := ∃ t, ts !! i = Some t ∧ at_ t ≠ Idle.
Record in_step (x : system) : Prop := {
  b_threads : length (threads x) = N;
  b_count : count (object x) = Z.of_nat N;
  b_nodup : NoDup (waiters (object x));
  b_short : (length (waiters (object x)) < N)%nat;
  b_at : ∀ i, waiting (threads x) i ↔ i ∈ waiters (object x) ∨ i ∈ woken (object x);
  b_apart : ∀ i, i ∈ waiters (object x) → i ∉ woken (object x);
  b_rounds : ∃ k, ∀ i, (i < N)%nat → (passed i x + (if decide (i ∈ woken (object x)) then 1 else 0) = k)%nat }.

Lemma waiting_put ts i t j : (i < length ts)%nat →
  waiting (<[i := t]> ts) j ↔ (j = i ∧ at_ t ≠ Idle) ∨ (j ≠ i ∧ waiting ts j).
Proof.
  intros Hi. unfold waiting. destruct (decide (j = i)) as [->|Hne].
  - rewrite list_lookup_insert_eq by done. split; [intros (u & [= <-] & Hu); by left|].
    intros [[_ Hu]|[? _]]; [by exists t|done].
  - rewrite list_lookup_insert_ne by done. naive_solver.
Qed.
Lemma wake_at (t : thread op) : at_ (wake t) ≠ Idle ↔ at_ t ≠ Idle.
Proof. by destruct t as [? []]. Qed.
Lemma waiting_rouse n choice ts j : waiting (rouse n choice ts) j ↔ waiting ts j.
Proof.
  unfold waiting. split; intros (t & Ej & Ht).
  - apply roused in Ej as (t0 & E0 & [->| ->]); exists t0; (split; [done|]); [done|by apply wake_at].
  - assert (Hlt : (j < length (rouse n choice ts))%nat) by (rewrite rouse_length; by eapply lookup_lt_Some).
    apply lookup_lt_is_Some in Hlt as [u Eu]. exists u. split; [done|]. apply roused in Eu as (t0 & E0 & Hu).
    rewrite Ej in E0. injection E0 as <-. destruct Hu as [->| ->]; [done|by apply wake_at].
Qed.
Lemma waiting_lt ts j : waiting ts j → (j < length ts)%nat.
Proof. intros (t & Ej & _). by eapply lookup_lt_Some. Qed.

Lemma passed_more i j v st ts (x : system) : passed i (mk_sys st ts (returned x ++ [(j, Wait, v)])) =
  (passed i x + if decide (j = i) then 1 else 0)%nat.
Proof. unfold passed, called. cbn [returned]. rewrite sum_list_with_app. cbn. unfold own. lia. Qed.
Lemma full_all (l : list nat) j : NoDup l → length l = N → (∀ i, i ∈ l → (i < N)%nat) → (j < N)%nat → j ∈ l.
Proof.
  intros Hn Hl Hlt Hj. assert (Hp : l ≡ₚ seq 0 N).
  { apply submseteq_length_Permutation; [|rewrite length_seq; lia]. apply NoDup_submseteq; [done|].
    intros i Hi. apply elem_of_seq. specialize (Hlt i Hi). lia. }
  rewrite Hp. apply elem_of_seq. lia.
Qed.

Lemma attempt_wait i (b : Barrier) : attempt i Wait b =
  if decide (i ∈ woken b) then Some (mk (count b) (waiters b) (woken b ∖ {[i]}), None) else None.
Proof. done. Qed.
(** A thread that waits again, or goes on. *)
Lemma tries_in_step i os (x : system) : in_step x → (i < N)%nat → waiting (threads x) i → in_step (tries i Wait os x).
Proof.
  intros [H1 H2 H3 H4 H5 H6 [k H7]] Hi Hw. unfold tries. rewrite attempt_wait.
  destruct (decide (i ∈ woken (object x))) as [Hin|Hin]; split; cbn [threads object count waiters woken]; try done.
  - by rewrite length_insert.
  - intros j. rewrite waiting_put, H5 by lia. cbn [at_]. rewrite elem_of_difference, elem_of_singleton.
    destruct (decide (j = i)) as [->|]; [|naive_solver]. pose proof (H6 i). naive_solver.
  - intros j Hj. specialize (H6 j Hj). set_solver.
  - exists k. intros j Hj. rewrite passed_more. cbn [object woken]. specialize (H7 j Hj).
    destruct (decide (i = j)) as [<-|Hne]; [rewrite decide_True in H7 by done; rewrite decide_False by set_solver; lia|].
    rewrite (decide_ext (j ∈ woken (object x) ∖ {[i]}) (j ∈ woken (object x))) by set_solver. lia.
  - by rewrite length_insert.
  - intros j. rewrite waiting_put by lia. cbn [at_]. rewrite <- H5. destruct (decide (j = i)) as [->|]; naive_solver.
  - by exists k.
Qed.
Lemma arrive_in_step choice i os (x : system) : in_step x → (i < N)%nat → ¬ waiting (threads x) i →
  let (b, n) := enter i Wait (object x) in in_step (tries i Wait os (mk_sys b (rouse n choice (threads x)) (returned x))).
Proof.
  intros [H1 H2 H3 H4 H5 H6 [k H7]] Hi Hw. assert (Hni : i ∉ waiters (object x) ∧ i ∉ woken (object x)) by (rewrite H5 in Hw; tauto).
  destruct Hni as [Hnw Hnk]. assert (Hwo : woken (object x) ∖ {[i]} = woken (object x)) by set_solver.
  assert (Hnd : NoDup (i :: waiters (object x))) by by constructor.
  assert (Hlt : ∀ j, j ∈ i :: waiters (object x) → (j < N)%nat).
  { intros j [->|Hj]%elem_of_cons; [done|]. rewrite <- H1. apply waiting_lt, H5. by left. }
  cbn [enter barrier on_entry]. rewrite Hwo. unfold WakeUp. cbn [count waiters woken length]. rewrite H2.
  destruct (Z.leb_spec (Z.of_nat N) (Z.of_nat (S (length (waiters (object x)))))) as [Hle|Hgt].
  - assert (Hlen : S (length (waiters (object x))) = N) by lia.
    assert (Hall : ∀ j, (j < N)%nat → j ∈ i :: waiters (object x)) by (intros j; by apply full_all).
    rewrite Hlen, (u32_id (Z.of_nat N)), Nat2Z.id, Nat.sub_diag by lia. cbn [take drop].
    unfold tries. rewrite attempt_wait. cbn [object woken]. rewrite decide_True by set_solver.
    split; cbn [threads object count waiters woken]; try done.
    + by rewrite length_insert, rouse_length.
    + constructor.
    + cbn. lia.
    + intros j. rewrite waiting_put, waiting_rouse by (rewrite rouse_length; lia). cbn [at_].
      rewrite elem_of_difference, elem_of_union, elem_of_list_to_set, elem_of_singleton, H5, elem_of_cons.
      pose proof (not_elem_of_nil j). naive_solver.
    + intros j Hj. by apply not_elem_of_nil in Hj.
    + exists (S k). intros j Hj. rewrite passed_more. cbn [object woken]. specialize (H7 j Hj). specialize (Hall j Hj).
      assert (Hnj : j ∉ woken (object x)) by (apply elem_of_cons in Hall as [->|Hall]; [done|by apply H6]).
      rewrite decide_False in H7 by done. unfold passed in *. cbn [returned] in *.
      destruct (decide (i = j)) as [<-|Hne]; [rewrite decide_False by set_solver; lia|]. rewrite decide_True by set_solver. lia.
  - unfold tries. rewrite attempt_wait. cbn [object woken rouse threads]. rewrite decide_False by done.
    split; cbn [threads object count waiters woken]; try done.
    + by rewrite length_insert.
    + cbn [length]. lia.
    + intros j. rewrite waiting_put, H5, elem_of_cons by lia. cbn [at_]. destruct (decide (j = i)) as [->|]; naive_solver.
    + intros j [->|Hj]%elem_of_cons; [done|by apply H6].
    + exists k. intros j Hj. by apply H7.
Qed.
Lemma step_in_step l (x y : system) : all_busy x → only_waits x → in_step x → step l x y → in_step y.
Proof.
  intros Hb Ho Hx. destruct 1 as [choice i x y E|i t x E|x]; [| |done].
  - unfold turn in E. destruct (threads x !! i) as [[[|o os] p]|] eqn:Ei; [by destruct p| |done].
    assert (Hi : (i < N)%nat) by (rewrite <- (b_threads x Hx); by eapply lookup_lt_Some).
    assert (o = Wait) as -> by (eapply (Ho i _ o Ei); by left). destruct p; [|done|].
    + assert (Hw : ¬ waiting (threads x) i) by (intros (t & Et & Ht); rewrite Ei in Et; by injection Et as <-).
      pose proof (arrive_in_step choice i os x Hx Hi Hw) as Ha. destruct (enter i Wait (object x)) as [b n]. by injection E as <-.
    + injection E as <-. apply tries_in_step; [done..|]. by exists (mk_thread (Wait :: os) Awake).
  - destruct Hx as [H1 H2 H3 H4 H5 H6 H7]. split; cbn [threads object]; try done; [by rewrite length_insert|].
    intros j. rewrite waiting_put, <- H5, wake_at by (by eapply lookup_lt_Some).
    destruct (decide (j = i)) as [->|]; [|naive_solver]. unfold waiting. rewrite E. naive_solver.
Qed.

Context (m : nat).
Definition all_wait : list (list op) := replicate N (replicate m Wait).
Definition at_start : system := start (new_barrier (Z.of_nat N)) all_wait.
Lemma start_in_step : in_step at_start.
Proof.
  assert (Hnw : ∀ i, ¬ waiting (threads at_start) i).
  { intros i (t & Ei & Ht). cbn in Ei. rewrite list_lookup_fmap in Ei. by apply fmap_Some in Ei as (p & _ & ->). }
  split; unfold at_start, new_barrier; cbn [object start threads waiters woken count].
  - unfold all_wait. by rewrite length_fmap, length_replicate.
  - destruct (Z.eqb_spec (Z.of_nat N) 0); [lia|done].
  - constructor.
  - cbn. lia.
  - intros i. pose proof (Hnw i). pose proof (not_elem_of_nil i). cbn in *. set_solver.
  - intros i Hi. by apply not_elem_of_nil in Hi.
  - exists O. intros i Hi. by rewrite decide_False by set_solver.
Qed.
Lemma reaches_in_step (x : system) : reaches at_start x → in_step x.
Proof.
  intros Hr. cut (in_step x ∧ all_busy x ∧ only_waits x); [tauto|]. revert x Hr.
  apply (rtc_ind_r (λ x, in_step x ∧ all_busy x ∧ only_waits x) at_start).
  - split; [apply start_in_step|]. split; [apply start_busy|].
    eapply reaches_allowed; [|apply rtc_refl]. intros i p o Ep Ho. unfold all_wait in Ep.
    apply lookup_replicate in Ep as [-> _]. by apply elem_of_replicate in Ho as [-> _].
  - intros x y Hxy [l Hs] (IH1 & IH2 & IH3). split; [by eapply step_in_step|]. split; [by eapply step_busy|].
    eapply reaches_allowed; [|by eapply rtc_r; [exact Hxy|exists l]]. intros i p o Ep Ho. unfold all_wait in Ep.
    apply lookup_replicate in Ep as [-> _]. by apply elem_of_replicate in Ho as [-> _].
Qed.
End in_step.

(** C15: As many threads as the barrier counts, each of which waits [m] times: at any
    time no thread has passed the barrier more than once more often than another, and
    in every fair run each passes it [m] times. *)
Theorem barrier_keeps_step N m run who : (0 < N)%nat → Z.of_nat N < 4294967296 →
  fair_run step enabled run who → run O = at_start N m →
  (∀ n i j, (i < N)%nat → (j < N)%nat → (passed i (run n) ≤ passed j (run n) + 1)%nat) ∧
  ∃ n, ∀ t, t ∈ threads (run n) → t = mk_thread [] Idle.
Proof.
  intros HN0 HN Hr E0. assert (Hreach : ∀ n, reaches (at_start N m) (run n))
    by (intros n; rewrite <- E0; by eapply run_reaches).
  assert (Hin : ∀ n, in_step N (run n)) by (intros n; eapply reaches_in_step; [lia|apply Hreach]).
  split.
  { intros n i j Hi Hj. destruct (b_rounds _ _ (Hin n)) as [k Hk]. pose proof (Hk i Hi). pose proof (Hk j Hj).
    destruct (decide (i ∈ _)), (decide (j ∈ _)); lia. }
  destruct (broadcasts_settle run who _ _ Hr E0) as [n Hn]. exists n. destruct (Hin n) as [H1 H2 H3 H4 H5 H6 [k H7]].
  intros t (i & Ei)%list_elem_of_lookup. destruct (Hn i t Ei) as [|(o & os & Et & Hp & _)]; [done|exfalso].
  assert (Hwo : ∀ j, j ∉ woken (object (run n))).
  { intros j Hj. assert (Hw : waiting (threads (run n)) j) by (apply H5; by right). destruct Hw as (u & Ej & Hu).
    destruct (Hn j u Ej) as [->|(o' & os' & Eu & _ & Ha)]; [done|].
    assert (o' = Wait) as ->; [|rewrite attempt_wait, decide_True in Ha by done; done].
    destruct (todo_program _ _ _ j u (Hreach n) Ej) as (p & Hpr & Hin'); [by rewrite Eu|].
    apply elem_of_replicate in Hpr as [-> _]. specialize (Hin' o'). rewrite Eu in Hin'.
    by destruct (proj1 (elem_of_replicate _ _ _) (Hin' ltac:(by left))). }
  assert (Hown : ∀ j u, threads (run n) !! j = Some u → (length (todo u) + passed j (run n))%nat = m).
  { intros j u Ej. pose proof (reaches_accounts (own j) _ _ (Hreach n)) as Ha. rewrite (to_call_own j _ u Ej) in Ha.
    unfold passed. rewrite Ha. assert (Hj : (j < N)%nat) by (rewrite <- H1; by eapply lookup_lt_Some). cbn [returned start called sum_list_with].
    rewrite (to_call_own j _ (mk_thread (replicate m Wait) Idle)); [cbn; rewrite length_replicate; lia|].
    cbn. rewrite list_lookup_fmap. unfold all_wait. by rewrite lookup_replicate_2. }
  assert (Hm : (passed i (run n) < m)%nat) by (specialize (Hown i t Ei); rewrite Et in Hown; cbn in Hown; lia).
  assert (Hall : ∀ j, (j < N)%nat → j ∈ waiters (object (run n))).
  { intros j Hj. rewrite <- H1 in Hj. apply lookup_lt_is_Some in Hj as [u Ej].
    assert (Hk : passed j (run n) = passed i (run n)).
    { assert (Hi : (i < N)%nat) by (rewrite <- H1; by eapply lookup_lt_Some).
      pose proof (H7 i Hi) as Ki. rewrite decide_False in Ki by apply Hwo.
      pose proof (H7 j ltac:(rewrite <- H1; by eapply lookup_lt_Some)) as Kj. rewrite decide_False in Kj by apply Hwo. lia. }
    destruct (Hn j u Ej) as [->|(o' & os' & _ & Hu & _)]; [specialize (Hown j _ Ej); cbn in Hown; lia|].
    destruct (proj1 (H5 j)) as [|Hj]; [by exists u|done|by destruct (Hwo j)]. }
  assert (Hsub : seq 0 N ⊆+ waiters (object (run n))).
  { apply NoDup_submseteq; [apply NoDup_seq|]. intros j Hj%elem_of_seq. apply Hall. lia. }
  apply submseteq_length in Hsub. rewrite length_seq in Hsub. lia.
Qed.

Lemma ex_wait_fair : fair_run step enabled (played (turn 0) [0; 1; 0]%nat (at_start 2 1)) (λ n, [0; 1; 0]%nat !! n).
Proof. eapply play_fair; [vm_compute; reflexivity|]. by intros [|[|i]]. Qed.
Lemma barrier_keeps_step_witness : let run := played (turn 0) [0; 1; 0]%nat (at_start 2 1) in
  (∀ n i j, (i < 2)%nat → (j < 2)%nat → (passed i (run n) ≤ passed j (run n) + 1)%nat) ∧
  ∃ n, ∀ t, t ∈ threads (run n) → t = mk_thread [] Idle.
Proof. apply (barrier_keeps_step 2 1 _ (λ n, [0; 1; 0]%nat !! n)); [lia|lia|exact ex_wait_fair|reflexivity]. Defined.

(** Nine threads wait at a barrier of ten, and its count becomes three: three go on,
    and six wait, twice as many as are to be waited for. *)
Definition ex_decr : option (sys Barrier op (option Z)) :=
  plays (turn 0) [0; 1; 2; 3; 4; 5; 6; 7; 8; 9; 0; 1; 2; 3; 4; 5; 6; 7; 8]%nat
    (start (new_barrier 10) (replicate 9 [Wait] ++ [[DecrCount 7]])).
Lemma decr_leaves_waiters : ∃ x, ex_decr = Some x ∧ count (object x) = 3 ∧ length (waiters (object x)) = 6%nat ∧
  ∀ i, turn 0 i x = None.
Proof.
  eexists. split; [vm_compute; reflexivity|]. split; [done|]. split; [done|].
  by intros [|[|[|[|[|[|[|[|[|[|i]]]]]]]]]].
Qed.
(** A count that would be negative wraps. *)
Lemma decr_wraps : count (enter 0%nat (DecrCount 3) (new_barrier 2)).1 = 18446744073709551615.
Proof. by vm_compute. Qed.
End Bar.

(** * [Event.h], [Event.cc] *)
Module Ev.
Record Event := mk { automatic : bool; signaled : bool }.
Inductive op := Signal | Reset | Wait.
Definition on_entry (i : nat) (o : op) (e : Event) : Event * notify :=
  match o with
  | Signal => (mk (automatic e) true, All)
  | Reset => (mk (automatic e) false, Quiet)
  | Wait => (e, Quiet)
  end.
Definition test (i : nat) (o : op) (e : Event) : option (Event * unit) :=
  match o with
  | Wait => if signaled e then Some (mk (automatic e) (if automatic e then false else signaled e), tt) else None
  | _ => Some (e, tt)
  end.
#[export] Instance event : Monitor Event op unit := {| enter := on_entry; attempt := test |}.
#[export] Instance event_broadcasts : Broadcasts event.
Proof.
  split.
  - intros i o e j oj _ Hj. cbn in *. unfold on_entry, test in *. destruct oj; try discriminate. destruct (signaled e) eqn:E; [discriminate|].
    destruct o; [by left|right..]; cbn; by rewrite ?E.
  - intros i o e e' v j oj _ Hi Hj. cbn in *. unfold on_entry, test in *. destruct oj; try discriminate. destruct (signaled e) eqn:E; [discriminate|].
    destruct o; try discriminate; injection Hi as <- _; by rewrite E.
Qed.
Definition signals (i : nat) (o : op) : nat := match o with Signal => 1%nat | _ => O end.
Definition waits (i : nat) (o : op) : nat := match o with Wait => 1%nat | _ => O end.
(** An automatic event lets one thread go for a signal, at most. *)
Lemma automatic_admits_one s0 programs x : reaches (start (mk true s0) programs) x →
  (called waits (returned x) + Nat.b2n (signaled (object x)) ≤ called signals (returned x) + Nat.b2n s0)%nat.
Proof.
  intros Hr. cut (automatic (object x) = true ∧
    (called waits (returned x) + Nat.b2n (signaled (object x)) ≤ called signals (returned x) + Nat.b2n s0)%nat); [tauto|].
  revert Hr. apply (object_invariant (λ _ _, True) (λ (e : Event) (ret : list (nat * op * unit)), automatic e = true ∧
    (called waits ret + Nat.b2n (signaled e) ≤ called signals ret + Nat.b2n s0)%nat)); [| |by cbn; split; [|lia]|done].
  - intros i o e ret _ [Ha Hle]. unfold called in *. destruct o; cbn [enter attempt event on_entry test fst automatic signaled].
    + rewrite !sum_list_with_app. cbn. destruct (signaled e); cbn in *; split; try done; lia.
    + rewrite !sum_list_with_app. cbn. destruct (signaled e); cbn in *; split; try done; lia.
    + destruct (signaled e) eqn:E; [|by rewrite ?E]. rewrite Ha, !sum_list_with_app. cbn in *. split; [done|lia].
  - intros i o e ret e' v [e0 He0] _ [Ha Hle]. destruct o; try discriminate. cbn. destruct (signaled e) eqn:E; [|done].
    intros [= <- <-]. unfold called in *. rewrite Ha, !sum_list_with_app. cbn in *. split; [done|lia].
Qed.
End Ev.

(** * [Future.h] *)
Module Fut.
Record Future := mk { done_ : bool; canceled : bool; ret : Z }.
Definition new_future : Future := mk false false 0.
Inductive op := Done | Cancel | Wait | IsCanceled | Set_ (r : Z) | Get.
Inductive answer := Nothing | Said (b : bool) | Value (r : Z).
Definition on_entry (i : nat) (o : op) (f : Future) : Future * notify :=
  match o with
  | Cancel => (mk (done_ f) true (ret f), All)
  | Set_ r => (mk true (canceled f) r, All)
  | _ => (f, Quiet)
  end.
Definition test (i : nat) (o : op) (f : Future) : option (Future * answer) :=
  match o with
  | Done => Some (f, Said (done_ f || canceled f))
  | IsCanceled => Some (f, Said (canceled f))
  | Cancel | Set_ _ => Some (f, Nothing)
  | Wait => if negb (canceled f) && negb (done_ f) then None else Some (f, Nothing)
  | Get => if negb (canceled f) && negb (done_ f) then None else Some (f, Value (ret f))
  end.
#[export] Instance future : Monitor Future op answer := {| enter := on_entry; attempt := test |}.
#[export] Instance future_broadcasts : Broadcasts future.
Proof.
  split.
  - intros i o f j oj _ Hj. destruct o; try (right; exact Hj); by left.
  - intros i o f f' v j oj _ Hi Hj. assert (f' = f) as ->; [|done].
    destruct o; cbn in Hi; repeat case_match; by simplify_eq.
Qed.

Definition sets (l : list (nat * op * answer)) : list Z := omap (λ r, match r.1.2 with Set_ v => Some v | _ => None end) l.
Definition canceling (l : list (nat * op * answer)) : bool :=
  existsb (λ r, match r.1.2 with Cancel => true | _ => false end) l.
Definition is_nil {A} (l : list A) : bool := match l with [] => true | _ => false end.
(** Every value that was got. *)
Definition gets_ok (l : list (nat * op * answer)) : Prop :=
  ∀ l1 i v l2, l = l1 ++ (i, Get, v) :: l2 →
    v = Value (default 0 (last (sets l1))) ∧ (sets l1 ≠ [] ∨ canceling l1 = true).
Definition tells (f : Future) (l : list (nat * op * answer)) : Prop :=
  done_ f = negb (is_nil (sets l)) ∧ canceled f = canceling l ∧ ret f = default 0 (last (sets l)) ∧ gets_ok l.
Lemma gets_ok_snoc l i o v : gets_ok l →
  (o = Get → v = Value (default 0 (last (sets l))) ∧ (sets l ≠ [] ∨ canceling l = true)) → gets_ok (l ++ [(i, o, v)]).
Proof.
  intros Hl Ho l1 j w l2 E. destruct l2 as [|r l2 _] using rev_ind.
  - apply app_inj_tail in E as [<- [= <- -> <-]]. by apply Ho.
  - rewrite app_comm_cons, app_assoc in E. apply app_inj_tail in E as [-> _]. by eapply Hl.
Qed.
Lemma sets_snoc l i o v : sets (l ++ [(i, o, v)]) = sets l ++ (match o with Set_ r => [r] | _ => [] end).
Proof. unfold sets. rewrite omap_app. by destruct o. Qed.
Lemma canceling_snoc l i o v : canceling (l ++ [(i, o, v)]) = canceling l || (match o with Cancel => true | _ => false end).
Proof. unfold canceling. rewrite existsb_app. cbn. by rewrite orb_false_r. Qed.
Lemma tells_answer f l i o v : tells f l → (match o with Set_ _ | Cancel => False | _ => True end) →
  (o = Get → v = Value (ret f) ∧ negb (canceled f) && negb (done_ f) = false) → tells f (l ++ [(i, o, v)]).
Proof.
  intros (H1 & H2 & H3 & H4) Ho Hg. unfold tells. rewrite sets_snoc, canceling_snoc.
  assert (E : (match o with Set_ r => [r] | _ => [] end) = [] ∧ (match o with Cancel => true | _ => false end) = false) by by destruct o.
  destruct E as [-> ->]. rewrite app_nil_r, orb_false_r. split_and!; [done..|]. apply gets_ok_snoc; [done|].
  intros Eo. destruct (Hg Eo) as [-> Hc]. rewrite H3. split; [done|]. rewrite H1, H2 in Hc.
  destruct (canceling l); [by right|left]. by destruct (sets l).
Qed.

(** Whoever gets the value of a future gets the last one that was set before, in the
    order of the lock, or the default if it was canceled and none was set; nobody gets
    any before. *)
Theorem future_gets programs x : reaches (start new_future programs) x → gets_ok (returned x).
Proof.
  intros Hr. cut (tells (object x) (returned x)); [by intros (_ & _ & _ & ?)|]. revert Hr.
  apply (object_invariant (λ _ _, True) tells); [| | |done].
  - intros i o f l _ Ht. destruct o; cbn [enter attempt future on_entry test fst]; try (by apply tells_answer).
    + destruct Ht as (H1 & H2 & H3 & H4). unfold tells. rewrite sets_snoc, canceling_snoc, app_nil_r, orb_true_r. cbn.
      split_and!; [done..|]. by apply gets_ok_snoc.
    + destruct (negb (canceled f) && negb (done_ f)) eqn:E; [done|]. by apply tells_answer.
    + destruct Ht as (H1 & H2 & H3 & H4). unfold tells. rewrite sets_snoc, canceling_snoc, orb_false_r, last_snoc. cbn.
      split_and!; [by destruct (sets l)|done|done|]. by apply gets_ok_snoc.
    + destruct (negb (canceled f) && negb (done_ f)) eqn:E; [done|]. by apply tells_answer.
  - intros i o f l f' v [f0 H0] _ Ht. destruct o; try discriminate; cbn;
      (destruct (negb (canceled f) && negb (done_ f)) eqn:E; [done|]); intros [= <- <-]; by apply tells_answer.
  - unfold tells. cbn. split_and!; [done..|]. intros [|? ?] i v l2; discriminate.
Qed.

Definition ex_future : option (sys Future op answer) :=
  plays (turn 0) [0; 1; 0]%nat (start new_future [[Get]; [Set_ 5]]).
Lemma future_gets_witness : ∃ x, ex_future = Some x ∧ gets_ok (returned x) ∧
  returned x = [(1%nat, Set_ 5, Nothing); (0%nat, Get, Value 5)].
Proof.
  eexists. split; [vm_compute; reflexivity|]. split; [|reflexivity].
  apply (future_gets [[Get]; [Set_ 5]]), (play_reaches [0; 1; 0]%nat). vm_compute. reflexivity.
Defined.
End Fut.

(** * [Atomic.h], for [unsigned long] *)
Module At.
(** The new value, and what is returned. *)
Definition fetch_and (f : Z → Z → Z) (o val : Z) : Z * Z := (u64 (f val o), val).
Definition and_fetch (f : Z → Z → Z) (o val : Z) : Z * Z := (u64 (f val o), u64 (f val o)).
Definition GetAndAdd := fetch_and Z.add.
Definition GetAndSub := fetch_and Z.sub.
Definition GetAndOr := fetch_and Z.lor.
Definition GetAndAnd := fetch_and Z.land.
Definition GetAndXor := fetch_and Z.lxor.
Definition GetAndNand := fetch_and (λ x y, Z.lnot (Z.land x y)).
Definition Add := and_fetch Z.add.
Definition Sub := and_fetch Z.sub.
Definition Or := and_fetch Z.sub.
Definition And := and_fetch Z.sub.
Definition Xor := and_fetch Z.sub.
Definition Nand := and_fetch Z.sub.
(** [Or] subtracts, and so do [And], [Xor] and [Nand]. *)
Lemma Or_subtracts : Or 1 2 = (1, 1) ∧ GetAndOr 1 2 = (3, 2).
Proof. by vm_compute. Qed.
End At.
