(* ===== verification/CPNLoader.v ===== *)
(** [libraries/VariantCPNLoader]: a network that is described by a variant.

    The loader holds the description and shares parts of it with those who gave them
    to it; here it is a value, and what [AddNode] and [AddQueue] change in place, in
    the description and in what they were given, is returned. *)
From Stdlib Require Import Sorted.
From S2P Require Import Prelude Variant RemoteClient Network.

Module VL.
Import Var.
Open Scope string_scope.
Open Scope list_scope.
Open Scope Z_scope.

(** The [double] of [alpha], as the [long double] that it is. *)
Class Alpha (F : Type) := { half : F; to_double : F → F }.

Section loader.
Context {F : Type} `{LongDouble F} `{Alpha F}.
Notation Variant := (Variant F).
Implicit Types (v config args : Variant).

Definition IsNull v : bool := match v with VNull => true | _ => false end.
Definition IsArray v : bool := match v with VArray _ => true | _ => false end.
(** [v["k"]] where what it makes of [v] is not seen. *)
Definition field v (k : string) : res Variant := '(_, x) ← At_ref v k; Ok x.

(** ** The description *)
Definition KernelName config (name : string) : res Variant := Set_at config "name" (VString name).
Definition KernelHost config (host : string) : res Variant := Set_at config "host" (VString host).
Definition KernelPort config (port : string) : res Variant := Set_at config "port" (VString port).
Definition UseD4R config (value : bool) : res Variant := Set_at config "d4r" (of_bool value).
Definition GrowQueueMaxThreshold config (value : bool) : res Variant :=
  Set_at config "grow-queue-max-threshold" (of_bool value).
Definition SwallowBrokenQueueExceptions config (value : bool) : res Variant :=
  Set_at config "swallow-broken-queue-exceptions" (of_bool value).
(** [config["k"]["k'"] = x] *)
Definition Set_in config (k k' : string) (x : Variant) : res Variant :=
  '(config, sub) ← At_ref config k; sub ← Set_at sub k' x; Set_at config k sub.
Definition ContextHost config (host : string) : res Variant := Set_in config "context" "host" (VString host).
Definition ContextPort config (port : string) : res Variant := Set_in config "context" "port" (VString port).
Definition LogLevel config (i : Z) : res Variant := Set_in config "context" "loglevel" (of_Z i).
Definition Append_to config (k : string) (x : Variant) : res Variant :=
  '(config, l) ← At_ref config k; l ← Append l x; Set_at config k l.
Definition AddLib config (filename : string) : res Variant := Append_to config "libs" (VString filename).
Definition AddLibList config (filename : string) : res Variant := Append_to config "liblist" (VString filename).

(** [if (!config["k"].IsArray()) config["k"] = Variant::ArrayType] and the elements. *)
Definition array_at config (k : string) : res (Variant * list Variant) :=
  '(config, x) ← At_ref config k;
  match x with
  | VArray l => Ok (config, l)
  | _ => config ← Set_at config k (VArray []); Ok (config, [])
  end.
(** [for each (k, x) of v: e[k] = x.Copy()] *)
Fixpoint merge (m : list (string * Variant)) (e : Variant) : res Variant :=
  match m with
  | [] => Ok e
  | (k, x) :: m => e ← Set_at e k (Copy x); merge m e
  end.
(** [v["k"] == e["k"]] *)
Definition same_at (k : string) v (e : Variant) : res (Variant * Variant * bool) :=
  '(v, a) ← At_ref v k; '(e, b) ← At_ref e k; c ← Compare a b; Ok (v, e, c =? 0).
Definition same_both (k k' : string) v (e : Variant) : res (Variant * Variant * bool) :=
  '(v, e, b) ← same_at k v e; if (b : bool) then same_at k' v e else Ok (v, e, false).
(** The loop of [AddNode] and of [AddQueue]: the first that is the same gets what [v]
    has. *)
Fixpoint merge_first (same : Variant → Variant → res (Variant * Variant * bool)) v (l : list Variant) :
    res (Variant * list Variant * bool) :=
  match l with
  | [] => Ok (v, [], false)
  | e :: l =>
      '(v, e, b) ← same v e;
      if (b : bool) then '(m, v) ← AsObject v; e ← merge m e; Ok (v, e :: l, true)
      else '(v, l, b) ← merge_first same v l; Ok (v, e :: l, b)
  end.
Definition add_to (k : string) (same : Variant → Variant → res (Variant * Variant * bool)) v config : res (Variant * Variant) :=
  '(config, l) ← array_at config k;
  '(v, l, b) ← merge_first same v l;
  config ← Set_at config k (VArray (if (b : bool) then l else l ++ [Copy v]));
  Ok (config, v).
Definition AddNode v config : res (Variant * Variant) := add_to "nodes" (same_at "name") v config.
Definition same_queue v (e : Variant) : res (Variant * Variant * bool) :=
  '(v, e, b) ← same_both "readernode" "readerport" v e;
  if (b : bool) then Ok (v, e, true) else same_both "writernode" "writerport" v e.
Definition AddQueue v config : res (Variant * Variant) := add_to "queues" same_queue v config.
Definition AddNodeMapping config (noden kernn : string) : res Variant :=
  '(config, x) ← At_ref config "nodemap";
  let nodemap := match x with VObject _ => x | _ => VObject [] end in
  nodemap ← Set_at nodemap noden (VString kernn);
  Set_at config "nodemap" nodemap.

Fixpoint assign_all (m : list (string * Variant)) (k : string) config : res Variant :=
  match m with
  | [] => Ok config
  | (k', x) :: m => config ← Set_in config k k' x; assign_all m k config
  end.
Fixpoint add_all (add : Variant → Variant → res (Variant * Variant)) (l : list Variant) config : res Variant :=
  match l with
  | [] => Ok config
  | v :: l => '(config, _) ← add v config; add_all add l config
  end.
(** [ListBegin]: null becomes an array. *)
Definition elements v : res (list Variant) := '(l, _) ← AsArray v; Ok l.
Fixpoint merge_config (m : list (string * Variant)) config : res Variant :=
  match m with
  | [] => Ok config
  | (k, x) :: m =>
      config ← (if String.eqb k "context" then '(sub, _) ← AsObject x; assign_all sub "context" config
                else if String.eqb k "nodes" then l ← elements x; add_all AddNode l config
                else if String.eqb k "queues" then l ← elements x; add_all AddQueue l config
                else Set_at config k x);
      merge_config m config
  end.
Definition MergeConfig v config : res Variant := '(m, _) ← AsObject v; merge_config m config.

(** ** The kernel's attributes *)
(** Where the context is: in the process, or at an address. *)
Inductive context := Local | Remote (host port : string).
Record KernelAttr := mk_kernel {
  k_name : string; k_hostname : string; k_servname : string; k_context : option (context * option Z);
  k_remote_enabled : bool;
  k_useD4R : bool; k_swallowbrokenqueue : bool; k_growmaxthresh : bool;
  k_sharedlibs : list string; k_nodelists : list string }.
(** With its log level, if that is set. *)
Definition LoadContext v : res (context * option Z) :=
  if IsNull v then Ok (Local, None) else
  host ← field v "host"; port ← field v "port";
  c ← (if IsNull host && IsNull port then Ok Local
       else h ← AsString host; p ← AsString port; Ok (Remote h p));
  loglevel ← field v "loglevel";
  if IsNull loglevel then Ok (c, None) else n ← AsLongDouble loglevel; Ok (c, Some (ld_to_Z n)).
Definition unless_null {A} v (as_ : Variant → res A) (otherwise : A) : res A :=
  if IsNull v then Ok otherwise else as_ v.
Fixpoint strings (l : list Variant) : res (list string) :=
  match l with [] => Ok [] | v :: l => s ← AsString v; ss ← strings l; Ok (s :: ss) end.
Definition string_list v : res (list string) := match v with VArray l => strings l | _ => Ok [] end.
Definition GetKernelAttr args : res KernelAttr :=
  name ← field args "name"; name ← AsString name;
  ctx ← field args "context"; ctx ← unless_null ctx (λ v, c ← LoadContext v; Ok (Some c)) None;
  host ← field args "host"; host ← unless_null host AsString "localhost";
  port ← field args "port"; port ← unless_null port AsString "";
  d4r ← field args "d4r"; d4r ← unless_null d4r AsBool true;
  swallow ← field args "swallow-broken-queue-exceptions"; swallow ← unless_null swallow AsBool false;
  grow ← field args "grow-queue-max-threshold"; grow ← unless_null grow AsBool true;
  libs ← field args "libs"; libs ← string_list libs;
  lists ← field args "liblist"; lists ← string_list lists;
  Ok (mk_kernel name host port ctx false d4r swallow grow libs lists).

(** ** The network *)
Inductive call :=
  | CreateNode (attr : RCC.NodeAttr)
  | CreateQueue (attr : @NW.QueueAttr F).
(** The calls of the kernel that were made, each of which returned, and how it ended. *)
Definition calls : Type := list call * res unit.
Definition after (a b : calls) : calls :=
  match a.2 with Ok _ => (a.1 ++ b.1, b.2) | Err e => a end.
Fixpoint params (m : list (string * Variant)) (acc : list (string * string)) : res (list (string * string)) :=
  match m with
  | [] => Ok acc
  | (k, x) :: m => s ← AsString x; params m (map_assign k s acc)
  end.
Definition node_attr (attr nodemap : Variant) : res RCC.NodeAttr :=
  name ← field attr "name"; name ← AsString name;
  type ← field attr "type"; type ← AsString type;
  mapped ← (if IsObject nodemap then x ← field nodemap name; Ok (IsString x, x) else Ok (false, VNull));
  kernel ← (if (mapped : bool * Variant).1 then AsString mapped.2
            else x ← field attr "kernel"; if IsString x then AsString x else Ok "");
  param ← field attr "param";
  ps ← match param with VObject m => params m [] | _ => Ok [] end;
  Ok (RCC.mk_nodeattr kernel 0 name type ps 0).
Definition LoadNode (attr nodemap : Variant) : calls :=
  match node_attr attr nodemap with Ok a => ([CreateNode a], Ok tt) | Err e => ([], Err e) end.
Definition SetAlpha (a : F) : F := if ld_lt a (ld_of_Z 0) then ld_of_Z 0 else if ld_lt (ld_of_Z 1) a then ld_of_Z 1 else a.
Definition queue_hint v : res Z :=
  if IsNull v then Ok 0 else
  if IsNumber v then AsNumber v else s ← AsString v; Ok (if String.eqb s "threshold" then 1 else 0).
Definition queue_attr (attr : Variant) : res (@NW.QueueAttr F) :=
  size ← field attr "size"; size ← AsUnsigned size;
  threshold ← field attr "threshold"; threshold ← AsUnsigned threshold;
  rn ← field attr "readernode"; rn ← AsString rn; rp ← field attr "readerport"; rp ← AsString rp;
  wn ← field attr "writernode"; wn ← AsString wn; wp ← field attr "writerport"; wp ← AsString wp;
  hint ← field attr "type"; hint ← queue_hint hint;
  datatype ← field attr "datatype"; datatype ← unless_null datatype AsString "void";
  numchannels ← field attr "numchannels"; numchannels ← unless_null numchannels AsUnsigned 1;
  alpha ← field attr "alpha"; alpha ← unless_null alpha (λ v, a ← AsLongDouble v; Ok (SetAlpha (to_double a))) half;
  name ← field attr "name"; name ← (if IsString name then AsString name else Ok "");
  maxwrite ← field attr "maxwritethreshold"; maxwrite ← unless_null maxwrite AsUnsigned 0;
  Ok (NW.mk_attr hint datatype name size threshold numchannels alpha rn rp wn wp 0 0 0 0 maxwrite).
Definition LoadQueue (attr : Variant) : calls :=
  match queue_attr attr with Ok a => ([CreateQueue a], Ok tt) | Err e => ([], Err e) end.
(** The elements that are objects. *)
Fixpoint load_each (load : Variant → calls) (l : list Variant) : calls :=
  match l with
  | [] => ([], Ok tt)
  | v :: l => if IsObject v then after (load v) (load_each load l) else load_each load l
  end.
Definition LoadNodes (nodelist nodemap : Variant) : calls :=
  match nodelist with VArray l => load_each (λ attr, LoadNode attr nodemap) l | _ => ([], Ok tt) end.
Definition LoadQueues (queuelist : Variant) : calls :=
  match queuelist with VArray l => load_each LoadQueue l | _ => ([], Ok tt) end.
Definition lift {A} (m : res A) (k : A → calls) : calls := match m with Ok a => k a | Err e => ([], Err e) end.
Definition Setup args : calls :=
  lift (nodes ← field args "nodes"; nodemap ← field args "nodemap"; Ok (nodes, nodemap)) (λ p,
    after (LoadNodes p.1 p.2) (lift (field args "queues") LoadQueues)).

(** ** Validation *)
Definition verdict : Type := bool * string.
(** A test that ends the whole with a message when it is false. *)
Definition require (b : bool) (msg : string) (k : res (verdict + gset string)) : res (verdict + gset string) :=
  if b then k else Ok (inl (false, msg)).
Fixpoint check_nodes (nodeset : gset string) (l : list Variant) : res (verdict + gset string) :=
  match l with
  | [] => Ok (inr nodeset)
  | v :: l =>
      name ← field v "name";
      require (IsString name) "Nodes must have a name" (
      type ← field v "type";
      require (IsString type) "Nodes must have a type" (
      name ← AsString name;
      require (bool_decide (name ∉ nodeset)) "Duplicate node" (check_nodes ({[name]} ∪ nodeset) l)))
  end.
Notation ports := (gmap string (gset string)).
(** [ports[node].insert(port)], and whether it was not there. *)
Definition insert_port (m : ports) (node port : string) : ports * bool :=
  let s := default ∅ (m !! node) in (<[node := {[port]} ∪ s]> m, bool_decide (port ∉ s)).
Fixpoint check_queues (readports writeports : ports) (l : list Variant) : res verdict :=
  match l with
  | [] => Ok (true, "")
  | v :: l =>
      size ← field v "size";
      if IsNull size then Ok (false, "Queues must have a size") else
      threshold ← field v "threshold";
      if IsNull threshold then Ok (false, "Queues must have a threshold") else
      rn ← field v "readernode";
      if negb (IsString rn) then Ok (false, "Queues must have a readernode") else
      rp ← field v "readerport";
      if negb (IsString rp) then Ok (false, "Queues must have a readerport") else
      rn ← AsString rn; rp ← AsString rp;
      let (readports, new) := insert_port readports rn rp in
      if negb new then Ok (false, "Two queues connected to the same reader port.") else
      wn ← field v "writernode";
      if negb (IsString wn) then Ok (false, "Queues must have a writernode") else
      wp ← field v "writerport";
      if negb (IsString wp) then Ok (false, "Queues must have a writerport") else
      wn ← AsString wn; wp ← AsString wp;
      let (writeports, new) := insert_port writeports wn wp in
      if negb new then Ok (false, "Two queues connected to the same writer port.") else
      check_queues readports writeports l
  end.
Definition Validate conf : res verdict :=
  name ← field conf "name";
  if negb (IsString name) then Ok (false, "Kernels must have a name.") else
  nodes ← field conf "nodes"; l ← elements nodes;
  r ← check_nodes ∅ l;
  match r with
  | inl verdict => Ok verdict
  | inr _ => queues ← field conf "queues"; l ← elements queues; check_queues ∅ ∅ l
  end.
End loader.

(** ** What [Validate] accepts *)
Section validate.
Context {F : Type} `{LongDouble F} `{Alpha F}.
Notation Variant := (Variant F).
Notation ports := (gmap string (gset string)).
Implicit Types (v conf : Variant).

Definition text (k : string) v : string := match get v k with VString s => s | _ => "" end.
Definition has_text v (k : string) : Prop := IsString (get v k) = true.
Definition list_of v : option (list Variant) := match v with VNull => Some [] | VArray l => Some l | _ => None end.
Definition node_ok v : Prop := IsObject v = true ∧ has_text v "name" ∧ has_text v "type".
Definition queue_ok v : Prop :=
  IsObject v = true ∧ IsNull (get v "size") = false ∧ IsNull (get v "threshold") = false ∧
  has_text v "readernode" ∧ has_text v "readerport" ∧ has_text v "writernode" ∧ has_text v "writerport".
Definition read_port v : string * string := (text "readernode" v, text "readerport" v).
Definition write_port v : string * string := (text "writernode" v, text "writerport" v).
(** A kernel with a name, nodes with different names and types, and queues no two of
    which read at one port, or write at one. *)
Definition valid conf : Prop :=
  IsObject conf = true ∧ has_text conf "name" ∧
  ∃ ns qs, list_of (get conf "nodes") = Some ns ∧ list_of (get conf "queues") = Some qs ∧
    Forall node_ok ns ∧ NoDup (text "name" <$> ns) ∧
    Forall queue_ok qs ∧ NoDup (read_port <$> qs) ∧ NoDup (write_port <$> qs).

Lemma field_get v k : plain v → field v k = Ok (get v k).
Proof. intros Hp. unfold field. by rewrite At_ref_get. Qed.
Lemma object_plain v : IsObject v = true → plain v.
Proof. by left. Qed.
Lemma field_plain v k x : read_unsigned k = None → field v k = Ok x → plain v ∧ x = get v k.
Proof.
  intros Hk. unfold field. destruct v; cbn; try done.
  - intros [= <-]. split; [by right|done].
  - rewrite Hk. done.
  - intros [= <-]. split; [by left|done].
Qed.
Lemma text_plain v k : has_text v k → IsObject v = true.
Proof. unfold has_text. by destruct v. Qed.
Lemma text_string v k : has_text v k → get v k = VString (text k v).
Proof. unfold has_text, text. by destruct (get v k). Qed.
Lemma elements_list v l : elements v = Ok l ↔ list_of v = Some l.
Proof. unfold elements. destruct v; cbn; naive_solver. Qed.

Lemma check_nodes_ok l : ∀ seen, (∃ s, check_nodes seen l = Ok (inr s)) ↔
  Forall node_ok l ∧ NoDup (text "name" <$> l) ∧ ∀ n, n ∈ text "name" <$> l → n ∉ seen.
Proof.
  induction l as [|v l IH]; intros seen; cbn [check_nodes].
  { split; [|by eauto]. intros _. split_and!; [constructor|constructor|]. intros n Hn. by apply not_elem_of_nil in Hn. }
  rewrite fmap_cons, NoDup_cons, Forall_cons. split.
  - intros [s Hs]. unfold mbind, res_bind in Hs. destruct (field v "name") as [x|] eqn:E1; [|done].
    apply field_plain in E1 as [Hp ->]; [|reflexivity]. unfold require in Hs. destruct (IsString (get v "name")) eqn:En; [|done].
    rewrite (field_get v "type" Hp) in Hs. destruct (IsString (get v "type")) eqn:Et; [|done].
    rewrite (text_string v "name" En) in Hs. cbn in Hs. case_bool_decide as Hnew; [|done].
    destruct (proj1 (IH _) (ex_intro _ s Hs)) as (Hok & Hnd & Hseen). split_and!; try done.
    + split_and!; [by eapply text_plain|done|done].
    + intros Hin. apply (Hseen _ Hin). set_solver.
    + intros n [->|Hn]%elem_of_cons; [done|]. specialize (Hseen n Hn). set_solver.
  - intros ((Ho & Hf) & [Hnew Hnd] & Hseen). destruct Ho as (Ho & Hname & Htype).
    rewrite !field_get by (by apply object_plain). unfold mbind, res_bind, require. rewrite Hname, Htype, (text_string v "name" Hname). cbn.
    rewrite bool_decide_true by (apply Hseen; by left). apply IH. split_and!; [done..|]. intros n Hin.
    specialize (Hseen n ltac:(by right)). set_solver.
Qed.

Definition has (m : ports) (np : string * string) : Prop := np.2 ∈ default ∅ (m !! np.1).
#[local] Instance has_decision m np : Decision (has m np).
Proof. unfold has. apply _. Defined.
Lemma insert_port_spec m node port :
  (insert_port m node port).2 = bool_decide (¬ has m (node, port)) ∧
  ∀ np, has (insert_port m node port).1 np ↔ np = (node, port) ∨ has m np.
Proof.
  split; [by apply bool_decide_ext|]. intros [n p]. unfold has, insert_port. cbn [fst snd]. destruct (decide (n = node)) as [->|Hne].
  - rewrite lookup_insert_eq. cbn. set_solver.
  - rewrite lookup_insert_ne by done. naive_solver.
Qed.
Lemma check_queues_ok l : ∀ rs ws, check_queues rs ws l = Ok (true, "") ↔
  Forall queue_ok l ∧ NoDup (read_port <$> l) ∧ NoDup (write_port <$> l) ∧
  (∀ np, np ∈ read_port <$> l → ¬ has rs np) ∧ (∀ np, np ∈ write_port <$> l → ¬ has ws np).
Proof.
  induction l as [|v l IH]; intros rs ws; cbn [check_queues].
  { split; [|done]. intros _. split_and!; [constructor..|by intros np Hn%not_elem_of_nil|by intros np Hn%not_elem_of_nil]. }
  rewrite !fmap_cons, !NoDup_cons, Forall_cons. split.
  - intros Hs. unfold mbind, res_bind in Hs. destruct (field v "size") as [x|] eqn:E1; [|done].
    apply field_plain in E1 as [Hp ->]; [|reflexivity]. rewrite !(field_get v _ Hp) in Hs.
    destruct (IsNull (get v "size")) eqn:H1; [done|]. destruct (IsNull (get v "threshold")) eqn:H2; [done|].
    destruct (IsString (get v "readernode")) eqn:H3; [|done]. destruct (IsString (get v "readerport")) eqn:H4; [|done].
    cbn [negb] in Hs. rewrite (text_string v "readernode" H3), (text_string v "readerport" H4) in Hs. cbn [AsString] in Hs.
    destruct (insert_port_spec rs (text "readernode" v) (text "readerport" v)) as [Hr1 Hr2].
    destruct (insert_port rs (text "readernode" v) (text "readerport" v)) as [rs' new]. cbn [fst snd] in *. subst new.
    case_bool_decide as Hrn; [|done]. cbn [negb] in Hs.
    destruct (IsString (get v "writernode")) eqn:H5; [|done]. destruct (IsString (get v "writerport")) eqn:H6; [|done].
    cbn [negb] in Hs. rewrite (text_string v "writernode" H5), (text_string v "writerport" H6) in Hs. cbn [AsString] in Hs.
    destruct (insert_port_spec ws (text "writernode" v) (text "writerport" v)) as [Hw1 Hw2].
    destruct (insert_port ws (text "writernode" v) (text "writerport" v)) as [ws' new]. cbn [fst snd] in *. subst new.
    case_bool_decide as Hwn; [|done]. cbn [negb] in Hs. apply IH in Hs as (Hok & Hn1 & Hn2 & Hs1 & Hs2).
    split_and!; try done.
    + unfold queue_ok. split_and!; [by eapply text_plain|done..].
    + intros Hin. apply (Hs1 _ Hin), Hr2. by left.
    + intros Hin. apply (Hs2 _ Hin), Hw2. by left.
    + intros np [->|Hin]%elem_of_cons Hh; [done|]. apply (Hs1 _ Hin), Hr2. by right.
    + intros np [->|Hin]%elem_of_cons Hh; [done|]. apply (Hs2 _ Hin), Hw2. by right.
  - intros ((Hq & Hok) & [Hr Hn1] & [Hw Hn2] & Hs1 & Hs2). destruct Hq as (Ho & H1 & H2 & H3 & H4 & H5 & H6).
    rewrite !field_get by (by apply object_plain). unfold mbind, res_bind. rewrite H1, H2, H3, H4, H5, H6. cbn [negb].
    rewrite (text_string v _ H3), (text_string v _ H4), (text_string v _ H5), (text_string v _ H6). cbn [AsString].
    destruct (insert_port_spec rs (text "readernode" v) (text "readerport" v)) as [Hr1 Hr2].
    destruct (insert_port rs (text "readernode" v) (text "readerport" v)) as [rs' new]. cbn [fst snd] in *. subst new.
    destruct (insert_port_spec ws (text "writernode" v) (text "writerport" v)) as [Hw1 Hw2].
    destruct (insert_port ws (text "writernode" v) (text "writerport" v)) as [ws' new]. cbn [fst snd] in *. subst new.
    rewrite !bool_decide_true by (apply Hs2 || apply Hs1; by left). cbn [negb]. apply IH. split_and!; try done.
    + intros np Hin [->|Hh]%Hr2; [done|]. apply (Hs1 np); [by right|done].
    + intros np Hin [->|Hh]%Hw2; [done|]. apply (Hs2 np); [by right|done].
Qed.

Lemma valid_validates conf : valid conf → Validate conf = Ok (true, "").
Proof.
  unfold Validate, valid. intros (Ho & Hn & ns & qs & En & Eq & Hok & Hnd & Hq & Hr & Hw).
  rewrite !field_get by (by apply object_plain). unfold mbind, res_bind. rewrite Hn. cbn [negb].
  rewrite (proj2 (elements_list _ _) En), (proj2 (elements_list _ _) Eq).
  destruct (proj2 (check_nodes_ok ns ∅)) as [s ->]; [split_and!; [done..|set_solver]|].
  apply check_queues_ok. unfold has. split_and!; [done..| |]; intros np _; rewrite lookup_empty; cbn; set_solver.
Qed.

(** C18: [Validate] accepts exactly the descriptions with a kernel's name, nodes that have
    different names and a type, and queues that have a size, a threshold and their
    ports, no two of them one port to read or one port to write. *)
Theorem Validate_spec conf : Validate conf = Ok (true, "") ↔ valid conf.
Proof.
  split; [unfold Validate, valid|apply valid_validates].
  - intros Hv. unfold mbind, res_bind in Hv. destruct (field conf "name") as [x|] eqn:E1; [|done].
    apply field_plain in E1 as [Hp ->]; [|reflexivity]. rewrite !(field_get conf _ Hp) in Hv.
    destruct (IsString (get conf "name")) eqn:Hn; [|done]. cbn [negb] in Hv.
    destruct (elements (get conf "nodes")) as [ns|] eqn:El; [|done]. apply elements_list in El.
    destruct (check_nodes ∅ ns) as [[verdict|s]|] eqn:Ec; [|..|done].
    { injection Hv as ->. exfalso. clear -Ec. revert Ec. generalize (∅ : gset string).
      induction ns as [|v ns IH]; intros seen; cbn [check_nodes]; [done|]. unfold mbind, res_bind, require.
      destruct (field v "name") as [n|]; [|done]. destruct (IsString n); [|done].
      destruct (field v "type") as [t|]; [|done]. destruct (IsString t); [|done]. destruct (AsString n); [|done].
      case_bool_decide; [apply IH|done]. }
    destruct (elements (get conf "queues")) as [qs|] eqn:Eq; [|done]. apply elements_list in Eq.
    destruct (proj1 (check_nodes_ok ns ∅) (ex_intro _ s Ec)) as (Hok & Hnd & _).
    apply check_queues_ok in Hv as (Hq & Hr & Hw & _ & _). split; [by eapply text_plain|]. split; [done|].
    exists ns, qs. by split_and!.
Qed.
End validate.

(** ** Adding nodes and queues *)
Section add.
Context {F : Type} `{LongDouble F} `{Alpha F}.
Notation Variant := (Variant F).
Implicit Types (v e config : Variant).

Lemma put_put v k x y : put (put v k x) k y = put v k y.
Proof. destruct v; cbn; rewrite ?compare_self; try done. by rewrite map_assign_twice. Qed.
Lemma put_plain v k x : plain (put v k x).
Proof. left. apply put_object. Qed.
Lemma get_put_ne v k k' x : k' ≠ k → get (put v k x) k' = get v k'.
Proof. intros Hne. rewrite get_put. by destruct (String.eqb_spec k' k). Qed.
Lemma get_put_eq v k x : get (put v k x) k = x.
Proof. rewrite get_put. by rewrite String.eqb_refl. Qed.
Lemma map_assign_same {A} k (x : A) (m : list (string * A)) : map_sorted m → map_find k m = Some x → map_assign k x m = m.
Proof.
  induction 1 as [|[k' y] m Hs IH Hm]; cbn; [done|]. destruct (String.eqb_spec k k') as [->|Hne].
  - intros [= ->]. by rewrite compare_self.
  - intros Hf. destruct (String.compare k k') eqn:E; [by apply String.compare_eq_iff in E| |by rewrite IH].
    exfalso. rewrite Forall_forall in Hm. assert (Hin : (k, x) ∈ m).
    { clear -Hf. induction m as [|[k2 z] m IH]; cbn in Hf; [done|]. destruct (String.eqb_spec k k2) as [->|].
      - injection Hf as ->. by left. - right. by apply IH. }
    specialize (Hm _ Hin). unfold key_lt in Hm. cbn in Hm. pose proof (compare_trans _ _ _ E Hm) as Hc. by rewrite compare_self in Hc.
Qed.
Lemma put_same v k : wf v → get v k ≠ VNull → put v k (get v k) = v.
Proof.
  intros Hw. destruct v; cbn; try done. apply wf_object in Hw as [Hs _]. destruct (map_find k m) as [x|] eqn:E; [|done].
  intros _. cbn. by rewrite map_assign_same.
Qed.
Lemma compare_strings_eq a b : (compare_strings a b =? 0) = bool_decide (a = b).
Proof.
  unfold compare_strings. destruct (String.compare a b) eqn:E.
  - apply String.compare_eq_iff in E as ->. by rewrite bool_decide_true.
  - rewrite bool_decide_false; [done|]. intros ->. by rewrite compare_self in E.
  - rewrite bool_decide_false; [done|]. intros ->. by rewrite compare_self in E.
Qed.
Lemma same_at_text k v e : wf v → wf e → has_text v k → has_text e k →
  same_at k v e = Ok (v, e, bool_decide (text k v = text k e)).
Proof.
  intros Hv He Tv Te. unfold same_at. rewrite !At_ref_get by (apply object_plain; by eapply text_plain).
  unfold mbind, res_bind. rewrite !put_same; try done; [|by rewrite text_string|by rewrite text_string].
  rewrite (text_string v k Tv), (text_string e k Te). cbn [Compare CompareString]. by rewrite compare_strings_eq.
Qed.

(** What [merge] makes of an object. *)
Definition overlay (m : list (string * Variant)) e : Variant := foldl (λ e kx, put e kx.1 (Copy kx.2)) e m.
Lemma overlay_object m : ∀ e, IsObject e = true → IsObject (overlay m e) = true.
Proof. induction m as [|[k x] m IH]; intros e He; cbn; [done|]. apply IH, put_object. Qed.

Lemma merge_first_new same v l : (∀ e, e ∈ l → same v e = Ok (v, e, false)) → merge_first same v l = Ok (v, l, false).
Proof.
  induction l as [|e l IH]; intros Hs; cbn [merge_first]; [done|]. rewrite Hs by by left. unfold mbind, res_bind.
  rewrite IH; [done|]. intros e' He. apply Hs. by right.
Qed.
Lemma add_to_put k same v config l v' l' b : plain config → list_of (get config k) = Some l →
  merge_first same v l = Ok (v', l', b) →
  add_to k same v config = Ok (put config k (VArray (if b then l' else l' ++ [Copy v'])), v').
Proof.
  intros Hp Hl Hm. unfold add_to, array_at. rewrite At_ref_get by done. unfold mbind, res_bind.
  destruct (get config k) as [| | | | |l0|] eqn:E; cbn in Hl; try done; injection Hl as ->.
  - rewrite Set_at_put by apply put_plain. rewrite Hm, Set_at_put by apply put_plain. by rewrite !put_put.
  - rewrite Hm, Set_at_put by apply put_plain. by rewrite put_put.
Qed.



End add.

(** ** A network that is added piece by piece is the network that is made *)
Section network.
Context {F : Type} `{LongDouble F} `{Alpha F} `{!LongDoubleLaws F}.
Notation Variant := (Variant F).
Implicit Types (v e config : Variant).

(** What a program says of a node and of a queue, and how it writes that. *)
Record node := mk_node { n_name : string; n_type : string; n_kernel : option string; n_params : list (string * string) }.
Record queue := mk_queue {
  q_size : Z; q_threshold : Z; q_reader : string * string; q_writer : string * string;
  q_hint : Z; q_datatype : string; q_channels : Z }.
Definition texts (l : list (string * string)) : list (string * Variant) := (λ p, (p.1, VString p.2)) <$> l.
Definition write_node (n : node) : Variant :=
  VObject (match n_kernel n with Some k => [("kernel", VString k)] | None => [] end ++
    [("name", VString (n_name n)); ("param", VObject (texts (n_params n))); ("type", VString (n_type n))]).
Definition write_queue (q : queue) : Variant :=
  VObject [("datatype", VString (q_datatype q)); ("numchannels", of_Z (q_channels q));
    ("readernode", VString (q_reader q).1); ("readerport", VString (q_reader q).2);
    ("size", of_Z (q_size q)); ("threshold", of_Z (q_threshold q)); ("type", of_Z (q_hint q));
    ("writernode", VString (q_writer q).1); ("writerport", VString (q_writer q).2)].
(** What the kernel is asked for. *)
Definition node_call (n : node) : @call F :=
  CreateNode (RCC.mk_nodeattr (default "" (n_kernel n)) 0 (n_name n) (n_type n) (n_params n) 0).
Definition queue_call (q : queue) : @call F :=
  CreateQueue (NW.mk_attr (q_hint q) (q_datatype q) "" (q_size q) (q_threshold q) (q_channels q) half
    (q_reader q).1 (q_reader q).2 (q_writer q).1 (q_writer q).2 0 0 0 0 0).
Definition is_unsigned (z : Z) : Prop := 0 ≤ z < 4294967296.
Definition fits (q : queue) : Prop :=
  is_unsigned (q_size q) ∧ is_unsigned (q_threshold q) ∧ is_unsigned (q_hint q) ∧ is_unsigned (q_channels q).

Lemma texts_wf l : map_sorted l → wf (VObject (texts l)).
Proof.
  intros Hs. apply wf_object. split; [|by apply Forall_fmap, Forall_true].
  induction Hs as [|p l Hs IH Hp]; [constructor|]. constructor; [done|]. by apply Forall_fmap.
Qed.
Lemma write_node_wf n : map_sorted (n_params n) → wf (write_node n).
Proof.
  intros Hs%texts_wf. unfold write_node. destruct (n_kernel n); apply wf_object; (split; [repeat constructor|]);
    repeat (constructor; [done|]); constructor.
Qed.
Lemma write_queue_wf q : wf (write_queue q).
Proof. apply wf_object. split; repeat constructor. Qed.

Lemma params_texts l : ∀ acc, map_sorted (acc ++ l) → params (texts l) acc = Ok (acc ++ l).
Proof.
  induction l as [|[k x] l IH]; intros acc Hs; [by rewrite app_nil_r|].
  change (texts ((k, x) :: l)) with ((k, VString x) :: texts l). cbn [params AsString]. unfold mbind, res_bind.
  rewrite map_assign_last by by apply (map_sorted_before acc l (k, x)).
  rewrite (IH (acc ++ [(k, x)])); rewrite <- app_assoc; done.
Qed.
Lemma LoadNode_written n : map_sorted (n_params n) → LoadNode (write_node n) VNull = ([node_call n], Ok tt).
Proof.
  intros Hs. unfold LoadNode, node_attr, write_node, node_call. destruct (n_kernel n) as [k|];
    (rewrite !field_get by (by left)); unfold mbind, res_bind; cbn -[texts params]; by rewrite (params_texts _ []).
Qed.
Lemma LoadQueue_written q : fits q → LoadQueue (write_queue q) = ([queue_call q], Ok tt).
Proof.
  intros (H1 & H2 & H3 & H4). unfold LoadQueue, queue_attr, write_queue, queue_call.
  unfold is_unsigned in *. rewrite !field_get by by left. unfold mbind, res_bind. cbn -[of_Z AsUnsigned AsNumber].
  rewrite !AsUnsigned_of_Z by done. unfold unless_null, queue_hint. cbn -[of_Z AsUnsigned AsNumber].
  rewrite AsUnsigned_of_Z by done. unfold IsNull, IsNumber, of_Z at 1 2 3. cbn -[of_Z AsUnsigned AsNumber].
  change (VNumber (ld_of_Z (q_hint q))) with (of_Z (F := F) (q_hint q)). rewrite AsNumber_of_Z by lia. done.
Qed.
Lemma load_each_written {A} (load : Variant → calls) (write : A → Variant) (made : A → @call F) l :
  (∀ x, IsObject (write x) = true) → (∀ x, x ∈ l → load (write x) = ([made x], Ok tt)) →
  load_each load (write <$> l) = (made <$> l, Ok tt).
Proof.
  intros Ho. induction l as [|x l IH]; intros Hl; cbn; [done|]. rewrite Ho, Hl by by left.
  rewrite IH by (intros y Hy; apply Hl; by right). done.
Qed.

Lemma LoadNodes_list v nodemap l : list_of v = Some l → LoadNodes v nodemap = load_each (λ attr, LoadNode attr nodemap) l.
Proof. by destruct v; intros [= <-]. Qed.
Lemma LoadQueues_list v l : list_of v = Some l → LoadQueues v = load_each LoadQueue l.
Proof. by destruct v; intros [= <-]. Qed.

(** Elements that differ from all before them come after them. *)
Lemma add_all_new {A B} (write : A → Variant) k same (key key' : A → B) (P : A → Prop) :
  (∀ a, P a → wf (write a)) →
  (∀ a b, P a → P b → key a ≠ key b → key' a ≠ key' b → same (write a) (write b) = Ok (write a, write b, false)) →
  ∀ vs l config, plain config → list_of (get config k) = Some (write <$> l) → Forall P (l ++ vs) →
  NoDup (key <$> l ++ vs) → NoDup (key' <$> l ++ vs) →
  ∃ config', add_all (add_to k same) (write <$> vs) config = Ok config' ∧ plain config' ∧
    list_of (get config' k) = Some (write <$> l ++ vs) ∧ ∀ k', k' ≠ k → get config' k' = get config k'.
Proof.
  intros Hw Hsame. induction vs as [|v vs IH]; intros l config Hp Hl HP H1 H2.
  { exists config. by rewrite app_nil_r. }
  pose proof HP as [HPl [HPv _]%Forall_cons]%Forall_app. rewrite Forall_forall in HPl.
  assert (Hnew : ∀ f : A → B, NoDup (f <$> l ++ v :: vs) → ∀ a, a ∈ l → f v ≠ f a).
  { intros f Hf a Ha Ee. rewrite fmap_app, fmap_cons in Hf. apply NoDup_app in Hf as (_ & Hd & _).
    apply (Hd (f a)); [by apply list_elem_of_fmap_2|]. rewrite Ee. by left. }
  cbn. rewrite (add_to_put k same _ config (write <$> l) (write v) (write <$> l) false); [|done|done|].
  2:{ apply merge_first_new. intros e (b & -> & Hb)%list_elem_of_fmap. apply Hsame; auto. }
  unfold mbind, res_bind. rewrite Copy_id by auto.
  destruct (IH (l ++ [v]) (put config k (VArray ((write <$> l) ++ [write v])))) as (config' & E & Hp' & Hl' & Hk).
  - apply put_plain.
  - rewrite get_put_eq. cbn. by rewrite fmap_app.
  - by rewrite <- app_assoc.
  - by rewrite <- app_assoc.
  - by rewrite <- app_assoc.
  - exists config'. split; [done|]. split; [done|]. split; [by rewrite <- app_assoc in Hl'|].
    intros k' Hne. rewrite Hk by done. by apply get_put_ne.
Qed.

Lemma same_queue_differ a b : q_reader a ≠ q_reader b → q_writer a ≠ q_writer b →
  same_queue (write_queue a) (write_queue b) = Ok (write_queue a, write_queue b, false).
Proof.
  intros Hr Hw. unfold same_queue, same_both, mbind, res_bind. pose proof (write_queue_wf a). pose proof (write_queue_wf b).
  repeat (rewrite ?same_at_text by done; case_bool_decide; cbn beta iota); try done; exfalso; [apply Hr|apply Hw..];
    destruct a as [? ? [] []], b as [? ? [] []]; cbn in *; by subst.
Qed.

Definition describe (name : string) (ns : list node) (qs : list queue) : res Variant :=
  config ← KernelName VNull name; config ← add_all AddNode (write_node <$> ns) config;
  add_all AddQueue (write_queue <$> qs) config.
Lemma written_node n : node_ok (write_node n) ∧ text "name" (write_node n) = n_name n.
Proof. unfold node_ok, has_text, text, write_node. by destruct (n_kernel n). Qed.
Lemma written_valid config ns qs : has_text config "name" →
  list_of (get config "nodes") = Some (write_node <$> ns) → list_of (get config "queues") = Some (write_queue <$> qs) →
  NoDup (n_name <$> ns) → NoDup (q_reader <$> qs) → NoDup (q_writer <$> qs) → valid config.
Proof.
  intros Ht En Eq Hn Hr Hw. split; [by eapply text_plain|]. split; [done|].
  exists (write_node <$> ns), (write_queue <$> qs). rewrite <- !list_fmap_compose. split_and!; try done.
  - apply Forall_fmap, Forall_true. intros n. apply written_node.
  - erewrite list_fmap_ext; [exact Hn|]. intros i n _. apply written_node.
  - apply Forall_fmap, Forall_true. intros q. by split_and!.
  - erewrite list_fmap_ext; [exact Hr|]. by intros i [? ? [] ? ? ? ?] _.
  - erewrite list_fmap_ext; [exact Hw|]. by intros i [? ? ? [] ? ? ?] _.
Qed.

(** C12: A network that is described one node and one queue after the other, with different
    names and no port used twice, validates, and the kernel is asked for these nodes
    with their types, kernels and parameters, and then for these queues with their
    sizes and ends, in this order. *)
Theorem described_network_is_made name ns qs :
  Forall (λ n, map_sorted (n_params n)) ns → NoDup (n_name <$> ns) →
  Forall fits qs → NoDup (q_reader <$> qs) → NoDup (q_writer <$> qs) →
  ∃ config, describe name ns qs = Ok config ∧ Validate config = Ok (true, "") ∧
    Setup config = ((node_call <$> ns) ++ (queue_call <$> qs), Ok tt).
Proof.
  intros Hn Hnd Hq Hr Hw. set (c0 := put (VNull : Variant) "name" (VString name)).
  destruct (add_all_new write_node "nodes" (same_at "name") n_name n_name (λ n, map_sorted (n_params n)))
    with (vs := ns) (l := @nil node) (config := c0) as (c1 & E1 & Hp1 & Hl1 & Hk1); try done.
  { intros n. apply write_node_wf. }
  { intros a b Ha%write_node_wf Hb%write_node_wf Hne _.
    destruct (written_node a) as [(_ & ? & _) Ea], (written_node b) as [(_ & ? & _) Eb].
    by rewrite same_at_text, Ea, Eb, bool_decide_false. }
  { apply put_plain. }
  destruct (add_all_new write_queue "queues" same_queue q_reader q_writer fits)
    with (vs := qs) (l := @nil queue) (config := c1) as (c2 & E2 & Hp2 & Hl2 & Hk2); try done.
  { intros q _. apply write_queue_wf. }
  { intros a b _ _. apply same_queue_differ. }
  { by rewrite Hk1. }
  assert (Hn2 : list_of (get c2 "nodes") = Some (write_node <$> ns)) by by rewrite Hk2.
  assert (Ht : has_text c2 "name") by (unfold has_text; by rewrite Hk2, Hk1).
  exists c2. split; [|split].
  - unfold describe, KernelName. rewrite Set_at_put by by right. fold c0. unfold mbind, res_bind.
    change AddNode with (add_to (F := F) "nodes" (same_at "name")). by rewrite E1.
  - by apply valid_validates, (written_valid _ ns qs).
  - unfold Setup. rewrite !field_get by done. unfold mbind, res_bind. rewrite (Hk2 "nodemap"), (Hk1 "nodemap") by done.
    cbn [lift fst snd]. change (get c0 "nodemap") with (VNull : Variant).
    assert (LoadNodes (get c2 "nodes") VNull = (node_call <$> ns, Ok tt)) as ->.
    { rewrite Forall_forall in Hn. rewrite (LoadNodes_list _ _ _ Hn2).
      apply load_each_written; [done|]. intros n Hin. by apply LoadNode_written, Hn. }
    unfold after. cbn [fst snd]. rewrite Forall_forall in Hq.
    rewrite (LoadQueues_list _ _ Hl2), (load_each_written _ _ queue_call); [done..|].
    intros q Hin. by apply LoadQueue_written, Hq.
Qed.
End network.

(** ** At concrete networks *)
Section examples.
#[local] Existing Instance ld_integers.
#[local] Instance alpha_integers : Alpha Z := {| half := 0; to_double a := a |}.

Definition a_node (name : string) : Variant Z := VObject [("name", VString name); ("type", VString "t")].
Definition a_queue (r w : string) : Variant Z :=
  VObject [("readernode", VString r); ("readerport", VString "p"); ("size", of_Z 8); ("threshold", of_Z 4);
           ("writernode", VString w); ("writerport", VString "p")].
(** A node without a name is taken for the one that is added, whatever that is called:
    anything is the same as null. *)
Lemma AddNode_takes_nameless :
  AddNode (a_node "b") (VObject [("nodes", VArray [VObject [("kernel", VString "k")]])]) =
  Ok (VObject [("nodes", VArray [VObject [("kernel", VString "k"); ("name", VString "b"); ("type", VString "t")]])],
      a_node "b").
Proof. reflexivity. Qed.
(** A queue from where one begins to where another ends replaces the first of the two and
    leaves the other, which then shares a port with it. *)
Lemma AddQueue_leaves_two_writers :
  (config ← add_all AddQueue [a_queue "a" "x"; a_queue "b" "y"] (VObject [("name", VString "k")]);
   before ← Validate config; '(config, _) ← AddQueue (a_queue "a" "y") config; after ← Validate config;
   Ok (before, after)) =
  Ok ((true, ""), (false, "Two queues connected to the same writer port.")).
Proof. vm_compute. reflexivity. Qed.

Lemma described_network_is_made_witness :
  ∃ config, describe "k" [mk_node "a" "t" (Some "k") [("x", "1"); ("y", "2")]; mk_node "b" "u" None []]
      [mk_queue 8 4 ("a", "in") ("b", "out") 1 "void" 1] = Ok config ∧ Validate config = Ok (true, "").
Proof.
  destruct (@described_network_is_made Z _ _ ld_integers_laws "k"
    [mk_node "a" "t" (Some "k") [("x", "1"); ("y", "2")]; mk_node "b" "u" None []]
    [mk_queue 8 4 ("a", "in") ("b", "out") 1 "void" 1]) as (config & E & Hv & _).
  - repeat constructor.
  - apply (bool_decide_unpack _). vm_compute. exact I.
  - repeat constructor; cbn; lia.
  - apply (bool_decide_unpack _). vm_compute. exact I.
  - apply (bool_decide_unpack _). vm_compute. exact I.
  - exists config. split; [exact E|exact Hv].
Defined.
End examples.
End VL.
