(* ===== verification/JsonParser.v ===== *)
(** [libraries/JSONParser]: the pushdown automaton that reads JSON a character at a
    time and calls back for what it finds, and the class around it.

    The two tables are the tables of the code.  The parser is made with the
    configuration that [Parser::AllocParser] gives it ([handle_floats_manually] is
    0).  Its stack and its buffer are lists here; the arrays that hold them, with their
    capacities, are in [JsonMemory], which shows that the parser over them does what
    this one does.  [strtod] and the decimal point of the locale are parameters. *)
From S2P Require Import Prelude Variant.

Module JP.
Import Var.
Open Scope Z_scope.
Open Scope list_scope.

(** ** The tables *)
Inductive class :=
  | C_SPACE | C_WHITE | C_LCURB | C_RCURB | C_LSQRB | C_RSQRB | C_COLON | C_COMMA | C_QUOTE | C_BACKS | C_SLASH
  | C_PLUS | C_MINUS | C_POINT | C_ZERO | C_DIGIT | C_LOW_A | C_LOW_B | C_LOW_C | C_LOW_D | C_LOW_E | C_LOW_F
  | C_LOW_L | C_LOW_N | C_LOW_R | C_LOW_S | C_LOW_T | C_LOW_U | C_ABCDF | C_E | C_ETC | C_STAR.
Inductive state := GO | OK | OB | KE | CO | VA | AR | ST | ES | U1 | U2 | U3 | U4 | MI | ZE | IT |
  FR | E1 | E2 | E3 | T1 | T2 | T3 | F1 | F2 | F3 | F4 | N1 | N2 | N3 | C1 | C2 | C3 | FX | D1 | D2.
(** What the cells of the table below -1 ask for. *)
Inductive action :=
  | CB | CE | FA | TR | NU | DE | DF | SB | MX | ZX | IX | EX | UC
  | AEmptyObj | AObjEnd | AArrEnd | AObj | AArr | AStrEnd | AComma | AColon.
Inductive cell := To (s : state) | Act (a : action) | Bad.
Coercion To : state >-> cell.
Coercion Act : action >-> cell.
#[local] Notation "'__'" := Bad.
#[local] Notation "⟦ x ; .. ; y ⟧" := (@cons cell x .. (@cons cell y (@nil cell)) ..).

Definition ascii_class : list (option class) :=
  let some c := Some c in
  [
    None; None; None; None; None; None; None; None;
    None; some C_WHITE; some C_WHITE; None; None; some C_WHITE; None; None;
    None; None; None; None; None; None; None; None;
    None; None; None; None; None; None; None; None;
    some C_SPACE; some C_ETC; some C_QUOTE; some C_ETC; some C_ETC; some C_ETC; some C_ETC; some C_ETC;
    some C_ETC; some C_ETC; some C_STAR; some C_PLUS; some C_COMMA; some C_MINUS; some C_POINT; some C_SLASH;
    some C_ZERO; some C_DIGIT; some C_DIGIT; some C_DIGIT; some C_DIGIT; some C_DIGIT; some C_DIGIT; some C_DIGIT;
    some C_DIGIT; some C_DIGIT; some C_COLON; some C_ETC; some C_ETC; some C_ETC; some C_ETC; some C_ETC;
    some C_ETC; some C_ABCDF; some C_ABCDF; some C_ABCDF; some C_ABCDF; some C_E; some C_ABCDF; some C_ETC;
    some C_ETC; some C_ETC; some C_ETC; some C_ETC; some C_ETC; some C_ETC; some C_ETC; some C_ETC;
    some C_ETC; some C_ETC; some C_ETC; some C_ETC; some C_ETC; some C_ETC; some C_ETC; some C_ETC;
    some C_ETC; some C_ETC; some C_ETC; some C_LSQRB; some C_BACKS; some C_RSQRB; some C_ETC; some C_ETC;
    some C_ETC; some C_LOW_A; some C_LOW_B; some C_LOW_C; some C_LOW_D; some C_LOW_E; some C_LOW_F; some C_ETC;
    some C_ETC; some C_ETC; some C_ETC; some C_ETC; some C_LOW_L; some C_ETC; some C_LOW_N; some C_ETC;
    some C_ETC; some C_ETC; some C_LOW_R; some C_LOW_S; some C_LOW_T; some C_LOW_U; some C_ETC; some C_ETC;
    some C_ETC; some C_ETC; some C_ETC; some C_LCURB; some C_ETC; some C_RCURB; some C_ETC; some C_ETC].
Definition classify (c : Z) : option class :=
  if c <? 0 then None else if 128 <=? c then Some C_ETC
  else match ascii_class !! Z.to_nat c with Some cl => cl | None => None end.

Definition index (c : class) : nat :=
  match c with
  | C_SPACE => 0 | C_WHITE => 1 | C_LCURB => 2 | C_RCURB => 3 | C_LSQRB => 4 | C_RSQRB => 5 | C_COLON => 6 | C_COMMA => 7
  | C_QUOTE => 8 | C_BACKS => 9 | C_SLASH => 10 | C_PLUS => 11 | C_MINUS => 12 | C_POINT => 13 | C_ZERO => 14 | C_DIGIT => 15
  | C_LOW_A => 16 | C_LOW_B => 17 | C_LOW_C => 18 | C_LOW_D => 19 | C_LOW_E => 20 | C_LOW_F => 21 | C_LOW_L => 22 | C_LOW_N => 23
  | C_LOW_R => 24 | C_LOW_S => 25 | C_LOW_T => 26 | C_LOW_U => 27 | C_ABCDF => 28 | C_E => 29 | C_ETC => 30 | C_STAR => 31
  end%nat.
Definition row (s : state) : list cell :=
  match s with
  | GO => ⟦GO; GO; AObj; __; AArr; __; __; __; __; __; CB; __; __; __; __; __; __; __; __; __; __; __; __; __; __; __; __; __; __; __; __; __⟧
  | OK => ⟦OK; OK; __; AObjEnd; __; AArrEnd; __; AComma; __; __; CB; __; __; __; __; __; __; __; __; __; __; __; __; __; __; __; __; __; __; __; __; __⟧
  | OB => ⟦OB; OB; __; AEmptyObj; __; __; __; __; SB; __; CB; __; __; __; __; __; __; __; __; __; __; __; __; __; __; __; __; __; __; __; __; __⟧
  | KE => ⟦KE; KE; __; __; __; __; __; __; SB; __; CB; __; __; __; __; __; __; __; __; __; __; __; __; __; __; __; __; __; __; __; __; __⟧
  | CO => ⟦CO; CO; __; __; __; __; AColon; __; __; __; CB; __; __; __; __; __; __; __; __; __; __; __; __; __; __; __; __; __; __; __; __; __⟧
  | VA => ⟦VA; VA; AObj; __; AArr; __; __; __; SB; __; CB; __; MX; __; ZX; IX; __; __; __; __; __; FA; __; NU; __; __; TR; __; __; __; __; __⟧
  | AR => ⟦AR; AR; AObj; __; AArr; AArrEnd; __; __; SB; __; CB; __; MX; __; ZX; IX; __; __; __; __; __; FA; __; NU; __; __; TR; __; __; __; __; __⟧
  | ST => ⟦ST; __; ST; ST; ST; ST; ST; ST; AStrEnd; EX; ST; ST; ST; ST; ST; ST; ST; ST; ST; ST; ST; ST; ST; ST; ST; ST; ST; ST; ST; ST; ST; ST⟧
  | ES => ⟦__; __; __; __; __; __; __; __; ST; ST; ST; __; __; __; __; __; __; ST; __; __; __; ST; __; ST; ST; __; ST; U1; __; __; __; __⟧
  | U1 => ⟦__; __; __; __; __; __; __; __; __; __; __; __; __; __; U2; U2; U2; U2; U2; U2; U2; U2; __; __; __; __; __; __; U2; U2; __; __⟧
  | U2 => ⟦__; __; __; __; __; __; __; __; __; __; __; __; __; __; U3; U3; U3; U3; U3; U3; U3; U3; __; __; __; __; __; __; U3; U3; __; __⟧
  | U3 => ⟦__; __; __; __; __; __; __; __; __; __; __; __; __; __; U4; U4; U4; U4; U4; U4; U4; U4; __; __; __; __; __; __; U4; U4; __; __⟧
  | U4 => ⟦__; __; __; __; __; __; __; __; __; __; __; __; __; __; UC; UC; UC; UC; UC; UC; UC; UC; __; __; __; __; __; __; UC; UC; __; __⟧
  | MI => ⟦__; __; __; __; __; __; __; __; __; __; __; __; __; __; ZE; IT; __; __; __; __; __; __; __; __; __; __; __; __; __; __; __; __⟧
  | ZE => ⟦OK; OK; __; AObjEnd; __; AArrEnd; __; AComma; __; __; CB; __; __; DF; __; __; __; __; __; __; __; __; __; __; __; __; __; __; __; __; __; __⟧
  | IT => ⟦OK; OK; __; AObjEnd; __; AArrEnd; __; AComma; __; __; CB; __; __; DF; IT; IT; __; __; __; __; DE; __; __; __; __; __; __; __; __; DE; __; __⟧
  | FR => ⟦OK; OK; __; AObjEnd; __; AArrEnd; __; AComma; __; __; CB; __; __; __; FR; FR; __; __; __; __; E1; __; __; __; __; __; __; __; __; E1; __; __⟧
  | E1 => ⟦__; __; __; __; __; __; __; __; __; __; __; E2; E2; __; E3; E3; __; __; __; __; __; __; __; __; __; __; __; __; __; __; __; __⟧
  | E2 => ⟦__; __; __; __; __; __; __; __; __; __; __; __; __; __; E3; E3; __; __; __; __; __; __; __; __; __; __; __; __; __; __; __; __⟧
  | E3 => ⟦OK; OK; __; AObjEnd; __; AArrEnd; __; AComma; __; __; __; __; __; __; E3; E3; __; __; __; __; __; __; __; __; __; __; __; __; __; __; __; __⟧
  | T1 => ⟦__; __; __; __; __; __; __; __; __; __; __; __; __; __; __; __; __; __; __; __; __; __; __; __; T2; __; __; __; __; __; __; __⟧
  | T2 => ⟦__; __; __; __; __; __; __; __; __; __; __; __; __; __; __; __; __; __; __; __; __; __; __; __; __; __; __; T3; __; __; __; __⟧
  | T3 => ⟦__; __; __; __; __; __; __; __; __; __; CB; __; __; __; __; __; __; __; __; __; OK; __; __; __; __; __; __; __; __; __; __; __⟧
  | F1 => ⟦__; __; __; __; __; __; __; __; __; __; __; __; __; __; __; __; F2; __; __; __; __; __; __; __; __; __; __; __; __; __; __; __⟧
  | F2 => ⟦__; __; __; __; __; __; __; __; __; __; __; __; __; __; __; __; __; __; __; __; __; __; F3; __; __; __; __; __; __; __; __; __⟧
  | F3 => ⟦__; __; __; __; __; __; __; __; __; __; __; __; __; __; __; __; __; __; __; __; __; __; __; __; __; F4; __; __; __; __; __; __⟧
  | F4 => ⟦__; __; __; __; __; __; __; __; __; __; CB; __; __; __; __; __; __; __; __; __; OK; __; __; __; __; __; __; __; __; __; __; __⟧
  | N1 => ⟦__; __; __; __; __; __; __; __; __; __; __; __; __; __; __; __; __; __; __; __; __; __; __; __; __; __; __; N2; __; __; __; __⟧
  | N2 => ⟦__; __; __; __; __; __; __; __; __; __; __; __; __; __; __; __; __; __; __; __; __; __; N3; __; __; __; __; __; __; __; __; __⟧
  | N3 => ⟦__; __; __; __; __; __; __; __; __; __; CB; __; __; __; __; __; __; __; __; __; __; __; OK; __; __; __; __; __; __; __; __; __⟧
  | C1 => ⟦__; __; __; __; __; __; __; __; __; __; __; __; __; __; __; __; __; __; __; __; __; __; __; __; __; __; __; __; __; __; __; C2⟧
  | C2 => ⟦C2; C2; C2; C2; C2; C2; C2; C2; C2; C2; C2; C2; C2; C2; C2; C2; C2; C2; C2; C2; C2; C2; C2; C2; C2; C2; C2; C2; C2; C2; C2; C3⟧
  | C3 => ⟦C2; C2; C2; C2; C2; C2; C2; C2; C2; C2; CE; C2; C2; C2; C2; C2; C2; C2; C2; C2; C2; C2; C2; C2; C2; C2; C2; C2; C2; C2; C2; C3⟧
  | FX => ⟦OK; OK; __; AObjEnd; __; AArrEnd; __; AComma; __; __; __; __; __; __; FR; FR; __; __; __; __; E1; __; __; __; __; __; __; __; __; E1; __; __⟧
  | D1 => ⟦__; __; __; __; __; __; __; __; __; D2; __; __; __; __; __; __; __; __; __; __; __; __; __; __; __; __; __; __; __; __; __; __⟧
  | D2 => ⟦__; __; __; __; __; __; __; __; __; __; __; __; __; __; __; __; __; __; __; __; __; __; __; __; __; __; __; U1; __; __; __; __⟧
  end.
Definition state_transition_table (s : state) (c : class) : cell := nth (index c) (row s) Bad.

(** ** The parser *)
Inductive mode := MODE_ARRAY | MODE_DONE | MODE_KEY | MODE_OBJECT.
#[export] Instance mode_eq_dec : EqDecision mode.
Proof. solve_decision. Defined.
#[export] Instance state_eq_dec : EqDecision state.
Proof. solve_decision. Defined.
(** [JSON_type], as far as it is the type of what is being read. *)
Inductive JSON_type := T_NONE | T_INTEGER | T_FLOAT | T_NULL | T_TRUE | T_FALSE | T_STRING.
#[export] Instance JSON_type_eq_dec : EqDecision JSON_type.
Proof. solve_decision. Defined.
(** What the callback is called with. *)
Inductive event (F : Type) :=
  | ARRAY_BEGIN | ARRAY_END | OBJECT_BEGIN | OBJECT_END
  | INTEGER (value : Z) | FLOAT (value : F) | NULL | TRUE | FALSE | STRING (s : list Z) | KEY (s : list Z).
Arguments ARRAY_BEGIN {F}. Arguments ARRAY_END {F}. Arguments OBJECT_BEGIN {F}. Arguments OBJECT_END {F}.
Arguments INTEGER {F} value. Arguments FLOAT {F} value. Arguments NULL {F}. Arguments TRUE {F}.
Arguments FALSE {F}. Arguments STRING {F} s. Arguments KEY {F} s.

(** The stack and the buffer as lists, with what was added last first: see [JsonMemory]
    for the arrays. *)
Record JSON_parser := mk_parser {
  jstate : state; before_comment_state : state; type : JSON_type; escaped : bool; comment : bool;
  allow_comments : bool; utf16_high_surrogate : Z; jdepth : Z; modes : list mode; parse_buffer : list Z }.
Implicit Types (jc : JSON_parser).
Definition set_state jc s := mk_parser s (before_comment_state jc) (type jc) (escaped jc) (comment jc)
  (allow_comments jc) (utf16_high_surrogate jc) (jdepth jc) (modes jc) (parse_buffer jc).
Definition set_before jc s := mk_parser (jstate jc) s (type jc) (escaped jc) (comment jc)
  (allow_comments jc) (utf16_high_surrogate jc) (jdepth jc) (modes jc) (parse_buffer jc).
Definition set_type jc t := mk_parser (jstate jc) (before_comment_state jc) t (escaped jc) (comment jc)
  (allow_comments jc) (utf16_high_surrogate jc) (jdepth jc) (modes jc) (parse_buffer jc).
Definition set_escaped jc b := mk_parser (jstate jc) (before_comment_state jc) (type jc) b (comment jc)
  (allow_comments jc) (utf16_high_surrogate jc) (jdepth jc) (modes jc) (parse_buffer jc).
Definition set_comment jc b := mk_parser (jstate jc) (before_comment_state jc) (type jc) (escaped jc) b
  (allow_comments jc) (utf16_high_surrogate jc) (jdepth jc) (modes jc) (parse_buffer jc).
Definition set_surrogate jc u := mk_parser (jstate jc) (before_comment_state jc) (type jc) (escaped jc) (comment jc)
  (allow_comments jc) u (jdepth jc) (modes jc) (parse_buffer jc).
Definition set_modes jc l := mk_parser (jstate jc) (before_comment_state jc) (type jc) (escaped jc) (comment jc)
  (allow_comments jc) (utf16_high_surrogate jc) (jdepth jc) l (parse_buffer jc).
Definition set_buffer jc l := mk_parser (jstate jc) (before_comment_state jc) (type jc) (escaped jc) (comment jc)
  (allow_comments jc) (utf16_high_surrogate jc) (jdepth jc) (modes jc) l.

Definition push jc (m : mode) : JSON_parser * bool :=
  if (0 <=? jdepth jc) && (jdepth jc <=? len (modes jc)) then (jc, false) else (set_modes jc (m :: modes jc), true).
Definition pop jc (m : mode) : JSON_parser * bool :=
  match modes jc with
  | m' :: l => if bool_decide (m' = m) then (set_modes jc l, true) else (jc, false)
  | [] => (jc, false)
  end.
Definition new_JSON_parser (depth : Z) (allow_comments : bool) : JSON_parser :=
  (push (mk_parser GO GO T_NONE false false allow_comments 0
           (if depth =? 0 then 1 else if 0 <? depth then depth else -1) [] []) MODE_DONE).1.

Definition parse_buffer_clear jc : JSON_parser := set_buffer jc [].
Definition parse_buffer_pop_back_char jc : res JSON_parser :=
  match parse_buffer jc with [] => Err AssertFailed | _ :: b => Ok (set_buffer jc b) end.
Definition u8 (x : Z) : Z := x `mod` 256.
(** The cast to [char], as a byte. *)
Definition parse_buffer_push_back_char jc (c : Z) : JSON_parser := set_buffer jc (u8 c :: parse_buffer jc).

(** [sscanf] of an integer of 64 bits, which stays at the ends of their range (so does
    the GNU library; the standard leaves it open). *)
Definition sscanf_integer (s : list Z) : Z :=
  let value := match s with c :: l => if c =? 45 then - digits 0 l else digits 0 s | [] => 0 end in
  Z.max (-9223372036854775808) (Z.min 9223372036854775807 value).

Definition IS_HIGH_SURROGATE (uc : Z) : bool := Z.land uc 0xFC00 =? 0xD800.
Definition IS_LOW_SURROGATE (uc : Z) : bool := Z.land uc 0xFC00 =? 0xDC00.
Definition DECODE_SURROGATE_PAIR (hi lo : Z) : Z :=
  u32 (Z.shiftl (Z.land hi 0x3FF) 10 + Z.land lo 0x3FF + 0x10000).
Definition utf8_lead_bits (trail_bytes : nat) : Z :=
  match trail_bytes with O => 0x00 | S O => 0xC0 | S (S O) => 0xE0 | _ => 0xF0 end.
Definition hex_digit (x : Z) : res Z :=
  let x := if 97 <=? x then x - 87 else if 65 <=? x then x - 55 else Z.land x (Z.lnot 0x30) in
  assert (x <? 16) ;; Ok x.
(** The bytes after the first, for [i = 6 * (trail_bytes - 1), ..., 6, 0]. *)
Fixpoint trail (uc : Z) (n : nat) : list Z :=
  match n with
  | O => []
  | S n => Z.lor (Z.land (Z.shiftr uc (6 * Z.of_nat n)) 0x3F) 0x80 :: trail uc n
  end.
Definition utf8 (uc : Z) (trail_bytes : nat) : list Z :=
  u8 (Z.lor (Z.shiftr uc (6 * Z.of_nat trail_bytes)) (utf8_lead_bits trail_bytes)) :: trail uc trail_bytes.
Definition decode_unicode_char jc : res (JSON_parser * bool) :=
  match parse_buffer jc with
  | d0 :: d1 :: d2 :: d3 :: _ :: _ :: b =>
      d3 ← hex_digit d3; d2 ← hex_digit d2; d1 ← hex_digit d1; d0 ← hex_digit d0;
      let uc := Z.lor (Z.lor (Z.lor (Z.shiftl d3 12) (Z.shiftl d2 8)) (Z.shiftl d1 4)) d0 in
      let jc := set_buffer jc b in
      let put jc uc n := Ok (set_buffer jc (reverse (utf8 uc n) ++ parse_buffer jc), true) in
      if negb (utf16_high_surrogate jc =? 0) then
        if IS_LOW_SURROGATE uc then
          put (set_surrogate jc 0) (DECODE_SURROGATE_PAIR (utf16_high_surrogate jc) uc) 3%nat
        else Ok (jc, false)
      else if uc <? 0x80 then put jc uc 0%nat
      else if uc <? 0x800 then put jc uc 1%nat
      else if IS_HIGH_SURROGATE uc then Ok (set_surrogate jc uc, true)
      else if IS_LOW_SURROGATE uc then Ok (jc, false)
      else put jc uc 2%nat
  | _ => Err AssertFailed
  end.

Definition add_escaped_char_to_parse_buffer jc (next_char : Z) : res (JSON_parser * bool) :=
  jc ← parse_buffer_pop_back_char (set_escaped jc false);
  let put c := Ok (parse_buffer_push_back_char jc c, true) in
  if next_char =? 98 then put 8 else if next_char =? 102 then put 12 else if next_char =? 110 then put 10
  else if next_char =? 114 then put 13 else if next_char =? 116 then put 9
  else if (next_char =? 34) || (next_char =? 92) || (next_char =? 47) then put next_char
  else if next_char =? 117 then
    Ok (parse_buffer_push_back_char (parse_buffer_push_back_char jc 92) 117, true)
  else Ok (jc, false).
Definition is_white (c : class) : bool := match c with C_SPACE | C_WHITE => true | _ => false end.
Definition add_char_to_parse_buffer jc (next_char : Z) (next_class : class) : res (JSON_parser * bool) :=
  if escaped jc then add_escaped_char_to_parse_buffer jc next_char
  else if comment jc then Ok (jc, true)
  else if match type jc with T_NONE => is_white next_class | _ => false end then Ok (jc, true)
  else Ok (parse_buffer_push_back_char jc next_char, true).

Section parser.
Context {F : Type}.
(** The number that [strtod] reads from a text, the decimal point of the locale, and
    the callback with what it keeps. *)
Context (strtod : list Z → F) (decimal_point : Z).
Context {C : Type} (callback : C → event F → res (C * bool)).

(** The parser and the context afterwards, and what is returned. *)
Definition result : Type := JSON_parser * C * bool.
Definition call (jc : JSON_parser) (c : C) (e : event F) : res result := '(c, b) ← callback c e; Ok (jc, c, b).
(** [if (!r) return false;] *)
Definition and_then (r : res result) (k : JSON_parser → C → res result) : res result :=
  '(jc, c, b) ← r; if (b : bool) then k jc c else Ok (jc, c, false).
Definition finished (p : JSON_parser * bool) (c : C) : res result := Ok (p.1, c, p.2).

(** The event of what was read, if it is one. *)
Definition pending jc : option (event F) :=
  let text := reverse (parse_buffer jc) in
  match type jc with
  | T_NONE => None
  | T_FLOAT => Some (FLOAT (strtod text))
  | T_INTEGER => Some (INTEGER (sscanf_integer text))
  | T_STRING => Some (STRING text)
  | T_NULL => Some NULL | T_TRUE => Some TRUE | T_FALSE => Some FALSE
  end.
Definition parse_parse_buffer jc (c : C) : res result :=
  and_then (match pending jc with Some e => call jc c e | None => Ok (jc, c, true) end) (λ jc c,
    Ok (parse_buffer_clear jc, c, true)).

Definition is_type_none jc : bool := match type jc with T_NONE => true | _ => false end.
Definition is_type_string jc : bool := match type jc with T_STRING => true | _ => false end.
Definition is_string_null_or_bool jc : bool :=
  match type jc with T_FALSE | T_TRUE | T_NULL | T_STRING => true | _ => false end.
Definition top jc : res mode := match modes jc with m :: _ => Ok m | [] => Err OutOfBounds end.
(** [type = t; state = s;] and the end of the case. *)
Definition becomes jc (c : C) (t : JSON_type) (s : state) : res result := Ok (set_state (set_type jc t) s, c, true).

(** The opening of a comment. *)
Definition comment_begin jc (c : C) : res result :=
  if negb (allow_comments jc) then Ok (jc, c, false) else
  jc ← parse_buffer_pop_back_char jc;
  and_then (parse_parse_buffer jc c) (λ jc c,
    assert (match parse_buffer jc with [] => true | _ => false end) ;;
    assert (negb (is_type_string jc)) ;;
    m ← top jc;
    let before := match m with
                  | MODE_ARRAY | MODE_OBJECT => match jstate jc with VA => VA | AR => AR | _ => OK end
                  | _ => jstate jc
                  end in
    becomes (set_comment (set_before jc before) true) c T_NONE C1).
(** [pop], [push] and what follows. *)
Definition swap_mode jc (c : C) (m m' : mode) (k : JSON_parser → C → res result) : res result :=
  and_then (finished (pop jc m) c) (λ jc c, and_then (finished (push jc m') c) k).

(** The [switch] over the actions. *)
Definition perform (a : action) jc (c : C) : res result :=
  match a with
  | UC => '(jc, b) ← decode_unicode_char jc;
          if negb b then Ok (jc, c, false)
          else Ok (set_state jc (if utf16_high_surrogate jc =? 0 then ST else D1), c, true)
  | EX => Ok (set_state (set_escaped jc true) ES, c, true)
  | MX => becomes jc c T_INTEGER MI
  | ZX => becomes jc c T_INTEGER ZE
  | IX => becomes jc c T_INTEGER IT
  | DE => assert (negb (is_string_null_or_bool jc)) ;; becomes jc c T_FLOAT E1
  | DF => assert (negb (is_string_null_or_bool jc)) ;;
          match parse_buffer jc with
          | c' :: b => assert (c' =? 46) ;; becomes (set_buffer jc (decimal_point :: b)) c T_FLOAT FX
          | [] => Err OutOfBounds
          end
  | SB => let jc := parse_buffer_clear jc in assert (is_type_none jc) ;; becomes jc c T_STRING ST
  | NU => assert (is_type_none jc) ;; becomes jc c T_NULL N1
  | FA => assert (is_type_none jc) ;; becomes jc c T_FALSE F1
  | TR => assert (is_type_none jc) ;; becomes jc c T_TRUE T1
  | CE => let jc := set_comment jc false in
          assert (match parse_buffer jc with [] => true | _ => false end) ;;
          assert (is_type_none jc) ;; Ok (set_state jc (before_comment_state jc), c, true)
  | CB => comment_begin jc c
  | AEmptyObj =>
      and_then (call (parse_buffer_clear jc) c OBJECT_END) (λ jc c,
      and_then (finished (pop jc MODE_KEY) c) (λ jc c, Ok (set_state jc OK, c, true)))
  | AObjEnd =>
      jc ← parse_buffer_pop_back_char jc;
      and_then (parse_parse_buffer jc c) (λ jc c, and_then (call jc c OBJECT_END) (λ jc c,
      and_then (finished (pop jc MODE_OBJECT) c) (λ jc c, becomes jc c T_NONE OK)))
  | AArrEnd =>
      jc ← parse_buffer_pop_back_char jc;
      and_then (parse_parse_buffer jc c) (λ jc c, and_then (call jc c ARRAY_END) (λ jc c,
      and_then (finished (pop jc MODE_ARRAY) c) (λ jc c, becomes jc c T_NONE OK)))
  | AObj =>
      jc ← parse_buffer_pop_back_char jc;
      and_then (call jc c OBJECT_BEGIN) (λ jc c, and_then (finished (push jc MODE_KEY) c) (λ jc c,
      assert (is_type_none jc) ;; Ok (set_state jc OB, c, true)))
  | AArr =>
      jc ← parse_buffer_pop_back_char jc;
      and_then (call jc c ARRAY_BEGIN) (λ jc c, and_then (finished (push jc MODE_ARRAY) c) (λ jc c,
      assert (is_type_none jc) ;; Ok (set_state jc AR, c, true)))
  | AStrEnd =>
      jc ← parse_buffer_pop_back_char jc;
      m ← top jc;
      match m with
      | MODE_KEY =>
          assert (is_type_string jc) ;;
          let jc := set_state (set_type jc T_NONE) CO in
          and_then (call jc c (KEY (reverse (parse_buffer jc)))) (λ jc c, Ok (parse_buffer_clear jc, c, true))
      | MODE_ARRAY | MODE_OBJECT =>
          assert (is_type_string jc) ;;
          and_then (parse_parse_buffer jc c) (λ jc c, becomes jc c T_NONE OK)
      | _ => Ok (jc, c, false)
      end
  | AComma =>
      jc ← parse_buffer_pop_back_char jc;
      and_then (parse_parse_buffer jc c) (λ jc c,
      m ← top jc;
      match m with
      | MODE_OBJECT => swap_mode jc c MODE_OBJECT MODE_KEY (λ jc c,
          assert (negb (is_type_string jc)) ;; becomes jc c T_NONE KE)
      | MODE_ARRAY => assert (negb (is_type_string jc)) ;; becomes jc c T_NONE VA
      | _ => Ok (jc, c, false)
      end)
  | AColon =>
      jc ← parse_buffer_pop_back_char jc;
      swap_mode jc c MODE_KEY MODE_OBJECT (λ jc c, assert (is_type_none jc) ;; Ok (set_state jc VA, c, true))
  end.

Definition JSON_parser_char jc (c : C) (next_char : Z) : res result :=
  match classify next_char with
  | None => Ok (jc, c, false)
  | Some next_class =>
      '(jc, b) ← add_char_to_parse_buffer jc next_char next_class;
      if negb b then Ok (jc, c, false) else
      match state_transition_table (jstate jc) next_class with
      | To s => Ok (set_state jc s, c, true)
      | Act a => perform a jc c
      | Bad => Ok (jc, c, false)
      end
  end.
Definition JSON_parser_done jc : JSON_parser * bool :=
  match jstate jc with OK => pop jc MODE_DONE | _ => (jc, false) end.
End parser.

(** The string of the white space test, as a C string. *)
Fixpoint JSON_parser_is_legal_white_space_string (s : list Z) : bool :=
  match s with
  | [] => true
  | c :: s => match classify c with
              | Some cl => (c <? 128) && is_white cl && JSON_parser_is_legal_white_space_string s
              | None => false
              end
  end.

(** ** The class [JSON::Parser] *)
(** The virtual methods, of an object that keeps [H]: one per event. *)
Class Handler (F H : Type) := handle : H → event F → res (H * bool).
Inductive Status_t := P_OK | P_ERROR | P_DONE.
Section class_.
Context {F H : Type} `{!Handler F H} (strtod : list Z → F) (decimal_point : Z).

Record Parser := mk { parser : JSON_parser; status : Status_t; line : Z; column : Z; charcount : Z; depth : Z; derived : H }.
Definition AllocParser : JSON_parser := new_JSON_parser (-1) true.
Definition new_Parser (h : H) : Parser := mk AllocParser P_OK 1 0 0 0 h.
(** [Reset], with what the derived class makes of its own part. *)
Definition Reset (h : H) : Parser := new_Parser h.

(** A C string ends where it has a zero. *)
Fixpoint c_string (s : list Z) : list Z :=
  match s with c :: s => if c =? 0 then [] else c :: c_string s | [] => [] end.
(** [Callback], on the two parts of the object that it changes. *)
Definition Callback (o : Z * H) (e : event F) : res ((Z * H) * bool) :=
  let '(depth, h) := o in
  match e with
  | ARRAY_BEGIN | OBJECT_BEGIN => '(h, b) ← handle h e; Ok ((u32 (depth + 1), h), b)
  | ARRAY_END | OBJECT_END => '(h, b) ← handle h e; Ok ((u32 (depth - 1), h), b)
  | STRING s => '(h, b) ← handle h (STRING (c_string s)); Ok ((depth, h), b)
  | KEY s => '(h, b) ← handle h (KEY (c_string s)); Ok ((depth, h), b)
  | _ => '(h, b) ← handle h e; Ok ((depth, h), b)
  end.

Definition Parse_char (p : Parser) (c : Z) : res (Parser * bool) :=
  match status p with
  | P_OK =>
      let charcount := u32 (charcount p + 1) in
      let column_ := if c =? 10 then 0 else u32 (column p + 1) in
      let line := if c =? 10 then u32 (line p + 1) else line p in
      '(jc, (d, h), b) ← JSON_parser_char strtod decimal_point Callback (parser p) (depth p, derived p) c;
      if (b : bool) then
        let '(jc, fin) := if d =? 0 then JSON_parser_done jc else (jc, false) in
        Ok (mk jc (if (fin : bool) then P_DONE else P_OK) line column_ charcount d h, true)
      else Ok (mk jc P_ERROR line column_ charcount d h, false)
  | _ => Ok (p, false)
  end.
(** [Parse] of an array of bytes, and [ParseStream] and [ParseFile] of what is left in one:
    the number of characters that are accepted. *)
Fixpoint Parse (p : Parser) (l : list Z) : res (Parser * Z) :=
  match l with
  | [] => Ok (p, 0)
  | c :: l =>
      '(p, b) ← Parse_char p c;
      if (b : bool) then '(p, n) ← Parse p l; Ok (p, 1 + n) else Ok (p, 0)
  end.
Definition Ok_ (p : Parser) : bool := match status p with P_OK => true | _ => false end.
Definition Done (p : Parser) : bool := match status p with P_DONE => true | _ => false end.
(** The stream: what is left in it; after its end [get] gives -1. *)
Fixpoint ParseStream (p : Parser) (is_ : list Z) : res (Parser * list Z) :=
  if negb (Ok_ p) then Ok (p, is_) else
  match is_ with
  | [] => '(p, _) ← Parse_char p (-1); Ok (p, [])
  | c :: rest =>
      '(p, b) ← Parse_char p c;
      if (b : bool) then ParseStream p rest else Ok (p, c :: rest)
  end.
(** The file: at its end nothing is parsed. *)
Fixpoint ParseFile (p : Parser) (f : list Z) : res (Parser * list Z) :=
  match f with
  | [] => Ok (p, [])
  | c :: rest =>
      if negb (Ok_ p) then Ok (p, f) else
      '(p, b) ← Parse_char p c;
      if (b : bool) then ParseFile p rest else Ok (p, c :: rest)
  end.
End class_.
Arguments Parser H : clear implicits.
End JP.
