(* ===== verification/JsonVariant.v ===== *)
(** [libraries/JSONVariant]: variants as JSON text, and back.

    Text is a list of bytes; an output stream is what was written to it, so that the
    functions that write to one return what they write. *)
From Stdlib Require Import Sorted.
From S2P Require Import Prelude Variant JsonParser.

Module JV.
Import Var JP.
Open Scope Z_scope.
Open Scope list_scope.

Definition string_of (l : list Z) : string := String.string_of_list_ascii (Ascii.ascii_of_nat ∘ Z.to_nat <$> l).

Section json.
Context {F : Type} `{LongDouble F}.
Notation Variant := (Variant F).
Implicit Types (v : Variant).

(** ** [VariantToJSON] *)
Definition hex (x : Z) : Z := if x <? 10 then 48 + x else 87 + x.
(** One character of a string, with [char] signed: bytes from 128 are negative. *)
Definition insert_char (c : Z) : list Z :=
  if c =? 92 then [92; 92] else if c =? 34 then [92; 34] else if c =? 47 then [92; 47]
  else if c =? 8 then [92; 98] else if c =? 12 then [92; 102] else if c =? 10 then [92; 110]
  else if c =? 13 then [92; 114] else if c =? 9 then [92; 116]
  else if 128 <=? c then [c]
  else if c <? 32 then [92; 117; 48; 48; hex (Z.shiftr c 4); hex (Z.land c 15)]
  else [c].
Definition InsertString (str : string) : list Z := [34] ++ concat (insert_char <$> c_string (chars str)) ++ [34].
Definition spaces (n : Z) : list Z := replicate (Z.to_nat n) 32.
(** The loop takes 16 levels in a turn. *)
Fixpoint indent (fuel : nat) (level : Z) : list Z :=
  match fuel with
  | O => []
  | S fuel => if level <=? 0 then []
              else if level <? 16 then spaces (level * 2) else spaces 32 ++ indent fuel (level - 16)
  end.
Definition InsertIndent (level : Z) : list Z := [10] ++ indent (S (Z.to_nat level)) level.
Definition OBJ_SEP : list Z := [58; 32].
Definition VAL_SEP : list Z := [44; 32].
(** The elements with what is before each, the first of which has no separator. *)
Definition separated (pretty : bool) (level : Z) (items : list (list Z)) : list Z :=
  concat (imap (λ i x, (if bool_decide (i = 0%nat) then [] else VAL_SEP) ++
                       (if pretty then InsertIndent level else []) ++ x) items).
Definition closing (pretty : bool) (level : Z) : list Z := if pretty then InsertIndent (u32 (level - 1)) else [].
Fixpoint VariantToJSON_level (pretty : bool) (level : Z) v : list Z :=
  match v with
  | VNull => chars "null" | VTrue => chars "true" | VFalse => chars "false"
  | VNumber n => chars (ld_print n)
  | VString s => InsertString s
  | VArray l =>
      let fix items (l : list Variant) :=
        match l with [] => [] | x :: l => VariantToJSON_level pretty (u32 (level + 1)) x :: items l end in
      [91] ++ separated pretty level (items l) ++ closing pretty level ++ [93]
  | VObject m =>
      let fix items (m : list (string * Variant)) :=
        match m with
        | [] => []
        | (k, x) :: m => (InsertString k ++ OBJ_SEP ++ VariantToJSON_level pretty (u32 (level + 1)) x) :: items m
        end in
      [123] ++ separated pretty level (items m) ++ closing pretty level ++ [125]
  end.
Definition VariantToJSON v (pretty : bool) : list Z := VariantToJSON_level pretty 1 v.

(** ** [JSONToVariant] *)
(** The stacks, with their tops first. *)
Record builder := mk_builder { keystack : list string; stack : list Variant }.
Implicit Types (b : builder).
Definition InObject b : bool := match stack b with v :: _ => IsObject v | [] => false end.
Definition InArray b : bool := match stack b with VArray _ :: _ => true | _ => false end.
(** [stack.top() = v] where there is a top, and [pop]. *)
Definition top_of {A} (l : list A) : res (A * list A) := match l with v :: l => Ok (v, l) | [] => Err OutOfBounds end.
Definition AddValue b (val : Variant) : res (builder * bool) :=
  if InObject b then
    match keystack b with
    | [] => Ok (b, false)
    | key :: keys =>
        '(v, rest) ← top_of (stack b);
        t ← Contains v key;
        match t with
        | NullType => v ← Set_at v key val; Ok (mk_builder keys (v :: rest), true)
        | _ => Ok (b, false)
        end
    end
  else if InArray b then
    '(v, rest) ← top_of (stack b); v ← Append v val; Ok (mk_builder (keystack b) (v :: rest), true)
  else Ok (mk_builder (keystack b) (val :: stack b), true).
Definition ArrayBegin b : res (builder * bool) := Ok (mk_builder (keystack b) (VArray [] :: stack b), true).
Definition ArrayEnd b : res (builder * bool) :=
  '(v, rest) ← top_of (stack b);
  match v with VArray _ => AddValue (mk_builder (keystack b) rest) v | _ => Ok (b, false) end.
Definition ObjectBegin b : res (builder * bool) := Ok (mk_builder (keystack b) (VObject [] :: stack b), true).
Definition ObjectEnd b : res (builder * bool) :=
  '(v, rest) ← top_of (stack b);
  if IsObject v then AddValue (mk_builder (keystack b) rest) v else Ok (b, false).
Definition Integer b (value : Z) : res (builder * bool) := AddValue b (of_Z value).
Definition Float b (value : F) : res (builder * bool) := AddValue b (VNumber value).
Definition String_ b (str : list Z) : res (builder * bool) := AddValue b (VString (string_of str)).
Definition Null b : res (builder * bool) := AddValue b VNull.
Definition True_ b : res (builder * bool) := AddValue b VTrue.
Definition False_ b : res (builder * bool) := AddValue b VFalse.
Definition Key b (str : list Z) : res (builder * bool) :=
  if InObject b then Ok (mk_builder (string_of str :: keystack b) (stack b), true) else Ok (b, false).
#[export] Instance JSONToVariant : Handler F builder := λ b e,
  match e with
  | ARRAY_BEGIN => ArrayBegin b | ARRAY_END => ArrayEnd b
  | OBJECT_BEGIN => ObjectBegin b | OBJECT_END => ObjectEnd b
  | INTEGER z => Integer b z | FLOAT x => Float b x | NULL => Null b | TRUE => True_ b | FALSE => False_ b
  | STRING s => String_ b s | KEY s => Key b s
  end.
Definition new_JSONToVariant : Parser builder := new_Parser (mk_builder [] []).
Definition JSONToVariant_Reset (p : Parser builder) : Parser builder := Reset (mk_builder [] []).
Definition Get (p : Parser builder) : res Variant := '(v, _) ← top_of (stack (derived p)); Ok v.

Context (strtod : list Z → F) (decimal_point : Z).
Definition finish (p : Parser builder) : res Variant := assert (Done p) ;; Get p.
Definition VariantFromJSON (json : list Z) : res Variant :=
  '(p, _) ← Parse strtod decimal_point new_JSONToVariant json; finish p.
(** From a stream, with what is left in it. *)
Definition VariantFromJSON_stream (is_ : list Z) : res (Variant * list Z) :=
  '(p, rest) ← ParseStream strtod decimal_point new_JSONToVariant is_; v ← finish p; Ok (v, rest).
End json.

(** ** Reading what was printed *)
Section round_trip.
Context {F : Type} `{LongDouble F} (strtod : list Z → F).
Notation Variant := (Variant F).
Notation builder := (@builder F).
Implicit Types (v : Variant) (c : Z * builder).

(** One character, in the middle of a text: that is not the end of it. *)
Definition middle (r : res result) : res result :=
  and_then r (λ jc c, Ok (jc, c, negb ((JSON_parser_done jc).2 && (c.1 =? 0)))).
Definition char_step (jc : JSON_parser) c (ch : Z) : res result := middle (JSON_parser_char strtod 46 Callback jc c ch).
Lemma char_eq jc c ch cl : classify ch = Some cl →
  JSON_parser_char strtod 46 Callback jc c ch = ('(jc, b) ← add_char_to_parse_buffer jc ch cl;
    if negb b then Ok (jc, c, false) else
    match state_transition_table (jstate jc) cl with
    | To s => Ok (set_state jc s, c, true)
    | Act a => perform strtod 46 Callback a jc c
    | Bad => Ok (jc, c, false)
    end).
Proof. intros E. unfold JSON_parser_char. by rewrite E. Qed.
Fixpoint feed (jc : JSON_parser) c (l : list Z) : res result :=
  match l with [] => Ok (jc, c, true) | ch :: l => and_then (char_step jc c ch) (λ jc c, feed jc c l) end.
Lemma feed_app jc c l1 l2 jc' c' : feed jc c l1 = Ok (jc', c', true) → feed jc c (l1 ++ l2) = feed jc' c' l2.
Proof.
  revert jc c. induction l1 as [|ch l1 IH]; intros jc c; cbn.
  - by intros [= -> ->].
  - unfold and_then, mbind, res_bind. destruct (char_step jc c ch) as [[[jc1 c1] []]|]; [apply IH|done|done].
Qed.
Lemma feed_cons jc c ch l jc' c' : char_step jc c ch = Ok (jc', c', true) → feed jc c (ch :: l) = feed jc' c' l.
Proof. intros E. cbn. unfold and_then, mbind, res_bind. by rewrite E. Qed.

Lemma feed_one jc c ch r : char_step jc c ch = Ok r → r.2 = true → feed jc c [ch] = Ok r.
Proof. intros E Hr. cbn. unfold and_then, mbind, res_bind. rewrite E. destruct r as [[? ?] ?]. cbn in Hr. by subst. Qed.

(** The step for a character of a class that is known. *)
Ltac read cl := unfold char_step; rewrite (char_eq _ _ _ cl) by reflexivity; cbn -[Callback u8 reverse digits].

(** Between two pieces of text. *)
Definition P (s : state) (t : JSON_type) (l : list mode) (b : list Z) : JSON_parser := mk_parser s GO t false false true 0 (-1) l b.
Definition blank (ch : Z) : Prop := ch = 32 ∨ ch = 10.
Definition inner (m : mode) : Prop := m = MODE_ARRAY ∨ m = MODE_OBJECT.
Definition at_value (s : state) : Prop := s = VA ∨ s = AR.

Lemma blank_between s m l c ch : s ∈ [OK; OB; KE; CO; VA; AR] → m ≠ MODE_DONE → blank ch →
  char_step (P s T_NONE (m :: l) []) c ch = Ok (P s T_NONE (m :: l) [], c, true).
Proof.
  intros Hs Hm Hb. repeat (apply elem_of_cons in Hs as [-> | Hs]); [..|by apply not_elem_of_nil in Hs];
    (destruct Hb as [-> | ->]; destruct m; solve [reflexivity | done]).
Qed.
Lemma blanks_between s m l c w : s ∈ [OK; OB; KE; CO; VA; AR] → m ≠ MODE_DONE → Forall blank w →
  feed (P s T_NONE (m :: l) []) c w = Ok (P s T_NONE (m :: l) [], c, true).
Proof.
  intros Hs Hm. induction 1 as [|ch w Hb Hw IH]; [done|]. by rewrite (feed_cons _ _ _ _ _ _ (blank_between s m l c ch Hs Hm Hb)).
Qed.

(** *** Strings *)
Definition byte (ch : Z) : Prop := 0 < ch < 256.
Lemma bytes_all (Q : Z → Prop) : Forall Q (Z.of_nat <$> seq 1 255) → ∀ ch, byte ch → Q ch.
Proof.
  intros Hq ch Hb. rewrite Forall_forall in Hq. apply Hq, list_elem_of_fmap. exists (Z.to_nat ch). unfold byte in Hb.
  split; [lia|]. apply elem_of_seq. lia.
Qed.
Lemma insert_char_read l b c ch : byte ch →
  feed (P ST T_STRING l b) c (insert_char ch) = Ok (P ST T_STRING l (ch :: b), c, true).
Proof. revert ch. apply bytes_all. repeat (apply Forall_cons; split; [vm_compute; reflexivity|]). by apply Forall_nil. Qed.

Lemma inserted_read l c s : ∀ b, Forall byte s →
  feed (P ST T_STRING l b) c (concat (insert_char <$> s)) = Ok (P ST T_STRING l (reverse s ++ b), c, true).
Proof.
  induction s as [|ch s IH]; intros b Hs; [done|]. apply Forall_cons in Hs as [Hc Hs].
  rewrite fmap_cons. cbn [concat]. rewrite (feed_app _ _ _ _ _ _ (insert_char_read l b c ch Hc)), IH by done.
  rewrite reverse_cons, <- app_assoc. done.
Qed.

(** Strings that C strings can hold. *)
Definition plain_string (s : string) : Prop := Forall byte (chars s).
Lemma c_string_id s : Forall byte s → c_string s = s.
Proof.
  induction 1 as [|ch s Hc Hs IH]; [done|]. cbn. rewrite (proj2 (Z.eqb_neq _ _)) by (unfold byte in Hc; lia). by rewrite IH.
Qed.
Lemma string_of_chars s : string_of (chars s) = s.
Proof.
  unfold string_of, chars. rewrite <- list_fmap_compose. rewrite <- (String.string_of_list_ascii_of_string s) at 2. f_equal.
  rewrite <- (list_fmap_id (String.list_ascii_of_string s)) at 2. apply list_fmap_ext. intros i a _. cbn. unfold code.
  by rewrite Nat2Z.id, Ascii.ascii_nat_embedding.
Qed.

(** The context afterwards, when an event is accepted. *)
Definition accepts c (e : event F) c' : Prop := Callback c e = Ok (c', true).
Lemma quote_read s l c : s ∈ [VA; AR; OB; KE] → char_step (P s T_NONE l []) c 34 = Ok (P ST T_STRING l [], c, true).
Proof.
  intros Hs. repeat (apply elem_of_cons in Hs as [-> | Hs]; [reflexivity|]). by apply not_elem_of_nil in Hs.
Qed.
Lemma string_read s m l c c' str : at_value s → inner m → plain_string str → accepts c (STRING (chars str)) c' →
  feed (P s T_NONE (m :: l) []) c (InsertString str) = Ok (P OK T_NONE (m :: l) [], c', true).
Proof.
  intros Hs Hm Hp Ha. unfold InsertString. rewrite c_string_id by done. cbn [app].
  rewrite (feed_cons _ _ _ _ _ _ (quote_read s (m :: l) c ltac:(destruct Hs as [-> | ->]; set_solver))).
  rewrite (feed_app _ _ _ _ _ _ (inserted_read (m :: l) c (chars str) [] Hp)). apply feed_one; [|done]. rewrite app_nil_r.
  unfold accepts in Ha. destruct Hm as [-> | ->]; read C_QUOTE; unfold call; rewrite ?reverse_involutive, Ha; reflexivity.
Qed.

Lemma key_read s l c c' k : s = OB ∨ s = KE → plain_string k → accepts c (KEY (chars k)) c' →
  feed (P s T_NONE (MODE_KEY :: l) []) c (InsertString k ++ OBJ_SEP) = Ok (P VA T_NONE (MODE_OBJECT :: l) [], c', true).
Proof.
  intros Hs Hp Ha. unfold InsertString. rewrite c_string_id by done. rewrite <- !app_assoc. cbn [app].
  rewrite (feed_cons _ _ _ _ _ _ (quote_read s (MODE_KEY :: l) c ltac:(destruct Hs as [-> | ->]; set_solver))).
  rewrite (feed_app _ _ _ _ _ _ (inserted_read (MODE_KEY :: l) c (chars k) [] Hp)). rewrite app_nil_r.
  assert (E : char_step (P ST T_STRING (MODE_KEY :: l) (reverse (chars k))) c 34 = Ok (P CO T_NONE (MODE_KEY :: l) [], c', true)).
  { unfold accepts in Ha. read C_QUOTE. unfold call. rewrite reverse_involutive, Ha. reflexivity. }
  rewrite (feed_cons _ _ _ _ _ _ E). reflexivity.
Qed.

(** *** A value that was read, or that the character after it shows to be *)
Definition afters : list state := [OK; ZE; IT; FR; FX; E3].
Definition value_of (t : JSON_type) (b : list Z) c c' : Prop :=
  ∀ s l w, Forall blank w → (t = T_NONE → w = []) →
    parse_parse_buffer strtod Callback (P s t l (w ++ b)) c = Ok (P s t l [], c', true).
Inductive after_value (l : list mode) c' : JSON_parser → Z * builder → Prop :=
  | AV s t b c : s ∈ afters → t ≠ T_STRING → (t = T_NONE → b = []) → value_of t b c c' → after_value l c' (P s t l b) c.

Lemma after_none l c : after_value l c (P OK T_NONE l []) c.
Proof. constructor; [by left|done|done|]. intros s l' w _ Hw. by rewrite (Hw eq_refl). Qed.
Lemma after_blank m l c' jc c ch : m ≠ MODE_DONE → after_value (m :: l) c' jc c → blank ch →
  ∃ jc', char_step jc c ch = Ok (jc', c, true) ∧ after_value (m :: l) c' jc' c.
Proof.
  intros Hm [s t b c0 Hs Ht Hb Hv] Hc. exists (P OK t (m :: l) (if decide (t = T_NONE) then b else ch :: b)).
  split.
  - destruct (decide (t = T_NONE)) as [->|Hne].
    + unfold afters in Hs. repeat (apply elem_of_cons in Hs as [-> | Hs]); try (by apply not_elem_of_nil in Hs);
        destruct Hc as [-> | ->]; rewrite (Hb eq_refl); destruct m; solve [reflexivity | done].
    + unfold afters in Hs. repeat (apply elem_of_cons in Hs as [-> | Hs]); try (by apply not_elem_of_nil in Hs);
        destruct Hc as [-> | ->]; destruct t; try done; destruct m; solve [reflexivity | done].
  - constructor; [by left|done|by intros ->; rewrite decide_True; auto|]. intros s' l' w Hw Hn.
    destruct (decide (t = T_NONE)) as [->|Hne]; [by apply Hv|].
    replace (w ++ ch :: b) with ((w ++ [ch]) ++ b) by by rewrite <- app_assoc.
    apply Hv; [|done]. apply Forall_app. split; [done|by apply Forall_singleton].
Qed.
Lemma after_blanks m l c' w : m ≠ MODE_DONE → Forall blank w → ∀ jc c, after_value (m :: l) c' jc c →
  ∃ jc', feed jc c w = Ok (jc', c, true) ∧ after_value (m :: l) c' jc' c.
Proof.
  intros Hm. induction 1 as [|ch w Hc Hw IH]; intros jc c Ha; [by exists jc|].
  destruct (after_blank m l c' jc c ch Hm Ha Hc) as (jc1 & E & Ha1). rewrite (feed_cons _ _ _ _ _ _ E). by apply IH.
Qed.

(** What ends a value: its event comes first. *)
Lemma after_char l c' jc c ch cl a : after_value l c' jc c → classify ch = Some cl → is_white cl = false →
  (∀ s, s ∈ afters → state_transition_table s cl = Act a) →
  ∃ s t b, t ≠ T_STRING ∧ JSON_parser_char strtod 46 Callback jc c ch = perform strtod 46 Callback a (P s t l (u8 ch :: b)) c ∧
    parse_parse_buffer strtod Callback (P s t l b) c = Ok (P s t l [], c', true).
Proof.
  intros [s t b c0 Hs Ht Hb Hv] Hc Hw Ha. exists s, t, b. split; [done|]. split; [|by apply (Hv s l [])].
  rewrite (char_eq _ _ _ _ Hc). unfold add_char_to_parse_buffer. cbn [P escaped comment type].
  rewrite Hw. replace (match t with T_NONE => false | _ => false end) with false by by destruct t.
  unfold mbind at 1, res_bind at 1. cbn [negb]. by rewrite Ha.
Qed.
Lemma in_afters (Q : state → Prop) : Forall Q afters → ∀ s, s ∈ afters → Q s.
Proof. by rewrite Forall_forall. Qed.
Lemma comma_array l c' jc c : after_value (MODE_ARRAY :: l) c' jc c →
  char_step jc c 44 = Ok (P VA T_NONE (MODE_ARRAY :: l) [], c', true).
Proof.
  intros Ha. destruct (after_char _ _ _ _ 44 C_COMMA AComma Ha) as (s & t & b & Ht & Ec & E); [done..| |].
  { apply in_afters. by repeat constructor. }
  unfold char_step. rewrite Ec. cbn [perform]. unfold parse_buffer_pop_back_char, mbind, res_bind. cbn [P parse_buffer set_buffer].
  change (set_buffer _ b) with (P s t (MODE_ARRAY :: l) b). unfold and_then at 1, mbind, res_bind. rewrite E.
  by destruct t.
Qed.
Lemma comma_object l c' jc c : after_value (MODE_OBJECT :: l) c' jc c →
  char_step jc c 44 = Ok (P KE T_NONE (MODE_KEY :: l) [], c', true).
Proof.
  intros Ha. destruct (after_char _ _ _ _ 44 C_COMMA AComma Ha) as (s & t & b & Ht & Ec & E); [done..| |].
  { apply in_afters. by repeat constructor. }
  unfold char_step. rewrite Ec. cbn [perform]. unfold parse_buffer_pop_back_char, mbind, res_bind. cbn [P parse_buffer set_buffer].
  change (set_buffer _ b) with (P s t (MODE_OBJECT :: l) b). unfold and_then at 1, mbind, res_bind. rewrite E.
  by destruct t.
Qed.

(** A container that only its bracket is missing to. *)
Definition closes (ch : Z) (e : event F) l c' jc c : Prop :=
  ∀ c2, accepts c' e c2 → JSON_parser_char strtod 46 Callback jc c ch = Ok (P OK T_NONE l [], c2, true).
Lemma close_array l c' jc c : after_value (MODE_ARRAY :: l) c' jc c → closes 93 ARRAY_END l c' jc c.
Proof.
  intros Ha c2 Hc. destruct (after_char _ _ _ _ 93 C_RSQRB AArrEnd Ha) as (s & t & b & Ht & -> & E); [done..| |].
  { apply in_afters. by repeat constructor. }
  cbn [perform]. unfold parse_buffer_pop_back_char, mbind, res_bind. cbn [P parse_buffer set_buffer].
  change (set_buffer _ b) with (P s t (MODE_ARRAY :: l) b). unfold and_then at 1 2, mbind, res_bind. rewrite E.
  unfold call, mbind, res_bind. by rewrite Hc.
Qed.
Lemma close_object l c' jc c : after_value (MODE_OBJECT :: l) c' jc c → closes 125 OBJECT_END l c' jc c.
Proof.
  intros Ha c2 Hc. destruct (after_char _ _ _ _ 125 C_RCURB AObjEnd Ha) as (s & t & b & Ht & -> & E); [done..| |].
  { apply in_afters. by repeat constructor. }
  cbn [perform]. unfold parse_buffer_pop_back_char, mbind, res_bind. cbn [P parse_buffer set_buffer].
  change (set_buffer _ b) with (P s t (MODE_OBJECT :: l) b). unfold and_then at 1 2, mbind, res_bind. rewrite E.
  unfold call, mbind, res_bind. by rewrite Hc.
Qed.
Lemma close_empty_array l c : closes 93 ARRAY_END l c (P AR T_NONE (MODE_ARRAY :: l) []) c.
Proof. intros c2 Hc. rewrite (char_eq _ _ _ C_RSQRB) by reflexivity. cbn -[Callback u8]. unfold call, mbind, res_bind. by rewrite Hc. Qed.
Lemma close_empty_object l c : closes 125 OBJECT_END l c (P OB T_NONE (MODE_KEY :: l) []) c.
Proof. intros c2 Hc. rewrite (char_eq _ _ _ C_RCURB) by reflexivity. cbn -[Callback u8]. unfold call, mbind, res_bind. by rewrite Hc. Qed.

(** *** Words and numbers *)
Lemma value_of_event t b c c' e : (∀ s l w, Forall blank w → (t = T_NONE → w = []) → pending strtod (P s t l (w ++ b)) = Some e) →
  accepts c e c' → value_of t b c c'.
Proof.
  intros Hp Ha s l w Hw Hn. unfold parse_parse_buffer. rewrite (Hp s l w Hw Hn). unfold call, and_then, mbind, res_bind.
  by rewrite Ha.
Qed.
Definition reads_to (jc : JSON_parser) c (text : list Z) l c' : Prop :=
  ∃ jc' c1, feed jc c text = Ok (jc', c1, true) ∧ after_value l c' jc' c1.
Lemma word_read s m l c c' v e : at_value s → inner m → (v, e) ∈ [(VNull, NULL); (VTrue, TRUE); (VFalse, FALSE)] →
  accepts c e c' → ∀ pretty level, reads_to (P s T_NONE (m :: l) []) c (VariantToJSON_level pretty level v) (m :: l) c'.
Proof.
  intros Hs Hm Hv Ha pretty level.
  assert (∃ t b, feed (P s T_NONE (m :: l) []) c (VariantToJSON_level pretty level v) = Ok (P OK t (m :: l) b, c, true) ∧
    t ≠ T_STRING ∧ t ≠ T_NONE ∧ ∀ s l w, pending strtod (P s t l (w ++ b)) = Some e) as (t & b & E & H1 & H2 & H3).
  { repeat (apply elem_of_cons in Hv as [[= -> ->] | Hv]); [exists T_NULL, (reverse (chars "null"))|exists T_TRUE, (reverse (chars "true"))|exists T_FALSE, (reverse (chars "false"))|by apply not_elem_of_nil in Hv];
      (split; [destruct Hs as [-> | ->], Hm as [-> | ->]; vm_compute; reflexivity|done]). }
  exists (P OK t (m :: l) b), c. split; [done|]. constructor; [by left|done|done|]. by eapply value_of_event.
Qed.

Definition digit (ch : Z) : Prop := 48 ≤ ch ≤ 57.
Lemma digit_all (Q : Z → Prop) : Forall Q [48; 49; 50; 51; 52; 53; 54; 55; 56; 57] → ∀ ch, digit ch → Q ch.
Proof.
  intros Hq ch Hd. rewrite Forall_forall in Hq. apply Hq. unfold digit in Hd.
  assert (ch = 48 ∨ ch = 49 ∨ ch = 50 ∨ ch = 51 ∨ ch = 52 ∨ ch = 53 ∨ ch = 54 ∨ ch = 55 ∨ ch = 56 ∨ ch = 57) as Hc by lia.
  set_solver.
Qed.
(** The numbers of JSON, but for a zero with an exponent. *)
Definition int_text (s : list Z) : Prop := s = [48] ∨ ∃ d ds, s = d :: ds ∧ digit d ∧ d ≠ 48 ∧ Forall digit ds.
Definition frac_text (s : list Z) : Prop := ∃ d ds, s = 46 :: d :: ds ∧ digit d ∧ Forall digit ds.
Definition exp_text (s : list Z) : Prop :=
  ∃ e sg d ds, s = e :: sg ++ d :: ds ∧ (e = 101 ∨ e = 69) ∧ (sg = [] ∨ sg = [43] ∨ sg = [45]) ∧ digit d ∧ Forall digit ds.
Inductive number_text : JSON_type → list Z → Prop :=
  | N_int sg i : sg = [] ∨ sg = [45] → int_text i → number_text T_INTEGER (sg ++ i)
  | N_frac sg i f : sg = [] ∨ sg = [45] → int_text i → frac_text f → number_text T_FLOAT (sg ++ i ++ f)
  | N_frac_exp sg i f e : sg = [] ∨ sg = [45] → int_text i → frac_text f → exp_text e → number_text T_FLOAT (sg ++ i ++ f ++ e)
  | N_exp sg i e : sg = [] ∨ sg = [45] → int_text i → i ≠ [48] → exp_text e → number_text T_FLOAT (sg ++ i ++ e).

(** [text] is read from the one to the other of two places in a number. *)
Definition moves (s : state) (t : JSON_type) (text : list Z) (s' : state) (t' : JSON_type) : Prop :=
  ∀ l b c, feed (P s t l b) c text = Ok (P s' t' l (reverse text ++ b), c, true).
Lemma moves_app s t x s1 t1 y s2 t2 : moves s t x s1 t1 → moves s1 t1 y s2 t2 → moves s t (x ++ y) s2 t2.
Proof. intros Hx Hy l b c. rewrite (feed_app _ _ _ _ _ _ (Hx l b c)), Hy, reverse_app, <- app_assoc. done. Qed.
Lemma moves_cons s t ch s1 t1 y s2 t2 : moves s t [ch] s1 t1 → moves s1 t1 y s2 t2 → moves s t (ch :: y) s2 t2.
Proof. intros Hx Hy. by apply (moves_app s t [ch] s1 t1). Qed.
Ltac by_moves := intros ? ? ?; vm_compute; reflexivity.
Lemma moves_nil s t : moves s t [] s t.
Proof. done. Qed.
Lemma digits_move s t ds : (s, t) ∈ [(IT, T_INTEGER); (FR, T_FLOAT); (E3, T_FLOAT)] → Forall digit ds → moves s t ds s t.
Proof.
  intros Hs. induction 1 as [|d ds Hd _ IH]; [apply moves_nil|]. eapply moves_cons; [|exact IH]. clear IH.
  revert d Hd. apply digit_all.
  repeat (apply elem_of_cons in Hs as [[= -> ->] | Hs]); [..|by apply not_elem_of_nil in Hs];
    repeat (apply Forall_cons; split; [by_moves|]); by apply Forall_nil.
Qed.
Lemma int_moves s t i : (s, t) ∈ [(VA, T_NONE); (AR, T_NONE); (MI, T_INTEGER)] → int_text i →
  ∃ s', moves s t i s' T_INTEGER ∧ (s' = ZE ∨ s' = IT) ∧ (i ≠ [48] → s' = IT).
Proof.
  intros Hs [-> | (d & ds & -> & Hd & Hne & Hds)].
  - exists ZE. split; [|by split; [left|]].
    repeat (apply elem_of_cons in Hs as [[= -> ->] | Hs]); [..|by apply not_elem_of_nil in Hs]; by_moves.
  - exists IT. split; [|by split; [right|]]. eapply moves_cons; [|apply (digits_move IT T_INTEGER); [set_solver|done]].
    clear Hds. revert d Hd Hne. apply (digit_all (λ d, d ≠ 48 → moves s t [d] IT T_INTEGER)).
    repeat (apply elem_of_cons in Hs as [[= -> ->] | Hs]); [..|by apply not_elem_of_nil in Hs];
      (apply Forall_cons; split; [done|]); repeat (apply Forall_cons; split; [intros _; by_moves|]); by apply Forall_nil.
Qed.
Lemma frac_moves s f : s = ZE ∨ s = IT → frac_text f → moves s T_INTEGER f FR T_FLOAT.
Proof.
  intros Hs (d & ds & -> & Hd & Hds). apply (moves_cons _ _ _ FX T_FLOAT); [destruct Hs as [-> | ->]; by_moves|].
  apply (moves_cons _ _ _ FR T_FLOAT); [|apply digits_move; [set_solver|done]].
  revert d Hd. apply digit_all. repeat (apply Forall_cons; split; [by_moves|]); by apply Forall_nil.
Qed.
Lemma exp_moves s t e : (s, t) ∈ [(IT, T_INTEGER); (FR, T_FLOAT)] → exp_text e → moves s t e E3 T_FLOAT.
Proof.
  intros Hs (ec & sg & d & ds & -> & He & Hsg & Hd & Hds). apply (moves_cons _ _ _ E1 T_FLOAT).
  { repeat (apply elem_of_cons in Hs as [[= -> ->] | Hs]); [..|by apply not_elem_of_nil in Hs]; destruct He as [-> | ->]; by_moves. }
  assert (Hd3 : ∀ s, s = E1 ∨ s = E2 → moves s T_FLOAT (d :: ds) E3 T_FLOAT).
  { intros s' Hs'. apply (moves_cons _ _ _ E3 T_FLOAT); [|apply digits_move; [set_solver|done]].
    revert d Hd. apply digit_all. destruct Hs' as [-> | ->]; repeat (apply Forall_cons; split; [by_moves|]); by apply Forall_nil. }
  destruct Hsg as [-> | [-> | ->]]; [by apply Hd3; left|..]; (apply (moves_app _ _ _ E2 T_FLOAT); [by_moves|by apply Hd3; right]).
Qed.
Lemma number_moves s t text : at_value s → number_text t text → ∃ s', moves s T_NONE text s' t ∧ s' ∈ [ZE; IT; FR; E3].
Proof.
  intros Hs Ht.
  assert (Hi : ∀ sg i, sg = [] ∨ sg = [45] → int_text i →
    ∃ s', moves s T_NONE (sg ++ i) s' T_INTEGER ∧ (s' = ZE ∨ s' = IT) ∧ (i ≠ [48] → s' = IT)).
  { intros sg i Hsg Hi. destruct Hsg as [-> | ->].
    - apply int_moves; [|done]. destruct Hs as [-> | ->]; set_solver.
    - destruct (int_moves MI T_INTEGER i ltac:(set_solver) Hi) as (s' & Hm & Hr). exists s'. split; [|done].
      apply (moves_app _ _ _ MI T_INTEGER); [|done]. destruct Hs as [-> | ->]; by_moves. }
  destruct Ht as [sg i Hsg Hti|sg i f Hsg Hti Hf|sg i f e Hsg Hti Hf He|sg i e Hsg Hti Hz He];
    destruct (Hi sg i Hsg Hti) as (s1 & Hm & H1 & H2); rewrite ?app_assoc.
  - exists s1. split; [done|]. set_solver.
  - exists FR. split; [|set_solver]. eapply moves_app; [done|]. by apply frac_moves.
  - exists E3. split; [|set_solver]. eapply moves_app; [eapply moves_app; [done|by apply frac_moves]|].
    apply exp_moves; [set_solver|done].
  - exists E3. split; [|set_solver]. rewrite (H2 Hz) in Hm. eapply moves_app; [done|]. apply exp_moves; [set_solver|done].
Qed.

(** A number whose text is one of JSON, and is read back as that number. *)
Definition prints (n : F) : Prop :=
  (number_text T_INTEGER (chars (ld_print n)) ∧ ld_of_Z (sscanf_integer (chars (ld_print n))) = n) ∨
  (number_text T_FLOAT (chars (ld_print n)) ∧ strtod (chars (ld_print n)) = n).
(** [strtod] stops at white space. *)
Hypothesis strtod_blanks : ∀ text w, Forall blank w → strtod (text ++ w) = strtod text.

Lemma digits_blanks w acc ds : Forall digit ds → Forall blank w → digits acc (ds ++ w) = digits acc ds.
Proof.
  intros Hd Hw. revert acc. induction Hd as [|d ds Hd _ IH]; intros acc; cbn.
  - destruct Hw as [|ch w Hc _]; [done|]. cbn. by destruct Hc as [-> | ->].
  - destruct (isdigit d); [apply IH|done].
Qed.
Lemma int_digits i : int_text i → Forall digit i ∧ ∃ d ds, i = d :: ds ∧ d ≠ 45.
Proof.
  intros [-> | (d & ds & -> & Hd & _ & Hds)].
  - split; [|by exists 48, []]. apply Forall_singleton. unfold digit. lia.
  - split; [by constructor|]. exists d, ds. split; [done|]. unfold digit in Hd. lia.
Qed.
Lemma sscanf_blanks text w : number_text T_INTEGER text → Forall blank w → sscanf_integer (text ++ w) = sscanf_integer text.
Proof.
  intros Ht Hw. inversion Ht as [sg i Hsg Hi E1 E2| | |]; subst. destruct (int_digits i Hi) as [Hd (d & ds & -> & Hne)].
  unfold sscanf_integer. destruct Hsg as [-> | ->]; cbn [app].
  - rewrite (proj2 (Z.eqb_neq d 45) Hne). change (d :: ds ++ w) with ((d :: ds) ++ w). by rewrite digits_blanks.
  - rewrite Z.eqb_refl. change (d :: ds ++ w) with ((d :: ds) ++ w). by rewrite digits_blanks.
Qed.
Lemma number_read s m l c c' n : at_value s →
  (number_text T_INTEGER (chars (ld_print n)) ∧ accepts c (INTEGER (sscanf_integer (chars (ld_print n)))) c') ∨
  (number_text T_FLOAT (chars (ld_print n)) ∧ accepts c (FLOAT (strtod (chars (ld_print n)))) c') →
  reads_to (P s T_NONE (m :: l) []) c (chars (ld_print n)) (m :: l) c'.
Proof.
  intros Hs Hn.
  assert (∃ t e, number_text t (chars (ld_print n)) ∧ accepts c e c' ∧ t ≠ T_STRING ∧ t ≠ T_NONE ∧
    ∀ s l w, Forall blank w → pending strtod (P s t l (w ++ reverse (chars (ld_print n)))) = Some e)
    as (t & e & Ht & Ha & H1 & H2 & He).
  { destruct Hn as [[Ht Ha] | [Ht Ha]]; eexists _, _; (split; [exact Ht|]; split; [exact Ha|]; split_and!; [done..|]);
      intros s' l' w Hw; unfold pending; cbn [P type parse_buffer]; rewrite reverse_app, reverse_involutive.
    - by rewrite sscanf_blanks by (done || by apply Forall_reverse).
    - by rewrite strtod_blanks by by apply Forall_reverse. }
  destruct (number_moves s t _ Hs Ht) as (s' & Hm & Hs'). exists (P s' t (m :: l) (reverse (chars (ld_print n)))), c.
  specialize (Hm (m :: l) [] c). rewrite app_nil_r in Hm. split; [done|].
  constructor; [unfold afters; set_solver|done|done|]. eapply value_of_event; [|done]. auto.
Qed.

(** *** Whole values *)
Fixpoint printable v : Prop :=
  match v with
  | VNumber n => prints n
  | VString s => plain_string s
  | VArray l => (fix all (l : list Variant) := match l with [] => True | x :: l => printable x ∧ all l end) l
  | VObject m => (fix all (m : list (string * Variant)) :=
                    match m with [] => True | (k, x) :: m => (plain_string k ∧ printable x) ∧ all m end) m
  | _ => True
  end.
Lemma printable_array l : printable (VArray l) ↔ Forall printable l.
Proof. induction l as [|a l IH]; [done|]. rewrite Forall_cons, <- IH. done. Qed.
Lemma printable_object m : printable (VObject m) ↔ Forall (λ e, plain_string e.1 ∧ printable e.2) m.
Proof. induction m as [|[k a] m IH]; [done|]. rewrite Forall_cons, <- IH. done. Qed.
Lemma variant_ind (Q : Variant → Prop) :
  Q VNull → Q VTrue → Q VFalse → (∀ n, Q (VNumber n)) → (∀ s, Q (VString s)) →
  (∀ l, Forall Q l → Q (VArray l)) → (∀ m, Forall (λ e, Q e.2) m → Q (VObject m)) → ∀ v, Q v.
Proof.
  intros H1 H2 H3 H4 H5 H6 H7. fix IH 1. intros [| | |n|s|l|m]; [done..| |].
  - apply H6. induction l; constructor; [apply IH|done].
  - apply H7. induction m as [|[k x] m]; constructor; [apply IH|done].
Qed.

Definition indentation (pretty : bool) (level : Z) : list Z := if pretty then InsertIndent level else [].
Definition sep_rest (pretty : bool) (level : Z) (items : list (list Z)) : list Z :=
  concat ((λ x, VAL_SEP ++ indentation pretty level ++ x) <$> items).
Lemma separated_cons pretty level x items :
  separated pretty level (x :: items) = indentation pretty level ++ x ++ sep_rest pretty level items.
Proof.
  unfold separated, sep_rest. rewrite imap_cons. cbn [concat]. rewrite bool_decide_true by done. cbn [app].
  rewrite <- app_assoc. do 3 f_equal.
  enough (∀ f : nat → list Z → list Z, (∀ i y, f i y = VAL_SEP ++ indentation pretty level ++ y) →
    imap f items = (λ y, VAL_SEP ++ indentation pretty level ++ y) <$> items) as E by by apply E.
  clear. induction items as [|y items IH]; intros f Hf; [done|]. rewrite imap_cons, fmap_cons, Hf. f_equal. apply IH.
  intros i z. apply Hf.
Qed.
Lemma print_array pretty level l : VariantToJSON_level pretty level (VArray l) =
  91 :: separated pretty level (VariantToJSON_level pretty (u32 (level + 1)) <$> l) ++ closing pretty level ++ [93].
Proof. reflexivity. Qed.
Definition print_entry pretty level (e : string * Variant) : list Z :=
  InsertString e.1 ++ OBJ_SEP ++ VariantToJSON_level pretty (u32 (level + 1)) e.2.
Lemma print_object pretty level m : VariantToJSON_level pretty level (VObject m) =
  123 :: separated pretty level (print_entry pretty level <$> m) ++ closing pretty level ++ [125].
Proof.
  change (VariantToJSON_level pretty level (VObject m)) with (123 :: separated pretty level
    ((fix items (m : list (string * Variant)) := match m with
      | [] => [] | (k, x) :: m => (InsertString k ++ OBJ_SEP ++ VariantToJSON_level pretty (u32 (level + 1)) x) :: items m
      end) m) ++ closing pretty level ++ [125]).
  do 3 f_equal. induction m as [|[k x] m IH]; [done|]. by rewrite IH.
Qed.
Lemma spaces_blank n : Forall blank (spaces n).
Proof. apply Forall_replicate. by left. Qed.
Lemma indent_blank fuel : ∀ level, Forall blank (indent fuel level).
Proof.
  induction fuel as [|fuel IH]; intros level; cbn; [done|]. destruct (level <=? 0); [done|].
  destruct (level <? 16); [apply spaces_blank|]. apply Forall_app. split; [apply spaces_blank|apply IH].
Qed.
Lemma indentation_blank pretty level : Forall blank (indentation pretty level).
Proof. destruct pretty; [|done]. constructor; [by right|apply indent_blank]. Qed.

Lemma reads_after jc c t1 jc1 c1 t2 l c' : feed jc c t1 = Ok (jc1, c1, true) → reads_to jc1 c1 t2 l c' → reads_to jc c (t1 ++ t2) l c'.
Proof. intros E (jc2 & c2 & E2 & Ha). exists jc2, c2. by rewrite (feed_app _ _ _ _ _ _ E). Qed.
Lemma reads_then jc c t1 l1 c1 t2 l c' : reads_to jc c t1 l1 c1 →
  (∀ jc1 c2, after_value l1 c1 jc1 c2 → reads_to jc1 c2 t2 l c') → reads_to jc c (t1 ++ t2) l c'.
Proof. intros (jc1 & c2 & E & Ha) H2. by eapply reads_after, H2. Qed.

(** Where a value is expected, its text is read as an event that adds it. *)
Definition depth_ok (d : Z) : Prop := 0 ≤ d < 4294967296.
Definition reads v : Prop := ∀ pretty level s m l d b b', at_value s → inner m → depth_ok d → AddValue b v = Ok (b', true) →
  reads_to (P s T_NONE (m :: l) []) (d, b) (VariantToJSON_level pretty level v) (m :: l) (d, b').

(** The text of a container but for its last character. *)
Definition read_container s l d b (text : list Z) b' (ch : Z) : Prop :=
  ∃ jc c, feed (P s T_NONE l []) (d, b) text = Ok (jc, c, true) ∧
    JSON_parser_char strtod 46 Callback jc c ch = Ok (P OK T_NONE l [], (d, b'), true).
Definition at_start (s : state) : Prop := s = GO ∨ at_value s.

Section array.
Context (pretty : bool) (level : Z) (l : list mode) (ks : list string) (vs : list Variant).
Definition arr (acc : list Variant) : builder := mk_builder ks (VArray acc :: vs).
Definition element_text (v : Variant) : list Z := VariantToJSON_level pretty (u32 (level + 1)) v.
Lemma array_rest d xs : depth_ok d → Forall reads xs → ∀ acc jc c, after_value (MODE_ARRAY :: l) (d, arr acc) jc c →
  reads_to jc c (sep_rest pretty level (element_text <$> xs)) (MODE_ARRAY :: l) (d, arr (acc ++ xs)).
Proof.
  intros Hd. induction 1 as [|x xs Hx _ IH]; intros acc jc c Ha.
  { rewrite app_nil_r. exists jc, c. done. }
  unfold sep_rest. rewrite !fmap_cons. cbn [concat VAL_SEP]. rewrite <- app_assoc. cbn [app].
  eapply (reads_after _ _ [44]); [by apply feed_one; [apply comma_array|]|].
  eapply (reads_after _ _ [32]); [by apply blanks_between; [set_solver|done|apply Forall_singleton; left]|].
  rewrite <- app_assoc. eapply reads_after; [apply blanks_between; [set_solver|done|apply indentation_blank]|].
  eapply reads_then; [apply (Hx pretty (u32 (level + 1)) VA MODE_ARRAY l d (arr acc) (arr (acc ++ [x])));
    [by left|by left|done|reflexivity]|].
  intros jc1 c1 H1. specialize (IH _ _ _ H1). by rewrite <- app_assoc in IH.
Qed.
Lemma array_read s d b xs b' : at_start s → depth_ok d → b = mk_builder ks vs → AddValue b (VArray xs) = Ok (b', true) →
  Forall reads xs → read_container s l d b (91 :: separated pretty level (element_text <$> xs) ++ closing pretty level) b' 93.
Proof.
  intros Hs Hd -> Hv Hx. set (d1 := u32 (d + 1)). assert (Hd1 : depth_ok d1) by apply Z.mod_pos_bound, eq_refl.
  assert (E : char_step (P s T_NONE l []) (d, mk_builder ks vs) 91 = Ok (P AR T_NONE (MODE_ARRAY :: l) [], (d1, arr []), true)).
  { by destruct Hs as [-> | [-> | ->]]. }
  assert (Hend : accepts (d1, arr xs) ARRAY_END (d, b')).
  { unfold accepts, Callback, handle, JSONToVariant, ArrayEnd, arr. cbn [stack keystack top_of]. unfold mbind, res_bind.
    rewrite Hv. do 3 f_equal. unfold d1, u32, depth_ok in *. rewrite Zminus_mod_idemp_l. replace (d + 1 - 1) with d by lia.
    by apply Z.mod_small. }
  destruct xs as [|x xs].
  - exists (P AR T_NONE (MODE_ARRAY :: l) []), (d1, arr []). split; [|by apply close_empty_array].
    rewrite (feed_cons _ _ _ _ _ _ E). apply blanks_between; [set_solver|done|apply indentation_blank].
  - apply Forall_cons in Hx as [Hx Hxs]. rewrite fmap_cons, separated_cons.
    assert (reads_to (P AR T_NONE (MODE_ARRAY :: l) []) (d1, arr [])
      ((indentation pretty level ++ element_text x ++ sep_rest pretty level (element_text <$> xs)) ++ closing pretty level)
      (MODE_ARRAY :: l) (d1, arr (x :: xs))) as (jc & c & Ef & Ha).
    { rewrite <- app_assoc. eapply reads_after; [apply blanks_between; [set_solver|done|apply indentation_blank]|].
      rewrite <- app_assoc. eapply reads_then;
        [apply (Hx pretty (u32 (level + 1)) AR MODE_ARRAY l d1 (arr []) (arr [x])); [by right|by left|done|reflexivity]|].
      intros jc1 c1 H1. eapply reads_then; [by apply (array_rest d1 xs Hd1 Hxs [x])|].
      intros jc2 c2 H2. destruct (after_blanks MODE_ARRAY l _ (closing pretty level) ltac:(done) (indentation_blank pretty _) _ _ H2)
        as (jc3 & E3 & H3). by exists jc3, c2. }
    exists jc, c. split; [by rewrite (feed_cons _ _ _ _ _ _ E)|]. by apply (close_array l (d1, arr (x :: xs)) jc c Ha).
Qed.
End array.

Lemma map_find_none {A} k (acc : list (string * A)) : Forall (λ e, String.compare e.1 k = Lt) acc → map_find k acc = None.
Proof.
  induction 1 as [|[k' x] acc Hk _ IH]; cbn; [done|]. destruct (String.eqb_spec k k') as [->|]; [|done].
  cbn in Hk. by rewrite compare_self in Hk.
Qed.
Section object.
Context (pretty : bool) (level : Z) (l : list mode) (ks : list string) (vs : list Variant).
Definition fields (acc : list (string * Variant)) : builder := mk_builder ks (VObject acc :: vs).
Lemma AddValue_field acc k x : Forall (λ e, String.compare e.1 k = Lt) acc →
  AddValue (mk_builder (k :: ks) (VObject acc :: vs)) x = Ok (fields (acc ++ [(k, x)]), true).
Proof.
  intros Hacc. unfold AddValue, InObject. cbn [stack IsObject keystack top_of]. unfold mbind, res_bind. cbn [Contains].
  rewrite (map_find_none k acc Hacc), Set_at_put by by left. cbn [put]. by rewrite map_assign_last.
Qed.
Lemma entry_read s d acc k x : s = OB ∨ s = KE → depth_ok d → Forall (λ e, String.compare e.1 k = Lt) acc →
  plain_string k → reads x →
  reads_to (P s T_NONE (MODE_KEY :: l) []) (d, fields acc) (print_entry pretty level (k, x)) (MODE_OBJECT :: l) (d, fields (acc ++ [(k, x)])).
Proof.
  intros Hs Hd Hacc Hk Hx. unfold print_entry. cbn [fst snd]. rewrite app_assoc. eapply reads_after.
  - apply (key_read s l _ (d, mk_builder (k :: ks) (VObject acc :: vs)) k Hs Hk). unfold accepts, Callback, handle, JSONToVariant, Key.
    rewrite c_string_id, string_of_chars by done. reflexivity.
  - apply Hx; [by left|by right|done|by apply AddValue_field].
Qed.
Lemma object_rest d m : depth_ok d → Forall (λ e, plain_string e.1 ∧ reads e.2) m → ∀ acc jc c, map_sorted (acc ++ m) →
  after_value (MODE_OBJECT :: l) (d, fields acc) jc c →
  reads_to jc c (sep_rest pretty level (print_entry pretty level <$> m)) (MODE_OBJECT :: l) (d, fields (acc ++ m)).
Proof.
  intros Hd. induction 1 as [|[k x] m [Hk Hx] _ IH]; intros acc jc c Hs Ha.
  { rewrite app_nil_r. exists jc, c. done. }
  unfold sep_rest. rewrite !fmap_cons. cbn [concat VAL_SEP]. rewrite <- app_assoc. cbn [app].
  eapply (reads_after _ _ [44]); [by apply feed_one; [apply comma_object|]|].
  eapply (reads_after _ _ [32]); [by apply blanks_between; [set_solver|done|apply Forall_singleton; left]|].
  rewrite <- app_assoc. eapply reads_after; [apply blanks_between; [set_solver|done|apply indentation_blank]|].
  eapply reads_then; [apply (entry_read KE d acc k x); [by right|done|by apply (map_sorted_before acc m (k, x))|done|done]|].
  intros jc1 c1 H1. specialize (IH (acc ++ [(k, x)]) jc1 c1). rewrite <- !app_assoc in IH. by apply IH.
Qed.
Lemma object_read s d b m b' : at_start s → depth_ok d → b = mk_builder ks vs → AddValue b (VObject m) = Ok (b', true) →
  map_sorted m → Forall (λ e, plain_string e.1 ∧ reads e.2) m →
  read_container s l d b (123 :: separated pretty level (print_entry pretty level <$> m) ++ closing pretty level) b' 125.
Proof.
  intros Hs Hd -> Hv Hm Hx. set (d1 := u32 (d + 1)). assert (Hd1 : depth_ok d1) by apply Z.mod_pos_bound, eq_refl.
  assert (E : char_step (P s T_NONE l []) (d, mk_builder ks vs) 123 = Ok (P OB T_NONE (MODE_KEY :: l) [], (d1, fields []), true)).
  { by destruct Hs as [-> | [-> | ->]]. }
  assert (Hend : accepts (d1, fields m) OBJECT_END (d, b')).
  { unfold accepts, Callback, handle, JSONToVariant, ObjectEnd, fields. cbn [stack keystack top_of IsObject]. unfold mbind, res_bind.
    cbn [IsObject]. rewrite Hv. do 3 f_equal. unfold d1, u32, depth_ok in *. rewrite Zminus_mod_idemp_l. replace (d + 1 - 1) with d by lia.
    by apply Z.mod_small. }
  destruct m as [|[k x] m].
  - exists (P OB T_NONE (MODE_KEY :: l) []), (d1, fields []). split; [|by apply close_empty_object].
    rewrite (feed_cons _ _ _ _ _ _ E). apply blanks_between; [set_solver|done|apply indentation_blank].
  - apply Forall_cons in Hx as [[Hk Hx] Hxs]. rewrite fmap_cons, separated_cons.
    assert (reads_to (P OB T_NONE (MODE_KEY :: l) []) (d1, fields [])
      ((indentation pretty level ++ print_entry pretty level (k, x) ++ sep_rest pretty level (print_entry pretty level <$> m)) ++ closing pretty level)
      (MODE_OBJECT :: l) (d1, fields ((k, x) :: m))) as (jc & c & Ef & Ha).
    { rewrite <- app_assoc. eapply reads_after; [apply blanks_between; [set_solver|done|apply indentation_blank]|].
      rewrite <- app_assoc. eapply reads_then; [apply (entry_read OB d1 [] k x); [by left|done|done|done|done]|].
      intros jc1 c1 H1. eapply reads_then; [by apply (object_rest d1 m Hd1 Hxs [(k, x)])|].
      intros jc2 c2 H2. destruct (after_blanks MODE_OBJECT l _ (closing pretty level) ltac:(done) (indentation_blank pretty _) _ _ H2)
        as (jc3 & E3 & H3). by exists jc3, c2. }
    exists jc, c. split; [by rewrite (feed_cons _ _ _ _ _ _ E)|]. by apply (close_object l (d1, fields ((k, x) :: m)) jc c Ha).
Qed.
End object.

Lemma container_reads s m l d b text b' ch : inner m → read_container s (m :: l) d b text b' ch →
  reads_to (P s T_NONE (m :: l) []) (d, b) (text ++ [ch]) (m :: l) (d, b').
Proof.
  intros Hm (jc & c & E & Ec). eapply reads_after; [exact E|]. exists (P OK T_NONE (m :: l) []), (d, b'). split; [|apply after_none].
  apply feed_one; [|done]. unfold char_step. rewrite Ec. by destruct Hm as [-> | ->].
Qed.
Lemma value_reads v : wf v → printable v → reads v.
Proof.
  induction v as [| | |n|str|xs IH|m IH] using variant_ind; intros Hw Hp pretty level s md l d b b' Hs Hm Hd Hv.
  - eapply word_read; [done..|apply list_elem_of_here|]. unfold accepts. cbn. unfold Null, mbind, res_bind. by rewrite Hv.
  - eapply word_read; [done..|apply list_elem_of_further, list_elem_of_here|]. unfold accepts. cbn. unfold True_, mbind, res_bind. by rewrite Hv.
  - eapply word_read; [done..|apply list_elem_of_further, list_elem_of_further, list_elem_of_here|]. unfold accepts. cbn. unfold False_, mbind, res_bind. by rewrite Hv.
  - apply number_read; [done|]. destruct Hp as [[Ht E] | [Ht E]]; [left|right]; (split; [done|]); unfold accepts; cbn -[sscanf_integer].
    + unfold Integer, of_Z, mbind, res_bind. by rewrite E, Hv.
    + unfold Float, mbind, res_bind. by rewrite E, Hv.
  - exists (P OK T_NONE (md :: l) []), (d, b'). split; [|apply after_none]. apply string_read; [done..|].
    unfold accepts, Callback, handle, JSONToVariant, String_. rewrite c_string_id, string_of_chars by done. unfold mbind, res_bind. by rewrite Hv.
  - apply wf_array in Hw. apply printable_array in Hp. rewrite print_array, app_assoc, app_comm_cons. apply container_reads; [done|].
    destruct b as [ks vs]. apply (array_read pretty level (md :: l) ks vs); [by right|done..|].
    rewrite Forall_forall in *. auto.
  - apply wf_object in Hw as [Hso Hw]. apply printable_object in Hp. rewrite print_object, app_assoc, app_comm_cons. apply container_reads; [done|].
    destruct b as [ks vs]. apply (object_read pretty level (md :: l) ks vs); [by right|done..|].
    rewrite Forall_forall in *. intros e He. split; [by apply Hp|]. apply IH; [done|by apply Hw|by apply Hp].
Qed.

(** *** [Parse] *)
Lemma done_unchanged (jc : JSON_parser) : (JSON_parser_done jc).2 = false → JSON_parser_done jc = (jc, false).
Proof.
  unfold JSON_parser_done, pop. destruct (jstate jc); try done. destruct (modes jc); [done|]. by case_bool_decide.
Qed.
(** The parser with its fields for the events. *)
Definition at_ (p : Parser builder) (jc : JSON_parser) c : Prop := status p = P_OK ∧ parser p = jc ∧ (depth p, derived p) = c.
Lemma Parse_char_step p jc c ch jc' c' : at_ p jc c → char_step jc c ch = Ok (jc', c', true) →
  ∃ p', Parse_char strtod 46 p ch = Ok (p', true) ∧ at_ p' jc' c'.
Proof.
  intros (Hs & <- & <-). unfold char_step, middle, and_then, Parse_char. rewrite Hs. unfold mbind, res_bind.
  destruct (JSON_parser_char _ _ _ _ _ ch) as [[[jc1 [d1 h1]] []]|]; [|done..]. cbn [fst snd]. intros [= <- <- Hg].
  apply negb_true_iff, andb_false_iff in Hg. destruct (d1 =? 0) eqn:E0.
  - destruct Hg as [Hg|]; [|done]. rewrite (done_unchanged _ Hg). eexists. done.
  - eexists. done.
Qed.
Lemma Parse_char_last p jc c ch c' : at_ p jc c → JSON_parser_char strtod 46 Callback jc c ch = Ok (P OK T_NONE [MODE_DONE] [], c', true) → c'.1 = 0 →
  ∃ p', Parse_char strtod 46 p ch = Ok (p', true) ∧ status p' = P_DONE ∧ derived p' = c'.2.
Proof.
  intros (Hs & <- & <-) E Ec. unfold Parse_char. rewrite Hs. unfold mbind, res_bind. rewrite E. destruct c' as [d h].
  cbn [fst snd] in *. subst d. by eexists.
Qed.
Lemma Parse_feed l : ∀ p jc c jc' c', at_ p jc c → feed jc c l = Ok (jc', c', true) →
  ∃ p', at_ p' jc' c' ∧ ∀ r, Parse strtod 46 p (l ++ r) = ('(q, n) ← Parse strtod 46 p' r; Ok (q, len l + n)) ∧
    ParseStream strtod 46 p (l ++ r) = ParseStream strtod 46 p' r.
Proof.
  induction l as [|ch l IH]; intros p jc c jc' c' Hp.
  - intros [= <- <-]. exists p. split; [done|]. intros r. split; [|done]. cbn [app]. unfold mbind, res_bind.
    destruct (Parse strtod 46 p r) as [[q n]|]; [|done]. by rewrite Z.add_0_l.
  - cbn [feed]. unfold and_then at 1, mbind, res_bind. destruct (char_step jc c ch) as [[[jc1 c1] []]|] eqn:E; [|done..].
    intros Ef. destruct (Parse_char_step p jc c ch jc1 c1 Hp E) as (p1 & Ep & Hp1).
    destruct (IH p1 jc1 c1 jc' c' Hp1 Ef) as (p' & Hp' & Hr). exists p'. split; [done|]. intros r. destruct (Hr r) as [H1 H2].
    cbn [app]. split.
    + cbn [Parse]. rewrite Ep. unfold mbind, res_bind. rewrite H1. unfold mbind, res_bind.
      destruct (Parse strtod 46 p' r) as [[q n]|]; [|done]. do 2 f_equal. unfold len. cbn [length]. lia.
    + cbn [ParseStream]. unfold Ok_. destruct Hp as [-> _]. cbn [negb]. rewrite Ep. unfold mbind, res_bind. exact H2.
Qed.

Definition is_container v : bool := match v with VArray _ | VObject _ => true | _ => false end.
Lemma whole_read v pretty : wf v → printable v → is_container v = true →
  ∃ text b ch, VariantToJSON v pretty = text ++ [ch] ∧ stack b = [v] ∧
    read_container GO [MODE_DONE] 0 (mk_builder [] []) text b ch.
Proof.
  intros Hw Hp Hc. destruct v as [| | | | |xs|m]; try done; unfold VariantToJSON.
  - apply wf_array in Hw. apply printable_array in Hp. rewrite print_array, app_assoc, app_comm_cons.
    eexists _, (mk_builder [] [VArray xs]), 93. split; [reflexivity|]. split; [done|].
    apply (array_read pretty 1 [MODE_DONE] [] []); [by left|done..|]. rewrite Forall_forall in *. auto using value_reads.
  - apply wf_object in Hw as [Hs Hw]. apply printable_object in Hp. rewrite print_object, app_assoc, app_comm_cons.
    eexists _, (mk_builder [] [VObject m]), 125. split; [reflexivity|]. split; [done|].
    apply (object_read pretty 1 [MODE_DONE] [] []); [by left|done..|]. rewrite Forall_forall in *. intros e He.
    split; [by apply Hp|]. apply value_reads; [by apply Hw|by apply Hp].
Qed.

(** C21: An array or an object whose strings hold no zero and whose numbers have a text
    that is one of JSON and is read back as that number: its JSON, compact or indented,
    is read back as it is, and from a stream no more than it is taken. *)
Theorem json_round_trip v pretty rest : wf v → printable v → is_container v = true →
  VariantFromJSON strtod 46 (VariantToJSON v pretty) = Ok v ∧
  VariantFromJSON_stream strtod 46 (VariantToJSON v pretty ++ rest) = Ok (v, rest).
Proof.
  intros Hw Hp Hc. destruct (whole_read v pretty Hw Hp Hc) as (text & b & ch & -> & Hb & jc & c & E & El).
  destruct (Parse_feed text new_JSONToVariant (P GO T_NONE [MODE_DONE] []) (0, mk_builder [] []) jc c) as (p & Hat & Hr); [done..|].
  destruct (Parse_char_last p jc c ch (0, b) Hat El eq_refl) as (p' & Ep & Hs & Hd).
  assert (Hf : finish p' = Ok v). { unfold finish, Done, Get. rewrite Hs, Hd. cbn [snd]. rewrite Hb. done. }
  split.
  - unfold VariantFromJSON. destruct (Hr [ch]) as [-> _]. cbn [Parse]. rewrite Ep. unfold mbind, res_bind. exact Hf.
  - unfold VariantFromJSON_stream. rewrite <- app_assoc. cbn [app]. destruct (Hr (ch :: rest)) as [_ ->].
    cbn [ParseStream]. unfold Ok_ at 1. destruct Hat as [-> _]. cbn [negb]. rewrite Ep. unfold mbind, res_bind.
    replace (ParseStream strtod 46 p' rest) with (Ok (p', rest)); [by rewrite Hf|].
    destruct rest; cbn [ParseStream]; unfold Ok_; by rewrite Hs.
Qed.
End round_trip.

(** ** At concrete texts *)
Section examples.
#[local] Existing Instance ld_integers.
Open Scope string_scope.
Notation read s := (VariantFromJSON (F := Z) (λ _, 0) 46 (chars s)).
(** A word that a comment breaks off before its last letter is taken for the word. *)
Lemma broken_word_is_read : read "[tru/**/, fals/**/, nul/**/]" = Ok (VArray [VTrue; VFalse; VNull]).
Proof. vm_compute. reflexivity. Qed.
(** An integer beyond 63 bits, which a variant holds and prints, is read as another. *)
Lemma large_integer_changes :
  VariantToJSON (VArray [VNumber 18446744073709551615]) false = chars "[18446744073709551615]" ∧
  read "[18446744073709551615]" = Ok (VArray [VNumber 9223372036854775807]).
Proof. vm_compute. done. Qed.
(** A second value for a key is refused, but not after null. *)
Lemma null_is_replaced :
  VariantFromJSON (F := Z) (λ _, 0) 46 (VariantToJSON (F := Z) (VObject [("a", VTrue); ("a", VFalse)]) false) = Err AssertFailed ∧
  VariantFromJSON (F := Z) (λ _, 0) 46 (VariantToJSON (F := Z) (VObject [("a", VNull); ("a", VFalse)]) false) = Ok (VObject [("a", VFalse)]).
Proof. vm_compute. done. Qed.
(** A zero has no exponent. *)
Lemma zero_exponent_is_refused : read "[0e1]" = Err AssertFailed ∧ read "[0.0e1]" = Ok (VArray [VNumber 0]).
Proof. vm_compute. done. Qed.

Definition a_variant : Variant Z :=
  VObject [("list", VArray [VNumber 12; VTrue; VNull; VArray []; VObject []]); ("text/", VString "line")].
Lemma json_round_trip_witness : VariantFromJSON (λ _, 0) 46 (VariantToJSON a_variant true) = Ok a_variant.
Proof.
  apply (json_round_trip (λ _, 0)) with (rest := []).
  - done.
  - repeat (split || constructor).
  - assert (Hb : ∀ s, bool_decide (Forall (λ ch, 0 < ch < 256) (chars s)) = true → plain_string s).
    { intros s Hs. exact (bool_decide_eq_true_1 _ Hs). }
    split; [split; [apply Hb; vm_compute; reflexivity|]|split; [|done]].
    + split; [|done]. left. split; [|reflexivity]. apply (N_int [] (chars "12")); [by left|]. right.
      exists 49, [50]. split; [reflexivity|]. split; [unfold digit; lia|]. split; [lia|]. apply Forall_singleton. unfold digit. lia.
    + split; apply Hb; vm_compute; reflexivity.
  - reflexivity.
Defined.
End examples.
End JV.
