(* ===== verification/JsonSafety.v ===== *)
(** Whatever text the automaton of the JSON parser is given, none of its assertions
    fails, and its stacks are never empty when it looks at them.  That the parser does
    this in its arrays is [JsonMemory]. *)
From S2P Require Import Prelude Variant JsonParser JsonVariant.

Module JS.
Import Var JP JV.
Open Scope Z_scope.
Open Scope list_scope.

(** ** What each state goes with *)
Definition types_of (s : state) : list JSON_type :=
  match s with
  | GO | OB | KE | CO | VA | AR | C1 | C2 | C3 => [T_NONE]
  | OK => [T_NONE; T_INTEGER; T_FLOAT; T_NULL; T_TRUE; T_FALSE]
  | ST | ES | U1 | U2 | U3 | U4 | D1 | D2 => [T_STRING]
  | MI | ZE | IT => [T_INTEGER]
  | FR | FX | E1 | E2 | E3 => [T_FLOAT]
  | T1 | T2 | T3 => [T_TRUE] | F1 | F2 | F3 | F4 => [T_FALSE] | N1 | N2 | N3 => [T_NULL]
  end.
Definition tops_of (s : state) : list mode :=
  match s with
  | GO => [MODE_DONE]
  | OB | KE | CO => [MODE_KEY]
  | AR => [MODE_ARRAY]
  | ST | ES | U1 | U2 | U3 | U4 | D1 | D2 => [MODE_KEY; MODE_ARRAY; MODE_OBJECT]
  | _ => [MODE_ARRAY; MODE_OBJECT]
  end.
Definition is_hex (x : Z) : bool := match hex_digit x with Ok _ => true | Err _ => false end.
(** In the middle of an escape: the characters of it that are in the buffer. *)
Definition hexes (k : nat) (b : list Z) : Prop := (k + 2 <= length b)%nat ∧ forallb is_hex (take k b) = true.
Definition buffer_of (s : state) (b : list Z) : Prop :=
  match s with
  | ES | D2 => (1 <= length b)%nat
  | U1 => hexes 0 b | U2 => hexes 1 b | U3 => hexes 2 b | U4 => hexes 3 b
  | _ => True
  end.
Definition in_comment (s : state) : bool := match s with C1 | C2 | C3 => true | _ => false end.
Definition resumable (s : state) : bool := match s with GO | OK | OB | KE | CO | VA | AR => true | _ => false end.
Definition is_escape (s : state) : bool := match s with ES => true | _ => false end.
(** The state that the modes belong to. *)
Definition place (jc : JSON_parser) : state := if in_comment (jstate jc) then before_comment_state jc else jstate jc.
(** Below its top the stack has arrays and objects, and [MODE_DONE] at the bottom. *)
Inductive nested : list mode → Prop :=
  | nested_done : nested [MODE_DONE]
  | nested_array m l : m = MODE_ARRAY ∨ m = MODE_OBJECT → nested l → nested (m :: l).
Definition stack_ok (l : list mode) : Prop := nested l ∨ ∃ l', l = MODE_KEY :: l' ∧ nested l'.

Record good (jc : JSON_parser) : Prop := {
  good_type : type jc ∈ types_of (jstate jc);
  good_top : ∃ m l, modes jc = m :: l ∧ m ∈ tops_of (place jc);
  good_stack : stack_ok (modes jc);
  good_none : type jc = T_NONE → parse_buffer jc = [];
  good_buffer : buffer_of (jstate jc) (parse_buffer jc);
  good_escaped : escaped jc = is_escape (jstate jc);
  good_comment : comment jc = in_comment (jstate jc);
  good_before : in_comment (jstate jc) = true → resumable (before_comment_state jc) = true }.

Section safe.
Context {F : Type} `{LongDouble F} (strtod : list Z → F) (decimal_point : Z).
Notation Variant := (Variant F).
Notation builder := (@builder F).
Implicit Types (b : builder) (c : Z * builder) (jc : JSON_parser).

(** ** What the events do to the stack of values *)
Definition holds (n : nat) b : Prop := length (stack b) = n ∧ Forall (λ v, is_container v = true) (stack b).
Lemma AddValue_ok b v : ∃ b' r, AddValue b v = Ok (b', r) ∧
  ∀ n, holds (S n) b → r = true → holds (S n) b'.
Proof.
  unfold AddValue, InObject, InArray. destruct b as [ks [|t vs]]; cbn [stack].
  { eexists _, _. split; [done|]. intros n0 [Hn _]. done. }
  destruct t as [| | | | |l|m]; cbn [IsObject]; try (eexists _, _; split; [reflexivity|]; intros k [_ Hc] _; exfalso;
    apply Forall_cons in Hc as [Hc _]; done).
  - eexists _, _. split; [reflexivity|]. intros n [Hn Hc] _. apply Forall_cons in Hc as [_ Hc]. split; [done|by constructor].
  - destruct ks as [|k ks]; cbn [keystack]; [eexists _, _; split; [reflexivity|]; done|].
    cbn [top_of]. unfold mbind, res_bind. cbn [Contains].
    destruct (match map_find k m with Some v0 => GetType v0 | None => NullType end); try (eexists _, _; split; [reflexivity|]; done).
    rewrite Set_at_put by by left. eexists _, _. split; [reflexivity|]. intros n [Hn Hc] _.
    apply Forall_cons in Hc as [_ Hc]. split; [done|by constructor].
Qed.
Definition is_scalar (e : event F) : bool :=
  match e with ARRAY_BEGIN | ARRAY_END | OBJECT_BEGIN | OBJECT_END => false | _ => true end.
Lemma scalar_ok d b e : is_scalar e = true → ∃ b' r, Callback (d, b) e = Ok ((d, b'), r) ∧
  ∀ n, holds (S n) b → r = true → holds (S n) b'.
Proof.
  intros He. destruct e as [| | | |z|x| | | |s|s]; try done; cbn -[AddValue string_of];
    unfold Integer, Float, Null, True_, False_, String_, mbind, res_bind;
    try match goal with |- context [AddValue b ?v] => destruct (AddValue_ok b v) as (b' & r & -> & Hr); by exists b', r end.
  unfold Key. destruct (InObject b); eexists _, _; (split; [reflexivity|]); by intros n Hh.
Qed.
Lemma begin_ok d b e : e = ARRAY_BEGIN ∨ e = OBJECT_BEGIN → ∃ b', Callback (d, b) e = Ok ((u32 (d + 1), b'), true) ∧
  ∀ n, holds n b → holds (S n) b'.
Proof.
  intros [-> | ->]; eexists; (split; [reflexivity|]); intros n [Hn Hc]; (split; [cbn; by rewrite Hn|by constructor]).
Qed.
Lemma end_ok d b e n : e = ARRAY_END ∨ e = OBJECT_END → holds (S n) b → ∃ b' r, Callback (d, b) e = Ok ((u32 (d - 1), b'), r) ∧
  (r = true → n ≠ 0%nat → holds n b') ∧ (r = true → n = 0%nat → ∃ v, stack b' = [v] ∧ is_container v = true).
Proof.
  intros He [Hn Hc]. destruct b as [ks [|v vs]]; [done|]. cbn in Hn. injection Hn as Hn. apply Forall_cons in Hc as [Hv Hc].
  destruct (AddValue_ok (mk_builder ks vs) v) as (b' & r & E & Hr).
  assert (Hok : r = true → n ≠ 0%nat → holds n b').
  { intros Ht Hz. destruct n as [|n]; [done|]. by apply Hr. }
  assert (Hone : r = true → n = 0%nat → ∃ v, stack b' = [v] ∧ is_container v = true).
  { intros _ ->. destruct vs; [|done]. cbn in E. injection E as <- _. by exists v. }
  destruct He as [-> | ->]; cbn -[AddValue]; unfold ArrayEnd, ObjectEnd; cbn [stack top_of keystack]; unfold mbind, res_bind;
    destruct v; try done; cbn [IsObject]; rewrite ?E; eexists _, _; (split; [reflexivity|done]).
Qed.

(** ** Results that are no fault *)
Definition sat (r : res result) (Q : JSON_parser → Z * builder → Prop) : Prop :=
  ∃ jc c ok, r = Ok (jc, c, ok) ∧ (ok = true → Q jc c).
Lemma sat_ok jc c (Q : JSON_parser → Z * builder → Prop) : Q jc c → sat (Ok (jc, c, true)) Q.
Proof. intros Hq. by exists jc, c, true. Qed.
Lemma sat_no jc c Q : sat (Ok (jc, c, false)) Q.
Proof. by exists jc, c, false. Qed.
Lemma sat_then r Q k R : sat r Q → (∀ jc c, Q jc c → sat (k jc c) R) → sat (and_then r k) R.
Proof.
  intros (jc & c & ok & -> & Hq) Hk. unfold and_then, mbind, res_bind. destruct ok; [by apply Hk, Hq|apply sat_no].
Qed.

(** The values on the stack are as many as the open containers. *)
Definition counts (l : list mode) c : Prop := c.1 = u32 (len l - 1) ∧ holds (length l - 1) c.2.
Definition live jc c : Prop := good jc ∧ counts (modes jc) c.
Definition over jc c : Prop := jstate jc = OK ∧ modes jc = [MODE_DONE] ∧ c.1 = 0 ∧
  ∃ v, stack c.2 = [v] ∧ is_container v = true.
Definition post jc c : Prop := live jc c ∨ over jc c.

(** A parser outside escapes and comments. *)
Definition J s bf t al su dp l buf : JSON_parser := mk_parser s bf t false false al su dp l buf.
Lemma live_J s bf t al su dp m l buf c : t ∈ types_of s → m ∈ tops_of s → stack_ok (m :: l) → (t = T_NONE → buf = []) →
  buffer_of s buf → is_escape s = false → in_comment s = false → counts (m :: l) c → post (J s bf t al su dp (m :: l) buf) c.
Proof.
  intros Ht Hm Hl Hn Hb He Hc Hk. left. split; [|done]. constructor; cbn; try done.
  - exists m, l. split; [done|]. unfold place. cbn. by rewrite Hc.
  - by rewrite Hc.
Qed.
Lemma stack_tail m l : stack_ok (m :: l) → m ≠ MODE_DONE → nested l.
Proof. intros [Hn | (l' & [= -> ->] & Hn)] Hm; [|done]. by inversion Hn; subst. Qed.
Lemma nested_cons l : nested l → ∃ m l', l = m :: l' ∧ (m = MODE_DONE → l' = []) ∧ (m ≠ MODE_DONE → m ∈ [MODE_ARRAY; MODE_OBJECT]).
Proof.
  intros Hn. inversion Hn as [|m l' Hm Hl]; subst; eexists _, _; (split; [done|]); [by split|].
  split; [by destruct Hm as [-> | ->]|]. intros _. destruct Hm as [-> | ->]; set_solver.
Qed.

(** *** The event of what was read, and the end of a container *)
Definition keeps c c' : Prop := c'.1 = c.1 ∧ ∀ n, holds (S n) c.2 → holds (S n) c'.2.
Lemma pending_scalar jc e : pending strtod jc = Some e → is_scalar e = true.
Proof. unfold pending. destruct (type jc); by intros [= <-]. Qed.
Lemma call_scalar jc c e : is_scalar e = true → sat (call Callback jc c e) (λ jc' c', jc' = jc ∧ keeps c c').
Proof.
  intros He. destruct c as [d b]. destruct (scalar_ok d b e He) as (b' & r & E & Hr). unfold call. rewrite E.
  unfold mbind, res_bind. exists jc, (d, b'), r. split; [done|]. intros Ht. split; [done|]. split; [done|]. cbn. auto.
Qed.
Lemma ppb_sat jc c : sat (parse_parse_buffer strtod Callback jc c) (λ jc' c', jc' = set_buffer jc [] ∧ keeps c c').
Proof.
  unfold parse_parse_buffer. apply (sat_then _ (λ jc' c', jc' = jc ∧ keeps c c')).
  - destruct (pending strtod jc) as [e|] eqn:E; [by apply call_scalar, (pending_scalar jc)|]. by apply sat_ok.
  - intros jc' c' [-> Hk]. by apply sat_ok.
Qed.
Lemma counts_keep m l c c' : counts (m :: l) c → m ≠ MODE_DONE → nested l → keeps c c' → counts (m :: l) c'.
Proof.
  intros [Hd Hh] Hm Hl [Ed Hk]. split; [by rewrite Ed|]. destruct (nested_cons l Hl) as (m' & l' & -> & _). cbn in *. by apply Hk.
Qed.
Lemma close_sat s bf t al su dp m l e M c k : e = ARRAY_END ∨ e = OBJECT_END → m ≠ MODE_DONE → stack_ok (m :: l) → counts (m :: l) c →
  (∀ jc c, type jc = t → k jc c = Ok (set_state (set_type jc T_NONE) OK, c, true)) →
  sat (and_then (call Callback (J s bf t al su dp (m :: l) []) c e) (λ jc c, and_then (finished (pop jc M) c) k)) post.
Proof.
  intros He Hm Hl [Hd Hh] Hk. destruct c as [d b]. cbn in Hd, Hh.
  pose proof (stack_tail m l Hl Hm) as Hn. destruct (nested_cons l Hn) as (m' & l' & -> & Hm1 & Hm2). cbn in Hh.
  destruct (end_ok d b e (length l') He Hh) as (b' & r & E & Hr & Hv). unfold call. rewrite E. unfold and_then, mbind, res_bind.
  destruct r; [|apply sat_no]. unfold finished, pop. cbn [J modes set_modes fst snd].
  case_bool_decide as HmM; [|apply sat_no]. cbn [fst snd]. rewrite Hk by done. cbn. apply sat_ok.
  assert (Ed : u32 (d - 1) = u32 (len (m' :: l') - 1)).
  { rewrite Hd. unfold u32, len. cbn [length]. rewrite Zminus_mod_idemp_l. f_equal. lia. }
  destruct (decide (m' = MODE_DONE)) as [->|Hd'].
  - right. rewrite (Hm1 eq_refl) in *. split; [done|]. split; [done|]. cbn [fst snd]. rewrite Ed. split; [done|by apply Hv].
  - apply live_J; try done; [set_solver|by apply Hm2|by left|]. split; [done|]. cbn. rewrite Nat.sub_0_r. apply Hr; [done|].
    inversion Hn; subst; [done|]. destruct (nested_cons l' ltac:(done)) as (? & ? & -> & _). done.
Qed.

Lemma swap_sat s bf t al su dp M l c M' k Q :
  sat (k (J s bf t al su dp (M' :: l) []) c) Q → sat (swap_mode (J s bf t al su dp (M :: l) []) c M M' k) Q.
Proof.
  intros HQ. unfold swap_mode, finished, pop. cbn [J modes set_modes]. rewrite bool_decide_true by done.
  unfold and_then at 1, mbind, res_bind. cbn [fst snd]. unfold push. cbn [jdepth modes set_modes]. destruct (_ && _); cbn [fst snd].
  - apply sat_no.
  - unfold and_then, mbind, res_bind. exact HQ.
Qed.

Lemma becomes_post s bf t al su dp m l y buf c t' s' : stack_ok (m :: l) → counts (m :: l) c → t' ∈ types_of s' → m ∈ tops_of s' →
  buffer_of s' (y :: buf) → t' ≠ T_NONE → is_escape s' = false → in_comment s' = false →
  sat (becomes (J s bf t al su dp (m :: l) (y :: buf)) c t' s') post.
Proof. intros Hl Hc Ht Hm Hb Hn He Hi. apply sat_ok, (live_J s' bf t' al su dp m l (y :: buf)); done. Qed.

(** *** The actions *)
Section actions.
Context (s bf : state) (t : JSON_type) (al : bool) (su dp : Z) (m : mode) (l : list mode) (x : Z) (buf : list Z) (c : Z * builder).
Notation jc := (J s bf t al su dp (m :: l) (x :: buf)).
Notation act a := (perform strtod decimal_point Callback a jc c).
Hypothesis stack_jc : stack_ok (m :: l).
Hypothesis counts_c : counts (m :: l) c.

Lemma number_begins a s' : (a, s') ∈ [(MX, MI); (ZX, ZE); (IX, IT)] → m ∈ [MODE_ARRAY; MODE_OBJECT] → sat (act a) post.
Proof.
  intros Ha Hm. repeat (apply elem_of_cons in Ha as [[= -> ->] | Ha]); [..|by apply not_elem_of_nil in Ha];
    (apply becomes_post; [done|done|by left|done..]).
Qed.
Lemma word_begins a s' : (a, s') ∈ [(NU, N1); (FA, F1); (TR, T1)] → t = T_NONE → m ∈ [MODE_ARRAY; MODE_OBJECT] → sat (act a) post.
Proof.
  intros Ha -> Hm. repeat (apply elem_of_cons in Ha as [[= -> ->] | Ha]); [..|by apply not_elem_of_nil in Ha];
    (cbn; apply becomes_post; [done|done|by left|done..]).
Qed.
Lemma exponent_begins : t = T_INTEGER → m ∈ [MODE_ARRAY; MODE_OBJECT] → sat (act DE) post.
Proof. intros -> Hm. cbn. apply becomes_post; [done|done|by left|done..]. Qed.
Lemma fraction_begins : t = T_INTEGER → x = 46 → m ∈ [MODE_ARRAY; MODE_OBJECT] → sat (act DF) post.
Proof. intros -> -> Hm. cbn. apply becomes_post; [done|done|by left|done..]. Qed.
Lemma string_begins : t = T_NONE → m ≠ MODE_DONE → sat (act SB) post.
Proof.
  intros -> Hm. cbn. apply sat_ok, (live_J ST bf T_STRING al su dp m l []); try done; [by left|]. destruct m; set_solver.
Qed.
Lemma escape_begins : t = T_STRING → s = ST → m ≠ MODE_DONE → sat (act EX) post.
Proof.
  intros -> -> Hm. cbn. apply sat_ok. left. split; [|done]. constructor; cbn; try done; [by left| |lia].
  exists m, l. split; [done|]. destruct m; set_solver.
Qed.
Lemma container_begins a (e : event F) M s' : (a, e, M, s') ∈ [(AObj, OBJECT_BEGIN, MODE_KEY, OB); (AArr, ARRAY_BEGIN, MODE_ARRAY, AR)] →
  t = T_NONE → buf = [] → nested (m :: l) → sat (act a) post.
Proof.
  intros Ha -> -> Hn.
  assert (He : e = ARRAY_BEGIN ∨ e = OBJECT_BEGIN).
  { repeat (apply elem_of_cons in Ha as [[= _ -> _ _] | Ha]); [by right|by left|by apply not_elem_of_nil in Ha]. }
  destruct c as [d b]. destruct counts_c as [Hd Hh]. destruct (begin_ok d b e He) as (b' & E & Hr).
  assert (Hgo : sat (and_then (call Callback (J s bf T_NONE al su dp (m :: l) []) (d, b) e) (λ jc c,
    and_then (finished (push jc M) c) (λ jc c, assert (is_type_none jc) ;; Ok (set_state jc s', c, true)))) post).
  { unfold call. rewrite E. unfold and_then, mbind, res_bind, finished, push. cbn [J jdepth modes set_modes].
    destruct (_ && _); cbn [fst snd]; [apply sat_no|]. cbn. apply sat_ok.
    cbn [fst snd] in Hd, Hh. assert (Hk : counts (M :: m :: l) (u32 (d + 1), b')).
    { split; cbn [fst snd]; [|replace (length (M :: m :: l) - 1)%nat with (S (length (m :: l) - 1)) by (cbn; lia); by apply Hr]. rewrite Hd. unfold u32, len. cbn [length].
      rewrite Zplus_mod_idemp_l. f_equal. lia. }
    repeat (apply elem_of_cons in Ha as [[= -> -> -> ->] | Ha]); [..|by apply not_elem_of_nil in Ha].
    - apply live_J; try done; [by left..|]. right. by exists (m :: l).
    - apply live_J; try done; [by left..|]. left. constructor; [by left|done]. }
  repeat (apply elem_of_cons in Ha as [[= -> -> -> ->] | Ha]); [..|by apply not_elem_of_nil in Ha]; exact Hgo.
Qed.
Lemma container_ends a : a ∈ [AObjEnd; AArrEnd] → m ≠ MODE_DONE → sat (act a) post.
Proof.
  intros Ha Hm.
  assert (Hgo : ∀ (e : event F) M, e = ARRAY_END ∨ e = OBJECT_END → sat (and_then (parse_parse_buffer strtod Callback (J s bf t al su dp (m :: l) buf) c) (λ jc c,
    and_then (call Callback jc c e) (λ jc c, and_then (finished (pop jc M) c) (λ jc c, becomes jc c T_NONE OK)))) post).
  { intros e M He. eapply sat_then; [apply ppb_sat|]. intros jc' c' [-> Hk].
    apply (close_sat s bf t al su dp m l e M c'); try done. by apply (counts_keep m l c); [done..|by apply (stack_tail m)|]. }
  repeat (apply elem_of_cons in Ha as [-> | Ha]); [..|by apply not_elem_of_nil in Ha].
  - apply (Hgo OBJECT_END MODE_OBJECT). by right.
  - apply (Hgo ARRAY_END MODE_ARRAY). by left.
Qed.
Lemma empty_object_ends : t = T_NONE → m ≠ MODE_DONE → sat (act AEmptyObj) post.
Proof.
  intros -> Hm. apply (close_sat s bf T_NONE al su dp m l OBJECT_END MODE_KEY c); [by right|done..|].
  intros [] c' E. cbn in E. by subst.
Qed.
Lemma string_ends : t = T_STRING → m ≠ MODE_DONE → sat (act AStrEnd) post.
Proof.
  intros -> Hm. cbn [perform]. unfold parse_buffer_pop_back_char, mbind at 1, res_bind at 1. cbn [J parse_buffer set_buffer].
  unfold top, mbind at 1, res_bind at 1. cbn [modes].
  assert (Hval : sat (and_then (parse_parse_buffer strtod Callback (J s bf T_STRING al su dp (m :: l) buf) c) (λ jc c, becomes jc c T_NONE OK)) (λ jc c',
    keeps c c' ∧ jc = J OK bf T_NONE al su dp (m :: l) [])).
  { eapply sat_then; [apply ppb_sat|]. intros jc' c' [-> Hk]. by apply sat_ok. }
  assert (Hkept : ∀ c', keeps c c' → counts (m :: l) c') by (intros c'; apply counts_keep; [done..|by apply (stack_tail m)]).
  destruct m eqn:Em; [| done | | ].
  - destruct Hval as (jc' & c' & ok & E & Hq). exists jc', c', ok. split; [exact E|]. intros Ht. destruct (Hq Ht) as [Hk ->].
    apply live_J; try done; [by left..|by apply Hkept].
  - cbn -[parse_parse_buffer call]. eapply sat_then; [by apply call_scalar|]. intros jc' c' [-> Hk]. apply sat_ok.
    apply (live_J CO bf T_NONE al su dp MODE_KEY l []); try done; [by left..|by apply Hkept].
  - destruct Hval as (jc' & c' & ok & E & Hq). exists jc', c', ok. split; [exact E|]. intros Ht. destruct (Hq Ht) as [Hk ->].
    apply live_J; try done; [by left|by right; left|by apply Hkept].
Qed.
Lemma comma : t ≠ T_STRING → m ≠ MODE_DONE → sat (act AComma) post.
Proof.
  intros Ht Hm. cbn [perform]. unfold parse_buffer_pop_back_char, mbind at 1, res_bind at 1. cbn [J parse_buffer set_buffer].
  eapply sat_then; [apply ppb_sat|]. intros jc' c' [-> Hk%(counts_keep m l c)]; [|done..|by apply (stack_tail m)].
  unfold top, mbind at 1, res_bind at 1. cbn [set_buffer modes]. pose proof (stack_tail m l stack_jc Hm) as Hn.
  assert (Hs : is_type_string (J s bf t al su dp (m :: l) []) = false) by by destruct t.
  destruct m eqn:Em; [|done|apply sat_no|].
  - cbn in Hs. unfold assert. cbn -[becomes]. destruct t; try done; apply sat_ok, live_J; by repeat (done || left).
  - change (set_buffer _ []) with (J s bf t al su dp (MODE_OBJECT :: l) []).
    apply swap_sat. cbn in Hs. unfold assert. cbn -[becomes]. destruct t; try done; apply sat_ok, live_J; try done; try (by left);
      right; by exists l.
Qed.
End actions.

(** *** Escapes and comments *)
Lemma decode_sat bf al su dp m l buf c : stack_ok (m :: l) → counts (m :: l) c → m ≠ MODE_DONE →
  (6 <= length buf)%nat → forallb is_hex (take 4 buf) = true →
  sat (perform strtod decimal_point Callback UC (J U4 bf T_STRING al su dp (m :: l) buf) c) post.
Proof.
  intros Hl Hc Hm Hlen Hhex. destruct buf as [|d0 [|d1 [|d2 [|d3 [|y [|z buf]]]]]]; cbn in Hlen; try lia.
  assert (Hd : ∀ s, s = ST ∨ s = D1 → ∀ su buf, post (J s bf T_STRING al su dp (m :: l) buf) c).
  { intros s Hs su' buf'. apply live_J; try done; destruct Hs as [-> | ->]; try done; try (by left); destruct m; set_solver. }
  assert (∃ su' buf' ok, decode_unicode_char (J U4 bf T_STRING al su dp (m :: l) (d0 :: d1 :: d2 :: d3 :: y :: z :: buf)) =
    Ok (J U4 bf T_STRING al su' dp (m :: l) buf', ok)) as (su' & buf' & ok & E).
  { cbn in Hhex. unfold is_hex in Hhex. unfold decode_unicode_char. cbn [J parse_buffer].
    destruct (hex_digit d0) as [h0|], (hex_digit d1) as [h1|], (hex_digit d2) as [h2|], (hex_digit d3) as [h3|];
      try done; unfold mbind, res_bind; set (uc := Z.lor _ _); clearbody uc.
    repeat (case_match; [|]); by eexists _, _, _. }
  cbn [perform]. rewrite E. unfold mbind, res_bind. destruct ok; [|apply sat_no]. cbn [negb]. apply sat_ok.
  cbn [J utf16_high_surrogate]. destruct (su' =? 0); [apply (Hd ST)|apply (Hd D1)]; auto.
Qed.
Lemma comment_ends bf al su dp l buf c : good (mk_parser C3 bf T_NONE false true al su dp l buf) → counts l c →
  sat (perform strtod decimal_point Callback CE (mk_parser C3 bf T_NONE false true al su dp l buf) c) post.
Proof.
  intros [_ (m & l' & El & Hm) Hs Hn _ _ _ Hb] Hc. cbn in *. subst l. rewrite (Hn eq_refl). cbn. apply sat_ok.
  specialize (Hb eq_refl). unfold place in Hm. cbn in Hm.
  apply (live_J bf bf T_NONE al su dp m l' []); try done; by destruct bf; try done; left.
Qed.
Lemma comment_begins s bf t al su dp m l x buf c : stack_ok (m :: l) → counts (m :: l) c →
  s ∈ [GO; OK; OB; KE; CO; VA; AR; ZE; IT; FR; T3; F4; N3] → m ∈ tops_of s → t ∈ types_of s →
  sat (perform strtod decimal_point Callback CB (J s bf t al su dp (m :: l) (x :: buf)) c) post.
Proof.
  intros Hl Hc Hs Hm Ht. cbn [perform]. unfold comment_begin. cbn [J allow_comments]. destruct al; cbn [negb]; [|apply sat_no].
  unfold parse_buffer_pop_back_char. unfold mbind at 1, res_bind at 1. cbn [parse_buffer set_buffer].
  assert (Hppb : sat (parse_parse_buffer strtod Callback (J s bf t true su dp (m :: l) buf) c) (λ jc c',
    jc = J s bf t true su dp (m :: l) [] ∧ counts (m :: l) c')).
  { destruct (decide (m = MODE_DONE)) as [->|Hd].
    - assert (t = T_NONE) as ->.
      { clear -Hs Hm Ht. repeat (apply elem_of_cons in Hs as [-> | Hs]); [..|by apply not_elem_of_nil in Hs]; cbn in Hm; set_solver. }
      by apply sat_ok.
    - destruct (ppb_sat (J s bf t true su dp (m :: l) buf) c) as (jc & c' & ok & E & Hq). exists jc, c', ok. split; [done|].
      intros Ho. destruct (Hq Ho) as [-> Hk]. split; [done|]. by apply (counts_keep m l c); [done..|by apply (stack_tail m)|]. }
  eapply sat_then; [exact Hppb|]. intros jc' c' [-> Hc']. cbn [J parse_buffer]. unfold assert at 1, mbind at 1, res_bind at 1.
  assert (Hns : negb (is_type_string (J s bf t true su dp (m :: l) [])) = true).
  { clear -Hs Ht. unfold is_type_string. cbn. destruct t; try done.
    repeat (apply elem_of_cons in Hs as [-> | Hs]); [..|by apply not_elem_of_nil in Hs]; cbn in Ht; set_solver. }
  cbn [J] in Hns. unfold assert, mbind at 1, res_bind at 1. rewrite Hns. unfold top, mbind, res_bind. cbn [modes jstate].
  unfold becomes. cbn. apply sat_ok. left. split; [|done].
  set (bf' := match m with MODE_ARRAY | MODE_OBJECT => _ | _ => _ end).
  assert (Hbf : resumable bf' = true ∧ m ∈ tops_of bf').
  { clear -Hs Hm. subst bf'. repeat (apply elem_of_cons in Hs as [-> | Hs]); [..|by apply not_elem_of_nil in Hs];
      cbn in Hm; destruct m; try (split; [done|set_solver]); exfalso; set_solver. }
  constructor; cbn; try done; [by left| |tauto]. exists m, l. split; [done|]. unfold place. cbn. tauto.
Qed.

(** ** Characters *)
Definition all_states : list state :=
  [GO; OK; OB; KE; CO; VA; AR; ST; ES; U1; U2; U3; U4; MI; ZE; IT; FR; E1; E2; E3; T1; T2; T3; F1; F2; F3; F4; N1; N2; N3; C1; C2; C3; FX; D1; D2].
Definition hex_class (cl : class) : bool :=
  match cl with C_ZERO | C_DIGIT | C_LOW_A | C_LOW_B | C_LOW_C | C_LOW_D | C_LOW_E | C_LOW_F | C_ABCDF | C_E => true | _ => false end.
Lemma classify_sound ch cl : classify ch = Some cl →
  (hex_class cl = true → is_hex (u8 ch) = true) ∧ (cl = C_POINT → u8 ch = 46) ∧ (cl = C_LOW_U → ch = 117).
Proof.
  unfold classify. destruct (ch <? 0) eqn:E0; [done|]. destruct (128 <=? ch) eqn:E1; [by intros [= <-]|].
  apply Z.ltb_ge in E0. apply Z.leb_gt in E1. intros Ec.
  assert (Hall : Forall (λ n : nat, match ascii_class !! n with
     | Some (Some cl) => (hex_class cl = true → is_hex (u8 (Z.of_nat n)) = true) ∧ (cl = C_POINT → u8 (Z.of_nat n) = 46) ∧ (cl = C_LOW_U → Z.of_nat n = 117)
     | _ => True end) (seq 0 128)).
  { cbn [seq]. repeat (apply Forall_cons; split; [vm_compute; first [done | exact I]|]). by apply Forall_nil. }
  rewrite Forall_forall in Hall. specialize (Hall (Z.to_nat ch)). rewrite Z2Nat.id in Hall by done.
  destruct (ascii_class !! Z.to_nat ch) as [[cl'|]|]; [|done..]. injection Ec as ->. apply Hall. apply elem_of_seq. lia.
Qed.

(** ** What the table asks for, and where *)
Lemma act_facts s cl a : state_transition_table s cl = Act a → is_white cl = false ∧
  match a with
  | MX | ZX | IX | NU | FA | TR => s ∈ [VA; AR]
  | DE => s = IT
  | DF => s ∈ [ZE; IT] ∧ cl = C_POINT
  | SB => s ∈ [OB; KE; VA; AR]
  | EX | AStrEnd => s = ST
  | UC => s = U4 ∧ hex_class cl = true
  | CE => s = C3
  | CB => s ∈ [GO; OK; OB; KE; CO; VA; AR; ZE; IT; FR; T3; F4; N3]
  | AEmptyObj => s = OB
  | AObjEnd | AComma => s ∈ [OK; ZE; IT; FR; FX; E3]
  | AArrEnd => s ∈ [AR; OK; ZE; IT; FR; FX; E3]
  | AObj | AArr => s ∈ [GO; VA; AR]
  | AColon => s = CO
  end.
Proof.
  destruct s, cl; try done; intros [= <-]; (split; [reflexivity|]); try done; try (split; [|done]); try done;
    by repeat first [apply list_elem_of_here | apply list_elem_of_further].
Qed.
Lemma hexes_cons k x buf : hexes k buf → is_hex x = true → hexes (S k) (x :: buf).
Proof. intros [Hl Hb] Hx. split; cbn; [lia|]. by rewrite Hx. Qed.
Lemma hexes_start x buf : (1 <= length buf)%nat → hexes 0 (x :: buf).
Proof. intros Hl. split; cbn; [lia|done]. Qed.
Lemma to_facts s cl s' : is_escape s = false → in_comment s = false → state_transition_table s cl = To s' →
  is_escape s' = false ∧ in_comment s' = false ∧ (∀ t, t ∈ types_of s → t ∈ types_of s') ∧ (∀ m, m ∈ tops_of s → m ∈ tops_of s') ∧
  (T_NONE ∈ types_of s → is_white cl = true ∧ ∀ buf, buffer_of s' buf) ∧
  ∀ x buf, buffer_of s buf → (hex_class cl = true → is_hex x = true) → buffer_of s' (x :: buf).
Proof.
  intros He Hc. destruct s, cl; try done; intros [= <-]; split_and!; try done; try (intros ? ?; set_solver).
  all: try (intros ?%list_elem_of_singleton; done).
  all: intros x buf Hb Hx; try (by apply hexes_cons, Hx); first [cbn; lia | by apply hexes_start].
Qed.
Lemma ES_to cl s' : state_transition_table ES cl = To s' → s' = ST ∨ s' = U1 ∧ cl = C_LOW_U.
Proof. destruct cl; try done; intros [= <-]; auto. Qed.
Lemma comment_to s cl s' : in_comment s = true → state_transition_table s cl = To s' → in_comment s' = true.
Proof. destruct s; try done; intros _; destruct cl; try done; by intros [= <-]. Qed.

Lemma add_escaped_ok bf al su dp ms x buf ch : ∃ buf' ok,
  add_escaped_char_to_parse_buffer (mk_parser ES bf T_STRING true false al su dp ms (x :: buf)) ch =
    Ok (mk_parser ES bf T_STRING false false al su dp ms buf', ok) ∧ (ch = 117 → (2 <= length buf')%nat).
Proof.
  unfold add_escaped_char_to_parse_buffer, parse_buffer_pop_back_char. cbn [set_escaped parse_buffer]. unfold mbind, res_bind.
  repeat case_match; eexists _, _; (split; [reflexivity|]); intros ->; try done; cbn; lia.
Qed.
Lemma tops_not_done s m : s ≠ GO → in_comment s = false → m ∈ tops_of s → m ≠ MODE_DONE.
Proof. intros Hs Hc Hm ->. destruct s; try done; cbn in Hm; set_solver. Qed.
Lemma stack_nested m l : stack_ok (m :: l) → m ≠ MODE_KEY → nested (m :: l).
Proof. intros [Hn | (l' & [= -> ->] & _)] Hm; done. Qed.

Lemma colon bf al su dp l x c : stack_ok (MODE_KEY :: l) → counts (MODE_KEY :: l) c →
  sat (perform strtod decimal_point Callback AColon (J CO bf T_NONE al su dp (MODE_KEY :: l) [x]) c) post.
Proof.
  intros Hl Hc. apply (swap_sat CO bf T_NONE al su dp MODE_KEY l c MODE_OBJECT). cbn. apply sat_ok.
  apply live_J; try done; [by left|by right; left|]. left. constructor; [by right|by apply (stack_tail MODE_KEY)].
Qed.
(** An action, in a state that asks for it. *)
Lemma action_sat s bf t al su dp m l ch cl buf c a : state_transition_table s cl = Act a → classify ch = Some cl → in_comment s = false →
  t ∈ types_of s → m ∈ tops_of s → stack_ok (m :: l) → (t = T_NONE → buf = []) → buffer_of s buf → counts (m :: l) c →
  sat (perform strtod decimal_point Callback a (J s bf t al su dp (m :: l) (u8 ch :: buf)) c) post.
Proof.
  intros Ha Ec Hi Ht Hm Hl Hn Hb Hc. destruct (act_facts s cl a Ha) as [_ Hf]. destruct (classify_sound ch cl Ec) as (Hh & Hp & _).
  assert (Hd : s ≠ GO → m ≠ MODE_DONE) by (intros Hs; by apply (tops_not_done s)).
  assert (Hone : ∀ t0, types_of s = [t0] → t = t0) by (intros t0 E; rewrite E in Ht; by apply list_elem_of_singleton in Ht).
  assert (Hval : s ∈ [VA; AR] → t = T_NONE ∧ m ∈ [MODE_ARRAY; MODE_OBJECT]).
  { intros Hs. repeat (apply elem_of_cons in Hs as [-> | Hs]); [..|by apply not_elem_of_nil in Hs]; (split; [by apply Hone|]); cbn in Hm; set_solver. }
  destruct a.
  - by apply (comment_begins s bf t al su dp m l (u8 ch) buf c).
  - by subst s.
  - destruct (Hval Hf). by apply (word_begins s bf t al su dp m l (u8 ch) buf c Hl Hc FA F1); [set_solver|..].
  - destruct (Hval Hf). by apply (word_begins s bf t al su dp m l (u8 ch) buf c Hl Hc TR T1); [set_solver|..].
  - destruct (Hval Hf). by apply (word_begins s bf t al su dp m l (u8 ch) buf c Hl Hc NU N1); [set_solver|..].
  - subst s. by apply exponent_begins; [..|apply Hone|].
  - destruct Hf as [Hs ->]. apply fraction_begins; [done|done| |by apply Hp|];
      (repeat (apply elem_of_cons in Hs as [-> | Hs]); [..|by apply not_elem_of_nil in Hs]); [by apply Hone..|done|done].
  - apply string_begins; [done|done| |apply Hd; by intros ->; set_solver].
    repeat (apply elem_of_cons in Hf as [-> | Hf]); [by apply Hone..|by apply not_elem_of_nil in Hf].
  - destruct (Hval Hf). by apply (number_begins s bf t al su dp m l (u8 ch) buf c Hl Hc MX MI); [set_solver|..].
  - destruct (Hval Hf). by apply (number_begins s bf t al su dp m l (u8 ch) buf c Hl Hc ZX ZE); [set_solver|..].
  - destruct (Hval Hf). by apply (number_begins s bf t al su dp m l (u8 ch) buf c Hl Hc IX IT); [set_solver|..].
  - subst s. by apply escape_begins; [..|apply Hone| |apply Hd].
  - destruct Hf as [-> Hx]. rewrite (Hone T_STRING eq_refl). destruct Hb as [Hlen Hhex].
    apply decode_sat; [done|done|by apply Hd|cbn; lia|]. cbn [take forallb]. by rewrite (Hh Hx), Hhex.
  - subst s. by apply empty_object_ends; [..|apply Hone|apply Hd].
  - by apply container_ends; [..|set_solver|apply Hd; intros ->; set_solver].
  - by apply container_ends; [..|set_solver|apply Hd; intros ->; set_solver].
  - assert (t = T_NONE) as ->.
    { repeat (apply elem_of_cons in Hf as [-> | Hf]); [by apply Hone..|by apply not_elem_of_nil in Hf]. }
    apply (container_begins s bf T_NONE al su dp m l (u8 ch) buf c Hc AObj OBJECT_BEGIN MODE_KEY OB); [set_solver|done|by apply Hn|].
    apply stack_nested; [done|]. intros ->. clear -Hf Hm. repeat (apply elem_of_cons in Hf as [-> | Hf]); [..|by apply not_elem_of_nil in Hf]; cbn in Hm; set_solver.
  - assert (t = T_NONE) as ->.
    { repeat (apply elem_of_cons in Hf as [-> | Hf]); [by apply Hone..|by apply not_elem_of_nil in Hf]. }
    apply (container_begins s bf T_NONE al su dp m l (u8 ch) buf c Hc AArr ARRAY_BEGIN MODE_ARRAY AR); [set_solver|done|by apply Hn|].
    apply stack_nested; [done|]. intros ->. clear -Hf Hm. repeat (apply elem_of_cons in Hf as [-> | Hf]); [..|by apply not_elem_of_nil in Hf]; cbn in Hm; set_solver.
  - subst s. by apply string_ends; [..|apply Hone|apply Hd].
  - apply comma; [done|done| |apply Hd; intros ->; set_solver]. intros ->. clear -Hf Ht.
    repeat (apply elem_of_cons in Hf as [-> | Hf]); [..|by apply not_elem_of_nil in Hf]; cbn in Ht; set_solver.
  - subst s. rewrite (Hone T_NONE eq_refl) in *. rewrite (Hn eq_refl). cbn in Hm. apply list_elem_of_singleton in Hm as ->. by apply colon.
Qed.

(** One character. *)
Lemma JSON_parser_char_sat jc c ch : live jc c → sat (JSON_parser_char strtod decimal_point Callback jc c ch) post.
Proof.
  intros [Hg Hc]. unfold JSON_parser_char. destruct (classify ch) as [cl|] eqn:Ec; [|apply sat_no].
  destruct (classify_sound ch cl Ec) as (Hh & _ & Hu). pose proof Hg as [Ht (m & l & El & Hm) Hl Hn Hb He Hi Hbf].
  destruct jc as [s bf t es cm al su dp ms buf]. cbn in *. subst ms es cm. unfold place in Hm. cbn in Hm.
  unfold add_char_to_parse_buffer. cbn [escaped comment type]. destruct (is_escape s) eqn:Es.
  - destruct s; try done. cbn in Ht, Hb, Hm. apply list_elem_of_singleton in Ht as ->. destruct buf as [|x buf]; [cbn in Hb; lia|].
    destruct (add_escaped_ok bf al su dp (m :: l) x buf ch) as (buf' & ok & E & H2). cbn [in_comment]. rewrite E.
    unfold mbind, res_bind. destruct ok; [|apply sat_no]. cbn [negb jstate].
    destruct (state_transition_table ES cl) as [s'|a|] eqn:T; [|by destruct (act_facts ES cl a T) as [_ Hf]; destruct a; set_solver|apply sat_no].
    apply sat_ok. destruct (ES_to cl s' T) as [-> | [-> ->]]; apply (live_J _ bf T_STRING al su dp m l buf'); try done; try (by left).
    split; [by apply H2, Hu|done].
  - destruct (in_comment s) eqn:Ei.
    + unfold mbind, res_bind. cbn [negb jstate]. destruct (state_transition_table s cl) as [s'|a|] eqn:T; [| |apply sat_no].
      * apply sat_ok. left. split; [|done]. pose proof (comment_to s cl s' Ei T) as Ei'.
        assert (t = T_NONE) as -> by (destruct s; try done; by apply list_elem_of_singleton in Ht).
        constructor; cbn; rewrite ?Ei'; try done; [by destruct s'; try done; left| |by destruct s'|by destruct s'].
        exists m, l. split; [done|]. unfold place. cbn. by rewrite Ei'.
      * assert (s = C3 ∧ a = CE) as [-> ->].
        { destruct s; try done; destruct cl; try done; by injection T as <-. }
        cbn in Ht. apply list_elem_of_singleton in Ht as ->. by apply comment_ends.
    + destruct (match t with T_NONE => is_white cl | _ => false end) eqn:Ew.
      * assert (t = T_NONE) as -> by by destruct t. unfold mbind, res_bind. cbn [negb jstate].
        destruct (state_transition_table s cl) as [s'|a|] eqn:T; [| |apply sat_no].
        -- destruct (to_facts s cl s' Es Ei T) as (H1 & H2 & H3 & H4 & H5 & H6). apply sat_ok.
           apply (live_J s' bf T_NONE al su dp m l buf); auto. by apply H5.
        -- destruct (act_facts s cl a T) as [Hw _]. by rewrite Ew in Hw.
      * unfold mbind, res_bind. change (parse_buffer_push_back_char _ ch) with (J s bf t al su dp (m :: l) (u8 ch :: buf)).
        cbn [negb J jstate]. destruct (state_transition_table s cl) as [s'|a|] eqn:T; [| |apply sat_no].
        -- destruct (to_facts s cl s' Es Ei T) as (H1 & H2 & H3 & H4 & H5 & H6). apply sat_ok.
           apply (live_J s' bf t al su dp m l (u8 ch :: buf)); auto. intros ->. exfalso. destruct (H5 Ht) as [Hw _]. by rewrite Ew in Hw.
        -- by apply (action_sat s bf t al su dp m l ch cl buf c a).
Qed.

(** The whole parser: open containers, or the value that was read. *)
Definition parser_ok (p : Parser builder) : Prop :=
  match status p with
  | P_OK => live (parser p) (depth p, derived p)
  | P_DONE => ∃ v, stack (derived p) = [v] ∧ is_container v = true
  | P_ERROR => True
  end.
Lemma live_not_done jc c : live jc c → JSON_parser_done jc = (jc, false).
Proof.
  intros [Hg _]. apply done_unchanged. destruct (good_top jc Hg) as (m & l & El & Hm). unfold JSON_parser_done, pop.
  destruct (jstate jc) eqn:Es; try done. rewrite El. unfold place in Hm. rewrite Es in Hm. cbn in Hm.
  case_bool_decide as Hd; [|done]. subst m. set_solver.
Qed.
Lemma Parse_char_ok p ch : parser_ok p → ∃ p' ok, Parse_char strtod decimal_point p ch = Ok (p', ok) ∧ parser_ok p'.
Proof.
  unfold parser_ok at 1, Parse_char. destruct (status p) eqn:Es; intros Hp; [|by exists p, false; unfold parser_ok; rewrite Es..].
  destruct (JSON_parser_char_sat (parser p) (depth p, derived p) ch Hp) as (jc & [d h] & ok & E & Hq).
  rewrite E. unfold mbind, res_bind. destruct ok; [|by eexists _, _].
  destruct (Hq eq_refl) as [Hl | (H1 & H2 & H3 & H4)].
  - rewrite (live_not_done _ _ Hl). destruct (d =? 0); by eexists _, _.
  - cbn in H3, H4. subst d. cbn [Z.eqb]. unfold JSON_parser_done, pop. rewrite H1, H2. cbn. by eexists _, _.
Qed.
Lemma Parse_ok l : ∀ p, parser_ok p → ∃ p' n, Parse strtod decimal_point p l = Ok (p', n) ∧ parser_ok p'.
Proof.
  induction l as [|ch l IH]; intros p Hp; cbn [Parse]; [by exists p, 0|].
  destruct (Parse_char_ok p ch Hp) as (p1 & ok & -> & H1). unfold mbind, res_bind. destruct ok; [|by exists p1, 0].
  destruct (IH p1 H1) as (p' & n & -> & H'). by exists p', (1 + n).
Qed.
Lemma new_ok : parser_ok new_JSONToVariant.
Proof.
  split; [|done]. constructor; try done; [by left| |by left; left]. exists MODE_DONE, []. split; [done|by left].
Qed.

(** Whatever characters the automaton over lists is given, no assertion fails: after any
    text there is a value on the stack for every container that is open, and when it is
    done exactly one, an array or an object, which is the result. *)
Lemma parser_is_safe l : ∃ p n, Parse strtod decimal_point (new_JSONToVariant (F := F)) l = Ok (p, n) ∧
  match status p with
  | P_OK => S (length (stack (derived p))) = length (modes (parser p))
  | P_DONE => ∃ v, stack (derived p) = [v] ∧ is_container v = true ∧ VariantFromJSON strtod decimal_point l = Ok v
  | P_ERROR => VariantFromJSON strtod decimal_point l = Err AssertFailed
  end.
Proof.
  destruct (Parse_ok l _ new_ok) as (p & n & E & Hp). exists p, n. split; [exact E|].
  unfold VariantFromJSON, finish, Get, Done, parser_ok in *. rewrite E. unfold mbind, res_bind. destruct (status p); [|done|].
  { destruct Hp as [Hg [_ [Hn _]]]. destruct (good_top _ Hg) as (m & k & Em & _). cbn in Hn. rewrite Hn, Em. cbn. lia. }
  destruct Hp as (v & Ev & Hv). exists v. by rewrite Ev.
Qed.
End safe.
End JS.
