(* ===== verification/JsonMemory.v ===== *)
(** [libraries/JSONParser/JSON_parser.c] with its memory: the stack of modes and the
    buffer as arrays with their capacities, which the code has to keep up with.

    [JP] is the automaton over lists.  Here every access names its index, one outside
    the array, or of a cell that was never written, is a fault, and the arrays move
    when they grow.  The theorems: this parser does what the automaton over lists does,
    so that what is proved of that one holds of it, and no access is outside its array.
    Memory is never short ([malloc] and [realloc] are not tested for it in the code),
    and the capacities, which double, are not taken beyond the 64 bits of a [long]. *)
From S2P Require Import Prelude Variant JsonParser JsonVariant JsonSafety.

Module JM.
Import Var JP.
#[local] Existing Instance JV.JSONToVariant.
Open Scope Z_scope.
Open Scope list_scope.

(** ** Arrays *)
(** Cells that were written, and cells that were not. *)
Notation cells A := (list (option A)).
Definition read {A} (m : cells A) (i : Z) : res A :=
  if i <? 0 then Err OutOfBounds else match m !! Z.to_nat i with Some (Some x) => Ok x | _ => Err OutOfBounds end.
Definition write {A} (m : cells A) (i : Z) (x : A) : res (cells A) :=
  if (0 <=? i) && (i <? len m) then Ok (<[Z.to_nat i := Some x]> m) else Err OutOfBounds.
Definition malloc {A} (n : Z) : cells A := replicate (Z.to_nat n) None.
Definition memcpy {A} (dst src : cells A) (n : Z) : res (cells A) :=
  if (0 <=? n) && (n <=? len dst) && (n <=? len src) then Ok (take (Z.to_nat n) src ++ drop (Z.to_nat n) dst)
  else Err OutOfBounds.
Definition realloc {A} (m : cells A) (n : Z) : cells A :=
  take (Z.to_nat n) m ++ replicate (Z.to_nat n - length m) None.

(** ** The parser *)
Definition JSON_PARSER_STACK_SIZE : Z := 128.
Definition JSON_PARSER_PARSE_BUFFER_SIZE : Z := 3500.
(** The array, and whether it is the one inside the parser. *)
Record stack_t := mk_stack { top : Z; stack : cells mode; static_stack : bool; stack_capacity : Z }.
Record buffer_t := mk_buffer {
  buffer : cells Z; static_buffer : bool; parse_buffer_capacity : Z; parse_buffer_count : Z }.
Record JSON_parser := mk_parser {
  jstate : state; before_comment_state : state; type : JSON_type; escaped : bool; comment : bool;
  allow_comments : bool; utf16_high_surrogate : Z; jdepth : Z; modes : stack_t; bytes : buffer_t }.
Implicit Types (jc : JSON_parser) (s : stack_t) (b : buffer_t).
Definition set_state jc x := mk_parser x (before_comment_state jc) (type jc) (escaped jc) (comment jc)
  (allow_comments jc) (utf16_high_surrogate jc) (jdepth jc) (modes jc) (bytes jc).
Definition set_before jc x := mk_parser (jstate jc) x (type jc) (escaped jc) (comment jc)
  (allow_comments jc) (utf16_high_surrogate jc) (jdepth jc) (modes jc) (bytes jc).
Definition set_type jc t := mk_parser (jstate jc) (before_comment_state jc) t (escaped jc) (comment jc)
  (allow_comments jc) (utf16_high_surrogate jc) (jdepth jc) (modes jc) (bytes jc).
Definition set_escaped jc x := mk_parser (jstate jc) (before_comment_state jc) (type jc) x (comment jc)
  (allow_comments jc) (utf16_high_surrogate jc) (jdepth jc) (modes jc) (bytes jc).
Definition set_comment jc x := mk_parser (jstate jc) (before_comment_state jc) (type jc) (escaped jc) x
  (allow_comments jc) (utf16_high_surrogate jc) (jdepth jc) (modes jc) (bytes jc).
Definition set_surrogate jc u := mk_parser (jstate jc) (before_comment_state jc) (type jc) (escaped jc) (comment jc)
  (allow_comments jc) u (jdepth jc) (modes jc) (bytes jc).
Definition set_modes jc s := mk_parser (jstate jc) (before_comment_state jc) (type jc) (escaped jc) (comment jc)
  (allow_comments jc) (utf16_high_surrogate jc) (jdepth jc) s (bytes jc).
Definition set_bytes jc b := mk_parser (jstate jc) (before_comment_state jc) (type jc) (escaped jc) (comment jc)
  (allow_comments jc) (utf16_high_surrogate jc) (jdepth jc) (modes jc) b.

(** *** The stack *)
Definition grow_stack s : res stack_t :=
  let stack_capacity := stack_capacity s * 2 in
  m ← (if static_stack s then memcpy (malloc stack_capacity) (stack s) JSON_PARSER_STACK_SIZE
       else Ok (realloc (stack s) stack_capacity));
  Ok (mk_stack (top s) m false stack_capacity).
Definition store s (m : mode) : res stack_t :=
  l ← write (stack s) (top s) m;
  Ok (mk_stack (top s) l (static_stack s) (stack_capacity s)).
Definition push jc (m : mode) : res (JSON_parser * bool) :=
  let s := mk_stack (top (modes jc) + 1) (stack (modes jc)) (static_stack (modes jc)) (stack_capacity (modes jc)) in
  if jdepth jc <? 0 then
    s ← (if stack_capacity s <=? top s then grow_stack s else Ok s);
    s ← store s m;
    Ok (set_modes jc s, true)
  else if jdepth jc <=? top s then Ok (set_modes jc s, false)
  else s ← store s m; Ok (set_modes jc s, true).
Definition top_mode jc : res mode := read (stack (modes jc)) (top (modes jc)).
Definition pop jc (m : mode) : res (JSON_parser * bool) :=
  let s := modes jc in
  if top s <? 0 then Ok (jc, false) else
  m' ← top_mode jc;
  if bool_decide (m' = m) then Ok (set_modes jc (mk_stack (top s - 1) (stack s) (static_stack s) (stack_capacity s)), true)
  else Ok (jc, false).

(** *** The buffer *)
(** [parse_buffer[count] = 0] after the count changes. *)
Definition terminate b (count : Z) : res buffer_t :=
  m ← write (buffer b) count 0;
  Ok (mk_buffer m (static_buffer b) (parse_buffer_capacity b) count).
(** [parse_buffer[count++] = c] *)
Definition append b (c : Z) : res buffer_t :=
  m ← write (buffer b) (parse_buffer_count b) c;
  Ok (mk_buffer m (static_buffer b) (parse_buffer_capacity b) (parse_buffer_count b + 1)).
Definition grow_parse_buffer b : res buffer_t :=
  let parse_buffer_capacity := parse_buffer_capacity b * 2 in
  m ← (if static_buffer b then memcpy (malloc parse_buffer_capacity) (buffer b) (parse_buffer_count b)
       else Ok (realloc (buffer b) parse_buffer_capacity));
  Ok (mk_buffer m false parse_buffer_capacity (parse_buffer_count b)).
Definition parse_buffer_clear jc : res JSON_parser := b ← terminate (bytes jc) 0; Ok (set_bytes jc b).
Definition parse_buffer_pop_back_char jc : res JSON_parser :=
  assert (1 <=? parse_buffer_count (bytes jc)) ;;
  b ← terminate (bytes jc) (parse_buffer_count (bytes jc) - 1);
  Ok (set_bytes jc b).
Definition parse_buffer_push_back_char jc (c : Z) : res JSON_parser :=
  let b := bytes jc in
  b ← (if parse_buffer_capacity b <=? parse_buffer_count b + 1 then grow_parse_buffer b else Ok b);
  b ← append b (u8 c);
  b ← terminate b (parse_buffer_count b);
  Ok (set_bytes jc b).
(** What is in the buffer, by its count; and [strtod], [sscanf] and [std::string] read
    as far as a zero, which is to be there. *)
Fixpoint read_cells (m : cells Z) (n : nat) : res (list Z) :=
  match n, m with
  | O, _ => Ok []
  | S n, Some c :: m => l ← read_cells m n; Ok (c :: l)
  | _, _ => Err OutOfBounds
  end.
Definition text jc : res (list Z) :=
  let b := bytes jc in
  l ← read_cells (buffer b) (Z.to_nat (parse_buffer_count b));
  z ← read (buffer b) (parse_buffer_count b);
  if z =? 0 then Ok l else Err OutOfBounds.
Definition is_empty jc : bool := parse_buffer_count (bytes jc) =? 0.

(** [memset] leaves zeros in both arrays of the parser; no mode is zero. *)
Definition new_JSON_parser (depth : Z) (allow_comments : bool) : res JSON_parser :=
  let depth := if depth =? 0 then 1 else depth in
  let static := malloc JSON_PARSER_STACK_SIZE in
  let s := if 0 <? depth then
             mk_stack (-1) (if depth <=? JSON_PARSER_STACK_SIZE then static else malloc depth)
               (depth <=? JSON_PARSER_STACK_SIZE) depth
           else mk_stack (-1) static true JSON_PARSER_STACK_SIZE in
  let b := mk_buffer (replicate (Z.to_nat JSON_PARSER_PARSE_BUFFER_SIZE) (Some 0)) true JSON_PARSER_PARSE_BUFFER_SIZE 0 in
  '(jc, _) ← push (mk_parser GO GO T_NONE false false allow_comments 0 (if 0 <? depth then depth else -1) s b) MODE_DONE;
  parse_buffer_clear jc.

(** *** Escapes *)
Fixpoint append_all b (l : list Z) : res buffer_t :=
  match l with
  | [] => Ok b
  | c :: l => b ← append b c; append_all b l
  end.
Definition put jc (uc : Z) (trail_bytes : nat) : res (JSON_parser * bool) :=
  b ← append_all (bytes jc) (utf8 uc trail_bytes);
  b ← terminate b (parse_buffer_count b);
  Ok (set_bytes jc b, true).
Definition decode_unicode_char jc : res (JSON_parser * bool) :=
  let b := bytes jc in
  let n := parse_buffer_count b in
  assert (6 <=? n) ;;
  x ← read (buffer b) (n - 4); d3 ← hex_digit x;
  x ← read (buffer b) (n - 3); d2 ← hex_digit x;
  x ← read (buffer b) (n - 2); d1 ← hex_digit x;
  x ← read (buffer b) (n - 1); d0 ← hex_digit x;
  let uc := Z.lor (Z.lor (Z.lor (Z.shiftl d3 12) (Z.shiftl d2 8)) (Z.shiftl d1 4)) d0 in
  b ← terminate b (n - 6);
  let jc := set_bytes jc b in
  if negb (utf16_high_surrogate jc =? 0) then
    if IS_LOW_SURROGATE uc then
      put (set_surrogate jc 0) (DECODE_SURROGATE_PAIR (utf16_high_surrogate jc) uc) 3%nat
    else Ok (jc, false)
  else if uc <? 0x80 then put jc uc 0%nat
  else if uc <? 0x800 then put jc uc 1%nat
  else if IS_HIGH_SURROGATE uc then Ok (set_surrogate jc uc, true)
  else if IS_LOW_SURROGATE uc then Ok (jc, false)
  else put jc uc 2%nat.
Definition add_escaped_char_to_parse_buffer jc (next_char : Z) : res (JSON_parser * bool) :=
  jc ← parse_buffer_pop_back_char (set_escaped jc false);
  let put c := jc ← parse_buffer_push_back_char jc c; Ok (jc, true) in
  if next_char =? 98 then put 8 else if next_char =? 102 then put 12 else if next_char =? 110 then put 10
  else if next_char =? 114 then put 13 else if next_char =? 116 then put 9
  else if (next_char =? 34) || (next_char =? 92) || (next_char =? 47) then put next_char
  else if next_char =? 117 then
    jc ← parse_buffer_push_back_char jc 92;
    jc ← parse_buffer_push_back_char jc 117;
    Ok (jc, true)
  else Ok (jc, false).
Definition add_char_to_parse_buffer jc (next_char : Z) (next_class : class) : res (JSON_parser * bool) :=
  if escaped jc then add_escaped_char_to_parse_buffer jc next_char
  else if comment jc then Ok (jc, true)
  else if match type jc with T_NONE => is_white next_class | _ => false end then Ok (jc, true)
  else jc ← parse_buffer_push_back_char jc next_char; Ok (jc, true).

Section parser.
Context {F : Type} (strtod : list Z → F) (decimal_point : Z).
Context {C : Type} (callback : C → event F → res (C * bool)).

Definition result : Type := JSON_parser * C * bool.
Definition call jc (c : C) (e : event F) : res result := '(c, r) ← callback c e; Ok (jc, c, r).
Definition and_then (r : res result) (k : JSON_parser → C → res result) : res result :=
  '(jc, c, r) ← r; if (r : bool) then k jc c else Ok (jc, c, false).
Definition finished (p : res (JSON_parser * bool)) (c : C) : res result := '(jc, r) ← p; Ok (jc, c, r).

(** The event of what was read, if it is one. *)
Definition pending jc : res (option (event F)) :=
  match type jc with
  | T_NONE => Ok None
  | T_FLOAT => l ← text jc; Ok (Some (FLOAT (strtod l)))
  | T_INTEGER => l ← text jc; Ok (Some (INTEGER (sscanf_integer l)))
  | T_STRING => l ← text jc; Ok (Some (STRING l))
  | T_NULL => Ok (Some NULL) | T_TRUE => Ok (Some TRUE) | T_FALSE => Ok (Some FALSE)
  end.
Definition parse_parse_buffer jc (c : C) : res result :=
  e ← pending jc;
  and_then (match e with Some e => call jc c e | None => Ok (jc, c, true) end) (λ jc c,
    jc ← parse_buffer_clear jc;
    Ok (jc, c, true)).

Definition is_type_none jc : bool := match type jc with T_NONE => true | _ => false end.
Definition is_type_string jc : bool := match type jc with T_STRING => true | _ => false end.
Definition is_string_null_or_bool jc : bool :=
  match type jc with T_FALSE | T_TRUE | T_NULL | T_STRING => true | _ => false end.
Definition becomes jc (c : C) (t : JSON_type) (x : state) : res result := Ok (set_state (set_type jc t) x, c, true).

Definition comment_begin jc (c : C) : res result :=
  if negb (allow_comments jc) then Ok (jc, c, false) else
  jc ← parse_buffer_pop_back_char jc;
  and_then (parse_parse_buffer jc c) (λ jc c,
    assert (is_empty jc) ;;
    assert (negb (is_type_string jc)) ;;
    m ← top_mode jc;
    let before := match m with
                  | MODE_ARRAY | MODE_OBJECT => match jstate jc with VA => VA | AR => AR | _ => OK end
                  | _ => jstate jc
                  end in
    becomes (set_comment (set_before jc before) true) c T_NONE C1).
Definition swap_mode jc (c : C) (m m' : mode) (k : JSON_parser → C → res result) : res result :=
  and_then (finished (pop jc m) c) (λ jc c, and_then (finished (push jc m') c) k).

Definition perform (a : action) jc (c : C) : res result :=
  match a with
  | UC => '(jc, r) ← decode_unicode_char jc;
          if negb r then Ok (jc, c, false)
          else Ok (set_state jc (if utf16_high_surrogate jc =? 0 then ST else D1), c, true)
  | EX => Ok (set_state (set_escaped jc true) ES, c, true)
  | MX => becomes jc c T_INTEGER MI
  | ZX => becomes jc c T_INTEGER ZE
  | IX => becomes jc c T_INTEGER IT
  | DE => assert (negb (is_string_null_or_bool jc)) ;; becomes jc c T_FLOAT E1
  | DF => assert (negb (is_string_null_or_bool jc)) ;;
          x ← read (buffer (bytes jc)) (parse_buffer_count (bytes jc) - 1);
          assert (x =? 46) ;;
          m ← write (buffer (bytes jc)) (parse_buffer_count (bytes jc) - 1) decimal_point;
          becomes (set_bytes jc (mk_buffer m (static_buffer (bytes jc)) (parse_buffer_capacity (bytes jc))
            (parse_buffer_count (bytes jc)))) c T_FLOAT FX
  | SB => jc ← parse_buffer_clear jc; assert (is_type_none jc) ;; becomes jc c T_STRING ST
  | NU => assert (is_type_none jc) ;; becomes jc c T_NULL N1
  | FA => assert (is_type_none jc) ;; becomes jc c T_FALSE F1
  | TR => assert (is_type_none jc) ;; becomes jc c T_TRUE T1
  | CE => let jc := set_comment jc false in
          assert (is_empty jc) ;; assert (is_type_none jc) ;; Ok (set_state jc (before_comment_state jc), c, true)
  | CB => comment_begin jc c
  | AEmptyObj =>
      jc ← parse_buffer_clear jc;
      and_then (call jc c OBJECT_END) (λ jc c,
      and_then (finished (pop jc MODE_KEY) c) (λ jc c, Ok (set_state jc OK, c, true)))
  | AObjEnd =>
      jc ← parse_buffer_pop_back_char jc;
      and_then (parse_parse_buffer jc c) (λ jc c, and_then (call jc c OBJECT_END) (λ jc c,
      and_then (finished (pop jc MODE_OBJECT) c) (λ jc c, becomes jc c T_NONE OK)))
  | AArrEnd =>
      jc ← parse_buffer_pop_back_char jc;
      and_then (parse_parse_buffer jc c) (λ jc c, and_then (call jc c ARRAY_END) (λ jc c,
      and_then (finished (pop jc MODE_ARRAY) c) (λ jc c, becomes jc c T_NONE OK)))
  | AObj =>
      jc ← parse_buffer_pop_back_char jc;
      and_then (call jc c OBJECT_BEGIN) (λ jc c, and_then (finished (push jc MODE_KEY) c) (λ jc c,
      assert (is_type_none jc) ;; Ok (set_state jc OB, c, true)))
  | AArr =>
      jc ← parse_buffer_pop_back_char jc;
      and_then (call jc c ARRAY_BEGIN) (λ jc c, and_then (finished (push jc MODE_ARRAY) c) (λ jc c,
      assert (is_type_none jc) ;; Ok (set_state jc AR, c, true)))
  | AStrEnd =>
      jc ← parse_buffer_pop_back_char jc;
      m ← top_mode jc;
      match m with
      | MODE_KEY =>
          assert (is_type_string jc) ;;
          let jc := set_state (set_type jc T_NONE) CO in
          l ← text jc;
          and_then (call jc c (KEY l)) (λ jc c, jc ← parse_buffer_clear jc; Ok (jc, c, true))
      | MODE_ARRAY | MODE_OBJECT =>
          assert (is_type_string jc) ;;
          and_then (parse_parse_buffer jc c) (λ jc c, becomes jc c T_NONE OK)
      | _ => Ok (jc, c, false)
      end
  | AComma =>
      jc ← parse_buffer_pop_back_char jc;
      and_then (parse_parse_buffer jc c) (λ jc c,
      m ← top_mode jc;
      match m with
      | MODE_OBJECT => swap_mode jc c MODE_OBJECT MODE_KEY (λ jc c,
          assert (negb (is_type_string jc)) ;; becomes jc c T_NONE KE)
      | MODE_ARRAY => assert (negb (is_type_string jc)) ;; becomes jc c T_NONE VA
      | _ => Ok (jc, c, false)
      end)
  | AColon =>
      jc ← parse_buffer_pop_back_char jc;
      swap_mode jc c MODE_KEY MODE_OBJECT (λ jc c, assert (is_type_none jc) ;; Ok (set_state jc VA, c, true))
  end.

Definition JSON_parser_char jc (c : C) (next_char : Z) : res result :=
  match classify next_char with
  | None => Ok (jc, c, false)
  | Some next_class =>
      '(jc, r) ← add_char_to_parse_buffer jc next_char next_class;
      if negb r then Ok (jc, c, false) else
      match state_transition_table (jstate jc) next_class with
      | To x => Ok (set_state jc x, c, true)
      | Act a => perform a jc c
      | Bad => Ok (jc, c, false)
      end
  end.
Definition JSON_parser_done jc : res (JSON_parser * bool) :=
  match jstate jc with OK => pop jc MODE_DONE | _ => Ok (jc, false) end.
End parser.

(** ** The class [JSON::Parser] over it *)
Section class_.
Context {F H : Type} `{!Handler F H} (strtod : list Z → F) (decimal_point : Z).

Record Parser := mk { parser : JSON_parser; status : Status_t; line : Z; column : Z; charcount : Z; depth : Z; derived : H }.
Definition AllocParser : res JSON_parser := new_JSON_parser (-1) true.
Definition new_Parser (h : H) : res Parser := jc ← AllocParser; Ok (mk jc P_OK 1 0 0 0 h).
Definition Parse_char (p : Parser) (c : Z) : res (Parser * bool) :=
  match status p with
  | P_OK =>
      let charcount := u32 (charcount p + 1) in
      let column_ := if c =? 10 then 0 else u32 (column p + 1) in
      let line := if c =? 10 then u32 (line p + 1) else line p in
      '(jc, (d, h), r) ← JSON_parser_char strtod decimal_point Callback (parser p) (depth p, derived p) c;
      if (r : bool) then
        '(jc, fin) ← (if d =? 0 then JSON_parser_done jc else Ok (jc, false));
        Ok (mk jc (if (fin : bool) then P_DONE else P_OK) line column_ charcount d h, true)
      else Ok (mk jc P_ERROR line column_ charcount d h, false)
  | _ => Ok (p, false)
  end.
Fixpoint Parse (p : Parser) (l : list Z) : res (Parser * Z) :=
  match l with
  | [] => Ok (p, 0)
  | c :: l =>
      '(p, r) ← Parse_char p c;
      if (r : bool) then '(p, n) ← Parse p l; Ok (p, 1 + n) else Ok (p, 0)
  end.
End class_.
Arguments Parser H : clear implicits.

Section variant.
Context {F : Type} `{LongDouble F} (strtod : list Z → F) (decimal_point : Z).
Definition new_JSONToVariant : res (Parser (JV.builder (F := F))) := new_Parser (JV.mk_builder [] []).
Definition finish (p : Parser (JV.builder (F := F))) : res (Variant F) :=
  assert (match status p with P_DONE => true | _ => false end) ;;
  '(v, _) ← JV.top_of (JV.stack (derived p));
  Ok v.
Definition VariantFromJSON (json : list Z) : res (Variant F) :=
  p ← new_JSONToVariant;
  '(p, _) ← Parse strtod decimal_point p json;
  finish p.
End variant.

(** ** It is the automaton over lists *)
(** A list that grows at its head, in the order of an array. *)
Definition written {A} (l : list A) : cells A := Some <$> reverse l.
#[local] Arguments written : simpl never.
Lemma written_cons {A} (x : A) l : written (x :: l) = written l ++ [Some x].
Proof. unfold written. by rewrite reverse_cons, fmap_app. Qed.
Lemma len_written {A} (l : list A) : len (written l) = len l.
Proof. unfold len, written. by rewrite length_fmap, length_reverse. Qed.
Lemma read_at {A} pre (x : A) rest i : i = len pre → read (pre ++ Some x :: rest) i = Ok x.
Proof.
  intros ->. unfold read, len. rewrite (proj2 (Z.ltb_ge _ _)) by lia. by rewrite Nat2Z.id, lookup_app_r, Nat.sub_diag by lia.
Qed.
Lemma write_at {A} pre y rest (x : A) i : i = len pre → write (pre ++ y :: rest) i x = Ok (pre ++ Some x :: rest).
Proof.
  intros ->. unfold write. rewrite (proj2 (Z.leb_le _ _)) by apply len_nonneg. rewrite (proj2 (Z.ltb_lt _ _)).
  - cbn [andb]. unfold len. by rewrite Nat2Z.id, insert_app_r_alt, Nat.sub_diag by lia.
  - rewrite len_app. unfold len. cbn [length]. lia.
Qed.
Lemma len_malloc {A} n : 0 ≤ n → len (malloc (A := A) n) = n.
Proof. intros Hn. unfold len, malloc. rewrite length_replicate. lia. Qed.
Lemma take_whole {A} (l : list A) n : len l ≤ n → take (Z.to_nat n) l = l.
Proof. intros Hn. apply take_ge. unfold len in Hn. lia. Qed.
Lemma nonempty_rest {A} (pre rest : list A) : len pre < len (pre ++ rest) → ∃ y rest', rest = y :: rest'.
Proof. destruct rest as [|y rest]; [rewrite app_nil_r; lia|]. by exists y, rest. Qed.

Definition stack_rel (dp : Z) (l : list mode) s : Prop :=
  top s = len l - 1 ∧ (∃ rest, stack s = written l ++ rest) ∧
  (static_stack s = true → len (stack s) = JSON_PARSER_STACK_SIZE) ∧
  (dp < 0 → stack_capacity s = len (stack s) ∧ 0 < len (stack s)) ∧ (0 ≤ dp → dp ≤ len (stack s)).
Definition buffer_rel (l : list Z) b : Prop :=
  parse_buffer_count b = len l ∧ (∃ rest, buffer b = written l ++ Some 0 :: rest) ∧
  parse_buffer_capacity b = len (buffer b).
Record R jc (k : JP.JSON_parser) : Prop := mk_R {
  R_state : jstate jc = JP.jstate k; R_before : before_comment_state jc = JP.before_comment_state k;
  R_type : type jc = JP.type k; R_escaped : escaped jc = JP.escaped k; R_comment : comment jc = JP.comment k;
  R_allow : allow_comments jc = JP.allow_comments k; R_surrogate : utf16_high_surrogate jc = JP.utf16_high_surrogate k;
  R_depth : jdepth jc = JP.jdepth k;
  R_modes : stack_rel (JP.jdepth k) (JP.modes k) (modes jc);
  R_bytes : buffer_rel (JP.parse_buffer k) (bytes jc) }.

(** *** The stack *)
Lemma grow_stack_ok l s : (∃ rest, stack s = written l ++ rest) → (static_stack s = true → len (stack s) = JSON_PARSER_STACK_SIZE) →
  stack_capacity s = len (stack s) → 0 < len (stack s) →
  ∃ s', grow_stack s = Ok s' ∧ top s' = top s ∧ static_stack s' = false ∧ (∃ rest, stack s' = written l ++ rest) ∧
    len (stack s') = 2 * len (stack s) ∧ stack_capacity s' = len (stack s').
Proof.
  intros [rest E] Hs Hc Hp. unfold grow_stack. rewrite Hc. unfold mbind, res_bind. destruct (static_stack s) eqn:Es.
  - specialize (Hs eq_refl). unfold memcpy. rewrite len_malloc by lia. rewrite !(proj2 (Z.leb_le _ _)) by lia. cbn [andb].
    rewrite take_whole by lia. eexists. split; [reflexivity|]. cbn. rewrite len_app.
    assert (Hd : len (drop (Z.to_nat JSON_PARSER_STACK_SIZE) (malloc (A := mode) (len (stack s) * 2))) = len (stack s)).
    { unfold len at 1. rewrite length_drop. fold (len (malloc (A := mode) (len (stack s) * 2))).
      rewrite Nat2Z.inj_sub_max. fold (len (malloc (A := mode) (len (stack s) * 2))). rewrite len_malloc by lia.
      change (Z.of_nat (Z.to_nat JSON_PARSER_STACK_SIZE)) with JSON_PARSER_STACK_SIZE. lia. }
    rewrite Hd. split_and!; try done; try lia. rewrite E, <- app_assoc. by eexists.
  - unfold realloc. rewrite take_whole by lia. eexists. split; [reflexivity|]. cbn. rewrite len_app.
    assert (Hd : len (replicate (Z.to_nat (len (stack s) * 2) - length (stack s)) (@None mode)) = len (stack s)).
    { unfold len. rewrite length_replicate. lia. }
    rewrite Hd. split_and!; try done; try lia. rewrite E, <- app_assoc. by eexists.
Qed.
Lemma store_written l s m : top s = len l → (∃ rest, stack s = written l ++ rest) → len l < len (stack s) →
  ∃ s', store s m = Ok s' ∧ top s' = top s ∧ static_stack s' = static_stack s ∧ stack_capacity s' = stack_capacity s ∧
    len (stack s') = len (stack s) ∧ ∃ rest, stack s' = written (m :: l) ++ rest.
Proof.
  intros Ht [rest E] Hl. rewrite E, <- (len_written l) in Hl. destruct (nonempty_rest _ _ Hl) as (y & rest' & ->).
  unfold store. rewrite E, write_at by (rewrite len_written; exact Ht). unfold mbind, res_bind. eexists.
  split; [reflexivity|]. cbn. split_and!; try done.
  - unfold len. by rewrite !length_app.
  - exists rest'. by rewrite written_cons, <- app_assoc.
Qed.
Lemma push_sim jc k m : R jc k → ∃ jc', push jc m = Ok (jc', (JP.push k m).2) ∧ ((JP.push k m).2 = true → R jc' (JP.push k m).1).
Proof.
  intros [? ? ? ? ? ? ? Hd (Ht & Hc & Hs & Hn & Hp) ?]. unfold push, JP.push. rewrite Hd, Ht.
  replace (len (JP.modes k) - 1 + 1) with (len (JP.modes k)) by lia.
  destruct (Z.ltb_spec (JP.jdepth k) 0) as [Hneg|Hpos].
  - rewrite (proj2 (Z.leb_gt 0 _)) by done. cbn [andb fst snd]. destruct (Hn Hneg) as [Hcap H0].
    cbn [stack_capacity top]. rewrite Hcap.
    assert (Hg : ∃ s', (if len (stack (modes jc)) <=? len (JP.modes k)
        then grow_stack (mk_stack (len (JP.modes k)) (stack (modes jc)) (static_stack (modes jc)) (stack_capacity (modes jc)))
        else Ok (mk_stack (len (JP.modes k)) (stack (modes jc)) (static_stack (modes jc)) (stack_capacity (modes jc)))) = Ok s' ∧
      top s' = len (JP.modes k) ∧ (∃ rest, stack s' = written (JP.modes k) ++ rest) ∧ len (JP.modes k) < len (stack s') ∧
      (static_stack s' = true → len (stack s') = JSON_PARSER_STACK_SIZE) ∧ stack_capacity s' = len (stack s')).
    { destruct (Z.leb_spec (len (stack (modes jc))) (len (JP.modes k))).
      - destruct (grow_stack_ok (JP.modes k) (mk_stack (len (JP.modes k)) (stack (modes jc)) (static_stack (modes jc)) (stack_capacity (modes jc))))
          as (s' & E & ? & Hst & ? & Hl & ?); [done..|]. exists s'. split; [exact E|]. split_and!; try done.
        + rewrite Hl. cbn. destruct Hc as [rest ->] in *. rewrite len_app, len_written in *. pose proof (len_nonneg rest). lia.
        + by rewrite Hst.
      - eexists. split; [done|]. by split_and!. }
    destruct Hg as (s' & Eg & Ht' & Hc' & Hl' & Hs' & Hcap'). rewrite Hcap in Eg. rewrite Eg. unfold mbind, res_bind.
    destruct (store_written (JP.modes k) s' m Ht' Hc' Hl') as (s2 & -> & Ht2 & Hs2 & Hcap2 & Hl2 & Hr2).
    eexists. split; [reflexivity|]. intros _. constructor; try done. cbn. split_and!; try done.
    + rewrite Ht2, Ht'. unfold len. cbn [length]. lia.
    + rewrite Hs2, Hl2. exact Hs'.
    + intros _. rewrite Hcap2, Hl2. split; [done|]. pose proof (len_nonneg (JP.modes k)). lia.
    + intros ?. exfalso. lia.
  - rewrite (proj2 (Z.leb_le 0 _)) by done. cbn [andb top]. destruct (Z.leb_spec (JP.jdepth k) (len (JP.modes k))) as [Hf|Hr].
    + eexists. split; [reflexivity|]. done.
    + specialize (Hp Hpos).
      destruct (store_written (JP.modes k) (mk_stack (len (JP.modes k)) (stack (modes jc)) (static_stack (modes jc)) (stack_capacity (modes jc))) m)
        as (s2 & -> & Ht2 & Hs2 & Hcap2 & Hl2 & Hr2); [done|done|cbn; lia|]. unfold mbind, res_bind.
      eexists. split; [reflexivity|]. intros _. constructor; try done. cbn in *. split_and!; try done.
      * rewrite Ht2. unfold len. cbn [length]. lia.
      * rewrite Hs2, Hl2. exact Hs.
      * intros ?. exfalso. lia.
      * rewrite Hl2. done.
Qed.
Lemma top_sim jc k : R jc k → top_mode jc = JP.top k.
Proof.
  intros [? ? ? ? ? ? ? Hd (Ht & [rest E] & _) ?]. unfold top_mode, JP.top. rewrite Ht, E.
  destruct (JP.modes k) as [|m l]; [done|]. rewrite written_cons, <- app_assoc. cbn [app].
  apply read_at. rewrite len_written. unfold len. cbn [length]. lia.
Qed.
Lemma pop_ok jc k m : R jc k → ∃ jc', pop jc m = Ok (jc', (JP.pop k m).2) ∧ R jc' (JP.pop k m).1.
Proof.
  intros HR. unfold pop. rewrite (top_sim jc k HR). pose proof HR as [? ? ? ? ? ? ? Hd (Ht & [rest E] & Hs & Hn & Hp) ?].
  rewrite Ht. unfold JP.top, JP.pop. destruct (JP.modes k) as [|m' l] eqn:Em; [by exists jc|].
  rewrite (proj2 (Z.ltb_ge _ _)) by (unfold len; cbn [length]; lia). unfold mbind, res_bind.
  case_bool_decide as Hm; [|by exists jc]. eexists. split; [reflexivity|]. constructor; try done. cbn. split_and!; try done.
  - cbn [top]. unfold len. cbn [length]. lia.
  - cbn [stack]. rewrite E, written_cons, <- app_assoc. by eexists.
Qed.

(** *** The buffer *)
Lemma R_set_bytes jc k b l : R jc k → buffer_rel l b → R (set_bytes jc b) (JP.set_buffer k l).
Proof. by intros [] ?; constructor. Qed.
(** Cells [pre] are kept, and what comes after them is not read. *)
Lemma terminate_written b l n : n = len l → (∃ rest, buffer b = written l ++ rest) → n < len (buffer b) →
  parse_buffer_capacity b = len (buffer b) →
  ∃ b', terminate b n = Ok b' ∧ buffer_rel l b' ∧ len (buffer b') = len (buffer b).
Proof.
  intros Hn [rest E] Hl Hc. rewrite E, Hn, <- (len_written l) in Hl. destruct (nonempty_rest _ _ Hl) as (y & rest' & ->).
  unfold terminate. rewrite E, write_at by (rewrite len_written; done). unfold mbind, res_bind.
  assert (Hlen : len (written l ++ Some 0 :: rest') = len (written l ++ y :: rest')) by (unfold len; by rewrite !length_app).
  eexists. split; [reflexivity|]. cbn. split; [split_and!|]; cbn; [done|by eexists|by rewrite Hlen, <- E|done].
Qed.
Lemma append_ok b l c : parse_buffer_count b = len l → (∃ rest, buffer b = written l ++ rest) → len l < len (buffer b) →
  ∃ b', append b c = Ok b' ∧ parse_buffer_count b' = len l + 1 ∧ (∃ rest, buffer b' = written (c :: l) ++ rest) ∧
    len (buffer b') = len (buffer b) ∧ parse_buffer_capacity b' = parse_buffer_capacity b.
Proof.
  intros Hn [rest E] Hl. rewrite E, <- (len_written l) in Hl. destruct (nonempty_rest _ _ Hl) as (y & rest' & ->).
  unfold append. rewrite E, write_at by (rewrite len_written; done). unfold mbind, res_bind.
  eexists. split; [reflexivity|]. cbn. split_and!; [by rewrite Hn| |unfold len; by rewrite !length_app|done].
  exists rest'. by rewrite written_cons, <- app_assoc.
Qed.
Lemma append_all_ok cs : ∀ b l, parse_buffer_count b = len l → (∃ rest, buffer b = written l ++ rest) →
  len l + len cs <= len (buffer b) →
  ∃ b', append_all b cs = Ok b' ∧ parse_buffer_count b' = len l + len cs ∧ (∃ rest, buffer b' = written (reverse cs ++ l) ++ rest) ∧
    len (buffer b') = len (buffer b) ∧ parse_buffer_capacity b' = parse_buffer_capacity b.
Proof.
  induction cs as [|c cs IH]; intros b l Hn Hc Hl; cbn [append_all].
  { exists b. split; [done|]. rewrite len_nil, Z.add_0_r. by split_and!. }
  assert (Hcs : len (c :: cs) = 1 + len cs) by (unfold len; cbn [length]; lia). pose proof (len_nonneg cs).
  destruct (append_ok b l c Hn Hc ltac:(lia)) as (b1 & -> & Hn1 & Hc1 & Hl1 & Hcap1). unfold mbind, res_bind.
  assert (Hcl : len (c :: l) = len l + 1) by (unfold len; cbn [length]; lia).
  destruct (IH b1 (c :: l)) as (b2 & E & Hn2 & Hc2 & Hl2 & Hcap2); [congruence|done|lia|].
  exists b2. split; [exact E|]. split_and!; [lia| |lia|congruence]. by rewrite reverse_cons, <- app_assoc.
Qed.
Lemma grow_parse_buffer_ok b l : parse_buffer_count b = len l → (∃ rest, buffer b = written l ++ rest) →
  parse_buffer_capacity b = len (buffer b) →
  ∃ b', grow_parse_buffer b = Ok b' ∧ parse_buffer_count b' = len l ∧ (∃ rest, buffer b' = written l ++ rest) ∧
    parse_buffer_capacity b' = len (buffer b') ∧ len (buffer b') = 2 * len (buffer b).
Proof.
  intros Hn [rest E] Hc. unfold grow_parse_buffer. rewrite Hc, Hn. unfold mbind, res_bind.
  assert (Hle : len l <= len (buffer b)) by (rewrite E, len_app, len_written; pose proof (len_nonneg rest); lia).
  pose proof (len_nonneg l). destruct (static_buffer b).
  - unfold memcpy. rewrite len_malloc by lia. rewrite !(proj2 (Z.leb_le _ _)) by lia. cbn [andb].
    eexists. split; [reflexivity|]. cbn.
    assert (Ht : take (Z.to_nat (len l)) (buffer b) = written l).
    { rewrite E, <- (len_written l). unfold len. by rewrite Nat2Z.id, take_app_length. }
    rewrite Ht, len_app, len_written, len_drop; rewrite len_malloc; try lia. split_and!; [done|by eexists|lia|lia].
  - unfold realloc. rewrite take_whole by lia. eexists. split; [reflexivity|]. cbn. rewrite len_app.
    assert (Hd : len (replicate (Z.to_nat (len (buffer b) * 2) - length (buffer b)) (@None Z)) = len (buffer b)).
    { unfold len. rewrite length_replicate. lia. }
    rewrite Hd. split_and!; [done| |lia|lia]. rewrite E, <- app_assoc. by eexists.
Qed.
Lemma rel_cells l b : buffer_rel l b → (∃ rest, buffer b = written l ++ rest) ∧ len l < len (buffer b).
Proof.
  intros (_ & [rest E] & _). split; [by eexists|]. rewrite E, len_app, len_written. unfold len. cbn [length]. lia.
Qed.
Lemma clear_ok jc k : R jc k → ∃ jc', parse_buffer_clear jc = Ok jc' ∧ R jc' (JP.parse_buffer_clear k).
Proof.
  intros HR. pose proof (R_bytes _ _ HR) as Hb. destruct (rel_cells _ _ Hb) as [_ Hl]. destruct Hb as (_ & _ & Hc).
  destruct (terminate_written (bytes jc) [] 0) as (b & E & Hb & _); [done|by eexists|pose proof (len_nonneg (JP.parse_buffer k)); lia|done|].
  unfold parse_buffer_clear, mbind, res_bind. rewrite E. eexists. split; [done|]. by apply R_set_bytes.
Qed.
Lemma push_back_ok jc k c : R jc k →
  ∃ jc', parse_buffer_push_back_char jc c = Ok jc' ∧ R jc' (JP.parse_buffer_push_back_char k c).
Proof.
  intros HR. pose proof (R_bytes _ _ HR) as Hb. destruct (rel_cells _ _ Hb) as [Hc Hl]. destruct Hb as (Hn & _ & Hcap).
  unfold parse_buffer_push_back_char. set (l := JP.parse_buffer k) in *. pose proof (len_nonneg l).
  assert (Hg : ∃ b, (if parse_buffer_capacity (bytes jc) <=? parse_buffer_count (bytes jc) + 1 then grow_parse_buffer (bytes jc)
      else Ok (bytes jc)) = Ok b ∧ parse_buffer_count b = len l ∧ (∃ rest, buffer b = written l ++ rest) ∧
    parse_buffer_capacity b = len (buffer b) ∧ len l + 1 < len (buffer b)).
  { rewrite Hcap, Hn. destruct (Z.leb_spec (len (buffer (bytes jc))) (len l + 1)).
    - destruct (grow_parse_buffer_ok (bytes jc) l Hn Hc Hcap) as (b & E & ? & ? & ? & Hd). exists b. split_and!; try done. lia.
    - by exists (bytes jc). }
  destruct Hg as (b & -> & Hn1 & Hc1 & Hcap1 & Hl1). unfold mbind, res_bind.
  destruct (append_ok b l (u8 c) Hn1 Hc1 ltac:(lia)) as (b2 & -> & Hn2 & Hc2 & Hl2 & Hcap2).
  assert (Hcl : len (u8 c :: l) = len l + 1) by (unfold len; cbn [length]; lia).
  destruct (terminate_written b2 (u8 c :: l) (parse_buffer_count b2)) as (b3 & -> & Hb3 & _); [congruence|done|lia|congruence|].
  eexists. split; [done|]. by apply R_set_bytes.
Qed.
Lemma pop_back_ok jc k : R jc k →
  match parse_buffer_pop_back_char jc, JP.parse_buffer_pop_back_char k with
  | Ok jc', Ok k' => R jc' k'
  | Err e, Err e' => e = e'
  | _, _ => False
  end.
Proof.
  intros HR. pose proof (R_bytes _ _ HR) as Hb. destruct (rel_cells _ _ Hb) as [[rest Ec] Hl]. destruct Hb as (Hn & _ & Hcap).
  unfold parse_buffer_pop_back_char, JP.parse_buffer_pop_back_char, assert. rewrite Hn. destruct (JP.parse_buffer k) as [|c l] eqn:E.
  { rewrite len_nil. done. }
  assert (Hcl : len (c :: l) = len l + 1) by (unfold len; cbn [length]; lia). pose proof (len_nonneg l).
  rewrite (proj2 (Z.leb_le _ _)) by lia. unfold mbind, res_bind.
  destruct (terminate_written (bytes jc) l (len (c :: l) - 1)) as (b & -> & Hb & _); [lia| |lia|done|by apply R_set_bytes].
  rewrite Ec, written_cons, <- app_assoc. by eexists.
Qed.
Lemma text_ok jc k : R jc k → text jc = Ok (reverse (JP.parse_buffer k)).
Proof.
  intros HR. destruct (R_bytes _ _ HR) as (Hn & [rest E] & _). unfold text. rewrite Hn, E.
  assert (Hr : ∀ l (m : cells Z), read_cells ((Some <$> l) ++ m) (length l) = Ok l).
  { intros l. induction l as [|c l IH]; intros m; [by destruct m|]. cbn. by rewrite IH. }
  replace (Z.to_nat (len (JP.parse_buffer k))) with (length (reverse (JP.parse_buffer k)))
    by (rewrite length_reverse; unfold len; lia).
  rewrite (Hr _ _ : read_cells (written _ ++ _) _ = _).
  unfold mbind, res_bind. by rewrite read_at by by rewrite len_written.
Qed.
Lemma empty_ok jc k : R jc k → is_empty jc = match JP.parse_buffer k with [] => true | _ => false end.
Proof. intros HR. destruct (R_bytes _ _ HR) as (Hn & _). unfold is_empty. rewrite Hn. by destruct (JP.parse_buffer k). Qed.

(** *** Operations that do the same *)
Definition same {A B} (rel : A → B → Prop) (r : res A) (r' : res B) : Prop :=
  match r, r' with Ok x, Ok y => rel x y | Err e, Err e' => e = e' | _, _ => False end.
(** They return the same; when that is [true], what they leave corresponds. *)
Definition R_bool (x : JSON_parser * bool) (y : JP.JSON_parser * bool) : Prop := x.2 = y.2 ∧ (y.2 = true → R x.1 y.1).
Lemma same_bind {A B A' B'} (rel : A → B → Prop) (rel' : A' → B' → Prop) r r' k k' :
  same rel r r' → (∀ x y, rel x y → same rel' (k x) (k' y)) → same rel' (r ≫= k) (r' ≫= k').
Proof. intros Hr Hk. destruct r, r'; cbn in Hr; try done. by apply Hk. Qed.
Lemma same_eq {A A' B'} (rel' : A' → B' → Prop) (r : res A) k k' :
  (∀ x, same rel' (k x) (k' x)) → same rel' (r ≫= k) (r ≫= k').
Proof. intros Hk. destruct r; [apply Hk|done]. Qed.
Lemma same_pop_back jc k : R jc k → same R (parse_buffer_pop_back_char jc) (JP.parse_buffer_pop_back_char k).
Proof. apply pop_back_ok. Qed.

Lemma utf8_length uc n : length (utf8 uc n) = S n.
Proof. unfold utf8. cbn [length]. f_equal. induction n as [|n IH]; cbn [trail length]; congruence. Qed.
Lemma put_ok jc k uc n : R jc k → len (JP.parse_buffer k) + 5 <= len (buffer (bytes jc)) → (n <= 3)%nat →
  ∃ jc', put jc uc n = Ok (jc', true) ∧ R jc' (JP.set_buffer k (reverse (utf8 uc n) ++ JP.parse_buffer k)).
Proof.
  intros HR Hl Hn. pose proof (R_bytes _ _ HR) as Hb. destruct (rel_cells _ _ Hb) as [Hc _]. destruct Hb as (Hk & _ & Hcap).
  assert (Hu : len (utf8 uc n) <= 4) by (unfold len; rewrite utf8_length; lia).
  unfold put. destruct (append_all_ok (utf8 uc n) (bytes jc) _ Hk Hc ltac:(lia)) as (b & -> & Hk1 & Hc1 & Hl1 & Hcap1).
  unfold mbind, res_bind.
  destruct (terminate_written b (reverse (utf8 uc n) ++ JP.parse_buffer k) (parse_buffer_count b)) as (b2 & -> & Hb2 & _).
  - rewrite Hk1, len_app. unfold len. rewrite length_reverse. lia.
  - done.
  - lia.
  - congruence.
  - eexists. split; [done|]. by apply R_set_bytes.
Qed.
Lemma same_put jc k uc n : R jc k → len (JP.parse_buffer k) + 5 <= len (buffer (bytes jc)) → (n <= 3)%nat →
  same R_bool (put jc uc n) (Ok (JP.set_buffer k (reverse (utf8 uc n) ++ JP.parse_buffer k), true)).
Proof. intros HR Hl Hn. destruct (put_ok jc k uc n HR Hl Hn) as (jc' & -> & ?). by split. Qed.
Lemma R_set_surrogate jc k u : R jc k → R (set_surrogate jc u) (JP.set_surrogate k u).
Proof. by intros []; constructor. Qed.

Lemma same_decode jc k : R jc k → same R_bool (decode_unicode_char jc) (JP.decode_unicode_char k).
Proof.
  intros HR. destruct (R_bytes _ _ HR) as (Hn & [rest Ec] & Hcap). unfold decode_unicode_char, JP.decode_unicode_char, assert.
  rewrite Hn. destruct (JP.parse_buffer k) as [|d0 [|d1 [|d2 [|d3 [|y [|z l]]]]]] eqn:E; try done.
  assert (Hl6 : len (d0 :: d1 :: d2 :: d3 :: y :: z :: l) = len l + 6) by (unfold len; cbn [length]; lia).
  rewrite Hl6, (proj2 (Z.leb_le _ _)) by (pose proof (len_nonneg l); lia). unfold mbind at 1, res_bind at 1.
  assert (Ew : buffer (bytes jc) = written l ++ [Some z; Some y; Some d3; Some d2; Some d1; Some d0; Some 0] ++ rest).
  { rewrite Ec, !written_cons, <- !app_assoc. done. }
  assert (Hread : ∀ pre c post i, buffer (bytes jc) = written l ++ pre ++ Some c :: post → i = len l + len pre →
    read (buffer (bytes jc)) i = Ok c).
  { intros pre c post i -> ->. rewrite app_assoc. apply read_at. by rewrite len_app, len_written. }
  rewrite (Hread [Some z; Some y] d3 _ (len l + 6 - 4) Ew), (Hread [Some z; Some y; Some d3] d2 _ (len l + 6 - 3) Ew),
    (Hread [Some z; Some y; Some d3; Some d2] d1 _ (len l + 6 - 2) Ew),
    (Hread [Some z; Some y; Some d3; Some d2; Some d1] d0 _ (len l + 6 - 1) Ew) by (unfold len; cbn [length]; lia).
  clear Hread. do 4 (unfold mbind at 1, res_bind at 1; apply same_eq; intros ?).
  set (uc := Z.lor _ _). clearbody uc.
  assert (Hlen : len l + 7 <= len (buffer (bytes jc))).
  { rewrite Ew, !len_app, len_written. unfold len at 3. cbn [length]. pose proof (len_nonneg rest). lia. }
  destruct (terminate_written (bytes jc) l (len l + 6 - 6)) as (b & -> & Hb & Hlb); [lia|by rewrite Ew; eexists|lia|done|].
  unfold mbind at 1, res_bind at 1.
  assert (HR1 : R (set_bytes jc b) (JP.set_buffer k l)) by by apply R_set_bytes.
  assert (Hroom : len (JP.parse_buffer (JP.set_buffer k l)) + 5 <= len (buffer (bytes (set_bytes jc b)))) by (cbn; lia).
  rewrite (R_surrogate _ _ HR1). revert HR1 Hroom. generalize (set_bytes jc b), (JP.set_buffer k l).
  intros jc1 k1 HR1 Hroom. destruct (negb (JP.utf16_high_surrogate k1 =? 0)).
  - destruct (IS_LOW_SURROGATE uc); [|done]. apply same_put; [by apply R_set_surrogate|done|lia].
  - destruct (uc <? 0x80); [apply same_put; [done..|lia]|]. destruct (uc <? 0x800); [apply same_put; [done..|lia]|].
    destruct (IS_HIGH_SURROGATE uc); [split; [done|]; intros _; by apply R_set_surrogate|].
    destruct (IS_LOW_SURROGATE uc); [done|]. apply same_put; [done..|lia].
Qed.
Lemma same_push_back jc k c : R jc k →
  same R_bool (jc ← parse_buffer_push_back_char jc c; Ok (jc, true)) (Ok (JP.parse_buffer_push_back_char k c, true)).
Proof. intros HR. destruct (push_back_ok jc k c HR) as (jc' & -> & ?). by split. Qed.
Lemma R_set_escaped jc k x : R jc k → R (set_escaped jc x) (JP.set_escaped k x).
Proof. by intros []; constructor. Qed.
Lemma same_add_escaped jc k c : R jc k →
  same R_bool (add_escaped_char_to_parse_buffer jc c) (JP.add_escaped_char_to_parse_buffer k c).
Proof.
  intros HR. unfold add_escaped_char_to_parse_buffer, JP.add_escaped_char_to_parse_buffer.
  apply (same_bind R); [by apply same_pop_back, R_set_escaped|]. intros jc1 k1 HR1. cbv zeta.
  repeat (match goal with |- same _ (if ?t then _ else _) _ => destruct t end; [try by apply same_push_back|]); [|done].
  destruct (push_back_ok jc1 k1 92 HR1) as (jc2 & -> & HR2). by apply same_push_back.
Qed.
Lemma same_add_char jc k c cl : R jc k → same R_bool (add_char_to_parse_buffer jc c cl) (JP.add_char_to_parse_buffer k c cl).
Proof.
  intros HR. unfold add_char_to_parse_buffer, JP.add_char_to_parse_buffer.
  rewrite (R_escaped _ _ HR), (R_comment _ _ HR), (R_type _ _ HR).
  destruct (JP.escaped k); [by apply same_add_escaped|]. destruct (JP.comment k); [by split|].
  destruct (match JP.type k with T_NONE => is_white cl | _ => false end); [by split|]. by apply same_push_back.
Qed.

Section sim.
Context {F : Type} (strtod : list Z → F) (decimal_point : Z).
Context {C : Type} (callback : C → event F → res (C * bool)).
Definition R_result (x : JSON_parser * C * bool) (y : JP.JSON_parser * C * bool) : Prop :=
  x.1.2 = y.1.2 ∧ x.2 = y.2 ∧ (y.2 = true → R x.1.1 y.1.1).
Notation sim := (same R_result).

Lemma sim_ok jc k c : R jc k → sim (Ok (jc, c, true)) (Ok (k, c, true)).
Proof. intros HR. split; [done|]. by split. Qed.
Lemma sim_no jc k c : sim (Ok (jc, c, false)) (Ok (k, c, false)).
Proof. split; [done|]. by split. Qed.
Lemma sim_then r r' k k' : sim r r' → (∀ x y c, R x y → sim (k x c) (k' y c)) → sim (and_then r k) (JP.and_then r' k').
Proof.
  intros Hr Hk. unfold and_then, JP.and_then. apply (same_bind R_result); [done|].
  intros [[x c] b] [[y c'] b'] (Hc & Hb & HR). cbn in *. subst. destruct b'; [by apply Hk, HR|apply sim_no].
Qed.
Lemma sim_call jc k c e : R jc k → sim (call callback jc c e) (JP.call callback k c e).
Proof. intros HR. unfold call, JP.call. apply same_eq. intros [c' b]. split; [done|]. by split. Qed.
Lemma sim_pop jc k c m : R jc k → sim (finished (pop jc m) c) (JP.finished (JP.pop k m) c).
Proof. intros HR. destruct (pop_ok jc k m HR) as (jc' & -> & ?). split; [done|]. by split. Qed.
Lemma sim_push jc k c m : R jc k → sim (finished (push jc m) c) (JP.finished (JP.push k m) c).
Proof. intros HR. destruct (push_sim jc k m HR) as (jc' & -> & ?). split; [done|]. by split. Qed.
Lemma sim_becomes jc k c t x : R jc k → sim (becomes jc c t x) (JP.becomes k c t x).
Proof. intros []. apply sim_ok. by constructor. Qed.
Lemma R_set_state jc k x : R jc k → R (set_state jc x) (JP.set_state k x).
Proof. by intros []; constructor. Qed.
Lemma none_ok jc k : R jc k → is_type_none jc = JP.is_type_none k.
Proof. intros HR. unfold is_type_none, JP.is_type_none. by rewrite (R_type _ _ HR). Qed.
Lemma string_ok jc k : R jc k → is_type_string jc = JP.is_type_string k.
Proof. intros HR. unfold is_type_string, JP.is_type_string. by rewrite (R_type _ _ HR). Qed.
Lemma word_ok jc k : R jc k → is_string_null_or_bool jc = JP.is_string_null_or_bool k.
Proof. intros HR. unfold is_string_null_or_bool, JP.is_string_null_or_bool. by rewrite (R_type _ _ HR). Qed.
Lemma pending_ok jc k : R jc k → pending strtod jc = Ok (JP.pending strtod k).
Proof.
  intros HR. unfold pending, JP.pending. rewrite (R_type _ _ HR), (text_ok jc k HR). by destruct (JP.type k).
Qed.
(** After a clear. *)
Lemma sim_clear jc k c : R jc k → sim (jc ← parse_buffer_clear jc; Ok (jc, c, true)) (Ok (JP.parse_buffer_clear k, c, true)).
Proof. intros HR. destruct (clear_ok jc k HR) as (jc' & -> & ?). by apply sim_ok. Qed.
Lemma sim_parse_parse_buffer jc k c : R jc k →
  sim (parse_parse_buffer strtod callback jc c) (JP.parse_parse_buffer strtod callback k c).
Proof.
  intros HR. unfold parse_parse_buffer, JP.parse_parse_buffer. rewrite (pending_ok jc k HR). unfold mbind at 1, res_bind at 1.
  apply sim_then; [|by intros; apply sim_clear]. destruct (JP.pending strtod k); [by apply sim_call|by apply sim_ok].
Qed.
Lemma sim_comment jc k c : R jc k → sim (comment_begin strtod callback jc c) (JP.comment_begin strtod callback k c).
Proof.
  intros HR. unfold comment_begin, JP.comment_begin. rewrite (R_allow _ _ HR). destruct (JP.allow_comments k); cbn [negb]; [|apply sim_no].
  apply (same_bind R); [by apply same_pop_back|]. intros jc1 k1 HR1. apply sim_then; [by apply sim_parse_parse_buffer|].
  intros jc2 k2 c2 HR2. rewrite (empty_ok _ _ HR2), (string_ok _ _ HR2), (top_sim _ _ HR2), (R_state _ _ HR2).
  do 3 (apply same_eq; intros ?). apply sim_becomes. destruct HR2. by constructor.
Qed.
Lemma sim_swap jc k c m m' f f' : R jc k → (∀ x y c, R x y → sim (f x c) (f' y c)) →
  sim (swap_mode jc c m m' f) (JP.swap_mode k c m m' f').
Proof.
  intros HR Hf. unfold swap_mode, JP.swap_mode. apply sim_then; [by apply sim_pop|]. intros x y c' Hxy.
  apply sim_then; [by apply sim_push|done].
Qed.
(** The steps that the actions are made of. *)
Ltac step :=
  lazymatch goal with
  | |- sim (and_then _ _) _ =>
      apply sim_then; [first [by apply sim_parse_parse_buffer | by apply sim_call | by apply sim_pop | by apply sim_push]|intros ????]
  | |- sim (parse_buffer_pop_back_char _ ≫= _) _ => apply (same_bind R); [by apply same_pop_back|intros ???]
  | |- sim (swap_mode _ _ _ _ _) _ => apply sim_swap; [done|intros ????]
  | |- sim (assert (is_type_none ?jc) ≫= _) _ => erewrite none_ok by eassumption; apply same_eq; intros _
  | |- sim (assert (is_type_string ?jc) ≫= _) _ => erewrite string_ok by eassumption; apply same_eq; intros _
  | |- sim (assert (negb (is_type_string ?jc)) ≫= _) _ => erewrite string_ok by eassumption; apply same_eq; intros _
  | |- sim (assert (negb (is_string_null_or_bool ?jc)) ≫= _) _ => erewrite word_ok by eassumption; apply same_eq; intros _
  | |- sim (top_mode _ ≫= _) _ => erewrite top_sim by eassumption; apply same_eq; intros []
  | |- sim (becomes _ _ _ _) _ => by apply sim_becomes
  | |- sim (Ok (set_state _ _, _, true)) _ => by apply sim_ok, R_set_state
  | |- sim (Ok (_, _, false)) _ => apply sim_no
  end.
Lemma sim_point jc k c : R jc k → sim (perform strtod decimal_point callback DF jc c) (JP.perform strtod decimal_point callback DF k c).
Proof.
  intros HR. cbn [perform JP.perform]. step. destruct (R_bytes _ _ HR) as (Hn & [rest E] & Hcap). rewrite Hn, E.
  destruct (JP.parse_buffer k) as [|x l]; [done|]. rewrite written_cons, <- app_assoc. cbn [app].
  assert (Hl : len (x :: l) - 1 = len (written l)) by (rewrite len_written; unfold len; cbn [length]; lia).
  rewrite Hl, read_at, write_at by done. unfold mbind at 1, res_bind at 1. apply same_eq. intros _.
  unfold mbind, res_bind. apply sim_becomes, R_set_bytes; [done|].
  split_and!; cbn [parse_buffer_count buffer parse_buffer_capacity].
  - done.
  - exists rest. by rewrite written_cons, <- app_assoc.
  - rewrite Hcap, E, written_cons. unfold len. by rewrite <- app_assoc, !length_app.
Qed.
Lemma sim_perform a jc k c : R jc k → sim (perform strtod decimal_point callback a jc c) (JP.perform strtod decimal_point callback a k c).
Proof.
  intros HR. destruct a; try (cbn [perform JP.perform]; by repeat step).
  - by apply sim_comment.
  - cbn [perform JP.perform]. cbv zeta. assert (HR' : R (set_comment jc false) (JP.set_comment k false)) by (destruct HR; by constructor).
    rewrite (empty_ok _ _ HR'). apply same_eq. intros _. step. rewrite (R_before _ _ HR'). step.
  - by apply sim_point.
  - cbn [perform JP.perform]. destruct (clear_ok jc k HR) as (jc' & -> & HR'). unfold mbind at 1, res_bind at 1. by repeat step.
  - cbn [perform JP.perform]. by apply sim_ok, R_set_state, R_set_escaped.
  - cbn [perform JP.perform]. apply (same_bind R_bool); [by apply same_decode|]. intros [x b] [y b'] [Hb Hx]. cbn in Hb, Hx. subst.
    destruct b'; cbn [negb]; [|step]. rewrite (R_surrogate _ _ (Hx eq_refl)). apply sim_ok, R_set_state. by apply Hx.
  - cbn [perform JP.perform]. destruct (clear_ok jc k HR) as (jc' & -> & HR'). unfold mbind at 1, res_bind at 1. by repeat step.
  - cbn [perform JP.perform]. step. step; try by repeat step.
    step. cbv zeta. assert (HR1 : R (set_state (set_type x T_NONE) CO) (JP.set_state (JP.set_type y T_NONE) CO)).
    { match goal with Hxy : R x y |- _ => destruct Hxy end. by constructor. }
    rewrite (text_ok _ _ HR1). unfold mbind at 1, res_bind at 1. step. by apply sim_clear.
Qed.
Lemma sim_char jc k c ch : R jc k →
  sim (JSON_parser_char strtod decimal_point callback jc c ch) (JP.JSON_parser_char strtod decimal_point callback k c ch).
Proof.
  intros HR. unfold JSON_parser_char, JP.JSON_parser_char. destruct (classify ch) as [cl|]; [|apply sim_no].
  apply (same_bind R_bool); [by apply same_add_char|]. intros [x b] [y b'] [Hb Hx]. cbn in Hb, Hx. subst.
  destruct b'; cbn [negb]; [|apply sim_no]. specialize (Hx eq_refl). rewrite (R_state _ _ Hx).
  destruct (state_transition_table (JP.jstate y) cl); [by apply sim_ok, R_set_state|by apply sim_perform|apply sim_no].
Qed.
Lemma done_ok jc k : R jc k → ∃ jc', JSON_parser_done jc = Ok (jc', (JP.JSON_parser_done k).2) ∧ R jc' (JP.JSON_parser_done k).1.
Proof.
  intros HR. unfold JSON_parser_done, JP.JSON_parser_done. rewrite (R_state _ _ HR).
  destruct (JP.jstate k); try (by exists jc). by apply pop_ok.
Qed.
End sim.

(** *** The class *)
Section class_sim.
Context {F H : Type} `{!Handler F H} (strtod : list Z → F) (decimal_point : Z).
(** Alike; and the automata correspond, unless the text was refused. *)
Record alike (p : Parser H) (q : JP.Parser H) : Prop := mk_alike {
  a_status : status p = JP.status q; a_line : line p = JP.line q; a_column : column p = JP.column q;
  a_charcount : charcount p = JP.charcount q; a_depth : depth p = JP.depth q; a_derived : derived p = JP.derived q;
  a_parser : JP.status q ≠ P_ERROR → R (parser p) (JP.parser q) }.
Definition both {A} (x : Parser H * A) (y : JP.Parser H * A) : Prop := alike x.1 y.1 ∧ x.2 = y.2.

Lemma same_Parse_char p q c : alike p q → same both (Parse_char strtod decimal_point p c) (JP.Parse_char strtod decimal_point q c).
Proof.
  intros Ha. pose proof Ha as [Hs Hl Hc Hn Hd Hh Hp]. unfold Parse_char, JP.Parse_char. rewrite Hs.
  destruct (JP.status q) eqn:Eq; [|by split..]. rewrite Hl, Hc, Hn, Hd, Hh. cbv zeta.
  apply (same_bind R_result); [by apply sim_char, Hp|]. intros [[x [d h]] r] [[y o] r'] (Ho & Hr & HR). cbn in Ho, Hr, HR. subst.
  destruct r'; [|by split]. specialize (HR eq_refl). destruct (d =? 0).
  - destruct (done_ok x y HR) as (x' & -> & HR'). unfold mbind, res_bind. destruct (JP.JSON_parser_done y) as [y' fin]. by split.
  - by split.
Qed.
Lemma same_Parse l : ∀ p q, alike p q → same both (Parse strtod decimal_point p l) (JP.Parse strtod decimal_point q l).
Proof.
  induction l as [|c l IH]; intros p q Ha; cbn [Parse JP.Parse]; [by split|].
  apply (same_bind both); [by apply same_Parse_char|]. intros [p1 r] [q1 r'] [Ha1 Hr]. cbn in Ha1, Hr. subst.
  destruct r'; [|by split]. apply (same_bind both); [by apply IH|]. intros [p2 n] [q2 n'] [Ha2 Hn]. cbn in Ha2, Hn. subst. by split.
Qed.
Lemma new_JSON_parser_ok depth al : ∃ jc, new_JSON_parser depth al = Ok jc ∧ R jc (JP.new_JSON_parser depth al).
Proof.
  unfold new_JSON_parser, JP.new_JSON_parser. set (d := if depth =? 0 then 1 else depth).
  replace (if depth =? 0 then 1 else if 0 <? depth then depth else -1) with (if 0 <? d then d else -1).
  2:{ unfold d. destruct (Z.eqb_spec depth 0) as [->|]; done. }
  cbv zeta. match goal with |- context [push ?j MODE_DONE] => set (jc := j) end.
  match goal with |- context [JP.push ?j MODE_DONE] => set (k := j) end.
  assert (HR : R jc k).
  { constructor; try done; unfold jc, k; cbn [modes bytes JP.modes JP.parse_buffer JP.jdepth].
    - destruct (Z.ltb_spec 0 d); (split; [done|]); (split; [by eexists|]); cbn [stack static_stack stack_capacity].
      + split; [by destruct (Z.leb_spec d JSON_PARSER_STACK_SIZE)|]. split; [lia|]. intros _.
        destruct (Z.leb_spec d JSON_PARSER_STACK_SIZE); [done|]. by rewrite len_malloc by lia.
      + split; [done|]. by split; [|lia].
    - split; [done|]. split; [by eexists|]. cbn [buffer parse_buffer_capacity]. unfold len. by rewrite length_replicate. }
  destruct (push_sim jc k MODE_DONE HR) as (jc' & -> & Hp). unfold mbind, res_bind.
  assert (Ht : (JP.push k MODE_DONE).2 = true).
  { unfold JP.push, k. cbn [JP.jdepth JP.modes]. change (len (@nil mode)) with 0. destruct (Z.ltb_spec 0 d); [|done].
    rewrite (proj2 (Z.leb_gt d 0)) by lia. by rewrite andb_false_r. }
  destruct (clear_ok jc' (JP.push k MODE_DONE).1 (Hp Ht)) as (jc2 & -> & HR2). exists jc2. split; [done|].
  replace (JP.push k MODE_DONE).1 with (JP.parse_buffer_clear (JP.push k MODE_DONE).1); [done|].
  unfold JP.push, k. cbn [JP.jdepth JP.modes]. by destruct (_ && _).
Qed.
Lemma new_Parser_ok h : ∃ p, new_Parser h = Ok p ∧ alike p (JP.new_Parser h).
Proof.
  destruct (new_JSON_parser_ok (-1) true) as (jc & E & HR). unfold new_Parser, AllocParser. rewrite E.
  eexists. split; [reflexivity|]. by constructor.
Qed.
End class_sim.

Section variant_sim.
Context {F : Type} `{LongDouble F} (strtod : list Z → F) (decimal_point : Z).

(** So reading a text gives what the automaton over lists gives: the round trip
    [JV.json_round_trip] holds of it. *)
Lemma VariantFromJSON_lists l : VariantFromJSON strtod decimal_point l = JV.VariantFromJSON strtod decimal_point l.
Proof.
  unfold VariantFromJSON, JV.VariantFromJSON, new_JSONToVariant, JV.new_JSONToVariant.
  destruct (new_Parser_ok (JV.mk_builder (F := F) [] [])) as (p & -> & Ha). unfold mbind at 1, res_bind at 1.
  pose proof (same_Parse strtod decimal_point l _ _ Ha) as Hs.
  destruct (Parse strtod decimal_point p l) as [[p' n]|e], (JP.Parse strtod decimal_point (JP.new_Parser (JV.mk_builder [] [])) l)
    as [[q' n']|e']; cbn in Hs; try done; [|by subst].
  destruct Hs as [[Hst _ _ _ _ Hd _] _]. cbn in Hst, Hd. unfold mbind, res_bind, finish, JV.finish, JV.Get, Done. by rewrite Hst, Hd.
Qed.

(** C22: Whatever characters the parser of variants is given, no assertion fails, and it
    reads and writes inside its buffer, which grows in time, and its stacks, only cells
    that it has written: after any text the top of its stack of modes is the number of open
    containers, for each of which there is a value on the stack of values, and when it is
    done there is exactly one, an array or an object, which is the result. *)
Theorem json_parser_is_safe l : ∃ p0 p n, new_JSONToVariant (F := F) = Ok p0 ∧ Parse strtod decimal_point p0 l = Ok (p, n) ∧
  match status p with
  | P_OK => Z.of_nat (length (JV.stack (derived p))) = top (modes (parser p)) ∧
      top (modes (parser p)) < len (stack (modes (parser p))) ∧
      parse_buffer_count (bytes (parser p)) < len (buffer (bytes (parser p))) ∧
      parse_buffer_capacity (bytes (parser p)) = len (buffer (bytes (parser p)))
  | P_DONE => ∃ v, JV.stack (derived p) = [v] ∧ JV.is_container v = true ∧ VariantFromJSON strtod decimal_point l = Ok v
  | P_ERROR => VariantFromJSON strtod decimal_point l = Err AssertFailed
  end.
Proof.
  destruct (new_Parser_ok (JV.mk_builder (F := F) [] [])) as (p0 & E0 & Ha).
  destruct (JS.parser_is_safe strtod decimal_point l) as (q & n & Eq & Hq).
  pose proof (same_Parse strtod decimal_point l _ _ Ha) as Hs. change (JP.new_Parser _) with (JV.new_JSONToVariant (F := F)) in Hs.
  rewrite Eq in Hs. destruct (Parse strtod decimal_point p0 l) as [[p n']|e] eqn:Ep; [|done].
  destruct Hs as [[Hst _ _ _ _ Hd HR] Hn]. cbn in Hst, Hd, HR, Hn. subst n'. exists p0, p, n. split; [done|]. split; [done|].
  rewrite VariantFromJSON_lists, Hst, Hd. destruct (JP.status q); [|done..].
  destruct (HR ltac:(done)) as [_ _ _ _ _ _ _ _ (Ht & [rest Ec] & _) Hb].
  destruct (rel_cells _ _ Hb) as [_ Hl]. destruct Hb as (Hc & _ & Hcap). rewrite Ht, Hc. split_and!; [|rewrite Ec|done|done].
  - unfold len. lia.
  - rewrite len_app, len_written. pose proof (len_nonneg rest). lia.
Qed.
End variant_sim.
End JM.
