(* ===== verification/Connections.v ===== *)
(** [libraries/CPN/ConnectionServer]: where the connections of remote queues meet the
    ends that wait for them.

    The listening socket gives the descriptors of the connections that it accepts, with
    the bytes that their first read gives; the calls of the context and of the socket
    that is connected are parameters.  A [PendingConnection] is shared between the map
    and its callers, so the map and the callers have indices into the list of all. *)
From S2P Require Import Prelude Packet.

Module CS.
Import Packet.
Open Scope Z_scope.
Open Scope list_scope.

(** A future with a descriptor, -1 for none. *)
Record PendingConnection := mk_pending { p_key : Z; p_done : bool; p_canceled : bool; p_fd : Z }.
Implicit Types (c : PendingConnection).
Definition new_pending (key : Z) : PendingConnection := mk_pending key false false (-1).
Definition Done c : bool := p_done c || p_canceled c.
Definition Cancel c : PendingConnection := mk_pending (p_key c) (p_done c) true (p_fd c).
Definition Set_ (filed : Z) c : PendingConnection := mk_pending (p_key c) true (p_canceled c) filed.

(** The multimap has its entries in the order in which they came, which is the order of
    those of one key. *)
Record server := mk_server {
  closed : bool; enabled : bool; pendingconnections : list (Z * nat); conns : list PendingConnection }.
Implicit Types (s : server).
Definition new_server : server := mk_server false true [] [].
Definition set_pending s l := mk_server (closed s) (enabled s) l (conns s).
Definition set_conns s l := mk_server (closed s) (enabled s) (pendingconnections s) l.
Definition update (id : nat) (f : PendingConnection → PendingConnection) s : server := set_conns s (alter f id (conns s)).
(** [new PendingConnection(key, this)], in the map or not. *)
Definition make (key : Z) s : nat * server := (length (conns s), set_conns s (conns s ++ [new_pending key])).
Definition make_pending (key : Z) s : nat * server :=
  let (id, s) := make key s in (id, set_pending s (pendingconnections s ++ [(key, id)])).

(** The first of the key that is not done, and the one that [find] gives (the standard
    leaves open which of a key; this is the one of the library in use, the first). *)
Fixpoint not_done (key : Z) (l : list (Z * nat)) (all : list PendingConnection) : option nat :=
  match l with
  | [] => None
  | (k, id) :: l => if (k =? key) && match all !! id with Some c => negb (Done c) | None => false end then Some id
                    else not_done key l all
  end.
Fixpoint find_first (key : Z) (l : list (Z * nat)) : option nat :=
  match l with [] => None | (k, id) :: l => if k =? key then Some id else find_first key l end.

(** The key that a first packet is for. *)
Definition announces (header : list Z) : option Z :=
  if negb (len header =? PACKET_HEADERLENGTH) then None
  else if negb (ValidPacket header) then None
  else match Type_ header with
       | Some PACKET_ID_READER | Some PACKET_ID_WRITER => Some (DestinationKey header)
       | _ => None
       end.
(** [Poll], when a connection is accepted: one that is not kept is closed. *)
Definition Poll (filed : Z) (header : list Z) s : server :=
  match announces header with
  | None => s
  | Some key =>
      let (id, s) := match not_done key (pendingconnections s) (conns s) with
                     | Some id => (id, s)
                     | None => make_pending key s
                     end in
      update id (Set_ filed) s
  end.
Definition cancel_all s : server := foldl (λ s e, update e.2 Cancel s) s (pendingconnections s).
Definition Close s : server := cancel_all (mk_server true (enabled s) (pendingconnections s) (conns s)).
Definition Disable s : server := mk_server (closed s) false (pendingconnections s) (conns s).
Definition Enable s : server := cancel_all (mk_server (closed s) true (pendingconnections s) (conns s)).

(** The packet of a writer that connects to its reader. *)
Definition writer_packet (writerkey readerkey : Z) : list Z :=
  set dstkey readerkey (set srckey writerkey (InitPacket 0 PACKET_ID_WRITER)).
Section calls.
Context (GetWritersReader GetReaderKernel : Z → res Z) (GetKernelConnectionInfo : Z → res (string * string)).
(** The descriptor of a connection, and how much of a packet is written to it. *)
Context (Connect : string * string → res Z) (Write : Z → list Z → Z).
Definition dial (writerkey : Z) : res (option Z) :=
  readerkey ← GetWritersReader writerkey;
  kernelkey ← GetReaderKernel readerkey;
  address ← GetKernelConnectionInfo kernelkey;
  filed ← Connect address;
  Ok (if Write filed (writer_packet writerkey readerkey) =? PACKET_HEADERLENGTH then Some filed else None).
Definition dialed (writerkey : Z) (o : option Z) s : nat * server :=
  let (id, s) := make writerkey s in
  (id, update id (match o with Some filed => Set_ filed | None => Cancel end) s).
Definition ConnectWriter (writerkey : Z) s : res (option nat * server) :=
  if closed s then Ok (None, s) else
  if enabled s then o ← dial writerkey; let (id, s) := dialed writerkey o s in Ok (Some id, s)
  else let (id, s) := make_pending writerkey s in Ok (Some id, s).
End calls.
Definition ConnectReader (readerkey : Z) s : option nat * server :=
  if closed s then (None, s) else
  match find_first readerkey (pendingconnections s) with
  | Some id => (Some id, s)
  | None => let (id, s) := make_pending readerkey s in (Some id, s)
  end.
Fixpoint erase_first (key : Z) (id : nat) (l : list (Z * nat)) : list (Z * nat) :=
  match l with
  | [] => []
  | (k, i) :: l => if (k =? key) && (i =? id)%nat then l else (k, i) :: erase_first key id l
  end.
Definition PendingDone (key : Z) (id : nat) s : server := set_pending s (erase_first key id (pendingconnections s)).
(** [Get], up to where it takes the descriptor; it waits while there is none. *)
Definition Get_fd (id : nat) s : option (Z * server) :=
  match conns s !! id with
  | Some c => if Done c then Some (p_fd c, update id (λ c, mk_pending (p_key c) (p_done c) (p_canceled c) (-1)) s) else None
  | None => None
  end.
Definition Get_end (id : nat) s : server :=
  match conns s !! id with Some c => PendingDone (p_key c) id s | None => s end.

(** ** What happens at a server *)
Inductive op :=
  | OPoll (filed : Z) (header : list Z) | OClose | ODisable | OEnable
  | OWriter (writerkey : Z) (o : option Z)      (** what [dial] gave, if it is called *)
  | OReader (readerkey : Z) | OGet (id : nat) | OGot (id : nat).
Definition apply (o : op) s : server :=
  match o with
  | OPoll filed header => Poll filed header s
  | OClose => Close s | ODisable => Disable s | OEnable => Enable s
  | OWriter key r => if closed s then s else if enabled s then (dialed key r s).2 else (make_pending key s).2
  | OReader key => (ConnectReader key s).2
  | OGet id => match Get_fd id s with Some (_, s) => s | None => s end
  | OGot id => Get_end id s
  end.
Definition run (l : list op) s : server := foldl (λ s o, apply o s) s l.
(** The connections that come in, or are made, with the keys they are for, and those that
    callers get. *)
Definition comes (o : op) s : list (Z * Z) :=
  match o with
  | OPoll filed header => match announces header with Some key => [(key, filed)] | None => [] end
  | OWriter key (Some filed) => if negb (closed s) && enabled s then [(key, filed)] else []
  | _ => []
  end.
Definition gets (o : op) s : list (Z * Z) :=
  match o with
  | OGet id => match conns s !! id, Get_fd id s with
               | Some c, Some (filed, _) => if filed =? -1 then [] else [(p_key c, filed)]
               | _, _ => []
               end
  | _ => []
  end.
Fixpoint log (f : op → server → list (Z * Z)) (l : list op) s : list (Z * Z) :=
  match l with [] => [] | o :: l => f o s ++ log f l (apply o s) end.

(** ** No connection is lost, or given twice *)
Definition token c : list (Z * Z) := if p_fd c =? -1 then [] else [(p_key c, p_fd c)].
Definition held s : list (Z * Z) := conns s ≫= token.
Record ok s : Prop := {
  ok_entries : Forall (λ e, ∃ c, conns s !! e.2 = Some c ∧ p_key c = e.1) (pendingconnections s);
  ok_empty : ∀ id c, conns s !! id = Some c → p_done c = false → p_fd c = -1 }.

Lemma held_alter f l : ∀ id c, l !! id = Some c →
  ∃ rest, l ≫= token ≡ₚ token c ++ rest ∧ (alter f id l : list PendingConnection) ≫= token ≡ₚ token (f c) ++ rest.
Proof.
  induction l as [|c0 l IH]; intros id c Hc; [done|]. destruct id as [|id]; cbn in Hc |- *.
  - injection Hc as ->. by exists (l ≫= token).
  - destruct (IH id c Hc) as (rest & E1 & E2). exists (token c0 ++ rest). split.
    + change (token c0 ++ (l ≫= token) ≡ₚ token c ++ token c0 ++ rest). rewrite E1. by rewrite Permutation_app_swap_app.
    + change (token c0 ++ (alter f id l ≫= token) ≡ₚ token (f c) ++ token c0 ++ rest). rewrite E2. by rewrite Permutation_app_swap_app.
Qed.
(** What an update does to what is held. *)
Lemma held_update id f s c : conns s !! id = Some c →
  ∃ rest, held s ≡ₚ token c ++ rest ∧ held (update id f s) ≡ₚ token (f c) ++ rest.
Proof. intros Hc. apply (held_alter f (conns s) id c Hc). Qed.
Lemma alter_none {A} (f : A → A) (l : list A) : ∀ id, l !! id = None → alter f id l = l.
Proof. induction l as [|x l IH]; intros [|id] Hid; cbn in *; try done. f_equal. by apply IH. Qed.
Lemma token_same f s id : (∀ c, token (f c) = token c) → held (update id f s) ≡ₚ held s.
Proof.
  intros Hf. destruct (conns s !! id) as [c|] eqn:Ec.
  - destruct (held_update id f s c Ec) as (rest & -> & ->). by rewrite Hf.
  - unfold held, update. cbn [set_conns conns]. by rewrite alter_none.
Qed.
Lemma update_ok id f s : ok s → (∀ c, p_key (f c) = p_key c) → (∀ c, (p_done c = false → p_fd c = -1) → p_done (f c) = false → p_fd (f c) = -1) → ok (update id f s).
Proof.
  intros [He Hf] Hk Hd. split; cbn [update set_conns conns pendingconnections].
  - eapply Forall_impl; [exact He|]. intros [k i] (c & Ec & Ek). cbn in *. destruct (decide (i = id)) as [->|Hne].
    + exists (f c). rewrite list_lookup_alter_eq, Ec. split; [done|]. by rewrite Hk.
    + exists c. by rewrite list_lookup_alter_ne.
  - intros i c. destruct (decide (i = id)) as [->|Hne].
    + rewrite list_lookup_alter_eq. destruct (conns s !! id) as [c0|] eqn:E0; [|done]. intros [= <-]. apply Hd. eauto.
    + rewrite list_lookup_alter_ne by done. apply Hf.
Qed.
Lemma make_server_ok key s : ok s → ok (make key s).2 ∧ held (make key s).2 = held s ∧ conns (make key s).2 !! (make key s).1 = Some (new_pending key).
Proof.
  intros [He Hf]. split_and!.
  - split; cbn.
    + eapply Forall_impl; [exact He|]. intros e (c & Ec & Ek). exists c. split; [|done]. by apply lookup_app_l_Some.
    + intros id c [Hc | [_ Hc]]%lookup_app_Some; [by eapply Hf|]. by apply list_lookup_singleton_Some in Hc as [_ <-].
  - unfold held. cbn. rewrite bind_app. cbn. by rewrite app_nil_r.
  - cbn. by rewrite lookup_app_r, Nat.sub_diag.
Qed.
Lemma make_pending_ok key s : ok s → ok (make_pending key s).2 ∧ held (make_pending key s).2 = held s ∧
  conns (make_pending key s).2 !! (make_pending key s).1 = Some (new_pending key).
Proof.
  intros Hs. destruct (make_server_ok key s Hs) as ([He Hf] & Hh & Hc). split_and!; [|done..]. split; [|done].
  cbn. apply Forall_app. split; [done|]. apply Forall_singleton. exists (new_pending key). done.
Qed.
Lemma cancel_all_ok s : ok s → ok (cancel_all s) ∧ held (cancel_all s) ≡ₚ held s.
Proof.
  unfold cancel_all. generalize (pendingconnections s). intros l. revert s. induction l as [|e l IH]; intros s Hs; [done|].
  cbn [foldl]. destruct (IH (update e.2 Cancel s)) as [H1 H2]; [by apply update_ok|]. split; [done|].
  rewrite H2. by apply token_same.
Qed.
Lemma not_done_some key l all id : not_done key l all = Some id → (key, id) ∈ l ∧ ∃ c, all !! id = Some c ∧ Done c = false.
Proof.
  induction l as [|[k i] l IH]; cbn; [done|]. destruct (k =? key) eqn:Ek; cbn [andb].
  - destruct (all !! i) as [c|] eqn:Ec; [|intros [H1 H2]%IH; split; [by right|done]].
    destruct (Done c) eqn:Ed; cbn [negb]; [intros [H1 H2]%IH; split; [by right|done]|].
    intros [= <-]. apply Z.eqb_eq in Ek as ->. split; [by left|by exists c].
  - intros [H1 H2]%IH. split; [by right|done].
Qed.
Lemma erase_sub key id l e : e ∈ erase_first key id l → e ∈ l.
Proof.
  induction l as [|[k i] l IH]; cbn; [done|]. destruct (_ && _); [by right|].
  intros [->|He]%elem_of_cons; [by left|right; auto].
Qed.
Lemma set_fd_held key filed id s c : ok s → filed ≠ -1 → conns s !! id = Some c → p_key c = key → p_fd c = -1 →
  ok (update id (Set_ filed) s) ∧ held (update id (Set_ filed) s) ≡ₚ (key, filed) :: held s.
Proof.
  intros Hs Hn Hc Hk Hf. split; [by apply update_ok|]. destruct (held_update id (Set_ filed) s c Hc) as (rest & -> & ->).
  unfold token, Set_. cbn. rewrite Hf, (proj2 (Z.eqb_neq filed (-1)) Hn), Hk. done.
Qed.

Definition has_fd (o : op) : Prop :=
  match o with OPoll filed _ => filed ≠ -1 | OWriter _ (Some filed) => filed ≠ -1 | _ => True end.
Lemma apply_conserves o s : ok s → has_fd o → ok (apply o s) ∧ comes o s ++ held s ≡ₚ gets o s ++ held (apply o s).
Proof.
  intros Hs Ho. destruct o as [filed header| | | |key r|key|id|id]; cbn [apply comes gets app].
  - unfold Poll. destruct (announces header) as [key|]; [|done].
    destruct (not_done key (pendingconnections s) (conns s)) as [id|] eqn:E.
    + apply not_done_some in E as (Hin & c & Hc & Hd). pose proof (ok_entries s Hs) as He. rewrite Forall_forall in He.
      destruct (He _ Hin) as (c' & Hc' & Hk). cbn in *. rewrite Hc in Hc'. injection Hc' as <-.
      apply orb_false_iff in Hd as [Hd _]. destruct (set_fd_held key filed id s c) as [H1 H2]; [done..|by apply (ok_empty s Hs id)|].
      split; [done|]. by rewrite H2.
    + destruct (make_pending_ok key s Hs) as (H1 & H2 & H3). destruct (make_pending key s) as [id s']. cbn [fst snd] in *.
      destruct (set_fd_held key filed id s' (new_pending key)) as [H4 H5]; [done..|]. split; [done|]. by rewrite H5, H2.
  - destruct (cancel_all_ok (mk_server true (enabled s) (pendingconnections s) (conns s))) as [H1 H2]; [by split; apply Hs|].
    split; [done|]. by rewrite H2.
  - split; [by split; apply Hs|done].
  - destruct (cancel_all_ok (mk_server (closed s) true (pendingconnections s) (conns s))) as [H1 H2]; [by split; apply Hs|].
    split; [done|]. by rewrite H2.
  - destruct (closed s) eqn:Ec; cbn [negb andb]; [by destruct r|]. destruct (enabled s) eqn:Ee.
    + unfold dialed. destruct (make_server_ok key s Hs) as (H1 & H2 & H3). destruct (make key s) as [id s']. cbn [fst snd] in *.
      destruct r as [filed|].
      * destruct (set_fd_held key filed id s' (new_pending key)) as [H4 H5]; [done..|]. split; [done|]. by rewrite H5, H2.
      * split; [by apply update_ok|]. rewrite token_same by done. by rewrite H2.
    + destruct (make_pending_ok key s Hs) as (H1 & H2 & H3). destruct (make_pending key s) as [id s']. cbn [fst snd] in *.
      split; [done|]. rewrite H2. by destruct r.
  - unfold ConnectReader. destruct (closed s); [done|]. destruct (find_first key (pendingconnections s)); [done|].
    destruct (make_pending_ok key s Hs) as (H1 & H2 & H3). destruct (make_pending key s) as [id s']. cbn [fst snd] in *. by rewrite H2.
  - unfold Get_fd. destruct (conns s !! id) as [c|] eqn:Ec; [|done]. destruct (Done c); [|done].
    split; [by apply update_ok|]. destruct (held_update id (λ c, mk_pending (p_key c) (p_done c) (p_canceled c) (-1)) s c Ec) as (rest & -> & ->).
    unfold token. cbn. destruct (p_fd c =? -1); done.
  - unfold Get_end. destruct (conns s !! id) as [c|]; [|done]. split; [|done]. destruct Hs as [He Hf]. split; [|done].
    cbn. rewrite Forall_forall in *. intros e Hin%erase_sub. by apply He.
Qed.
Lemma run_conserves l : ∀ s, ok s → Forall has_fd l → ok (run l s) ∧ log comes l s ++ held s ≡ₚ log gets l s ++ held (run l s).
Proof.
  induction l as [|o l IH]; intros s Hs Hl; [done|]. apply Forall_cons in Hl as [Ho Hl].
  destruct (apply_conserves o s Hs Ho) as [H1 H2]. destruct (IH (apply o s) H1 Hl) as [H3 H4]. split; [done|].
  cbn [log]. change (run (o :: l) s) with (run l (apply o s)).
  rewrite <- !app_assoc, (Permutation_app_comm (log comes l _)), app_assoc, H2, <- app_assoc, (Permutation_app_comm (held _)), H4. done.
Qed.
Lemma new_server_ok : ok new_server.
Proof. split; [done|]. by intros id c. Qed.

(** C20: Whatever connections come in, and whichever ends of queues ask for theirs, wait, get them
    or give up, in any order: every connection that was accepted or made is either kept
    for the key that it is for or was given to one caller for that key, and to no other. *)
Theorem connections_are_conserved l : Forall has_fd l →
  log comes l new_server ≡ₚ log gets l new_server ++ held (run l new_server).
Proof.
  intros Hl. destruct (run_conserves l new_server new_server_ok Hl) as [_ H]. by rewrite app_nil_r in H.
Qed.

(** ** The reader of a queue meets its writer *)
Definition entries (key : Z) s : list (Z * nat) := filter (λ e, e.1 = key) (pendingconnections s).
(** What is there for a key does not change. *)
Definition same (key : Z) s s' : Prop := closed s' = closed s ∧ entries key s' = entries key s ∧
  ∀ id c, conns s !! id = Some c → p_key c = key → conns s' !! id = Some c.
(** What has to do with other keys only, and does not close the server. *)
Definition foreign (key : Z) (o : op) s : Prop :=
  match o with
  | OPoll _ header => announces header ≠ Some key
  | OClose | OEnable => False
  | ODisable => True
  | OWriter k _ | OReader k => k ≠ key
  | OGet id | OGot id => ∀ c, conns s !! id = Some c → p_key c ≠ key
  end.
Fixpoint foreign_run (key : Z) (l : list op) s : Prop :=
  match l with [] => True | o :: l => foreign key o s ∧ foreign_run key l (apply o s) end.

Lemma same_server_refl key s : same key s s.
Proof. done. Qed.
Lemma same_trans key s1 s2 s3 : same key s1 s2 → same key s2 s3 → same key s1 s3.
Proof. intros (C1 & E1 & F1) (C2 & E2 & F2). split; [congruence|]. split; [congruence|]. eauto. Qed.
Lemma update_same key id f s : (∀ c, conns s !! id = Some c → p_key c ≠ key) → same key s (update id f s).
Proof.
  intros Hk. split; [done|]. split; [done|]. intros i c Hc Hi. cbn. rewrite list_lookup_alter_ne; [done|].
  intros ->. by apply (Hk c).
Qed.
Lemma make_pending_same key k s : k ≠ key → same key s (make_pending k s).2.
Proof.
  intros Hk. split; [done|]. split.
  - unfold entries. cbn. rewrite filter_app, filter_cons_False by done. by rewrite app_nil_r.
  - intros id c Hc _. cbn. by apply lookup_app_l_Some.
Qed.
Lemma make_same key k s : same key s (make k s).2.
Proof. split; [done|]. split; [done|]. intros id c Hc _. cbn. by apply lookup_app_l_Some. Qed.
Lemma erase_other key k id l : k ≠ key → filter (λ e, e.1 = key) (erase_first k id l) = filter (λ e, e.1 = key) l.
Proof.
  intros Hk. induction l as [|[k' i] l IH]; [done|]. cbn [erase_first]. destruct (k' =? k) eqn:E; cbn [andb].
  - apply Z.eqb_eq in E as ->. destruct (i =? id)%nat; rewrite !(filter_cons_False _ (k, i)) by done; done.
  - rewrite !filter_cons. by rewrite IH.
Qed.
Lemma apply_same key o s : ok s → foreign key o s → same key s (apply o s).
Proof.
  intros Hs Hf. destruct o as [filed header| | | |k r|k|id|id]; cbn [apply foreign] in *; try done.
  - unfold Poll. destruct (announces header) as [k|]; [|done]. assert (Hk : k ≠ key) by congruence.
    destruct (not_done k (pendingconnections s) (conns s)) as [id|] eqn:E.
    + apply update_same. apply not_done_some in E as (Hin & _). pose proof (ok_entries s Hs) as He. rewrite Forall_forall in He.
      destruct (He _ Hin) as (c' & Hc' & Hk'). cbn in *. intros c Hc. congruence.
    + destruct (make_pending_ok k s Hs) as (_ & _ & H3). pose proof (make_pending_same key k s Hk) as Hsame.
      destruct (make_pending k s) as [id s']. cbn [fst snd] in *. eapply same_trans; [exact Hsame|].
      apply update_same. intros c Hc. rewrite H3 in Hc. by injection Hc as <-.
  - destruct (closed s); [done|]. destruct (enabled s).
    + unfold dialed. destruct (make_server_ok k s Hs) as (_ & _ & H3). pose proof (make_same key k s) as Hsame.
      destruct (make k s) as [id s']. cbn [fst snd] in *. eapply same_trans; [exact Hsame|].
      apply update_same. intros c Hc. rewrite H3 in Hc. by injection Hc as <-.
    + by apply make_pending_same.
  - unfold ConnectReader. destruct (closed s); [done|]. destruct (find_first k (pendingconnections s)); [done|].
    pose proof (make_pending_same key k s Hf) as Hsame. by destruct (make_pending k s).
  - unfold Get_fd. destruct (conns s !! id) as [c|] eqn:Ec; [|done]. destruct (Done c); [|done].
    apply update_same. intros c' Hc'. apply Hf. congruence.
  - unfold Get_end. destruct (conns s !! id) as [c|] eqn:Ec; [|done]. split; [done|]. split; [|done].
    apply erase_other. by apply Hf.
Qed.
Lemma run_same key l : ∀ s, ok s → Forall has_fd l → foreign_run key l s → same key s (run l s).
Proof.
  induction l as [|o l IH]; intros s Hs Hl Hf; [done|]. apply Forall_cons in Hl as [Ho Hl]. destruct Hf as [Hfo Hf].
  eapply same_trans; [by apply apply_same|]. apply IH; [by apply apply_conserves|done..].
Qed.
Lemma not_done_entries key s : not_done key (pendingconnections s) (conns s) = not_done key (entries key s) (conns s).
Proof.
  unfold entries. induction (pendingconnections s) as [|[k id] l IH]; [done|]. cbn [not_done]. destruct (k =? key) eqn:E.
  - apply Z.eqb_eq in E as ->. rewrite filter_cons_True by done. cbn [not_done]. rewrite Z.eqb_refl. by rewrite IH.
  - apply Z.eqb_neq in E. rewrite filter_cons_False by done. exact IH.
Qed.
Lemma find_first_entries key s : find_first key (pendingconnections s) = snd <$> head (entries key s).
Proof.
  unfold entries. induction (pendingconnections s) as [|[k id] l IH]; [done|]. cbn [find_first]. destruct (k =? key) eqn:E.
  - apply Z.eqb_eq in E as ->. by rewrite filter_cons_True.
  - apply Z.eqb_neq in E. rewrite filter_cons_False by done. exact IH.
Qed.
Lemma make_pending_entries key s : entries key (make_pending key s).2 = entries key s ++ [(key, (make_pending key s).1)].
Proof. unfold entries. cbn. rewrite filter_app, (filter_cons_True _ (key, _)) by done. done. Qed.
Lemma erase_entries key id s : entries key s = [(key, id)] → entries key (PendingDone key id s) = [].
Proof.
  unfold entries. cbn. induction (pendingconnections s) as [|[k i] l IH]; [done|]. cbn [erase_first]. destruct (k =? key) eqn:E; cbn [andb].
  - apply Z.eqb_eq in E as ->. rewrite filter_cons_True by done. intros [= -> El]. rewrite Nat.eqb_refl. exact El.
  - apply Z.eqb_neq in E. rewrite !filter_cons_False by done. exact IH.
Qed.
Lemma update_entries key id f s : entries key (update id f s) = entries key s.
Proof. done. Qed.

(** The caller with a connection that was accepted gets it, and it is forgotten. *)
Definition gets_it (key : Z) (id : nat) (filed : Z) s : Prop :=
  ∃ s', Get_fd id s = Some (filed, s') ∧ entries key (Get_end id s') = [].
Lemma ready_gets key id filed s : entries key s = [(key, id)] → conns s !! id = Some (mk_pending key true false filed) → gets_it key id filed s.
Proof.
  intros He Hc. unfold gets_it, Get_fd. rewrite Hc. eexists. split; [reflexivity|]. unfold Get_end. cbn [update set_conns conns].
  rewrite list_lookup_alter_eq, Hc. cbn [fmap option_fmap option_map p_key]. by apply erase_entries.
Qed.
Lemma writer_announces w key : 0 ≤ key < 18446744073709551616 → announces (writer_packet w key) = Some key.
Proof.
  intros Hk. assert (Hl : len (InitPacket 0 PACKET_ID_WRITER) = 64) by apply len_Init.
  destruct (set_spec srckey w _ Hl) as [Hl1 _]. destruct (set_spec dstkey key _ Hl1) as [Hl2 _].
  unfold announces, writer_packet, ValidPacket, Type_, DestinationKey. rewrite Hl2. cbn [negb Z.eqb PACKET_HEADERLENGTH Pos.eqb].
  rewrite !get_set_spec by done. cbn [same_slot offset Z.eqb Pos.eqb].
  change (get syncWord (InitPacket 0 PACKET_ID_WRITER) =? PACKET_SYNCWORD) with true.
  change (type_of (get dataType (InitPacket 0 PACKET_ID_WRITER))) with (Some PACKET_ID_WRITER). cbn [negb]. f_equal.
  by apply Z.mod_small.
Qed.

(** C19: A reader asks for its connection, and a writer's connection comes in with the packet that
    [ConnectWriter] sends: whichever is first, and whatever happens for other keys
    before, between and after, the reader gets this connection, and nothing is left
    for its key. *)
Theorem reader_meets_writer w key filed l1 l2 s : ok s → closed s = false → entries key s = [] →
  0 ≤ key < 18446744073709551616 → filed ≠ -1 → Forall has_fd l1 → Forall has_fd l2 →
  (∃ id, (ConnectReader key s).1 = Some id ∧
    let s1 := (ConnectReader key s).2 in let s2 := Poll filed (writer_packet w key) (run l1 s1) in
    (foreign_run key l1 s1 → foreign_run key l2 s2 → gets_it key id filed (run l2 s2))) ∧
  (let s1 := Poll filed (writer_packet w key) s in
   foreign_run key l1 s1 → ∃ id, (ConnectReader key (run l1 s1)).1 = Some id ∧
     let s2 := (ConnectReader key (run l1 s1)).2 in (foreign_run key l2 s2 → gets_it key id filed (run l2 s2))).
Proof.
  intros Hs Hc He Hk Hfd Hl1 Hl2. pose proof (writer_announces w key Hk) as Ha.
  destruct (make_pending_ok key s Hs) as (Mo & _ & Mc). pose proof (make_pending_entries key s) as Me. rewrite He in Me. cbn [app] in Me.
  assert (Mcl : closed (make_pending key s).2 = false) by done. split.
  - unfold ConnectReader. rewrite Hc, find_first_entries, He. cbn [head fmap option_fmap option_map].
    destruct (make_pending key s) as [id s1]. cbn [fst snd] in *. exists id. split; [done|]. cbn zeta. intros F1 F2.
    destruct (run_same key l1 s1 Mo Hl1 F1) as (C1 & E1 & K1). pose proof (run_conserves l1 s1 Mo Hl1) as [O1 _].
    set (s2 := run l1 s1) in *. specialize (K1 id _ Mc eq_refl).
    assert (Hp : Poll filed (writer_packet w key) s2 = update id (Set_ filed) s2).
    { unfold Poll. rewrite Ha, not_done_entries, E1, Me. cbn [not_done]. by rewrite Z.eqb_refl, K1. }
    assert (O2 : ok (Poll filed (writer_packet w key) s2)) by by apply (apply_conserves (OPoll filed (writer_packet w key)) s2).
    rewrite Hp in *. destruct (run_same key l2 _ O2 Hl2 F2) as (C2 & E2 & K2).
    apply ready_gets; [by rewrite E2, update_entries, E1, Me|]. apply K2; [|done]. cbn. by rewrite list_lookup_alter_eq, K1.
  - assert (Hp : Poll filed (writer_packet w key) s = update (make_pending key s).1 (Set_ filed) (make_pending key s).2).
    { unfold Poll. rewrite Ha, not_done_entries, He. by destruct (make_pending key s). }
    assert (O1 : ok (Poll filed (writer_packet w key) s)) by by apply (apply_conserves (OPoll filed (writer_packet w key)) s).
    cbn zeta. rewrite Hp in *. destruct (make_pending key s) as [id s1]. cbn [fst snd] in *. intros F1.
    destruct (run_same key l1 _ O1 Hl1 F1) as (C1 & E1 & K1). pose proof (run_conserves l1 _ O1 Hl1) as [O2 _].
    specialize (K1 id (mk_pending key true false filed)).
    assert (K1' : conns (run l1 (update id (Set_ filed) s1)) !! id = Some (mk_pending key true false filed)).
    { apply K1; [|done]. cbn. by rewrite list_lookup_alter_eq, Mc. }
    unfold ConnectReader. rewrite C1. cbn [update set_conns closed]. rewrite Mcl, find_first_entries, E1, update_entries, Me.
    cbn [head fmap option_fmap option_map]. exists id. split; [done|]. cbn [snd]. intros F2.
    destruct (run_same key l2 _ O2 Hl2 F2) as (C2 & E2 & K2). apply ready_gets; [by rewrite E2, E1, update_entries, Me|].
    by apply K2.
Qed.
Lemma connections_are_conserved_witness :
  log comes [OPoll 5 (writer_packet 1 2); OReader 2; OGet 0; OGot 0; OPoll 6 (writer_packet 1 2)] new_server ≡ₚ [(2, 5)] ++ [(2, 6)].
Proof. apply connections_are_conserved. by repeat constructor. Defined.
Lemma reader_meets_writer_witness :
  ∃ id, (ConnectReader 2 new_server).1 = Some id ∧
    gets_it 2 id 5 (run [ODisable] (Poll 5 (writer_packet 1 2) (run [OPoll 6 (writer_packet 1 3)] (ConnectReader 2 new_server).2))).
Proof.
  destruct (reader_meets_writer 1 2 5 [OPoll 6 (writer_packet 1 3)] [ODisable] new_server) as [(id & E & H) _].
  - exact new_server_ok.
  - reflexivity.
  - reflexivity.
  - lia.
  - lia.
  - by repeat constructor.
  - by repeat constructor.
  - exists id. split; [exact E|]. apply H.
    + split; [|exact I]. cbn. rewrite writer_announces by lia. congruence.
    + split; exact I.
Defined.
End CS.
